(* ===== verification/_CoqProject ===== *)
-Q . S2P
Prelude.v
Float64.v
Bytes.v
Text.v
Wire.v
Binary.v
Merge.v
Net.v
Payload.v
Settings.v
Admission.v
Credentials.v
Peer.v
Group.v
Message.v
Workspace.v
Plan.v
Prog.v
Transfer.v
Session.v
Duet.v
Cursor.v
PeerFile.v
PeerStore.v
PeerSafety.v
Ceremony.v
Table.v
Items.v
ItemSafety.v
Retention.v
Organization.v
Versions.v
Scan.v
Pinning.v
LocalMerge.v
LocalMergeSafety.v
History.v
PinPlaces.v
Source.v
SourceSafety.v
Ingest.v
Backup.v
CloudRow.v
Upload.v
UploadSafety.v
Services.v
ServicesSafety.v
CloudClient.v
CloudSync.v
CloudSafety.v
CloudPull.v
CloudPush.v
Semantic.v
Search.v
Pages.v
HistoryQuery.v
Authority.v
Clipboard.v
SourceCoverage.v
Offers.v
Capture.v
