(* ===== verification/Prelude.v ===== *)
(** CopyPaste: a verification development of its history and synchronisation.

    CopyPaste keeps one clipboard history on several paired devices.  This
    library models the Rust code that stores that history, decides what enters
    and leaves it, and makes the histories of paired devices agree: most of
    [src/crates/copypaste-p2p] and [src/crates/copypaste-core], the settings and
    payload vocabulary of [copypaste-ipc] and [copypaste-payload], the settings
    service and the capture gate of [copypaste-runtime], the capture loop of
    [copypaste-daemon], and cloud synchronisation: [copypaste-sync],
    [copypaste-cloud] and the module services of [copypaste-modules].  The models are pure functions, one per
    function of the source, under the source's names; integers are [Z] with the
    saturation or the check of the source written out; [Result] is
    [Prelude.result]; hash maps and SQL tables are [gmap].

    ** The parts and how they interact

    The daemon's loop ([Capture]) notices a change of the clipboard and takes
    what the policy allows ([Clipboard]); under the settings authority
    ([Authority]) the capture is classified and sealed ([Ingest], [Credentials],
    [Binary]) or offered as a file ([Offers]), and enters the history ([Items]
    over [Table]); retention then trims it ([Retention]).  Other captures pass
    the gate ([Admission]) directly.  Settings ([Settings])
    say what is admitted and kept.  When two paired devices ([Peer],
    [PeerStore], [Group]) connect, one runs [run_initiator] and the other
    [run_responder] ([Session]): they exchange summaries into a workspace
    ([Workspace]), plan which versions to ask for ([Plan]), serve and apply
    items ([Transfer]), and settle the cursor ([Cursor]).  The local end of a
    session is [Source], which scans the history ([Scan], [Versions]) and merges
    what arrives ([LocalMerge], decided by [Merge]).

    Shared vocabulary
    - [Prelude.v]: results, checked and saturating integers, maps, orders that
      are maxima; shared automation.
    - [Float64.v]: IEEE double bit patterns with [total_cmp] and [==].
    - [Bytes.v], [Text.v]: bytes, big-endian fields, [str::from_utf8] and
      [from_utf8_lossy], trimming, decimal numbers, framing.
    - [Payload.v]: [copypaste-payload], [content_type.rs],
      [clipboard_privacy.rs]: payload metadata and secrecy overrides.

    The peer protocol ([copypaste-p2p])
    - [Wire.v], [Message.v]: [protocol.rs], [protocol/codec.rs],
      [protocol/items.rs]: limits, items, messages and their binary envelopes.
    - [Merge.v]: [sync/merge.rs]: which of two versions survives.
    - [Net.v]: [netif.rs]: socket addresses, dialling policy, own addresses.
    - [Peer.v], [PeerFile.v], [PeerStore.v], [PeerSafety.v]: [peers/*.rs]: the
      stored pairings, their sealed file, every operation of the store, and
      what they promise across failed writes and restarts.
    - [Ceremony.v]: [peers/tentative.rs] and the commit of [pairing_ceremony.rs]: a
      pairing is written before the peer has confirmed it and settled or taken back
      afterwards; and every state the store can reach.
    - [Cursor.v]: [peers/cursor.rs]: where each session starts, and its floors.
    - [Group.v]: [group.rs]: the roster of the device group.
    - [Workspace.v], [Plan.v]: [sync/workspace.rs], [sync/plan.rs],
      [sync/summary.rs]: the workspace as a class with laws and its in-memory
      instance, the request plan and the cursor.
    - [Prog.v], [Transfer.v], [Session.v], [Duet.v]: [sync/source.rs],
      [sync/transfer.rs], [sync/application.rs], [sync/session.rs]: the effects
      of a session as a free monad, both halves, and two of them facing each
      other.

    The history ([copypaste-core])
    - [Table.v], [Items.v], [ItemSafety.v]: [storage/migrations],
      [storage/items.rs], [source_icons.rs], [privacy.rs]: the tables with their
      unique index and triggers, captures, recopies and deletions.
    - [Binary.v], [Credentials.v]: [binary.rs], [binary_reference.rs],
      [crypto/aead.rs], [credentials.rs]: sealed payloads and recognition of
      secrets.
    - [Retention.v]: [storage/retention.rs], [retention.rs]: the three bounds.
    - [Organization.v], [Pinning.v]: [storage/organization.rs],
      [storage/pinning.rs]: tags, memberships and pins as replicated records.
    - [Versions.v], [Scan.v]: [storage/versions.rs], [merge_page.rs]: the
      history as versions, and reading it in keyset pages.
    - [LocalMerge.v], [LocalMergeSafety.v], [History.v], [PinPlaces.v]:
      [core/sync/merge.rs], [prepare.rs], [batch.rs]: merging what arrives, every
      state the history can reach, and where its pins stand.
    - [Source.v], [SourceSafety.v]: [core/sync/source.rs] and the retention gate.
    - [Ingest.v]: [ingest.rs]: every way a capture enters; retention batches.
    - [Pages.v], [HistoryQuery.v]: [storage/page.rs], [storage/history.rs]: the
      history list and its filtered queries, a page at a time.
    - [Semantic.v]: [semantic.rs]: the kinds of text it can be filtered by.
    - [Search.v]: [storage/search.rs], [storage/fuzzy_search.rs]: what was typed
      as an expression of the full-text index, and the words it takes for
      misspellings.
    - [Backup.v]: [transfer/export.rs], [transfer/import.rs]: the text history
      taken out and put back.

    Settings and admission
    - [Settings.v]: [config.rs], [settings_record.rs], [settings_transition.rs].
    - [Admission.v]: [capture_admission.rs]: the gate as one atomic step per
      lock, under every interleaving.
    - [Authority.v]: [runtime/src/settings.rs]: the settings in force, on disk
      and in the gate, and the authority that captures and changes take in turn.

    From the clipboard to the history ([copypaste-daemon], [copypaste-core])
    - [Clipboard.v]: [clipboard/change.rs], [mod.rs], [format.rs] and the write of
      [clipboard/macos.rs]: when the clipboard is read, and what may be taken.
    - [SourceCoverage.v]: [source_coverage.rs], [macos_workspace.rs],
      [clipboard/macos.rs]: which applications may have written a copy, and the
      poll that hands it on.
    - [Offers.v]: [file_reference.rs], [file_transfer.rs],
      [storage/file_operations.rs]: files that enter the history by reference.
    - [Capture.v]: [capture.rs]: the loop, its retries, panics and shutdown.

    Cloud synchronisation ([copypaste-sync], [copypaste-cloud], [copypaste-modules])
    - [CloudRow.v]: [rest/item.rs], [crypto/row.rs], [crypto/sign.rs]: a sealed
      and signed row, and what makes it fit to send.
    - [Upload.v], [UploadSafety.v]: [source.rs], [scan.rs], [unreadable.rs],
      [store.rs]: the bounded scan of what a round uploads, and the sweep of the
      versions this device cannot open.
    - [Services.v], [ServicesSafety.v]: [modules/src/sync.rs], [host.rs],
      [storage/state.rs]: what a module may ask of the application, over the
      key/value table; rounds, writes and notes as a step relation.
    - [CloudClient.v], [CloudSync.v]: [rest/*.rs], [auth/*.rs], [sync/*.rs]: the
      requests with their retries and failures, and the driver: session
      recovery, upload, download, group exchange, cadence.  A computation of the
      driver keeps its changes when it fails; other tasks act on the session
      whenever it awaits.
    - [CloudSafety.v], [CloudPull.v], [CloudPush.v]: what the driver promises.

    Code outside this repository is a class: [GroupCrypto], [Digest], [ItemKey]
    and [PeerCipher] (cryptography), [PayloadCodecs], [MetadataJson], [WireJson],
    [CursorJson], [StoreJson], [OrgCodec], [SettingsJson], [OfferJson],
    [FileJson], [OfferBytes], [ExportJson], [UploadJson] and [CredentialCodecs] (base64, image
    headers and [serde_json]), [SyncKey] (the row cipher and MAC), [Backend] (one
    attempt of each HTTP request, its answer read), [RealArith] (one addition of doubles), [HashOrder] and
    [PeerOrder] (iteration order of hash maps), [Uuids], [QueryJson], [CharTables]
    (the character tables of the standard library), [Tokenizer] and [FullText]
    (the index of SQLite: its terms, its matches, their relevance),
    [SemanticParsers] (URLs, colours, JSON), [SourceIcons] (icons of applications)
    and [SqlJson].  Their laws, in classes
    of their own, state documented behaviour, and the [Demo] module of each file
    instantiates them.  Random ids, nonces and clocks are arguments.

    ** What the theorems show

    - Sessions ([Session.v], [Transfer.v], [Duet.v]), for every behaviour of the
      peer, the channel and the store: nothing is served that was not announced
      in the same session; nothing is applied that was not requested, promised
      and hashed; a completed session's cursor never passes an unsettled
      version; two sessions never deadlock nor meet an unexpected message.
    - Convergence ([Merge.v], [LocalMergeSafety.v]): the merge order is a strict
      total order on version keys, the SQL merge implements it where the store takes
      the version it decides for (a version whose content a live row of the same
      origin and minute already holds is left out), a deletion stays until it is
      outvoted, and replicas that saw the same versions agree.
    - The history ([History.v], [ItemSafety.v], [Ingest.v], [Scan.v]): every
      reachable state is well formed; an accepted capture is in it and is served
      as it was captured; a capture fails only for a named reason; pages are
      complete.
    - Reading ([Pages.v], [HistoryQuery.v], [Search.v]): whatever changes between
      two pages, nothing that keeps its place is lost or shown twice; a list and
      a query read to the end are exactly what they should be, the query in every
      history whose merged pins passed the wire's check; no token of a
      query is lost, and the alternatives of a word are the closest there are.
    - Retention and settings ([Retention.v], [SourceSafety.v], [Settings.v],
      [Admission.v]): the bounds hold after a sweep, a merge leaves the policy met or
      one task that will sweep, what cannot be read fails closed, permits follow the settings in force.
    - Captures ([Authority.v], [Clipboard.v], [SourceCoverage.v], [Offers.v],
      [Capture.v]): there is
      one value of the settings, whatever fails, panics or restarts between its
      steps; change detection answers exactly what is on the macOS pasteboard;
      nothing is handed on that an excluded application may have copied; an
      accepted capture is stored, cancelled, or reported, once and in order,
      and only if the policy allowed it at both ends and its privacy settings stood
      in between; a pending one is retried; a file offered again is the same entry.
    - Backups ([Backup.v]): an export accounts for every row, an import changes
      only what it reports, and the two together restore a history of up to
      10 000 items whose texts open.
    - Planning, codec, group and pairings ([Plan.v], [Message.v], [Group.v],
      [PeerSafety.v], [Ceremony.v], [Cursor.v]): paging computes the reference plan;
      round trips and bounds; rosters stay well formed; and in every state that
      operations, ceremonies, failed writes and restarts lead to, the peer store is
      well formed and reloads as it was, and revocations are final.

    - Uploads ([UploadSafety.v], [ServicesSafety.v]): however rounds, writes,
      notes and sign-outs interleave, a version is past the floor, waits on record,
      or was given to a round that ended well or still runs; the only exception is a
      version that opened again in a round that then failed
      ([failed_round_loses_a_recovered_version]); a module reaches only its own keys.
    - Downloads ([CloudRow.v], [CloudSafety.v], [CloudPull.v]): a signature binds
      every column; a sealed version is read back, once the reader's clock is at most a
      day behind its stamp; a pull from a service that answers and stands still gets
      past every row that is in the way, though a version uploaded late is behind the
      cursor ([late_upload_is_never_pulled]); a request ends within three attempts; a
      fenced session is never refreshed.

    ** Effects

    A session is a [Prog.prog]: a tree of the operations it awaits.  [run p tr r]
    holds when some environment makes [p] perform the trace [tr] and end with
    [r]; any operation may fail, which ends the session there, so a theorem
    about all runs covers a hostile peer, a failing store and a lost connection
    alike.  [Duet.step] runs two programs over two message queues.
    [Admission.step], [Authority.move], [SourceCoverage.step], [Capture.turn] and [History] are transition
    systems; a transaction that
    fails leaves the store as it was, as SQLite's rollback does.

    ** Bounds and fuel

    [Plan.PAGE_FUEL] bounds the loop over workspace pages; [plan_terminates]
    shows that it suffices for all a session can receive.  The eviction loops of
    [Retention.v] have more fuel than there are rows and each turn removes one;
    [sweep] has the size of the tables; snapshots are retried at most
    [SNAPSHOT_ATTEMPTS] times, as in the source; the loops over bytes
    ([Bytes.lossy], [Transfer.chunks]) have the length of their list as fuel.
    [Search.tokens_of] has the length of the text ([tokens_fuel]); reading to the
    end needs one page more than there are rows.
    [EXECUTE_FUEL] is the three attempts of a cloud request
    ([execute_is_bounded]); [CATALOG_FUEL] covers [MAX_GROUP_ROWS] rows
    ([catalog_fuel_is_enough]).
    Counters of statistics are unbounded [Z]: a session moves fewer than 2^32
    items.

    ** What is not modelled

    The encrypted channel and pairing handshakes, sockets and discovery (third
    party cryptography and I/O); the on-disk workspace's SQL beyond its interface;
    the query planner of SQLite (a statement is the map operation it denotes);
    full-text matching, history previews and facets, model matches; streaming of
    file contents and the record of file operations; the daemon but for its
    capture loop, above all the calls of the platform clipboards; the command
    line, the HTTP of the cloud client and its realtime channel, dynamic modules
    and the user interfaces; logging and cancellation.  The serde derivations are
    parameters.  A scan reads one snapshot of the history; a crash between a
    write and its note to the modules is not a step; the service is assumed to
    order ids by their bytes, as the client does. *)

From stdpp Require Export base tactics numbers list gmap strings sets sorting.
From Stdlib Require Export ZArith Lia.

#[export] Set Default Goal Selector "!".
#[global] Open Scope Z_scope.

(** * Fallible code: [Result<T, E>] *)

Inductive result (E A : Type) : Type :=
| Ok (a : A)
| Err (e : E).
Arguments Ok {E A} a.
Arguments Err {E A} e.

#[export] Instance result_ret E : MRet (result E) := fun A a => Ok a.
#[export] Instance result_bind E : MBind (result E) :=
  fun A B f r => match r with Ok a => f a | Err e => Err e end.
#[export] Instance result_fmap E : FMap (result E) :=
  fun A B f r => match r with Ok a => Ok (f a) | Err e => Err e end.
#[export] Instance result_eq_dec E A `{EqDecision E, EqDecision A} :
  EqDecision (result E A).
Proof. solve_decision. Defined.

(** [Option::ok_or_else]. *)
Definition ok_or {E A} (e : E) (o : option A) : result E A :=
  match o with Some a => Ok a | None => Err e end.

(** [Result::map_err]. *)
Definition map_err {E F A} (f : E -> F) (r : result E A) : result F A :=
  match r with Ok a => Ok a | Err e => Err (f e) end.

(** The early return [if b { return Err(e) }]. *)
Definition refuse_if {E} (b : bool) (e : E) : result E unit :=
  if b then Err e else Ok tt.

(** [for x in l { f(x)?; }]. *)
Fixpoint each {E A} (f : A -> result E unit) (l : list A) : result E unit :=
  match l with
  | [] => Ok tt
  | x :: l' => _ ← f x; each f l'
  end.

(** Inversion of [Ok] that leaves the two values as they are written. *)
Lemma ok_inj {E A} (a b : A) : @Ok E A a = Ok b -> a = b.
Proof. congruence. Qed.

Lemma refuse_if_false {E} b (e : E) : b = false -> refuse_if b e = Ok tt.
Proof. by intros ->. Qed.

Lemma bind_unit_ok {E B} (r : result E unit) (k : result E B) b :
  (_ ← r; k) = Ok b <-> r = Ok tt /\ k = Ok b.
Proof. destruct r as [[]|]; cbn; naive_solver. Qed.

Section Results.
Context {E A B : Type}.
Implicit Types (r : result E A) (f : A -> result E B).

Lemma bind_ok r f b :
  mbind f r = Ok b <-> exists a, r = Ok a /\ f a = Ok b.
Proof. destruct r; cbn; naive_solver. Qed.

Lemma ok_or_ok (e : E) (o : option A) a : ok_or e o = Ok a <-> o = Some a.
Proof. destruct o; cbn; naive_solver. Qed.

Lemma refuse_if_ok (b : bool) (e : E) u : refuse_if b e = Ok u <-> b = false.
Proof. destruct b, u; cbn; naive_solver. Qed.

Lemma map_err_ok {F} (g : E -> F) r a : map_err g r = Ok a <-> r = Ok a.
Proof. destruct r; cbn; naive_solver. Qed.

Lemma each_ok (g : A -> result E unit) (l : list A) u :
  each g l = Ok u <-> Forall (fun x => g x = Ok tt) l.
Proof.
  destruct u; induction l as [|x l IH]; cbn; [naive_solver|].
  rewrite Forall_cons, <- IH. destruct (g x) as [[]|]; cbn; naive_solver.
Qed.
End Results.

(** * Machine integers

    Every integer is a [Z] and every operation that can leave the width is
    written out: saturating, checked or wrapping, as the source has it. *)

Definition i64_min : Z := -2^63.
Definition i64_max : Z := 2^63 - 1.
Definition u32_max : Z := 2^32 - 1.
Definition u64_max : Z := 2^64 - 1.
(** [usize] on the 64-bit targets the program ships for. *)
Definition usize_max : Z := 2^64 - 1.

(** [i64::saturating_add], [usize::saturating_add], [u64::checked_add(1)],
    [u64::wrapping_add(1)]. *)
Definition i64_saturating_add (a b : Z) : Z := Z.max i64_min (Z.min i64_max (a + b)).
Definition usize_saturating_add (a b : Z) : Z := Z.min usize_max (a + b).
Definition usize_saturating_sub (a b : Z) : Z := Z.max 0 (a - b).
Definition u64_checked_succ (a : Z) : option Z :=
  if a + 1 <=? u64_max then Some (a + 1) else None.
Definition u64_wrapping_succ (a : Z) : Z := (a + 1) mod 2^64.

(** Lengths in bytes and in elements. *)
Definition str_len (s : string) : Z := Z.of_nat (String.length s).
Definition len {A} (l : list A) : Z := Z.of_nat (length l).

#[global] Arguments i64_min : simpl never.
#[global] Arguments i64_max : simpl never.
#[global] Arguments u32_max : simpl never.
#[global] Arguments u64_max : simpl never.
#[global] Arguments usize_max : simpl never.
#[global] Arguments i64_saturating_add : simpl never.
#[global] Arguments usize_saturating_add : simpl never.
#[global] Arguments u64_checked_succ : simpl never.
#[global] Arguments str_len : simpl never.
#[global] Arguments len : simpl never.

Lemma len_nonneg {A} (l : list A) : 0 <= len l.
Proof. unfold len; lia. Qed.
Lemma str_len_nonneg s : 0 <= str_len s.
Proof. unfold str_len; lia. Qed.
Lemma len_nil {A} : len (@nil A) = 0.
Proof. done. Qed.
Lemma len_cons {A} (x : A) l : len (x :: l) = len l + 1.
Proof. unfold len; cbn [length]; lia. Qed.
Lemma len_app {A} (l k : list A) : len (l ++ k) = len l + len k.
Proof. unfold len; rewrite length_app; lia. Qed.
Lemma len_zero {A} (l : list A) : len l = 0 <-> l = [].
Proof. destruct l; unfold len; cbn; split; intros; try done; lia. Qed.
Lemma str_len_zero s : str_len s = 0 <-> s = ""%string.
Proof. destruct s; unfold str_len; cbn; split; intros; try done; lia. Qed.

Lemma u64_checked_succ_some a b : u64_checked_succ a = Some b <-> b = a + 1 /\ a < u64_max.
Proof. unfold u64_checked_succ; case_match eqn:H; split; intros; naive_solver lia. Qed.

(** * Orders: Rust's [Ord::cmp] as a three-way comparison *)

(** What [Ord] promises of [cmp]: the class the merge comparators are built
    from. *)
Class OrdLaws {A} (cmp : A -> A -> comparison) : Prop := {
  cmp_eq_iff a b : cmp a b = Eq <-> a = b;
  cmp_antisym a b : cmp b a = CompOpp (cmp a b);
  cmp_trans a b c : cmp a b = Lt -> cmp b c = Lt -> cmp a c = Lt;
}.

(** [Ordering::then_with]. *)
Definition then_with (c d : comparison) : comparison :=
  match c with Eq => d | _ => c end.

(** [bool::cmp] ([false < true]), [str::cmp] (bytes, lexicographic) and the
    derived comparison of [Option] ([None < Some]) and of pairs. *)
Definition bool_cmp (a b : bool) : comparison :=
  match a, b with false, true => Lt | true, false => Gt | _, _ => Eq end.
Definition str_cmp : string -> string -> comparison := String.compare.
Definition option_cmp {A} (c : A -> A -> comparison) (a b : option A) : comparison :=
  match a, b with
  | None, None => Eq
  | None, Some _ => Lt
  | Some _, None => Gt
  | Some x, Some y => c x y
  end.
Definition pair_cmp {A B} (c : A -> A -> comparison) (d : B -> B -> comparison)
    (p q : A * B) : comparison :=
  then_with (c p.1 q.1) (d p.2 q.2).
Definition cmp_on {A B} (f : A -> B) (c : B -> B -> comparison) (x y : A) : comparison :=
  c (f x) (f y).

(** The larger of the two, the first on a tie. *)
Definition cmp_max {A} (c : A -> A -> comparison) (x y : A) : A :=
  match c x y with Lt => y | _ => x end.

#[export] Instance Z_ord : OrdLaws Z.compare.
Proof.
  split; intros.
  - apply Z.compare_eq_iff.
  - apply Z.compare_antisym.
  - rewrite Z.compare_lt_iff in *; lia.
Qed.

#[export] Instance bool_ord : OrdLaws bool_cmp.
Proof. split; [intros [] []; naive_solver|by intros [] []|by intros [] [] []]. Qed.

Lemma ascii_compare_N (a b : Ascii.ascii) :
  Ascii.compare a b = N.compare (Ascii.N_of_ascii a) (Ascii.N_of_ascii b).
Proof. done. Qed.

#[export] Instance str_ord : OrdLaws str_cmp.
Proof.
  split; unfold str_cmp.
  - intros a b; split; [apply String.compare_eq_iff|intros ->].
    induction b as [|x b IH]; cbn; [done|].
    by rewrite ascii_compare_N, N.compare_refl.
  - intros a b. by rewrite (String.compare_antisym b a).
  - intros a; induction a as [|x a IH]; intros [|y b] [|z c]; cbn; try done.
    rewrite !ascii_compare_N.
    destruct (N.compare_spec (Ascii.N_of_ascii x) (Ascii.N_of_ascii y)) as [Hxy|Hxy|Hxy],
      (N.compare_spec (Ascii.N_of_ascii y) (Ascii.N_of_ascii z)) as [Hyz|Hyz|Hyz],
      (N.compare_spec (Ascii.N_of_ascii x) (Ascii.N_of_ascii z)) as [Hxz|Hxz|Hxz];
      try done; try lia; apply IH.
Qed.

#[export] Instance option_ord {A} (c : A -> A -> comparison) `{!OrdLaws c} :
  OrdLaws (option_cmp c).
Proof.
  split.
  - intros [a|] [b|]; cbn; try naive_solver. rewrite cmp_eq_iff; naive_solver.
  - intros [a|] [b|]; cbn; try done. apply cmp_antisym.
  - intros [x|] [y|] [z|]; cbn; try done. apply cmp_trans.
Qed.

#[export] Instance pair_ord {A B} (c : A -> A -> comparison) (d : B -> B -> comparison)
    `{!OrdLaws c, !OrdLaws d} : OrdLaws (pair_cmp c d).
Proof.
  unfold pair_cmp; split.
  - intros [a b] [a' b']; cbn. rewrite pair_equal_spec.
    rewrite <- (cmp_eq_iff (cmp:=c)), <- (cmp_eq_iff (cmp:=d)).
    destruct (c a a'); cbn; naive_solver.
  - intros [a b] [a' b']; cbn. rewrite (cmp_antisym (cmp:=c) a a'), (cmp_antisym (cmp:=d) b b').
    by destruct (c a a').
  - intros [a b] [a' b'] [a'' b'']; cbn.
    destruct (c a a') eqn:H1, (c a' a'') eqn:H2; cbn; try done.
    + apply cmp_eq_iff in H1 as <-. rewrite H2; cbn. apply cmp_trans.
    + apply cmp_eq_iff in H1 as <-. by rewrite H2.
    + apply cmp_eq_iff in H2 as <-. by rewrite H1.
    + intros _ _. by rewrite (cmp_trans _ _ _ H1 H2).
Qed.

Section Max.
Context {A} (c : A -> A -> comparison) `{!OrdLaws c}.

Lemma cmp_refl a : c a a = Eq.
Proof. by apply cmp_eq_iff. Qed.

Lemma cmp_gt_lt a b : c a b = Gt <-> c b a = Lt.
Proof. rewrite (cmp_antisym (cmp:=c) a b). destruct (c a b); cbn; naive_solver. Qed.

Lemma cmp_max_comm a b : cmp_max c a b = cmp_max c b a.
Proof.
  unfold cmp_max. rewrite (cmp_antisym (cmp:=c) a b).
  destruct (c a b) eqn:H; cbn; [by apply cmp_eq_iff in H|done..].
Qed.

Lemma cmp_max_idemp a : cmp_max c a a = a.
Proof. unfold cmp_max. by rewrite cmp_refl. Qed.

Lemma cmp_max_assoc x y z : cmp_max c x (cmp_max c y z) = cmp_max c (cmp_max c x y) z.
Proof.
  unfold cmp_max.
  destruct (c x y) eqn:Hxy, (c y z) eqn:Hyz; rewrite ?Hxy, ?Hyz; try done;
    repeat match goal with H : c _ _ = Eq |- _ => apply cmp_eq_iff in H; subst end;
    rewrite ?cmp_refl, ?Hxy, ?Hyz; try done.
  - by rewrite (cmp_trans _ _ _ Hxy Hyz).
  - pose proof (cmp_trans z y x (proj1 (cmp_gt_lt _ _) Hyz) (proj1 (cmp_gt_lt _ _) Hxy)) as H.
    by rewrite (proj2 (cmp_gt_lt x z) H).
Qed.

Lemma cmp_max_case a b : cmp_max c a b = a \/ cmp_max c a b = b.
Proof. unfold cmp_max. destruct (c a b); auto. Qed.
End Max.

(** * Ordered and filtered maps *)

(** [BTreeMap] iterates in the byte order of its keys. *)
Definition str_le (a b : string) : Prop := str_cmp a b <> Gt.
#[export] Instance str_le_dec a b : Decision (str_le a b).
Proof. unfold str_le. apply _. Defined.
#[export] Instance fst_str_le_dec {A} (p q : string * A) : Decision (str_le p.1 q.1).
Proof. apply _. Defined.
Definition btree_iter {A} (m : gmap string A) : list (string * A) :=
  merge_sort (fun p q => str_le p.1 q.1) (map_to_list m).

Lemma btree_iter_perm {A} (m : gmap string A) : btree_iter m ≡ₚ map_to_list m.
Proof. apply merge_sort_Permutation. Qed.
Lemma elem_of_btree_iter {A} (m : gmap string A) k v :
  (k, v) ∈ btree_iter m <-> m !! k = Some v.
Proof. rewrite btree_iter_perm. apply elem_of_map_to_list. Qed.

(** [map.retain(|k, v| f(k, v))]. *)
Definition map_retain {A} (f : string -> A -> bool) (m : gmap string A) : gmap string A :=
  filter (fun p => f p.1 p.2 = true) m.
Lemma map_retain_some {A} (f : string -> A -> bool) m k v :
  map_retain f m !! k = Some v <-> m !! k = Some v /\ f k v = true.
Proof. apply map_lookup_filter_Some. Qed.
Lemma map_retain_none {A} (f : string -> A -> bool) m k :
  map_retain f m !! k = None <-> forall v, m !! k = Some v -> f k v = false.
Proof.
  unfold map_retain. rewrite map_lookup_filter_None. cbn.
  split; intros H; [intros v Hv|].
  - destruct (f k v) eqn:E; [|done]. destruct H as [H|H]; [congruence|by destruct (H _ Hv)].
  - destruct (m !! k) as [v|] eqn:E; [right|by left].
    intros w [= <-] Hw. by rewrite (H v eq_refl) in Hw.
Qed.

(** [map.contains_key(k)], [map.len()]. *)
Definition contains_key {A} (m : gmap string A) (k : string) : bool :=
  match m !! k with Some _ => true | None => false end.
Definition map_len {A} (m : gmap string A) : Z := Z.of_nat (size m).
#[global] Arguments map_len : simpl never.

Lemma contains_key_true {A} (m : gmap string A) k : contains_key m k = true <-> is_Some (m !! k).
Proof. unfold contains_key. destruct (m !! k); split; naive_solver. Qed.
Lemma contains_key_false {A} (m : gmap string A) k : contains_key m k = false <-> m !! k = None.
Proof. unfold contains_key. destruct (m !! k); split; naive_solver. Qed.
Lemma map_len_insert_new {A} (m : gmap string A) k v :
  m !! k = None -> map_len (<[k := v]> m) = map_len m + 1.
Proof. intros H. unfold map_len. rewrite map_size_insert_None by done. lia. Qed.
Lemma map_len_insert_old {A} (m : gmap string A) k v :
  is_Some (m !! k) -> map_len (<[k := v]> m) = map_len m.
Proof. intros H. unfold map_len. by rewrite map_size_insert_Some. Qed.
Lemma map_len_insert_le {A} (m : gmap string A) k v :
  map_len m <= map_len (<[k := v]> m) <= map_len m + 1.
Proof.
  destruct (m !! k) as [w|] eqn:E.
  - rewrite map_len_insert_old by eauto. lia.
  - rewrite map_len_insert_new by done. lia.
Qed.
Lemma map_len_delete_le {A} (m : gmap string A) k : map_len (delete k m) <= map_len m.
Proof.
  unfold map_len. destruct (m !! k) as [w|] eqn:E.
  - rewrite map_size_delete_Some by eauto. lia.
  - by rewrite delete_id.
Qed.
Lemma map_len_retain_le {A} (f : string -> A -> bool) m : map_len (map_retain f m) <= map_len m.
Proof.
  unfold map_len, map_retain. apply inj_le, map_subseteq_size, map_filter_subseteq.
Qed.

(** Writing [Some v] or nothing at a key, and undoing it. *)
Definition map_put {A} (k : string) (o : option A) (m : gmap string A) : gmap string A :=
  match o with Some v => <[k := v]> m | None => delete k m end.
Lemma map_put_undo {A} (m : gmap string A) k o : map_put k (m !! k) (map_put k o m) = m.
Proof.
  assert (Hput : forall x (n : gmap string A), map_put k x n = partial_alter (fun _ => x) k n) by by intros [].
  rewrite !Hput, partial_alter_partial_alter_eq. apply partial_alter_self.
Qed.
