(* ===== verification/Float64.v ===== *)
(** IEEE-754 binary64 values as their bit patterns.

    The program never computes with [f64]: a pin order is compared
    ([f64::total_cmp], derived [PartialEq]), tested ([f64::is_finite]) and
    copied.  All of these are functions of the bits, so a value is the signed
    64-bit integer [f64::to_bits() as i64]. *)

From S2P Require Import Prelude.

Module Float64.

Definition f64 := Z.

(** The fields of the representation. *)
Definition exponent (x : f64) : Z := Z.land (Z.shiftr x 52) 2047.
Definition mantissa (x : f64) : Z := Z.land x (2^52 - 1).
Definition magnitude (x : f64) : Z := Z.land x (2^63 - 1).

Definition is_finite (x : f64) : bool := negb (exponent x =? 2047).
Definition is_nan (x : f64) : bool := (exponent x =? 2047) && negb (mantissa x =? 0).

(** [PartialEq for f64]: NaN equals nothing, the two zeros are equal. *)
Definition f64_eqb (x y : f64) : bool :=
  negb (is_nan x) && negb (is_nan y)
  && ((x =? y) || ((magnitude x =? 0) && (magnitude y =? 0))).

(** [f64::total_cmp] as the standard library computes it: the bits of a
    negative number other than the sign are flipped, then the two's complement
    integers are compared. *)
Definition total_key (x : f64) : Z :=
  if x <? 0 then Z.lxor x (2^63 - 1) else x.
Definition total_cmp (x y : f64) : comparison := Z.compare (total_key x) (total_key y).

(** Bit patterns of values used in examples. *)
Definition zero : f64 := 0.
Definition one : f64 := 4607182418800017408.
Definition minus_one : f64 := -4616189618054758400.
Definition infinity : f64 := 9218868437227405312.
Definition nan : f64 := 9221120237041090560.

Lemma total_key_neg x : x < 0 -> total_key x < 0.
Proof.
  intros Hx. unfold total_key. destruct (Z.ltb_spec x 0); [|lia].
  assert (0 <= 2^63 - 1) by done.
  destruct (Z.lt_ge_cases (Z.lxor x (2^63 - 1)) 0) as [?|Hge]; [done|].
  apply Z.lxor_nonneg in Hge. lia.
Qed.

Lemma total_key_inj x y : total_key x = total_key y -> x = y.
Proof.
  intros H. destruct (Z.lt_ge_cases x 0) as [Hx|Hx], (Z.lt_ge_cases y 0) as [Hy|Hy].
  - revert H. unfold total_key. rewrite !(proj2 (Z.ltb_lt _ _)) by done. intros H.
    apply (f_equal (fun z => Z.lxor z (2^63 - 1))) in H.
    by rewrite !Z.lxor_assoc, !Z.lxor_nilpotent, !Z.lxor_0_r in H.
  - apply total_key_neg in Hx. revert H Hx. unfold total_key at 2.
    destruct (Z.ltb_spec y 0); lia.
  - apply total_key_neg in Hy. revert H Hy. unfold total_key at 1.
    destruct (Z.ltb_spec x 0); lia.
  - revert H. unfold total_key. by rewrite !(proj2 (Z.ltb_ge _ _)).
Qed.

#[export] Instance total_cmp_ord : OrdLaws total_cmp.
Proof.
  unfold total_cmp; split.
  - intros a b. rewrite Z.compare_eq_iff. split; [apply total_key_inj|by intros ->].
  - intros a b. apply Z.compare_antisym.
  - intros a b c. rewrite !Z.compare_lt_iff. lia.
Qed.

Lemma f64_eqb_finite_refl x : is_finite x = true -> f64_eqb x x = true.
Proof.
  unfold is_finite, f64_eqb, is_nan. intros Hf.
  apply negb_true_iff in Hf. rewrite Hf; cbn. by rewrite Z.eqb_refl.
Qed.

Example total_cmp_orders_signs : total_cmp minus_one zero = Lt /\ total_cmp zero one = Lt
  /\ total_cmp one infinity = Lt /\ total_cmp infinity nan = Lt.
Proof. done. Qed.
Example nan_differs_from_itself : f64_eqb nan nan = false /\ is_finite nan = false.
Proof. done. Qed.

End Float64.

Export Float64.
