(* ===== verification/Bytes.v ===== *)
(** Byte vectors: big-endian integers, slicing and UTF-8 validity.

    A [Vec<u8>] is a list of [ascii]; a [String] is a Coq [string], read as its
    UTF-8 bytes. *)

From S2P Require Import Prelude.
From Stdlib Require Export Ascii.

Module Bytes.

Definition byte := ascii.
Definition bytes := list byte.

Definition byte_val (b : byte) : Z := Z.of_N (N_of_ascii b).
Definition byte_of (z : Z) : byte := ascii_of_N (Z.to_N (z mod 256)).

(** [str::as_bytes], [String::from_utf8] without its check. *)
Definition as_bytes (s : string) : bytes := String.list_ascii_of_string s.
Definition of_bytes (b : bytes) : string := String.string_of_list_ascii b.

Lemma byte_val_range b : 0 <= byte_val b < 256.
Proof. unfold byte_val. pose proof (N_ascii_bounded b). lia. Qed.

Lemma byte_val_of z : byte_val (byte_of z) = z mod 256.
Proof.
  unfold byte_val, byte_of. pose proof (Z.mod_pos_bound z 256 ltac:(lia)).
  rewrite N_ascii_embedding; lia.
Qed.

Lemma byte_of_val b : byte_of (byte_val b) = b.
Proof.
  unfold byte_of. rewrite Z.mod_small by apply byte_val_range.
  unfold byte_val. by rewrite N2Z.id, ascii_N_embedding.
Qed.

Lemma of_as_bytes s : of_bytes (as_bytes s) = s.
Proof. apply String.string_of_list_ascii_of_string. Qed.
Lemma as_of_bytes b : as_bytes (of_bytes b) = b.
Proof. apply String.list_ascii_of_string_of_list_ascii. Qed.
Lemma len_as_bytes s : len (as_bytes s) = str_len s.
Proof.
  unfold len, str_len, as_bytes. f_equal.
  induction s as [|a s IH]; cbn; [done|]. by rewrite IH.
Qed.
Lemma str_len_of_bytes b : str_len (of_bytes b) = len b.
Proof. by rewrite <- len_as_bytes, as_of_bytes. Qed.
Lemma as_bytes_nil s : as_bytes s = [] <-> s = ""%string.
Proof. by destruct s. Qed.

(** [uN::to_be_bytes] and [uN::from_be_bytes] over [n] bytes. *)
Fixpoint to_be (n : nat) (z : Z) : bytes :=
  match n with
  | O => []
  | S n' => byte_of (z / 256 ^ Z.of_nat n') :: to_be n' (z mod 256 ^ Z.of_nat n')
  end.
Fixpoint from_be (l : bytes) : Z :=
  match l with
  | [] => 0
  | b :: l' => byte_val b * 256 ^ len l' + from_be l'
  end.

Lemma length_to_be n z : length (to_be n z) = n.
Proof. revert z; induction n as [|n IH]; intros z; cbn; [done|]. by rewrite IH. Qed.

Lemma len_to_be n z : len (to_be n z) = Z.of_nat n.
Proof. unfold len. by rewrite length_to_be. Qed.

Lemma from_be_range l : 0 <= from_be l < 256 ^ len l.
Proof.
  induction l as [|b l IH]; cbn [from_be]; [done|].
  pose proof (byte_val_range b). pose proof (len_nonneg l).
  rewrite len_cons, Z.pow_add_r by lia. nia.
Qed.

Lemma from_to_be n z : 0 <= z < 256 ^ Z.of_nat n -> from_be (to_be n z) = z.
Proof.
  revert z; induction n as [|n IH]; intros z Hz; cbn [to_be from_be].
  - change (256 ^ Z.of_nat 0) with 1 in Hz. lia.
  - assert (0 < 256 ^ Z.of_nat n) by (apply Z.pow_pos_nonneg; lia).
    replace (256 ^ Z.of_nat (S n)) with (256 * 256 ^ Z.of_nat n) in Hz
      by (rewrite Nat2Z.inj_succ, Z.pow_succ_r by lia; done).
    unfold len. rewrite length_to_be, byte_val_of, IH by (apply Z.mod_pos_bound; lia).
    rewrite (Z.mod_small (z / _) 256).
    + pose proof (Z.div_mod z (256 ^ Z.of_nat n)). lia.
    + split; [apply Z.div_pos; lia|apply Z.div_lt_upper_bound; lia].
Qed.

Lemma to_from_be l : to_be (length l) (from_be l) = l.
Proof.
  induction l as [|b l IH]; cbn [from_be length to_be]; [done|].
  fold (len l). pose proof (from_be_range l).
  rewrite Z.div_add_l, Z.div_small, Z.add_0_r, byte_of_val by lia.
  by rewrite Z.add_comm, Z.mod_add, Z.mod_small, IH by lia.
Qed.

(** [slice.get(at..at + n)]: [None] when the range leaves the slice. *)
Definition get_range (l : bytes) (at_ n : nat) : option bytes :=
  if (at_ + n <=? length l)%nat then Some (take n (drop at_ l)) else None.

(** [slice.starts_with(prefix)]. *)
Fixpoint starts_with (p l : bytes) : bool :=
  match p, l with
  | [], _ => true
  | a :: p', b :: l' => Ascii.eqb a b && starts_with p' l'
  | _ :: _, [] => false
  end.

Lemma starts_with_spec p l : starts_with p l = true <-> exists k, l = p ++ k.
Proof.
  revert l; induction p as [|a p IH]; intros [|b l]; cbn; try naive_solver.
  rewrite andb_true_iff, Ascii.eqb_eq, IH. naive_solver.
Qed.

Lemma get_range_some l i n k : get_range l i n = Some k -> length k = n /\ (i + n <= length l)%nat.
Proof.
  unfold get_range. case_match eqn:H; intros; simplify_eq.
  apply Nat.leb_le in H. rewrite length_take, length_drop. lia.
Qed.

Lemma get_range_app p k s : get_range (p ++ k ++ s) (length p) (length k) = Some k.
Proof.
  unfold get_range. rewrite !length_app.
  destruct (Nat.leb_spec (length p + length k) (length p + (length k + length s))); [|lia].
  by rewrite drop_app_length, take_app_length.
Qed.

Lemma starts_with_app p l : starts_with p (p ++ l) = true.
Proof. apply starts_with_spec. eauto. Qed.

(** * UTF-8

    The well-formedness check of [String::from_utf8]: Unicode's table of
    well-formed byte sequences. *)
Definition in_range (lo hi : Z) (b : byte) : bool :=
  (lo <=? byte_val b) && (byte_val b <=? hi).
Definition continuation : byte -> bool := in_range 128 191.

Fixpoint utf8_valid (l : bytes) : bool :=
  match l with
  | [] => true
  | a :: l1 =>
    if in_range 0 127 a then utf8_valid l1 else
    match l1 with
    | [] => false
    | b :: l2 =>
      if in_range 194 223 a then continuation b && utf8_valid l2 else
      match l2 with
      | [] => false
      | c :: l3 =>
        if in_range 224 239 a then
          (if byte_val a =? 224 then in_range 160 191 b
           else if byte_val a =? 237 then in_range 128 159 b
           else continuation b)
          && continuation c && utf8_valid l3
        else
        match l3 with
        | [] => false
        | d :: l4 =>
          in_range 240 244 a
          && (if byte_val a =? 240 then in_range 144 191 b
              else if byte_val a =? 244 then in_range 128 143 b
              else continuation b)
          && continuation c && continuation d && utf8_valid l4
        end
      end
    end
  end.

(** [String::from_utf8]. *)
Definition from_utf8 (l : bytes) : option string :=
  if utf8_valid l then Some (of_bytes l) else None.

(** [String::from_utf8_lossy]: the length of the next character, or of the
    longest start of one that is not well formed. *)
Definition second_of_three (a b : byte) : bool :=
  if byte_val a =? 224 then in_range 160 191 b
  else if byte_val a =? 237 then in_range 128 159 b else continuation b.
Definition second_of_four (a b : byte) : bool :=
  if byte_val a =? 240 then in_range 144 191 b
  else if byte_val a =? 244 then in_range 128 143 b else continuation b.
Definition next_char (l : bytes) : nat * bool :=
  match l with
  | [] => (0%nat, false)
  | a :: l1 =>
    let next (f : byte -> bool) (i : nat) : bool := match l1 !! i with Some b => f b | None => false end in
    if in_range 0 127 a then (1%nat, true)
    else if in_range 194 223 a then if next continuation 0%nat then (2%nat, true) else (1%nat, false)
    else if in_range 224 239 a then
      if next (second_of_three a) 0%nat
      then if next continuation 1%nat then (3%nat, true) else (2%nat, false)
      else (1%nat, false)
    else if in_range 240 244 a then
      if next (second_of_four a) 0%nat
      then if next continuation 1%nat
           then if next continuation 2%nat then (4%nat, true) else (3%nat, false)
           else (2%nat, false)
      else (1%nat, false)
    else (1%nat, false)
  end.
Definition REPLACEMENT : bytes := [byte_of 239; byte_of 191; byte_of 189].
Fixpoint lossy (fuel : nat) (l : bytes) : bytes :=
  match fuel, l with
  | S fuel, _ :: _ =>
    let '(n, ok) := next_char l in
    (if ok then take n l else REPLACEMENT) ++ lossy fuel (drop n l)
  | _, _ => []
  end.
Definition from_utf8_lossy (l : bytes) : string := of_bytes (lossy (length l) l).

Lemma next_char_valid a l : utf8_valid (a :: l) = true ->
  exists n, next_char (a :: l) = (S n, true) /\ (n <= length l)%nat /\ utf8_valid (drop n l) = true.
Proof.
  cbn [utf8_valid next_char]. destruct (in_range 0 127 a); [intros H; exists 0%nat; split_and!; [done|lia|done]|].
  destruct l as [|b l]; [done|]. destruct (in_range 194 223 a).
  { intros [Hb H]%andb_true_iff. exists 1%nat. cbn. rewrite Hb. split_and!; [done|cbn; lia|by rewrite drop_0]. }
  destruct l as [|c l]; [done|]. destruct (in_range 224 239 a).
  { fold (second_of_three a b). intros [[Hb Hc]%andb_true_iff H]%andb_true_iff. exists 2%nat.
    cbn. rewrite Hb, Hc. split_and!; [done|cbn; lia|by rewrite drop_0]. }
  destruct l as [|d l]; [done|]. fold (second_of_four a b).
  intros [[[[Ha Hb]%andb_true_iff Hc]%andb_true_iff Hd]%andb_true_iff H]%andb_true_iff. exists 3%nat.
  cbn. rewrite Ha, Hb, Hc, Hd. split_and!; [done|cbn; lia|by rewrite drop_0].
Qed.
Lemma lossy_valid fuel l : (length l <= fuel)%nat -> utf8_valid l = true -> lossy fuel l = l.
Proof.
  revert l; induction fuel as [|fuel IH]; intros [|a l] Hf Hv; cbn in Hf; try done; [lia|].
  cbn [lossy]. destruct (next_char_valid _ _ Hv) as (n & -> & Hn & Hd). cbn [take drop].
  rewrite IH; [|rewrite length_drop; lia|done]. cbn. f_equal. apply take_drop.
Qed.
Lemma from_utf8_lossy_valid s : utf8_valid (as_bytes s) = true -> from_utf8_lossy (as_bytes s) = s.
Proof. intros H. unfold from_utf8_lossy. rewrite lossy_valid by done. apply of_as_bytes. Qed.

(** [str::chars().any(char::is_control)] of a valid string: the general
    category Cc is U+0000..U+001F, U+007F and U+0080..U+009F, the last block
    spelled C2 80..9F. *)
Fixpoint has_control (l : bytes) : bool :=
  match l with
  | [] => false
  | a :: l' =>
    in_range 0 31 a || (byte_val a =? 127)
    || match l' with b :: _ => (byte_val a =? 194) && in_range 128 159 b | [] => false end
    || has_control l'
  end.

Definition is_ascii_digit : byte -> bool := in_range 48 57.
Definition is_ascii_upper : byte -> bool := in_range 65 90.
Definition is_ascii_lower : byte -> bool := in_range 97 122.
Definition is_ascii_alphanumeric (b : byte) : bool :=
  is_ascii_digit b || is_ascii_upper b || is_ascii_lower b.
(** [b.is_ascii_digit() || (b'a'..=b'f').contains(&b)]. *)
Definition is_lower_hex (b : byte) : bool := is_ascii_digit b || in_range 97 102 b.

Example utf8_accepts : utf8_valid (as_bytes "héllo €") = true.
Proof. done. Qed.
Example utf8_refuses_overlong : utf8_valid [byte_of 192; byte_of 128] = false.
Proof. done. Qed.
Example lossy_keeps_text : from_utf8_lossy (byte_of 97 :: byte_of 255 :: byte_of 226 :: byte_of 130 :: [byte_of 98])
  = of_bytes (byte_of 97 :: REPLACEMENT ++ REPLACEMENT ++ [byte_of 98]).
Proof. done. Qed.
Example c1_control_found : has_control [byte_of 194; byte_of 133] = true.
Proof. done. Qed.

(** What [std::fs::read] finds. *)
Inductive Read := Missing | Unreadable | Contents (b : bytes).

#[global] Arguments to_be : simpl never.
#[global] Arguments from_be : simpl never.


(** A spelling of any countable type, for concrete instances of serializers. *)
Fixpoint pos_bits (p : positive) : bytes :=
  match p with
  | xH => []
  | xO p => byte_of 0 :: pos_bits p
  | xI p => byte_of 1 :: pos_bits p
  end.
Definition bits_pos (b : bytes) : positive :=
  foldr (fun x p => if byte_val x =? 0 then xO p else xI p) xH b.
Lemma bits_pos_bits p : bits_pos (pos_bits p) = p.
Proof. induction p as [p IH|p IH|]; [| |done]; unfold bits_pos in *; cbn [pos_bits foldr]; by rewrite IH. Qed.

Definition encode_bytes {A} `{Countable A} (x : A) : bytes := pos_bits (encode x).
Definition decode_bytes {A} `{Countable A} (b : bytes) : option A := decode (bits_pos b).
Lemma decode_encode_bytes {A} `{Countable A} (x : A) : decode_bytes (encode_bytes x) = Some x.
Proof. unfold decode_bytes, encode_bytes. rewrite bits_pos_bits. apply decode_encode. Qed.
End Bytes.

Export Bytes.
