(* ===== verification/Text.v ===== *)
(** Operations of the standard library on text that several components use:
    decimal numbers, trimming, control characters, and the framing of two fields
    by a length and a colon. *)

From S2P Require Import Prelude Bytes.
From Stdlib Require DecimalString DecimalNat.

(** ** Text *)

(** [format!("{}", n)] of a [usize]. *)
Definition show_nat (n : nat) : string := DecimalString.NilZero.string_of_uint (Nat.to_uint n).

(** One leading or trailing whitespace character of a UTF-8 text, and the rest;
    the second reads the bytes from the end. *)
Definition blank2 (a b : byte) : bool :=
  (byte_val a =? 194) && ((byte_val b =? 133) || (byte_val b =? 160)).
Definition blank3 (a b c : byte) : bool :=
  ((byte_val a =? 225) && (byte_val b =? 154) && (byte_val c =? 128))
  || ((byte_val a =? 226) && (byte_val b =? 128)
      && (in_range 128 138 c || (byte_val c =? 168) || (byte_val c =? 169) || (byte_val c =? 175)))
  || ((byte_val a =? 226) && (byte_val b =? 129) && (byte_val c =? 159))
  || ((byte_val a =? 227) && (byte_val b =? 128) && (byte_val c =? 128)).
Definition blank1 (a : byte) : bool := in_range 9 13 a || (byte_val a =? 32).
Fixpoint trim_start (l : bytes) : bytes :=
  match l with
  | a :: k => if blank1 a then trim_start k else
    match k with
    | b :: k' => if blank2 a b then trim_start k' else
      match k' with
      | c :: k'' => if blank3 a b c then trim_start k'' else l
      | [] => l
      end
    | [] => l
    end
  | [] => []
  end.
Fixpoint trim_end_rev (l : bytes) : bytes :=
  match l with
  | a :: k => if blank1 a then trim_end_rev k else
    match k with
    | b :: k' => if blank2 b a then trim_end_rev k' else
      match k' with
      | c :: k'' => if blank3 c b a then trim_end_rev k'' else l
      | [] => l
      end
    | [] => l
    end
  | [] => []
  end.
(** [str::trim]. *)
Definition trim (s : string) : string :=
  of_bytes (List.rev (trim_end_rev (List.rev (trim_start (as_bytes s))))).
(** [text.trim().is_empty()]. *)
Definition is_blank (l : bytes) : bool := match trim_start l with [] => true | _ => false end.
(** [to_ascii_lowercase] of a byte. *)
Definition ascii_lower (b : byte) : byte :=
  if is_ascii_upper b then byte_of (byte_val b + 32) else b.
(** [COLLATE NOCASE]: ASCII letters only. *)
Definition nocase_eqb (a b : string) : bool :=
  bool_decide (ascii_lower <$> as_bytes a = ascii_lower <$> as_bytes b).

(** ** Trimming *)

(** What follows one whitespace character at the start. *)
Definition blank_head (l : bytes) : option bytes :=
  match l with
  | a :: k => if blank1 a then Some k else
    match k with
    | b :: k' => if blank2 a b then Some k' else
      match k' with
      | c :: k'' => if blank3 a b c then Some k'' else None
      | [] => None
      end
    | [] => None
    end
  | [] => None
  end.
Lemma trim_start_step l : trim_start l = match blank_head l with Some k => trim_start k | None => l end.
Proof.
  destruct l as [|a [|b [|c k]]]; [done| | |].
  - cbn. by destruct (blank1 a).
  - cbn [trim_start blank_head]. destruct (blank1 a); [done|]. by destruct (blank2 a b).
  - cbn [trim_start blank_head]. destruct (blank1 a); [done|]. destruct (blank2 a b); [done|].
    by destruct (blank3 a b c).
Qed.
Lemma blank_head_app l k q : blank_head l = Some k -> blank_head (l ++ q) = Some (k ++ q).
Proof.
  destruct l as [|a [|b [|c l]]]; cbn; [done|..].
  - destruct (blank1 a); [by intros [= <-]|done].
  - destruct (blank1 a); [by intros [= <-]|]. destruct (blank2 a b); [by intros [= <-]|done].
  - destruct (blank1 a); [by intros [= <-]|]. destruct (blank2 a b); [by intros [= <-]|].
    destruct (blank3 a b c); [by intros [= <-]|done].
Qed.
Lemma blank_head_length l k : blank_head l = Some k -> (length k < length l)%nat.
Proof.
  destruct l as [|a [|b [|c l]]]; cbn; [done|..]; repeat case_match; intros [= <-]; cbn; lia.
Qed.
Lemma trim_start_head l : blank_head (trim_start l) = None /\ (length (trim_start l) <= length l)%nat.
Proof.
  induction l as [l IH] using (induction_ltof1 _ (@length byte)). unfold ltof in IH.
  rewrite trim_start_step. destruct (blank_head l) as [k|] eqn:E; [|by split].
  pose proof (blank_head_length _ _ E). destruct (IH k) as [H1 H2]; [lia|]. split; [done|lia].
Qed.
(** From the end, a character is taken off the front of the reversed bytes. *)
Lemma trim_end_step r :
  exists b, r = b ++ trim_end_rev r /\
    (trim_end_rev r = [] -> forall q, trim_start (List.rev b ++ q) = trim_start q).
Proof.
  induction r as [r IH] using (induction_ltof1 _ (@length byte)). unfold ltof in IH.
  assert (Hstep : forall b k, r = b ++ k -> b <> [] -> trim_end_rev r = trim_end_rev k ->
            (forall q, blank_head (List.rev b ++ q) = Some q) ->
            exists b, r = b ++ trim_end_rev r /\
              (trim_end_rev r = [] -> forall q, trim_start (List.rev b ++ q) = trim_start q)).
  { intros b k Hr Hb Ht Hh. destruct (IH k) as (b' & Hk & Hq).
    { subst r. rewrite length_app. destruct b; [done|cbn; lia]. }
    exists (b ++ b'). rewrite Ht. split; [rewrite <- app_assoc; by rewrite <- Hk|].
    intros Hn q. rewrite List.rev_app_distr, <- app_assoc, (Hq Hn), trim_start_step. by rewrite Hh. }
  assert (Hstop : trim_end_rev r = r -> exists b, r = b ++ trim_end_rev r /\
            (trim_end_rev r = [] -> forall q, trim_start (List.rev b ++ q) = trim_start q)).
  { intros ->. by exists []. }
  destruct r as [|a k]; [by apply Hstop|]. cbn [trim_end_rev] in *. destruct (blank1 a) eqn:E1.
  { apply (Hstep [a] k); try done. intros q. cbn. by rewrite E1. }
  destruct k as [|b k]; [by apply Hstop|]. destruct (blank2 b a) eqn:E2.
  { apply (Hstep [a; b] k); try done. intros q. cbn. rewrite E2.
    destruct (blank1 b) eqn:Eb; [|done]. exfalso. revert Eb E2. unfold blank1, blank2, in_range. lia. }
  destruct k as [|c k]; [by apply Hstop|]. destruct (blank3 c b a) eqn:E3; [|by apply Hstop].
  apply (Hstep [a; b; c] k); try done. intros q. cbn. rewrite E3.
  destruct (blank1 c) eqn:Ec; [exfalso; revert Ec E3; unfold blank1, blank3, in_range; lia|].
  destruct (blank2 c b) eqn:Ecb; [exfalso; revert Ecb E3; unfold blank2, blank3, in_range; lia|done].
Qed.
Lemma trim_end_rev_idem r : trim_end_rev (trim_end_rev r) = trim_end_rev r.
Proof.
  induction r as [r IH] using (induction_ltof1 _ (@length byte)). unfold ltof in IH.
  destruct r as [|a [|b [|c k]]]; [done|..]; cbn [trim_end_rev].
  - destruct (blank1 a) eqn:E; [done|]. cbn. by rewrite E.
  - destruct (blank1 a) eqn:E1; [apply (IH [b]); cbn; lia|].
    destruct (blank2 b a) eqn:E2; [done|]. cbn. by rewrite E1, E2.
  - destruct (blank1 a) eqn:E1; [apply (IH (b :: c :: k)); cbn; lia|].
    destruct (blank2 b a) eqn:E2; [apply (IH (c :: k)); cbn; lia|].
    destruct (blank3 c b a) eqn:E3; [apply (IH k); cbn; lia|]. cbn [trim_end_rev]. by rewrite E1, E2, E3.
Qed.
Lemma trim_idem s : trim (trim s) = trim s.
Proof.
  unfold trim. f_equal. rewrite as_of_bytes. set (l := trim_start (as_bytes s)).
  destruct (trim_start_head (as_bytes s)) as [Hh _]. fold l in Hh.
  destruct (trim_end_step (List.rev l)) as (b & Hb & _).
  assert (Hl : l = List.rev (trim_end_rev (List.rev l)) ++ List.rev b).
  { rewrite <- List.rev_app_distr, <- Hb. symmetry. apply List.rev_involutive. }
  rewrite trim_start_step. destruct (blank_head (List.rev (trim_end_rev (List.rev l)))) as [k|] eqn:E.
  - exfalso. apply (blank_head_app _ _ (List.rev b)) in E. rewrite <- Hl in E. congruence.
  - by rewrite List.rev_involutive, trim_end_rev_idem.
Qed.
(** Trimming shortens, and leaves something of a text that is not blank. *)
Lemma trim_bounds s :
  str_len (trim s) <= str_len s /\ (is_blank (as_bytes s) = false -> is_blank (as_bytes (trim s)) = false).
Proof.
  unfold trim, is_blank. rewrite str_len_of_bytes, as_of_bytes, <- len_as_bytes.
  set (l := trim_start (as_bytes s)). destruct (trim_start_head (as_bytes s)) as [Hh Hlen]. fold l in Hh, Hlen.
  destruct (trim_end_step (List.rev l)) as (b & Hb & Hq). set (e := trim_end_rev (List.rev l)) in *.
  assert (Hl : l = List.rev e ++ List.rev b).
  { rewrite <- List.rev_app_distr, <- Hb. symmetry. apply List.rev_involutive. }
  split.
  - unfold len. rewrite Hl, length_app in Hlen. lia.
  - intros Hne. assert (He : e <> []).
    { intros He. specialize (Hq He []). rewrite He in Hl. cbn in Hl. rewrite <- Hl, app_nil_r in Hq.
      rewrite trim_start_step, Hh in Hq. by rewrite Hq in Hne. }
    rewrite trim_start_step. destruct (blank_head (List.rev e)) as [k|] eqn:Ek.
    + apply (blank_head_app _ _ (List.rev b)) in Ek. rewrite <- Hl in Ek. congruence.
    + destruct (List.rev e) eqn:Er; [|done]. apply (f_equal (@List.rev byte)) in Er.
      by rewrite List.rev_involutive in Er.
Qed.

(** ** Framing *)

Lemma of_bytes_app a b : of_bytes (a ++ b) = String.append (of_bytes a) (of_bytes b).
Proof. induction a as [|x a IH]; [done|]. unfold of_bytes in *. cbn. by rewrite IH. Qed.
Lemma as_bytes_app a b : as_bytes (String.append a b) = as_bytes a ++ as_bytes b.
Proof. induction a as [|x a IH]; [done|]. unfold as_bytes in *. cbn. by rewrite <- IH. Qed.
Lemma append_empty s : String.append "" s = s.
Proof. done. Qed.
Fixpoint no_colon (s : string) : bool :=
  match s with
  | EmptyString => true
  | String a s => negb (Ascii.eqb a ":") && no_colon s
  end.
Lemma show_nat_no_colon n : no_colon (show_nat n) = true.
Proof.
  assert (H : forall d, no_colon (DecimalString.NilEmpty.string_of_uint d) = true).
  { induction d; cbn; done. }
  unfold show_nat, DecimalString.NilZero.string_of_uint. destruct (Nat.to_uint n) eqn:E; [done|apply H..].
Qed.
Lemma to_uint_nonnil n : Nat.to_uint n <> Decimal.Nil.
Proof.
  intros H. pose proof (DecimalNat.Unsigned.of_to n) as Ho. rewrite H in Ho. cbn in Ho. subst n. by cbn in H.
Qed.
Lemma show_nat_inj n m : show_nat n = show_nat m -> n = m.
Proof.
  unfold show_nat. intros H. apply (f_equal DecimalString.NilZero.uint_of_string) in H.
  rewrite !DecimalString.NilZero.usu in H by apply to_uint_nonnil.
  rewrite <- (DecimalNat.Unsigned.of_to n), <- (DecimalNat.Unsigned.of_to m). congruence.
Qed.
Lemma colon_split s t x y :
  no_colon s = true -> no_colon t = true ->
  String.append s (String ":" x) = String.append t (String ":" y) -> s = t /\ x = y.
Proof.
  revert t; induction s as [|a s IH]; intros [|b t]; cbn; rewrite ?andb_true_iff, ?negb_true_iff.
  - intros _ _ [= <-]. done.
  - intros _ [Hb _] [= <- _]. done.
  - intros [Ha _] _ [= -> _]. done.
  - intros [_ Hs] [_ Ht] [= <- He]. by destruct (IH t Hs Ht He) as [-> ->].
Qed.
Lemma append_same_length s t x y :
  String.length s = String.length t -> String.append s x = String.append t y -> s = t /\ x = y.
Proof.
  revert t; induction s as [|a s IH]; intros [|b t]; cbn; try done.
  intros [= Hl] [= <- He]. by destruct (IH t Hl He) as [-> ->].
Qed.
