(* ===== verification/Wire.v ===== *)
(** The peer protocol's data ([copypaste-p2p/src/protocol.rs]): the limits,
    the version summary every merge decision reads, the item carrying content,
    and the field checks every ingress path applies
    ([protocol/codec.rs]). *)

From S2P Require Import Prelude Float64 Bytes.

(** ** Limits *)

Definition PROTOCOL_VERSION : Z := 11.
Definition FILE_CHUNK_BYTES : Z := 64 * 1024.
Definition MAX_SUMMARIES_PER_MESSAGE : Z := 10000.
Definition MAX_SUMMARY_PAGES_PER_SESSION : Z := 16.
Definition MAX_REQUEST_IDS_PER_MESSAGE : Z := 1000.
Definition MAX_ITEMS_PER_MESSAGE : Z := 8.
Definition MAX_CONTENT_BYTES : Z := 4 * 1024 * 1024.
(** [copypaste_ipc::MAX_SYNC_METADATA_BYTES]. *)
Definition MAX_SYNC_METADATA_BYTES : Z := 48 * 1024.
Definition MAX_ITEM_BYTES_PER_MESSAGE : Z := MAX_CONTENT_BYTES + MAX_SYNC_METADATA_BYTES.
Definition MAX_MESSAGE_BYTES : Z := 32 * 1024 * 1024.
Definition MAX_ID_BYTES : Z := 128.
Definition MAX_DEVICE_NAME_BYTES : Z := 128.
Definition MAX_LISTEN_ADDR_BYTES : Z := 64.
Definition MAX_CONTENT_TYPE_BYTES : Z := 64.
Definition MAX_HASH_BYTES : Z := 128.

#[global] Arguments FILE_CHUNK_BYTES : simpl never.
#[global] Arguments MAX_SUMMARIES_PER_MESSAGE : simpl never.
#[global] Arguments MAX_SUMMARY_PAGES_PER_SESSION : simpl never.
#[global] Arguments MAX_REQUEST_IDS_PER_MESSAGE : simpl never.
#[global] Arguments MAX_ITEMS_PER_MESSAGE : simpl never.
#[global] Arguments MAX_CONTENT_BYTES : simpl never.
#[global] Arguments MAX_SYNC_METADATA_BYTES : simpl never.
#[global] Arguments MAX_ITEM_BYTES_PER_MESSAGE : simpl never.
#[global] Arguments MAX_MESSAGE_BYTES : simpl never.

(** ** Device metadata ([device_profile.rs], [copypaste-ipc/src/payload/device.rs]) *)

Inductive DevicePlatform := Macos | Windows | Android | PlatformUnknown | Linux.
Inductive DeviceClass := Desktop | Laptop | Phone | Tablet | ClassUnknown.

Record DeviceProfile := {
  app_version : option string;
  protocol_version : option Z;
  platform : DevicePlatform;
  device_class : DeviceClass;
  os_name : option string;
  os_version : option string;
  model : option string;
}.

#[export] Instance DevicePlatform_eq_dec : EqDecision DevicePlatform.
Proof. solve_decision. Defined.
#[export] Instance DeviceClass_eq_dec : EqDecision DeviceClass.
Proof. solve_decision. Defined.
#[export] Instance DeviceProfile_eq_dec : EqDecision DeviceProfile.
Proof. solve_decision. Defined.
(** The profile of a device that reports nothing ([DeviceProfile::default]). *)
Definition unknown_profile : DeviceProfile :=
  {| app_version := None; protocol_version := None; platform := PlatformUnknown;
     device_class := ClassUnknown; os_name := None; os_version := None; model := None |}.

(** ** Versions and items *)

Record ItemSummary := {
  item_id : string;
  created_at : Z;
  deleted : bool;
  content_hash : string;
  origin_device_id : string;
  pinned : bool;
  pin_order : option f64;
  pin_updated_at : Z;
}.

#[export] Instance ItemSummary_eq_dec : EqDecision ItemSummary.
Proof. unfold f64. solve_decision. Defined.

(** The derived [PartialEq], with [f64]'s own equality on the pin order. *)
Definition option_f64_eqb (a b : option f64) : bool :=
  match a, b with
  | Some x, Some y => f64_eqb x y
  | None, None => true
  | _, _ => false
  end.
Definition summary_eqb (a b : ItemSummary) : bool :=
  String.eqb (item_id a) (item_id b)
  && (created_at a =? created_at b)
  && Bool.eqb (deleted a) (deleted b)
  && String.eqb (content_hash a) (content_hash b)
  && String.eqb (origin_device_id a) (origin_device_id b)
  && Bool.eqb (pinned a) (pinned b)
  && option_f64_eqb (pin_order a) (pin_order b)
  && (pin_updated_at a =? pin_updated_at b).

Module SyncItem.
Record t := {
  item_id : string;
  content : string;
  binary_content : bytes;
  payload_metadata : option string;
  source_app_bundle_id : option string;
  source_app_name : option string;
  content_type : string;
  created_at : Z;
  deleted : bool;
  content_hash : string;
  origin_device_id : string;
  pinned : bool;
  pin_order : option f64;
  pin_updated_at : Z;
}.

#[global] Instance eq_dec : EqDecision t.
Proof. unfold f64. solve_decision. Defined.

(** [SyncItem::summary]. *)
Definition summary (i : t) : ItemSummary :=
  {| Wire.item_id := item_id i;
     Wire.created_at := created_at i;
     Wire.deleted := deleted i;
     Wire.content_hash := content_hash i;
     Wire.origin_device_id := origin_device_id i;
     Wire.pinned := pinned i;
     Wire.pin_order := pin_order i;
     Wire.pin_updated_at := pin_updated_at i |}.

(** [item.content = v], [item.binary_content = v], and the two stamps. *)
Definition with_content (i : t) (v : string) : t :=
  {| item_id := item_id i; content := v; binary_content := binary_content i;
     payload_metadata := payload_metadata i;
     source_app_bundle_id := source_app_bundle_id i; source_app_name := source_app_name i;
     content_type := content_type i; created_at := created_at i; deleted := deleted i;
     content_hash := content_hash i; origin_device_id := origin_device_id i;
     pinned := pinned i; pin_order := pin_order i; pin_updated_at := pin_updated_at i |}.
Definition with_binary (i : t) (v : bytes) : t :=
  {| item_id := item_id i; content := content i; binary_content := v;
     payload_metadata := payload_metadata i;
     source_app_bundle_id := source_app_bundle_id i; source_app_name := source_app_name i;
     content_type := content_type i; created_at := created_at i; deleted := deleted i;
     content_hash := content_hash i; origin_device_id := origin_device_id i;
     pinned := pinned i; pin_order := pin_order i; pin_updated_at := pin_updated_at i |}.
Definition with_stamps (i : t) (created pin : Z) : t :=
  {| item_id := item_id i; content := content i; binary_content := binary_content i;
     payload_metadata := payload_metadata i;
     source_app_bundle_id := source_app_bundle_id i; source_app_name := source_app_name i;
     content_type := content_type i; created_at := created; deleted := deleted i;
     content_hash := content_hash i; origin_device_id := origin_device_id i;
     pinned := pinned i; pin_order := pin_order i; pin_updated_at := pin |}.
End SyncItem.

(** ** Content identity

    SHA-256 and its hex spelling are library code ([sha2], [hex]): the
    functions are a parameter of everything that hashes. *)
Class Digest := { sha256 : bytes -> bytes; hex_encode : bytes -> string }.

Definition plaintext_content_hash `{Digest} (content : bytes) : string :=
  hex_encode (sha256 content).

(** ** Errors and field checks *)

Inductive ProtocolError :=
| VersionMismatch (ours theirs : Z)
| MessageTooLarge (bytes max : Z)
| TooManyEntries (kind : string) (count max : Z)
| ContentTooLarge (bytes max : Z)
| BatchTooLarge (bytes max : Z)
| FieldTooLong (field : string) (length max : Z)
| FieldEmpty (field : string)
| InvalidListenAddr
| NegativeTimestamp (field : string)
| InvalidPinState
| Encode (message : string)
| Decode (message : string).

#[export] Instance ProtocolError_eq_dec : EqDecision ProtocolError.
Proof. solve_decision. Defined.

Definition check_protocol_version (v : Z) : result ProtocolError unit :=
  if negb (v =? PROTOCOL_VERSION) then Err (VersionMismatch PROTOCOL_VERSION v) else Ok tt.

Definition check_count (kind : string) (count max : Z) : result ProtocolError unit :=
  if count >? max then Err (TooManyEntries kind count max) else Ok tt.

Definition check_len (field value : string) (max : Z) : result ProtocolError unit :=
  if str_len value >? max then Err (FieldTooLong field (str_len value) max) else Ok tt.

Definition check_id (field value : string) : result ProtocolError unit :=
  if String.eqb value "" then Err (FieldEmpty field)
  else check_len field value MAX_ID_BYTES.

Definition check_timestamp (created_at : Z) : result ProtocolError unit :=
  if created_at <? 0 then Err (NegativeTimestamp "created_at") else Ok tt.

Definition check_pin_state (pinned : bool) (order : option f64) : result ProtocolError unit :=
  if (match order with Some o => negb (is_finite o) | None => false end)
     || negb (Bool.eqb pinned (match order with Some _ => true | None => false end))
  then Err InvalidPinState else Ok tt.

Definition validate_device_profile (p : DeviceProfile) : result ProtocolError unit :=
  each (fun '(field, value, max) =>
          match value with Some v => check_len field v max | None => Ok tt end)
    [("app_version"%string, app_version p, 64);
     ("os_name"%string, os_name p, 64);
     ("os_version"%string, os_version p, 64);
     ("model"%string, model p, 128)].

(** ** What the checks accept *)

(** An identifier: non-empty and within its bound. *)
Definition id_ok (s : string) : Prop := s <> ""%string /\ str_len s <= MAX_ID_BYTES.
(** A pin state: the order is present exactly when the item is pinned, and is
    a number. *)
Definition pin_ok (pinned : bool) (order : option f64) : Prop :=
  match order with
  | Some o => pinned = true /\ is_finite o = true
  | None => pinned = false
  end.

Lemma check_protocol_version_ok v u : check_protocol_version v = Ok u <-> v = PROTOCOL_VERSION.
Proof.
  destruct u. unfold check_protocol_version.
  destruct (Z.eqb_spec v PROTOCOL_VERSION); cbn; naive_solver.
Qed.
Lemma check_count_ok k n m u : check_count k n m = Ok u <-> n <= m.
Proof. destruct u. unfold check_count. destruct (Z.gtb_spec n m); naive_solver lia. Qed.
Lemma check_len_ok f s m u : check_len f s m = Ok u <-> str_len s <= m.
Proof. destruct u. unfold check_len. destruct (Z.gtb_spec (str_len s) m); naive_solver lia. Qed.
Lemma check_id_ok f s u : check_id f s = Ok u <-> id_ok s.
Proof.
  unfold check_id, id_ok. destruct (String.eqb_spec s ""); [naive_solver|].
  rewrite check_len_ok. naive_solver.
Qed.
Lemma check_timestamp_ok t u : check_timestamp t = Ok u <-> 0 <= t.
Proof. destruct u. unfold check_timestamp. destruct (Z.ltb_spec t 0); naive_solver lia. Qed.
Lemma check_pin_state_ok p o u : check_pin_state p o = Ok u <-> pin_ok p o.
Proof.
  destruct u. unfold check_pin_state, pin_ok.
  destruct o as [o|]; [destruct (is_finite o)|]; destruct p; cbn; naive_solver.
Qed.

#[export] Hint Rewrite @bind_unit_ok @map_err_ok @refuse_if_ok @each_ok @ok_or_ok
  check_protocol_version_ok check_count_ok check_len_ok check_id_ok
  check_timestamp_ok check_pin_state_ok : checks.

(** Equal as the program compares them, for a pin order that is a number up to
    the sign of zero: every field the merge reads but the order is equal. *)
Lemma summary_eqb_fields a b :
  summary_eqb a b = true ->
  item_id a = item_id b /\ created_at a = created_at b /\ deleted a = deleted b /\
  content_hash a = content_hash b /\ origin_device_id a = origin_device_id b /\
  pinned a = pinned b /\ pin_updated_at a = pin_updated_at b.
Proof.
  unfold summary_eqb. rewrite !andb_true_iff, !String.eqb_eq, !Z.eqb_eq, !Bool.eqb_true_iff.
  naive_solver.
Qed.
