(* ===== verification/Binary.v ===== *)
(** Encrypted payloads of images and files
    ([copypaste-core/src/binary.rs], [binary_reference.rs], the associated data of
    [crypto/aead.rs]): the chunked envelope, the reference to a shared payload,
    and what the associated data binds. *)

From S2P Require Import Prelude Bytes Text Wire.

Inductive CryptoError := AuthFailed | InvalidNonce | InternalCrypto.

(** Library code, under the item key: XChaCha20-Poly1305, and STREAM over it; a
    chunk is sealed at its position, the last one marked as such. *)
Class ItemKey := {
  aead_encrypt : bytes -> bytes -> bytes -> option bytes;
  aead_decrypt : bytes -> bytes -> bytes -> option bytes;
  stream_encrypt : bytes -> bytes -> nat -> bool -> bytes -> option bytes;
  stream_decrypt : bytes -> bytes -> nat -> bool -> bytes -> option bytes;
}.

Definition TAG_LEN : Z := 16.
Definition NONCE_LEN : Z := 24.
Definition STREAM_NONCE_LEN : Z := 19.

(** ** [aead.rs] *)

Definition length_framed (id : string) : bytes :=
  as_bytes (show_nat (String.length id)) ++ as_bytes ":" ++ as_bytes id.
Definition item_aad (id : string) : bytes := as_bytes "copypaste/v2/item-aead|" ++ length_framed id.

Section Aead.
Context {K : ItemKey}.
(** [encrypt] and [decrypt]; [nonce] is what the generator draws. *)
Definition encrypt (nonce plaintext : bytes) (id : string) : result CryptoError (bytes * bytes) :=
  c ← ok_or InternalCrypto (aead_encrypt nonce (item_aad id) plaintext); Ok (nonce, c).
Definition decrypt (ciphertext nonce : bytes) (id : string) : result CryptoError bytes :=
  _ ← refuse_if (negb (len nonce =? NONCE_LEN)) InvalidNonce;
  _ ← refuse_if (len ciphertext <? TAG_LEN) AuthFailed;
  ok_or AuthFailed (aead_decrypt nonce (item_aad id) ciphertext).
End Aead.

(** ** [binary.rs] *)

Definition MAGIC : bytes := as_bytes "CPB2".
Definition VERSION : Z := 3.
Definition CHUNK_BYTES : Z := 512 * 1024.
Definition STREAM_NONCE_OFFSET : Z := 4 + 1 + 8 + 32.
Definition HEADER_BYTES : Z := STREAM_NONCE_OFFSET + STREAM_NONCE_LEN.
Definition MAX_BINARY_BYTES : Z := MAX_CONTENT_BYTES.

(** [byte_len.div_ceil(CHUNK_BYTES).max(1)]. *)
Definition chunk_count (byte_len : Z) : Z := Z.max 1 ((byte_len + CHUNK_BYTES - 1) / CHUNK_BYTES).
Definition header (digest : bytes) (byte_len : Z) (stream_nonce : bytes) : bytes :=
  MAGIC ++ [byte_of VERSION] ++ to_be 8 byte_len ++ digest ++ stream_nonce.
Definition stream_aad (id : string) (h : bytes) : bytes :=
  as_bytes "copypaste/v2/binary-stream|" ++ length_framed id ++ h.
(** [slice.get(..n)] with the rest. *)
Definition split_at (n : Z) (b : bytes) : option (bytes * bytes) :=
  if len b <? n then None else Some (take (Z.to_nat n) b, drop (Z.to_nat n) b).

Section Binary.
Context {K : ItemKey} {DG : Digest}.

(** The chunks before the last, [n] of them, from position [i], and the last. *)
Fixpoint seal_chunks (nonce aad : bytes) (n i : nat) (b : bytes) : option bytes :=
  match n with
  | O => stream_encrypt nonce aad i true b
  | S n => '(chunk, rest) ← split_at CHUNK_BYTES b;
           c ← stream_encrypt nonce aad i false chunk;
           cs ← seal_chunks nonce aad n (S i) rest;
           Some (c ++ cs)
  end.
(** [seal_with_digest]; [stream_nonce] is what the generator draws. *)
Definition seal_with_digest (stream_nonce b digest : bytes) (id : string) : result CryptoError bytes :=
  _ ← refuse_if (len b >? MAX_BINARY_BYTES) AuthFailed;
  let h := header digest (len b) stream_nonce in
  cs ← ok_or InternalCrypto
         (seal_chunks stream_nonce (stream_aad id h) (Z.to_nat (chunk_count (len b) - 1)) 0 b);
  Ok (h ++ cs).
Definition seal (stream_nonce b : bytes) (id : string) : result CryptoError bytes :=
  seal_with_digest stream_nonce b (sha256 b) id.

Fixpoint open_chunks (nonce aad : bytes) (n i : nat) (final_plain_len : Z) (b : bytes) : option bytes :=
  match n with
  | O => '(chunk, rest) ← split_at (final_plain_len + TAG_LEN) b;
         p ← stream_decrypt nonce aad i true chunk;
         if (len p =? final_plain_len) && (len rest =? 0) then Some p else None
  | S n => '(chunk, rest) ← split_at (CHUNK_BYTES + TAG_LEN) b;
           p ← stream_decrypt nonce aad i false chunk;
           if negb (len p =? CHUNK_BYTES) then None
           else ps ← open_chunks nonce aad n (S i) final_plain_len rest; Some (p ++ ps)
  end.
(** [open] past the test for a reference. *)
Definition open_stream (envelope : bytes) (id : string) : result CryptoError bytes :=
  _ ← refuse_if ((len envelope <? HEADER_BYTES) || negb (bool_decide (take 4 envelope = MAGIC))
                 || negb (from_be (take 1 (drop 4 envelope)) =? VERSION)) AuthFailed;
  let byte_len := from_be (take 8 (drop 5 envelope)) in
  _ ← refuse_if (byte_len >? MAX_BINARY_BYTES) AuthFailed;
  let n := chunk_count byte_len in
  _ ← refuse_if (negb (len envelope =? byte_len + HEADER_BYTES + n * TAG_LEN)) AuthFailed;
  let expected_hash := take 32 (drop 13 envelope) in
  let h := take (Z.to_nat HEADER_BYTES) envelope in
  let stream_nonce := drop (Z.to_nat STREAM_NONCE_OFFSET) h in
  plain ← ok_or AuthFailed
            (open_chunks stream_nonce (stream_aad id h) (Z.to_nat (n - 1)) 0
               (byte_len - (n - 1) * CHUNK_BYTES) (drop (Z.to_nat HEADER_BYTES) envelope));
  _ ← refuse_if (negb (len plain =? byte_len) || negb (bool_decide (sha256 plain = expected_hash))) AuthFailed;
  Ok plain.

(** ** [binary_reference.rs] *)

Definition REFERENCE_MAGIC : bytes := as_bytes "CPR1".
Definition PREFIX_BYTES : Z := 4 + NONCE_LEN + 4.
Definition is_reference (envelope : bytes) : bool := starts_with REFERENCE_MAGIC envelope.
Definition split (envelope : bytes) : option (bytes * bytes) :=
  if negb (is_reference envelope) then None
  else
    n ← from_be <$> get_range envelope 28 4;
    if negb (n =? 64 + TAG_LEN) then None else split_at (PREFIX_BYTES + n) envelope.
Definition reference_seal (nonce stream_nonce b digest : bytes) (id : string) : result CryptoError bytes :=
  let blob_id := hex_encode digest in
  '(nonce, reference) ← encrypt nonce (as_bytes blob_id) id;
  blob ← seal_with_digest stream_nonce b digest blob_id;
  Ok (REFERENCE_MAGIC ++ nonce ++ to_be 4 (len reference) ++ reference ++ blob).
Definition is_hex_digit (b : byte) : bool :=
  is_ascii_digit b || in_range 97 102 b || in_range 65 70 b.
Definition reference_open (envelope : bytes) (id : string) : result CryptoError bytes :=
  '(reference, blob) ← ok_or AuthFailed (split envelope);
  b ← decrypt (drop (Z.to_nat PREFIX_BYTES) reference) (take 24 (drop 4 reference)) id;
  blob_id ← ok_or AuthFailed (from_utf8 b);
  _ ← refuse_if (negb (str_len blob_id =? 64) || negb (forallb is_hex_digit (as_bytes blob_id))
                 || negb (starts_with MAGIC blob)) AuthFailed;
  plain ← open_stream blob blob_id;
  _ ← refuse_if (negb (String.eqb (hex_encode (sha256 plain)) blob_id)) AuthFailed;
  Ok plain.
(** [binary::open]. *)
Definition open (envelope : bytes) (id : string) : result CryptoError bytes :=
  if is_reference envelope then reference_open envelope id else open_stream envelope id.
End Binary.

(** ** Laws of the primitives *)

Class ItemKeyLaws `{ItemKey} : Prop := {
  aead_inverse n a p c : aead_encrypt n a p = Some c ->
    aead_decrypt n a c = Some p /\ len c = len p + TAG_LEN;
  stream_inverse n a i last p c : stream_encrypt n a i last p = Some c ->
    stream_decrypt n a i last c = Some p /\ len c = len p + TAG_LEN;
}.
(** SHA-256 is 32 bytes long, and [hex::encode] writes two digits a byte. *)
Class DigestLaws `{Digest} : Prop := {
  sha256_length b : len (sha256 b) = 32;
  hex_length d : str_len (hex_encode d) = 2 * len d;
  hex_digits d : forallb is_hex_digit (as_bytes (hex_encode d)) = true;
}.

(** ** Splitting *)

Lemma split_at_app n x y : len x = n -> split_at n (x ++ y) = Some (x, y).
Proof.
  intros <-. unfold split_at, len. rewrite length_app. destruct (Z.ltb_spec (Z.of_nat (length x + length y)) (Z.of_nat (length x))); [lia|].
  by rewrite Nat2Z.id, take_app_length, drop_app_length.
Qed.
Lemma split_at_some n b x y : split_at n b = Some (x, y) -> 0 <= n -> b = x ++ y /\ len x = n.
Proof.
  unfold split_at. destruct (Z.ltb_spec (len b) n); [done|]. intros [= <- <-] Hn.
  split; [by rewrite take_drop|]. unfold len in *. rewrite length_take. lia.
Qed.
Lemma chunk_count_ge n : 0 <= n -> 1 <= chunk_count n /\ (chunk_count n - 1) * CHUNK_BYTES <= n.
Proof.
  intros Hn. unfold chunk_count. assert (0 < CHUNK_BYTES) by done. split; [lia|].
  destruct (Z.max_spec 1 ((n + CHUNK_BYTES - 1) / CHUNK_BYTES)) as [[H1 ->]|[_ ->]]; [|lia].
  pose proof (Z.mul_div_le (n + CHUNK_BYTES - 1) CHUNK_BYTES). nia.
Qed.

Section RoundTrip.
Context {K : ItemKey} {DG : Digest} {KL : ItemKeyLaws} {DL : DigestLaws}.

Lemma chunks_round_trip nonce aad n i b cs :
  Z.of_nat n * CHUNK_BYTES <= len b -> seal_chunks nonce aad n i b = Some cs ->
  open_chunks nonce aad n i (len b - Z.of_nat n * CHUNK_BYTES) cs = Some b /\
  len cs = len b + (Z.of_nat n + 1) * TAG_LEN.
Proof.
  revert i b cs; induction n as [|n IH]; intros i b cs Hn; cbn [seal_chunks open_chunks].
  - intros (Hd & Hl)%stream_inverse. rewrite Z.mul_0_l, Z.sub_0_r in *. split; [|lia].
    rewrite <- (app_nil_r cs), (split_at_app (len b + TAG_LEN)) by lia. cbn. rewrite Hd. cbn.
    by rewrite Z.eqb_refl.
  - destruct (split_at CHUNK_BYTES b) as [[chunk rest]|] eqn:Es; [|done]. cbn.
    apply split_at_some in Es as [-> Hc]; [|done]. rewrite len_app in *.
    destruct (stream_encrypt nonce aad i false chunk) as [c|] eqn:Ec; [|done]. cbn.
    destruct (seal_chunks nonce aad n (S i) rest) as [cs'|] eqn:Er; [|done]. cbn. intros [= <-].
    apply stream_inverse in Ec as [Hd Hl].
    destruct (IH (S i) rest cs' ltac:(lia) Er) as [Ho Hlen]. split; [|rewrite len_app; lia].
    rewrite split_at_app by lia. cbn. rewrite Hd. cbn. rewrite Hc, Z.eqb_refl. cbn.
    replace (CHUNK_BYTES + len rest - Z.of_nat (S n) * CHUNK_BYTES)
      with (len rest - Z.of_nat n * CHUNK_BYTES) by lia.
    by rewrite Ho.
Qed.

Lemma header_length digest n nonce :
  len digest = 32 -> len nonce = STREAM_NONCE_LEN -> len (header digest n nonce) = HEADER_BYTES.
Proof.
  intros Hd Hn. unfold header. rewrite !len_app, len_to_be, Hd, Hn. done.
Qed.
Lemma open_sealed nonce b id e :
  len nonce = STREAM_NONCE_LEN -> seal nonce b id = Ok e -> open_stream e id = Ok b /\ starts_with MAGIC e = true.
Proof.
  intros Hnonce. unfold seal, seal_with_digest. intros (Hmax%refuse_if_ok & Hs)%bind_unit_ok.
  cbn zeta in Hs. apply bind_ok in Hs as (cs & Hcs%ok_or_ok & He%ok_inj).
  set (h := header (sha256 b) (len b) nonce) in *. subst e.
  pose proof (header_length (sha256 b) (len b) nonce (sha256_length b) Hnonce) as Hh. fold h in Hh.
  pose proof (len_nonneg b) as Hb. destruct (chunk_count_ge (len b) Hb) as [Hc1 Hc2].
  destruct (chunks_round_trip nonce (stream_aad id h) (Z.to_nat (chunk_count (len b) - 1)) 0 b cs
              ltac:(lia) Hcs) as [Ho Hl].
  rewrite Z2Nat.id in Ho, Hl by lia.
  split; [|reflexivity].
  assert (Hdrop : forall k x y, h = x ++ y -> length x = k -> drop k (h ++ cs) = y ++ cs).
  { intros k x y -> <-. by rewrite <- app_assoc, drop_app_length. }
  unfold open_stream. rewrite len_app, Hh.
  assert (Htake4 : take 4 (h ++ cs) = MAGIC) by reflexivity. rewrite Htake4, bool_decide_eq_true_2 by done.
  rewrite (Hdrop 4%nat MAGIC ([byte_of VERSION] ++ to_be 8 (len b) ++ sha256 b ++ nonce)) by done.
  cbn [take app].
  destruct (Z.ltb_spec (HEADER_BYTES + len cs) HEADER_BYTES) as [Hlt|_]; [pose proof (len_nonneg cs); lia|].
  cbn [negb orb]. rewrite (refuse_if_false (negb (_ =? VERSION))) by reflexivity. cbn [mbind result_bind].
  rewrite (Hdrop 5%nat (MAGIC ++ [byte_of VERSION]) (to_be 8 (len b) ++ sha256 b ++ nonce)) by done.
  rewrite <- app_assoc, take_app_length' by (by rewrite length_to_be).
  rewrite from_to_be.
  2:{ unfold MAX_BINARY_BYTES, MAX_CONTENT_BYTES in Hmax. rewrite Z.gtb_ltb, Z.ltb_ge in Hmax. lia. }
  rewrite Hmax, (refuse_if_false false) by done. cbn [mbind result_bind].
  rewrite (refuse_if_false (negb (HEADER_BYTES + _ =? _))) by (apply negb_false_iff, Z.eqb_eq; lia). cbn [mbind result_bind].
  assert (Hth : take (Z.to_nat HEADER_BYTES) (h ++ cs) = h).
  { apply take_app_length'. unfold len in Hh. lia. }
  assert (Hdh : drop (Z.to_nat HEADER_BYTES) (h ++ cs) = cs).
  { apply drop_app_length'. unfold len in Hh. lia. }
  rewrite Hth, Hdh.
  assert (Hnc : drop (Z.to_nat STREAM_NONCE_OFFSET) h = nonce).
  { unfold h, header. rewrite !app_assoc. apply drop_app_length'. rewrite !length_app, length_to_be.
    pose proof (sha256_length b) as Hs. unfold len in Hs.
    change (length MAGIC) with 4%nat. change (length [byte_of VERSION]) with 1%nat.
    change (Z.to_nat STREAM_NONCE_OFFSET) with 45%nat. lia. }
  rewrite Hnc, Ho. cbn. rewrite Z.eqb_refl. cbn.
  rewrite bool_decide_eq_true_2; [done|].
  rewrite <- !app_assoc, drop_app_length' by (by rewrite length_to_be). symmetry.
  apply take_app_length'. pose proof (sha256_length b) as Hs. unfold len in Hs. lia.
Qed.

Lemma not_both_magics e : starts_with MAGIC e = true -> is_reference e = false.
Proof. intros [k ->]%starts_with_spec. reflexivity. Qed.
Lemma forall_hex_utf8 l : forallb is_hex_digit l = true -> utf8_valid l = true.
Proof.
  induction l as [|a l IH]; [done|]. cbn [forallb]. rewrite andb_true_iff. intros [Ha Hl].
  cbn [utf8_valid]. assert (Hlt : in_range 0 127 a = true).
  { revert Ha. unfold is_hex_digit, is_ascii_digit, in_range. rewrite !orb_true_iff, !andb_true_iff, !Z.leb_le. lia. }
  rewrite Hlt. by apply IH.
Qed.
Lemma aead_open nonce p id n c :
  len nonce = NONCE_LEN -> encrypt nonce p id = Ok (n, c) ->
  n = nonce /\ decrypt c nonce id = Ok p /\ len c = len p + TAG_LEN.
Proof.
  unfold encrypt, decrypt. intros Hn (x & Hx%ok_or_ok & [= <- <-])%bind_ok.
  apply aead_inverse in Hx as [Hd Hl]. split_and!; [done| |done].
  rewrite Hn, Z.eqb_refl, (refuse_if_false (negb true)) by done. cbn [mbind result_bind].
  rewrite refuse_if_false; [|apply Z.ltb_ge; pose proof (len_nonneg p); lia]. cbn [mbind result_bind]. by rewrite Hd.
Qed.

(** The parts of a reference envelope. *)
Lemma split_reference nonce r blob :
  len nonce = NONCE_LEN -> len r = 64 + TAG_LEN ->
  split (REFERENCE_MAGIC ++ nonce ++ to_be 4 (len r) ++ r ++ blob)
  = Some (REFERENCE_MAGIC ++ nonce ++ to_be 4 (len r) ++ r, blob).
Proof.
  intros Hn Hr. unfold split, is_reference. rewrite starts_with_app. cbn [negb].
  assert (Hg : get_range (REFERENCE_MAGIC ++ nonce ++ to_be 4 (len r) ++ r ++ blob) 28 4 = Some (to_be 4 (len r))).
  { pose proof (get_range_app (REFERENCE_MAGIC ++ nonce) (to_be 4 (len r)) (r ++ blob)) as Hg.
    rewrite <- !app_assoc, length_to_be in Hg. rewrite length_app in Hg.
    change (length REFERENCE_MAGIC) with 4%nat in Hg. unfold len, NONCE_LEN in Hn.
    replace (4 + length nonce)%nat with 28%nat in Hg by lia. done. }
  rewrite Hg. cbn [fmap option_fmap option_map mbind option_bind].
  rewrite from_to_be by (rewrite Hr; done). rewrite Hr. cbn [negb Z.eqb].
  change (64 + TAG_LEN =? 64 + TAG_LEN) with true. cbn [negb].
  rewrite !app_assoc. apply split_at_app. rewrite !len_app, len_to_be, Hn, Hr. done.
Qed.

Lemma open_reference_sealed nonce stream_nonce b id e :
  len nonce = NONCE_LEN -> len stream_nonce = STREAM_NONCE_LEN ->
  reference_seal nonce stream_nonce b (sha256 b) id = Ok e ->
  is_reference e = true /\ reference_open e id = Ok b.
Proof.
  intros Hn Hs. unfold reference_seal. intros ([n r] & He & Hrest)%bind_ok.
  apply bind_ok in Hrest as (blob & Hb & Hfin%ok_inj). subst e.
  destruct (aead_open nonce _ id n r Hn He) as (-> & Hd & Hl).
  set (blob_id := hex_encode (sha256 b)) in *.
  assert (Hid : str_len blob_id = 64).
  { unfold blob_id. rewrite hex_length, sha256_length. done. }
  rewrite len_as_bytes, Hid in Hl.
  destruct (open_sealed stream_nonce b blob_id blob Hs Hb) as [Hopen Hmagic].
  split; [apply starts_with_app|]. unfold reference_open. rewrite split_reference by lia. cbn [ok_or mbind result_bind].
  assert (H1 : drop (Z.to_nat PREFIX_BYTES) (REFERENCE_MAGIC ++ nonce ++ to_be 4 (len r) ++ r) = r).
  { rewrite !app_assoc. apply drop_app_length'. rewrite !length_app, length_to_be.
    change (length REFERENCE_MAGIC) with 4%nat. change (Z.to_nat PREFIX_BYTES) with 32%nat.
    unfold len, NONCE_LEN in Hn. lia. }
  assert (H2 : take 24 (drop 4 (REFERENCE_MAGIC ++ nonce ++ to_be 4 (len r) ++ r)) = nonce).
  { change (drop 4 (REFERENCE_MAGIC ++ nonce ++ to_be 4 (len r) ++ r)) with (nonce ++ to_be 4 (len r) ++ r).
    apply take_app_length'. unfold len, NONCE_LEN in Hn. lia. }
  rewrite H1, H2, Hd. cbn [mbind result_bind].
  unfold from_utf8. rewrite (forall_hex_utf8 (as_bytes blob_id)) by apply hex_digits. cbn [ok_or mbind result_bind].
  rewrite of_as_bytes, Hid, Hmagic.
  assert (Hhex : forallb is_hex_digit (as_bytes blob_id) = true) by apply hex_digits. rewrite Hhex.
  rewrite (refuse_if_false _ AuthFailed) by done. cbn [mbind result_bind]. rewrite Hopen. cbn [mbind result_bind].
  fold blob_id. rewrite String.eqb_refl. done.
Qed.

Lemma open_either_envelope nonce stream_nonce b id e :
  len nonce = NONCE_LEN -> len stream_nonce = STREAM_NONCE_LEN ->
  seal stream_nonce b id = Ok e \/ reference_seal nonce stream_nonce b (sha256 b) id = Ok e ->
  open e id = Ok b.
Proof.
  intros Hn Hs [He|He]; unfold open.
  - destruct (open_sealed stream_nonce b id e Hs He) as [Ho Hm%not_both_magics]. by rewrite Hm.
  - by destruct (open_reference_sealed nonce stream_nonce b id e Hn Hs He) as [-> ->].
Qed.

(** C30: opening what was sealed gives the bytes back, for a payload of its own
    and for a reference to a shared one, under the id it was sealed for. *)
Theorem open_inverts_seal nonce stream_nonce b id e :
  len nonce = NONCE_LEN -> len stream_nonce = STREAM_NONCE_LEN ->
  seal stream_nonce b id = Ok e \/ reference_seal nonce stream_nonce b (sha256 b) id = Ok e ->
  open e id = Ok b.
Proof. apply open_either_envelope. Qed.
End RoundTrip.

(** ** What the associated data binds *)

Lemma length_framed_inj i j x y :
  length_framed i ++ x = length_framed j ++ y -> i = j /\ x = y.
Proof.
  unfold length_framed. rewrite <- !app_assoc. intros H.
  apply (f_equal of_bytes) in H. rewrite !of_bytes_app, !of_as_bytes in H.
  apply (colon_split (show_nat _) (show_nat _) (String.append i (of_bytes x)) (String.append j (of_bytes y))) in H
    as [Hn H]; [|apply show_nat_no_colon..].
  apply show_nat_inj in Hn. apply append_same_length in H as [-> H]; [|done]. split; [done|].
  by rewrite <- (as_of_bytes x), H, as_of_bytes.
Qed.

(** The associated data of a ciphertext determines the item and, for a
    payload, its whole header: no two items share it, whatever bytes their ids
    hold, and neither an item's nor a payload's can pass for the other. *)
Theorem associated_data_binds i j h k :
  (item_aad i = item_aad j -> i = j) /\
  (stream_aad i h = stream_aad j k -> i = j /\ h = k) /\
  item_aad i <> stream_aad j k.
Proof.
  unfold item_aad, stream_aad. split_and!.
  - intros H%app_inv_head. rewrite <- (app_nil_r (length_framed i)), <- (app_nil_r (length_framed j)) in H.
    by apply length_framed_inj in H as [-> _].
  - intros H%app_inv_head. by apply length_framed_inj.
  - intros H. by injection H.
Qed.

(** A cipher that appends an empty tag, a digest of zeros. *)
Module BinaryDemo.
Definition tag : bytes := repeat (byte_of 0) 16.
Definition untag (c : bytes) : option bytes :=
  if (16 <=? length c)%nat then Some (take (length c - 16) c) else None.
#[export] Instance key : ItemKey := {|
  aead_encrypt := fun _ _ p => Some (p ++ tag); aead_decrypt := fun _ _ => untag;
  stream_encrypt := fun _ _ _ _ p => Some (p ++ tag); stream_decrypt := fun _ _ _ _ => untag |}.
#[export] Instance key_laws : ItemKeyLaws.
Proof.
  assert (H : forall p, untag (p ++ tag) = Some p /\ len (p ++ tag) = len p + TAG_LEN).
  { intros p. unfold untag, len. rewrite length_app. change (length tag) with 16%nat.
    destruct (Nat.leb_spec 16 (length p + 16)); [|lia]. replace (length p + 16 - 16)%nat with (length p) by lia.
    rewrite take_app_length. split; [done|]. unfold TAG_LEN. lia. }
  split; intros; injection H0 as <-; apply H.
Qed.
#[export] Instance digest : Digest := {|
  sha256 := fun _ => repeat (byte_of 0) 32;
  hex_encode := fun d => of_bytes (flat_map (fun _ => as_bytes "00") d) |}.
#[export] Instance digest_laws : DigestLaws.
Proof.
  split; [done| |].
  - intros d. cbn. rewrite str_len_of_bytes. induction d as [|x d IH]; [done|].
    cbn [flat_map]. rewrite len_app, IH, !len_cons, len_nil. lia.
  - intros d. cbn. rewrite as_of_bytes. by induction d as [|x d IH].
Qed.
Definition nonce : bytes := repeat (byte_of 1) 24.
Definition stream_nonce : bytes := repeat (byte_of 2) 19.
End BinaryDemo.
#[local] Existing Instances BinaryDemo.key BinaryDemo.key_laws BinaryDemo.digest BinaryDemo.digest_laws.

Lemma open_inverts_seal_witness :
  exists e, reference_seal BinaryDemo.nonce BinaryDemo.stream_nonce (as_bytes "image") (sha256 (as_bytes "image"))
              "file-import-1" = Ok e /\ open e "file-import-1" = Ok (as_bytes "image").
Proof.
  destruct (reference_seal BinaryDemo.nonce BinaryDemo.stream_nonce (as_bytes "image") (sha256 (as_bytes "image"))
              "file-import-1") as [e|] eqn:E; [|vm_compute in E; discriminate E].
  exists e. split; [done|].
  apply (open_inverts_seal BinaryDemo.nonce BinaryDemo.stream_nonce); [reflexivity..|]. right. exact E.
Defined.
