(* ===== verification/Merge.v ===== *)
(** The merge decision ([copypaste-p2p/src/sync/merge.rs]): which of two
    versions of one item survives, and which of two pin states.

    The decision is shown to be the strict part of one total order on the four
    merge keys, so that replicas exchanging versions converge. *)

From S2P Require Import Prelude Float64 Bytes Wire.

Inductive MergeDecision := KeepLocal | TakeRemote.
#[export] Instance MergeDecision_eq_dec : EqDecision MergeDecision.
Proof. solve_decision. Defined.

(** [fn decide<T: Ord>(local, remote)]. *)
Definition decide_by {A} (cmp : A -> A -> comparison) (local remote : A) : option MergeDecision :=
  match cmp remote local with
  | Gt => Some TakeRemote
  | Lt => Some KeepLocal
  | Eq => None
  end.

(** [Option::or_else], [Option::unwrap_or]. *)
Definition or_else {A} (a b : option A) : option A :=
  match a with Some _ => a | None => b end.
Definition unwrap_or {A} (d : A) (o : option A) : A :=
  match o with Some a => a | None => d end.

Definition merge_decision (local : ItemSummary) (local_origin : string)
    (remote : ItemSummary) (remote_origin : string) : MergeDecision :=
  unwrap_or KeepLocal
    (or_else (or_else (or_else
       (decide_by Z.compare (created_at local) (created_at remote))
       (decide_by str_cmp (content_hash local) (content_hash remote)))
       (decide_by bool_cmp (deleted local) (deleted remote)))
       (decide_by str_cmp local_origin remote_origin)).

Definition merge_decision_by_summary (local remote : ItemSummary) : MergeDecision :=
  merge_decision local (origin_device_id local) remote (origin_device_id remote).

Definition pin_state_wins (local remote : ItemSummary) : bool :=
  match then_with
    (pair_cmp (pair_cmp Z.compare str_cmp) bool_cmp
       (pin_updated_at remote, origin_device_id remote, pinned remote)
       (pin_updated_at local, origin_device_id local, pinned local))
    (match pin_order remote, pin_order local with
     | Some r, Some l => total_cmp r l
     | Some _, None => Gt
     | None, Some _ => Lt
     | None, None => Eq
     end)
  with Gt => true | _ => false end.

Definition remote_version_wins (local remote : ItemSummary) : bool :=
  bool_decide (merge_decision_by_summary local remote = TakeRemote)
  || (negb (deleted local) && negb (deleted remote) && pin_state_wins local remote).

(** ** The specification: two total orders *)

(** The four merge keys in their priority. *)
Definition merge_key (s : ItemSummary) (origin : string) : Z * string * bool * string :=
  (created_at s, content_hash s, deleted s, origin).
Definition merge_key_cmp : Z * string * bool * string -> Z * string * bool * string -> comparison :=
  pair_cmp (pair_cmp (pair_cmp Z.compare str_cmp) bool_cmp) str_cmp.

Definition version_key (s : ItemSummary) := merge_key s (origin_device_id s).

(** The four pin keys. *)
Definition pin_key (s : ItemSummary) : Z * string * bool * option f64 :=
  (pin_updated_at s, origin_device_id s, pinned s, pin_order s).
Definition pin_key_cmp : Z * string * bool * option f64 -> Z * string * bool * option f64 -> comparison :=
  pair_cmp (pair_cmp (pair_cmp Z.compare str_cmp) bool_cmp) (option_cmp total_cmp).

#[export] Instance merge_key_ord : OrdLaws merge_key_cmp.
Proof. unfold merge_key_cmp. apply _. Qed.
#[export] Instance pin_key_ord : OrdLaws pin_key_cmp.
Proof. unfold pin_key_cmp. apply _. Qed.

(** What a replica keeps of two versions of one item. *)
Definition survivor (local remote : ItemSummary) : ItemSummary :=
  match merge_decision_by_summary local remote with
  | TakeRemote => remote
  | KeepLocal => local
  end.

(** A replica that receives versions one after the other. *)
Definition absorb (start : ItemSummary) (versions : list ItemSummary) : ItemSummary :=
  fold_left survivor versions start.

(** ** The code computes them *)

Lemma decide_lex {A} (cmp : A -> A -> comparison) l r k :
  or_else (decide_by cmp l r) k =
  match cmp r l with Gt => Some TakeRemote | Lt => Some KeepLocal | Eq => k end.
Proof. unfold decide_by. by destruct (cmp r l). Qed.

Lemma merge_decision_cmp l lo r ro :
  merge_decision l lo r ro =
  match merge_key_cmp (merge_key r ro) (merge_key l lo) with
  | Gt => TakeRemote | _ => KeepLocal end.
Proof.
  unfold merge_decision, merge_key_cmp, merge_key, pair_cmp, decide_by; cbn.
  by destruct (_ ?= _)%Z, (str_cmp (content_hash r) _), (bool_cmp _ _), (str_cmp ro lo).
Qed.

Lemma merge_decision_take l lo r ro :
  merge_decision l lo r ro = TakeRemote <->
  merge_key_cmp (merge_key l lo) (merge_key r ro) = Lt.
Proof.
  rewrite merge_decision_cmp, <- cmp_gt_lt by apply _.
  destruct (merge_key_cmp _ _); naive_solver.
Qed.

Lemma pin_state_wins_iff l r :
  pin_state_wins l r = true <-> pin_key_cmp (pin_key l) (pin_key r) = Lt.
Proof.
  rewrite <- cmp_gt_lt by apply _.
  unfold pin_state_wins, pin_key_cmp, pin_key, pair_cmp, option_cmp; cbn.
  destruct (_ ?= _)%Z, (str_cmp _ _), (bool_cmp _ _), (pin_order r), (pin_order l);
    cbn; try destruct (total_cmp _ _); naive_solver.
Qed.

Lemma survivor_key l r :
  version_key (survivor l r) = cmp_max merge_key_cmp (version_key l) (version_key r).
Proof.
  unfold survivor, merge_decision_by_summary, cmp_max.
  rewrite merge_decision_cmp. fold (version_key l) (version_key r).
  rewrite (cmp_antisym (cmp:=merge_key_cmp) (version_key l) (version_key r)).
  by destruct (merge_key_cmp _ _).
Qed.

Lemma absorb_key s vs :
  version_key (absorb s vs) =
  fold_left (cmp_max merge_key_cmp) (version_key <$> vs) (version_key s).
Proof.
  unfold absorb. revert s; induction vs as [|v vs IH]; intros s; cbn; [done|].
  by rewrite IH, survivor_key.
Qed.

(** ** Folding a maximum *)

Section FoldMax.
Context {A} (c : A -> A -> comparison) `{!OrdLaws c}.
Notation mx := (cmp_max c).

Definition at_most (x y : A) : Prop := mx x y = y.

Lemma fold_max_upper l s : at_most s (fold_left mx l s) /\ Forall (fun x => at_most x (fold_left mx l s)) l.
Proof.
  unfold at_most. revert s; induction l as [|x l IH]; intros s; cbn.
  - by rewrite cmp_max_idemp.
  - destruct (IH (mx s x)) as [H1 H2]. split_and!; [|constructor; [|done]].
    + rewrite <- H1. by rewrite !cmp_max_assoc, cmp_max_idemp by done.
    + rewrite <- H1. rewrite (cmp_max_comm c s x), !cmp_max_assoc, cmp_max_idemp by done. done.
Qed.

Lemma fold_max_member l s : fold_left mx l s = s \/ fold_left mx l s ∈ l.
Proof.
  revert s; induction l as [|x l IH]; intros s; cbn; [by left|].
  destruct (IH (mx s x)) as [->|Hin]; [|by right; right].
  destruct (cmp_max_case c s x) as [->| ->]; [by left|by right; left].
Qed.

Lemma at_most_antisym x y : at_most x y -> at_most y x -> x = y.
Proof. unfold at_most. intros H1 H2. by rewrite <- H1, cmp_max_comm, H2 by done. Qed.

(** The maximum of a non-empty collection depends on its elements only. *)
Lemma fold_max_set l k s t :
  (forall x, x ∈ s :: l <-> x ∈ t :: k) -> fold_left mx l s = fold_left mx k t.
Proof.
  intros Heq. destruct (fold_max_upper l s) as [Hs Hl], (fold_max_upper k t) as [Ht Hk].
  assert (Hub : forall x, x ∈ s :: l -> at_most x (fold_left mx l s)).
  { intros x [->|Hx]%elem_of_cons; [done|]. rewrite Forall_forall in Hl. by apply Hl. }
  assert (Hub' : forall x, x ∈ t :: k -> at_most x (fold_left mx k t)).
  { intros x [->|Hx]%elem_of_cons; [done|]. rewrite Forall_forall in Hk. by apply Hk. }
  apply at_most_antisym.
  - apply Hub', Heq. destruct (fold_max_member l s) as [->|]; [left|by right].
  - apply Hub, Heq. destruct (fold_max_member k t) as [->|]; [left|by right].
Qed.
End FoldMax.

(** ** Properties *)

(** The decision is the strict lexicographic order on
    (created_at, content_hash, deleted, origin): the remote version is taken
    exactly when its four keys are larger. *)
Theorem merge_decision_is_lexicographic l lo r ro :
  merge_decision l lo r ro = TakeRemote <->
  created_at l < created_at r \/
  (created_at l = created_at r /\
   (str_cmp (content_hash l) (content_hash r) = Lt \/
    (content_hash l = content_hash r /\
     ((deleted l = false /\ deleted r = true) \/
      (deleted l = deleted r /\ str_cmp lo ro = Lt))))).
Proof.
  rewrite merge_decision_take. unfold merge_key_cmp, merge_key, pair_cmp; cbn.
  pose proof (cmp_eq_iff (cmp:=str_cmp) (content_hash l) (content_hash r)) as Hh.
  destruct (Z.compare_spec (created_at l) (created_at r)); cbn; [|naive_solver lia..].
  destruct (str_cmp (content_hash l) (content_hash r)) eqn:?; cbn; [|naive_solver lia..].
  destruct (deleted l), (deleted r); cbn; naive_solver lia.
Qed.

(** Two peers never disagree: asked from either side the decision names a
    survivor with the same four keys, so a pair of versions cannot be exchanged
    back and forth. *)
Theorem merge_decision_symmetric a b :
  version_key (survivor a b) = version_key (survivor b a).
Proof. rewrite !survivor_key. apply cmp_max_comm. apply _. Qed.

(** C34: replicas converge.  Two replicas that start from different versions of
    an item and receive versions in any order, any number of times, end on the
    same four keys as soon as they have seen the same set of versions. *)
Theorem replicas_converge a b va vb :
  (forall v, v ∈ a :: va <-> v ∈ b :: vb) ->
  version_key (absorb a va) = version_key (absorb b vb).
Proof.
  intros Hset. rewrite !absorb_key. apply fold_max_set; [apply _|].
  intros k. change (k ∈ version_key <$> (a :: va) <-> k ∈ version_key <$> (b :: vb)).
  rewrite !list_elem_of_fmap. naive_solver.
Qed.

Lemma replicas_converge_witness :
  let v t h d := Build_ItemSummary "i" t d h "dev" false None 0 in
  (forall x, x ∈ [v 1 "h"%string false; v 5 "h"%string true; v 3 "g"%string false] <->
             x ∈ [v 3 "g"%string false; v 5 "h"%string true; v 5 "h"%string true; v 1 "h"%string false]) /\
  version_key (absorb (v 1 "h"%string false) [v 5 "h"%string true; v 3 "g"%string false]) =
  version_key (absorb (v 3 "g"%string false) [v 5 "h"%string true; v 5 "h"%string true; v 1 "h"%string false]).
Proof.
  assert (H : forall (x : ItemSummary) (p q r : ItemSummary),
    x ∈ [p; q; r] <-> x ∈ [r; q; q; p]) by set_solver.
  split; [intros x; apply H|apply replicas_converge; intros x; apply H].
Defined.

(** A delete is never undone by the version it deletes: once a tombstone is
    held, a live version of the same content survives only with a strictly
    later stamp. *)
Theorem tombstone_beats_its_version tomb live :
  deleted tomb = true -> deleted live = false ->
  content_hash live = content_hash tomb ->
  created_at live <= created_at tomb ->
  survivor tomb live = tomb /\ survivor live tomb = tomb.
Proof.
  intros Ht Hl Hh Hc.
  assert (Hlt : merge_key_cmp (version_key live) (version_key tomb) = Lt).
  { unfold merge_key_cmp, version_key, merge_key, pair_cmp; cbn.
    rewrite Hh, Ht, Hl, cmp_refl by apply _.
    destruct (Z.compare_spec (created_at live) (created_at tomb)); [done..|lia]. }
  unfold survivor, merge_decision_by_summary. rewrite !merge_decision_cmp.
  fold (version_key live) (version_key tomb).
  by rewrite Hlt, (proj2 (cmp_gt_lt merge_key_cmp _ _) Hlt).
Qed.

Lemma tombstone_beats_its_version_witness :
  let tomb := Build_ItemSummary "i" 100 true "h" "aaa" false None 0 in
  let live := Build_ItemSummary "i" 100 false "h" "zzz" false None 0 in
  survivor tomb live = tomb /\ survivor live tomb = tomb.
Proof.
  apply (tombstone_beats_its_version
    (Build_ItemSummary "i" 100 true "h" "aaa" false None 0)
    (Build_ItemSummary "i" 100 false "h" "zzz" false None 0)); [reflexivity..|cbn; lia].
Defined.

(** Pin state is a last-write-wins register of its own: the winner relation
    is a strict total order on (stamp, origin, pinned, order). *)
Theorem pin_state_strict_total_order :
  (forall a, pin_state_wins a a = false) /\
  (forall a b c, pin_state_wins a b = true -> pin_state_wins b c = true ->
                 pin_state_wins a c = true) /\
  (forall a b, pin_state_wins a b = true \/ pin_key a = pin_key b \/ pin_state_wins b a = true).
Proof.
  split_and!.
  - intros a. apply not_true_iff_false. rewrite pin_state_wins_iff, cmp_refl by apply _. done.
  - intros a b c. rewrite !pin_state_wins_iff. apply cmp_trans.
  - intros a b. rewrite !pin_state_wins_iff, <- (cmp_eq_iff (cmp:=pin_key_cmp)).
    rewrite (cmp_antisym (cmp:=pin_key_cmp) (pin_key a) (pin_key b)).
    destruct (pin_key_cmp _ _); naive_solver.
Qed.

(** Planning is quiescent exactly on agreement: neither device asks the
    other for its version iff their merge keys are equal and, when the item is
    live, their pin states are equal too. *)
Theorem no_request_iff_agreed a b :
  remote_version_wins a b = false /\ remote_version_wins b a = false <->
  version_key a = version_key b /\ (deleted a = false -> pin_key a = pin_key b).
Proof.
  unfold remote_version_wins, merge_decision_by_summary.
  rewrite !orb_false_iff, !bool_decide_eq_false, !merge_decision_take.
  fold (version_key a) (version_key b).
  rewrite <- (cmp_eq_iff (cmp:=merge_key_cmp) (version_key a)).
  rewrite (cmp_antisym (cmp:=merge_key_cmp) (version_key a) (version_key b)).
  assert (Hk : merge_key_cmp (version_key a) (version_key b) = Eq -> deleted a = deleted b).
  { rewrite cmp_eq_iff. unfold version_key, merge_key. naive_solver. }
  assert (Hpin : pin_state_wins a b = false /\ pin_state_wins b a = false <-> pin_key a = pin_key b).
  { rewrite <- !not_true_iff_false, !pin_state_wins_iff, <- (cmp_eq_iff (cmp:=pin_key_cmp)).
    rewrite (cmp_antisym (cmp:=pin_key_cmp) (pin_key a) (pin_key b)).
    destruct (pin_key_cmp _ _); cbn; naive_solver. }
  destruct (merge_key_cmp (version_key a) (version_key b)) eqn:E; cbn; [|naive_solver..].
  rewrite (Hk eq_refl). destruct (deleted b); cbn; naive_solver.
Qed.
