(* ===== verification/Net.v ===== *)
(** Socket addresses: the standard library's parser for [SocketAddr], and the
    address policy of [copypaste-p2p/src/netif.rs]. *)

From S2P Require Import Prelude Bytes.

Module Net.

Inductive IpAddr :=
| V4 (a b c d : Z)
| V6 (segments : list Z).

Record SocketAddr := { ip : IpAddr; port : Z; scope_id : Z }.

#[export] Instance IpAddr_eq_dec : EqDecision IpAddr.
Proof. solve_decision. Defined.
#[export] Instance SocketAddr_eq_dec : EqDecision SocketAddr.
Proof. solve_decision. Defined.

(** ** [SocketAddr::from_str]

    A parser consumes a prefix or fails without consuming. *)

Definition parser A := bytes -> option (A * bytes).

Definition read_given_char (c : Z) : parser unit := fun s =>
  match s with
  | b :: s' => if byte_val b =? c then Some (tt, s') else None
  | [] => None
  end.

Definition to_digit (radix : Z) (b : byte) : option Z :=
  let v := byte_val b in
  let d := if (48 <=? v) && (v <=? 57) then v - 48
           else if (97 <=? v) && (v <=? 122) then v - 87
           else if (65 <=? v) && (v <=? 90) then v - 55
           else 99 in
  if d <? radix then Some d else None.

(** The digits at the front, their value and their number. *)
Fixpoint read_digits (radix acc count : Z) (s : bytes) : Z * Z * bytes :=
  match s with
  | b :: s' =>
    match to_digit radix b with
    | Some d => read_digits radix (acc * radix + d) (count + 1) s'
    | None => (acc, count, s)
    end
  | [] => (acc, count, s)
  end.

(** [Parser::read_number]: at most [max_digits] digits when bounded, no
    leading zero unless allowed, a value that fits. *)
Definition read_number (radix : Z) (max_digits : option Z) (allow_zero_prefix : bool)
    (limit : Z) : parser Z := fun s =>
  let leading_zero := match s with b :: _ => byte_val b =? 48 | [] => false end in
  let '(v, count, rest) := read_digits radix 0 0 s in
  if match max_digits with Some m => count >? m | None => false end then None
  else if count =? 0 then None
  else if negb allow_zero_prefix && leading_zero && (count >? 1) then None
  else if v >? limit then None
  else Some (v, rest).

(** [Parser::read_separator]: the separator before every element but the first. *)
Definition read_separator {A} (sep : Z) (index : nat) (p : parser A) : parser A := fun s =>
  match index with
  | O => p s
  | S _ => match read_given_char sep s with Some (_, s') => p s' | None => None end
  end.

Definition read_ipv4_addr : parser (Z * Z * Z * Z) := fun s =>
  let octet i := read_separator 46 i (read_number 10 (Some 3) false 255) in
  '(a, s) ← octet 0%nat s; '(b, s) ← octet 1%nat s;
  '(c, s) ← octet 2%nat s; '(d, s) ← octet 3%nat s;
  Some ((a, b, c, d), s).

(** [read_groups]: up to [fuel] groups from index [i] on, the embedded IPv4
    address allowed while two groups are left. *)
Fixpoint read_groups (fuel i : nat) (s : bytes) : list Z * bool * bytes :=
  match fuel with
  | O => ([], false, s)
  | S f =>
    match (if (1 <=? f)%nat then read_separator 58 i read_ipv4_addr s else None) with
    | Some ((a, b, c, d), s') => ([a * 256 + b; c * 256 + d], true, s')
    | None =>
      match read_separator 58 i (read_number 16 (Some 4) true 65535) s with
      | Some (g, s') =>
        let '(gs, v4, rest) := read_groups f (S i) s' in (g :: gs, v4, rest)
      | None => ([], false, s)
      end
    end
  end.

Definition read_ipv6_addr : parser (list Z) := fun s =>
  let '(head, head_ipv4, s) := read_groups 8 0 s in
  if (length head =? 8)%nat then Some (head, s)
  else if head_ipv4 then None
  else
    '(_, s) ← read_given_char 58 s;
    '(_, s) ← read_given_char 58 s;
    let limit := (8 - (length head + 1))%nat in
    let '(tail, _, s) := read_groups limit 0 s in
    Some (head ++ replicate (8 - length head - length tail) 0 ++ tail, s).

Definition read_port : parser Z := fun s =>
  '(_, s) ← read_given_char 58 s; read_number 10 None true 65535 s.

Definition read_socket_addr_v4 : parser SocketAddr := fun s =>
  '(q, s) ← read_ipv4_addr s;
  '(p, s) ← read_port s;
  let '(a, b, c, d) := q in
  Some ({| ip := V4 a b c d; port := p; scope_id := 0 |}, s).

Definition read_socket_addr_v6 : parser SocketAddr := fun s =>
  '(_, s) ← read_given_char 91 s;
  '(segs, s) ← read_ipv6_addr s;
  let '(scope, s) :=
    match ('(_, s1) ← read_given_char 37 s; read_number 10 None true u32_max s1) with
    | Some r => r
    | None => (0, s)
    end in
  '(_, s) ← read_given_char 93 s;
  '(p, s) ← read_port s;
  Some ({| ip := V6 segs; port := p; scope_id := scope |}, s).

(** [str::parse::<SocketAddr>]: either form, and nothing left over. *)
Definition parse_socket_addr (s : string) : option SocketAddr :=
  let b := as_bytes s in
  match (match read_socket_addr_v4 b with Some r => Some r | None => read_socket_addr_v6 b end) with
  | Some (a, []) => Some a
  | _ => None
  end.

(** ** Address classes of the standard library *)

Definition v4_unspecified a b c d : bool := (a =? 0) && (b =? 0) && (c =? 0) && (d =? 0).
Definition v4_broadcast a b c d : bool := (a =? 255) && (b =? 255) && (c =? 255) && (d =? 255).
Definition v4_link_local (a b c d : Z) : bool := (a =? 169) && (b =? 254).
Definition v4_multicast (a b c d : Z) : bool := (224 <=? a) && (a <=? 239).
Definition v4_loopback (a b c d : Z) : bool := a =? 127.
Definition v6_unspecified (s : list Z) : bool := forallb (Z.eqb 0) s.
Definition v6_loopback (s : list Z) : bool := bool_decide (s = [0; 0; 0; 0; 0; 0; 0; 1]).
Definition v6_link_local (s : list Z) : bool :=
  match s with a :: _ => Z.land a 65472 =? 65152 | [] => false end.
Definition v6_multicast (s : list Z) : bool :=
  match s with a :: _ => Z.shiftr a 8 =? 255 | [] => false end.

(** ** [netif.rs] *)

Definition CACHE_TTL_MS : Z := 30 * 1000.

Definition to_canonical (i : IpAddr) : IpAddr :=
  match i with
  | V6 [0; 0; 0; 0; 0; 65535; h; l] =>
    V4 (Z.shiftr h 8) (Z.land h 255) (Z.shiftr l 8) (Z.land l 255)
  | other => other
  end.

Definition is_dialable (addr : SocketAddr) : bool :=
  if port addr =? 0 then false
  else match to_canonical (ip addr) with
       | V4 a b c d =>
         negb (v4_unspecified a b c d) && negb (v4_broadcast a b c d)
         && negb (v4_link_local a b c d) && negb (v4_multicast a b c d)
       | V6 s => negb (v6_unspecified s) && negb (v6_link_local s) && negb (v6_multicast s)
       end.

Definition is_peer_reachable (i : IpAddr) : bool :=
  match to_canonical i with
  | V4 a b c d =>
    negb (v4_loopback a b c d) && negb (v4_unspecified a b c d)
    && negb (v4_broadcast a b c d) && negb (v4_link_local a b c d) && negb (v4_multicast a b c d)
  | V6 s =>
    negb (v6_loopback s) && negb (v6_unspecified s)
    && negb (v6_link_local s) && negb (v6_multicast s)
  end.

Definition is_ipv6 (i : IpAddr) : bool := match i with V6 _ => true | V4 _ _ _ _ => false end.

(** [Iterator::min_by_key]: the first of the least elements. *)
Fixpoint min_by_key {A} (key : A -> Z) (l : list A) : option A :=
  match l with
  | [] => None
  | x :: l' =>
    match min_by_key key l' with
    | Some y => if key y <? key x then Some y else Some x
    | None => Some x
    end
  end.

(** [routable_ip], over the addresses [if_addrs] enumerates. *)
Definition routable_ip (local_ips : list IpAddr) : option IpAddr :=
  min_by_key (fun i => if is_ipv6 i then 1 else 0) (List.filter is_peer_reachable local_ips).

(** [LocalAddrs]: the cached enumeration and when it was taken.  The
    enumeration itself is the operating system's, a function of the time. *)
Definition LocalAddrs := option (Z * list IpAddr).

Definition is_local (enumerate : Z -> list IpAddr) (cached : LocalAddrs) (i : IpAddr) (now_ms : Z)
    : bool * LocalAddrs :=
  let i := to_canonical i in
  let fresh := match cached with
    | Some (taken_at, _) =>
      Z.max i64_min (Z.min i64_max (now_ms - taken_at)) <? CACHE_TTL_MS
    | None => false
    end in
  let cached := if fresh then cached else Some (now_ms, enumerate now_ms) in
  (match cached with
   | Some (_, ips) => existsb (fun l => bool_decide (l = i)) (to_canonical <$> ips)
   | None => false
   end, cached).

Definition is_own_endpoint (enumerate : Z -> list IpAddr) (cached : LocalAddrs)
    (configured_port : Z) (addr : SocketAddr) (now_ms : Z) : bool * LocalAddrs :=
  if port addr =? configured_port then is_local enumerate cached (ip addr) now_ms
  else (false, cached).

(** ** Examples *)

Example parses_v4 : parse_socket_addr "192.168.1.20:4242" =
  Some {| ip := V4 192 168 1 20; port := 4242; scope_id := 0 |}.
Proof. reflexivity. Qed.
Example parses_v6 : parse_socket_addr "[fe80::1%3]:80" =
  Some {| ip := V6 [65152; 0; 0; 0; 0; 0; 0; 1]; port := 80; scope_id := 3 |}.
Proof. reflexivity. Qed.
Example parses_mapped : parse_socket_addr "[::ffff:10.0.0.1]:1" =
  Some {| ip := V6 [0; 0; 0; 0; 0; 65535; 2560; 1]; port := 1; scope_id := 0 |}.
Proof. reflexivity. Qed.
Example refuses_leading_zero : parse_socket_addr "10.0.0.01:1" = None.
Proof. reflexivity. Qed.
Example refuses_trailing : parse_socket_addr "10.0.0.1:1 " = None.
Proof. reflexivity. Qed.

(** ** Facts *)

Lemma read_number_range radix m z limit s v rest :
  read_number radix m z limit s = Some (v, rest) -> v <= limit.
Proof.
  unfold read_number. destruct (read_digits radix 0 0 s) as [[w c] r].
  repeat case_match; intros; simplify_eq; lia.
Qed.

Lemma is_dialable_port a : is_dialable a = true -> port a <> 0.
Proof. unfold is_dialable. destruct (Z.eqb_spec (port a) 0); done. Qed.

Lemma canonical_mapped a b c d :
  0 <= a < 256 -> 0 <= b < 256 -> 0 <= c < 256 -> 0 <= d < 256 ->
  to_canonical (V6 [0; 0; 0; 0; 0; 65535; a * 256 + b; c * 256 + d]) = V4 a b c d.
Proof.
  intros. cbn [to_canonical].
  rewrite !Z.shiftr_div_pow2, !(Z.land_ones _ 8) by done.
  change (2 ^ 8) with 256.
  rewrite !(Z.add_comm (_ * 256)), !Z.div_add, !Z.mod_add by done.
  by rewrite !Z.div_small, !Z.mod_small by lia.
Qed.

(** Spelling an IPv4 address as IPv4-mapped IPv6 does not get past the
    dialling policy: the verdict is the IPv4 one. *)
Theorem mapped_address_is_not_a_bypass a b c d p s s' :
  0 <= a < 256 -> 0 <= b < 256 -> 0 <= c < 256 -> 0 <= d < 256 ->
  is_dialable {| ip := V6 [0; 0; 0; 0; 0; 65535; a * 256 + b; c * 256 + d];
                 port := p; scope_id := s |} =
  is_dialable {| ip := V4 a b c d; port := p; scope_id := s' |}.
Proof. intros. unfold is_dialable; cbn [ip port]. by rewrite canonical_mapped. Qed.

Lemma mapped_address_is_not_a_bypass_witness :
  is_dialable {| ip := V6 [0; 0; 0; 0; 0; 65535; 255 * 256 + 255; 255 * 256 + 255];
                 port := 9; scope_id := 0 |} =
  is_dialable {| ip := V4 255 255 255 255; port := 9; scope_id := 0 |}.
Proof. apply mapped_address_is_not_a_bypass; lia. Defined.

(** The cached enumeration was taken within the last [CACHE_TTL_MS], or ahead
    of a clock that stepped back, or is the one of this instant. *)
Definition cache_fresh (enumerate : Z -> list IpAddr) (now_ms : Z) (c : LocalAddrs) : Prop :=
  match c with
  | Some (t, ips) => ips = enumerate t /\ now_ms - t < CACHE_TTL_MS
  | None => False
  end.
Definition cache_ok (enumerate : Z -> list IpAddr) (c : LocalAddrs) : Prop :=
  match c with Some (t, ips) => ips = enumerate t | None => True end.

(** "is this address ours" is answered from an enumeration at most thirty
    seconds old: the answer is membership, up to IPv4 mapping, in what the host
    held at the recorded instant, and the cache stays truthful. *)
Theorem is_local_bounded_staleness enumerate cache i now :
  cache_ok enumerate cache ->
  let '(answer, cache') := is_local enumerate cache i now in
  cache_fresh enumerate now cache' /\
  (answer = true <->
   exists (t : Z) (ips : list IpAddr), cache' = Some (t, ips) /\
     exists l : IpAddr, l ∈ ips /\ to_canonical l = to_canonical i).
Proof.
  intros Hok. unfold is_local. cbv zeta.
  match goal with |- context [if ?b then cache else ?e] => set (cache' := if b then cache else e) end.
  assert (Hf : cache_fresh enumerate now cache').
  { subst cache'. destruct cache as [[t ips]|]; cbn in *; [|split; [done|unfold CACHE_TTL_MS; lia]].
    case_match eqn:E; cbn; split; try done; unfold CACHE_TTL_MS, i64_min, i64_max in *; lia. }
  split; [done|]. destruct cache' as [[t ips]|]; [|done].
  rewrite existsb_exists. split.
  - intros (x & Hx & Hd). apply list_elem_of_In, list_elem_of_fmap in Hx as (l & -> & Hl).
    apply bool_decide_eq_true in Hd. eauto 10.
  - intros (t' & ips' & [= <- <-] & l & Hl & He). exists (to_canonical l).
    rewrite bool_decide_eq_true. split; [|done].
    apply list_elem_of_In, list_elem_of_fmap. eauto.
Qed.

Lemma is_local_bounded_staleness_witness :
  let '(answer, cache') := is_local (fun _ => [V4 10 0 0 1]) None (V6 [0; 0; 0; 0; 0; 65535; 2560; 1]) 5 in
  cache_fresh (fun _ => [V4 10 0 0 1]) 5 cache' /\
  (answer = true <->
   exists (t : Z) (ips : list IpAddr), cache' = Some (t, ips) /\
     exists l : IpAddr, l ∈ ips /\ to_canonical l = to_canonical (V6 [0; 0; 0; 0; 0; 65535; 2560; 1])).
Proof. apply (is_local_bounded_staleness (fun _ => [V4 10 0 0 1]) None). exact I. Defined.

End Net.

Export Net.
