(* ===== verification/Payload.v ===== *)
(** The content-type vocabulary ([copypaste-ipc/src/content_type.rs]) and the
    validation of authenticated payload metadata
    ([copypaste-payload/src/lib.rs]). *)

From S2P Require Import Prelude Bytes Wire.

(** ** [content_type.rs] *)

Definition TEXT : string := "text".
Definition RICH_TEXT : string := "text/rtf".
Definition HTML : string := "text/html".
Definition IMAGE_PNG : string := "image/png".
Definition IMAGE_TIFF : string := "image/tiff".
Definition FILE : string := "file".

Inductive ContentClass := ClassText | ClassImage | ClassFile | ClassOther.

Definition str_starts_with (p s : string) : bool := starts_with (as_bytes p) (as_bytes s).

Definition is_text (content_type : string) : bool :=
  String.eqb content_type TEXT || str_starts_with "text/" content_type.
Definition is_binary (content_type : string) : bool := negb (is_text content_type).
Definition classify (content_type : string) : ContentClass :=
  if is_text content_type then ClassText
  else if str_starts_with "image/" content_type then ClassImage
  else if String.eqb content_type FILE then ClassFile
  else ClassOther.
Definition label (content_type : string) : string :=
  if String.eqb content_type TEXT then "text"
  else if String.eqb content_type RICH_TEXT then "rich text"
  else if String.eqb content_type HTML then "HTML"
  else if String.eqb content_type IMAGE_PNG || String.eqb content_type IMAGE_TIFF then "image"
  else if String.eqb content_type FILE then "file"
  else "unsupported".

(** ** Metadata records *)

Record ClipboardPrivacy := { secret : bool; transient : bool }.
Definition no_privacy : ClipboardPrivacy := {| secret := false; transient := false |}.
Definition privacy_is_empty (p : ClipboardPrivacy) : bool := negb (secret p) && negb (transient p).
Definition privacy_union (p q : ClipboardPrivacy) : ClipboardPrivacy :=
  {| secret := secret p || secret q; transient := transient p || transient q |}.

Record FileTransfer := {
  size_bytes : Z;
  ft_sha256 : string;
  source_version : option string;
}.
Record FileMetadata := {
  filename : string;
  mime_type : string;
  source_reference : option string;
  transfer : option FileTransfer;
}.
Record SourceAppIconMetadata := { png_base64 : string; width : Z; height : Z }.
Record SecretOverride := { updated_at : Z; so_secret : bool }.
Record PayloadMetadata := {
  credentials : bool;
  privacy : ClipboardPrivacy;
  secret_override : option SecretOverride;
  file : option FileMetadata;
  source_app_icon : option SourceAppIconMetadata;
}.

Definition MAX_SOURCE_APP_ICON_BYTES : Z := 32 * 1024.
Definition SOURCE_APP_ICON_EDGE : Z := 128.
Definition MAX_SOURCE_APP_ICON_BASE64_BYTES : Z := (MAX_SOURCE_APP_ICON_BYTES + 2) / 3 * 4.

(** Library code: serde's parsers for the two records, base64 and the PNG
    decoder's dimensions under the icon limits. *)
Class PayloadCodecs := {
  serde_file_metadata : string -> option FileMetadata;
  serde_payload_metadata : string -> option PayloadMetadata;
  serde_payload_string : PayloadMetadata -> option string;
  base64_decode : string -> option bytes;
  base64_encode : bytes -> string;
  png_dimensions : bytes -> option (Z * Z);
}.

Definition all_lower_hex (s : string) : bool := forallb is_lower_hex (as_bytes s).
Definition contains_byte (c : Z) (s : string) : bool :=
  existsb (fun b => byte_val b =? c) (as_bytes s).

Definition transfer_is_valid (t : FileTransfer) : bool :=
  (size_bytes t <=? i64_max)
  && (((str_len (ft_sha256 t) =? 64)
       && match source_version t with None => true | Some _ => false end)
      || ((str_len (ft_sha256 t) =? 0)
          && match source_version t with
             | Some v => (str_len v =? 32) && all_lower_hex v
             | None => false
             end))
  && all_lower_hex (ft_sha256 t).

(** [Path::new(name).file_name() == Some(name)] for a Unix path: the name is
    one normal component, spelled exactly. *)
Definition is_plain_file_name (name : string) : bool :=
  negb (String.eqb name "") && negb (contains_byte 47 name)
  && negb (String.eqb name ".") && negb (String.eqb name "..").

Definition file_build (filename mime_type : string) (source_reference : option string)
    : option FileMetadata :=
  if (str_len filename <=? 255) && negb (String.eqb filename "")
     && is_plain_file_name filename
     && (str_len mime_type <=? 255) && contains_byte 47 mime_type
     && match source_reference with
        | Some r => negb (String.eqb r "") && (str_len r <=? 4096) && negb (contains_byte 0 r)
        | None => true
        end
  then Some {| filename := filename; mime_type := mime_type;
               source_reference := source_reference; transfer := None |}
  else None.

Definition file_is_valid (f : FileMetadata) : bool :=
  match file_build (filename f) (mime_type f) (source_reference f) with
  | Some _ => true | None => false end
  && match transfer f with Some t => transfer_is_valid t | None => true end.

Section Codecs.
Context `{PayloadCodecs}.

Definition file_from_json (value : string) : option FileMetadata :=
  m ← serde_file_metadata value; if file_is_valid m then Some m else None.

Definition valid_icon_dimensions (png : bytes) (w h : Z) : bool :=
  if (len png =? 0) || (len png >? MAX_SOURCE_APP_ICON_BYTES)
     || negb ((1 <=? w) && (w <=? SOURCE_APP_ICON_EDGE))
     || negb ((1 <=? h) && (h <=? SOURCE_APP_ICON_EDGE))
  then false
  else match png_dimensions png with
       | Some (w', h') => (w' =? w) && (h' =? h)
       | None => false
       end.

Definition icon_new (png : bytes) (w h : Z) : option SourceAppIconMetadata :=
  if valid_icon_dimensions png w h
  then Some {| png_base64 := base64_encode png; width := w; height := h |} else None.

Definition icon_png (i : SourceAppIconMetadata) : option bytes :=
  if str_len (png_base64 i) >? MAX_SOURCE_APP_ICON_BASE64_BYTES then None
  else png ← base64_decode (png_base64 i);
       if valid_icon_dimensions png (width i) (height i) then Some png else None.

Definition has_valid_components (m : PayloadMetadata) : bool :=
  match file m with Some f => file_is_valid f | None => true end
  && match source_app_icon m with
     | Some i => match icon_png i with Some _ => true | None => false end
     | None => true end
  && match secret_override m with
     | Some c => (0 <? updated_at c) && Bool.eqb (so_secret c) (secret (privacy m))
     | None => true end
  && (match file m with Some _ => true | None => false end || credentials m
      || match source_app_icon m with Some _ => true | None => false end
      || negb (privacy_is_empty (privacy m))
      || match secret_override m with Some _ => true | None => false end).

Definition is_valid_for (m : PayloadMetadata) (content_type : string) : bool :=
  has_valid_components m
  && (negb (credentials m) || is_text content_type)
  && (if String.eqb content_type FILE
      then match file m with Some _ => true | None => false end
      else (match classify content_type with ClassImage => true | _ => false end
            && match file m with Some _ => true | None => false end)
           || (match file m with Some _ => false | None => true end
               && (match source_app_icon m with Some _ => true | None => false end
                   || credentials m || negb (privacy_is_empty (privacy m))
                   || match secret_override m with Some _ => true | None => false end))).

Definition to_json (m : PayloadMetadata) (content_type : string) : option string :=
  if is_valid_for m content_type then
    json ← serde_payload_string m;
    if str_len json <=? MAX_SYNC_METADATA_BYTES then Some json else None
  else None.

Definition from_json (value content_type : string) : option PayloadMetadata :=
  if str_len value >? MAX_SYNC_METADATA_BYTES then None
  else match file_from_json value with
       | Some f =>
         if String.eqb content_type FILE
         then Some {| credentials := false; privacy := no_privacy; secret_override := None;
                      file := Some f; source_app_icon := None |}
         else None
       | None =>
         m ← serde_payload_metadata value;
         if is_valid_for m content_type then Some m else None
       end.

End Codecs.

(** [PayloadMetadata::set_secret] and [merge_privacy]. *)
Definition set_secret (m : PayloadMetadata) (s : bool) (at_ : Z) : PayloadMetadata :=
  {| credentials := credentials m;
     privacy := {| secret := s; transient := transient (privacy m) |};
     secret_override := Some {| updated_at := at_; so_secret := s |};
     file := file m; source_app_icon := source_app_icon m |}.

Definition override_cmp : option SecretOverride -> option SecretOverride -> comparison :=
  option_cmp (cmp_on (fun o => (updated_at o, so_secret o)) (pair_cmp Z.compare bool_cmp)).
(** [Ord::max] returns its second argument on a tie. *)
Definition override_max (a b : option SecretOverride) : option SecretOverride :=
  match override_cmp a b with Gt => a | _ => b end.

Definition merge_privacy (m previous : PayloadMetadata) : PayloadMetadata :=
  let p := privacy_union (privacy m) (privacy previous) in
  let o := override_max (secret_override m) (secret_override previous) in
  {| credentials := credentials m || credentials previous;
     privacy := match o with
                | Some choice => {| secret := so_secret choice; transient := transient p |}
                | None => p
                end;
     secret_override := o;
     file := file m; source_app_icon := source_app_icon m |}.

(** ** Properties *)

Lemma override_max_comm a b : override_max a b = override_max b a.
Proof.
  unfold override_max, override_cmp, cmp_on.
  destruct a as [[t s]|], b as [[t' s']|]; cbn; try done.
  unfold pair_cmp; cbn. rewrite (Z.compare_antisym t t').
  destruct (Z.compare_spec t t'); cbn; [subst; by destruct s, s'|done..].
Qed.

(** An explicit choice about secrecy is kept over a producer hint and the
    latest one wins whichever side is merged into the other: both orders agree
    on credentials, privacy and the override, and after an override the secret
    flag is the chosen one. *)
Theorem merge_privacy_agrees a b :
  let ab := merge_privacy a b in let ba := merge_privacy b a in
  credentials ab = credentials ba /\ privacy ab = privacy ba /\
  secret_override ab = secret_override ba /\
  match secret_override ab with
  | Some c => secret (privacy ab) = so_secret c
  | None => secret (privacy ab) = secret (privacy a) || secret (privacy b)
  end.
Proof.
  cbn. rewrite (override_max_comm (secret_override a)), orb_comm. split_and!; try done.
  - unfold privacy_union. rewrite (orb_comm (secret (privacy a))), (orb_comm (transient (privacy a))).
    done.
  - by case_match.
Qed.

(** Metadata accepted from a transport names a file only for a file or image
    clip, with a file name that is a single path component. *)
Definition file_name_safe (m : PayloadMetadata) : Prop :=
  forall f, file m = Some f ->
    filename f <> ""%string /\ filename f <> "."%string /\ filename f <> ".."%string /\
    contains_byte 47 (filename f) = false /\ str_len (filename f) <= 255.

Lemma file_is_valid_safe f :
  file_is_valid f = true ->
  filename f <> ""%string /\ filename f <> "."%string /\ filename f <> ".."%string /\
  contains_byte 47 (filename f) = false /\ str_len (filename f) <= 255.
Proof.
  unfold file_is_valid, file_build, is_plain_file_name. rewrite andb_true_iff.
  intros [Hb _]. case_match; [|done]. case_match eqn:E; [|done].
  rewrite !andb_true_iff, !negb_true_iff, !String.eqb_neq, Z.leb_le in E. naive_solver.
Qed.

(** Metadata taken from an authenticated peer cannot steer a file outside
    the directory it is materialised in: every accepted file name is one
    ordinary path component of at most 255 bytes. *)
Theorem accepted_file_name_is_one_component `{PayloadCodecs} value ct m :
  from_json value ct = Some m -> file_name_safe m.
Proof.
  unfold from_json, file_from_json, file_name_safe.
  destruct (str_len value >? MAX_SYNC_METADATA_BYTES); [done|].
  destruct (serde_file_metadata value) as [g|]; cbn.
  - destruct (file_is_valid g) eqn:Hg.
    + case_match; [|done]. intros [= <-] f [= <-]. by apply file_is_valid_safe.
    + destruct (serde_payload_metadata value) as [m'|]; cbn; [|done].
      case_match eqn:Hv; [|done]. intros [= <-] f Hf.
      apply file_is_valid_safe. unfold is_valid_for, has_valid_components in Hv.
      rewrite Hf, !andb_true_iff in Hv. naive_solver.
  - destruct (serde_payload_metadata value) as [m'|]; cbn; [|done].
    case_match eqn:Hv; [|done]. intros [= <-] f Hf.
    apply file_is_valid_safe. unfold is_valid_for, has_valid_components in Hv.
    rewrite Hf, !andb_true_iff in Hv. naive_solver.
Qed.

(** A codec whose parser knows one document. *)
Definition sample_file : FileMetadata :=
  {| filename := "report.pdf"; mime_type := "application/pdf";
     source_reference := None; transfer := None |}.
Definition sample_codecs : PayloadCodecs := {|
  serde_file_metadata := fun s => if String.eqb s "{}" then Some sample_file else None;
  serde_payload_metadata := fun _ => None;
  serde_payload_string := fun _ => None;
  base64_decode := fun _ => None;
  base64_encode := fun _ => ""%string;
  png_dimensions := fun _ => None |}.

Lemma accepted_file_name_is_one_component_witness :
  exists m, @from_json sample_codecs "{}" FILE = Some m /\ file m = Some sample_file /\
            file_name_safe m.
Proof.
  eexists. split_and!; [reflexivity|reflexivity|].
  apply (@accepted_file_name_is_one_component sample_codecs "{}" FILE). reflexivity.
Defined.
