(* ===== verification/Settings.v ===== *)
(** The settings ([copypaste-ipc/src/config.rs], [health.rs], and
    [copypaste-core/src/settings_record.rs], [settings_transition.rs],
    [retention.rs]): bounds, patches, reading a stored record so that what cannot
    be read fails closed, and what a change sets off. *)

From S2P Require Import Prelude Float64 Bytes Text Wire Payload.

(** ** The record *)

Module ConfigData.
Record t := {
  private_mode : bool; skip_secret : bool; skip_transient : bool; poll_interval_ms : Z;
  history_limit : Z; storage_quota_bytes : Z; retention_days : Z; dedup_window_secs : Z;
  max_text_size_bytes : Z; max_image_size_bytes : Z; max_file_size_bytes : Z;
  max_decoded_image_mb : Z; excluded_app_bundle_ids : list string; lan_visibility : bool;
  sync_enabled : bool; instant_clipboard : bool; notify_on_copy : bool;
  notification_preview : bool; sound_on_copy : bool;
}.
End ConfigData.
Module ConfigPatch.
Record t := {
  private_mode : option bool; skip_secret : option bool; skip_transient : option bool;
  poll_interval_ms : option Z; history_limit : option Z; storage_quota_bytes : option Z;
  retention_days : option Z; dedup_window_secs : option Z; max_text_size_bytes : option Z;
  max_image_size_bytes : option Z; max_file_size_bytes : option Z; max_decoded_image_mb : option Z;
  excluded_app_bundle_ids : option (list string); lan_visibility : option bool;
  sync_enabled : option bool; instant_clipboard : option bool; notify_on_copy : option bool;
  notification_preview : option bool; sound_on_copy : option bool;
}.
End ConfigPatch.

Definition DEFAULT_STORAGE_QUOTA_BYTES : Z := 10 * 1024 * 1024 * 1024.
Definition MIN_STORAGE_QUOTA_BYTES : Z := 50 * 1024 * 1024.
Definition MAX_TEXT_SIZE_BYTES : Z := 4 * 1024 * 1024.
Definition MIN_TEXT_SIZE_BYTES : Z := 64 * 1024.
Definition MAX_IMAGE_SIZE_BYTES : Z := 4 * 1024 * 1024.
Definition MIN_IMAGE_SIZE_BYTES : Z := 1024 * 1024.
Definition MAX_FILE_SIZE_BYTES : Z := 20 * 1024 * 1024 * 1024.
Definition DEFAULT_FILE_SIZE_BYTES : Z := 64 * 1024 * 1024.
Definition MIN_FILE_SIZE_BYTES : Z := 1024 * 1024.
Definition MAX_DECODED_IMAGE_MB : Z := 50.
Definition MIN_DECODED_IMAGE_MB : Z := 1.
Definition POLL_INTERVAL_MIN_MS : Z := 100.
Definition POLL_INTERVAL_MAX_MS : Z := 5000.

Definition POLL_INTERVAL_MS : Z * Z := (POLL_INTERVAL_MIN_MS, POLL_INTERVAL_MAX_MS).
Definition HISTORY_LIMIT : Z * Z := (10, 1000000).
Definition STORAGE_QUOTA_BYTES : Z * Z := (MIN_STORAGE_QUOTA_BYTES, u64_max).
Definition RETENTION_DAYS : Z * Z := (0, 3650).
Definition DEDUP_WINDOW_SECS : Z * Z := (0, 86400).
Definition MAX_TEXT_SIZE_RANGE : Z * Z := (MIN_TEXT_SIZE_BYTES, MAX_TEXT_SIZE_BYTES).
Definition MAX_IMAGE_SIZE_RANGE : Z * Z := (MIN_IMAGE_SIZE_BYTES, MAX_IMAGE_SIZE_BYTES).
Definition MAX_FILE_SIZE_RANGE : Z * Z := (MIN_FILE_SIZE_BYTES, MAX_FILE_SIZE_BYTES).
Definition MAX_DECODED_IMAGE_MB_RANGE : Z * Z := (MIN_DECODED_IMAGE_MB, u32_max).
Definition MAX_EXCLUSIONS : Z := 256.
Definition MAX_BUNDLE_ID_LEN : Z := 256.

Definition default_config : ConfigData.t := {|
  ConfigData.private_mode := false; ConfigData.skip_secret := true; ConfigData.skip_transient := true;
  ConfigData.poll_interval_ms := 500; ConfigData.history_limit := 10000;
  ConfigData.storage_quota_bytes := DEFAULT_STORAGE_QUOTA_BYTES; ConfigData.retention_days := 0;
  ConfigData.dedup_window_secs := 60; ConfigData.max_text_size_bytes := MAX_TEXT_SIZE_BYTES;
  ConfigData.max_image_size_bytes := MAX_IMAGE_SIZE_BYTES;
  ConfigData.max_file_size_bytes := DEFAULT_FILE_SIZE_BYTES;
  ConfigData.max_decoded_image_mb := MAX_DECODED_IMAGE_MB; ConfigData.excluded_app_bundle_ids := [];
  ConfigData.lan_visibility := true; ConfigData.sync_enabled := true; ConfigData.instant_clipboard := true;
  ConfigData.notify_on_copy := false; ConfigData.notification_preview := true;
  ConfigData.sound_on_copy := true |}.
Definition default_patch : ConfigPatch.t := {|
  ConfigPatch.private_mode := None; ConfigPatch.skip_secret := None; ConfigPatch.skip_transient := None;
  ConfigPatch.poll_interval_ms := None; ConfigPatch.history_limit := None;
  ConfigPatch.storage_quota_bytes := None; ConfigPatch.retention_days := None;
  ConfigPatch.dedup_window_secs := None; ConfigPatch.max_text_size_bytes := None;
  ConfigPatch.max_image_size_bytes := None; ConfigPatch.max_file_size_bytes := None;
  ConfigPatch.max_decoded_image_mb := None; ConfigPatch.excluded_app_bundle_ids := None;
  ConfigPatch.lan_visibility := None; ConfigPatch.sync_enabled := None;
  ConfigPatch.instant_clipboard := None; ConfigPatch.notify_on_copy := None;
  ConfigPatch.notification_preview := None; ConfigPatch.sound_on_copy := None |}.

(** ** Applying a patch *)

(** The bounds of an error are kept as numbers, where the source prints them. *)
Inductive ConfigError :=
| OutOfRange (field : string) (min max : Z)
| TooMany (field : string) (max : Z)
| BadEntry (field : string).
Definition range (field : string) (value : Z) (bounds : Z * Z) : result ConfigError Z :=
  if (value <? bounds.1) || (bounds.2 <? value) then Err (OutOfRange field bounds.1 bounds.2) else Ok value.

(** [if let Some(v) = self.field { next.field = range(field, v, bounds)?; }]. *)
Definition ranged (field : string) (named : option Z) (base : Z) (bounds : Z * Z) : result ConfigError Z :=
  match named with Some v => range field v bounds | None => Ok base end.
Definition bad_exclusion (id : string) : bool := is_blank (as_bytes id) || (str_len id >? MAX_BUNDLE_ID_LEN).
Definition exclusions (named : option (list string)) (base : list string) : result ConfigError (list string) :=
  match named with
  | Some l =>
    _ ← refuse_if (len l >? MAX_EXCLUSIONS) (TooMany "excluded_app_bundle_ids" MAX_EXCLUSIONS);
    _ ← refuse_if (existsb bad_exclusion l) (BadEntry "excluded_app_bundle_ids");
    Ok (trim <$> l)
  | None => Ok base
  end.
(** [ConfigPatch::apply]: the fields in the order they are checked. *)
Definition apply (p : ConfigPatch.t) (base : ConfigData.t) : result ConfigError ConfigData.t :=
  poll ← ranged "poll_interval_ms" (ConfigPatch.poll_interval_ms p) (ConfigData.poll_interval_ms base) POLL_INTERVAL_MS;
  limit ← ranged "history_limit" (ConfigPatch.history_limit p) (ConfigData.history_limit base) HISTORY_LIMIT;
  quota ← ranged "storage_quota_bytes" (ConfigPatch.storage_quota_bytes p) (ConfigData.storage_quota_bytes base)
            STORAGE_QUOTA_BYTES;
  days ← ranged "retention_days" (ConfigPatch.retention_days p) (ConfigData.retention_days base) RETENTION_DAYS;
  dedup ← ranged "dedup_window_secs" (ConfigPatch.dedup_window_secs p) (ConfigData.dedup_window_secs base)
            DEDUP_WINDOW_SECS;
  text ← ranged "max_text_size_bytes" (ConfigPatch.max_text_size_bytes p) (ConfigData.max_text_size_bytes base)
           MAX_TEXT_SIZE_RANGE;
  image ← ranged "max_image_size_bytes" (ConfigPatch.max_image_size_bytes p) (ConfigData.max_image_size_bytes base)
            MAX_IMAGE_SIZE_RANGE;
  file ← ranged "max_file_size_bytes" (ConfigPatch.max_file_size_bytes p) (ConfigData.max_file_size_bytes base)
           MAX_FILE_SIZE_RANGE;
  decoded ← ranged "max_decoded_image_mb" (ConfigPatch.max_decoded_image_mb p) (ConfigData.max_decoded_image_mb base)
              MAX_DECODED_IMAGE_MB_RANGE;
  excluded ← exclusions (ConfigPatch.excluded_app_bundle_ids p) (ConfigData.excluded_app_bundle_ids base);
  Ok {| ConfigData.private_mode := default (ConfigData.private_mode base) (ConfigPatch.private_mode p);
        ConfigData.skip_secret := default (ConfigData.skip_secret base) (ConfigPatch.skip_secret p);
        ConfigData.skip_transient := default (ConfigData.skip_transient base) (ConfigPatch.skip_transient p);
        ConfigData.poll_interval_ms := poll; ConfigData.history_limit := limit;
        ConfigData.storage_quota_bytes := quota; ConfigData.retention_days := days;
        ConfigData.dedup_window_secs := dedup; ConfigData.max_text_size_bytes := text;
        ConfigData.max_image_size_bytes := image; ConfigData.max_file_size_bytes := file;
        ConfigData.max_decoded_image_mb := decoded; ConfigData.excluded_app_bundle_ids := excluded;
        ConfigData.lan_visibility := default (ConfigData.lan_visibility base) (ConfigPatch.lan_visibility p);
        ConfigData.sync_enabled := default (ConfigData.sync_enabled base) (ConfigPatch.sync_enabled p);
        ConfigData.instant_clipboard := default (ConfigData.instant_clipboard base) (ConfigPatch.instant_clipboard p);
        ConfigData.notify_on_copy := default (ConfigData.notify_on_copy base) (ConfigPatch.notify_on_copy p);
        ConfigData.notification_preview :=
          default (ConfigData.notification_preview base) (ConfigPatch.notification_preview p);
        ConfigData.sound_on_copy := default (ConfigData.sound_on_copy base) (ConfigPatch.sound_on_copy p) |}.

(** [From<&ConfigData> for ConfigPatch] and [ConfigData::validate]. *)
Definition patch_of (c : ConfigData.t) : ConfigPatch.t := {|
  ConfigPatch.private_mode := Some (ConfigData.private_mode c);
  ConfigPatch.skip_secret := Some (ConfigData.skip_secret c);
  ConfigPatch.skip_transient := Some (ConfigData.skip_transient c);
  ConfigPatch.poll_interval_ms := Some (ConfigData.poll_interval_ms c);
  ConfigPatch.history_limit := Some (ConfigData.history_limit c);
  ConfigPatch.storage_quota_bytes := Some (ConfigData.storage_quota_bytes c);
  ConfigPatch.retention_days := Some (ConfigData.retention_days c);
  ConfigPatch.dedup_window_secs := Some (ConfigData.dedup_window_secs c);
  ConfigPatch.max_text_size_bytes := Some (ConfigData.max_text_size_bytes c);
  ConfigPatch.max_image_size_bytes := Some (ConfigData.max_image_size_bytes c);
  ConfigPatch.max_file_size_bytes := Some (ConfigData.max_file_size_bytes c);
  ConfigPatch.max_decoded_image_mb := Some (ConfigData.max_decoded_image_mb c);
  ConfigPatch.excluded_app_bundle_ids := Some (ConfigData.excluded_app_bundle_ids c);
  ConfigPatch.lan_visibility := Some (ConfigData.lan_visibility c);
  ConfigPatch.sync_enabled := Some (ConfigData.sync_enabled c);
  ConfigPatch.instant_clipboard := Some (ConfigData.instant_clipboard c);
  ConfigPatch.notify_on_copy := Some (ConfigData.notify_on_copy c);
  ConfigPatch.notification_preview := Some (ConfigData.notification_preview c);
  ConfigPatch.sound_on_copy := Some (ConfigData.sound_on_copy c) |}.
Definition validate (c : ConfigData.t) : result ConfigError unit :=
  (fun _ => tt) <$> apply (patch_of c) default_config.

(** ** Fields *)

Inductive Liveness := Live | NeedsRestart.
Definition Liveness_eqb (a b : Liveness) : bool :=
  match a, b with Live, Live | NeedsRestart, NeedsRestart => true | _, _ => false end.
Definition field_liveness : list (string * Liveness) :=
  (fun f => (f, Live)) <$>
  ["private_mode"; "skip_secret"; "skip_transient"; "poll_interval_ms"; "history_limit";
   "storage_quota_bytes"; "retention_days"; "dedup_window_secs"; "max_text_size_bytes";
   "max_image_size_bytes"; "max_file_size_bytes"; "max_decoded_image_mb"; "excluded_app_bundle_ids";
   "lan_visibility"; "sync_enabled"; "instant_clipboard"; "notify_on_copy"; "notification_preview";
   "sound_on_copy"]%string.
(** The keys of a serialized patch: the fields it names. *)
Definition patch_keys (p : ConfigPatch.t) : list string :=
  let key {A} (f : string) (o : option A) := match o with Some _ => [f] | None => [] end in
  key "private_mode"%string (ConfigPatch.private_mode p) ++ key "skip_secret"%string (ConfigPatch.skip_secret p)
  ++ key "skip_transient"%string (ConfigPatch.skip_transient p)
  ++ key "poll_interval_ms"%string (ConfigPatch.poll_interval_ms p)
  ++ key "history_limit"%string (ConfigPatch.history_limit p)
  ++ key "storage_quota_bytes"%string (ConfigPatch.storage_quota_bytes p)
  ++ key "retention_days"%string (ConfigPatch.retention_days p)
  ++ key "dedup_window_secs"%string (ConfigPatch.dedup_window_secs p)
  ++ key "max_text_size_bytes"%string (ConfigPatch.max_text_size_bytes p)
  ++ key "max_image_size_bytes"%string (ConfigPatch.max_image_size_bytes p)
  ++ key "max_file_size_bytes"%string (ConfigPatch.max_file_size_bytes p)
  ++ key "max_decoded_image_mb"%string (ConfigPatch.max_decoded_image_mb p)
  ++ key "excluded_app_bundle_ids"%string (ConfigPatch.excluded_app_bundle_ids p)
  ++ key "lan_visibility"%string (ConfigPatch.lan_visibility p)
  ++ key "sync_enabled"%string (ConfigPatch.sync_enabled p)
  ++ key "instant_clipboard"%string (ConfigPatch.instant_clipboard p)
  ++ key "notify_on_copy"%string (ConfigPatch.notify_on_copy p)
  ++ key "notification_preview"%string (ConfigPatch.notification_preview p)
  ++ key "sound_on_copy"%string (ConfigPatch.sound_on_copy p).
Definition restart_required_by (p : ConfigPatch.t) : list string :=
  fst <$> List.filter (fun f => Liveness_eqb f.2 NeedsRestart && existsb (String.eqb f.1) (patch_keys p))
            field_liveness.
(** [capture_limit_bytes]. *)
Definition capture_limit_bytes (c : ConfigData.t) (content_type : string) : Z :=
  match classify content_type with
  | ClassText => Z.min (ConfigData.max_text_size_bytes c) MAX_CONTENT_BYTES
  | ClassImage => Z.min (ConfigData.max_image_size_bytes c) MAX_CONTENT_BYTES
  | ClassFile => Z.min (ConfigData.max_file_size_bytes c) MAX_FILE_SIZE_BYTES
  | ClassOther => Z.min (ConfigData.max_file_size_bytes c) MAX_CONTENT_BYTES
  end.
(** [ClipboardPrivacy::allows]. *)
Definition allows (p : ClipboardPrivacy) (c : ConfigData.t) : bool :=
  negb ((secret p && ConfigData.skip_secret c) || (transient p && ConfigData.skip_transient c)).

(** ** The stored record *)

(** [serde_json]: a record as an object of values, and the decoding of an object
    of one field as a patch.  The decoder sees only that field, and gives it a
    value unless it is [null]. *)
Class SettingsJson := {
  json : Type;
  parse_object : string -> option (gmap string json);
  is_null : json -> bool;
  patch_from : string -> json -> option ConfigPatch.t;
  encode_config : ConfigData.t -> option string;
}.
Class SettingsJsonLaws `{SettingsJson} : Prop := {
  patch_from_keys f v p : f ∈ field_liveness.*1 -> is_null v = false -> patch_from f v = Some p ->
    patch_keys p = [f];
}.

Record SettingsHealth := { record_unreadable : bool; unreadable_fields : list string }.
Definition is_degraded (h : SettingsHealth) : bool :=
  record_unreadable h || match unreadable_fields h with [] => false | _ => true end.

(** [ConfigPatch { field: Some(v), ..Default::default() }]. *)
Definition private_patch (b : bool) : ConfigPatch.t := {|
  ConfigPatch.private_mode := Some b; ConfigPatch.skip_secret := None; ConfigPatch.skip_transient := None;
  ConfigPatch.poll_interval_ms := None; ConfigPatch.history_limit := None;
  ConfigPatch.storage_quota_bytes := None; ConfigPatch.retention_days := None;
  ConfigPatch.dedup_window_secs := None; ConfigPatch.max_text_size_bytes := None;
  ConfigPatch.max_image_size_bytes := None; ConfigPatch.max_file_size_bytes := None;
  ConfigPatch.max_decoded_image_mb := None; ConfigPatch.excluded_app_bundle_ids := None;
  ConfigPatch.lan_visibility := None; ConfigPatch.sync_enabled := None;
  ConfigPatch.instant_clipboard := None; ConfigPatch.notify_on_copy := None;
  ConfigPatch.notification_preview := None; ConfigPatch.sound_on_copy := None |}.
Definition switches_patch (skip_secret skip_transient lan sync instant preview : option bool) : ConfigPatch.t := {|
  ConfigPatch.private_mode := None; ConfigPatch.skip_secret := skip_secret;
  ConfigPatch.skip_transient := skip_transient;
  ConfigPatch.poll_interval_ms := None; ConfigPatch.history_limit := None;
  ConfigPatch.storage_quota_bytes := None; ConfigPatch.retention_days := None;
  ConfigPatch.dedup_window_secs := None; ConfigPatch.max_text_size_bytes := None;
  ConfigPatch.max_image_size_bytes := None; ConfigPatch.max_file_size_bytes := None;
  ConfigPatch.max_decoded_image_mb := None; ConfigPatch.excluded_app_bundle_ids := None;
  ConfigPatch.lan_visibility := lan; ConfigPatch.sync_enabled := sync;
  ConfigPatch.instant_clipboard := instant; ConfigPatch.notify_on_copy := None;
  ConfigPatch.notification_preview := preview; ConfigPatch.sound_on_copy := None |}.
(** [fail_closed]. *)
Definition fail_closed (field : string) : ConfigPatch.t :=
  if String.eqb field "private_mode" || String.eqb field "excluded_app_bundle_ids" then private_patch true
  else if String.eqb field "skip_secret" then switches_patch (Some true) None None None None None
  else if String.eqb field "skip_transient" then switches_patch None (Some true) None None None None
  else if String.eqb field "sync_enabled" then switches_patch None None None (Some false) None None
  else if String.eqb field "instant_clipboard" then switches_patch None None None None (Some false) None
  else if String.eqb field "lan_visibility" then switches_patch None None (Some false) None None None
  else if String.eqb field "notification_preview" then switches_patch None None None None None (Some false)
  else default_patch.
Definition all_closed : ConfigData.t := {|
  ConfigData.private_mode := true; ConfigData.skip_secret := ConfigData.skip_secret default_config;
  ConfigData.skip_transient := ConfigData.skip_transient default_config;
  ConfigData.poll_interval_ms := ConfigData.poll_interval_ms default_config;
  ConfigData.history_limit := ConfigData.history_limit default_config;
  ConfigData.storage_quota_bytes := ConfigData.storage_quota_bytes default_config;
  ConfigData.retention_days := ConfigData.retention_days default_config;
  ConfigData.dedup_window_secs := ConfigData.dedup_window_secs default_config;
  ConfigData.max_text_size_bytes := ConfigData.max_text_size_bytes default_config;
  ConfigData.max_image_size_bytes := ConfigData.max_image_size_bytes default_config;
  ConfigData.max_file_size_bytes := ConfigData.max_file_size_bytes default_config;
  ConfigData.max_decoded_image_mb := ConfigData.max_decoded_image_mb default_config;
  ConfigData.excluded_app_bundle_ids := []; ConfigData.lan_visibility := false;
  ConfigData.sync_enabled := false; ConfigData.instant_clipboard := false;
  ConfigData.notify_on_copy := ConfigData.notify_on_copy default_config;
  ConfigData.notification_preview := false; ConfigData.sound_on_copy := ConfigData.sound_on_copy default_config |}.

Section Record_.
Context {SJ : SettingsJson}.
Definition decode_field (field : string) (v : json) : option ConfigPatch.t :=
  if is_null v then None else patch_from field v.
(** One turn of the loop of [read]: the settings, and whether the field failed. *)
Definition read_field (record : gmap string json) (c : ConfigData.t) (field : string) : ConfigData.t * bool :=
  match record !! field with
  | None => (c, false)
  | Some v =>
    match (p ← decode_field field v; match apply p c with Ok next => Some next | Err _ => None end) with
    | Some next => (next, false)
    | None => (match apply (fail_closed field) c with Ok next => next | Err _ => c end, true)
    end
  end.
Fixpoint read_fields (record : gmap string json) (fields : list string) (c : ConfigData.t)
    : ConfigData.t * list string :=
  match fields with
  | [] => (c, [])
  | f :: fields =>
    let '(c, failed) := read_field record c f in
    let '(c, unreadable) := read_fields record fields c in
    (c, if failed then f :: unreadable else unreadable)
  end.
Definition read (raw : string) : ConfigData.t * SettingsHealth :=
  match parse_object raw with
  | None => (all_closed, {| record_unreadable := true; unreadable_fields := [] |})
  | Some record =>
    let '(c, unreadable) := read_fields record field_liveness.*1 default_config in
    (c, {| record_unreadable := false; unreadable_fields := unreadable |})
  end.
End Record_.

(** ** Transitions *)

(** [policy_tightened]. *)
Definition policy_tightened (before after : ConfigData.t) : bool :=
  (ConfigData.storage_quota_bytes after <? ConfigData.storage_quota_bytes before)
  || (ConfigData.history_limit after <? ConfigData.history_limit before)
  || ((0 <? ConfigData.retention_days after)
      && ((ConfigData.retention_days before =? 0)
          || (ConfigData.retention_days after <? ConfigData.retention_days before))).

Inductive TransitionError := InvalidConfig (e : ConfigError) | EpochExhausted.
Record SettingsTransition := {
  before : ConfigData.t; config : ConfigData.t; private_mode_epoch : Z; capture_privacy_epoch : Z;
}.
(** What a capture in progress was admitted under. *)
Definition capture_privacy_changed (a b : ConfigData.t) : bool :=
  negb (Bool.eqb (ConfigData.private_mode a) (ConfigData.private_mode b))
  || negb (bool_decide (ConfigData.excluded_app_bundle_ids a = ConfigData.excluded_app_bundle_ids b))
  || negb (Bool.eqb (ConfigData.skip_secret a) (ConfigData.skip_secret b))
  || negb (Bool.eqb (ConfigData.skip_transient a) (ConfigData.skip_transient b)).
Definition bump_epoch (b : bool) (epoch : Z) : result TransitionError Z :=
  if b then ok_or EpochExhausted (u64_checked_succ epoch) else Ok epoch.
Definition prepare_transition (before : ConfigData.t) (private_epoch capture_epoch : Z) (p : ConfigPatch.t)
    : result TransitionError SettingsTransition :=
  config ← map_err InvalidConfig (apply p before);
  private_epoch ← bump_epoch (match ConfigPatch.private_mode p with Some _ => true | None => false end) private_epoch;
  capture_epoch ← bump_epoch (capture_privacy_changed config before) capture_epoch;
  Ok {| before := before; config := config; private_mode_epoch := private_epoch;
        capture_privacy_epoch := capture_epoch |}.
Definition resumes_capture (t : SettingsTransition) : bool :=
  ConfigData.private_mode (before t) && negb (ConfigData.private_mode (config t)).
Definition should_enforce_retention (t : SettingsTransition) : bool := policy_tightened (before t) (config t).
Definition lan_visibility_changed (t : SettingsTransition) : bool :=
  negb (Bool.eqb (ConfigData.lan_visibility (config t)) (ConfigData.lan_visibility (before t))).
Definition sync_enabled_changed (t : SettingsTransition) : option bool :=
  if Bool.eqb (ConfigData.sync_enabled (config t)) (ConfigData.sync_enabled (before t)) then None
  else Some (ConfigData.sync_enabled (config t)).
Inductive PersistError (E : Type) := Encode | StoreFailed (e : E).
Arguments Encode {E}.
Arguments StoreFailed {E} e.
Definition persist `{SettingsJson} {E W} (t : SettingsTransition) (write : string -> result E W)
    : result (PersistError E) W :=
  s ← ok_or Encode (encode_config (config t)); map_err StoreFailed (write s).

(** ** Validity *)

Definition within (bounds : Z * Z) (v : Z) : Prop := bounds.1 <= v <= bounds.2.
Record valid (c : ConfigData.t) : Prop := {
  valid_poll : within POLL_INTERVAL_MS (ConfigData.poll_interval_ms c);
  valid_limit : within HISTORY_LIMIT (ConfigData.history_limit c);
  valid_quota : within STORAGE_QUOTA_BYTES (ConfigData.storage_quota_bytes c);
  valid_days : within RETENTION_DAYS (ConfigData.retention_days c);
  valid_dedup : within DEDUP_WINDOW_SECS (ConfigData.dedup_window_secs c);
  valid_text : within MAX_TEXT_SIZE_RANGE (ConfigData.max_text_size_bytes c);
  valid_image : within MAX_IMAGE_SIZE_RANGE (ConfigData.max_image_size_bytes c);
  valid_file : within MAX_FILE_SIZE_RANGE (ConfigData.max_file_size_bytes c);
  valid_decoded : within MAX_DECODED_IMAGE_MB_RANGE (ConfigData.max_decoded_image_mb c);
  valid_exclusions : len (ConfigData.excluded_app_bundle_ids c) <= MAX_EXCLUSIONS /\
    Forall (fun id => bad_exclusion id = false) (ConfigData.excluded_app_bundle_ids c);
}.
(** A patch whose named fields are within their bounds. *)
Definition named_within (bounds : Z * Z) (o : option Z) : Prop := forall v, o = Some v -> within bounds v.
Record patch_ok (p : ConfigPatch.t) : Prop := {
  ok_poll : named_within POLL_INTERVAL_MS (ConfigPatch.poll_interval_ms p);
  ok_limit : named_within HISTORY_LIMIT (ConfigPatch.history_limit p);
  ok_quota : named_within STORAGE_QUOTA_BYTES (ConfigPatch.storage_quota_bytes p);
  ok_days : named_within RETENTION_DAYS (ConfigPatch.retention_days p);
  ok_dedup_secs : named_within DEDUP_WINDOW_SECS (ConfigPatch.dedup_window_secs p);
  ok_text : named_within MAX_TEXT_SIZE_RANGE (ConfigPatch.max_text_size_bytes p);
  ok_image : named_within MAX_IMAGE_SIZE_RANGE (ConfigPatch.max_image_size_bytes p);
  ok_file : named_within MAX_FILE_SIZE_RANGE (ConfigPatch.max_file_size_bytes p);
  ok_decoded : named_within MAX_DECODED_IMAGE_MB_RANGE (ConfigPatch.max_decoded_image_mb p);
  ok_exclusions : forall l, ConfigPatch.excluded_app_bundle_ids p = Some l ->
    len l <= MAX_EXCLUSIONS /\ Forall (fun id => bad_exclusion id = false) l;
}.
(** The reference: named fields replace the base's. *)
Definition overlay (p : ConfigPatch.t) (c : ConfigData.t) : ConfigData.t := {|
  ConfigData.private_mode := default (ConfigData.private_mode c) (ConfigPatch.private_mode p);
  ConfigData.skip_secret := default (ConfigData.skip_secret c) (ConfigPatch.skip_secret p);
  ConfigData.skip_transient := default (ConfigData.skip_transient c) (ConfigPatch.skip_transient p);
  ConfigData.poll_interval_ms := default (ConfigData.poll_interval_ms c) (ConfigPatch.poll_interval_ms p);
  ConfigData.history_limit := default (ConfigData.history_limit c) (ConfigPatch.history_limit p);
  ConfigData.storage_quota_bytes := default (ConfigData.storage_quota_bytes c) (ConfigPatch.storage_quota_bytes p);
  ConfigData.retention_days := default (ConfigData.retention_days c) (ConfigPatch.retention_days p);
  ConfigData.dedup_window_secs := default (ConfigData.dedup_window_secs c) (ConfigPatch.dedup_window_secs p);
  ConfigData.max_text_size_bytes := default (ConfigData.max_text_size_bytes c) (ConfigPatch.max_text_size_bytes p);
  ConfigData.max_image_size_bytes := default (ConfigData.max_image_size_bytes c) (ConfigPatch.max_image_size_bytes p);
  ConfigData.max_file_size_bytes := default (ConfigData.max_file_size_bytes c) (ConfigPatch.max_file_size_bytes p);
  ConfigData.max_decoded_image_mb := default (ConfigData.max_decoded_image_mb c) (ConfigPatch.max_decoded_image_mb p);
  ConfigData.excluded_app_bundle_ids :=
    default (ConfigData.excluded_app_bundle_ids c) (fmap (M:=list) trim <$> ConfigPatch.excluded_app_bundle_ids p);
  ConfigData.lan_visibility := default (ConfigData.lan_visibility c) (ConfigPatch.lan_visibility p);
  ConfigData.sync_enabled := default (ConfigData.sync_enabled c) (ConfigPatch.sync_enabled p);
  ConfigData.instant_clipboard := default (ConfigData.instant_clipboard c) (ConfigPatch.instant_clipboard p);
  ConfigData.notify_on_copy := default (ConfigData.notify_on_copy c) (ConfigPatch.notify_on_copy p);
  ConfigData.notification_preview := default (ConfigData.notification_preview c) (ConfigPatch.notification_preview p);
  ConfigData.sound_on_copy := default (ConfigData.sound_on_copy c) (ConfigPatch.sound_on_copy p) |}.

Lemma ranged_ok f o d b v : ranged f o d b = Ok v <-> v = default d o /\ named_within b o.
Proof.
  unfold ranged, range, named_within, within. destruct o as [w|]; cbn [default].
  - destruct ((w <? b.1) || (b.2 <? w)) eqn:E; split; intros H.
    + discriminate H.
    + exfalso. destruct H as [_ H]. specialize (H w eq_refl). lia.
    + injection H as <-. split; [done|]. intros u [= <-]. lia.
    + destruct H as [-> _]. reflexivity.
  - split; [intros [= <-]; split; [done|by intros]|by intros [-> _]].
Qed.
Lemma exclusions_ok o d v :
  exclusions o d = Ok v <-> v = default d (fmap (M:=list) trim <$> o) /\
    forall l, o = Some l -> len l <= MAX_EXCLUSIONS /\ Forall (fun id => bad_exclusion id = false) l.
Proof.
  unfold exclusions. destruct o as [l|]; cbn [default fmap option_fmap option_map].
  - rewrite !bind_unit_ok, !refuse_if_ok. rewrite Z.gtb_ltb, Z.ltb_ge.
    assert (He : existsb bad_exclusion l = false <-> Forall (fun id => bad_exclusion id = false) l).
    { induction l as [|x l IH]; cbn; [by rewrite Forall_nil|]. by rewrite orb_false_iff, Forall_cons, IH. }
    rewrite He. split.
    + intros (H1 & H2 & [= <-]). split; [done|]. by intros k [= <-].
    + intros (-> & H). destruct (H l eq_refl). by split_and!.
  - split; [intros [= <-]; split; [done|by intros]|by intros [-> _]].
Qed.
Lemma apply_ok p base next : apply p base = Ok next <-> next = overlay p base /\ patch_ok p.
Proof.
  unfold apply. split.
  - repeat (let H := fresh in intros (? & [-> H]%ranged_ok & Hk)%bind_ok; revert Hk).
    intros (? & [-> ?]%exclusions_ok & [= <-])%bind_ok. split; [done|by split].
  - intros [-> [? ? ? ? ? ? ? ? ? ?]]. unfold overlay.
    repeat (apply bind_ok; eexists; split; [by apply ranged_ok|]).
    apply bind_ok. eexists. split; [by apply exclusions_ok|done].
Qed.
Lemma bad_exclusion_trim id : bad_exclusion id = false -> bad_exclusion (trim id) = false.
Proof.
  unfold bad_exclusion. rewrite !orb_false_iff, !Z.gtb_ltb, !Z.ltb_ge. intros [H1 H2].
  destruct (trim_bounds id) as [H3 H4]. split; [by apply H4|lia].
Qed.
Lemma overlay_valid p c : patch_ok p -> valid c -> valid (overlay p c).
Proof.
  intros [] []. assert (Hd : forall b o d, named_within b o -> within b d -> within b (default d o)).
  { intros b [v|] d H1 H2; [by apply H1|done]. }
  split; cbn; try by apply Hd.
  destruct (ConfigPatch.excluded_app_bundle_ids p) as [l|]; cbn; [|done].
  destruct (ok_exclusions0 l eq_refl) as [Hl Hf]. split.
  - unfold len in *. by rewrite length_fmap.
  - apply Forall_fmap. eapply Forall_impl; [exact Hf|]. intros id. apply bad_exclusion_trim.
Qed.
Lemma validate_ok c : validate c = Ok tt <-> valid c.
Proof.
  unfold validate. assert (Hp : patch_ok (patch_of c) <-> valid c).
  { split.
    - intros []. cbn in *. split; try (match goal with H : named_within ?b _ |- within ?b _ => by apply H end).
      by apply ok_exclusions0.
    - intros []. split; cbn; try (intros ? [= <-]; done). }
  destruct (apply (patch_of c) default_config) as [n|e] eqn:E; cbn.
  - apply apply_ok in E as [_ E]. by rewrite <- Hp.
  - split; [done|]. intros H%Hp. assert (Ha : apply (patch_of c) default_config = Ok (overlay (patch_of c) default_config)).
    { by apply apply_ok. }
    congruence.
Qed.
Lemma default_valid : valid default_config.
Proof. apply validate_ok. vm_compute. reflexivity. Qed.
Lemma all_closed_valid : valid all_closed.
Proof. apply validate_ok. vm_compute. reflexivity. Qed.
Lemma fail_closed_ok f : patch_ok (fail_closed f).
Proof. unfold fail_closed. repeat case_match; by split. Qed.

(** ** Reading *)

(** The switches that fail closed: the name, the field, the patch's field and the
    closed value. *)
Record Switch := {
  sw_name : string; sw_get : ConfigData.t -> bool; sw_named : ConfigPatch.t -> option bool; sw_closed : bool;
}.
Definition switches : list Switch :=
  [{| sw_name := "skip_secret"; sw_get := ConfigData.skip_secret; sw_named := ConfigPatch.skip_secret; sw_closed := true |};
   {| sw_name := "skip_transient"; sw_get := ConfigData.skip_transient; sw_named := ConfigPatch.skip_transient;
      sw_closed := true |};
   {| sw_name := "sync_enabled"; sw_get := ConfigData.sync_enabled; sw_named := ConfigPatch.sync_enabled; sw_closed := false |};
   {| sw_name := "instant_clipboard"; sw_get := ConfigData.instant_clipboard; sw_named := ConfigPatch.instant_clipboard;
      sw_closed := false |};
   {| sw_name := "lan_visibility"; sw_get := ConfigData.lan_visibility; sw_named := ConfigPatch.lan_visibility;
      sw_closed := false |};
   {| sw_name := "notification_preview"; sw_get := ConfigData.notification_preview;
      sw_named := ConfigPatch.notification_preview; sw_closed := false |}].
Record switch_ok (w : Switch) : Prop := {
  so_overlay p c : sw_get w (overlay p c) = default (sw_get w c) (sw_named w p);
  so_key p : is_Some (sw_named w p) -> sw_name w ∈ patch_keys p;
  so_closed : sw_named w (fail_closed (sw_name w)) = Some (sw_closed w);
  so_others f : f <> sw_name w -> sw_named w (fail_closed f) = None;
  so_all : sw_get w all_closed = sw_closed w;
  so_field : sw_name w ∈ field_liveness.*1;
}.
Ltac in_keys :=
  intros [? H]; unfold patch_keys; rewrite H; apply list_elem_of_In;
  repeat (apply in_or_app; first [solve [left; left; reflexivity] | right]).
Ltac others :=
  let H := fresh in intros f H; unfold fail_closed;
  repeat (match goal with |- context [String.eqb f ?s] => destruct (String.eqb_spec f s) as [->|?] end; cbn [orb]);
  solve [done].
Lemma switches_ok : Forall switch_ok switches.
Proof.
  repeat constructor; cbn [sw_name sw_get sw_named sw_closed]; try done.
  all: try (intros p; in_keys). all: try others.
  all: apply list_elem_of_In; cbn; tauto.
Qed.
Definition private_switch : Switch :=
  {| sw_name := "private_mode"; sw_get := ConfigData.private_mode; sw_named := ConfigPatch.private_mode; sw_closed := true |}.
Lemma private_key p : is_Some (ConfigPatch.private_mode p) -> "private_mode"%string ∈ patch_keys p.
Proof. in_keys. Qed.
Lemma fields_nodup : NoDup field_liveness.*1.
Proof. by apply (bool_decide_unpack _), I. Qed.

Section Reading.
Context {SJ : SettingsJson}.
Implicit Types (record : gmap string json) (c : ConfigData.t).

(** Whether a field of the record is unreadable, which no setting changes. *)
Definition unreadable record (f : string) : bool := (read_field record default_config f).2.
Lemma apply_err p c : (exists e, apply p c = Err e) <-> ~ patch_ok p.
Proof.
  destruct (apply p c) as [n|e] eqn:E.
  - apply apply_ok in E as [_ E]. split; [by intros [? ?]|done].
  - split; [|by exists e]. intros _ Hp. assert (apply p c = Ok (overlay p c)) by by apply apply_ok. congruence.
Qed.
Lemma read_field_failed record c f :
  (read_field record c f).2 = true <->
  exists v, record !! f = Some v /\ forall p, decode_field f v = Some p -> ~ patch_ok p.
Proof.
  unfold read_field. destruct (record !! f) as [v|]; [|split; [done|by intros (? & ? & _)]].
  destruct (decode_field f v) as [p|] eqn:Ed; cbn.
  - destruct (apply p c) as [n|e] eqn:E; cbn.
    + split; [done|]. intros (? & [= <-] & H). apply apply_ok in E as [_ E]. by destruct (H p Ed).
    + split; [|done]. intros _. exists v. split; [done|]. intros q Hq. assert (q = p) as -> by congruence.
      apply (apply_err p c). by exists e.
  - split; [|done]. intros _. exists v. split; [done|]. intros q Hq. congruence.
Qed.
Lemma read_field_unreadable record c f : (read_field record c f).2 = unreadable record f.
Proof.
  unfold unreadable. pose proof (read_field_failed record c f) as H1.
  pose proof (read_field_failed record default_config f) as H2.
  destruct (read_field record c f).2, (read_field record default_config f).2; naive_solver.
Qed.
Lemma read_fields_foldl record l c :
  read_fields record l c = (foldl (fun c f => (read_field record c f).1) c l, List.filter (unreadable record) l).
Proof.
  revert c; induction l as [|f l IH]; intros c; cbn [read_fields foldl List.filter]; [done|].
  pose proof (read_field_unreadable record c f) as Hu. destruct (read_field record c f) as [c' failed]; cbn in *.
  rewrite IH. by destruct failed; rewrite <- Hu.
Qed.
(** What one field makes of the settings. *)
Lemma read_field_cases record c f :
  record !! f = None /\ read_field record c f = (c, false) \/
  (exists v p, record !! f = Some v /\ decode_field f v = Some p /\ patch_ok p /\
     read_field record c f = (overlay p c, false)) \/
  is_Some (record !! f) /\ read_field record c f = (overlay (fail_closed f) c, true).
Proof.
  unfold read_field. destruct (record !! f) as [v|] eqn:E; [right|by left].
  assert (Hc : apply (fail_closed f) c = Ok (overlay (fail_closed f) c)) by (apply apply_ok; split; [done|apply fail_closed_ok]).
  destruct (decode_field f v) as [p|] eqn:Ep; cbn.
  - destruct (apply p c) as [n|e] eqn:Ea; cbn.
    + left. apply apply_ok in Ea as [-> Hp]. by exists v, p.
    + right. rewrite Hc. split; [by eexists|done].
  - right. rewrite Hc. split; [by eexists|done].
Qed.
Lemma read_field_valid record c f : valid c -> valid (read_field record c f).1.
Proof.
  intros Hc. destruct (read_field_cases record c f) as [[_ ->]|[(v & p & _ & _ & Hp & ->)|[_ ->]]]; cbn; [done|..].
  - by apply overlay_valid.
  - apply overlay_valid; [apply fail_closed_ok|done].
Qed.
Lemma read_foldl_valid record l c : valid c -> valid (foldl (fun c f => (read_field record c f).1) c l).
Proof. revert c; induction l as [|f l IH]; intros c Hc; cbn; [done|]. by apply IH, read_field_valid. Qed.
Lemma foldl_keep {A} (g : ConfigData.t -> A) record l c :
  (forall f c, f ∈ l -> g (read_field record c f).1 = g c) ->
  g (foldl (fun c f => (read_field record c f).1) c l) = g c.
Proof.
  revert c; induction l as [|f l IH]; intros c Hg; cbn; [done|]. rewrite IH.
  - apply Hg. by left.
  - intros f' c' Hf. apply Hg. by right.
Qed.

Context {SL : SettingsJsonLaws}.
Lemma decoded_keys f v p : f ∈ field_liveness.*1 -> decode_field f v = Some p -> patch_keys p = [f].
Proof. unfold decode_field. intros Hf. destruct (is_null v) eqn:E; [done|]. by apply patch_from_keys. Qed.
(** A field changes no switch but its own. *)
Lemma other_field record c f w :
  switch_ok w -> f ∈ field_liveness.*1 -> f <> sw_name w -> sw_get w (read_field record c f).1 = sw_get w c.
Proof.
  intros [Ho Hk _ Hf _ _] Hin Hne.
  destruct (read_field_cases record c f) as [[_ ->]|[(v & p & _ & Hd & _ & ->)|[_ ->]]]; cbn; [done|..].
  - rewrite Ho. destruct (sw_named w p) eqn:E; [|done]. exfalso.
    pose proof (Hk p ltac:(by eexists)) as Hin'. rewrite (decoded_keys f v p Hin Hd) in Hin'.
    apply list_elem_of_singleton in Hin'. congruence.
  - by rewrite Ho, Hf.
Qed.
Lemma split_fields f : f ∈ field_liveness.*1 ->
  exists l k, field_liveness.*1 = l ++ f :: k /\ f ∉ l /\ f ∉ k /\ l ⊆ field_liveness.*1 /\ k ⊆ field_liveness.*1.
Proof.
  intros (l & k & He)%list_elem_of_split. exists l, k. pose proof fields_nodup as Hn. rewrite He in Hn |- *.
  apply NoDup_app in Hn as (_ & H1 & [H2 _]%NoDup_cons). split_and!; [done| |done|set_solver|set_solver].
  intros Hf. apply (H1 f Hf). by left.
Qed.
Lemma switch_read record w :
  switch_ok w ->
  let c := foldl (fun c f => (read_field record c f).1) default_config field_liveness.*1 in
  exists c0, sw_get w c0 = sw_get w default_config /\ sw_get w c = sw_get w (read_field record c0 (sw_name w)).1.
Proof.
  intros Hw c. destruct (split_fields (sw_name w)) as (l & k & He & Hl & Hk & Sl & Sk); [apply Hw|].
  subst c. rewrite He, foldl_app. cbn [foldl]. exists (foldl (fun c f => (read_field record c f).1) default_config l).
  split; rewrite foldl_keep; try done; intros f c Hf; apply other_field; try done;
    [by apply Sl|congruence|by apply Sk|congruence].
Qed.
End Reading.

Section Private.
Context {SJ : SettingsJson} {SL : SettingsJsonLaws}.
Implicit Types (record : gmap string json) (c : ConfigData.t).
Lemma private_other record c f :
  f ∈ field_liveness.*1 -> f <> "private_mode"%string ->
  ConfigData.private_mode (read_field record c f).1 =
  if String.eqb f "excluded_app_bundle_ids" && unreadable record f then true else ConfigData.private_mode c.
Proof.
  intros Hin Hne. rewrite <- (read_field_unreadable record c f).
  destruct (read_field_cases record c f) as [[_ ->]|[(v & p & _ & Hd & _ & ->)|[_ ->]]]; cbn [fst snd].
  - by rewrite andb_false_r.
  - rewrite andb_false_r. cbn. destruct (ConfigPatch.private_mode p) eqn:E; [|done]. exfalso.
    pose proof (private_key p ltac:(by eexists)) as Hk. rewrite (decoded_keys f v p Hin Hd) in Hk.
    apply list_elem_of_singleton in Hk. congruence.
  - rewrite andb_true_r. unfold fail_closed. rewrite (proj2 (String.eqb_neq _ _) Hne). cbn [orb].
    destruct (String.eqb f "excluded_app_bundle_ids"); [done|]. by repeat case_match.
Qed.
Lemma private_foldl record l c :
  l ⊆ field_liveness.*1 -> "private_mode"%string ∉ l ->
  ConfigData.private_mode (foldl (fun c f => (read_field record c f).1) c l) =
  if bool_decide ("excluded_app_bundle_ids"%string ∈ l) && unreadable record "excluded_app_bundle_ids"
  then true else ConfigData.private_mode c.
Proof.
  revert c; induction l as [|f l IH]; intros c Hl Hp; cbn [foldl]; [done|].
  rewrite IH; [|set_solver|set_solver]. rewrite private_other by set_solver.
  destruct (String.eqb_spec f "excluded_app_bundle_ids") as [->|Hne]; cbn [andb].
  - rewrite (bool_decide_eq_true_2 (_ ∈ _ :: l)) by by left. cbn [andb].
    destruct (unreadable record "excluded_app_bundle_ids"); [by destruct (bool_decide _)|by rewrite andb_false_r].
  - assert (Hb : bool_decide ("excluded_app_bundle_ids"%string ∈ f :: l) = bool_decide ("excluded_app_bundle_ids"%string ∈ l)).
    { apply bool_decide_ext. rewrite elem_of_cons. naive_solver. }
    by rewrite Hb.
Qed.
Lemma private_read record :
  ConfigData.private_mode (foldl (fun c f => (read_field record c f).1) default_config field_liveness.*1) =
  if unreadable record "excluded_app_bundle_ids" then true
  else ConfigData.private_mode (read_field record default_config "private_mode").1.
Proof.
  change field_liveness.*1 with ("private_mode"%string :: drop 1 field_liveness.*1). cbn [foldl].
  rewrite private_foldl.
  - rewrite bool_decide_eq_true_2; [done|]. by apply (bool_decide_unpack _), I.
  - intros f Hf. by right.
  - by apply (bool_decide_unpack _), I.
Qed.
End Private.

(** ** Properties *)

(** A patch is applied whole or not at all: it is refused exactly when a field
    it names is out of bounds, and otherwise gives the settings with the named
    fields replaced, exclusions trimmed, and every other field as it was; valid
    settings stay valid, and valid is what [validate] accepts. *)
Theorem patch_applies_whole_or_not p c :
  (patch_ok p /\ apply p c = Ok (overlay p c) \/ ~ patch_ok p /\ exists e, apply p c = Err e) /\
  (forall next, valid c -> apply p c = Ok next -> valid next /\ validate next = Ok tt) /\
  restart_required_by p = [].
Proof.
  split_and!.
  - destruct (apply p c) as [n|e] eqn:E.
    + left. apply apply_ok in E as [-> Hp]. by split.
    + right. split; [|by exists e]. apply (apply_err p c). by exists e.
  - intros next Hc [-> Hp]%apply_ok. pose proof (overlay_valid p c Hp Hc) as Hv. split; [done|by apply validate_ok].
  - reflexivity.
Qed.

(** C32: settings that cannot be read never fail open: whatever the stored text, the
    settings read are valid; a record that is no record gives the closed ones; of
    a record, exactly the fields that are present and do not decode within bounds
    are reported, each switch among them takes its closed value, an unreadable
    list of excluded applications stops capture altogether, and each switch that
    can be read has the value that was stored. *)
Theorem stored_settings_fail_closed `{SettingsJsonLaws} raw c h :
  read raw = (c, h) ->
  valid c /\
  (parse_object raw = None -> record_unreadable h = true /\ c = all_closed) /\
  (forall record, parse_object raw = Some record ->
     record_unreadable h = false /\
     (forall f, f ∈ unreadable_fields h <-> f ∈ field_liveness.*1 /\
        exists v, record !! f = Some v /\ forall p, decode_field f v = Some p -> ~ patch_ok p) /\
     ("private_mode"%string ∈ unreadable_fields h \/ "excluded_app_bundle_ids"%string ∈ unreadable_fields h ->
        ConfigData.private_mode c = true) /\
     (forall v p, record !! "private_mode"%string = Some v -> decode_field "private_mode" v = Some p ->
        ConfigPatch.private_mode p = Some true -> ConfigData.private_mode c = true) /\
     forall w, w ∈ switches ->
       (sw_name w ∈ unreadable_fields h -> sw_get w c = sw_closed w) /\
       (forall v p b, record !! sw_name w = Some v -> decode_field (sw_name w) v = Some p -> patch_ok p ->
          sw_named w p = Some b -> sw_get w c = b)).
Proof.
  unfold read. destruct (parse_object raw) as [record|].
  2:{ intros [= <- <-]. split; [apply all_closed_valid|]. split; [done|by intros]. }
  rewrite read_fields_foldl. cbv beta iota zeta. intros [<- <-]%pair_equal_spec. cbn [record_unreadable unreadable_fields].
  split; [apply read_foldl_valid, default_valid|]. split; [done|]. intros ? [= <-].
  assert (Hun : forall f, f ∈ List.filter (unreadable record) field_liveness.*1 <->
                f ∈ field_liveness.*1 /\ unreadable record f = true).
  { intros f. by rewrite list_elem_of_In, filter_In, <- list_elem_of_In. }
  set (un := List.filter (unreadable record) field_liveness.*1) in *. clearbody un.
  split_and!; [done| | | |].
  - intros f. rewrite Hun. unfold unreadable. by rewrite read_field_failed.
  - rewrite !Hun, private_read. intros [[_ Hp]|[_ ->]]; [|done].
    destruct (unreadable record "excluded_app_bundle_ids"); [done|].
    rewrite <- (read_field_unreadable record default_config) in Hp.
    destruct (read_field_cases record default_config "private_mode") as [[_ E]|[(v & p & _ & _ & _ & E)|[_ E]]];
      rewrite E in Hp |- *; done.
  - intros v p Hv Hd Ht. rewrite private_read. destruct (unreadable record "excluded_app_bundle_ids"); [done|].
    destruct (read_field_cases record default_config "private_mode") as [[E _]|[(v' & p' & Hv' & Hd' & _ & ->)|[_ ->]]].
    + congruence.
    + assert (p' = p) as -> by congruence. cbn. by rewrite Ht.
    + done.
  - intros w Hw. pose proof (proj1 (Forall_forall _ _) switches_ok w Hw) as Hok.
    destruct (switch_read record w Hok) as (c0 & _ & ->). split.
    + rewrite Hun, <- (read_field_unreadable record c0). intros [_ Hf].
      destruct (read_field_cases record c0 (sw_name w)) as [[_ E]|[(v & p & _ & _ & _ & E)|[_ E]]];
        rewrite E in Hf |- *; try done. cbn. by rewrite (so_overlay w Hok), (so_closed w Hok).
    + intros v p b Hv Hd Hp Hb.
      destruct (read_field_cases record c0 (sw_name w)) as [[E _]|[(v' & p' & Hv' & Hd' & _ & ->)|[_ E]]].
      * congruence.
      * assert (p' = p) as -> by congruence. cbn. by rewrite (so_overlay w Hok), Hb.
      * exfalso. assert (Ht : (read_field record c0 (sw_name w)).2 = true) by by rewrite E.
        apply read_field_failed in Ht as (u & Hu & Hbad). apply (Hbad p); [congruence|done].
Qed.

(** ** Witnesses *)

Module SettingsDemo.
Inductive value := Null | Bool (b : bool) | Junk.
Definition set_switch (f : string) (b : bool) : option ConfigPatch.t :=
  if String.eqb f "private_mode" then Some (private_patch b)
  else if String.eqb f "skip_secret" then Some (switches_patch (Some b) None None None None None)
  else if String.eqb f "skip_transient" then Some (switches_patch None (Some b) None None None None)
  else if String.eqb f "lan_visibility" then Some (switches_patch None None (Some b) None None None)
  else if String.eqb f "sync_enabled" then Some (switches_patch None None None (Some b) None None)
  else if String.eqb f "instant_clipboard" then Some (switches_patch None None None None (Some b) None)
  else if String.eqb f "notification_preview" then Some (switches_patch None None None None None (Some b))
  else None.
#[export] Instance json : SettingsJson := {|
  json := value;
  parse_object raw := if String.eqb raw "stored"
    then Some (list_to_map [("sync_enabled"%string, Junk); ("excluded_app_bundle_ids"%string, Junk);
                            ("private_mode"%string, Bool false); ("lan_visibility"%string, Bool false)])
    else None;
  is_null v := match v with Null => true | _ => false end;
  patch_from f v := match v with Bool b => set_switch f b | _ => None end;
  encode_config _ := None |}.
#[export] Instance json_laws : SettingsJsonLaws.
Proof.
  split. intros f v p _ _. destruct v as [|b|]; cbn; [done| |done]. unfold set_switch.
  repeat (match goal with |- context [String.eqb f ?s] => destruct (String.eqb_spec f s) as [->|?] end; [by intros [= <-]|]).
  done.
Qed.
End SettingsDemo.
#[local] Existing Instances SettingsDemo.json SettingsDemo.json_laws.

Lemma patch_applies_whole_or_not_witness :
  valid default_config /\ exists next, apply (private_patch true) default_config = Ok next /\ validate next = Ok tt.
Proof.
  split; [exact default_valid|].
  destruct (apply (private_patch true) default_config) as [next|e] eqn:E; [|vm_compute in E; discriminate E].
  exists next. split; [reflexivity|].
  destruct (patch_applies_whole_or_not (private_patch true) default_config) as (_ & H & _).
  exact (proj2 (H next default_valid E)).
Defined.
Lemma stored_settings_fail_closed_witness :
  exists c h, read "stored" = (c, h) /\ ConfigData.private_mode c = true /\ ConfigData.sync_enabled c = false.
Proof.
  destruct (read "stored") as [c h] eqn:E. exists c, h. split; [reflexivity|].
  destruct (stored_settings_fail_closed "stored" c h E) as (_ & _ & H).
  destruct (H _ eq_refl) as (_ & Hun & Hpriv & _ & Hsw).
  assert (Hbad : forall f, f = "excluded_app_bundle_ids"%string \/ f = "sync_enabled"%string -> f ∈ unreadable_fields h).
  { intros f Hf. apply Hun. split.
    - apply list_elem_of_In. cbn. destruct Hf as [-> | ->]; tauto.
    - exists SettingsDemo.Junk. destruct Hf as [-> | ->]; split; try reflexivity; intros p Hp; discriminate Hp. }
  split; [apply Hpriv; right; apply Hbad; by left|].
  assert (Hin : {| sw_name := "sync_enabled"; sw_get := ConfigData.sync_enabled; sw_named := ConfigPatch.sync_enabled;
                   sw_closed := false |} ∈ switches) by (apply list_elem_of_In; cbn; tauto).
  apply (Hsw _ Hin). apply Hbad. by right.
Defined.
