(* ===== verification/Admission.v ===== *)
(** Who may capture, and until when
    ([copypaste-runtime/src/capture_admission.rs]): hosts open, captures begin,
    are classified, and acquire a permit for each of their scopes; a change of
    settings drains them all before it is published.

    Every function of the source takes one mutex, so each is one atomic step; the
    callers interleave freely.  The cancellation callbacks of captures are run
    after the lock is released; a step returns the captures it cancels. *)

From S2P Require Import Prelude Float64 Bytes Text Wire Payload Settings.

Definition MAX_OPERATIONS : Z := 32.
Definition MAX_HOSTS : Z := 32.
Inductive CaptureKind := Implicit | Explicit | ModuleEvent.
Inductive CaptureScope := Read | Commit | Completion.
#[export] Instance CaptureKind_eq_dec : EqDecision CaptureKind.
Proof. solve_decision. Defined.
#[export] Instance CaptureScope_eq_dec : EqDecision CaptureScope.
Proof. solve_decision. Defined.

Record Operation := {
  op_privacy : ClipboardPrivacy; op_host : Z; op_generation : Z; op_committed : bool;
}.
(** [State], and whether its mutex is poisoned. *)
Record State := {
  st_config : ConfigData.t; st_generation : Z; st_next_id : Z; st_transitioning : bool; st_closed : bool;
  st_hosts : gmap Z CaptureKind; st_operations : gmap Z Operation; st_active : gmap Z Z;
  st_poisoned : bool;
}.
Record Permit := {
  pm_privacy : ClipboardPrivacy; pm_scope : CaptureScope; pm_committed : bool; pm_config : ConfigData.t;
  pm_host : Z;
}.

Definition set_config (c : ConfigData.t) (s : State) : State :=
  {| st_config := c; st_generation := st_generation s; st_next_id := st_next_id s;
     st_transitioning := st_transitioning s; st_closed := st_closed s; st_hosts := st_hosts s;
     st_operations := st_operations s; st_active := st_active s; st_poisoned := st_poisoned s |}.
Definition set_transition (generation : Z) (b : bool) (s : State) : State :=
  {| st_config := st_config s; st_generation := generation; st_next_id := st_next_id s;
     st_transitioning := b; st_closed := st_closed s; st_hosts := st_hosts s;
     st_operations := st_operations s; st_active := st_active s; st_poisoned := st_poisoned s |}.
Definition set_closed (s : State) : State :=
  {| st_config := st_config s; st_generation := st_generation s; st_next_id := st_next_id s;
     st_transitioning := st_transitioning s; st_closed := true; st_hosts := st_hosts s;
     st_operations := st_operations s; st_active := st_active s; st_poisoned := st_poisoned s |}.
Definition set_next_id (z : Z) (s : State) : State :=
  {| st_config := st_config s; st_generation := st_generation s; st_next_id := z;
     st_transitioning := st_transitioning s; st_closed := st_closed s; st_hosts := st_hosts s;
     st_operations := st_operations s; st_active := st_active s; st_poisoned := st_poisoned s |}.
Definition set_hosts (h : gmap Z CaptureKind) (s : State) : State :=
  {| st_config := st_config s; st_generation := st_generation s; st_next_id := st_next_id s;
     st_transitioning := st_transitioning s; st_closed := st_closed s; st_hosts := h;
     st_operations := st_operations s; st_active := st_active s; st_poisoned := st_poisoned s |}.
Definition set_operations (o : gmap Z Operation) (s : State) : State :=
  {| st_config := st_config s; st_generation := st_generation s; st_next_id := st_next_id s;
     st_transitioning := st_transitioning s; st_closed := st_closed s; st_hosts := st_hosts s;
     st_operations := o; st_active := st_active s; st_poisoned := st_poisoned s |}.
Definition set_active (a : gmap Z Z) (s : State) : State :=
  {| st_config := st_config s; st_generation := st_generation s; st_next_id := st_next_id s;
     st_transitioning := st_transitioning s; st_closed := st_closed s; st_hosts := st_hosts s;
     st_operations := st_operations s; st_active := a; st_poisoned := st_poisoned s |}.
Definition poison (s : State) : State :=
  {| st_config := st_config s; st_generation := st_generation s; st_next_id := st_next_id s;
     st_transitioning := st_transitioning s; st_closed := st_closed s; st_hosts := st_hosts s;
     st_operations := st_operations s; st_active := st_active s; st_poisoned := true |}.

Definition new (c : ConfigData.t) : State :=
  {| st_config := c; st_generation := 1; st_next_id := 1; st_transitioning := false; st_closed := false;
     st_hosts := ∅; st_operations := ∅; st_active := ∅; st_poisoned := false |}.

(** The captures whose callbacks are run. *)
Definition cancelled (m : gmap Z Operation) : list Z := (map_to_list m).*1.
Definition fail_closed (s : State) : State * list Z :=
  (set_operations ∅ (set_hosts ∅ (set_closed s)), cancelled (st_operations s)).
(** [try_state]: a lock that is held or poisoned admits nobody. *)
Definition try_state {A} (busy : bool) (s : State) (f : State -> option A * State * list Z)
    : option A * State * list Z :=
  if busy then (None, s, [])
  else if st_poisoned s then let '(s, l) := fail_closed s in (None, s, l)
  else f s.
Definition id (s : State) : option Z * State :=
  if i64_max <=? st_next_id s then (None, set_closed s)
  else (Some (st_next_id s), set_next_id (st_next_id s + 1) s).
Definition map_size {A} (m : gmap Z A) : Z := Z.of_nat (size m).

Definition open_host (busy : bool) (kind : CaptureKind) (s : State) : option Z * State * list Z :=
  try_state busy s (fun s =>
    if st_closed s || st_transitioning s || (MAX_HOSTS <=? map_size (st_hosts s)) then (None, s, [])
    else match id s with
         | (None, s) => let '(s, l) := fail_closed s in (None, s, l)
         | (Some id, s) => (Some id, set_hosts (<[id := kind]> (st_hosts s)) s, [])
         end).
(** What the settings say about a capture before it begins. *)
Definition begin_allowed (kind : CaptureKind) (c : ConfigData.t) : bool :=
  negb (ConfigData.private_mode c
        || (bool_decide (kind = Implicit)
            && match ConfigData.excluded_app_bundle_ids c with [] => false | _ => true end)).
Definition begin (busy : bool) (host : Z) (s : State) : option Z * State * list Z :=
  try_state busy s (fun s =>
    match st_hosts s !! host with
    | None => (None, s, [])
    | Some kind =>
      if st_closed s || st_transitioning s || (MAX_OPERATIONS <=? map_size (st_operations s))
         || negb (begin_allowed kind (st_config s)) then (None, s, [])
      else match id s with
           | (None, s) => let '(s, l) := fail_closed s in (None, s, l)
           | (Some id, s) =>
             (Some id, set_operations (<[id := {| op_privacy := no_privacy; op_host := host;
                                                  op_generation := st_generation s; op_committed := false |}]>
                                         (st_operations s)) s, [])
           end
    end).
Definition privacy_union (a b : ClipboardPrivacy) : ClipboardPrivacy :=
  {| secret := secret a || secret b; transient := transient a || transient b |}.
Definition set_op_privacy (p : ClipboardPrivacy) (o : Operation) : Operation :=
  {| op_privacy := p; op_host := op_host o; op_generation := op_generation o; op_committed := op_committed o |}.
Definition classify (busy : bool) (token : Z) (p : ClipboardPrivacy) (s : State) : bool * State * list Z :=
  let '(o, s, l) := try_state busy s (fun s =>
    if st_closed s || st_transitioning s then (None, s, [])
    else match st_operations s !! token with
         | None => (None, s, [])
         | Some o =>
           if negb (op_generation o =? st_generation s) || op_committed o then (None, s, [])
           else let combined := privacy_union (op_privacy o) p in
                (Some (allows combined (st_config s)),
                 set_operations (<[token := set_op_privacy combined o]> (st_operations s)) s, [])
         end) in
  (default false o, s, l).
Definition is_completion (scope : CaptureScope) : bool := bool_decide (scope = Completion).
Definition acquire (busy : bool) (token : Z) (scope : CaptureScope) (s : State) : option Permit * State * list Z :=
  try_state busy s (fun s =>
    if st_closed s || st_transitioning s then (None, s, [])
    else match st_operations s !! token with
         | None => (None, s, [])
         | Some o =>
           if negb (allows (op_privacy o) (st_config s))
              || negb (op_generation o =? st_generation s)
              || negb (bool_decide (is_Some (st_hosts s !! op_host o)))
              || negb (Bool.eqb (op_committed o) (is_completion scope))
              || bool_decide (is_Some (st_active s !! token)) then (None, s, [])
           else
             let s1 := if is_completion scope then set_operations (delete token (st_operations s)) s else s in
             (Some {| pm_privacy := op_privacy o; pm_scope := scope; pm_committed := false;
                      pm_config := st_config s; pm_host := op_host o |},
              set_active (<[token := op_host o]> (st_active s)) s1, [])
         end).

(** [Permit::committed] and the permit's drop. *)
Definition set_op_committed (o : Operation) : Operation :=
  {| op_privacy := op_privacy o; op_host := op_host o; op_generation := op_generation o; op_committed := true |}.
Definition set_pm_committed (p : Permit) : Permit :=
  {| pm_privacy := pm_privacy p; pm_scope := pm_scope p; pm_committed := true; pm_config := pm_config p;
     pm_host := pm_host p |}.
Definition committed (token : Z) (p : Permit) (s : State) : Permit * State :=
  if negb (bool_decide (pm_scope p = Commit)) then (p, s)
  else (set_pm_committed p,
        if st_poisoned s then s
        else match st_operations s !! token with
             | Some o => set_operations (<[token := set_op_committed o]> (st_operations s)) s
             | None => s
             end).
Definition drop_permit (token : Z) (p : Permit) (s : State) : State * list Z :=
  let s := set_active (delete token (st_active s)) s in
  if bool_decide (pm_scope p = Commit) && negb (pm_committed p)
  then (set_operations (delete token (st_operations s)) s,
        match st_operations s !! token with Some _ => [token] | None => [] end)
  else (s, []).

Definition abandon (token : Z) (s : State) : State * list Z :=
  (set_operations (delete token (st_operations s)) s,
   match st_operations s !! token with Some _ => [token] | None => [] end).
Definition revoke_host (host : Z) (s : State) : result unit (State * list Z) :=
  if st_poisoned s then Err tt
  else let gone := filter (fun p => op_host p.2 = host) (st_operations s) in
       Ok (set_operations (filter (fun p => op_host p.2 <> host) (st_operations s))
             (set_hosts (delete host (st_hosts s)) s), cancelled gone).
(** [drain_host] waits; this is what it waits for, and what it answers. *)
Definition host_busy (host : Z) (s : State) : bool :=
  existsb (fun p => p.2 =? host) (map_to_list (st_active s)).
Definition drain_host (host : Z) (s : State) : option (result unit unit) :=
  if st_poisoned s || bool_decide (is_Some (st_hosts s !! host)) then Some (Err tt)
  else if host_busy host s then None else Some (Ok tt).

(** ** Transitions: the start, the wait, the publication and the drop *)

Definition transition_start (s : State) : result State State * list Z :=
  if st_poisoned s || st_closed s || st_transitioning s then (Err s, [])
  else match u64_checked_succ (st_generation s) with
       | None => let '(s, l) := fail_closed s in (Err s, l)
       | Some g => (Ok (set_operations ∅ (set_transition g true s)), cancelled (st_operations s))
       end.
Definition transition_drained (s : State) : option (result unit unit) :=
  if st_poisoned s then Some (Err tt)
  else if bool_decide (st_active s = ∅) then Some (Ok tt) else None.
(** [shutdown] closes the gate ([fail_closed]) and waits for the permits that are out. *)
Definition shutdown_drained (s : State) : option (result unit unit) :=
  if st_poisoned s then Some (Err tt)
  else if bool_decide (st_active s = ∅) then Some (Ok tt) else None.
Definition publish (c : ConfigData.t) (s : State) : result unit State :=
  if st_poisoned s || st_closed s || negb (st_transitioning s) then Err tt else Ok (set_config c s).
Definition transition_drop (s : State) : State :=
  if st_poisoned s then s else set_transition (st_generation s) false s.

(** ** Callers

    A system is the shared state, the permits that are out, and the transition in
    progress, if any. *)

Inductive Phase := Draining | Owned.
#[export] Instance Phase_eq_dec : EqDecision Phase.
Proof. solve_decision. Defined.
Record Sys := { sy_state : State; sy_permits : gmap Z Permit; sy_guard : option Phase }.
Definition with_state (s : State) (w : Sys) : Sys :=
  {| sy_state := s; sy_permits := sy_permits w; sy_guard := sy_guard w |}.

(** What is observed of a step. *)
Inductive event :=
| Opened (host : Z) (kind : CaptureKind)
| Began (token host : Z)
| Granted (token : Z) (p : Permit)
| Committed (token : Z)
| Dropped (token : Z)
| Revoked (host : Z)
| Closed
| Started | Drained | Published (c : ConfigData.t) | Released
| Poisoned
| Silent.

Inductive step : Sys -> event -> Sys -> Prop :=
| step_open busy kind o s l w : open_host busy kind (sy_state w) = (o, s, l) ->
    step w (match o with Some h => Opened h kind | None => Silent end) (with_state s w)
| step_begin busy host o s l w : begin busy host (sy_state w) = (o, s, l) ->
    step w (match o with Some t => Began t host | None => Silent end) (with_state s w)
| step_classify busy token p b s l w : classify busy token p (sy_state w) = (b, s, l) ->
    step w Silent (with_state s w)
| step_acquire busy token scope p s l w : acquire busy token scope (sy_state w) = (Some p, s, l) ->
    step w (Granted token p) {| sy_state := s; sy_permits := <[token := p]> (sy_permits w); sy_guard := sy_guard w |}
| step_refused busy token scope s l w : acquire busy token scope (sy_state w) = (None, s, l) ->
    step w Silent (with_state s w)
| step_committed token p p' s w : sy_permits w !! token = Some p -> committed token p (sy_state w) = (p', s) ->
    step w (match pm_scope p with Commit => Committed token | _ => Silent end)
      {| sy_state := s; sy_permits := <[token := p']> (sy_permits w); sy_guard := sy_guard w |}
| step_drop token p s l w : sy_permits w !! token = Some p -> drop_permit token p (sy_state w) = (s, l) ->
    step w (Dropped token) {| sy_state := s; sy_permits := delete token (sy_permits w); sy_guard := sy_guard w |}
| step_abandon token s l w : abandon token (sy_state w) = (s, l) -> step w Silent (with_state s w)
| step_revoke host s l w : revoke_host host (sy_state w) = Ok (s, l) -> step w (Revoked host) (with_state s w)
| step_close s l w : fail_closed (sy_state w) = (s, l) -> step w Closed (with_state s w)
| step_start s l w : sy_guard w = None -> transition_start (sy_state w) = (Ok s, l) ->
    step w Started {| sy_state := s; sy_permits := sy_permits w; sy_guard := Some Draining |}
| step_no_start s l w : transition_start (sy_state w) = (Err s, l) -> step w Silent (with_state s w)
| step_drained w : sy_guard w = Some Draining -> transition_drained (sy_state w) = Some (Ok tt) ->
    step w Drained {| sy_state := sy_state w; sy_permits := sy_permits w; sy_guard := Some Owned |}
| step_not_drained w : sy_guard w = Some Draining -> transition_drained (sy_state w) = Some (Err tt) ->
    step w Silent {| sy_state := sy_state w; sy_permits := sy_permits w; sy_guard := None |}
| step_publish c s w : sy_guard w = Some Owned -> publish c (sy_state w) = Ok s ->
    step w (Published c) (with_state s w)
| step_release w : sy_guard w = Some Owned ->
    step w Released {| sy_state := transition_drop (sy_state w); sy_permits := sy_permits w; sy_guard := None |}
| step_poison w : step w Poisoned (with_state (poison (sy_state w)) w).

Definition start (c : ConfigData.t) : Sys := {| sy_state := new c; sy_permits := ∅; sy_guard := None |}.
(** Runs, the latest event first. *)
Inductive run (w : Sys) : list event -> Sys -> Prop :=
| run_nil : run w [] w
| run_step evs w1 e w2 : run w evs w1 -> step w1 e w2 -> run w (e :: evs) w2.

(** ** What a trace says *)

Definition granted (scope : CaptureScope) (evs : list event) : list Z :=
  omap (fun e => match e with
                 | Granted t p => if decide (pm_scope p = scope) then Some t else None
                 | _ => None end) evs.

#[global] Arguments granted : simpl never.

(** ** The invariant *)

Record wf (evs : list event) (w : Sys) : Prop := {
  wf_next : st_next_id (sy_state w) <= i64_max;
  wf_hosts h k : st_hosts (sy_state w) !! h = Some k -> h < st_next_id (sy_state w) /\ Opened h k ∈ evs;
  wf_opened h k : Opened h k ∈ evs -> h < st_next_id (sy_state w) /\ forall k', Opened h k' ∈ evs -> k' = k;
  wf_ops t o : st_operations (sy_state w) !! t = Some o ->
    t < st_next_id (sy_state w) /\ st_transitioning (sy_state w) = false /\
    op_generation o = st_generation (sy_state w) /\
    exists k, st_hosts (sy_state w) !! op_host o = Some k /\ begin_allowed k (st_config (sy_state w)) = true;
  wf_active t h : st_active (sy_state w) !! t = Some h <->
    exists p, sy_permits w !! t = Some p /\ pm_host p = h;
  wf_permits t p : sy_permits w !! t = Some p ->
    t < st_next_id (sy_state w) /\ pm_config p = st_config (sy_state w) /\
    allows (pm_privacy p) (st_config (sy_state w)) = true /\
    exists k, Opened (pm_host p) k ∈ evs /\ begin_allowed k (st_config (sy_state w)) = true;
  wf_guard ph : sy_guard w = Some ph -> st_transitioning (sy_state w) = true /\ (ph = Owned -> sy_permits w = ∅);
}.
(** The one use of a capture. *)
Record single (evs : list event) (w : Sys) : Prop := {
  sg_granted scope t : t ∈ granted scope evs -> t < st_next_id (sy_state w);
  sg_commit t : t ∈ granted Commit evs ->
    st_poisoned (sy_state w) = true \/
    (exists p, sy_permits w !! t = Some p /\ pm_scope p = Commit) \/
    forall o, st_operations (sy_state w) !! t = Some o -> op_committed o = true;
  sg_permit t p : sy_permits w !! t = Some p ->
    t ∈ granted (pm_scope p) evs /\
    (pm_scope p = Completion -> st_operations (sy_state w) !! t = None) /\
    (pm_scope p = Commit -> pm_committed p = true ->
       st_poisoned (sy_state w) = true \/
       forall o, st_operations (sy_state w) !! t = Some o -> op_committed o = true);
  sg_op t o : st_operations (sy_state w) !! t = Some o -> op_committed o = true ->
    Committed t ∈ evs /\ t ∈ granted Commit evs;
  sg_completion t : t ∈ granted Completion evs -> st_operations (sy_state w) !! t = None /\ Committed t ∈ evs;
  sg_commits : NoDup (granted Commit evs);
  sg_completions : NoDup (granted Completion evs);
}.

(** Steps that take nothing new in: hosts and captures only go. *)
Record calm (s s' : State) : Prop := {
  cm_config : st_config s' = st_config s;
  cm_generation : st_generation s' = st_generation s;
  cm_transitioning : st_transitioning s' = st_transitioning s;
  cm_active : st_active s' = st_active s;
  cm_next : st_next_id s' = st_next_id s;
  cm_poisoned : st_poisoned s = true -> st_poisoned s' = true;
  cm_hosts : st_hosts s' ⊆ st_hosts s;
  cm_ops t o' : st_operations s' !! t = Some o' -> exists o, st_operations s !! t = Some o /\
    op_host o' = op_host o /\ op_generation o' = op_generation o /\ op_committed o' = op_committed o /\
    (is_Some (st_hosts s !! op_host o) -> is_Some (st_hosts s' !! op_host o));
}.
Lemma calm_refl s : calm s s.
Proof. split; try done. intros t o H. by exists o. Qed.
Lemma calm_closed s : calm s (fail_closed s).1.
Proof. split; cbn; try done; try apply map_empty_subseteq; intros t o H; by rewrite lookup_empty in H. Qed.
Lemma calm_set_closed s s' : calm (set_closed s) s' -> calm s s'.
Proof. by intros []. Qed.
Lemma calm_fewer s m : m ⊆ st_operations s -> calm s (set_operations m s).
Proof.
  intros Hm. split; try done. cbn. intros t o Ho. exists o. split_and!; try done. by apply (lookup_weaken m).
Qed.
Lemma calm_wf evs w s' e :
  wf evs w -> calm (sy_state w) s' -> (forall h k, e <> Opened h k) -> wf (e :: evs) (with_state s' w).
Proof.
  intros [Hn Hh Ho Hop Ha Hp Hg] [Cc Cg Ct Ca Cn _ Ch Co] He. split; cbn.
  - by rewrite Cn.
  - intros h k Hk. rewrite Cn. destruct (Hh h k) as [? ?]; [by apply (lookup_weaken _ _ _ _ Hk)|]. split; [done|by right].
  - intros h k [Hx|Hx]%elem_of_cons; [by destruct (He h k)|]. rewrite Cn. destruct (Ho h k Hx) as [H1 H2].
    split; [done|]. intros k' [Hy|Hy]%elem_of_cons; [by destruct (He h k')|by apply H2].
  - intros t o' Hx. destruct (Co t o' Hx) as (o & Hox & E1 & E2 & E3 & E4). rewrite Cn, Ct, Cg, Cc, E1, E2.
    destruct (Hop t o Hox) as (H1 & H2 & H3 & k & Hk & H4). split_and!; try done.
    destruct (E4 ltac:(by eexists)) as [k' Hk']. exists k. split; [|done].
    assert (k' = k) as <-; [|done]. apply (lookup_weaken _ _ _ _ Hk') in Ch. congruence.
  - intros t h. rewrite Ca. apply Ha.
  - intros t p Hx. rewrite Cn, Cc. destruct (Hp t p Hx) as (H1 & H2 & H3 & k & Hk & H4). split_and!; try done.
    exists k. split; [by right|done].
  - intros ph Hx. rewrite Ct. by apply Hg.
Qed.
Lemma granted_cons scope e evs :
  (forall t p, e <> Granted t p) -> granted scope (e :: evs) = granted scope evs.
Proof. intros He. unfold granted. cbn. destruct e; try done. by destruct (He token p). Qed.
(** Steps that grant nothing and keep the permits. *)
Lemma single_update evs w e s' g :
  single evs w -> (forall t p, e <> Granted t p) ->
  st_next_id (sy_state w) <= st_next_id s' ->
  (st_poisoned (sy_state w) = true -> st_poisoned s' = true) ->
  (forall t o', st_operations s' !! t = Some o' ->
     (exists o, st_operations (sy_state w) !! t = Some o /\ op_committed o' = op_committed o) \/
     st_next_id (sy_state w) <= t /\ op_committed o' = false) ->
  single (e :: evs) {| sy_state := s'; sy_permits := sy_permits w; sy_guard := g |}.
Proof.
  intros [Hg Hc Hp Hop Hco Hn1 Hn2] He Hnext Hpo Ho.
  assert (Hold : forall t scope o', t ∈ granted scope evs -> st_operations s' !! t = Some o' ->
            exists o, st_operations (sy_state w) !! t = Some o /\ op_committed o' = op_committed o).
  { intros t scope o' Ht Hx. destruct (Ho t o' Hx) as [H|[H _]]; [done|]. apply Hg in Ht. lia. }
  split; cbn.
  - intros scope t. rewrite granted_cons by done. intros Ht. apply Hg in Ht. lia.
  - intros t. rewrite granted_cons by done. intros Hx. destruct (Hc t Hx) as [H|[H|H]]; [left; by apply Hpo|by right; left|].
    right; right. intros o' Hy. destruct (Hold t _ o' Hx Hy) as (o & Hz & ->). by apply H.
  - intros t p Hx. rewrite granted_cons by done. destruct (Hp t p Hx) as (H1 & H2 & H3). split_and!; [done| |].
    + intros Hsc. destruct (st_operations s' !! t) as [o'|] eqn:E; [|done].
      destruct (Hold t _ o' H1 E) as (o & Hz & _). rewrite H2 in Hz by done. done.
    + intros Hsc Hcm. destruct (H3 Hsc Hcm) as [H|H]; [left; by apply Hpo|right].
      intros o' Hy. destruct (Hold t _ o' H1 Hy) as (o & Hz & ->). by apply H.
  - intros t o' Hx Hcm. rewrite granted_cons by done. destruct (Ho t o' Hx) as [(o & Hz & E)|[_ E]]; [|congruence].
    destruct (Hop t o Hz) as [H1 H2]; [congruence|]. split; [by right|done].
  - intros t. rewrite granted_cons by done. intros Hx. destruct (Hco t Hx) as [H1 H2]. split; [|by right].
    destruct (st_operations s' !! t) as [o'|] eqn:E; [|done]. destruct (Hold t _ o' Hx E) as (o & Hz & _). congruence.
  - by rewrite granted_cons.
  - by rewrite granted_cons.
Qed.
Lemma calm_single evs w s' e :
  single evs w -> calm (sy_state w) s' -> (forall t p, e <> Granted t p) -> single (e :: evs) (with_state s' w).
Proof.
  intros Hs [_ _ _ _ Cn Cp _ Co] He. apply single_update; [done|done|by rewrite Cn|done|].
  intros t o' Hx. left. destruct (Co t o' Hx) as (o & Hox & _ & _ & E & _). by exists o.
Qed.

(** ** What each function does *)

Lemma try_state_some {A} busy s (f : State -> option A * State * list Z) a s' l :
  try_state busy s f = (Some a, s', l) -> st_poisoned s = false /\ f s = (Some a, s', l).
Proof.
  unfold try_state. destruct busy; [done|]. destruct (st_poisoned s) eqn:E; [|by intros ->].
  by destruct (fail_closed s).
Qed.
Lemma try_state_calm {A} busy s (f : State -> option A * State * list Z) o s' l :
  try_state busy s f = (o, s', l) -> (f s = (o, s', l) -> calm s s') -> calm s s'.
Proof.
  unfold try_state. destruct busy; [intros [= _ <- _] _; apply calm_refl|].
  destruct (st_poisoned s); [|by auto]. destruct (fail_closed s) as [s1 l1] eqn:E. intros [= _ <- _] _.
  pose proof (calm_closed s) as H. by rewrite E in H.
Qed.
Lemma id_closed s s1 : id s = (None, s1) -> forall s2 l, fail_closed s1 = (s2, l) -> calm s s2.
Proof.
  unfold id. destruct (i64_max <=? st_next_id s); [|done]. intros [= <-] s2 l Hf. apply calm_set_closed.
  pose proof (calm_closed (set_closed s)) as H. by rewrite Hf in H.
Qed.
Lemma id_some s z s1 : id s = (Some z, s1) -> z = st_next_id s /\ z < i64_max /\ s1 = set_next_id (z + 1) s.
Proof. unfold id. destruct (Z.leb_spec i64_max (st_next_id s)); [done|]. by intros [= <- <-]. Qed.

(** Nobody is admitted while the gate is poisoned, closed or in transition. *)
Definition admitting (s : State) : Prop :=
  st_poisoned s = false /\ st_closed s = false /\ st_transitioning s = false.
Lemma open_host_spec busy kind s o s' l :
  open_host busy kind s = (o, s', l) ->
  match o with
  | None => calm s s'
  | Some h => admitting s /\ h = st_next_id s /\ h < i64_max /\
              s' = set_hosts (<[h := kind]> (st_hosts s)) (set_next_id (h + 1) s)
  end.
Proof.
  intros H. destruct o as [h|].
  - apply try_state_some in H as [Hp H].
    destruct (st_closed s) eqn:Ec; [done|]. destruct (st_transitioning s) eqn:Et; [done|]. cbn [orb] in H.
    destruct (MAX_HOSTS <=? map_size (st_hosts s)); [done|].
    destruct (id s) as [[z|] s1] eqn:E; [|by destruct (fail_closed s1)].
    apply id_some in E as (-> & Hz & ->). injection H as <- <- _. by split_and!.
  - apply (try_state_calm busy s _ None s' l H). clear H.
    destruct (_ || (MAX_HOSTS <=? _)); [intros [= <- _]; apply calm_refl|].
    destruct (id s) as [[z|] s1] eqn:E; [done|]. destruct (fail_closed s1) as [s2 l2] eqn:Ef. intros [= <- _].
    by eapply id_closed.
Qed.
Lemma begin_spec busy host s o s' l :
  begin busy host s = (o, s', l) ->
  match o with
  | None => calm s s'
  | Some t => admitting s /\ t = st_next_id s /\ t < i64_max /\ 
              (exists kind, st_hosts s !! host = Some kind /\ begin_allowed kind (st_config s) = true) /\
              s' = set_operations (<[t := {| op_privacy := no_privacy; op_host := host;
                     op_generation := st_generation s; op_committed := false |}]> (st_operations s))
                     (set_next_id (t + 1) s)
  end.
Proof.
  intros H. destruct o as [t|].
  - apply try_state_some in H as [Hp H]. destruct (st_hosts s !! host) as [kind|] eqn:Eh; [|done].
    destruct (st_closed s) eqn:Ec; [done|]. destruct (st_transitioning s) eqn:Et; [done|]. cbn [orb] in H.
    destruct (MAX_OPERATIONS <=? map_size (st_operations s)); [done|]. cbn [orb] in H.
    destruct (begin_allowed kind (st_config s)) eqn:Eb; [|done]. cbn [negb] in H.
    destruct (id s) as [[z|] s1] eqn:E; [|by destruct (fail_closed s1)].
    apply id_some in E as (-> & Hz & ->). injection H as <- <- _. split_and!; try done. by exists kind.
  - apply (try_state_calm busy s _ None s' l H). clear H. destruct (st_hosts s !! host) as [kind|];
      [|intros [= <- _]; apply calm_refl].
    destruct (_ || negb _); [intros [= <- _]; apply calm_refl|].
    destruct (id s) as [[z|] s1] eqn:E; [done|]. destruct (fail_closed s1) as [s2 l2] eqn:Ef. intros [= <- _].
    by eapply id_closed.
Qed.
Lemma classify_calm busy token p s b s' l : classify busy token p s = (b, s', l) -> calm s s'.
Proof.
  unfold classify. destruct (try_state _ _ _) as [[o s1] l1] eqn:E. intros [= _ <- _].
  apply (try_state_calm _ _ _ _ _ _ E). clear E.
  destruct (st_closed s || st_transitioning s); [intros [= _ <- _]; apply calm_refl|].
  destruct (st_operations s !! token) as [x|] eqn:Ex; [|intros [= _ <- _]; apply calm_refl].
  destruct (_ || op_committed x); [intros [= _ <- _]; apply calm_refl|]. intros [= _ <- _].
  split; try done. cbn. intros t o'. rewrite lookup_insert_Some. intros [[<- <-]|[_ Ho]].
  - exists x. by split_and!.
  - exists o'. by split_and!.
Qed.
Definition after_acquire (token host : Z) (scope : CaptureScope) (s : State) : State :=
  set_active (<[token := host]> (st_active s))
    (if is_completion scope then set_operations (delete token (st_operations s)) s else s).
Lemma acquire_spec busy token scope s o s' l :
  acquire busy token scope s = (o, s', l) ->
  match o with
  | None => calm s s'
  | Some p => admitting s /\ exists x, st_operations s !! token = Some x /\
      allows (op_privacy x) (st_config s) = true /\ op_generation x = st_generation s /\
      is_Some (st_hosts s !! op_host x) /\ op_committed x = is_completion scope /\ st_active s !! token = None /\
      p = {| pm_privacy := op_privacy x; pm_scope := scope; pm_committed := false;
             pm_config := st_config s; pm_host := op_host x |} /\
      s' = after_acquire token (op_host x) scope s
  end.
Proof.
  intros H. destruct o as [p|].
  - apply try_state_some in H as [Hp H].
    destruct (st_closed s) eqn:Ec; [done|]. destruct (st_transitioning s) eqn:Et; [done|]. cbn [orb] in H.
    destruct (st_operations s !! token) as [x|] eqn:Ex; [|done].
    destruct (_ || bool_decide (is_Some (st_active s !! token))) eqn:Eg; [done|].
    rewrite !orb_false_iff, !negb_false_iff, Z.eqb_eq, Bool.eqb_true_iff, bool_decide_eq_true, bool_decide_eq_false in Eg.
    destruct Eg as ((((H1 & H2) & H3) & H4) & H5). injection H as <- <- _.
    split; [done|]. exists x. split_and!; try done. by apply eq_None_not_Some.
  - apply (try_state_calm busy s _ None s' l H). clear H.
    destruct (st_closed s || st_transitioning s); [intros [= <- _]; apply calm_refl|].
    destruct (st_operations s !! token) as [x|]; [|intros [= <- _]; apply calm_refl].
    destruct (_ || bool_decide _); [intros [= <- _]; apply calm_refl|done].
Qed.
Lemma abandon_calm token s s' l : abandon token s = (s', l) -> calm s s'.
Proof. intros [= <- _]. apply calm_fewer, delete_subseteq. Qed.
Lemma revoke_spec host s s' l : revoke_host host s = Ok (s', l) ->
  calm s s' /\ st_hosts s' = delete host (st_hosts s) /\ st_poisoned s = false.
Proof.
  unfold revoke_host. destruct (st_poisoned s) eqn:Ep; [done|]. intros [= <- _]. split; [|done].
  split; try done; cbn; [apply delete_subseteq|].
  intros t o [Ho Hne]%map_lookup_filter_Some. exists o. split_and!; try done. cbn in Hne. by rewrite lookup_delete_ne.
Qed.
Lemma transition_start_spec s r l : transition_start s = (r, l) ->
  match r with
  | Err s' => calm s s'
  | Ok s' => admitting s /\ exists g, st_generation s < g /\ s' = set_operations ∅ (set_transition g true s)
  end.
Proof.
  unfold transition_start. destruct (st_poisoned s) eqn:Ep, (st_closed s) eqn:Ec, (st_transitioning s) eqn:Et;
    cbn [orb]; try (intros [= <- _]; apply calm_refl).
  destruct (u64_checked_succ (st_generation s)) as [g|] eqn:Eg.
  - intros [= <- _]. split; [done|]. exists g. split; [|done]. apply u64_checked_succ_some in Eg as [-> _]. lia.
  - destruct (fail_closed s) as [s1 l1] eqn:E. intros [= <- _]. pose proof (calm_closed s) as H. by rewrite E in H.
Qed.

(** ** Every step keeps the invariant *)

Lemma host_fresh evs w : wf evs w -> st_hosts (sy_state w) !! st_next_id (sy_state w) = None.
Proof.
  intros Hw. destruct (st_hosts (sy_state w) !! st_next_id (sy_state w)) eqn:E; [|done].
  apply (wf_hosts _ _ Hw) in E as [? _]. lia.
Qed.
Lemma open_wf evs w h kind :
  wf evs w -> h = st_next_id (sy_state w) -> h < i64_max ->
  wf (Opened h kind :: evs)
    (with_state (set_hosts (<[h := kind]> (st_hosts (sy_state w))) (set_next_id (h + 1) (sy_state w))) w).
Proof.
  intros Hw -> Hmax. pose proof (host_fresh _ _ Hw) as Hf. pose proof Hw as [Hn Hh Ho Hop Ha Hp Hg]. split; cbn; try done.
  - lia.
  - intros h k. rewrite lookup_insert_Some. intros [[<- <-]|[_ Hk]]; [split; [lia|by left]|].
    destruct (Hh h k Hk). split; [lia|by right].
  - intros h k [[= -> ->]|Hx]%elem_of_cons.
    + split; [lia|]. intros k' [[= ->]|Hy]%elem_of_cons; [done|]. apply Ho in Hy as [? _]. lia.
    + destruct (Ho h k Hx) as [H1 H2]. split; [lia|]. intros k' [[= -> _]|Hy]%elem_of_cons; [lia|by apply H2].
  - intros t o Hx. destruct (Hop t o Hx) as (H1 & H2 & H3 & k & Hk & H4). split_and!; [lia|done|done|].
    exists k. split; [|done]. rewrite lookup_insert_ne; [done|]. intros He. congruence.
  - intros t p Hx. destruct (Hp t p Hx) as (H1 & H2 & H3 & k & Hk & H4). split_and!; [lia|done|done|].
    exists k. split; [by right|done].
Qed.
Lemma begin_wf evs w t host kind :
  wf evs w -> admitting (sy_state w) -> t = st_next_id (sy_state w) -> t < i64_max ->
  st_hosts (sy_state w) !! host = Some kind -> begin_allowed kind (st_config (sy_state w)) = true ->
  wf (Began t host :: evs)
    (with_state (set_operations (<[t := {| op_privacy := no_privacy; op_host := host;
                     op_generation := st_generation (sy_state w); op_committed := false |}]>
                       (st_operations (sy_state w))) (set_next_id (t + 1) (sy_state w))) w).
Proof.
  intros [Hn Hh Ho Hop Ha Hp Hg] (_ & _ & Htr) -> Hmax Hhost Hallow. split; cbn; try done.
  - lia.
  - intros h k Hk. destruct (Hh h k Hk). split; [lia|by right].
  - intros h k [?|Hx]%elem_of_cons; [done|]. destruct (Ho h k Hx) as [H1 H2]. split; [lia|].
    intros k' [?|Hy]%elem_of_cons; [done|by apply H2].
  - intros t o. rewrite lookup_insert_Some. intros [[<- <-]|[_ Hx]]; cbn.
    + split_and!; [lia|done|done|by exists kind].
    + destruct (Hop t o Hx) as (H1 & H2 & H3 & H4). split_and!; [lia|done..].
  - intros t p Hx. destruct (Hp t p Hx) as (H1 & H2 & H3 & k & Hk & H4). split_and!; [lia|done|done|].
    exists k. split; [by right|done].
Qed.
(** The same hosts and captures, with other permits. *)
Lemma permits_wf evs w e s' ps :
  wf evs w -> (forall h k, e <> Opened h k) ->
  st_config s' = st_config (sy_state w) -> st_generation s' = st_generation (sy_state w) ->
  st_transitioning s' = st_transitioning (sy_state w) -> st_next_id s' = st_next_id (sy_state w) ->
  st_hosts s' = st_hosts (sy_state w) ->
  (forall t o', st_operations s' !! t = Some o' -> exists o, st_operations (sy_state w) !! t = Some o /\
     op_host o' = op_host o /\ op_generation o' = op_generation o) ->
  (forall t h, st_active s' !! t = Some h <-> exists p, ps !! t = Some p /\ pm_host p = h) ->
  (forall t p, ps !! t = Some p ->
     (exists p0, sy_permits w !! t = Some p0 /\ pm_config p = pm_config p0 /\ pm_privacy p = pm_privacy p0 /\
                 pm_host p = pm_host p0) \/
     t < st_next_id (sy_state w) /\ pm_config p = st_config (sy_state w) /\
     allows (pm_privacy p) (st_config (sy_state w)) = true /\
     exists k, Opened (pm_host p) k ∈ evs /\ begin_allowed k (st_config (sy_state w)) = true) ->
  (sy_guard w = Some Owned -> ps = ∅) ->
  wf (e :: evs) {| sy_state := s'; sy_permits := ps; sy_guard := sy_guard w |}.
Proof.
  intros [Hn Hh Ho Hop Ha Hp Hg] He Ec Egen Et En Eh Eop Hact Hps Hown. split; cbn.
  - by rewrite En.
  - intros h k. rewrite Eh, En. intros Hk. destruct (Hh h k Hk). split; [done|by right].
  - intros h k [Hx|Hx]%elem_of_cons; [by destruct (He h k)|]. rewrite En. destruct (Ho h k Hx) as [H1 H2]. split; [done|].
    intros k' [Hy|Hy]%elem_of_cons; [by destruct (He h k')|by apply H2].
  - intros t o' Hx. destruct (Eop t o' Hx) as (o & Hox & E1 & E2). rewrite En, Et, Egen, Ec, Eh, E1, E2. by apply Hop.
  - done.
  - intros t p Hx. rewrite En, Ec. destruct (Hps t p Hx) as [(p0 & Hp0 & -> & -> & ->)|(H1 & H2 & H3 & k & Hk & H4)].
    + destruct (Hp t p0 Hp0) as (H1 & H2 & H3 & k & Hk & H4). split_and!; try done. exists k. split; [by right|done].
    + split_and!; try done. exists k. split; [by right|done].
  - intros ph Hx. rewrite Et. destruct (Hg ph Hx) as [H1 H2]. split; [done|]. intros ->. by apply Hown.
Qed.

Lemma active_none evs w t : wf evs w -> (st_active (sy_state w) !! t = None <-> sy_permits w !! t = None).
Proof.
  intros Hw. pose proof (wf_active _ _ Hw t) as H.
  destruct (st_active (sy_state w) !! t) as [h|], (sy_permits w !! t) as [p|] eqn:Ep; try done.
  - destruct (proj1 (H h) eq_refl) as (p & Hp & _). congruence.
  - pose proof (proj2 (H (pm_host p)) (ex_intro _ p (conj eq_refl eq_refl))). done.
Qed.
Lemma not_owned evs w : wf evs w -> st_transitioning (sy_state w) = false -> sy_guard w = None.
Proof. intros Hw Ht. destruct (sy_guard w) as [ph|] eqn:E; [|done]. apply (wf_guard _ _ Hw) in E as [E _]. congruence. Qed.
Lemma acquire_wf evs w token x scope :
  wf evs w -> admitting (sy_state w) -> st_operations (sy_state w) !! token = Some x ->
  allows (op_privacy x) (st_config (sy_state w)) = true -> st_active (sy_state w) !! token = None ->
  let p := {| pm_privacy := op_privacy x; pm_scope := scope; pm_committed := false;
              pm_config := st_config (sy_state w); pm_host := op_host x |} in
  wf (Granted token p :: evs)
    {| sy_state := after_acquire token (op_host x) scope (sy_state w);
       sy_permits := <[token := p]> (sy_permits w); sy_guard := sy_guard w |}.
Proof.
  intros Hw (_ & _ & Htr) Hx Hal Hnone p. pose proof (proj1 (active_none _ _ token Hw) Hnone) as Hpn.
  unfold after_acquire. apply permits_wf; try done; try by (destruct (is_completion scope)).
  - intros t o' Ho. exists o'. split_and!; try done. destruct (is_completion scope); cbn in Ho; [|done].
    by apply lookup_delete_Some in Ho as [_ Ho].
  - intros t h. assert (Hact : st_active (if is_completion scope
                then set_operations (delete token (st_operations (sy_state w))) (sy_state w) else sy_state w)
              = st_active (sy_state w)) by by destruct (is_completion scope).
    cbn. destruct (decide (t = token)) as [->|Hne].
    + rewrite !lookup_insert_eq. split; [intros [= <-]; by exists p|]. by intros (q & [= <-] & <-).
    + rewrite !lookup_insert_ne by done. apply (wf_active _ _ Hw).
  - intros t q. rewrite lookup_insert_Some. intros [[<- <-]|[_ Hq]]; [right|left; by exists q].
    destruct (wf_ops _ _ Hw _ _ Hx) as (H1 & _ & _ & k & Hk & H4). split_and!; try done.
    exists k. split; [|done]. by apply (wf_hosts _ _ Hw) in Hk as [_ ?].
  - intros Hg. pose proof (not_owned _ _ Hw Htr). congruence.
Qed.
Lemma committed_state token p s p' s' : committed token p s = (p', s') ->
  pm_scope p' = pm_scope p /\ pm_config p' = pm_config p /\ pm_privacy p' = pm_privacy p /\ pm_host p' = pm_host p /\
  st_config s' = st_config s /\ st_generation s' = st_generation s /\ st_transitioning s' = st_transitioning s /\
  st_next_id s' = st_next_id s /\ st_hosts s' = st_hosts s /\ st_active s' = st_active s /\
  st_poisoned s' = st_poisoned s /\
  (pm_scope p <> Commit -> p' = p /\ s' = s) /\
  (pm_scope p = Commit -> pm_committed p' = true /\
     (st_poisoned s = true \/ forall o, st_operations s' !! token = Some o -> op_committed o = true)) /\
  (forall t o', st_operations s' !! t = Some o' -> exists o, st_operations s !! t = Some o /\
     op_host o' = op_host o /\ op_generation o' = op_generation o /\
     (op_committed o = true -> op_committed o' = true) /\
     (t <> token \/ pm_scope p <> Commit -> op_committed o' = op_committed o)) /\
  (forall t, st_operations s !! t = None -> st_operations s' !! t = None).
Proof.
  unfold committed. destruct (bool_decide (pm_scope p = Commit)) eqn:Eb; cbn [negb].
  - apply bool_decide_eq_true in Eb. intros [= <- <-]. cbn.
    destruct (st_poisoned s) eqn:Ep.
    + split_and!; try done; [by intros _; split; [done|left]|intros t o Ho; by exists o].
    + destruct (st_operations s !! token) as [o|] eqn:Eo; cbn.
      * split_and!; try done.
        -- intros _. split; [done|right]. intros q. rewrite lookup_insert_eq. by intros [= <-].
        -- intros t o'. rewrite lookup_insert_Some. intros [[<- <-]|[Hne Ho]]; [|by exists o'].
           exists o. split_and!; try done. by intros [?|?].
        -- intros t Ht. rewrite lookup_insert_ne; [done|]. intros <-. congruence.
      * split_and!; try done; [intros _; split; [done|right]; intros q Hq; congruence|intros t o' Ho; by exists o'].
  - apply bool_decide_eq_false in Eb. intros [= <- <-]. split_and!; try done. intros t o Ho. by exists o.
Qed.
Lemma drop_state token p s s' l : drop_permit token p s = (s', l) ->
  st_config s' = st_config s /\ st_generation s' = st_generation s /\ st_transitioning s' = st_transitioning s /\
  st_next_id s' = st_next_id s /\ st_hosts s' = st_hosts s /\ st_active s' = delete token (st_active s) /\
  st_poisoned s' = st_poisoned s /\ st_operations s' ⊆ st_operations s /\
  (pm_scope p = Commit -> pm_committed p = false -> st_operations s' !! token = None).
Proof.
  unfold drop_permit. cbn zeta. destruct (_ && _) eqn:Eb; intros [= <- _]; cbn; split_and!; try done.
  - apply delete_subseteq.
  - intros _ _. apply lookup_delete_eq.
  - intros Hs Hc. rewrite Hs, Hc in Eb. by rewrite bool_decide_eq_true_2 in Eb.
Qed.

(** Transitions keep hosts and permits; captures stay only outside of one. *)
Lemma transition_wf evs w e s' g :
  wf evs w -> (forall h k, e <> Opened h k) ->
  st_next_id s' = st_next_id (sy_state w) -> st_hosts s' = st_hosts (sy_state w) ->
  st_active s' = st_active (sy_state w) ->
  (forall t o, st_operations s' !! t = Some o -> st_operations (sy_state w) !! t = Some o /\
     st_transitioning s' = false /\ st_generation s' = st_generation (sy_state w) /\
     st_config s' = st_config (sy_state w)) ->
  (sy_permits w = ∅ \/ st_config s' = st_config (sy_state w)) ->
  (forall ph, g = Some ph -> st_transitioning s' = true /\ (ph = Owned -> sy_permits w = ∅)) ->
  wf (e :: evs) {| sy_state := s'; sy_permits := sy_permits w; sy_guard := g |}.
Proof.
  intros [Hn Hh Ho Hop Ha Hp Hg] He En Eh Ea Eop Ec Eg. split; cbn; [by rewrite En| | | |by rewrite Ea| |done].
  - intros h k. rewrite Eh, En. intros Hk. destruct (Hh h k Hk). split; [done|by right].
  - intros h k [Hx|Hx]%elem_of_cons; [by destruct (He h k)|]. rewrite En. destruct (Ho h k Hx) as [H1 H2]. split; [done|].
    intros k' [Hy|Hy]%elem_of_cons; [by destruct (He h k')|by apply H2].
  - intros t o Hx. destruct (Eop t o Hx) as (Hox & H1 & H2 & H3). destruct (Hop t o Hox) as (H4 & _ & H5).
    rewrite En, Eh, H2, H3. exact (conj H4 (conj H1 H5)).
  - intros t p Hx. destruct Ec as [Ec|Ec]; [rewrite Ec in Hx; by rewrite lookup_empty in Hx|]. rewrite En, Ec.
    destruct (Hp t p Hx) as (H1 & H2 & H3 & k & Hk & H4). split_and!; try done. exists k. split; [by right|done].
Qed.
Lemma drained_permits evs w : wf evs w -> transition_drained (sy_state w) = Some (Ok tt) -> sy_permits w = ∅.
Proof.
  intros Hw. unfold transition_drained. destruct (st_poisoned (sy_state w)); [done|].
  destruct (bool_decide (st_active (sy_state w) = ∅)) eqn:Eb; [|done]. apply bool_decide_eq_true in Eb. intros _.
  apply map_eq. intros t. rewrite lookup_empty. apply (active_none _ _ t Hw). by rewrite Eb, lookup_empty.
Qed.
Lemma step_wf evs w e w' : wf evs w -> step w e w' -> wf (e :: evs) w'.
Proof.
  intros Hw Hs. pose proof Hw as [Hn Hh Ho Hop Ha Hp Hg].
  inversion Hs as [busy kind o s l w0 H|busy host o s l w0 H|busy token p b s l w0 H|busy token scope p s l w0 H
    |busy token scope s l w0 H|token p p' s w0 Hpm H|token p s l w0 Hpm H|token s l w0 H|host s l w0 H|s l w0 H
    |s l w0 Hgd H|s l w0 H|w0 Hgd H|w0 Hgd H|c s w0 Hgd H|w0 Hgd|w0]; subst.
  - apply open_host_spec in H. destruct o as [h|]; [|by apply calm_wf].
    destruct H as (_ & Hz & Hm & ->). by apply open_wf.
  - apply begin_spec in H. destruct o as [t|]; [|by apply calm_wf].
    destruct H as (Hadm & Hz & Hm & (kind & Hk & Hb) & ->). by apply (begin_wf _ _ _ _ kind).
  - apply calm_wf; [done|by eapply classify_calm|done].
  - apply acquire_spec in H as (Hadm & x & Hx & Hal & _ & _ & _ & Hact & -> & ->). by apply acquire_wf.
  - apply acquire_spec in H. by apply calm_wf.
  - destruct (committed_state _ _ _ _ _ H) as (E1 & E2 & E3 & E4 & E5 & E6 & E7 & E8 & E9 & E10 & _ & _ & _ & Eop & _).
    apply permits_wf; try done.
    + by destruct (pm_scope p).
    + intros t o' Hx. destruct (Eop t o' Hx) as (o & ? & ? & ? & _). by exists o.
    + intros t h. rewrite E10, Ha. destruct (decide (t = token)) as [->|Hne]; [|by rewrite lookup_insert_ne].
      rewrite lookup_insert_eq, Hpm. split; intros (q & [= <-] & <-); [by exists p'|by exists p].
    + intros t q. rewrite lookup_insert_Some. intros [[<- <-]|[_ Hq]]; left; [by exists p|by exists q].
    + intros Hgo. destruct (Hg _ Hgo) as [_ Hemp]. rewrite (Hemp eq_refl) in Hpm. by rewrite lookup_empty in Hpm.
  - destruct (drop_state _ _ _ _ _ H) as (E1 & E2 & E3 & E4 & E5 & E6 & _ & Eop & _).
    apply permits_wf; try done.
    + intros t o' Hx. exists o'. split_and!; try done. by apply (lookup_weaken _ _ _ _ Hx).
    + intros t h. rewrite E6. destruct (decide (t = token)) as [->|Hne].
      * rewrite !lookup_delete_eq. split; [done|by intros (? & ? & _)].
      * by rewrite !lookup_delete_ne.
    + intros t q [_ Hq]%lookup_delete_Some. left. by exists q.
    + intros Hgo. destruct (Hg _ Hgo) as [_ Hemp]. rewrite (Hemp eq_refl) in Hpm. by rewrite lookup_empty in Hpm.
  - apply calm_wf; [done|by eapply abandon_calm|done].
  - apply revoke_spec in H as [H _]. by apply calm_wf.
  - apply calm_wf; [done| |done]. pose proof (calm_closed (sy_state w)) as Hc. by rewrite H in Hc.
  - apply transition_start_spec in H as (_ & g & _ & ->).
    apply transition_wf; try done; [by right|]. intros ph [= <-]. by split.
  - apply transition_start_spec in H. by apply calm_wf.
  - destruct (Hg _ Hgd) as [Htr _]. pose proof (drained_permits _ _ Hw H) as Hemp.
    apply transition_wf; try done; [|by left]. intros t o Hx. destruct (Hop t o Hx) as (_ & H2 & _). congruence.
  - destruct (Hg _ Hgd) as [Htr _]. apply transition_wf; try done; [|by right].
    intros t o Hx. destruct (Hop t o Hx) as (_ & H2 & _). congruence.
  - unfold publish in H. destruct (_ || negb _) eqn:Eb; [done|]. injection H as <-.
    destruct (Hg _ Hgd) as [Htr Hemp]. apply transition_wf; try done; [|left; by apply Hemp].
    intros t o Hx. destruct (Hop t o Hx) as (_ & H2 & _). congruence.
  - destruct (Hg _ Hgd) as [Htr Hemp]. unfold transition_drop.
    destruct (st_poisoned (sy_state w)); apply transition_wf; try done; try (by right).
    + intros t o Hx. destruct (Hop t o Hx) as (_ & H2 & _). congruence.
  - apply calm_wf; [done| |done]. split; try done. intros t o Hx. by exists o.
Qed.

Lemma granted_new scope t p evs :
  granted scope (Granted t p :: evs) = if decide (pm_scope p = scope) then t :: granted scope evs else granted scope evs.
Proof. unfold granted. cbn. by destruct (decide (pm_scope p = scope)). Qed.
Lemma elem_granted scope t t' p evs :
  t ∈ granted scope (Granted t' p :: evs) <-> t = t' /\ pm_scope p = scope \/ t ∈ granted scope evs.
Proof. rewrite granted_new. destruct (decide (pm_scope p = scope)); rewrite ?elem_of_cons; naive_solver. Qed.
Lemma acquire_single evs w token x scope :
  wf evs w -> single evs w -> admitting (sy_state w) -> st_operations (sy_state w) !! token = Some x ->
  op_committed x = is_completion scope -> sy_permits w !! token = None ->
  let p := {| pm_privacy := op_privacy x; pm_scope := scope; pm_committed := false;
              pm_config := st_config (sy_state w); pm_host := op_host x |} in
  single (Granted token p :: evs)
    {| sy_state := after_acquire token (op_host x) scope (sy_state w);
       sy_permits := <[token := p]> (sy_permits w); sy_guard := sy_guard w |}.
Proof.
  intros Hw [Hg Hc Hp Hop Hco Hn1 Hn2] (Hpois & _ & _) Hx Hcm Hnone p.
  destruct (wf_ops _ _ Hw _ _ Hx) as (Hlt & _).
  assert (Hops : forall t, st_operations (after_acquire token (op_host x) scope (sy_state w)) !! t
            = if is_completion scope && bool_decide (t = token) then None else st_operations (sy_state w) !! t).
  { intros t. unfold after_acquire. destruct (is_completion scope); cbn; [|done].
    destruct (decide (t = token)) as [->|Hne].
    - by rewrite bool_decide_eq_true_2, lookup_delete_eq.
    - by rewrite bool_decide_eq_false_2, lookup_delete_ne. }
  assert (Hnext : st_next_id (after_acquire token (op_host x) scope (sy_state w)) = st_next_id (sy_state w)).
  { unfold after_acquire. by destruct (is_completion scope). }
  assert (Hfresh : scope = Commit -> token ∉ granted Commit evs).
  { intros ->. intros Hin. destruct (Hc _ Hin) as [H|[(q & Hq & _)|H]]; [congruence|congruence|].
    specialize (H x Hx). rewrite Hcm in H. discriminate H. }
  assert (Hfresh2 : token ∉ granted Completion evs).
  { intros Hin. destruct (Hco _ Hin) as [H _]. congruence. }
  split; cbn [sy_state sy_permits sy_guard].
  - intros sc t. rewrite elem_granted, Hnext. intros [[-> _]|Ht]; [done|by eapply Hg].
  - intros t. rewrite elem_granted. intros [[-> Hsc]|Ht].
    + right; left. exists p. by rewrite lookup_insert_eq.
    + destruct (Hc t Ht) as [H|[(q & Hq & Hqs)|H]]; [congruence| |].
      * right; left. exists q. rewrite lookup_insert_ne; [done|]. intros <-. congruence.
      * right; right. intros o. rewrite Hops. case_match; [done|]. apply H.
  - intros t q. rewrite lookup_insert_Some, elem_granted. intros [[<- <-]|[Hne Hq]].
    + split_and!; [by left| |by intros].
      intros Hsc. rewrite Hops. cbn in Hsc. subst scope. by rewrite bool_decide_eq_true_2.
    + destruct (Hp t q Hq) as (H1 & H2 & H3). split_and!; [by right| |].
      * intros Hsc. rewrite Hops. case_match; [done|]. by apply H2.
      * intros Hsc Hcq. destruct (H3 Hsc Hcq) as [H|H]; [congruence|]. right. intros o. rewrite Hops. case_match; [done|]. apply H.
  - intros t o. rewrite Hops, elem_granted. case_match; [done|]. intros Ho Hoc. destruct (Hop t o Ho Hoc) as [H1 H2].
    split; [by right|by right].
  - intros t. rewrite elem_granted, Hops. intros [[-> Hsc]|Ht].
    + cbn in Hsc. subst scope. cbn in Hcm. rewrite bool_decide_eq_true_2 by done.
      destruct (Hop token x Hx Hcm) as [H1 _]. split; [done|by right].
    + destruct (Hco t Ht) as [H1 H2]. split; [by case_match|by right].
  - rewrite granted_new. case_decide as Hd; [|done]. apply NoDup_cons. split; [by apply Hfresh|done].
  - rewrite granted_new. case_decide as Hd; [|done]. by apply NoDup_cons.
Qed.
Lemma committed_single evs w token p p' s' :
  single evs w -> sy_permits w !! token = Some p -> committed token p (sy_state w) = (p', s') ->
  single (match pm_scope p with Commit => Committed token | _ => Silent end :: evs)
    {| sy_state := s'; sy_permits := <[token := p']> (sy_permits w); sy_guard := sy_guard w |}.
Proof.
  intros [Hg Hc Hp Hop Hco Hn1 Hn2] Hpm H.
  destruct (committed_state _ _ _ _ _ H) as (E1 & _ & _ & _ & _ & _ & _ & E8 & _ & _ & E11 & Hother & Hcom & Eop & Enone).
  destruct (Hp _ _ Hpm) as (Hgr & Hcl & Hcc).
  set (e := match pm_scope p with Commit => Committed token | _ => Silent end).
  assert (He : forall t q, e <> Granted t q) by (intros t q; subst e; by destruct (pm_scope p)).
  split; cbn [sy_state sy_permits sy_guard].
  - intros sc t. rewrite granted_cons by done. rewrite E8. apply Hg.
  - intros t. rewrite granted_cons by done. intros Hx. rewrite E11.
    destruct (Hc t Hx) as [Hy|[(q & Hq & Hqs)|Hy]]; [by left| |].
    + right; left. destruct (decide (t = token)) as [->|Hne]; [exists p'|exists q].
      * rewrite lookup_insert_eq. split; [done|congruence].
      * by rewrite lookup_insert_ne.
    + right; right. intros o' Ho. destruct (Eop t o' Ho) as (o & Hox & _ & _ & Hm & _). by apply Hm, Hy.
  - intros t q. rewrite granted_cons by done. rewrite E11, lookup_insert_Some. intros [[<- <-]|[Hne Hq]].
    + rewrite E1. split_and!; [done|by intros Hsc; apply Enone, Hcl|]. intros Hsc _. by destruct (Hcom Hsc).
    + destruct (Hp t q Hq) as (H1 & H2 & H3). split_and!; [done|by intros Hsc; apply Enone, H2|].
      intros Hsc Hcq. destruct (H3 Hsc Hcq) as [Hy|Hy]; [by left|right]. intros o' Ho.
      destruct (Eop t o' Ho) as (o & Hox & _ & _ & Hm & _). by apply Hm, Hy.
  - intros t o' Ho Hoc. rewrite granted_cons by done. destruct (Eop t o' Ho) as (o & Hox & _ & _ & _ & Hsame).
    destruct (decide (t = token /\ pm_scope p = Commit)) as [[-> Hsc]|Hne].
    + subst e. rewrite Hsc in *. split; [by left|done].
    + destruct (Hop t o Hox) as [H1 H2]; [rewrite <- Hoc; symmetry; apply Hsame; by destruct (decide (t = token)); [right; intros ?; apply Hne|left]|].
      split; [by right|done].
  - intros t. rewrite granted_cons by done. intros Hx. destruct (Hco t Hx) as [H1 H2]. split; [by apply Enone|by right].
  - by rewrite granted_cons.
  - by rewrite granted_cons.
Qed.
Lemma drop_single evs w token p s' l :
  single evs w -> sy_permits w !! token = Some p -> drop_permit token p (sy_state w) = (s', l) ->
  single (Dropped token :: evs)
    {| sy_state := s'; sy_permits := delete token (sy_permits w); sy_guard := sy_guard w |}.
Proof.
  intros [Hg Hc Hp Hop Hco Hn1 Hn2] Hpm H.
  destruct (drop_state _ _ _ _ _ H) as (_ & _ & _ & E4 & _ & _ & E7 & Eop & Egone).
  destruct (Hp _ _ Hpm) as (Hgr & Hcl & Hcc).
  assert (Hold : forall t o, st_operations s' !! t = Some o -> st_operations (sy_state w) !! t = Some o).
  { intros t o Ho. by apply (lookup_weaken _ _ _ _ Ho). }
  assert (Hnone : forall t, st_operations (sy_state w) !! t = None -> st_operations s' !! t = None).
  { intros t Ht. destruct (st_operations s' !! t) eqn:E; [|done]. apply Hold in E. congruence. }
  split; cbn [sy_state sy_permits sy_guard].
  - intros sc t. rewrite granted_cons by done. rewrite E4. apply Hg.
  - intros t. rewrite granted_cons by done. intros Hx. rewrite E7.
    destruct (Hc t Hx) as [Hy|[(q & Hq & Hqs)|Hy]]; [by left| |by right; right; intros o Ho; apply Hy, Hold].
    destruct (decide (t = token)) as [->|Hne]; [|by right; left; exists q; rewrite lookup_delete_ne].
    assert (q = p) as -> by congruence. destruct (pm_committed p) eqn:Ecm.
    + destruct (Hcc Hqs eq_refl) as [Hy|Hy]; [by left|right; right]. intros o Ho. by apply Hy, Hold.
    + right; right. intros o Ho. rewrite (Egone Hqs eq_refl) in Ho. done.
  - intros t q [Hne Hq]%lookup_delete_Some. rewrite granted_cons by done. rewrite E7.
    destruct (Hp t q Hq) as (H1 & H2 & H3). split_and!; [done|by intros Hsc; apply Hnone, H2|].
    intros Hsc Hcq. destruct (H3 Hsc Hcq) as [Hy|Hy]; [by left|right]. intros o Ho. by apply Hy, Hold.
  - intros t o Ho Hoc. rewrite granted_cons by done. destruct (Hop t o (Hold _ _ Ho) Hoc). split; [by right|done].
  - intros t. rewrite granted_cons by done. intros Hx. destruct (Hco t Hx) as [H1 H2]. split; [by apply Hnone|by right].
  - by rewrite granted_cons.
  - by rewrite granted_cons.
Qed.
Lemma step_single evs w e w' : wf evs w -> single evs w -> step w e w' -> single (e :: evs) w'.
Proof.
  intros Hw Hsg Hs.
  inversion Hs as [busy kind o s l w0 H|busy host o s l w0 H|busy token p b s l w0 H|busy token scope p s l w0 H
    |busy token scope s l w0 H|token p p' s w0 Hpm H|token p s l w0 Hpm H|token s l w0 H|host s l w0 H|s l w0 H
    |s l w0 Hgd H|s l w0 H|w0 Hgd H|w0 Hgd H|c s w0 Hgd H|w0 Hgd|w0]; subst.
  - apply open_host_spec in H. destruct o as [h|]; [|by apply calm_single].
    destruct H as ((Hpo & _) & Hz & Hm & ->). apply single_update; cbn; try done; [lia|]. intros t o Ho. left. by exists o.
  - apply begin_spec in H. destruct o as [t|]; [|by apply calm_single].
    destruct H as (_ & -> & Hm & _ & ->). apply single_update; cbn; try done; [lia|]. intros t o.
    rewrite lookup_insert_Some. intros [[<- <-]|[_ Ho]]; [by right|left; by exists o].
  - apply calm_single; [done|by eapply classify_calm|done].
  - apply acquire_spec in H as (Hadm & x & Hx & _ & _ & _ & Hcm & Hact & -> & ->).
    apply acquire_single; try done. by apply (active_none evs).
  - apply acquire_spec in H. by apply calm_single.
  - by apply (committed_single _ _ _ p).
  - by eapply drop_single.
  - apply calm_single; [done|by eapply abandon_calm|done].
  - apply revoke_spec in H as [H _]. by apply calm_single.
  - apply calm_single; [done| |done]. pose proof (calm_closed (sy_state w)) as Hc. by rewrite H in Hc.
  - apply transition_start_spec in H as (_ & g & _ & ->). by apply single_update.
  - apply transition_start_spec in H. by apply calm_single.
  - apply single_update; try done. intros t o Ho. left. by exists o.
  - apply single_update; try done. intros t o Ho. left. by exists o.
  - unfold publish in H. destruct (_ || negb _); [done|]. injection H as <-.
    apply single_update; try done. intros t o Ho. left. by exists o.
  - unfold transition_drop. destruct (st_poisoned (sy_state w)); apply single_update; try done;
      intros t o Ho; left; by exists o.
  - apply single_update; try done. intros t o Ho. left. by exists o.
Qed.
Lemma start_wf c : wf [] (start c) /\ single [] (start c).
Proof.
  assert (Hnil : forall scope t, t ∉ granted scope []) by (intros scope t; apply not_elem_of_nil).
  assert (Hev : forall e : event, e ∉ []) by (intros e; apply not_elem_of_nil).
  split; split; cbn; try done; try (intros ? ? H; by rewrite lookup_empty in H); try apply NoDup_nil_2.
  - intros h k H. by apply Hev in H.
  - intros t h. rewrite lookup_empty. split; [done|]. intros (p & H & _). by rewrite lookup_empty in H.
  - intros scope t H. by apply Hnil in H.
  - intros t H. by apply Hnil in H.
  - intros t H. by apply Hnil in H.
Qed.
Lemma run_wf c evs w : run (start c) evs w -> wf evs w /\ single evs w.
Proof.
  induction 1 as [|evs w1 e w2 _ [H1 H2] Hs]; [apply start_wf|].
  split; [by eapply step_wf|by eapply step_single].
Qed.

(** ** What stays so *)

Lemma run_app w0 e2 e1 w : run w0 (e2 ++ e1) w -> exists w1, run w0 e1 w1 /\ run w1 e2 w.
Proof.
  revert w; induction e2 as [|e e2 IH]; intros w H; cbn in H; [exists w; by split; [|constructor]|].
  inversion H as [|evs w1 e' w2 Hr Hs]; subst. destruct (IH w1 Hr) as (w0' & H1 & H2).
  exists w0'. split; [done|by econstructor].
Qed.
Lemma run_stable (P : Sys -> Prop) (Q : event -> Prop) w evs w' :
  (forall w e w', P w -> step w e w' -> P w' /\ Q e) -> P w -> run w evs w' -> P w' /\ Forall Q evs.
Proof.
  intros Hst Hw. induction 1 as [|evs w1 e w2 _ [H1 H2] Hs]; [by split|].
  destruct (Hst _ _ _ H1 Hs) as [H3 H4]. split; [done|by constructor].
Qed.
(** The ways the parts of a step's state can move. *)
Record moved (s s' : State) : Prop := {
  mv_next : st_next_id s <= st_next_id s';
  mv_poisoned : st_poisoned s = true -> st_poisoned s' = true;
  mv_closed : st_closed s = true -> st_closed s' = true;
  mv_hosts h : st_hosts s !! h = None -> h < st_next_id s -> st_hosts s' !! h = None;
  mv_ops t : st_operations s !! t = None -> t < st_next_id s -> st_operations s' !! t = None;
}.
Lemma calm_moved s s' : calm s s' -> (st_closed s = true -> st_closed s' = true) -> moved s s'.
Proof.
  intros [_ _ _ _ Cn Cp Ch Co] Hc. split; [by rewrite Cn|done|done| |].
  - intros h Hh _. destruct (st_hosts s' !! h) as [k|] eqn:E; [|done]. apply (lookup_weaken _ _ _ _ E) in Ch. congruence.
  - intros t Ht _. destruct (st_operations s' !! t) as [o|] eqn:E; [|done]. destruct (Co t o E) as (x & Hx & _). congruence.
Qed.
Lemma try_state_closed {A} busy s (f : State -> option A * State * list Z) o s' l :
  try_state busy s f = (o, s', l) -> st_closed s = true -> (f s = (o, s', l) -> st_closed s' = true) -> st_closed s' = true.
Proof.
  unfold try_state. destruct busy; [by intros [= _ <- _]|]. destruct (st_poisoned s); [|by auto].
  destruct (fail_closed s) as [s1 l1] eqn:E. intros [= _ <- _] _ _. by injection E as <- _.
Qed.
Lemma step_moved w e w' : step w e w' -> moved (sy_state w) (sy_state w').
Proof.
  intros Hs.
  inversion Hs as [busy kind o s l w0 H|busy host o s l w0 H|busy token p b s l w0 H|busy token scope p s l w0 H
    |busy token scope s l w0 H|token p p' s w0 Hpm H|token p s l w0 Hpm H|token s l w0 H|host s l w0 H|s l w0 H
    |s l w0 Hgd H|s l w0 H|w0 Hgd H|w0 Hgd H|c s w0 Hgd H|w0 Hgd|w0]; subst; cbn [sy_state with_state].
  - pose proof (open_host_spec _ _ _ _ _ _ H) as Hsp. destruct o as [h|].
    + destruct Hsp as ((_ & Hc & _) & -> & _ & ->). split; cbn; try done; [lia|].
      intros h Hh Hlt. rewrite lookup_insert_ne; [done|lia].
    + apply calm_moved; [done|]. intros Hc. apply (try_state_closed _ _ _ _ _ _ H Hc). rewrite Hc. cbn. by intros [= <- _].
  - pose proof (begin_spec _ _ _ _ _ _ H) as Hsp. destruct o as [t|].
    + destruct Hsp as ((_ & Hc & _) & -> & _ & _ & ->). split; cbn; try done; [lia|].
      intros t Ht Hlt. rewrite lookup_insert_ne; [done|lia].
    + apply calm_moved; [done|]. intros Hc. apply (try_state_closed _ _ _ _ _ _ H Hc). rewrite Hc. cbn.
      destruct (st_hosts (sy_state w) !! host); by intros [= <- _].
  - apply calm_moved; [by eapply classify_calm|]. intros Hc. revert H. unfold classify.
    destruct (try_state _ _ _) as [[o s1] l1] eqn:E. intros [= _ <- _]. apply (try_state_closed _ _ _ _ _ _ E Hc).
    rewrite Hc. cbn. by intros [= _ <- _].
  - apply acquire_spec in H as ((_ & Hc & _) & x & _ & _ & _ & _ & _ & _ & _ & ->). unfold after_acquire.
    destruct (is_completion scope); split; cbn; try done.
    intros t Ht _. destruct (decide (t = token)) as [->|Hne]; [apply lookup_delete_eq|by rewrite lookup_delete_ne].
  - apply calm_moved; [by apply acquire_spec in H|]. intros Hc. apply (try_state_closed _ _ _ _ _ _ H Hc). rewrite Hc. cbn.
    by intros [= <- _].
  - destruct (committed_state _ _ _ _ _ H) as (_ & _ & _ & _ & _ & _ & _ & E8 & E9 & _ & E11 & _ & _ & _ & En).
    split; [by rewrite E8|by rewrite E11| |by rewrite E9|by intros t Ht _; apply En].
    revert H. unfold committed. repeat case_match; by intros [= _ <-].
  - destruct (drop_state _ _ _ _ _ H) as (_ & _ & _ & E4 & E5 & _ & E7 & Eop & _).
    split; [by rewrite E4|by rewrite E7| |by rewrite E5|].
    + revert H. unfold drop_permit. cbn zeta. case_match; by intros [= <- _].
    + intros t Ht _. destruct (st_operations s !! t) eqn:E; [|done]. apply (lookup_weaken _ _ _ _ E) in Eop. congruence.
  - apply calm_moved; [by eapply abandon_calm|by injection H as <- _].
  - apply calm_moved; [by apply revoke_spec in H as [? _]|]. unfold revoke_host in H. case_match; [done|]. by injection H as <- _.
  - apply calm_moved; [|by injection H as <- _]. pose proof (calm_closed (sy_state w)) as Hc. by rewrite H in Hc.
  - apply transition_start_spec in H as ((_ & Hc & _) & g & _ & ->). split; cbn; try done.
  - apply calm_moved; [by apply transition_start_spec in H|]. intros Hc. unfold transition_start in H.
    rewrite Hc, orb_true_r in H. by injection H as <- _.
  - apply calm_moved; [apply calm_refl|done].
  - apply calm_moved; [apply calm_refl|done].
  - unfold publish in H. destruct (_ || negb _); [done|]. by injection H as <-.
  - unfold transition_drop. by destruct (st_poisoned (sy_state w)).
  - by split.
Qed.
Lemma step_granted w t p w' : step w (Granted t p) w' ->
  admitting (sy_state w) /\ is_Some (st_operations (sy_state w) !! t) /\ is_Some (st_hosts (sy_state w) !! pm_host p).
Proof.
  intros Hs. inversion Hs as [? ? o|? ? o|? ? ? ?|busy token scope p0 s l w0 H|? ? ?|? p0| | | | | | | | | | |]; subst;
    try (by destruct o); try (by destruct (pm_scope p0)).
  apply acquire_spec in H as (Hadm & x & Hx & _ & _ & Hh & _ & _ & -> & _).
  split_and!; [done|by eexists|done].
Qed.
(** What is gone stays gone, and nothing gone is granted. *)
Lemma capture_gone w w' evs t :
  st_operations (sy_state w) !! t = None -> t < st_next_id (sy_state w) -> run w evs w' ->
  Forall (fun e => forall p, e <> Granted t p) evs.
Proof.
  intros H1 H2 Hr. apply (run_stable (fun w => st_operations (sy_state w) !! t = None /\ t < st_next_id (sy_state w))
    _ w evs w'); [|done|done].
  intros v e v' [Ho Hn] Hs. pose proof (step_moved _ _ _ Hs) as [Mn _ _ _ Mo]. split; [split; [by apply Mo|lia]|].
  intros p ->. apply step_granted in Hs as (_ & [x Hx] & _). congruence.
Qed.
Lemma host_gone w w' evs h :
  st_hosts (sy_state w) !! h = None -> h < st_next_id (sy_state w) -> run w evs w' ->
  (st_hosts (sy_state w') !! h = None /\ h < st_next_id (sy_state w')) /\
  Forall (fun e => forall t p, e = Granted t p -> pm_host p <> h) evs.
Proof.
  intros H1 H2 Hr. apply (run_stable (fun w => st_hosts (sy_state w) !! h = None /\ h < st_next_id (sy_state w))
    _ w evs w'); [|done|done].
  intros v e v' [Ho Hn] Hs. pose proof (step_moved _ _ _ Hs) as [Mn _ _ Mh _]. split; [split; [by apply Mh|lia]|].
  intros t p -> Hp. apply step_granted in Hs as (_ & _ & [x Hx]). rewrite Hp in Hx. congruence.
Qed.
Definition shut (s : State) : Prop := st_closed s = true \/ st_poisoned s = true.
Lemma shut_admits_nobody w w' evs :
  shut (sy_state w) -> run w evs w' ->
  Forall (fun e => match e with Opened _ _ | Began _ _ | Granted _ _ => False | _ => True end) evs.
Proof.
  intros Hsh Hr. apply (run_stable (fun w => shut (sy_state w)) _ w evs w'); [|done|done].
  intros v e v' Hv Hs. pose proof (step_moved _ _ _ Hs) as [_ Mp Mc _ _].
  assert (Hna : ~ admitting (sy_state v)) by (intros (H1 & H2 & _); destruct Hv; congruence).
  split; [by destruct Hv; [left; apply Mc|right; apply Mp]|].
  destruct e as [h k|t h|t p| | | | | | | | | |]; try done; apply Hna.
  - inversion Hs as [busy kind o s l w0 H|? ? o| | | |? p0| | | | | | | | | | |]; subst;
      try (by destruct o); try (by destruct (pm_scope p0)).
    destruct o as [z|]; [|done]. by apply open_host_spec in H as [? _].
  - inversion Hs as [? ? o|busy host o s l w0 H| | | |? p0| | | | | | | | | | |]; subst;
      try (by destruct o); try (by destruct (pm_scope p0)).
    destruct o as [z|]; [|done]. by apply begin_spec in H as [? _].
  - by apply step_granted in Hs as [? _].
Qed.

(** ** Waiting for a transition *)

Definition drops (evs : list event) : nat :=
  length (List.filter (fun e => match e with Dropped _ => true | _ => false end) evs).
Lemma draining_step evs w e w' :
  wf evs w -> sy_guard w = Some Draining -> step w e w' -> e <> Drained ->
  st_poisoned (sy_state w') = true \/
  sy_guard w' = Some Draining /\ (forall t p, e <> Granted t p) /\
  (size (sy_permits w') + drops [e] = size (sy_permits w))%nat.
Proof.
  intros Hw Hg Hs Hne. destruct (wf_guard _ _ Hw _ Hg) as [Htr _].
  inversion Hs as [busy kind o s l w0 H|busy host o s l w0 H|busy token p b s l w0 H|busy token scope p s l w0 H
    |busy token scope s l w0 H|token p p' s w0 Hpm H|token p s l w0 Hpm H|token s l w0 H|host s l w0 H|s l w0 H
    |s l w0 Hgd H|s l w0 H|w0 Hgd H|w0 Hgd H|c s w0 Hgd H|w0 Hgd|w0]; subst; try congruence; cbn [sy_state sy_guard sy_permits with_state].
  all: try (right; split; [done|split; [by intros|unfold drops; cbn; lia]]; fail).
  - right. split; [done|]. destruct o; (split; [done|unfold drops; cbn; lia]).
  - right. split; [done|]. destruct o; (split; [done|unfold drops; cbn; lia]).
  - apply acquire_spec in H as ((_ & _ & Ht) & _). congruence.
  - right. split; [done|]. split; [by destruct (pm_scope p)|].
    rewrite map_size_insert_Some by done. destruct (pm_scope p); unfold drops; cbn; lia.
  - right. split; [done|]. split; [done|]. pose proof (map_size_delete_Some token (sy_permits w) (mk_is_Some _ _ Hpm)) as Hsz.
    unfold drops. cbn. assert (size (sy_permits w) <> 0%nat) by (intros Hz%map_size_empty_inv; rewrite Hz in Hpm; by rewrite lookup_empty in Hpm).
    lia.
  - left. unfold transition_drained in H. destruct (st_poisoned (sy_state w)); [done|]. by case_match.
Qed.
Lemma drops_cons e evs : drops (e :: evs) = (drops [e] + drops evs)%nat.
Proof. unfold drops. cbn. by destruct e. Qed.
Lemma draining_run evs w e2 w' :
  wf evs w -> sy_guard w = Some Draining -> run w e2 w' -> Drained ∉ e2 ->
  wf (e2 ++ evs) w' /\
  (st_poisoned (sy_state w') = true \/
   sy_guard w' = Some Draining /\ Forall (fun e => forall t p, e <> Granted t p) e2 /\
   (size (sy_permits w') + drops e2 = size (sy_permits w))%nat).
Proof.
  intros Hw Hg. induction 1 as [|e2 w1 e w2 Hr IH Hs]; intros Hn.
  - split; [done|right]. split_and!; [done|constructor|unfold drops; cbn; lia].
  - apply not_elem_of_cons in Hn as [Hne Hn]. destruct (IH Hn) as [Hw1 Hd]. split; [by eapply step_wf|].
    destruct Hd as [Hp|(Hg1 & Hf & Hsz)]; [left; by apply (step_moved _ _ _ Hs)|].
    destruct (draining_step _ _ _ _ Hw1 Hg1 Hs) as [Hp|(Hg2 & Hf2 & Hsz2)]; [by intros ->|by left|right].
    split_and!; [done|by constructor|]. rewrite drops_cons. lia.
Qed.
Lemma drained_when_empty evs w :
  wf evs w -> st_poisoned (sy_state w) = false -> sy_permits w = ∅ ->
  transition_drained (sy_state w) = Some (Ok tt).
Proof.
  intros Hw Hp He. unfold transition_drained. rewrite Hp, bool_decide_eq_true_2; [done|].
  apply map_eq. intros t. rewrite lookup_empty. apply (active_none _ _ t Hw). by rewrite He, lookup_empty.
Qed.
Lemma revoked_step w h w' : step w (Revoked h) w' -> st_hosts (sy_state w') !! h = None.
Proof.
  intros Hs. inversion Hs as [? ? o|? ? o| | | |? p0 ? ? ? ? ?| | |host s l w0 H| | | | | | | |]; subst;
    try (by destruct o); try (by destruct (pm_scope p0)).
  unfold revoke_host in H. destruct (st_poisoned _); [done|]. injection H as <- _. cbn. apply lookup_delete_eq.
Qed.
Lemma host_busy_spec evs w h t p : wf evs w -> sy_permits w !! t = Some p -> pm_host p = h ->
  host_busy h (sy_state w) = true.
Proof.
  intros Hw Hp <-. unfold host_busy. apply existsb_exists. exists (t, pm_host p).
  split; [|apply Z.eqb_refl]. apply list_elem_of_In, elem_of_map_to_list, (wf_active _ _ Hw). by exists p.
Qed.
Lemma shut_step w e w' : step w e w' -> e = Closed \/ e = Poisoned -> shut (sy_state w').
Proof.
  intros Hs He. inversion Hs as [? ? o|? ? o| | | |? p0 ? ? ? ? ?| | | |s l w0 H| | | | | | |]; subst;
    try (by destruct He); try (by destruct o, He); try (by destruct (pm_scope p0), He).
  - left. by injection H as <- _.
  - by right.
Qed.
Lemma run_split w0 w e2 e e1 : run w0 (e2 ++ e :: e1) w ->
  exists w1 w2, run w0 e1 w1 /\ step w1 e w2 /\ run w0 (e :: e1) w2 /\ run w2 e2 w.
Proof.
  intros (w2 & H1 & H2)%run_app. inversion H1 as [|evs w1 e' w3 Hr Hs]; subst. exists w1, w2. by split_and!.
Qed.

(** ** What the gate promises *)

(** C23: Whatever the interleaving, every permit that is out was given under the very settings
    now in force, those settings allow what is known of the capture and allow its kind of host to
    capture at all; and new settings are published only while no permit is out. *)
Theorem permits_follow_the_policy_in_force c evs w :
  run (start c) evs w ->
  (forall t p, sy_permits w !! t = Some p ->
     pm_config p = st_config (sy_state w) /\ allows (pm_privacy p) (st_config (sy_state w)) = true /\
     exists k, Opened (pm_host p) k ∈ evs /\ begin_allowed k (st_config (sy_state w)) = true) /\
  (forall c' w', step w (Published c') w' ->
     sy_permits w = ∅ /\ sy_permits w' = ∅ /\ st_config (sy_state w') = c').
Proof.
  intros Hr. destruct (run_wf _ _ _ Hr) as [Hw _]. split.
  - intros t p Hp. by apply (wf_permits _ _ Hw) in Hp as [_ ?].
  - intros c' w' Hs. inversion Hs as [? ? o|? ? o| | | |? p0 ? ? ? ? ?| | | | | | | | |c1 s w0 Hgd H| |]; subst;
      try (by destruct o); try (by destruct (pm_scope p0)).
    destruct (wf_guard _ _ Hw _ Hgd) as [_ He]. unfold publish in H. destruct (_ || negb _); [done|].
    injection H as <-. split_and!; [by apply He|by apply He|done].
Qed.

(** However its callers interleave, a capture commits at most once and completes at most once;
    it completes only after it has committed, and once completed it is granted nothing more. *)
Theorem captures_are_single_use c evs w :
  run (start c) evs w ->
  NoDup (granted Commit evs) /\ NoDup (granted Completion evs) /\
  (forall e2 t p e1, evs = e2 ++ Granted t p :: e1 -> pm_scope p = Completion ->
     Committed t ∈ e1 /\ t ∈ granted Commit e1 /\ Forall (fun e => forall p', e <> Granted t p') e2).
Proof.
  intros Hr. destruct (run_wf _ _ _ Hr) as [_ Hs1]. split_and!; [apply Hs1|apply Hs1|].
  intros e2 t p e1 -> Hsc. apply run_split in Hr as (w1 & w2 & H1 & Hs & H2 & H3).
  destruct (run_wf _ _ _ H1) as [_ Hb]. destruct (run_wf _ _ _ H2) as [_ Ha].
  assert (Hin : t ∈ granted Completion (Granted t p :: e1)) by (apply elem_granted; by left).
  destruct (sg_completion _ _ Ha t Hin) as [Hnone Hc]. pose proof (sg_granted _ _ Ha _ _ Hin) as Hlt.
  apply elem_of_cons in Hc as [Hc|Hc]; [done|]. split_and!; [done| |by eapply capture_gone].
  pose proof Hs as Hs'.
  inversion Hs as [? ? o|? ? o| |busy token scope p0 s l w0 H| |? p0 ? ? ? ? ?| | | | | | | | | | |]; subst;
      try (by destruct o); try (by destruct (pm_scope p0)).
  apply acquire_spec in H as (_ & x & Hx & _ & _ & _ & Hcm & _ & -> & _). cbn in Hsc. subst scope.
  by apply (sg_op _ _ Hb t x Hx).
Qed.

(** Once a host is revoked none of its captures is ever granted anything again, and a drained
    host has no permit out; once the gate is closed or its lock is poisoned nobody opens, begins or
    acquires. *)
Theorem revocation_and_closing_are_final c evs w :
  run (start c) evs w ->
  (forall e2 h k e1, evs = e2 ++ Revoked h :: e1 -> Opened h k ∈ e1 ->
     Forall (fun e => forall t p, e = Granted t p -> pm_host p <> h) e2) /\
  (forall h, drain_host h (sy_state w) = Some (Ok tt) -> forall t p, sy_permits w !! t = Some p -> pm_host p <> h) /\
  (forall e2 e e1, evs = e2 ++ e :: e1 -> e = Closed \/ e = Poisoned ->
     Forall (fun e => match e with Opened _ _ | Began _ _ | Granted _ _ => False | _ => True end) e2).
Proof.
  intros Hr. split_and!.
  - intros e2 h k e1 -> Ho. apply run_split in Hr as (w1 & w2 & H1 & Hs & H2 & H3).
    destruct (run_wf _ _ _ H2) as [Hw2 _].
    assert (Hlt : h < st_next_id (sy_state w2)) by (apply (wf_opened _ _ Hw2 h k); by right).
    by apply (host_gone _ _ _ _ (revoked_step _ _ _ Hs) Hlt H3).
  - intros h Hd t p Hp Hh. destruct (run_wf _ _ _ Hr) as [Hw _]. revert Hd. unfold drain_host.
    rewrite (host_busy_spec _ _ _ _ _ Hw Hp Hh). by destruct (_ || _).
  - intros e2 e e1 -> He. apply run_split in Hr as (w1 & w2 & H1 & Hs & H2 & H3).
    by apply (shut_admits_nobody w2 w); [eapply shut_step|].
Qed.

(** A change of settings that waits for its captures gets its turn: while it waits nothing is
    granted and the permits that are out only go, each by its own drop, and as soon as as many have
    been dropped as were out, the wait is over, unless the lock was poisoned. *)
Theorem transition_waits_only_for_permits c e1 w e2 w' :
  run (start c) e1 w -> sy_guard w = Some Draining -> run w e2 w' -> Drained ∉ e2 ->
  st_poisoned (sy_state w') = true \/
  Forall (fun e => forall t p, e <> Granted t p) e2 /\
  (size (sy_permits w') + drops e2 = size (sy_permits w))%nat /\
  (drops e2 = size (sy_permits w) -> exists w2, step w' Drained w2 /\ sy_guard w2 = Some Owned).
Proof.
  intros Hr Hg Hr2 Hn. destruct (run_wf _ _ _ Hr) as [Hw _].
  destruct (draining_run _ _ _ _ Hw Hg Hr2 Hn) as [Hw' [Hp|(Hg' & Hf & Hsz)]]; [by left|].
  destruct (st_poisoned (sy_state w')) eqn:Hp; [by left|right]. split_and!; [done|done|].
  intros Hd. eexists. split; [apply step_drained; [done|]|done]. eapply drained_when_empty; [done|done|].
  apply map_size_empty_inv. lia.
Qed.

(** ** A scheduler, for concrete runs *)

Inductive action :=
| AOpen (kind : CaptureKind) | ABegin (host : Z) | AAcquire (token : Z) (scope : CaptureScope)
| ACommitted (token : Z) | ADrop (token : Z) | ARevoke (host : Z) | AClose | AStart | ADrained
| APublish (c : ConfigData.t) | ARelease.
Definition act (a : action) (w : Sys) : option (event * Sys) :=
  match a with
  | AOpen k => let '(o, s, _) := open_host false k (sy_state w) in
               Some (match o with Some h => Opened h k | None => Silent end, with_state s w)
  | ABegin h => let '(o, s, _) := begin false h (sy_state w) in
                Some (match o with Some t => Began t h | None => Silent end, with_state s w)
  | AAcquire t scope =>
    match acquire false t scope (sy_state w) with
    | (Some p, s, _) =>
      Some (Granted t p, {| sy_state := s; sy_permits := <[t := p]> (sy_permits w); sy_guard := sy_guard w |})
    | (None, s, _) => Some (Silent, with_state s w)
    end
  | ACommitted t =>
    p ← sy_permits w !! t;
    let '(p', s) := committed t p (sy_state w) in
    Some (match pm_scope p with Commit => Committed t | _ => Silent end,
          {| sy_state := s; sy_permits := <[t := p']> (sy_permits w); sy_guard := sy_guard w |})
  | ADrop t =>
    p ← sy_permits w !! t;
    let '(s, _) := drop_permit t p (sy_state w) in
    Some (Dropped t, {| sy_state := s; sy_permits := delete t (sy_permits w); sy_guard := sy_guard w |})
  | ARevoke h => match revoke_host h (sy_state w) with
                 | Ok (s, _) => Some (Revoked h, with_state s w)
                 | Err _ => None
                 end
  | AClose => let '(s, _) := fail_closed (sy_state w) in Some (Closed, with_state s w)
  | AStart =>
    match sy_guard w, transition_start (sy_state w) with
    | None, (Ok s, _) => Some (Started, {| sy_state := s; sy_permits := sy_permits w; sy_guard := Some Draining |})
    | _, _ => None
    end
  | ADrained =>
    match sy_guard w, transition_drained (sy_state w) with
    | Some Draining, Some (Ok _) =>
      Some (Drained, {| sy_state := sy_state w; sy_permits := sy_permits w; sy_guard := Some Owned |})
    | _, _ => None
    end
  | APublish c =>
    match sy_guard w, publish c (sy_state w) with
    | Some Owned, Ok s => Some (Published c, with_state s w)
    | _, _ => None
    end
  | ARelease =>
    match sy_guard w with
    | Some Owned =>
      Some (Released, {| sy_state := transition_drop (sy_state w); sy_permits := sy_permits w; sy_guard := None |})
    | _ => None
    end
  end.
Lemma act_step a w e w' : act a w = Some (e, w') -> step w e w'.
Proof.
  destruct a as [k|h|t scope|t|t|h| | | |c|]; cbn -[open_host begin acquire].
  - destruct (open_host _ _ _) as [[o s] l] eqn:E. intros [= <- <-]. by eapply step_open.
  - destruct (begin _ _ _) as [[o s] l] eqn:E. intros [= <- <-]. by eapply step_begin.
  - destruct (acquire _ _ _ _) as [[[p|] s] l] eqn:E; intros [= <- <-]; [by eapply step_acquire|by eapply step_refused].
  - destruct (sy_permits w !! t) as [p|] eqn:E; [|done]. cbn. destruct (committed t p _) as [p' s] eqn:Ec.
    intros [= <- <-]. by eapply step_committed.
  - destruct (sy_permits w !! t) as [p|] eqn:E; [|done]. cbn -[drop_permit]. destruct (drop_permit t p _) as [s l] eqn:Ed.
    intros [= <- <-]. by eapply step_drop.
  - destruct (revoke_host _ _) as [[s l]|] eqn:E; intros [= <- <-]. by eapply step_revoke.
  - intros [= <- <-]. by eapply step_close.
  - destruct (sy_guard w) eqn:Eg; [done|]. destruct (transition_start _) as [[s|] l] eqn:E; intros [= <- <-].
    by eapply step_start.
  - destruct (sy_guard w) as [[]|] eqn:Eg; try done. destruct (transition_drained _) as [[[]|]|] eqn:E; intros [= <- <-].
    by eapply step_drained.
  - destruct (sy_guard w) as [[]|] eqn:Eg; try done. destruct (publish _ _) as [s|] eqn:E; intros [= <- <-].
    by eapply step_publish.
  - destruct (sy_guard w) as [[]|] eqn:Eg; intros [= <- <-]. by eapply step_release.
Qed.
Fixpoint play (l : list action) (evs : list event) (w : Sys) : option (list event * Sys) :=
  match l with
  | [] => Some (evs, w)
  | a :: l => r ← act a w; play l (r.1 :: evs) r.2
  end.
Lemma play_run w0 l evs w evs' w' : run w0 evs w -> play l evs w = Some (evs', w') -> run w0 evs' w'.
Proof.
  revert evs w. induction l as [|a l IH]; intros evs w Hr; cbn; [by intros [= <- <-]|].
  destruct (act a w) as [[e w1]|] eqn:E; [|done]. cbn. apply IH. by apply (run_step _ _ _ _ _ Hr), (act_step a).
Qed.
(** Where playing the actions from new settings ends. *)
Definition played (l : list action) : list event * Sys :=
  default ([], start default_config) (play l [] (start default_config)).
Lemma played_run l : run (start default_config) (played l).1 (played l).2.
Proof.
  unfold played. destruct (play l [] (start default_config)) as [[evs w]|] eqn:E; [|constructor].
  by apply (play_run _ _ _ _ _ _ (run_nil _) E).
Qed.

(** A capture that is read, stored and completed; the same, with its permit still out. *)
Definition capture_once : list action :=
  [AOpen Explicit; ABegin 1; AAcquire 2 Read; ADrop 2; AAcquire 2 Commit; ACommitted 2; ADrop 2;
   AAcquire 2 Completion; ADrop 2].
Definition capture_open : list action := take 5 capture_once.
Lemma permits_follow_the_policy_in_force_witness :
  size (sy_permits (played capture_open).2) = 1%nat /\
  (forall t p, sy_permits (played capture_open).2 !! t = Some p ->
     allows (pm_privacy p) (st_config (sy_state (played capture_open).2)) = true).
Proof.
  split; [vm_compute; reflexivity|].
  intros t p Hp. destruct (permits_follow_the_policy_in_force _ _ _ (played_run capture_open)) as [H _].
  exact (proj1 (proj2 (H t p Hp))).
Defined.
Lemma captures_are_single_use_witness :
  granted Commit (played capture_once).1 = [2] /\ granted Completion (played capture_once).1 = [2] /\
  NoDup (granted Commit (played capture_once).1).
Proof.
  split; [vm_compute; reflexivity|]. split; [vm_compute; reflexivity|].
  exact (proj1 (captures_are_single_use _ _ _ (played_run capture_once))).
Defined.
Definition revoked_and_closed : list action := capture_open ++ [ARevoke 1; AAcquire 2 Read; ADrop 2; AClose; ABegin 1].
Definition revoked_tail : list event := [Silent; Closed; Dropped 2; Silent].
Definition revoked_head : list event := (played capture_open).1.
Lemma revocation_and_closing_are_final_witness :
  (played revoked_and_closed).1 = revoked_tail ++ Revoked 1 :: revoked_head /\
  Forall (fun e => forall t p, e = Granted t p -> pm_host p <> 1) revoked_tail /\
  forall t p, sy_permits (played revoked_and_closed).2 !! t = Some p -> pm_host p <> 1.
Proof.
  assert (E : (played revoked_and_closed).1 = revoked_tail ++ Revoked 1 :: revoked_head) by (vm_compute; reflexivity).
  pose proof (revocation_and_closing_are_final _ _ _ (played_run revoked_and_closed)) as (H1 & H2 & _).
  split; [exact E|]. split.
  - apply (H1 revoked_tail 1 Explicit revoked_head E).
    apply list_elem_of_In. vm_compute. repeat first [left; reflexivity|right].
  - apply H2. vm_compute. reflexivity.
Defined.
(** A transition that starts while a capture is being stored. *)
Definition draining : list action := capture_open ++ [AStart].
Lemma drained_out : exists w', run (played draining).2 [Dropped 2] w' /\ st_poisoned (sy_state w') = false.
Proof.
  assert (E : exists r, act (ADrop 2) (played draining).2 = Some r /\ st_poisoned (sy_state r.2) = false /\ r.1 = Dropped 2)
    by (eexists; split; [vm_compute; reflexivity|]; by split).
  destruct E as ([e w'] & E & Hp & He). cbn in Hp, He. subst e. exists w'. split; [|exact Hp].
  eapply run_step; [apply run_nil|]. apply act_step in E. exact E.
Qed.
Lemma transition_waits_only_for_permits_witness :
  size (sy_permits (played draining).2) = 1%nat /\
  exists w' w2, run (played draining).2 [Dropped 2] w' /\ step w' Drained w2 /\ sy_guard w2 = Some Owned.
Proof.
  split; [vm_compute; reflexivity|]. destruct drained_out as (w' & Hr & Hp). exists w'.
  destruct (transition_waits_only_for_permits _ _ _ _ _ (played_run draining)
              ltac:(vm_compute; reflexivity) Hr) as [Hx|(_ & _ & Hx)].
  - intros Hin. apply list_elem_of_singleton in Hin. discriminate Hin.
  - congruence.
  - destruct (Hx ltac:(vm_compute; reflexivity)) as (w2 & H1 & H2).
    exists w2. exact (conj Hr (conj H1 H2)).
Defined.
