(* ===== verification/Peer.v ===== *)
(** One paired device ([copypaste-p2p/src/peers/peer.rs]) and the paired-device
    error set ([peers/error.rs]). *)

From S2P Require Import Prelude Bytes Wire Net.

Inductive PeerStoreError :=
| Io | Corrupt | EncryptFailed | Invalid (what : string)
| Revoked | AlreadyPaired | TooManyPairings | TooManyRevocations | Contended | Poisoned.
#[export] Instance PeerStoreError_eq_dec : EqDecision PeerStoreError.
Proof. solve_decision. Defined.

Definition MAX_PAIRINGS : Z := 16.
Definition MAX_REVOCATIONS : Z := 4096.
#[global] Arguments MAX_PAIRINGS : simpl never.
#[global] Arguments MAX_REVOCATIONS : simpl never.

(** A 32-byte key. *)
Definition key := bytes.
Definition zero_key : key := replicate 32 (byte_of 0).
Definition MAX_PAIRING_ID_LEN : Z := 128.

Module Peer.
Record t := {
  pairing_id : string;
  device_id : option string;
  name : string;
  psk : key;
  last_addr : option SocketAddr;
  last_seen_ms : Z;
  profile : option DeviceProfile;
  profile_observed_at_ms : Z;
}.
#[global] Instance eq_dec : EqDecision t.
Proof. solve_decision. Defined.
End Peer.

(** [Peer::psk_matches]: constant-time equality of the key bytes. *)
Definition psk_matches (p : Peer.t) (candidate : key) : bool :=
  bool_decide (Peer.psk p = candidate).

Definition validate_pairing_id (id : string) : result PeerStoreError unit :=
  if String.eqb id "" then Err (Invalid "pairing id is empty")
  else if str_len id >? MAX_PAIRING_ID_LEN
  then Err (Invalid "pairing id is implausibly long") else Ok tt.

Definition peer_validate (p : Peer.t) : result PeerStoreError unit :=
  _ ← validate_pairing_id (Peer.pairing_id p);
  if match Peer.device_id p with
     | Some d => String.eqb d "" || (str_len d >? MAX_ID_BYTES)
     | None => false
     end then Err (Invalid "device id is invalid") else
  if psk_matches p zero_key then Err (Invalid "pre-shared key is all zeroes") else
  match Peer.profile p with
  | Some prof =>
    if Peer.profile_observed_at_ms p <=? 0
    then Err (Invalid "device profile is missing its local observation time")
    else map_err (fun _ => Invalid "device profile is invalid") (validate_device_profile prof)
  | None => Ok tt
  end.
