(* ===== verification/Group.v ===== *)
(** Personal device membership ([copypaste-p2p/src/group.rs]): signed rosters,
    admission generations and their merge. *)

From S2P Require Import Prelude Bytes Wire Net Peer.

(** ** Data *)

Definition MAX_GROUP_BYTES : Z := 768 * 1024.
Definition GROUP_PAIRING_PREFIX : string := "group-".
Definition MAX_DISCOVERY_PAIRING_ID_LEN : Z := 64.
Definition DOMAIN : bytes := as_bytes "copypaste/group/v1/".
#[global] Arguments MAX_GROUP_BYTES : simpl never.

Definition invalid : PeerStoreError := Invalid "invalid device group".

(** Membership generations certified by one bilateral SAS credential. *)
Record PairAdmissions := { pa_local : Z; pa_remote : Z }.
#[export] Instance PairAdmissions_eq_dec : EqDecision PairAdmissions.
Proof. solve_decision. Defined.
Definition no_admissions : PairAdmissions := {| pa_local := 0; pa_remote := 0 |}.

Definition agree (mine theirs : PairAdmissions) : result PeerStoreError PairAdmissions :=
  next_local ← ok_or invalid (u64_checked_succ (pa_local mine));
  if pa_remote theirs >? next_local then Err invalid else
  let agreed := {| pa_local := Z.max (pa_local mine) (pa_remote theirs);
                   pa_remote := Z.max (pa_remote mine) (pa_local theirs) |} in
  if (pa_local agreed =? u64_max) || (pa_remote agreed =? u64_max)
  then Err invalid else Ok agreed.

Record Identity := { signing : key; exchange : key }.

Record Member := {
  device_id : string;
  name : string;
  signing_key : key;
  exchange_key : key;
  admission : Z;
  revision : Z;
  profile : DeviceProfile;
  listen_addr : option SocketAddr;
}.
#[export] Instance Identity_eq_dec : EqDecision Identity.
Proof. solve_decision. Defined.
#[export] Instance Member_eq_dec : EqDecision Member.
Proof. solve_decision. Defined.

Definition with_admission (m : Member) (a : Z) : Member :=
  {| device_id := device_id m; name := name m; signing_key := signing_key m;
     exchange_key := exchange_key m; admission := a; revision := revision m;
     profile := profile m; listen_addr := listen_addr m |}.

Record Roster := {
  issuer : string;
  members : gmap string Member;
  removed : gmap string Z;
}.
#[export] Instance Roster_eq_dec : EqDecision Roster.
Proof. solve_decision. Defined.

Record GroupSnapshot := { roster : Roster; signature : string }.
#[export] Instance GroupSnapshot_eq_dec : EqDecision GroupSnapshot.
Proof. solve_decision. Defined.

Record GroupState := { identity : Identity; state_roster : Roster }.
#[export] Instance GroupState_eq_dec : EqDecision GroupState.
Proof. solve_decision. Defined.

Definition with_roster (st : GroupState) (r : Roster) : GroupState :=
  {| identity := identity st; state_roster := r |}.
Definition with_members (r : Roster) (m : gmap string Member) : Roster :=
  {| issuer := issuer r; members := m; removed := removed r |}.
Definition with_removed (r : Roster) (m : gmap string Z) : Roster :=
  {| issuer := issuer r; members := members r; removed := m |}.

(** Library code: Ed25519, X25519, HKDF, hex, base32, SHA-256 and serde's JSON
    spellings of a roster, a snapshot and a key-derivation context. *)
Class GroupCrypto := {
  verifying_key : key -> key;
  exchange_public : key -> key;
  sign : key -> bytes -> bytes;
  valid_verifying_key : key -> bool;
  verify_strict : key -> bytes -> bytes -> bool;
  hex_bytes : bytes -> string;
  hex_decode : string -> option bytes;
  json_roster : Roster -> option bytes;
  json_snapshot : GroupSnapshot -> option string;
  parse_snapshot : string -> option GroupSnapshot;
  diffie_hellman : key -> key -> option bytes;
  json_pair_context : string -> list (string * key * Z) -> option bytes;
  json_channel_context : string -> list (string * key) -> option bytes;
  hkdf_expand : bytes -> bytes -> option key;
  group_sha256 : bytes -> bytes;
  base32_nopad : bytes -> string;
}.

Definition id_byte (b : byte) : bool :=
  is_ascii_alphanumeric b || (byte_val b =? 45) || (byte_val b =? 95).

Definition validate_id (id : string) : result PeerStoreError unit :=
  if String.eqb id "" || (str_len id >? MAX_ID_BYTES)
     || negb (forallb id_byte (as_bytes id))
  then Err invalid else Ok tt.

(** [discovery::is_valid_pairing_id]. *)
Definition is_valid_pairing_id (s : string) : bool :=
  negb (String.eqb s "") && (str_len s <=? MAX_DISCOVERY_PAIRING_ID_LEN)
  && forallb id_byte (as_bytes s).

(** ** Queries *)

Definition is_active (r : Roster) (id : string) : bool :=
  match members r !! id with
  | Some m => match removed r !! id with
              | None => true
              | Some g => admission m >? g
              end
  | None => false
  end.

Definition active (st : GroupState) : bool :=
  is_active (state_roster st) (issuer (state_roster st)).

Definition removed_device (st : GroupState) (id : string) : bool :=
  contains_key (removed (state_roster st)) id && negb (is_active (state_roster st) id).

Definition desired_admission (st : GroupState) (id : string) : result PeerStoreError Z :=
  let r := state_roster st in
  let current := match members r !! id with Some m => admission m | None => 0 end in
  match removed r !! id with
  | Some g => if current <=? g then ok_or invalid (u64_checked_succ g) else Ok current
  | None => Ok current
  end.

Definition local_admission (st : GroupState) : result PeerStoreError Z :=
  desired_admission st (issuer (state_roster st)).

Definition own_member (st : GroupState) : result PeerStoreError Member :=
  ok_or invalid (members (state_roster st) !! issuer (state_roster st)).

Definition check_local_admission (st : GroupState) (a : Z) : result PeerStoreError unit :=
  me ← own_member st;
  required ← local_admission st;
  if a <? required then Err Revoked
  else if a =? u64_max then Err Revoked
  else next ← ok_or invalid (u64_checked_succ (admission me));
       if a >? next then Err Revoked else Ok tt.

Definition certify_local (st : GroupState) (a : Z) : result PeerStoreError GroupState :=
  _ ← check_local_admission st a;
  me ← own_member st;
  let r := state_roster st in
  Ok (with_roster st (with_members r (<[issuer r := with_admission me a]> (members r)))).

Definition pair_admissions (st : GroupState) (id : string) : result PeerStoreError PairAdmissions :=
  me ← own_member st;
  peer ← ok_or invalid (members (state_roster st) !! id);
  Ok {| pa_local := admission me; pa_remote := admission peer |}.

Definition local_matches (st : GroupState) (id name_ : string) (p : DeviceProfile)
    (addr : option SocketAddr) : bool :=
  String.eqb id (issuer (state_roster st))
  && match members (state_roster st) !! id with
     | Some m => String.eqb (name m) name_ && bool_decide (profile m = p)
                 && bool_decide (listen_addr m = addr)
     | None => false
     end.

Definition member_changed (st : GroupState) (previous : option GroupState) (id : string) : bool :=
  bool_decide (members (state_roster st) !! id <>
               (g ← previous; members (state_roster g) !! id)).

Section Crypto.
Context `{GroupCrypto}.

Definition identity_tag (st : GroupState) (device : option string) : option string :=
  let id := match device with Some d => d | None => issuer (state_roster st) end in
  if is_active (state_roster st) id then
    (fun m => hex_bytes (group_sha256 (exchange_key m))) <$> members (state_roster st) !! id
  else None.

Definition signed_bytes (r : Roster) : result PeerStoreError bytes :=
  json ← ok_or invalid (json_roster r);
  let b := DOMAIN ++ json in
  if len b >? MAX_GROUP_BYTES then Err invalid else Ok b.

(** ** Snapshots *)

Definition validate_member (entry : string * Member) : result PeerStoreError unit :=
  let '(id, m) := entry in
  _ ← validate_id id;
  if negb (String.eqb id (device_id m)) || (str_len (name m) >? MAX_DEVICE_NAME_BYTES)
     || bool_decide (exchange_key m = zero_key) || (admission m =? u64_max)
  then Err invalid else
  _ ← map_err (fun _ => invalid) (validate_device_profile (profile m));
  match listen_addr m with
  | Some a => if negb (is_dialable a) then Err invalid else Ok tt
  | None => Ok tt
  end.

Definition validate_removed (entry : string * Z) : result PeerStoreError unit :=
  _ ← validate_id entry.1;
  if entry.2 =? u64_max then Err invalid else Ok tt.

(** [GroupSnapshot::validate]. *)
Definition snapshot_validate (s : GroupSnapshot) : result PeerStoreError unit :=
  let r := roster s in
  if bool_decide (members r = ∅) || (map_len (members r) >? MAX_PAIRINGS + 1)
     || (map_len (removed r) >? MAX_REVOCATIONS) || negb (str_len (signature s) =? 128)
  then Err invalid else
  _ ← each validate_member (btree_iter (members r));
  _ ← each validate_removed (btree_iter (removed r));
  who ← ok_or invalid (members r !! issuer r);
  sig ← ok_or invalid (hex_decode (signature s));
  if negb (valid_verifying_key (signing_key who)) then Err invalid else
  body ← signed_bytes r;
  if negb (len sig =? 64) then Err invalid else
  if verify_strict (signing_key who) body sig then Ok tt else Err invalid.

Definition snapshot_encode (s : GroupSnapshot) : result PeerStoreError string :=
  json ← ok_or invalid (json_snapshot s);
  if str_len json >? MAX_GROUP_BYTES then Err invalid else Ok json.

Definition snapshot_decode (json : string) : result PeerStoreError GroupSnapshot :=
  if str_len json >? MAX_GROUP_BYTES then Err invalid else
  s ← ok_or invalid (parse_snapshot json);
  _ ← snapshot_validate s;
  Ok s.

(** [GroupState::snapshot]: the issuer and the active members, signed. *)
Definition snapshot (st : GroupState) : result PeerStoreError GroupSnapshot :=
  let r0 := state_roster st in
  let r := with_members r0
    (map_retain (fun id _ => String.eqb id (issuer r0) || is_active r0 id) (members r0)) in
  body ← signed_bytes r;
  Ok {| roster := r; signature := hex_bytes (sign (signing (identity st)) body) |}.

(** [GroupState::validate]. *)
Definition validate (st : GroupState) : result PeerStoreError unit :=
  me ← own_member st;
  if negb (bool_decide (signing_key me = verifying_key (signing (identity st))))
     || negb (bool_decide (exchange_key me = exchange_public (exchange (identity st))))
  then Err invalid else
  s ← snapshot st;
  snapshot_validate s.

(** [GroupState::new], with the identity the random source produced. *)
Definition new (random : Identity) (id name_ : string) (p : DeviceProfile)
    (addr : option SocketAddr) : result PeerStoreError GroupState :=
  _ ← validate_id id;
  let m := {| device_id := id; name := name_; signing_key := verifying_key (signing random);
              exchange_key := exchange_public (exchange random); admission := 0;
              revision := 0; profile := p; listen_addr := addr |} in
  let st := {| identity := random;
               state_roster := {| issuer := id; members := {[id := m]}; removed := ∅ |} |} in
  s ← snapshot st;
  _ ← snapshot_validate s;
  Ok st.

Definition update_local (st : GroupState) (id name_ : string) (p : DeviceProfile)
    (addr : option SocketAddr) : result PeerStoreError (bool * GroupState) :=
  let r := state_roster st in
  if negb (String.eqb id (issuer r)) then Err invalid else
  m ← ok_or invalid (members r !! id);
  if String.eqb (name m) name_ && bool_decide (profile m = p) && bool_decide (listen_addr m = addr)
  then Ok (false, st) else
  rev ← ok_or invalid (u64_checked_succ (revision m));
  let m' := {| device_id := device_id m; name := name_; signing_key := signing_key m;
               exchange_key := exchange_key m; admission := admission m; revision := rev;
               profile := p; listen_addr := addr |} in
  Ok (true, with_roster st (with_members r (<[id := m']> (members r)))).

(** ** Merging a snapshot *)

Fixpoint merge_removed (entries : list (string * Z)) (rem : gmap string Z)
    : result PeerStoreError (gmap string Z) :=
  match entries with
  | [] => Ok rem
  | (id, g) :: rest =>
    if negb (contains_key rem id) && (map_len rem >=? MAX_REVOCATIONS)
    then Err TooManyRevocations
    else merge_removed rest
           (<[id := match rem !! id with Some slot => Z.max slot g | None => g end]> rem)
  end.

Definition same_keys (a b : Member) : bool :=
  bool_decide (signing_key a = signing_key b) && bool_decide (exchange_key a = exchange_key b).

Definition at_least (old m : Member) : bool :=
  (admission old >? admission m)
  || ((admission old =? admission m) && (revision old >=? revision m)).

Definition merge_member (own remote_issuer : string) (rem : gmap string Z)
    (ms : gmap string Member) (entry : string * Member) : result PeerStoreError (gmap string Member) :=
  let '(id, m) := entry in
  if String.eqb id own then
    local ← ok_or invalid (ms !! id);
    if negb (same_keys local m) then Err invalid
    else Ok (<[id := with_admission local (Z.max (admission local) (admission m))]> ms)
  else if match rem !! id with Some g => admission m <=? g | None => false end then Ok ms
  else match ms !! id with
       | Some old =>
         if negb (same_keys old m) then
           if (admission m <=? admission old) || String.eqb id remote_issuer
           then Err invalid else Ok (<[id := m]> ms)
         else if at_least old m then Ok ms else Ok (<[id := m]> ms)
       | None => Ok (<[id := m]> ms)
       end.

Fixpoint merge_members (own remote_issuer : string) (rem : gmap string Z)
    (entries : list (string * Member)) (ms : gmap string Member)
    : result PeerStoreError (gmap string Member) :=
  match entries with
  | [] => Ok ms
  | e :: rest =>
    ms' ← merge_member own remote_issuer rem ms e;
    merge_members own remote_issuer rem rest ms'
  end.

(** One step of the explicit-admission loop: the confirmed device is stored,
    past any removal of it. *)
Definition admit_one (rem : gmap string Z) (id : string) (m : Member) (ms : gmap string Member)
    : result PeerStoreError (gmap string Member) :=
  m' ← match rem !! id with
       | Some g => next ← ok_or invalid (u64_checked_succ g);
                   Ok (with_admission m (Z.max (admission m) next))
       | None => Ok m
       end;
  Ok (<[id := m']> ms).

Definition merge_explicit (own remote_issuer : string) (who : Member) (rem : gmap string Z)
    (ms : gmap string Member) : result PeerStoreError (gmap string Member) :=
  me ← ok_or invalid (if String.eqb own remote_issuer then Some who else ms !! own);
  ms ← admit_one rem own me ms;
  admit_one rem remote_issuer who ms.

Definition still_member (own : string) (rem : gmap string Z) (id : string) (m : Member) : bool :=
  String.eqb id own
  || match rem !! id with None => true | Some g => admission m >? g end.

(** The three parts of [GroupState::merge] after its entry checks: the
    retained members of the merged roster. *)
Definition settle (own : string) (rem : gmap string Z) (ms : gmap string Member)
    : gmap string Member :=
  let kept := map_retain (still_member own rem) ms in
  if is_active {| issuer := own; members := kept; removed := rem |} own then kept
  else map_retain (fun id _ => String.eqb id own) kept.

Definition exceeds (o : option Z) (limit : Z) : bool :=
  match o with Some a => a >? limit | None => false end.

Definition merge (st : GroupState) (incoming : GroupSnapshot) (explicit_admission : bool)
    : result PeerStoreError (bool * GroupState) :=
  _ ← snapshot_validate incoming;
  let remote := roster incoming in
  let mine := state_roster st in
  who ← ok_or invalid (members remote !! issuer remote);
  if String.eqb (issuer remote) (issuer mine) then Ok (false, st) else
  if match members mine !! issuer remote with
     | Some known => negb (same_keys known who)
     | None => false
     end then Err invalid else
  let covered (o : option Z) := match o with Some g => admission who <=? g | None => false end in
  if negb explicit_admission
     && (removed_device st (issuer remote)
         || covered (removed remote !! issuer remote)
         || covered (removed mine !! issuer remote))
  then Err Revoked else
  me ← own_member st;
  if exceeds (admission <$> members remote !! issuer mine) (admission me)
     || exceeds (removed remote !! issuer mine) (admission me)
  then Err invalid else
  rem ← merge_removed (btree_iter (removed remote)) (removed mine);
  ms ← merge_members (issuer mine) (issuer remote) rem (btree_iter (members remote)) (members mine);
  ms ← (if explicit_admission
        then merge_explicit (issuer mine) (issuer remote) who rem ms else Ok ms);
  let ms := settle (issuer mine) rem ms in
  if map_len ms >? MAX_PAIRINGS + 1 then Err TooManyPairings else
  let st' := with_roster st {| issuer := issuer mine; members := ms; removed := rem |} in
  if bool_decide (mine = state_roster st') then Ok (false, st')
  else _ ← validate st'; Ok (true, st').

(** ** Removing a device *)

Definition remove (st : GroupState) (id : string) : result PeerStoreError (bool * GroupState) :=
  _ ← validate_id id;
  let r := state_roster st in
  let generation := match members r !! id with Some m => admission m | None => 0 end in
  if match removed r !! id with Some old => old >=? generation | None => false end
  then Ok (false, st) else
  if (map_len (removed r) >=? MAX_REVOCATIONS) && negb (contains_key (removed r) id)
  then Err TooManyRevocations else
  let ms := if String.eqb id (issuer r) then members r else delete id (members r) in
  Ok (true, with_roster st {| issuer := issuer r; members := ms;
                              removed := <[id := generation]> (removed r) |}).

(** ** Keys derived from membership *)

(** [[me, peer].sort_by(device_id)]: a stable sort of two elements. *)
Definition endpoints (me peer : Member) : list Member :=
  match str_cmp (device_id peer) (device_id me) with
  | Lt => [peer; me]
  | _ => [me; peer]
  end.

Definition metadata_key (st : GroupState) (id : string) : result PeerStoreError key :=
  let r := state_roster st in
  if negb (active st) || negb (is_active r id) || String.eqb id (issuer r) then Err Revoked else
  me ← own_member st;
  peer ← ok_or invalid (members r !! id);
  shared ← ok_or invalid (diffie_hellman (exchange (identity st)) (exchange_key peer));
  context ← ok_or invalid (json_channel_context "copypaste/group/membership-channel/v1"
    ((fun m => (device_id m, exchange_key m)) <$> endpoints me peer));
  ok_or invalid (hkdf_expand shared context).

Definition derive_peer (st : GroupState) (me m : Member) : result PeerStoreError Peer.t :=
  shared ← ok_or invalid (diffie_hellman (exchange (identity st)) (exchange_key m));
  context ← ok_or invalid (json_pair_context "copypaste/group/pair/v1"
    ((fun e => (device_id e, exchange_key e, admission e)) <$> endpoints me m));
  psk ← ok_or invalid (hkdf_expand shared context);
  let pairing_id := (GROUP_PAIRING_PREFIX ++ base32_nopad (group_sha256 context))%string in
  if negb (is_valid_pairing_id pairing_id) then Err invalid else
  Ok {| Peer.pairing_id := pairing_id; Peer.device_id := Some (device_id m);
        Peer.name := name m; Peer.psk := psk; Peer.last_addr := listen_addr m;
        Peer.last_seen_ms := 0; Peer.profile := None; Peer.profile_observed_at_ms := 0 |}.

Fixpoint collect {E A B} (f : A -> result E B) (l : list A) : result E (list B) :=
  match l with
  | [] => Ok []
  | x :: l' => y ← f x; ys ← collect f l'; Ok (y :: ys)
  end.

(** [GroupState::peers]. *)
Definition peers (st : GroupState) : result PeerStoreError (list Peer.t) :=
  if negb (active st) then Ok [] else
  me ← own_member st;
  let r := state_roster st in
  collect (derive_peer st me)
    (List.filter (fun m => negb (String.eqb (device_id m) (device_id me)) && is_active r (device_id m))
       (snd <$> btree_iter (members r))).

End Crypto.

(** ** The roster invariant and the removal order *)

(** Every roster holds its own device, and of the others only devices whose
    admission is newer than any removal of them. *)
Definition wf (r : Roster) : Prop :=
  is_Some (members r !! issuer r) /\
  forall id m, members r !! id = Some m -> id <> issuer r -> is_active r id = true.

(** Removal evidence only grows: [rem'] covers every removal of [rem]. *)
Definition covers (rem rem' : gmap string Z) : Prop :=
  forall id g, rem !! id = Some g -> exists g', rem' !! id = Some g' /\ g <= g'.

#[export] Instance covers_preorder : PreOrder covers.
Proof.
  split; [intros r id g; exists g; split; [done|lia]|].
  intros a b c Hab Hbc id g Hg. destruct (Hab _ _ Hg) as (g' & Hg' & ?).
  destruct (Hbc _ _ Hg') as (g'' & ? & ?). exists g''. split; [done|lia].
Qed.

Lemma covers_insert_max rem id g :
  covers rem (<[id := match rem !! id with Some slot => Z.max slot g | None => g end]> rem).
Proof.
  intros k h Hk. destruct (decide (k = id)) as [->|Hne].
  - rewrite lookup_insert_eq, Hk. eexists; split; [done|lia].
  - rewrite lookup_insert_ne by done. exists h. split; [done|lia].
Qed.

Lemma merge_removed_covers l rem rem' :
  merge_removed l rem = Ok rem' ->
  covers rem rem' /\ Forall (fun e => exists g', rem' !! e.1 = Some g' /\ e.2 <= g') l.
Proof.
  revert rem; induction l as [|[id g] l IH]; intros rem; cbn.
  - intros [= <-]. split; [reflexivity|constructor].
  - case_match; [done|]. intros Hm. destruct (IH _ Hm) as [Hc Hf]. split.
    + etransitivity; [apply (covers_insert_max rem id g)|done].
    + constructor; [|done]. cbn.
      destruct (Hc id (match rem !! id with Some slot => Z.max slot g | None => g end)) as (g' & ? & ?);
        [apply lookup_insert_eq|].
      exists g'. split; [done|]. destruct (rem !! id); lia.
Qed.

(** Where a merged removal comes from: it was known, or the snapshot has it. *)
Lemma merge_removed_source l rem rem' id g :
  merge_removed l rem = Ok rem' -> rem' !! id = Some g ->
  rem !! id = Some g \/ (id, g) ∈ l.
Proof.
  revert rem; induction l as [|[k h] l IH]; intros rem; cbn.
  - intros [= <-]; auto.
  - case_match; [done|]. intros Hm Hg. destruct (IH _ Hm Hg) as [Hi|Hi]; [|by right; right].
    destruct (decide (id = k)) as [->|Hne].
    + rewrite lookup_insert_eq in Hi. destruct (rem !! k) as [slot|] eqn:E.
      * destruct (Z.max_spec slot h) as [[_ Heq]|[_ Heq]]; rewrite Heq in Hi;
          injection Hi as <-; [right; left|left]; done.
      * injection Hi as <-. right; left.
    + rewrite lookup_insert_ne in Hi by done. by left.
Qed.

Lemma settle_lookup own rem ms id m :
  settle own rem ms !! id = Some m ->
  ms !! id = Some m /\ (id = own \/ still_member own rem id m = true).
Proof.
  unfold settle. case_match.
  - rewrite map_retain_some. naive_solver.
  - rewrite !map_retain_some. naive_solver.
Qed.

Lemma settle_own own rem ms : settle own rem ms !! own = ms !! own.
Proof.
  assert (Hk : map_retain (still_member own rem) ms !! own = ms !! own).
  { destruct (ms !! own) as [m|] eqn:E.
    - apply map_retain_some. split; [done|]. unfold still_member. by rewrite String.eqb_refl.
    - apply map_retain_none. naive_solver. }
  unfold settle. case_match; [done|].
  destruct (ms !! own) as [m|] eqn:E.
  - apply map_retain_some. split; [done|apply String.eqb_refl].
  - apply map_retain_none. intros v. by rewrite Hk.
Qed.

Lemma settle_wf own rem ms :
  is_Some (ms !! own) ->
  wf {| issuer := own; members := settle own rem ms; removed := rem |}.
Proof.
  intros Hown. split; cbn; [by rewrite settle_own|].
  intros id m Hm Hne. unfold is_active; cbn. rewrite Hm.
  apply settle_lookup in Hm as [_ [?|Hs]]; [done|].
  unfold still_member in Hs. apply orb_true_iff in Hs as [Hs|Hs]; [|done].
  by apply String.eqb_eq in Hs.
Qed.

(** ** What one member step does *)

Lemma merge_member_own own ri rem ms e ms' :
  merge_member own ri rem ms e = Ok ms' ->
  forall me, ms !! own = Some me ->
  exists a, ms' !! own = Some (with_admission me a) /\
            (a = admission me \/ (e.1 = own /\ a = Z.max (admission me) (admission e.2))).
Proof.
  destruct e as [id m]; unfold merge_member; cbn. intros Hm me Hme.
  assert (Hsame : exists a, Some me = Some (with_admission me a) /\
    (a = admission me \/ (id = own /\ a = Z.max (admission me) (admission m)))).
  { exists (admission me). split; [by destruct me|by left]. }
  destruct (String.eqb_spec id own) as [->|Hne].
  - rewrite Hme in Hm; cbn in Hm. case_match; [done|]. injection Hm as <-.
    eexists. split; [apply lookup_insert_eq|by right].
  - repeat case_match; simplify_eq; rewrite ?lookup_insert_ne by done; by rewrite Hme.
Qed.

Lemma merge_members_own own ri rem l ms ms' me :
  merge_members own ri rem l ms = Ok ms' -> ms !! own = Some me ->
  exists a, ms' !! own = Some (with_admission me a) /\
            (a = admission me \/ exists m, (own, m) ∈ l /\ a <= Z.max (admission me) (admission m)).
Proof.
  revert ms me; induction l as [|e l IH]; intros ms me; cbn.
  - intros [= <-] H. exists (admission me). split; [by destruct me|by left].
  - intros Hb Hme. apply bind_ok in Hb as (ms1 & H1 & H2).
    destruct (merge_member_own _ _ _ _ _ _ H1 _ Hme) as (a & Ha & Hor).
    destruct (IH _ _ H2 Ha) as (a' & Ha' & Hor'). exists a'. split; [done|].
    cbn in Hor'. destruct e as [id m]; cbn in *.
    destruct Hor as [->|[-> ->]], Hor' as [->|(m' & Hin & Hle)].
    + by left.
    + right. exists m'. split; [by right|done].
    + right. exists m. split; [left|lia].
    + right. destruct (Z.le_ge_cases (admission m) (admission m')).
      * exists m'. split; [by right|lia].
      * exists m. split; [left|lia].
Qed.

(** A change of key is certified by another member, for a newer admission. *)
Definition keys_step (ri : string) (id : string) (old m : Member) : Prop :=
  same_keys old m = true \/ (admission old < admission m /\ id <> ri).

Lemma same_keys_true a b :
  same_keys a b = true <-> signing_key a = signing_key b /\ exchange_key a = exchange_key b.
Proof. unfold same_keys. by rewrite andb_true_iff, !bool_decide_eq_true. Qed.

Lemma merge_member_keys own ri rem ms e ms' id old :
  merge_member own ri rem ms e = Ok ms' -> ms !! id = Some old ->
  exists m, ms' !! id = Some m /\ keys_step ri id old m /\ admission old <= admission m.
Proof.
  destruct e as [k m]; unfold merge_member; intros Hm Hold.
  assert (Hkeep : exists m, Some old = Some m /\ keys_step ri id old m /\ admission old <= admission m).
  { exists old. split_and!; [done|left; by apply same_keys_true|lia]. }
  destruct (decide (id = k)) as [->|Hne].
  - rewrite Hold in Hm; cbn in Hm. destruct (String.eqb k own).
    + case_match; [done|]. injection Hm as <-. eexists. split; [apply lookup_insert_eq|].
      split; [left; by apply same_keys_true|cbn; lia].
    + case_match; [by injection Hm as <-; rewrite Hold|].
      destruct (same_keys old m) eqn:Es; cbn in Hm.
      * unfold at_least in Hm. case_match eqn:Ea; injection Hm as <-; [by rewrite Hold|].
        eexists. split; [apply lookup_insert_eq|]. split; [by left|].
        apply orb_false_iff in Ea as [? _]. lia.
      * case_match eqn:Ea; [done|]. injection Hm as <-. apply orb_false_iff in Ea as [Ea Eb].
        apply String.eqb_neq in Eb. eexists. split; [apply lookup_insert_eq|].
        split; [right; split; [lia|done]|lia].
  - assert (ms' = ms \/ exists v, ms' = <[k := v]> ms) as [->|[v ->]].
    { destruct (String.eqb k own); [apply bind_ok in Hm as (? & ? & Hm)|];
        repeat case_match; simplify_eq; eauto. }
    + by rewrite Hold.
    + rewrite lookup_insert_ne by done. by rewrite Hold.
Qed.

Lemma keys_step_trans ri id a b c :
  keys_step ri id a b -> admission a <= admission b ->
  keys_step ri id b c -> admission b <= admission c ->
  keys_step ri id a c.
Proof.
  unfold keys_step. rewrite !same_keys_true. intros [[]|[]] ? [[]|[]] ?.
  - left; split; congruence.
  - right; split; [lia|done].
  - right; split; [lia|done].
  - right; split; [lia|done].
Qed.

Lemma merge_members_keys own ri rem l ms ms' id old :
  merge_members own ri rem l ms = Ok ms' -> ms !! id = Some old ->
  exists m, ms' !! id = Some m /\ keys_step ri id old m /\ admission old <= admission m.
Proof.
  revert ms old; induction l as [|e l IH]; intros ms old; cbn.
  - intros [= <-] H. exists old. split_and!; [done|left; by apply same_keys_true|lia].
  - intros Hb Hold. apply bind_ok in Hb as (ms1 & H1 & H2).
    destruct (merge_member_keys _ _ _ _ _ _ _ _ H1 Hold) as (m1 & Hm1 & Hk1 & Ha1).
    destruct (IH _ _ H2 Hm1) as (m2 & Hm2 & Hk2 & Ha2).
    exists m2. split_and!; [done|by eapply keys_step_trans|lia].
Qed.

Section Merge.
Context `{GroupCrypto}.

(** What a merge that returned has checked and built. *)
Record merged (st : GroupState) (s : GroupSnapshot) (explicit : bool) (st' : GroupState)
    (who me : Member) (rem : gmap string Z) (ms ms' : gmap string Member) : Prop := {
  mg_valid : snapshot_validate s = Ok tt;
  mg_who : members (roster s) !! issuer (roster s) = Some who;
  mg_other : issuer (roster s) <> issuer (state_roster st);
  mg_known : forall known, members (state_roster st) !! issuer (roster s) = Some known ->
             same_keys known who = true;
  mg_admitted : explicit = false -> removed_device st (issuer (roster s)) = false /\
    (forall g, removed (state_roster st) !! issuer (roster s) = Some g -> g < admission who);
  mg_me : members (state_roster st) !! issuer (state_roster st) = Some me;
  mg_own_admission : forall m, members (roster s) !! issuer (state_roster st) = Some m ->
    admission m <= admission me;
  mg_own_removal : forall g, removed (roster s) !! issuer (state_roster st) = Some g ->
    g <= admission me;
  mg_rem : merge_removed (btree_iter (removed (roster s))) (removed (state_roster st)) = Ok rem;
  mg_ms : merge_members (issuer (state_roster st)) (issuer (roster s)) rem
            (btree_iter (members (roster s))) (members (state_roster st)) = Ok ms;
  mg_ms' : (if explicit then merge_explicit (issuer (state_roster st)) (issuer (roster s)) who rem ms
            else Ok ms) = Ok ms';
  mg_result : st' = with_roster st {| issuer := issuer (state_roster st);
     members := settle (issuer (state_roster st)) rem ms'; removed := rem |};
  mg_bound : map_len (settle (issuer (state_roster st)) rem ms') <= MAX_PAIRINGS + 1;
}.

Lemma merge_inv st s explicit c st' :
  merge st s explicit = Ok (c, st') ->
  (st' = st /\ c = false /\ issuer (roster s) = issuer (state_roster st)) \/
  exists who me rem ms ms', merged st s explicit st' who me rem ms ms'.
Proof.
  unfold merge. rewrite bind_ok. intros ([] & Hv & Hm).
  rewrite bind_ok in Hm. destruct Hm as (who & Hwho & Hm). rewrite ok_or_ok in Hwho.
  destruct (String.eqb_spec (issuer (roster s)) (issuer (state_roster st))) as [He|He];
    [injection Hm as <- <-; by left|right].
  destruct (match members (state_roster st) !! _ with Some _ => _ | None => _ end) eqn:Hk; [done|].
  destruct (negb explicit && _) eqn:Hx; [done|].
  rewrite bind_ok in Hm. destruct Hm as (me & Hme & Hm). unfold own_member in Hme. rewrite ok_or_ok in Hme.
  destruct (exceeds _ _ || _) eqn:Hex; [done|]. apply orb_false_iff in Hex as [Hex1 Hex2].
  rewrite bind_ok in Hm. destruct Hm as (rem & Hrem & Hm).
  rewrite bind_ok in Hm. destruct Hm as (ms & Hms & Hm).
  rewrite bind_ok in Hm. destruct Hm as (ms' & Hms' & Hm).
  destruct (Z.gtb_spec (map_len (settle (issuer (state_roster st)) rem ms')) (MAX_PAIRINGS + 1)); [done|].
  exists who, me, rem, ms, ms'.
  constructor; try done.
  - intros known Hkn. rewrite Hkn in Hk. by apply negb_false_iff in Hk.
  - intros ->. cbn in Hx. apply orb_false_iff in Hx as [Hx Hx3]. apply orb_false_iff in Hx as [Hx1 Hx2].
    split; [done|]. intros g Hg. rewrite Hg in Hx3. lia.
  - intros m Hmm. rewrite Hmm in Hex1. cbn in Hex1. lia.
  - intros g Hg. rewrite Hg in Hex2. cbn in Hex2. lia.
  - case_match; [by injection Hm as <- <-|]. rewrite bind_ok in Hm. by destruct Hm as (? & _ & [= <- <-]).
Qed.

(** An explicit admission stores the two confirmed devices past any removal. *)
Lemma admit_spec rem id m ms ms' :
  admit_one rem id m ms = Ok ms' ->
  exists a, ms' = <[id := with_admission m a]> ms /\ admission m <= a /\
            (forall g, rem !! id = Some g -> g < a) /\
            (a = admission m \/ exists g, rem !! id = Some g /\ a = Z.max (admission m) (g + 1)).
Proof.
  unfold admit_one. rewrite bind_ok. intros (m' & Hm' & [= <-]).
  destruct (rem !! id) as [g|] eqn:E.
  - rewrite bind_ok in Hm'. destruct Hm' as (n & Hn & [= <-]).
    rewrite ok_or_ok, u64_checked_succ_some in Hn. destruct Hn as [-> _].
    eexists. split_and!; [done|lia|intros ? [= <-]; lia|eauto].
  - injection Hm' as <-. exists (admission m). split_and!; [by destruct m|lia|done|by left].
Qed.

Lemma merge_explicit_spec own ri who rem ms ms' me :
  own <> ri -> ms !! own = Some me -> merge_explicit own ri who rem ms = Ok ms' ->
  exists a b, ms' = <[ri := with_admission who b]> (<[own := with_admission me a]> ms) /\
    admission me <= a /\ admission who <= b /\
    (forall g, rem !! own = Some g -> g < a) /\ (forall g, rem !! ri = Some g -> g < b) /\
    (a = admission me \/ exists g, rem !! own = Some g /\ a = Z.max (admission me) (g + 1)).
Proof.
  intros Hne Hme. unfold merge_explicit.
  destruct (String.eqb_spec own ri); [done|]. rewrite Hme; cbn.
  rewrite bind_ok. intros (ms1 & H1 & H2).
  apply admit_spec in H1 as (a & -> & ? & ? & ?), H2 as (b & -> & ? & ? & _).
  eauto 10.
Qed.

Lemma merged_own st s explicit st' who me rem ms ms' :
  merged st s explicit st' who me rem ms ms' ->
  exists a, ms' !! issuer (state_roster st) = Some (with_admission me a) /\ admission me <= a /\
    (a = admission me \/
     (explicit = true /\ exists g, rem !! issuer (state_roster st) = Some g /\ a = g + 1)).
Proof.
  intros M. destruct (merge_members_own _ _ _ _ _ _ _ (mg_ms _ _ _ _ _ _ _ _ _ M)
    (mg_me _ _ _ _ _ _ _ _ _ M)) as (a & Ha & Hor).
  assert (a = admission me) as ->.
  { destruct (merge_members_keys _ _ _ _ _ _ _ _ (mg_ms _ _ _ _ _ _ _ _ _ M)
      (mg_me _ _ _ _ _ _ _ _ _ M)) as (m & Hm & _ & Hle).
    rewrite Ha in Hm. injection Hm as <-. cbn in Hle.
    destruct Hor as [?|(m & Hin & Hle')]; [done|].
    apply elem_of_btree_iter in Hin. apply (mg_own_admission _ _ _ _ _ _ _ _ _ M) in Hin. lia. }
  pose proof (mg_ms' _ _ _ _ _ _ _ _ _ M) as Hx. destruct explicit.
  - apply merge_explicit_spec with (me := with_admission me (admission me)) in Hx
      as (a & b & -> & Hle & _ & _ & _ & Ha'); [|by apply not_eq_sym, (mg_other _ _ _ _ _ _ _ _ _ M)|done].
    rewrite lookup_insert_ne by exact (mg_other _ _ _ _ _ _ _ _ _ M).
    exists a. rewrite lookup_insert_eq. split; [done|]. cbn in Hle, Ha'. split; [lia|].
    destruct Ha' as [->|(g & Hg & ->)]; [by left|].
    destruct (Z.max_spec (admission me) (g + 1)) as [[_ ->]|[_ ->]]; [right; eauto|by left].
  - injection Hx as <-. exists (admission me). split_and!; [done|lia|by left].
Qed.

Lemma merge_issuer st s b c st' :
  merge st s b = Ok (c, st') ->
  issuer (state_roster st') = issuer (state_roster st) /\ identity st' = identity st.
Proof.
  intros [[-> _]|(? & ? & ? & ? & ? & M)]%merge_inv; [done|].
  by rewrite (mg_result _ _ _ _ _ _ _ _ _ M).
Qed.

(** ** Properties *)

(** Merging any validated snapshot keeps the roster well formed. *)
Lemma merge_preserves_wf st s explicit c st' :
  wf (state_roster st) -> merge st s explicit = Ok (c, st') -> wf (state_roster st').
Proof.
  intros Hwf [[-> _]|(who & me & rem & ms & ms' & M)]%merge_inv; [done|].
  rewrite (mg_result _ _ _ _ _ _ _ _ _ M). apply settle_wf.
  destruct (merged_own _ _ _ _ _ _ _ _ _ M) as (a & Ha & _). eauto.
Qed.

(** Removal is permanent under merging.  No snapshot lowers or drops a
    removal, its own removals are all recorded, and afterwards every other
    member's admission is newer than its recorded removal. *)
Theorem merge_never_unremoves st s explicit c st' :
  wf (state_roster st) -> merge st s explicit = Ok (c, st') ->
  covers (removed (state_roster st)) (removed (state_roster st')) /\
  (c = true -> covers (removed (roster s)) (removed (state_roster st'))) /\
  forall id m g, members (state_roster st') !! id = Some m ->
    id <> issuer (state_roster st') -> removed (state_roster st') !! id = Some g ->
    g < admission m.
Proof.
  intros Hwf Hm. pose proof (merge_preserves_wf _ _ _ _ _ Hwf Hm) as Hwf'. split_and!.
  - apply merge_inv in Hm as [[-> _]|(? & ? & ? & ? & ? & M)]; [reflexivity|].
    rewrite (mg_result _ _ _ _ _ _ _ _ _ M). cbn.
    by destruct (merge_removed_covers _ _ _ (mg_rem _ _ _ _ _ _ _ _ _ M)).
  - intros ->. apply merge_inv in Hm as [(_ & ? & _)|(? & ? & ? & ? & ? & M)]; [done|].
    rewrite (mg_result _ _ _ _ _ _ _ _ _ M). cbn.
    destruct (merge_removed_covers _ _ _ (mg_rem _ _ _ _ _ _ _ _ _ M)) as [_ Hf].
    intros id g Hg. apply elem_of_btree_iter in Hg. rewrite Forall_forall in Hf. by apply (Hf _ Hg).
  - intros id m g Hmem Hne Hg. destruct Hwf' as [_ Hact]. specialize (Hact _ _ Hmem Hne).
    unfold is_active in Hact. rewrite Hmem, Hg in Hact. lia.
Qed.

(** A removed device cannot let itself back in.  Without a fresh SAS
    ceremony a snapshot issued by a device this one has removed is never
    merged, whatever it contains. *)
Theorem removed_issuer_is_refused st s c st' :
  removed_device st (issuer (roster s)) = true ->
  issuer (roster s) <> issuer (state_roster st) ->
  merge st s false <> Ok (c, st').
Proof.
  intros Hr Hne [(_ & _ & ?)|(? & ? & ? & ? & ? & M)]%merge_inv; [done|].
  destruct (mg_admitted _ _ _ _ _ _ _ _ _ M eq_refl) as [? _]. congruence.
Qed.

(** Nobody else moves this device's own identity.  Merging without SAS
    leaves this device's keys and admission exactly as they were; with SAS the
    admission changes only to step past a recorded removal. *)
Theorem own_identity_needs_consent st s explicit c st' me :
  members (state_roster st) !! issuer (state_roster st) = Some me ->
  merge st s explicit = Ok (c, st') ->
  exists a, members (state_roster st') !! issuer (state_roster st) = Some (with_admission me a) /\
    (a = admission me \/
     explicit = true /\ admission me < a /\
     exists g, removed (state_roster st') !! issuer (state_roster st) = Some g /\ a = g + 1).
Proof.
  intros Hme [[-> _]|(who & me' & rem & ms & ms' & M)]%merge_inv.
  { exists (admission me). rewrite Hme. split; [by destruct me|by left]. }
  rewrite (mg_me _ _ _ _ _ _ _ _ _ M) in Hme. injection Hme as ->.
  destruct (merged_own _ _ _ _ _ _ _ _ _ M) as (a & Ha & Hle & Hor).
  exists a. rewrite (mg_result _ _ _ _ _ _ _ _ _ M). cbn. rewrite settle_own.
  split; [done|]. destruct Hor as [?|[? (g & ? & ?)]]; [by left|].
  destruct (Z.eq_dec a (admission me)); [by left|right]. split_and!; [done|lia|eauto].
Qed.

(** Member keys are pinned.  After a merge a known member has either the
    keys it had, or keys for a strictly newer admission certified by a member
    other than itself. *)
Theorem member_keys_are_pinned st s explicit c st' id old m :
  merge st s explicit = Ok (c, st') ->
  members (state_roster st) !! id = Some old ->
  members (state_roster st') !! id = Some m ->
  same_keys old m = true \/ (admission old < admission m /\ id <> issuer (roster s)).
Proof.
  intros [[-> _]|(who & me & rem & ms & ms' & M)]%merge_inv Hold Hm.
  { rewrite Hold in Hm. injection Hm as ->. left. by apply same_keys_true. }
  rewrite (mg_result _ _ _ _ _ _ _ _ _ M) in Hm. cbn in Hm. apply settle_lookup in Hm as [Hm _].
  destruct (merge_members_keys _ _ _ _ _ _ _ _ (mg_ms _ _ _ _ _ _ _ _ _ M) Hold) as (m1 & Hm1 & Hk & _).
  pose proof (mg_ms' _ _ _ _ _ _ _ _ _ M) as Hx. destruct explicit; [|injection Hx as <-; by simplify_eq].
  destruct (merge_members_own _ _ _ _ _ _ _ (mg_ms _ _ _ _ _ _ _ _ _ M)
    (mg_me _ _ _ _ _ _ _ _ _ M)) as (a0 & Ha0 & _).
  eapply merge_explicit_spec in Hx as (a & b & Heq & _);
    [|by apply not_eq_sym, (mg_other _ _ _ _ _ _ _ _ _ M)|exact Ha0].
  rewrite Heq in Hm. clear Heq.
  destruct (decide (id = issuer (roster s))) as [->|Hne].
  - rewrite lookup_insert_eq in Hm. injection Hm as <-.
    pose proof (mg_known _ _ _ _ _ _ _ _ _ M _ Hold) as Hs. left.
    rewrite same_keys_true in *. done.
  - rewrite lookup_insert_ne in Hm by done.
    destruct (decide (id = issuer (state_roster st))) as [->|Hne'].
    + rewrite lookup_insert_eq in Hm. injection Hm as <-. rewrite Ha0 in Hm1. injection Hm1 as <-.
      rewrite (mg_me _ _ _ _ _ _ _ _ _ M) in Hold. injection Hold as ->.
      left. by apply same_keys_true.
    + rewrite lookup_insert_ne in Hm by done. by simplify_eq.
Qed.

(** A confirmed pairing re-admits.  After a merge with SAS consent both
    this device and the snapshot's issuer are active members, even if either
    had been removed before. *)
Theorem explicit_admission_activates st s c st' :
  issuer (roster s) <> issuer (state_roster st) ->
  merge st s true = Ok (c, st') ->
  active st' = true /\ is_active (state_roster st') (issuer (roster s)) = true.
Proof.
  intros Hne [(_ & _ & ?)|(who & me & rem & ms & ms' & M)]%merge_inv; [done|].
  destruct (merge_members_own _ _ _ _ _ _ _ (mg_ms _ _ _ _ _ _ _ _ _ M)
    (mg_me _ _ _ _ _ _ _ _ _ M)) as (a0 & Ha0 & _).
  pose proof (mg_ms' _ _ _ _ _ _ _ _ _ M) as Hx. cbn in Hx.
  eapply merge_explicit_spec in Hx as (a & b & Heq & _ & _ & Ha & Hb & _);
    [|by apply not_eq_sym|exact Ha0].
  rewrite (mg_result _ _ _ _ _ _ _ _ _ M). unfold active; cbn.
  set (own := issuer (state_roster st)) in *. set (ri := issuer (roster s)) in *.
  set (mo := with_admission (with_admission me a0) a) in *.
  set (mr := with_admission who b) in *.
  change a with (admission mo) in Ha. change b with (admission mr) in Hb.
  assert (Ho : ms' !! own = Some mo) by (rewrite Heq, lookup_insert_ne, lookup_insert_eq; done).
  assert (Hr : ms' !! ri = Some mr) by (rewrite Heq; apply lookup_insert_eq).
  assert (Hgt : forall id m, (forall g, rem !! id = Some g -> g < admission m) ->
            match rem !! id with None => true | Some g => admission m >? g end = true).
  { intros id m Hg. destruct (rem !! id); [|done]. specialize (Hg _ eq_refl). lia. }
  assert (Hkept : forall id m, ms' !! id = Some m -> (forall g, rem !! id = Some g -> g < admission m) ->
            map_retain (still_member own rem) ms' !! id = Some m).
  { intros id m Hm Hg. apply map_retain_some. split; [done|]. unfold still_member.
    rewrite (Hgt id m Hg). apply orb_true_r. }
  assert (Hset : settle own rem ms' = map_retain (still_member own rem) ms').
  { unfold settle. case_match eqn:E; [done|]. unfold is_active in E; cbn in E.
    by rewrite (Hkept _ _ Ho Ha), (Hgt _ _ Ha) in E. }
  rewrite Hset. unfold is_active; cbn.
  by rewrite (Hkept _ _ Ho Ha), (Hkept _ _ Hr Hb), (Hgt _ _ Ha), (Hgt _ _ Hb).
Qed.

Lemma remove_spec st id c st' :
  remove st id = Ok (c, st') ->
  (c = false /\ st' = st /\ exists g, removed (state_roster st) !! id = Some g /\
     forall m, members (state_roster st) !! id = Some m -> admission m <= g) \/
  (c = true /\ exists g,
     g = match members (state_roster st) !! id with Some m => admission m | None => 0 end /\
     (forall old, removed (state_roster st) !! id = Some old -> old < g) /\
     st' = with_roster st
       {| issuer := issuer (state_roster st);
          members := if String.eqb id (issuer (state_roster st)) then members (state_roster st)
                     else delete id (members (state_roster st));
          removed := <[id := g]> (removed (state_roster st)) |}).
Proof.
  unfold remove. rewrite bind_ok. intros (_ & _ & Hr). revert Hr.
  set (a := match members _ !! id with Some m => admission m | None => 0 end).
  destruct (match removed (state_roster st) !! id with Some old => old >=? a | None => false end) eqn:E.
  - intros [= <- <-]. left. destruct (removed (state_roster st) !! id) as [g|]; [|done].
    split_and!; [done|done|]. exists g. split; [done|]. intros m Hm. subst a. rewrite Hm in E. lia.
  - destruct (_ && _); [done|]. intros [= <- <-]. right. split; [done|]. exists a. split_and!; [done| |done].
    intros old Ho. rewrite Ho in E. lia.
Qed.

(** Removing a device takes effect at once: afterwards it is not active,
    its removal is recorded at its current admission, and nobody else's
    membership or removal changed. *)
Theorem remove_cuts_off st id c st' :
  remove st id = Ok (c, st') ->
  is_active (state_roster st') id = false /\ contains_key (removed (state_roster st')) id = true /\
  covers (removed (state_roster st)) (removed (state_roster st')) /\
  forall k, k <> id ->
    members (state_roster st') !! k = members (state_roster st) !! k /\
    removed (state_roster st') !! k = removed (state_roster st) !! k.
Proof.
  intros [(-> & -> & g & Hg & Hm)|(-> & g & Hgd & Hold & ->)]%remove_spec.
  - unfold is_active. rewrite contains_key_true, Hg. split_and!; [|by eauto|reflexivity|done].
    destruct (members _ !! id) as [m|]; [|done]. specialize (Hm _ eq_refl). lia.
  - unfold is_active; cbn. rewrite contains_key_true, lookup_insert_eq. split_and!.
    + destruct (String.eqb_spec id (issuer (state_roster st))).
      * destruct (members (state_roster st) !! id); [lia|done].
      * by rewrite lookup_delete_eq.
    + by eauto.
    + intros k h Hk. destruct (decide (k = id)) as [->|Hne].
      * rewrite lookup_insert_eq. specialize (Hold _ Hk). exists g. split; [done|lia].
      * rewrite lookup_insert_ne by done. exists h. split; [done|lia].
    + intros k Hne. rewrite lookup_insert_ne by done. split; [|done].
      destruct (String.eqb _ _); [done|]. by rewrite lookup_delete_ne.
Qed.

(** ** Reachable group states *)

(** A device's own life: created, then merging, removing, renaming itself and
    certifying its own admission, in any order. *)
Inductive reachable : GroupState -> Prop :=
| reach_new random id n p addr st :
    new random id n p addr = Ok st -> reachable st
| reach_merge st s explicit c st' :
    reachable st -> merge st s explicit = Ok (c, st') -> reachable st'
| reach_remove st id c st' :
    reachable st -> remove st id = Ok (c, st') -> reachable st'
| reach_update st id n p addr c st' :
    reachable st -> update_local st id n p addr = Ok (c, st') -> reachable st'
| reach_certify st a st' :
    reachable st -> certify_local st a = Ok st' -> reachable st'.

Lemma new_wf random id n p addr st : new random id n p addr = Ok st -> wf (state_roster st).
Proof.
  unfold new. rewrite bind_ok. intros (_ & _ & Hn). rewrite bind_ok in Hn. destruct Hn as (s & _ & Hn).
  rewrite bind_ok in Hn. destruct Hn as (_ & _ & [= <-]). split; cbn.
  - rewrite lookup_singleton_eq. eauto.
  - intros k m Hk Hne. rewrite lookup_singleton_ne in Hk by done. done.
Qed.

Lemma wf_replace_own r m :
  wf r -> wf (with_members r (<[issuer r := m]> (members r))).
Proof.
  intros [_ Hact]. split; cbn; [rewrite lookup_insert_eq; eauto|].
  intros id m' Hm Hne. unfold is_active; cbn. rewrite lookup_insert_ne in Hm |- * by done.
  specialize (Hact _ _ Hm Hne). unfold is_active in Hact. by rewrite Hm in Hact |- *.
Qed.

Lemma remove_wf st id c st' :
  wf (state_roster st) -> remove st id = Ok (c, st') -> wf (state_roster st').
Proof.
  intros [Hown Hact] [(_ & -> & _)|(_ & g & _ & _ & ->)]%remove_spec; [done|].
  split; cbn.
  - case_match eqn:E; [done|]. apply String.eqb_neq in E. by rewrite lookup_delete_ne.
  - intros k m Hm Hne.
    assert (k <> id /\ members (state_roster st) !! k = Some m) as [Hk Hm'].
    { destruct (String.eqb_spec id (issuer (state_roster st))) as [->|].
      - done.
      - rewrite lookup_delete_Some in Hm. naive_solver. }
    specialize (Hact _ _ Hm' Hne). unfold is_active in *; cbn.
    rewrite Hm, lookup_insert_ne by done. by rewrite Hm' in Hact.
Qed.

(** On every reachable group state the device is a member of its own
    roster, and every other member's admission is newer than any recorded
    removal of it. *)
Theorem reachable_roster_wf st : reachable st -> wf (state_roster st).
Proof.
  induction 1 as [? ? ? ? ? ? Hn|? ? ? ? ? _ IH Hm|? ? ? ? _ IH Hr
    |st id n p addr c st' _ IH Hu|st a st' _ IH Hc].
  - by eapply new_wf.
  - by eapply merge_preserves_wf.
  - by eapply remove_wf.
  - unfold update_local in Hu. case_match eqn:E; [done|].
    apply negb_false_iff, String.eqb_eq in E as ->.
    rewrite bind_ok in Hu. destruct Hu as (m & _ & Hu).
    case_match; [by injection Hu as <- <-|].
    rewrite bind_ok in Hu. destruct Hu as (rev & _ & [= <- <-]). by apply wf_replace_own.
  - unfold certify_local in Hc. rewrite bind_ok in Hc. destruct Hc as (_ & _ & Hc).
    rewrite bind_ok in Hc. destruct Hc as (me & _ & [= <-]). by apply wf_replace_own.
Qed.

End Merge.

(** A bilateral admission agreement is monotone, never jumps this device
    past one new generation, and both devices compute the same pair. *)
Theorem agree_is_symmetric_and_bounded a b c :
  agree a b = Ok c ->
  pa_local a <= pa_local c <= pa_local a + 1 /\
  pa_remote a <= pa_remote c /\ pa_local b <= pa_remote c /\
  (pa_remote a <= pa_local b + 1 -> pa_local b < u64_max ->
   agree b a = Ok {| pa_local := pa_remote c; pa_remote := pa_local c |}).
Proof.
  unfold agree. rewrite bind_ok. intros (n & Hn & Hc).
  rewrite ok_or_ok, u64_checked_succ_some in Hn. destruct Hn as [-> Hlt].
  destruct (Z.gtb_spec (pa_remote b) (pa_local a + 1)); [done|].
  destruct (_ || _) eqn:E; [done|]. injection Hc as <-. cbn in *.
  apply orb_false_iff in E as [E1 E2]. split_and!; [lia..|].
  intros Hb Hb'. unfold u64_checked_succ.
  destruct (Z.leb_spec (pa_local b + 1) u64_max); [|lia]. cbn.
  destruct (Z.gtb_spec (pa_remote a) (pa_local b + 1)); [lia|].
  rewrite (Z.max_comm (pa_local b)), (Z.max_comm (pa_remote b)).
  by rewrite E1, E2.
Qed.

Lemma agree_is_symmetric_and_bounded_witness :
  let a := {| pa_local := 3; pa_remote := 1 |} in
  let b := {| pa_local := 2; pa_remote := 4 |} in
  agree a b = Ok {| pa_local := 4; pa_remote := 2 |} /\
  (pa_local a <= 4 <= pa_local a + 1).
Proof.
  split; [reflexivity|].
  apply (agree_is_symmetric_and_bounded {| pa_local := 3; pa_remote := 1 |}
    {| pa_local := 2; pa_remote := 4 |} {| pa_local := 4; pa_remote := 2 |}).
  reflexivity.
Defined.

(** ** Concrete inputs

    Two devices that pair, with transparent stand-ins for the cryptography:
    the witnesses below run the model on them. *)
Module Demo.

#[local] Instance toy_crypto : GroupCrypto := {|
  verifying_key k := k;
  exchange_public k := k;
  sign k b := replicate 64 (byte_of 1);
  valid_verifying_key _ := true;
  verify_strict _ _ _ := true;
  hex_bytes b := of_bytes (b ++ b);
  hex_decode s := Some (take 64 (as_bytes s));
  json_roster r := Some (as_bytes (issuer r));
  json_snapshot s := Some (issuer (roster s));
  parse_snapshot _ := None;
  diffie_hellman a b := Some (a ++ b);
  json_pair_context l _ := Some (as_bytes l);
  json_channel_context l _ := Some (as_bytes l);
  hkdf_expand b _ := Some b;
  group_sha256 b := b;
  base32_nopad b := "AAAA";
|}.

Definition key_of (n : Z) : key := replicate 32 (byte_of n).
Definition device (n : Z) (id : string) : GroupState :=
  let i := {| signing := key_of n; exchange := key_of (n + 1) |} in
  let m := {| device_id := id; name := id; signing_key := key_of n; exchange_key := key_of (n + 1);
              admission := 0; revision := 0; profile := unknown_profile; listen_addr := None |} in
  {| identity := i; state_roster := {| issuer := id; members := {[id := m]}; removed := ∅ |} |}.
Definition a := device 1 "a".
Definition b := device 3 "b".

Definition result_or {E A} (d : A) (r : result E A) : A := match r with Ok x => x | Err _ => d end.
Definition b_snapshot : GroupSnapshot :=
  result_or {| roster := state_roster b; signature := "" |} (snapshot b).
(** [a] after pairing with [b], after removing [b], and after pairing again. *)
Definition paired : GroupState := snd (result_or (false, a) (merge a b_snapshot true)).
Definition cut : GroupState := snd (result_or (false, a) (remove paired "b")).
Definition again : GroupState := snd (result_or (false, a) (merge cut b_snapshot true)).

Lemma new_a : new (identity a) "a" "a" unknown_profile None = Ok a.
Proof. vm_compute. reflexivity. Qed.
Lemma merge_paired : merge a b_snapshot true = Ok (true, paired).
Proof. vm_compute. reflexivity. Qed.
Lemma remove_cut : remove paired "b" = Ok (true, cut).
Proof. vm_compute. reflexivity. Qed.
Lemma merge_again : merge cut b_snapshot true = Ok (true, again).
Proof. vm_compute. reflexivity. Qed.

End Demo.
#[local] Existing Instance Demo.toy_crypto.

Lemma reachable_roster_wf_witness :
  is_active (state_roster Demo.again) "b" = true /\ wf (state_roster Demo.again).
Proof.
  split; [vm_compute; reflexivity|]. apply (reachable_roster_wf Demo.again).
  eapply reach_merge; [|apply Demo.merge_again].
  eapply reach_remove; [|apply Demo.remove_cut].
  eapply reach_merge; [|apply Demo.merge_paired].
  eapply reach_new, Demo.new_a.
Defined.

Lemma merge_never_unremoves_witness :
  removed (state_roster Demo.cut) !! "b"%string = Some 0 /\
  covers (removed (state_roster Demo.cut)) (removed (state_roster Demo.again)).
Proof.
  split; [vm_compute; reflexivity|].
  apply (merge_never_unremoves Demo.cut Demo.b_snapshot true true Demo.again); [|apply Demo.merge_again].
  split; [by eexists; vm_compute|].
  intros id m Hm Hne. exfalso. apply Hne. revert Hm.
  change (members (state_roster Demo.cut)) with (members (state_roster Demo.a)).
  change (issuer (state_roster Demo.cut)) with "a"%string. cbn.
  intros Hm. by apply lookup_singleton_Some in Hm as [<- _].
Defined.

Lemma removed_issuer_is_refused_witness :
  merge Demo.cut Demo.b_snapshot false <> Ok (true, Demo.again).
Proof.
  apply (removed_issuer_is_refused Demo.cut Demo.b_snapshot true Demo.again);
    [vm_compute; reflexivity|vm_compute; discriminate].
Defined.

Lemma own_identity_needs_consent_witness :
  exists me x, members (state_roster Demo.a) !! "a"%string = Some me /\
    members (state_roster Demo.paired) !! "a"%string = Some (with_admission me x).
Proof.
  destruct (members (state_roster Demo.a) !! "a"%string) as [me|] eqn:E; [|vm_compute in E; discriminate E].
  destruct (own_identity_needs_consent Demo.a Demo.b_snapshot true true Demo.paired me E
    Demo.merge_paired) as (x & Hx & _).
  exists me, x. split; [reflexivity|exact Hx].
Defined.

Lemma member_keys_are_pinned_witness :
  exists old m, members (state_roster Demo.a) !! "a"%string = Some old /\
    members (state_roster Demo.paired) !! "a"%string = Some m /\
    (same_keys old m = true \/ (admission old < admission m /\ "a"%string <> "b"%string)).
Proof.
  destruct (members (state_roster Demo.a) !! "a"%string) as [old|] eqn:Ho; [|vm_compute in Ho; discriminate Ho].
  destruct (members (state_roster Demo.paired) !! "a"%string) as [m|] eqn:Hm; [|vm_compute in Hm; discriminate Hm].
  exists old, m. split; [reflexivity|split; [reflexivity|]].
  apply (member_keys_are_pinned Demo.a Demo.b_snapshot true true Demo.paired "a" old m
    Demo.merge_paired Ho Hm).
Defined.

Lemma explicit_admission_activates_witness :
  removed_device Demo.cut "b" = true /\ is_active (state_roster Demo.again) "b" = true.
Proof.
  split; [vm_compute; reflexivity|].
  apply (explicit_admission_activates Demo.cut Demo.b_snapshot true Demo.again);
    [vm_compute; discriminate|apply Demo.merge_again].
Defined.

Lemma remove_cuts_off_witness :
  is_active (state_roster Demo.paired) "b" = true /\ is_active (state_roster Demo.cut) "b" = false.
Proof.
  split; [vm_compute; reflexivity|].
  apply (remove_cuts_off Demo.paired "b" true Demo.cut Demo.remove_cut).
Defined.
