(* ===== verification/Message.v ===== *)
(** The peer protocol's messages and their codec
    ([copypaste-p2p/src/protocol.rs], [protocol/codec.rs],
    [protocol/items.rs]): bounds on every ingress path, the binary file-chunk
    and items envelopes, and the two items decoders. *)

From S2P Require Import Prelude Float64 Bytes Wire Net Payload Peer Group.

(** ** Messages *)

Module SyncMessage.
Inductive t :=
| Group (protocol_version : Z) (snapshot : GroupSnapshot)
| Probe (protocol_version nonce : Z) (profile : option DeviceProfile)
| ProbeAck (protocol_version nonce : Z) (profile : option DeviceProfile)
| Hello (protocol_version : Z) (device_id device_name : string)
        (profile : option DeviceProfile) (listen_addr : option string) (since_ms : Z)
| Summary (items : list ItemSummary) (more : bool)
| Request (item_ids : list string)
| Items (items : list SyncItem.t)
| FileRequest (protocol_version : Z) (item_id sha256 : string) (size index : Z)
| FileChunk (index : Z) (bytes : Bytes.bytes)
| FileUnavailable (reason : string)
| FileChecksum (sha256 : string)
| Done.

#[global] Instance eq_dec : EqDecision t.
Proof. solve_decision. Defined.

Definition kind (m : t) : string :=
  match m with
  | Group _ _ => "group"
  | Probe _ _ _ => "probe"
  | ProbeAck _ _ _ => "probe_ack"
  | Hello _ _ _ _ _ _ => "hello"
  | Summary _ _ => "summary"
  | Request _ => "request"
  | Items _ => "items"
  | Done => "done"
  | FileRequest _ _ _ _ _ => "file_request"
  | FileChunk _ _ => "file_chunk"
  | FileUnavailable _ => "file_unavailable"
  | FileChecksum _ => "file_checksum"
  end.
End SyncMessage.

(** serde's JSON spelling of messages and of the items header: library code.
    A failure carries serde's own message. *)
Class WireJson := {
  write_message : SyncMessage.t -> result string bytes;
  read_message : bytes -> result string SyncMessage.t;
  read_summary_body : bytes -> result string (list ItemSummary * bool);
  read_version_header : bytes -> option (option Z);
  write_header : list SyncItem.t -> list (Z * bool) -> result string bytes;
  read_header : bytes -> option (list SyncItem.t * list (Z * bool));
}.

Definition FILE_CHUNK_MAGIC : bytes := as_bytes "CPF1".
Definition FILE_CHUNK_HEADER_BYTES : Z := 16.
Definition ITEMS_MAGIC : bytes := as_bytes "CPI1".
Definition PREFIX_BYTES : Z := 12.

#[global] Arguments FILE_CHUNK_MAGIC : simpl never.
#[global] Arguments ITEMS_MAGIC : simpl never.
#[global] Arguments PREFIX_BYTES : simpl never.

Definition is_lower_hex_str (s : string) : bool := forallb is_lower_hex (as_bytes s).

(** ** Validation *)

Section Codec.
Context `{GroupCrypto} `{PayloadCodecs} `{WireJson}.

(** [SyncItem::validate]. *)
Definition item_validate (i : SyncItem.t) : result ProtocolError unit :=
  _ ← check_id "item_id" (SyncItem.item_id i);
  _ ← check_id "origin_device_id" (SyncItem.origin_device_id i);
  _ ← check_len "content_type" (SyncItem.content_type i) MAX_CONTENT_TYPE_BYTES;
  _ ← refuse_if (negb (SyncItem.deleted i) && String.eqb (SyncItem.content_type i) FILE
                 && bool_decide (SyncItem.payload_metadata i = None))
        (Decode "file item has no payload metadata");
  _ ← match SyncItem.payload_metadata i with
      | Some metadata =>
        _ ← check_len "payload_metadata" metadata MAX_SYNC_METADATA_BYTES;
        refuse_if (SyncItem.deleted i
                   || bool_decide (from_json metadata (SyncItem.content_type i) = None))
          (Decode "item carries invalid payload metadata")
      | None => Ok tt
      end;
  _ ← check_len "content_hash" (SyncItem.content_hash i) MAX_HASH_BYTES;
  _ ← check_timestamp (SyncItem.created_at i);
  _ ← check_timestamp (SyncItem.pin_updated_at i);
  _ ← check_pin_state (SyncItem.pinned i) (SyncItem.pin_order i);
  _ ← refuse_if (negb (String.eqb (SyncItem.content i) "")
                 && negb (bool_decide (SyncItem.binary_content i = [])))
        (Decode "item has both text and binary content");
  let content_len := usize_saturating_add (str_len (SyncItem.content i))
                       (len (SyncItem.binary_content i)) in
  refuse_if (content_len >? MAX_CONTENT_BYTES) (ContentTooLarge content_len MAX_CONTENT_BYTES).

Definition summary_validate (s : ItemSummary) : result ProtocolError unit :=
  _ ← check_id "item_id" (item_id s);
  _ ← check_id "origin_device_id" (origin_device_id s);
  _ ← check_len "content_hash" (content_hash s) MAX_HASH_BYTES;
  _ ← check_timestamp (created_at s);
  _ ← check_timestamp (pin_updated_at s);
  check_pin_state (pinned s) (pin_order s).

(** The loop over an [Items] batch: every item's own check, then the running
    total of content and metadata bytes. *)
Fixpoint items_total (items : list SyncItem.t) (total : Z) : result ProtocolError Z :=
  match items with
  | [] => Ok total
  | i :: rest =>
    _ ← item_validate i;
    let content_len := usize_saturating_add (str_len (SyncItem.content i))
                         (len (SyncItem.binary_content i)) in
    items_total rest
      (usize_saturating_add (usize_saturating_add total content_len)
         (match SyncItem.payload_metadata i with Some m => str_len m | None => 0 end))
  end.

Definition opt_profile (p : option DeviceProfile) : result ProtocolError unit :=
  match p with Some p => validate_device_profile p | None => Ok tt end.

(** [SyncMessage::validate]. *)
Definition message_validate (m : SyncMessage.t) : result ProtocolError unit :=
  match m with
  | SyncMessage.Group v snapshot =>
    _ ← check_protocol_version v;
    _ ← map_err (fun _ => Decode "invalid device group") (snapshot_validate snapshot);
    _ ← map_err (fun _ => Decode "invalid device group") (snapshot_encode snapshot);
    Ok tt
  | SyncMessage.Probe v _ p | SyncMessage.ProbeAck v _ p =>
    _ ← check_protocol_version v;
    opt_profile p
  | SyncMessage.Hello v device_id device_name p listen_addr since_ms =>
    _ ← check_protocol_version v;
    _ ← check_id "device_id" device_id;
    _ ← check_len "device_name" device_name MAX_DEVICE_NAME_BYTES;
    _ ← opt_profile p;
    _ ← refuse_if (since_ms <? 0) (NegativeTimestamp "since_ms");
    match listen_addr with
    | Some addr =>
      _ ← check_len "listen_addr" addr MAX_LISTEN_ADDR_BYTES;
      refuse_if (bool_decide (parse_socket_addr addr = None)) InvalidListenAddr
    | None => Ok tt
    end
  | SyncMessage.Summary items _ =>
    _ ← check_count "summary" (len items) MAX_SUMMARIES_PER_MESSAGE;
    each summary_validate items
  | SyncMessage.Request ids =>
    _ ← check_count "request" (len ids) MAX_REQUEST_IDS_PER_MESSAGE;
    each (check_id "item_id") ids
  | SyncMessage.Items items =>
    _ ← check_count "items" (len items) MAX_ITEMS_PER_MESSAGE;
    total ← items_total items 0;
    refuse_if (total >? MAX_ITEM_BYTES_PER_MESSAGE) (BatchTooLarge total MAX_ITEM_BYTES_PER_MESSAGE)
  | SyncMessage.Done => Ok tt
  | SyncMessage.FileRequest v item_id sha256 size index =>
    _ ← check_protocol_version v;
    _ ← check_id "item_id" item_id;
    refuse_if ((negb (String.eqb sha256 "") && negb (str_len sha256 =? 64))
               || negb (is_lower_hex_str sha256)
               || ((size =? 0) && negb (index =? 0))
               || ((size >? 0) && (index >? (size - 1) / FILE_CHUNK_BYTES)))
      (Decode "invalid file request")
  | SyncMessage.FileChunk _ b =>
    refuse_if (len b >? FILE_CHUNK_BYTES) (ContentTooLarge (len b) FILE_CHUNK_BYTES)
  | SyncMessage.FileUnavailable reason =>
    refuse_if (String.eqb reason "" || (str_len reason >? 512) || has_control (as_bytes reason))
      (Decode "invalid file failure reason")
  | SyncMessage.FileChecksum sha256 =>
    refuse_if (negb (str_len sha256 =? 64) || negb (is_lower_hex_str sha256))
      (Decode "invalid file checksum")
  end.

Definition clamp_summary (s : ItemSummary) : ItemSummary :=
  {| item_id := item_id s; created_at := Z.max (created_at s) 0; deleted := deleted s;
     content_hash := content_hash s; origin_device_id := origin_device_id s;
     pinned := pinned s; pin_order := pin_order s;
     pin_updated_at := Z.max (pin_updated_at s) 0 |}.
Definition clamp_item (i : SyncItem.t) : SyncItem.t :=
  SyncItem.with_stamps i (Z.max (SyncItem.created_at i) 0) (Z.max (SyncItem.pin_updated_at i) 0).

Definition clamp_timestamps (m : SyncMessage.t) : SyncMessage.t :=
  match m with
  | SyncMessage.Summary items more => SyncMessage.Summary (clamp_summary <$> items) more
  | SyncMessage.Items items => SyncMessage.Items (clamp_item <$> items)
  | SyncMessage.Hello v d n p l since_ms => SyncMessage.Hello v d n p l (Z.max since_ms 0)
  | _ => m
  end.

Definition checked (m : SyncMessage.t) : result ProtocolError SyncMessage.t :=
  let m := clamp_timestamps m in
  _ ← message_validate m;
  Ok m.

(** ** The items envelope *)

Definition invalid_envelope : ProtocolError := Decode "invalid items envelope".

Definition payload (i : SyncItem.t) : bytes * bool :=
  match SyncItem.binary_content i with
  | [] => (as_bytes (SyncItem.content i), false)
  | b => (b, true)
  end.

(** The loop of [ItemsFrame::new]: the payload table and the summed body. *)
Fixpoint frame_table (items : list SyncItem.t) (body : Z)
    : result ProtocolError (list (Z * bool) * list bytes * Z) :=
  match items with
  | [] => Ok ([], [], body)
  | i :: rest =>
    let '(b, binary) := payload i in
    _ ← refuse_if (len b >? u32_max) (ContentTooLarge (len b) MAX_CONTENT_BYTES);
    '(table, payloads, total) ← frame_table rest (usize_saturating_add body (len b));
    Ok ((len b, binary) :: table, b :: payloads, total)
  end.

Record ItemsFrame := { head : bytes; payloads : list bytes; total : Z }.

(** [ItemsFrame::new]. *)
Definition items_frame_new (items : list SyncItem.t) : result ProtocolError ItemsFrame :=
  '(table, parts, body) ← frame_table items 0;
  header ← map_err Encode (write_header items table);
  let total := usize_saturating_add (usize_saturating_add PREFIX_BYTES (len header)) body in
  _ ← refuse_if (total >? MAX_MESSAGE_BYTES) (MessageTooLarge total MAX_MESSAGE_BYTES);
  Ok {| head := ITEMS_MAGIC ++ to_be 4 total ++ to_be 4 (len header) ++ header;
        payloads := parts; total := total |}.

Definition frame_parts (f : ItemsFrame) : list bytes := head f :: payloads f.
Definition frame_to_vec (f : ItemsFrame) : bytes := List.concat (frame_parts f).

Definition announced_len (first : bytes) : option Z :=
  if starts_with ITEMS_MAGIC first then from_be <$> get_range (drop 4 first) 0 4 else None.

(** One big-endian length field. *)
Definition field_at (b : bytes) (at_ : nat) : result ProtocolError Z :=
  raw ← ok_or invalid_envelope (get_range b at_ 4);
  Ok (from_be raw).

(** The payload loop of [layout]: each payload's byte range, laid out one after
    another. *)
Fixpoint ranges_from (at_ limit : Z) (table : list (Z * bool))
    : result ProtocolError (list (Z * Z * bool) * Z) :=
  match table with
  | [] => Ok ([], at_)
  | (n, binary) :: rest =>
    _ ← refuse_if (n >? MAX_CONTENT_BYTES) (ContentTooLarge n MAX_CONTENT_BYTES);
    _ ← refuse_if (at_ + n >? limit) invalid_envelope;
    '(ranges, last) ← ranges_from (at_ + n) limit rest;
    Ok ((at_, at_ + n, binary) :: ranges, last)
  end.

Definition layout (b : bytes) : result ProtocolError (list SyncItem.t * list (Z * Z * bool)) :=
  announced ← field_at b 4;
  _ ← refuse_if (negb (announced =? len b)) invalid_envelope;
  header_len ← field_at b 8;
  let header_end := PREFIX_BYTES + header_len in
  _ ← refuse_if (header_end >? len b) invalid_envelope;
  '(items, table) ← ok_or invalid_envelope
    (read_header (take (Z.to_nat header_len) (drop (Z.to_nat PREFIX_BYTES) b)));
  _ ← refuse_if (negb (len table =? len items)) invalid_envelope;
  '(ranges, last) ← ranges_from header_end (len b) table;
  _ ← refuse_if (negb (last =? len b)) invalid_envelope;
  Ok (items, ranges).

Definition not_utf8 : ProtocolError := Decode "item text is not UTF-8".

Definition fill (i : SyncItem.t) (b : bytes) (binary : bool) : result ProtocolError SyncItem.t :=
  if binary then Ok (SyncItem.with_binary i b)
  else match from_utf8 b with
       | Some s => Ok (SyncItem.with_content i s)
       | None => Err not_utf8
       end.

(** [bytes[start..end]]. *)
Definition slice (b : bytes) (r : Z * Z) : bytes :=
  take (Z.to_nat (r.2 - r.1)) (drop (Z.to_nat r.1) b).

(** The loop of [items::decode]: [items.iter_mut().zip(ranges)]. *)
Fixpoint fill_all (b : bytes) (items : list SyncItem.t) (ranges : list (Z * Z * bool))
    : result ProtocolError (list SyncItem.t) :=
  match items, ranges with
  | i :: items', (r, binary) :: ranges' =>
    i' ← fill i (slice b r) binary;
    rest ← fill_all b items' ranges';
    Ok (i' :: rest)
  | _, _ => Ok items
  end.

(** [items::decode]. *)
Definition items_decode (b : bytes) : result ProtocolError (list SyncItem.t) :=
  '(items, ranges) ← layout b;
  fill_all b items ranges.

Definition range_len (r : Z * Z * bool) : Z := r.1.2 - r.1.1.

(** [iter().enumerate().max_by_key(range.len())]: the last of the largest. *)
Fixpoint max_range (i : nat) (best : option (nat * Z)) (ranges : list (Z * Z * bool))
    : option (nat * Z) :=
  match ranges with
  | [] => best
  | r :: rest =>
    let best' := match best with
                 | Some (j, m) => if range_len r <? m then Some (j, m) else Some (i, range_len r)
                 | None => Some (i, range_len r)
                 end in
    max_range (S i) best' rest
  end.

(** [items[index]] assigned through [fill]; past the end the source would
    panic, which the length check of [layout] rules out. *)
Definition fill_nth (items : list SyncItem.t) (i : nat) (b : bytes) (binary : bool)
    : result ProtocolError (list SyncItem.t) :=
  it ← ok_or invalid_envelope (items !! i);
  it' ← fill it b binary;
  Ok (<[i := it']> items).

(** The copying loop of [items::decode_owned]: every payload but the reused
    one. *)
Fixpoint fill_except (raw : bytes) (reused : option nat) (i : nat)
    (ranges : list (Z * Z * bool)) (items : list SyncItem.t)
    : result ProtocolError (list SyncItem.t) :=
  match ranges with
  | [] => Ok items
  | (r, binary) :: rest =>
    items' ← (if bool_decide (Some i = reused) then Ok items
              else fill_nth items i (slice raw r) binary);
    fill_except raw reused (S i) rest items'
  end.

(** [items::decode_owned], for a buffer of the given capacity. *)
Definition items_decode_owned (raw : bytes) (capacity : Z)
    : result ProtocolError (list SyncItem.t) :=
  '(items, ranges) ← layout raw;
  let reused := match max_range 0 None ranges with
                | Some (i, n) => if capacity / 2 <=? n then Some i else None
                | None => None
                end in
  items ← fill_except raw reused 0 ranges items;
  match reused with
  | None => Ok items
  | Some i =>
    '(r, binary) ← ok_or invalid_envelope (ranges !! i);
    (* truncate to the range's end, then drain up to its start *)
    fill_nth items i (drop (Z.to_nat r.1) (take (Z.to_nat r.2) raw)) binary
  end.

(** ** Encoding and decoding a message *)

Definition encode (m : SyncMessage.t) : result ProtocolError bytes :=
  _ ← message_validate m;
  match m with
  | SyncMessage.FileChunk index b =>
    Ok (FILE_CHUNK_MAGIC ++ to_be 8 index ++ to_be 4 (len b) ++ b)
  | SyncMessage.Items items => f ← items_frame_new items; Ok (frame_to_vec f)
  | _ =>
    b ← map_err Encode (write_message m);
    _ ← refuse_if (len b >? MAX_MESSAGE_BYTES) (MessageTooLarge (len b) MAX_MESSAGE_BYTES);
    Ok b
  end.

(** [SyncMessage::items_frame]. *)
Definition items_frame (m : SyncMessage.t) : option (result ProtocolError ItemsFrame) :=
  match m with
  | SyncMessage.Items items => Some (_ ← message_validate m; items_frame_new items)
  | _ => None
  end.

Definition invalid_chunk : ProtocolError := Decode "invalid binary file chunk".

Definition decode_file_chunk (b : bytes) : result ProtocolError SyncMessage.t :=
  _ ← refuse_if (len b <? FILE_CHUNK_HEADER_BYTES) invalid_chunk;
  index ← ok_or invalid_chunk (from_be <$> get_range b 4 8);
  length ← ok_or invalid_chunk (from_be <$> get_range b 12 4);
  _ ← refuse_if ((length >? FILE_CHUNK_BYTES)
                 || negb (len b =? FILE_CHUNK_HEADER_BYTES + length)) invalid_chunk;
  let m := SyncMessage.FileChunk index (drop (Z.to_nat FILE_CHUNK_HEADER_BYTES) b) in
  _ ← message_validate m;
  Ok m.

(** The six bytes every encoded message starts with, an opening brace and the
    tag's quoted key and colon and quote, and the tag up to the next quote. *)
Definition TAG_PREFIX : bytes := byte_of <$> [123; 34; 116; 34; 58; 34].
Fixpoint until_quote (b : bytes) : bytes :=
  match b with
  | [] => []
  | c :: b' => if byte_val c =? 34 then [] else c :: until_quote b'
  end.

Definition parse_json (b : bytes) : result string SyncMessage.t :=
  if starts_with TAG_PREFIX b && bool_decide (until_quote (drop 6 b) = as_bytes "summary")
  then '(items, more) ← read_summary_body b; Ok (SyncMessage.Summary items more)
  else read_message b.

Definition decode (b : bytes) : result ProtocolError SyncMessage.t :=
  _ ← refuse_if (len b >? MAX_MESSAGE_BYTES) (MessageTooLarge (len b) MAX_MESSAGE_BYTES);
  if starts_with FILE_CHUNK_MAGIC b then decode_file_chunk b else
  if starts_with ITEMS_MAGIC b then items ← items_decode b; checked (SyncMessage.Items items) else
  match parse_json b with
  | Ok m => checked m
  | Err e =>
    _ ← match read_version_header b with
        | Some (Some v) => check_protocol_version v
        | _ => Ok tt
        end;
    Err (Decode e)
  end.

(** [SyncMessage::decode_owned], for a buffer of the given capacity. *)
Definition decode_owned (raw : bytes) (capacity : Z) : result ProtocolError SyncMessage.t :=
  if (len raw <=? MAX_MESSAGE_BYTES) && starts_with ITEMS_MAGIC raw
  then items ← items_decode_owned raw capacity; checked (SyncMessage.Items items)
  else decode raw.

(** ** What validation accepts *)

Definition item_bytes (i : SyncItem.t) : Z :=
  str_len (SyncItem.content i) + len (SyncItem.binary_content i)
  + match SyncItem.payload_metadata i with Some m => str_len m | None => 0 end.
Definition batch_bytes (items : list SyncItem.t) : Z :=
  foldr (fun i n => item_bytes i + n) 0 items.

Record item_ok (i : SyncItem.t) : Prop := {
  ok_item_id : id_ok (SyncItem.item_id i);
  ok_origin : id_ok (SyncItem.origin_device_id i);
  ok_type : str_len (SyncItem.content_type i) <= MAX_CONTENT_TYPE_BYTES;
  ok_file : SyncItem.deleted i = false -> SyncItem.content_type i = FILE ->
            SyncItem.payload_metadata i <> None;
  ok_metadata : forall m, SyncItem.payload_metadata i = Some m ->
            str_len m <= MAX_SYNC_METADATA_BYTES /\ SyncItem.deleted i = false /\
            is_Some (from_json m (SyncItem.content_type i));
  ok_hash : str_len (SyncItem.content_hash i) <= MAX_HASH_BYTES;
  ok_created : 0 <= SyncItem.created_at i;
  ok_pin_stamp : 0 <= SyncItem.pin_updated_at i;
  ok_pin : pin_ok (SyncItem.pinned i) (SyncItem.pin_order i);
  ok_one_payload : SyncItem.content i = ""%string \/ SyncItem.binary_content i = [];
  ok_content : str_len (SyncItem.content i) + len (SyncItem.binary_content i) <= MAX_CONTENT_BYTES;
}.

Record summary_ok (s : ItemSummary) : Prop := {
  ok_summary_id : id_ok (item_id s);
  ok_summary_origin : id_ok (origin_device_id s);
  ok_summary_hash : str_len (content_hash s) <= MAX_HASH_BYTES;
  ok_summary_created : 0 <= created_at s;
  ok_summary_pin_stamp : 0 <= pin_updated_at s;
  ok_summary_pin : pin_ok (pinned s) (pin_order s);
}.

Definition hex_digest (s : string) : Prop := str_len s = 64 /\ is_lower_hex_str s = true.

(** The bounds every message that crosses the codec, in either direction,
    obeys. *)
Definition message_ok (m : SyncMessage.t) : Prop :=
  match m with
  | SyncMessage.Group v s => v = PROTOCOL_VERSION /\ snapshot_validate s = Ok tt
  | SyncMessage.Probe v _ p | SyncMessage.ProbeAck v _ p =>
    v = PROTOCOL_VERSION /\ opt_profile p = Ok tt
  | SyncMessage.Hello v d n p addr since =>
    v = PROTOCOL_VERSION /\ id_ok d /\ str_len n <= MAX_DEVICE_NAME_BYTES /\
    opt_profile p = Ok tt /\ 0 <= since /\
    forall a, addr = Some a -> str_len a <= MAX_LISTEN_ADDR_BYTES /\ is_Some (parse_socket_addr a)
  | SyncMessage.Summary items _ =>
    len items <= MAX_SUMMARIES_PER_MESSAGE /\ Forall summary_ok items
  | SyncMessage.Request ids => len ids <= MAX_REQUEST_IDS_PER_MESSAGE /\ Forall id_ok ids
  | SyncMessage.Items items =>
    len items <= MAX_ITEMS_PER_MESSAGE /\ Forall item_ok items /\
    batch_bytes items <= MAX_ITEM_BYTES_PER_MESSAGE
  | SyncMessage.FileRequest v id digest size index =>
    v = PROTOCOL_VERSION /\ id_ok id /\ (digest = ""%string \/ hex_digest digest) /\
    (size = 0 -> index = 0) /\ (0 < size -> index * FILE_CHUNK_BYTES < size)
  | SyncMessage.FileChunk _ b => len b <= FILE_CHUNK_BYTES
  | SyncMessage.FileUnavailable r =>
    r <> ""%string /\ str_len r <= 512 /\ has_control (as_bytes r) = false
  | SyncMessage.FileChecksum digest => hex_digest digest
  | SyncMessage.Done => True
  end.

Lemma content_sat i :
  usize_saturating_add (str_len (SyncItem.content i)) (len (SyncItem.binary_content i))
  <= MAX_CONTENT_BYTES <->
  str_len (SyncItem.content i) + len (SyncItem.binary_content i) <= MAX_CONTENT_BYTES.
Proof. unfold usize_saturating_add, usize_max, MAX_CONTENT_BYTES. lia. Qed.

Lemma item_validate_ok i u : item_validate i = Ok u <-> item_ok i.
Proof.
  destruct u. unfold item_validate. rewrite !bind_unit_ok, !refuse_if_ok, !check_id_ok, !check_len_ok,
    !check_timestamp_ok, check_pin_state_ok.
  assert (negb (SyncItem.deleted i) && String.eqb (SyncItem.content_type i) FILE
          && bool_decide (SyncItem.payload_metadata i = None) = false <->
          (SyncItem.deleted i = false -> SyncItem.content_type i = FILE ->
            SyncItem.payload_metadata i <> None)) as ->.
  { rewrite !andb_false_iff, negb_false_iff, String.eqb_neq, bool_decide_eq_false.
    destruct (SyncItem.deleted i); destruct (decide (SyncItem.content_type i = FILE)); naive_solver. }
  assert (negb (String.eqb (SyncItem.content i) "")
          && negb (bool_decide (SyncItem.binary_content i = [])) = false <->
          SyncItem.content i = ""%string \/ SyncItem.binary_content i = []) as ->.
  { by rewrite andb_false_iff, !negb_false_iff, String.eqb_eq, bool_decide_eq_true. }
  rewrite Z.gtb_ltb, Z.ltb_ge, content_sat.
  assert (match SyncItem.payload_metadata i with
          | Some metadata =>
            _ ← check_len "payload_metadata" metadata MAX_SYNC_METADATA_BYTES;
            refuse_if (SyncItem.deleted i
                       || bool_decide (from_json metadata (SyncItem.content_type i) = None))
              (Decode "item carries invalid payload metadata")
          | None => Ok tt
          end = Ok tt <->
          forall m, SyncItem.payload_metadata i = Some m ->
            str_len m <= MAX_SYNC_METADATA_BYTES /\ SyncItem.deleted i = false /\
            is_Some (from_json m (SyncItem.content_type i))) as ->.
  { destruct (SyncItem.payload_metadata i) as [md|]; [|naive_solver].
    rewrite bind_unit_ok, check_len_ok, refuse_if_ok, orb_false_iff, bool_decide_eq_false,
      not_eq_None_Some. naive_solver. }
  split; [intros (?&?&?&?&?&?&?&?&?&?&?); by constructor|by intros []].
Qed.

Lemma summary_validate_ok s u : summary_validate s = Ok u <-> summary_ok s.
Proof.
  destruct u. unfold summary_validate. autorewrite with checks.
  split; [intros (?&?&?&?&?&?); by constructor|by intros []].
Qed.

Definition bytes_step (t : Z) (i : SyncItem.t) : Z :=
  usize_saturating_add
    (usize_saturating_add t (usize_saturating_add (str_len (SyncItem.content i))
                               (len (SyncItem.binary_content i))))
    (match SyncItem.payload_metadata i with Some m => str_len m | None => 0 end).

Lemma items_total_ok l t r :
  items_total l t = Ok r <-> Forall item_ok l /\ r = foldl bytes_step t l.
Proof.
  revert t; induction l as [|i l IH]; intros t; cbn [items_total foldl].
  - split; [intros [= <-]|intros [_ ->]]; by try constructor.
  - rewrite bind_unit_ok, item_validate_ok, IH, Forall_cons. naive_solver.
Qed.

Lemma item_bytes_nonneg i : 0 <= item_bytes i.
Proof.
  unfold item_bytes. pose proof (str_len_nonneg (SyncItem.content i)).
  pose proof (len_nonneg (SyncItem.binary_content i)).
  destruct (SyncItem.payload_metadata i) as [m|]; [pose proof (str_len_nonneg m)|]; lia.
Qed.

Lemma bytes_step_eq t i : 0 <= t -> bytes_step t i = Z.min usize_max (t + item_bytes i).
Proof.
  intros Ht. unfold bytes_step, item_bytes, usize_saturating_add.
  pose proof (str_len_nonneg (SyncItem.content i)).
  pose proof (len_nonneg (SyncItem.binary_content i)). unfold usize_max.
  destruct (SyncItem.payload_metadata i) as [m|]; [pose proof (str_len_nonneg m)|]; lia.
Qed.

Lemma batch_bytes_nonneg l : 0 <= batch_bytes l.
Proof. induction l as [|i l IH]; cbn; [lia|]. pose proof (item_bytes_nonneg i). unfold batch_bytes in IH. lia. Qed.

Lemma bytes_fold l t : 0 <= t <= usize_max ->
  foldl bytes_step t l = Z.min usize_max (t + batch_bytes l).
Proof.
  revert t; induction l as [|i l IH]; intros t Ht; cbn [foldl].
  - cbn. lia.
  - rewrite bytes_step_eq by lia. pose proof (item_bytes_nonneg i). pose proof (batch_bytes_nonneg l).
    rewrite IH by (unfold usize_max in *; lia). change (batch_bytes (i :: l)) with (item_bytes i + batch_bytes l).
    unfold usize_max. lia.
Qed.

Lemma file_chunks_bound size index :
  ((size >? 0) && (index >? (size - 1) / FILE_CHUNK_BYTES)) = false <->
  (0 < size -> index * FILE_CHUNK_BYTES < size).
Proof.
  unfold FILE_CHUNK_BYTES. rewrite andb_false_iff, !Z.gtb_ltb, !Z.ltb_ge.
  pose proof (Z.div_mod (size - 1) (64 * 1024) ltac:(lia)).
  pose proof (Z.mod_pos_bound (size - 1) (64 * 1024) ltac:(lia)). nia.
Qed.

Lemma batch_limit l :
  (foldl bytes_step 0 l >? MAX_ITEM_BYTES_PER_MESSAGE) = false <->
  batch_bytes l <= MAX_ITEM_BYTES_PER_MESSAGE.
Proof.
  rewrite bytes_fold by (unfold usize_max; lia). rewrite Z.gtb_ltb, Z.ltb_ge.
  unfold MAX_ITEM_BYTES_PER_MESSAGE, MAX_CONTENT_BYTES, MAX_SYNC_METADATA_BYTES, usize_max. lia.
Qed.

Lemma hex_digest_ok s :
  negb (str_len s =? 64) || negb (is_lower_hex_str s) = false <-> hex_digest s.
Proof. unfold hex_digest. rewrite orb_false_iff, !negb_false_iff, Z.eqb_eq. done. Qed.

Lemma message_validate_ok m : message_validate m = Ok tt -> message_ok m.
Proof.
  destruct m; cbn [message_validate message_ok]; autorewrite with checks.
  - naive_solver.
  - done.
  - done.
  - intros (?&?&?&?&Hs&Ha). split_and!; try done; [lia|]. intros a ->.
    rewrite bind_unit_ok, check_len_ok, refuse_if_ok, bool_decide_eq_false, not_eq_None_Some in Ha. done.
  - intros [? Hf]. split; [done|]. eapply Forall_impl; [exact Hf|]. intros x Hx. by apply summary_validate_ok in Hx.
  - intros [? Hf]. split; [done|]. eapply Forall_impl; [exact Hf|]. intros x Hx. by apply check_id_ok in Hx.
  - intros [? (t & [Hf ->]%items_total_ok & Hb)%bind_ok].
    by rewrite refuse_if_ok, batch_limit in Hb.
  - rewrite !orb_false_iff, file_chunks_bound, !andb_false_iff, !negb_false_iff, String.eqb_eq, !Z.eqb_eq,
      Z.eqb_neq. unfold hex_digest. naive_solver.
  - lia.
  - rewrite !orb_false_iff, String.eqb_neq. naive_solver lia.
  - apply hex_digest_ok.
  - done.
Qed.

(** A batch within the bounds is a valid message. *)
Lemma items_message_ok items :
  message_validate (SyncMessage.Items items) = Ok tt <->
  len items <= MAX_ITEMS_PER_MESSAGE /\ Forall item_ok items /\
  batch_bytes items <= MAX_ITEM_BYTES_PER_MESSAGE.
Proof.
  cbn [message_validate]. rewrite bind_unit_ok, check_count_ok, bind_ok.
  setoid_rewrite items_total_ok. setoid_rewrite refuse_if_ok.
  rewrite <- batch_limit. naive_solver.
Qed.

Lemma batch_bytes_snoc l i : batch_bytes (l ++ [i]) = batch_bytes l + item_bytes i.
Proof.
  unfold batch_bytes. induction l as [|j l IH]; cbn [foldr app]; [lia|]. rewrite IH. lia.
Qed.

(** ** The frame and its layout *)

Lemma usize_sat_eq a b m : 0 <= a -> 0 <= b -> m < usize_max ->
  usize_saturating_add a b <= m -> usize_saturating_add a b = a + b.
Proof. unfold usize_saturating_add. lia. Qed.

Definition payload_entry (i : SyncItem.t) : Z * bool := (len (payload i).1, (payload i).2).
Definition payload_body (items : list SyncItem.t) : bytes :=
  List.concat ((fun i => (payload i).1) <$> items).

Lemma frame_table_ok items body table parts total :
  0 <= body <= usize_max -> frame_table items body = Ok (table, parts, total) ->
  table = payload_entry <$> items /\ parts = (fun i => (payload i).1) <$> items /\
  total = Z.min usize_max (body + len (payload_body items)).
Proof.
  revert body table parts total; induction items as [|i items IH]; intros body table parts total Hb; cbn.
  - intros [= <- <- <-]. split_and!; [done|done|]. change (len []) with 0. lia.
  - unfold payload_entry at 1, payload_body; cbn. destruct (payload i) as [b binary]; cbn.
    rewrite bind_unit_ok. intros [_ Ht].
    apply bind_ok in Ht as ([[t p] n] & Ht & [= <- <- <-]).
    assert (0 <= usize_saturating_add body (len b) <= usize_max) as Hs.
    { unfold usize_saturating_add, usize_max in *. pose proof (len_nonneg b). lia. }
    destruct (IH _ _ _ _ Hs Ht) as (-> & -> & ->). split_and!; [done|done|].
    rewrite len_app. unfold payload_body. pose proof (len_nonneg b).
    set (n := len (List.concat _)). assert (0 <= n) by apply len_nonneg.
    unfold usize_saturating_add, usize_max in *. lia.
Qed.

(** A frame is its prefix, the header and the payloads one after another. *)
Lemma items_frame_ok items f :
  items_frame_new items = Ok f ->
  exists header,
    write_header items (payload_entry <$> items) = Ok header /\
    frame_to_vec f = ITEMS_MAGIC ++ to_be 4 (total f) ++ to_be 4 (len header) ++ header
                     ++ payload_body items /\
    total f = PREFIX_BYTES + len header + len (payload_body items) /\
    total f <= MAX_MESSAGE_BYTES.
Proof.
  unfold items_frame_new. intros Hf. apply bind_ok in Hf as ([[table parts] body] & Ht & Hf).
  apply frame_table_ok in Ht as (-> & -> & ->); [|unfold usize_max; lia].
  apply bind_ok in Hf as (header & Hh & Hf). apply map_err_ok in Hh.
  rewrite bind_unit_ok, refuse_if_ok in Hf. destruct Hf as [Hlim Hf]. apply ok_inj in Hf as <-.
  exists header. split; [done|]. cbn [total head payloads frame_to_vec frame_parts].
  pose proof (len_nonneg header). pose proof (len_nonneg (payload_body items)).
  unfold frame_to_vec, frame_parts, usize_saturating_add, usize_max, PREFIX_BYTES, MAX_MESSAGE_BYTES in *.
  cbn [total head payloads List.concat]. rewrite <- !app_assoc. split; [done|]. lia.
Qed.

Lemma length_frame items f header :
  frame_to_vec f = ITEMS_MAGIC ++ to_be 4 (total f) ++ to_be 4 (len header) ++ header
                   ++ payload_body items ->
  len (frame_to_vec f) = PREFIX_BYTES + len header + len (payload_body items).
Proof.
  intros ->. rewrite !len_app, !len_to_be. change (len ITEMS_MAGIC) with 4.
  unfold PREFIX_BYTES. lia.
Qed.

Lemma from_to_be_4 z : 0 <= z <= MAX_MESSAGE_BYTES -> from_be (to_be 4 z) = z.
Proof. intros. apply from_to_be. unfold MAX_MESSAGE_BYTES in *. cbn. lia. Qed.

Lemma ranges_from_len table at_ limit rs last :
  ranges_from at_ limit table = Ok (rs, last) -> length rs = length table.
Proof.
  revert at_ rs last; induction table as [|[n b] table IH]; intros at_ rs last; cbn.
  - by intros [= <- <-].
  - rewrite !bind_unit_ok. intros (_ & _ & Ht). apply bind_ok in Ht as ([rs' last'] & Ht & [= <- <-]).
    cbn. f_equal. by eapply IH.
Qed.

Lemma layout_len b items rs : layout b = Ok (items, rs) -> length rs = length items.
Proof.
  unfold layout. intros Hl. apply bind_ok in Hl as (a & _ & Hl).
  rewrite bind_unit_ok in Hl. destruct Hl as [_ Hl].
  apply bind_ok in Hl as (h & _ & Hl). rewrite bind_unit_ok in Hl. destruct Hl as [_ Hl].
  apply bind_ok in Hl as ([its table] & _ & Hl). rewrite bind_unit_ok, refuse_if_ok in Hl.
  destruct Hl as [He Hl]. apply bind_ok in Hl as ([rs' last] & Hr & Hl).
  rewrite bind_unit_ok in Hl. destruct Hl as [_ [= <- <-]].
  apply ranges_from_len in Hr. unfold len in He. lia.
Qed.

(** ** The two items decoders *)

Lemma fill_err i b binary e : fill i b binary = Err e -> e = not_utf8.
Proof. unfold fill. destruct binary; [done|]. case_match; naive_solver. Qed.
Lemma fill_all_err raw items rs e : fill_all raw items rs = Err e -> e = not_utf8.
Proof.
  revert rs; induction items as [|i items IH]; intros [|[r binary] rs]; cbn; try done.
  destruct (fill i _ _) eqn:Ef; cbn; [|intros [= <-]; by eapply fill_err].
  destruct (fill_all raw items rs) eqn:Ea; cbn; [done|intros [= <-]; by eapply IH].
Qed.

Lemma fill_all_app raw items1 rs1 items2 rs2 :
  length items1 = length rs1 ->
  fill_all raw (items1 ++ items2) (rs1 ++ rs2) =
    (l1 ← fill_all raw items1 rs1; l2 ← fill_all raw items2 rs2; Ok (l1 ++ l2)).
Proof.
  revert rs1; induction items1 as [|i items1 IH]; intros [|[r binary] rs1]; cbn; try done.
  - intros _. by destruct (fill_all raw items2 rs2).
  - intros [= Hl]. destruct (fill i _ _); cbn; [|done]. rewrite (IH _ Hl).
    destruct (fill_all raw items1 rs1); cbn; [|done]. by destruct (fill_all raw items2 rs2).
Qed.

Lemma length_fill_all raw items rs l : fill_all raw items rs = Ok l -> length l = length items.
Proof.
  revert rs l; induction items as [|i items IH]; intros [|[r binary] rs] l; cbn; try by intros [= <-].
  intros (i' & _ & Hl)%bind_ok. apply bind_ok in Hl as (l' & Hl & [= <-]). cbn. f_equal. by eapply IH.
Qed.

Lemma fill_except_app raw reused i rs1 rs2 items :
  fill_except raw reused i (rs1 ++ rs2) items =
    (items' ← fill_except raw reused i rs1 items;
     fill_except raw reused (i + length rs1) rs2 items').
Proof.
  revert i items; induction rs1 as [|[r binary] rs1 IH]; intros i items; cbn.
  - by rewrite Nat.add_0_r.
  - case_bool_decide; cbn; [|destruct (fill_nth items i _ _); cbn; [|done]];
      by rewrite IH, Nat.add_succ_r.
Qed.

Lemma fill_nth_at pre i rest b binary :
  fill_nth (pre ++ i :: rest) (length pre) b binary =
    ((fun i' => pre ++ i' :: rest) <$> fill i b binary).
Proof.
  unfold fill_nth. rewrite list_lookup_middle by done. cbn.
  destruct (fill i b binary); cbn; [|done]. f_equal. by rewrite insert_app_r_alt, Nat.sub_diag by lia.
Qed.

(** Away from the reused payload, the copying loop is [fill_all]. *)
Lemma fill_except_all raw reused pre items rest rs :
  length items = length rs ->
  (forall k, (length pre <= k < length pre + length rs)%nat -> Some k <> reused) ->
  fill_except raw reused (length pre) rs (pre ++ items ++ rest) =
    ((fun l => pre ++ l ++ rest) <$> fill_all raw items rs).
Proof.
  revert pre items; induction rs as [|[r binary] rs IH]; intros pre [|i items] Hl Hne; try done.
  injection Hl as Hl. cbn [fill_except fill_all app].
  rewrite bool_decide_eq_false_2 by (apply Hne; cbn; lia).
  rewrite fill_nth_at. destruct (fill i _ _) as [i'|]; cbn; [|done].
  replace (pre ++ i' :: items ++ rest) with ((pre ++ [i']) ++ items ++ rest) by (by rewrite <- app_assoc).
  replace (S (length pre)) with (length (pre ++ [i'])) by (rewrite length_app; cbn; lia).
  rewrite IH; [| done |].
  - destruct (fill_all raw items rs); cbn; [|done]. by rewrite <- app_assoc.
  - intros k. rewrite length_app; cbn. intros Hk. apply Hne. cbn. lia.
Qed.

Lemma max_range_lt rs : forall i best k n,
  max_range i best rs = Some (k, n) ->
  best = Some (k, n) \/ (i <= k < i + length rs)%nat.
Proof.
  induction rs as [|r rs IH]; intros i best k n; cbn; [by left|].
  intros Hm. apply IH in Hm as [Hm|Hm]; [|right; lia].
  destruct best as [[j m]|]; [destruct (Z.ltb_spec (range_len r) m)|]; simplify_eq;
    first [by left|right; lia].
Qed.

Definition starts_nonneg (rs : list (Z * Z * bool)) : Prop := Forall (fun r => 0 <= r.1.1 <= r.1.2) rs.

Lemma slice_drop_take raw r : 0 <= r.1 <= r.2 ->
  drop (Z.to_nat r.1) (take (Z.to_nat r.2) raw) = slice raw r.
Proof. intros. unfold slice. rewrite skipn_firstn_comm. f_equal. lia. Qed.

Lemma owned_loop raw reused items rs :
  length items = length rs -> starts_nonneg rs ->
  (forall k, reused = Some k -> (k < length rs)%nat) ->
  (items' ← fill_except raw reused 0 rs items;
   match reused with
   | None => Ok items'
   | Some i =>
     '(r, binary) ← ok_or invalid_envelope (rs !! i);
     fill_nth items' i (drop (Z.to_nat r.1) (take (Z.to_nat r.2) raw)) binary
   end) = fill_all raw items rs.
Proof.
  intros Hl Hs Hk. destruct reused as [k|].
  - specialize (Hk k eq_refl). destruct (lookup_lt_is_Some_2 rs k Hk) as [[r binary] Hr].
    destruct (lookup_lt_is_Some_2 items k ltac:(lia)) as [it Hit].
    rewrite Hr. cbn [ok_or mbind result_bind].
    assert (0 <= r.1 <= r.2) by exact (Forall_lookup_1 _ _ _ _ Hs Hr).
    rewrite slice_drop_take by done.
    apply list_elem_of_split_length in Hr as (rs1 & rs2 & -> & Hl1).
    apply list_elem_of_split_length in Hit as (is1 & is2 & -> & Hl2).
    rewrite !length_app in Hl; cbn in Hl. assert (Hl' : length is2 = length rs2) by lia.
    rewrite fill_except_app. pose proof (fill_except_all raw (Some k) [] is1 (it :: is2) rs1) as He.
    cbn [length app] in He. rewrite He by first [lia|intros ? ? [= ->]; lia]. clear He.
    rewrite fill_all_app by lia. destruct (fill_all raw is1 rs1) as [l1|] eqn:E1; cbn; [|done].
    rewrite bool_decide_eq_true_2 by (f_equal; lia). cbn.
    apply length_fill_all in E1.
    pose proof (fill_except_all raw (Some k) (l1 ++ [it]) is2 [] rs2 Hl') as He.
    rewrite length_app, !app_nil_r, <- app_assoc in He. cbn in He.
    replace (S (length rs1)) with (length l1 + 1)%nat by lia.
    rewrite He by (intros ? ? [= ->]; lia). clear He.
    destruct (fill_all raw is2 rs2) as [l2|e2] eqn:E2; cbn.
    + rewrite app_nil_r, <- app_assoc. cbn. replace k with (length l1) by lia. rewrite fill_nth_at.
      destruct (fill it _ _); cbn; done.
    + destruct (fill it _ _) eqn:Ef; cbn; [done|]. f_equal.
      by rewrite (fill_all_err _ _ _ _ E2), (fill_err _ _ _ _ Ef).
  - pose proof (fill_except_all raw None [] items [] rs Hl) as He.
    cbn [length app] in He. rewrite app_nil_r in He. rewrite He by done.
    destruct (fill_all raw items rs); cbn; [|done]. by rewrite app_nil_r.
Qed.

(** What the codec relies on of serde: payload lengths read back are [u32]s,
    and a header that was written reads back as the same items without their
    payload bytes.  A pin order comes back through [reparse]: without its
    [float_roundtrip] feature serde_json may return a neighbouring double, but
    always a finite one. *)
Class WireJsonLaws (reparse : f64 -> f64) : Prop := {
  header_lengths b items table :
    read_header b = Some (items, table) -> Forall (fun e => 0 <= e.1 <= u32_max) table;
  header_round_trip items table header :
    write_header items table = Ok header ->
    read_header header = Some ((fun i => {|
      SyncItem.item_id := SyncItem.item_id i; SyncItem.content := "";
      SyncItem.binary_content := []; SyncItem.payload_metadata := SyncItem.payload_metadata i;
      SyncItem.source_app_bundle_id := SyncItem.source_app_bundle_id i;
      SyncItem.source_app_name := SyncItem.source_app_name i;
      SyncItem.content_type := SyncItem.content_type i; SyncItem.created_at := SyncItem.created_at i;
      SyncItem.deleted := SyncItem.deleted i; SyncItem.content_hash := SyncItem.content_hash i;
      SyncItem.origin_device_id := SyncItem.origin_device_id i; SyncItem.pinned := SyncItem.pinned i;
      SyncItem.pin_order := reparse <$> SyncItem.pin_order i;
      SyncItem.pin_updated_at := SyncItem.pin_updated_at i |}) <$> items, table);
  reparse_finite x : is_finite x = true -> is_finite (reparse x) = true;
}.

(** An item as it comes back: [reparse] on its pin order. *)
Definition reread (reparse : f64 -> f64) (i : SyncItem.t) : SyncItem.t := {|
  SyncItem.item_id := SyncItem.item_id i; SyncItem.content := SyncItem.content i;
  SyncItem.binary_content := SyncItem.binary_content i;
  SyncItem.payload_metadata := SyncItem.payload_metadata i;
  SyncItem.source_app_bundle_id := SyncItem.source_app_bundle_id i;
  SyncItem.source_app_name := SyncItem.source_app_name i;
  SyncItem.content_type := SyncItem.content_type i; SyncItem.created_at := SyncItem.created_at i;
  SyncItem.deleted := SyncItem.deleted i; SyncItem.content_hash := SyncItem.content_hash i;
  SyncItem.origin_device_id := SyncItem.origin_device_id i; SyncItem.pinned := SyncItem.pinned i;
  SyncItem.pin_order := reparse <$> SyncItem.pin_order i;
  SyncItem.pin_updated_at := SyncItem.pin_updated_at i |}.

Section Laws.
Context (reparse : f64 -> f64) `{!WireJsonLaws reparse}.

Definition bare (i : SyncItem.t) : SyncItem.t :=
  SyncItem.with_binary (SyncItem.with_content (reread reparse i) "") [].

Lemma ranges_from_nonneg table at_ limit rs last :
  0 <= at_ -> Forall (fun e : Z * bool => 0 <= e.1 <= u32_max) table ->
  ranges_from at_ limit table = Ok (rs, last) -> starts_nonneg rs.
Proof.
  revert at_ rs last; induction table as [|[n b] table IH]; intros at_ rs last Ha Ht; cbn.
  - intros [= <- <-]. constructor.
  - rewrite !bind_unit_ok. intros (_ & _ & Hr). apply bind_ok in Hr as ([rs' last'] & Hr & [= <- <-]).
    apply Forall_cons in Ht as [Hn Ht]. cbn in Hn. constructor; [cbn; lia|].
    eapply IH; [|exact Ht|exact Hr]. lia.
Qed.

Lemma layout_nonneg b items rs : layout b = Ok (items, rs) -> starts_nonneg rs.
Proof.
  unfold layout. intros Hl. apply bind_ok in Hl as (a & _ & Hl).
  rewrite bind_unit_ok in Hl. destruct Hl as [_ Hl].
  apply bind_ok in Hl as (h & Hh & Hl). rewrite bind_unit_ok in Hl. destruct Hl as [_ Hl].
  apply bind_ok in Hl as ([its table] & Ht & Hl). rewrite bind_unit_ok in Hl.
  destruct Hl as [_ Hl]. apply bind_ok in Hl as ([rs' last] & Hr & Hl).
  rewrite bind_unit_ok in Hl. destruct Hl as [_ [= <- <-]].
  apply ok_or_ok, header_lengths in Ht. eapply ranges_from_nonneg; [|exact Ht|exact Hr].
  unfold field_at in Hh. apply bind_ok in Hh as (raw & _ & Hh). apply ok_inj in Hh as <-.
  pose proof (from_be_range raw). unfold PREFIX_BYTES. lia.
Qed.

Lemma items_decode_owned_eq raw capacity : items_decode_owned raw capacity = items_decode raw.
Proof.
  unfold items_decode_owned, items_decode.
  destruct (layout raw) as [[items rs]|] eqn:El; cbn; [|done].
  apply owned_loop.
  - symmetry. by eapply layout_len.
  - by eapply layout_nonneg.
  - intros k. destruct (max_range 0 None rs) as [[i n]|] eqn:Em; [|done].
    apply max_range_lt in Em as [?|?]; [done|]. case_match; naive_solver lia.
Qed.

(** The decoder that reuses the receive buffer for the largest payload
    gives, for every buffer and every capacity, exactly the result of the
    decoder that copies: same message or same error. *)
Theorem decode_owned_is_decode raw capacity : decode_owned raw capacity = decode raw.
Proof.
  unfold decode_owned, decode.
  destruct (Z.leb_spec (len raw) MAX_MESSAGE_BYTES) as [Hl|Hl]; cbn; [|done].
  destruct (starts_with ITEMS_MAGIC raw) eqn:Ei; [|done].
  rewrite Z.gtb_ltb. destruct (Z.ltb_spec MAX_MESSAGE_BYTES (len raw)); [lia|]. cbn [refuse_if mbind result_bind].
  apply starts_with_spec in Ei as Hk. destruct Hk as [k ->].
  change (starts_with FILE_CHUNK_MAGIC (ITEMS_MAGIC ++ k)) with false. cbn [mbind].
  by rewrite items_decode_owned_eq.
Qed.

Lemma fill_bare i rest_item :
  utf8_valid (as_bytes (SyncItem.content i)) = true ->
  SyncItem.content i = ""%string \/ SyncItem.binary_content i = [] ->
  rest_item = bare i ->
  fill rest_item (payload i).1 (payload i).2 = Ok (reread reparse i).
Proof.
  intros Hu Hone ->. unfold payload, fill, bare, reread.
  destruct (SyncItem.binary_content i) as [|x l] eqn:E; cbn.
  - unfold from_utf8. rewrite Hu. cbn. by rewrite of_as_bytes.
  - destruct Hone as [Hc|Hc]; [|done]. unfold SyncItem.with_binary; cbn. by rewrite Hc.
Qed.

(** Laid out one after another, the ranges cut exactly the payloads back out. *)
Lemma ranges_fill items (b : bytes) at_ :
  0 <= at_ -> drop (Z.to_nat at_) b = payload_body items ->
  at_ + len (payload_body items) = len b ->
  Forall (fun i => utf8_valid (as_bytes (SyncItem.content i)) = true /\ item_ok i) items ->
  exists rs, ranges_from at_ (len b) (payload_entry <$> items) = Ok (rs, len b) /\
             fill_all b (bare <$> items) rs = Ok (reread reparse <$> items).
Proof.
  revert at_; induction items as [|i items IH]; intros at_ Ha Hd Hlen Hf.
  - exists []. cbn. split; [|done]. change (len (payload_body [])) with 0 in Hlen. by rewrite <- Hlen, Z.add_0_r.
  - apply Forall_cons in Hf as [[Hu Hok] Hf].
    change (payload_body (i :: items)) with ((payload i).1 ++ payload_body items) in *.
    rewrite len_app in Hlen. pose proof (len_nonneg (payload i).1). pose proof (len_nonneg (payload_body items)).
    destruct (IH (at_ + len (payload i).1)) as (rs & Hr & Hfill); [lia| |lia|done|].
    { rewrite Z2Nat.inj_add, <- drop_drop, Hd by lia. replace (Z.to_nat (len (payload i).1)) with (length (payload i).1) by (unfold len; lia).
      by rewrite drop_app_length. }
    exists ((at_, at_ + len (payload i).1, (payload i).2) :: rs). cbn [fmap list_fmap].
    unfold payload_entry at 1. cbn [ranges_from].
    assert (len (payload i).1 <= MAX_CONTENT_BYTES).
    { pose proof (ok_content _ Hok). unfold payload. pose proof (str_len_nonneg (SyncItem.content i)).
      pose proof (len_nonneg (SyncItem.binary_content i)).
      destruct (SyncItem.binary_content i) eqn:E; cbn [fst]; [rewrite len_as_bytes|]; lia. }
    rewrite !Z.gtb_ltb. destruct (Z.ltb_spec MAX_CONTENT_BYTES (len (payload i).1)); [lia|].
    destruct (Z.ltb_spec (len b) (at_ + len (payload i).1)); [lia|].
    cbn [refuse_if mbind result_bind]. rewrite Hr. cbn [mbind result_bind]. split; [done|].
    cbn [fill_all]. unfold slice; cbn [fst snd].
    replace (Z.to_nat (at_ + len (payload i).1 - at_)) with (length (payload i).1) by (unfold len; lia).
    rewrite Hd, take_app_length. erewrite fill_bare; [|done|apply ok_one_payload, Hok|done].
    cbn [mbind result_bind]. unfold fmap in Hfill |- *. by rewrite Hfill.
Qed.

Lemma item_ok_reread i : item_ok i -> item_ok (reread reparse i).
Proof.
  intros []. constructor; try done. cbn. unfold pin_ok in *.
  destruct (SyncItem.pin_order i); cbn; [|done]. destruct ok_pin0. split; [done|by apply reparse_finite].
Qed.

Lemma clamp_item_ok i : item_ok i -> clamp_item i = i.
Proof.
  intros []. destruct i; unfold clamp_item, SyncItem.with_stamps; cbn in *. f_equal; lia.
Qed.

Lemma field_at_app p z s :
  0 <= z <= MAX_MESSAGE_BYTES -> field_at (p ++ to_be 4 z ++ s) (length p) = Ok z.
Proof.
  intros Hz. unfold field_at. pose proof (get_range_app p (to_be 4 z) s) as Hg.
  rewrite length_to_be in Hg. rewrite Hg. cbn. by rewrite from_to_be_4.
Qed.

Lemma checked_items items :
  Forall item_ok items -> len items <= MAX_ITEMS_PER_MESSAGE ->
  batch_bytes items <= MAX_ITEM_BYTES_PER_MESSAGE ->
  checked (SyncMessage.Items items) = Ok (SyncMessage.Items items).
Proof.
  intros Hf Hn Hb. unfold checked. cbn [clamp_timestamps].
  replace (clamp_item <$> items) with items.
  - apply bind_unit_ok. split; [|done]. by apply items_message_ok.
  - symmetry. rewrite <- (list_fmap_id items) at 2. apply list_fmap_ext.
    intros k x Hx. apply clamp_item_ok. by eapply Forall_lookup_1.
Qed.

Lemma layout_frame header items b :
  read_header header = Some (bare <$> items, payload_entry <$> items) ->
  b = ITEMS_MAGIC ++ to_be 4 (len b) ++ to_be 4 (len header) ++ header ++ payload_body items ->
  len b = PREFIX_BYTES + len header + len (payload_body items) ->
  len b <= MAX_MESSAGE_BYTES ->
  layout b = ('(rs, last) ← ranges_from (PREFIX_BYTES + len header) (len b) (payload_entry <$> items);
              _ ← refuse_if (negb (last =? len b)) invalid_envelope;
              Ok (bare <$> items, rs)).
Proof.
  intros Hread Hb Hlen Hmax. pose proof (len_nonneg header). pose proof (len_nonneg (payload_body items)).
  unfold PREFIX_BYTES in *. unfold layout.
  rewrite Hb at 1. rewrite (field_at_app ITEMS_MAGIC) by lia. cbn [mbind result_bind].
  rewrite Z.eqb_refl. cbn [negb refuse_if mbind result_bind].
  rewrite Hb at 1. rewrite app_assoc. rewrite (field_at_app (ITEMS_MAGIC ++ to_be 4 (len b))) by lia.
  cbn [mbind result_bind]. unfold PREFIX_BYTES.
  rewrite Z.gtb_ltb. destruct (Z.ltb_spec (len b) (12 + len header)); [lia|].
  cbn [refuse_if mbind result_bind].
  replace (drop (Z.to_nat 12) b) with (header ++ payload_body items).
  - replace (Z.to_nat (len header)) with (length header) by (unfold len; lia).
    rewrite take_app_length, Hread. cbn [ok_or mbind result_bind].
    replace (len (payload_entry <$> items) =? len (bare <$> items)) with true
      by (unfold len; rewrite !length_fmap; by rewrite Z.eqb_refl).
    done.
  - by rewrite Hb.
Qed.

(** C36: an items batch comes back from its envelope byte for byte: whatever
    batch the encoder accepts, the decoder returns the same items with their
    payloads, each pin order as serde re-reads it. *)
Theorem items_round_trip items b :
  Forall (fun i => utf8_valid (as_bytes (SyncItem.content i)) = true) items ->
  encode (SyncMessage.Items items) = Ok b ->
  decode b = Ok (SyncMessage.Items (reread reparse <$> items)) /\
  announced_len b = Some (len b).
Proof.
  intros Hu He. unfold encode in He. rewrite bind_unit_ok in He. destruct He as [Hv He].
  apply message_validate_ok in Hv as (Hn & Hok & Hb). apply bind_ok in He as (f & Hf & He).
  apply ok_inj in He as <-. apply items_frame_ok in Hf as (header & Hh & Hvec & Ht & Hmax).
  pose proof (length_frame _ _ _ Hvec) as Hlen. rewrite <- Ht in Hlen. rewrite <- Hlen in Hvec, Ht, Hmax.
  remember (frame_to_vec f) as b eqn:Eb. clear Eb. pose proof (header_round_trip _ _ _ Hh) as Hread.
  pose proof (layout_frame header items b Hread Hvec Ht Hmax) as Hlay.
  pose proof (len_nonneg header). pose proof (len_nonneg b).
  destruct (ranges_fill items b (PREFIX_BYTES + len header)) as (rs & Hrs & Hfill).
  { unfold PREFIX_BYTES. lia. }
  { unfold PREFIX_BYTES. rewrite Z2Nat.inj_add, <- drop_drop, Hvec by lia.
    change (drop (Z.to_nat 12) (ITEMS_MAGIC ++ to_be 4 (len b) ++ to_be 4 (len header) ++
      header ++ payload_body items)) with (header ++ payload_body items).
    replace (Z.to_nat (len header)) with (length header) by (unfold len; lia). apply drop_app_length. }
  { lia. }
  { apply Forall_and. done. }
  rewrite Hrs in Hlay. cbn [mbind result_bind] in Hlay. rewrite Z.eqb_refl in Hlay. cbn in Hlay.
  split.
  - unfold decode. rewrite Z.gtb_ltb. destruct (Z.ltb_spec MAX_MESSAGE_BYTES (len b)); [lia|].
    cbn [refuse_if mbind result_bind].
    replace (starts_with FILE_CHUNK_MAGIC b) with false by (by rewrite Hvec).
    replace (starts_with ITEMS_MAGIC b) with true by (rewrite Hvec; by rewrite starts_with_app).
    unfold items_decode. rewrite Hlay. cbn [mbind result_bind]. rewrite Hfill. cbn [mbind result_bind].
    apply checked_items.
    + apply Forall_fmap. eapply Forall_impl; [exact Hok|]. intros. by apply item_ok_reread.
    + unfold len. by rewrite length_fmap.
    + replace (batch_bytes (reread reparse <$> items)) with (batch_bytes items); [done|].
      clear. induction items as [|i l IH]; [done|]. cbn. unfold batch_bytes in IH. by rewrite IH.
  - unfold announced_len. rewrite Hvec at 1. rewrite starts_with_app. rewrite Hvec at 1.
    change (drop 4 (ITEMS_MAGIC ++ ?x)) with x.
    pose proof (get_range_app [] (to_be 4 (len b))
                  (to_be 4 (len header) ++ header ++ payload_body items)) as Hg.
    rewrite length_to_be in Hg. cbn [length app] in Hg. rewrite Hg. cbn. by rewrite from_to_be_4 by lia.
Qed.

End Laws.

(** A file chunk comes back from its binary envelope unchanged, and an
    encoded chunk is never mistaken for any other message. *)
Theorem file_chunk_round_trip index data b :
  0 <= index <= u64_max ->
  encode (SyncMessage.FileChunk index data) = Ok b ->
  decode b = Ok (SyncMessage.FileChunk index data).
Proof.
  intros Hi He. unfold encode in He. rewrite bind_unit_ok in He. destruct He as [Hv He].
  apply ok_inj in He as <-. cbn [message_validate] in Hv. rewrite refuse_if_ok in Hv.
  assert (Hb : len data <= FILE_CHUNK_BYTES) by lia.
  assert (Hlen : len (FILE_CHUNK_MAGIC ++ to_be 8 index ++ to_be 4 (len data) ++ data) = 16 + len data).
  { rewrite !len_app, !len_to_be. change (len FILE_CHUNK_MAGIC) with 4. lia. }
  pose proof (len_nonneg data).
  unfold decode. rewrite Hlen, refuse_if_false, starts_with_app
    by (rewrite Z.gtb_ltb, Z.ltb_ge; unfold MAX_MESSAGE_BYTES, FILE_CHUNK_BYTES in *; lia).
  cbn [mbind result_bind]. unfold decode_file_chunk. rewrite Hlen.
  unfold FILE_CHUNK_HEADER_BYTES. rewrite refuse_if_false by lia. cbn [mbind result_bind].
  pose proof (get_range_app FILE_CHUNK_MAGIC (to_be 8 index) (to_be 4 (len data) ++ data)) as H8.
  pose proof (get_range_app (FILE_CHUNK_MAGIC ++ to_be 8 index) (to_be 4 (len data)) data) as H4.
  rewrite <- app_assoc in H4. rewrite length_app, !length_to_be in H4. rewrite length_to_be in H8.
  change (length FILE_CHUNK_MAGIC) with 4%nat in *. cbn [Nat.add] in H4.
  rewrite H8, H4. cbn [fmap option_fmap option_map ok_or mbind result_bind].
  rewrite !from_to_be by (unfold u64_max, FILE_CHUNK_BYTES in *; cbn; lia).
  rewrite refuse_if_false by (rewrite Z.eqb_refl, orb_false_r; lia).
  cbn [mbind result_bind message_validate].
  change (drop (Z.to_nat 16) (FILE_CHUNK_MAGIC ++ to_be 8 index ++ to_be 4 (len data) ++ data)) with data.
  by rewrite refuse_if_false by lia.
Qed.

Lemma checked_ok m m' : checked m = Ok m' -> message_validate m' = Ok tt.
Proof. unfold checked. rewrite bind_unit_ok. by intros [? [= <-]]. Qed.

(** C38: nothing outside the protocol's bounds crosses the codec.  A decoded
    message satisfies every bound and came from at most 32 MiB; an encoded
    message satisfies the same bounds. *)
Theorem codec_is_bounded :
  (forall b m, decode b = Ok m -> len b <= MAX_MESSAGE_BYTES /\ message_ok m) /\
  (forall m b, encode m = Ok b -> len b <= MAX_MESSAGE_BYTES /\ message_ok m).
Proof.
  split.
  - intros b m. unfold decode. rewrite bind_unit_ok, refuse_if_ok. intros [Hl Hd].
    split; [lia|]. apply message_validate_ok. destruct (starts_with FILE_CHUNK_MAGIC b).
    { unfold decode_file_chunk in Hd. rewrite bind_unit_ok in Hd. destruct Hd as [_ Hd].
      apply bind_ok in Hd as (i & _ & Hd). apply bind_ok in Hd as (n & _ & Hd).
      rewrite !bind_unit_ok in Hd. destruct Hd as (_ & Hv & Hd). by apply ok_inj in Hd as <-. }
    destruct (starts_with ITEMS_MAGIC b).
    { apply bind_ok in Hd as (items & _ & Hd). by eapply checked_ok. }
    destruct (parse_json b) as [m'|e]; [by eapply checked_ok|].
    rewrite bind_unit_ok in Hd. by destruct Hd.
  - intros m b He. unfold encode in He. rewrite bind_unit_ok in He. destruct He as [Hv He].
    apply message_validate_ok in Hv as Hok. split; [|done].
    assert (Hjson : forall r : result string bytes,
      (b ← map_err Encode r; _ ← refuse_if (len b >? MAX_MESSAGE_BYTES)
         (MessageTooLarge (len b) MAX_MESSAGE_BYTES); Ok b) = Ok b -> len b <= MAX_MESSAGE_BYTES).
    { intros r (b' & _ & Hb)%bind_ok. rewrite bind_unit_ok, refuse_if_ok in Hb.
      destruct Hb as [? Hb]. apply ok_inj in Hb as <-. lia. }
    destruct m; try (by eapply Hjson; exact He).
    + apply bind_ok in He as (f & Hf & He). apply ok_inj in He as <-.
      apply items_frame_ok in Hf as (h & _ & Hvec & Ht & Hmax).
      rewrite (length_frame _ _ _ Hvec), <- Ht. done.
    + apply ok_inj in He as <-. cbn in Hok. rewrite !len_app, !len_to_be.
      change (len FILE_CHUNK_MAGIC) with 4. unfold FILE_CHUNK_BYTES, MAX_MESSAGE_BYTES in *. lia.
Qed.

(** The version a message declares, where it declares one. *)
Definition declared_version (m : SyncMessage.t) : option Z :=
  match m with
  | SyncMessage.Group v _ | SyncMessage.Probe v _ _ | SyncMessage.ProbeAck v _ _
  | SyncMessage.Hello v _ _ _ _ _ | SyncMessage.FileRequest v _ _ _ _ => Some v
  | _ => None
  end.

(** Fail closed on versions.  A message that declares another protocol
    version is refused with exactly that mismatch whatever its other fields
    hold, also when only the version could be read out of it. *)
Theorem version_mismatch_is_reported b v :
  len b <= MAX_MESSAGE_BYTES -> starts_with FILE_CHUNK_MAGIC b = false ->
  starts_with ITEMS_MAGIC b = false -> v <> PROTOCOL_VERSION ->
  (exists m, parse_json b = Ok m /\ declared_version m = Some v) \/
  (exists e, parse_json b = Err e /\ read_version_header b = Some (Some v)) ->
  decode b = Err (VersionMismatch PROTOCOL_VERSION v).
Proof.
  intros Hl Hc Hi Hv Hor. unfold decode. rewrite refuse_if_false, Hc, Hi by lia. cbn [mbind result_bind].
  assert (check_protocol_version v = Err (VersionMismatch PROTOCOL_VERSION v)) as Hck.
  { unfold check_protocol_version. by rewrite (proj2 (Z.eqb_neq _ _) Hv). }
  destruct Hor as [(m & -> & Hd)|(e & -> & ->)]; [|by rewrite Hck].
  unfold checked. destruct m; cbn in Hd; simplify_eq; cbn [clamp_timestamps message_validate];
    by rewrite Hck.
Qed.

End Codec.

(** ** Concrete inputs

    A stand-in for serde that knows one items header and one hello. *)
Module MessageDemo.

Definition item : SyncItem.t := {|
  SyncItem.item_id := "i1"; SyncItem.content := "hello"; SyncItem.binary_content := [];
  SyncItem.payload_metadata := None; SyncItem.source_app_bundle_id := None;
  SyncItem.source_app_name := None; SyncItem.content_type := TEXT; SyncItem.created_at := 1000;
  SyncItem.deleted := false; SyncItem.content_hash := "h"; SyncItem.origin_device_id := "dev-a";
  SyncItem.pinned := false; SyncItem.pin_order := None; SyncItem.pin_updated_at := 0 |}.
Definition bare_item : SyncItem.t := SyncItem.with_binary (SyncItem.with_content item "") [].
Definition table : list (Z * bool) := [(5, false)].
Definition newer_hello : SyncMessage.t := SyncMessage.Hello 12 "" "" None None 0.

#[local] Existing Instance Demo.toy_crypto.
#[local] Instance codecs : PayloadCodecs := sample_codecs.
#[local] Instance json : WireJson := {|
  write_message _ := Err "unsupported"%string;
  read_message b := if bool_decide (b = as_bytes "{}") then Ok newer_hello else Err "syntax"%string;
  read_summary_body _ := Err "syntax"%string;
  read_version_header _ := None;
  write_header items t :=
    if bool_decide (items = [item] /\ t = table) then Ok (as_bytes "header") else Err "unsupported"%string;
  read_header b := if bool_decide (b = as_bytes "header") then Some ([bare_item], table) else None;
|}.

#[local] Instance laws : WireJsonLaws (fun x => x).
Proof.
  split.
  - intros b items t. cbn. case_bool_decide; [|done]. intros [= <- <-].
    constructor; [cbn; unfold u32_max; lia|constructor].
  - intros items t header. cbn. case_bool_decide as Hb; [|done]. destruct Hb as [-> ->].
    intros [= <-]. done.
  - done.
Qed.

Definition frame : bytes :=
  Demo.result_or [] (encode (SyncMessage.Items [item])).
Lemma encode_frame : encode (SyncMessage.Items [item]) = Ok frame.
Proof. vm_compute. reflexivity. Qed.

End MessageDemo.
#[local] Existing Instance MessageDemo.codecs.
#[local] Existing Instance MessageDemo.json.
#[local] Existing Instance MessageDemo.laws.
#[local] Existing Instance Demo.toy_crypto.

Lemma decode_owned_is_decode_witness :
  decode_owned MessageDemo.frame 23 = Ok (SyncMessage.Items [MessageDemo.item]) /\
  decode_owned MessageDemo.frame 23 = decode MessageDemo.frame.
Proof.
  split; [vm_compute; reflexivity|]. apply (decode_owned_is_decode (fun x => x)).
Defined.

Lemma items_round_trip_witness :
  len MessageDemo.frame = 23 /\
  decode MessageDemo.frame = Ok (SyncMessage.Items (reread (fun x => x) <$> [MessageDemo.item])).
Proof.
  split; [vm_compute; reflexivity|].
  apply (items_round_trip (fun x => x) [MessageDemo.item]); [|apply MessageDemo.encode_frame].
  constructor; [vm_compute; reflexivity|constructor].
Defined.

Lemma file_chunk_round_trip_witness :
  exists b, encode (SyncMessage.FileChunk 7 (as_bytes "abc")) = Ok b /\ len b = 19 /\
    decode b = Ok (SyncMessage.FileChunk 7 (as_bytes "abc")).
Proof.
  eexists. split; [vm_compute; reflexivity|]. split; [vm_compute; reflexivity|].
  apply (file_chunk_round_trip 7 (as_bytes "abc")); [unfold u64_max; lia|vm_compute; reflexivity].
Defined.

Lemma codec_is_bounded_witness :
  len MessageDemo.frame <= MAX_MESSAGE_BYTES /\ message_ok (SyncMessage.Items [MessageDemo.item]).
Proof.
  apply (proj2 codec_is_bounded). apply MessageDemo.encode_frame.
Defined.

Lemma version_mismatch_is_reported_witness :
  decode (as_bytes "{}") = Err (VersionMismatch 11 12).
Proof.
  apply (version_mismatch_is_reported (as_bytes "{}") 12);
    [vm_compute; discriminate|vm_compute; reflexivity|vm_compute; reflexivity|discriminate|].
  left. exists MessageDemo.newer_hello. split; vm_compute; reflexivity.
Defined.
