(* ===== verification/Workspace.v ===== *)
(** A session's summary workspace ([copypaste-p2p/src/sync/workspace.rs]) with
    the session's errors and statistics ([sync/error.rs], [sync/source.rs]):
    the trait as a class of operations, what it promises as laws over an
    abstract view, and the in-memory backend that discharges them. *)

From S2P Require Import Prelude Float64 Bytes Wire Merge Net.

(** ** Errors, statistics and cursors *)

Module SyncIssueCode.
Inductive t :=
| VersionMismatch | ConnectionLost | SecureChannelInterrupted | TimedOut | HistoryBusy
| ResourcesUnavailable | HistoryUnavailable | StorageFull | StoragePermissionDenied
| HistoryLocked | HistoryCorrupt | HistoryIncompatible | LocalPayloadInvalid
| EncryptionUnavailable | MembershipUnavailable | MembershipRejected | InvalidPeerData
| ProtocolLimit | LocalProtocolError | ItemsTooLarge | ItemsUnavailable | ItemsRejected
| ClockSkew | MorePending | UnknownFailure.
#[global] Instance eq_dec : EqDecision t.
Proof. solve_decision. Defined.
End SyncIssueCode.

Inductive SyncError :=
| Protocol (e : ProtocolError)
| Channel (message : string)
| Cancelled
| Diagnostic (code : SyncIssueCode.t)
| Unexpected (expected got : string)
| Source (message : string)
| SelfSync
| PeerOverran
| TooManySummaryPages.
#[export] Instance SyncError_eq_dec : EqDecision SyncError.
Proof. solve_decision. Defined.

Record SyncStats := {
  sent : Z; received : Z; skipped : Z; skipped_too_large : Z; skipped_unavailable : Z;
  skipped_invalid : Z; skipped_future : Z; deferred : Z;
}.
Definition no_stats : SyncStats :=
  {| sent := 0; received := 0; skipped := 0; skipped_too_large := 0; skipped_unavailable := 0;
     skipped_invalid := 0; skipped_future := 0; deferred := 0 |}.

(** [stats.<field> += n] for each field the session counts. *)
Definition add_sent n s := {| sent := sent s + n; received := received s; skipped := skipped s;
  skipped_too_large := skipped_too_large s; skipped_unavailable := skipped_unavailable s;
  skipped_invalid := skipped_invalid s; skipped_future := skipped_future s; deferred := deferred s |}.
Definition add_received n s := {| sent := sent s; received := received s + n; skipped := skipped s;
  skipped_too_large := skipped_too_large s; skipped_unavailable := skipped_unavailable s;
  skipped_invalid := skipped_invalid s; skipped_future := skipped_future s; deferred := deferred s |}.
Definition add_skipped n s := {| sent := sent s; received := received s; skipped := skipped s + n;
  skipped_too_large := skipped_too_large s; skipped_unavailable := skipped_unavailable s;
  skipped_invalid := skipped_invalid s; skipped_future := skipped_future s; deferred := deferred s |}.
Definition add_too_large n s := {| sent := sent s; received := received s; skipped := skipped s;
  skipped_too_large := skipped_too_large s + n; skipped_unavailable := skipped_unavailable s;
  skipped_invalid := skipped_invalid s; skipped_future := skipped_future s; deferred := deferred s |}.
Definition add_unavailable n s := {| sent := sent s; received := received s; skipped := skipped s;
  skipped_too_large := skipped_too_large s; skipped_unavailable := skipped_unavailable s + n;
  skipped_invalid := skipped_invalid s; skipped_future := skipped_future s; deferred := deferred s |}.
Definition add_invalid n s := {| sent := sent s; received := received s; skipped := skipped s;
  skipped_too_large := skipped_too_large s; skipped_unavailable := skipped_unavailable s;
  skipped_invalid := skipped_invalid s + n; skipped_future := skipped_future s; deferred := deferred s |}.
Definition add_future n s := {| sent := sent s; received := received s; skipped := skipped s;
  skipped_too_large := skipped_too_large s; skipped_unavailable := skipped_unavailable s;
  skipped_invalid := skipped_invalid s; skipped_future := skipped_future s + n; deferred := deferred s |}.
Definition add_deferred n s := {| sent := sent s; received := received s; skipped := skipped s;
  skipped_too_large := skipped_too_large s; skipped_unavailable := skipped_unavailable s;
  skipped_invalid := skipped_invalid s; skipped_future := skipped_future s; deferred := deferred s + n |}.

Record SyncCursor := { since_ms : Z; relay_floor_ms : option Z }.
Definition advertise_from (c : SyncCursor) (peer_since_ms : Z) : Z :=
  Z.max 0 (match relay_floor_ms c with
           | Some floor => Z.min floor peer_since_ms
           | None => peer_since_ms
           end).

Record SyncOutcome := {
  stats : SyncStats;
  peer_device_id : string;
  peer_device_name : string;
  peer_profile : option DeviceProfile;
  peer_listen_addr : option SocketAddr;
  cursor : SyncCursor;
  applied_floor : option Z;
}.

(** ** The trait *)

(** [trait SummaryWorkspace]: every method takes the workspace and gives it
    back, or fails, after which the session never uses it again. *)
Class SummaryWorkspace (W : Type) := {
  may_block : list ItemSummary -> W -> bool;
  add_advertised : list ItemSummary -> W -> result SyncError W;
  add_comparison : list ItemSummary -> W -> result SyncError W;
  add_remote : list ItemSummary -> W -> result SyncError W;
  remote_page : nat -> nat -> W -> result SyncError (list (nat * ItemSummary) * W);
  advertised : string -> W -> result SyncError (option ItemSummary * W);
  comparison : string -> W -> result SyncError (option ItemSummary * W);
  wanted : string -> W -> result SyncError (option ItemSummary * W);
  set_wanted : ItemSummary -> W -> result SyncError W;
  remote_wins : ItemSummary -> W -> result SyncError (bool * W);
  consider_wanted : ItemSummary -> W -> result SyncError (bool * W);
  defer : string -> W -> result SyncError W;
  is_deferred : string -> W -> result SyncError (bool * W);
  finish_plan : nat -> W -> result SyncError (list ItemSummary * nat * W);
}.

(** The trait's provided methods, over the required ones. *)
Section Provided.
Context {W : Type}
  (comparison_ wanted_ : string -> W -> result SyncError (option ItemSummary * W))
  (set_wanted_ : ItemSummary -> W -> result SyncError W).

Definition default_remote_wins (item : ItemSummary) (w : W) : result SyncError (bool * W) :=
  '(found, w) ← comparison_ (item_id item) w;
  Ok (match found with None => true | Some local => remote_version_wins local item end, w).

Definition default_consider_wanted (item : ItemSummary) (w : W) : result SyncError (bool * W) :=
  '(found, w) ← wanted_ (item_id item) w;
  if match found with
     | Some seen => negb (bool_decide (merge_decision_by_summary seen item = TakeRemote))
     | None => false
     end then Ok (false, w)
  else w ← set_wanted_ item w; Ok (true, w).
End Provided.

(** ** The abstract view *)

(** What a workspace holds: the advertised rows, the comparison snapshot, every
    remote row in wire order, the plan's wanted rows and the deferred ids. *)
Record View := {
  v_advertised : gmap string ItemSummary;
  v_comparison : gmap string ItemSummary;
  v_remote : list ItemSummary;
  v_wanted : gmap string ItemSummary;
  v_deferred : gset string;
}.
#[export] Instance View_eq_dec : EqDecision View.
Proof. solve_decision. Defined.
Definition empty_view : View :=
  {| v_advertised := ∅; v_comparison := ∅; v_remote := []; v_wanted := ∅; v_deferred := ∅ |}.

Definition insert_all (items : list ItemSummary) (m : gmap string ItemSummary)
    : gmap string ItemSummary :=
  foldl (fun m i => <[item_id i := i]> m) m items.

Definition view_advertise (items : list ItemSummary) (v : View) : View :=
  {| v_advertised := insert_all items (v_advertised v); v_comparison := v_comparison v;
     v_remote := v_remote v; v_wanted := v_wanted v; v_deferred := v_deferred v |}.
Definition view_compare (items : list ItemSummary) (v : View) : View :=
  {| v_advertised := v_advertised v; v_comparison := insert_all items (v_comparison v);
     v_remote := v_remote v; v_wanted := v_wanted v; v_deferred := v_deferred v |}.
Definition view_receive (items : list ItemSummary) (v : View) : View :=
  {| v_advertised := v_advertised v; v_comparison := v_comparison v;
     v_remote := v_remote v ++ items; v_wanted := v_wanted v; v_deferred := v_deferred v |}.
Definition view_want (i : ItemSummary) (v : View) : View :=
  {| v_advertised := v_advertised v; v_comparison := v_comparison v; v_remote := v_remote v;
     v_wanted := <[item_id i := i]> (v_wanted v); v_deferred := v_deferred v |}.
Definition view_defer (ids : gset string) (v : View) : View :=
  {| v_advertised := v_advertised v; v_comparison := v_comparison v; v_remote := v_remote v;
     v_wanted := v_wanted v; v_deferred := v_deferred v ∪ ids |}.

Definition view_page (after limit : nat) (v : View) : list (nat * ItemSummary) :=
  take limit (drop after (imap (fun i item => (S i, item)) (v_remote v))).

Definition view_wins (item : ItemSummary) (v : View) : bool :=
  match v_comparison v !! item_id item with
  | None => true
  | Some local => remote_version_wins local item
  end.
(** Whether the plan keeps the version it already holds of this item. *)
Definition view_keeps (item : ItemSummary) (v : View) : bool :=
  match v_wanted v !! item_id item with
  | Some seen => negb (bool_decide (merge_decision_by_summary seen item = TakeRemote))
  | None => false
  end.

Definition values (m : gmap string ItemSummary) : list ItemSummary := snd <$> map_to_list m.
Definition newest_first (a b : ItemSummary) : Prop := created_at b <= created_at a.
#[export] Instance newest_first_dec a b : Decision (newest_first a b).
Proof. unfold newest_first. apply _. Defined.

Definition ids_of (l : list ItemSummary) : gset string := list_to_set (item_id <$> l).

(** What the session relies on of any backend: an operation that succeeds does
    to the view what its name says. *)
Class WorkspaceLaws (W : Type) `{SummaryWorkspace W} (view : W -> View) : Prop := {
  law_advertised items w w' : add_advertised items w = Ok w' -> view w' = view_advertise items (view w);
  law_comparison items w w' : add_comparison items w = Ok w' -> view w' = view_compare items (view w);
  law_remote items w w' : add_remote items w = Ok w' -> view w' = view_receive items (view w);
  law_page after limit w page w' : remote_page after limit w = Ok (page, w') ->
    page = view_page after limit (view w) /\ view w' = view w;
  law_get_advertised id w r w' : advertised id w = Ok (r, w') ->
    r = v_advertised (view w) !! id /\ view w' = view w;
  law_set_wanted item w w' : set_wanted item w = Ok w' -> view w' = view_want item (view w);
  law_wins item w b w' : remote_wins item w = Ok (b, w') ->
    b = view_wins item (view w) /\ view w' = view w;
  law_consider item w b w' : consider_wanted item w = Ok (b, w') ->
    b = negb (view_keeps item (view w)) /\
    view w' = if view_keeps item (view w) then view w else view_want item (view w);
  law_defer id w w' : defer id w = Ok w' -> view w' = view_defer {[id]} (view w);
  law_is_deferred id w b w' : is_deferred id w = Ok (b, w') ->
    b = bool_decide (id ∈ v_deferred (view w)) /\ view w' = view w;
  law_finish limit w selected dropped w' : finish_plan limit w = Ok (selected, dropped, w') ->
    exists ordered, ordered ≡ₚ values (v_wanted (view w)) /\
      StronglySorted newest_first ordered /\
      selected = take limit ordered /\ dropped = (length ordered - limit)%nat /\
      view w' = view_defer (ids_of (drop limit ordered)) (view w);
}.

(** ** The in-memory backend *)

(** The iteration order of a [HashMap] and a [HashSet]: unspecified, but every
    entry once.  An unstable sort is a stable sort of some permutation of its
    input, so with an arbitrary iteration order the stable sort below covers
    every result [sort_unstable_by_key] can give. *)
Class HashOrder := {
  hash_values : gmap string ItemSummary -> list ItemSummary;
  hash_values_perm m : hash_values m ≡ₚ values m;
  hash_ids : gset string -> list string;
  hash_ids_perm s : hash_ids s ≡ₚ elements s;
}.

Definition MemorySummaryWorkspace : Type := View.

#[export] Instance memory_workspace `{HashOrder} : SummaryWorkspace MemorySummaryWorkspace := {
  may_block _ _ := false;
  add_advertised items w := Ok (view_advertise items w);
  add_comparison items w := Ok (view_compare items w);
  add_remote items w := Ok (view_receive items w);
  remote_page after limit w := Ok (view_page after limit w, w);
  advertised id w := Ok (v_advertised w !! id, w);
  comparison id w := Ok (v_comparison w !! id, w);
  wanted id w := Ok (v_wanted w !! id, w);
  set_wanted item w := Ok (view_want item w);
  remote_wins item w :=
    Ok (match v_comparison w !! item_id item with
        | None => true
        | Some local => remote_version_wins local item
        end, w);
  consider_wanted item w :=
    if match v_wanted w !! item_id item with
       | Some seen => negb (bool_decide (merge_decision_by_summary seen item = TakeRemote))
       | None => false
       end then Ok (false, w) else Ok (true, view_want item w);
  defer id w := Ok (view_defer {[id]} w);
  is_deferred id w := Ok (bool_decide (id ∈ v_deferred w), w);
  finish_plan limit w :=
    let ordered := merge_sort newest_first (hash_values (v_wanted w)) in
    Ok (take limit ordered, (length ordered - limit)%nat,
        view_defer (ids_of (drop limit ordered)) w);
}.

#[export] Instance newest_first_total : Total newest_first.
Proof. intros a b. unfold newest_first. lia. Qed.
#[export] Instance newest_first_trans : Transitive newest_first.
Proof. intros a b c. unfold newest_first. lia. Qed.

#[export] Instance memory_laws `{HashOrder} : WorkspaceLaws MemorySummaryWorkspace (fun w => w).
Proof.
  split; cbn; intros; simplify_eq; try done.
  - change (match v_wanted w !! item_id item with
            | Some seen => negb (bool_decide (merge_decision_by_summary seen item = TakeRemote))
            | None => false
            end) with (view_keeps item w) in *.
    destruct (view_keeps item w); by simplify_eq.
  - exists (merge_sort newest_first (hash_values (v_wanted w))).
    split_and!; [|apply (StronglySorted_merge_sort newest_first)|done|done|done].
    by rewrite merge_sort_Permutation, hash_values_perm.
Qed.

(** [MemorySummaryWorkspace::spill_into]: each collection drained into the
    target in batches of at most 256. *)
Section Spill.
Context `{HashOrder} {W : Type} `{SummaryWorkspace W}.

Fixpoint push_batches (add : list ItemSummary -> W -> result SyncError W)
    (items batch : list ItemSummary) (w : W) : result SyncError (list ItemSummary * W) :=
  match items with
  | [] => Ok (batch, w)
  | item :: rest =>
    let batch := batch ++ [item] in
    if (length batch =? 256)%nat
    then w ← add batch w; push_batches add rest [] w
    else push_batches add rest batch w
  end.

Definition drain (add : list ItemSummary -> W -> result SyncError W)
    (items : list ItemSummary) (w : W) : result SyncError W :=
  '(batch, w) ← push_batches add items [] w;
  add batch w.

Fixpoint for_each {A} (f : A -> W -> result SyncError W) (l : list A) (w : W)
    : result SyncError W :=
  match l with
  | [] => Ok w
  | x :: l' => w ← f x w; for_each f l' w
  end.

Definition spill_into (m : MemorySummaryWorkspace) (target : W) : result SyncError W :=
  w ← drain add_advertised (hash_values (v_advertised m)) target;
  w ← drain add_comparison (hash_values (v_comparison m)) w;
  w ← drain add_remote (v_remote m) w;
  w ← for_each set_wanted (hash_values (v_wanted m)) w;
  for_each defer (hash_ids (v_deferred m)) w.
End Spill.

(** ** Views of well-keyed workspaces *)

Definition keyed (m : gmap string ItemSummary) : Prop :=
  forall k i, m !! k = Some i -> item_id i = k.
Record view_ok (v : View) : Prop := {
  advertised_keyed : keyed (v_advertised v);
  comparison_keyed : keyed (v_comparison v);
  wanted_keyed : keyed (v_wanted v);
}.

Lemma keyed_insert m i : keyed m -> keyed (<[item_id i := i]> m).
Proof.
  intros Hm k j. rewrite lookup_insert_Some. intros [[<- <-]|[_ Hk]]; [done|by apply Hm].
Qed.
Lemma keyed_insert_all l m : keyed m -> keyed (insert_all l m).
Proof. revert m; induction l as [|i l IH]; intros m Hm; cbn; [done|]. by apply IH, keyed_insert. Qed.

Lemma insert_all_app l k m : insert_all (l ++ k) m = insert_all k (insert_all l m).
Proof. apply foldl_app. Qed.

Lemma insert_all_none l m k : k ∉ (item_id <$> l) -> insert_all l m !! k = m !! k.
Proof.
  revert m; induction l as [|i l IH]; intros m; cbn; [done|].
  rewrite not_elem_of_cons. intros [Hne Hk]. change (insert_all l (<[item_id i:=i]> m) !! k = m !! k).
  rewrite IH by done. by rewrite lookup_insert_ne.
Qed.

Lemma insert_all_some l m i :
  NoDup (item_id <$> l) -> i ∈ l -> insert_all l m !! item_id i = Some i.
Proof.
  revert m; induction l as [|j l IH]; intros m Hnd Hi; [by apply elem_of_nil in Hi|].
  cbn in Hnd. apply NoDup_cons in Hnd as [Hj Hnd]. apply elem_of_cons in Hi as [->|Hi].
  - change (insert_all l (<[item_id j:=j]> m) !! item_id j = Some j).
    rewrite insert_all_none by done. apply lookup_insert_eq.
  - by apply IH.
Qed.

Lemma values_some m i : keyed m -> i ∈ values m <-> m !! item_id i = Some i.
Proof.
  intros Hm. unfold values. rewrite list_elem_of_fmap. split.
  - intros ([k j] & -> & Hk%elem_of_map_to_list). cbn. by rewrite (Hm _ _ Hk).
  - intros Hi. exists (item_id i, i). split; [done|by apply elem_of_map_to_list].
Qed.

Lemma NoDup_values_ids m : keyed m -> NoDup (item_id <$> values m).
Proof.
  intros Hm. unfold values. rewrite <- list_fmap_compose.
  replace ((item_id ∘ snd) <$> map_to_list m) with (fst <$> map_to_list m).
  - apply NoDup_fst_map_to_list.
  - apply list_fmap_ext. intros n [k i] Hn. cbn. symmetry. apply Hm, elem_of_map_to_list.
    by eapply list_elem_of_lookup_2.
Qed.

(** Inserting a map's values back gives the map. *)
Lemma insert_all_values m l : keyed m -> l ≡ₚ values m -> insert_all l ∅ = m.
Proof.
  intros Hm Hl. assert (NoDup (item_id <$> l)) as Hnd by (rewrite Hl; by apply NoDup_values_ids).
  apply map_eq. intros k. destruct (m !! k) as [i|] eqn:Hk.
  - pose proof (Hm _ _ Hk) as Hi. rewrite <- Hi. apply insert_all_some; [done|].
    rewrite Hl. apply values_some; [done|]. by rewrite Hi.
  - rewrite insert_all_none; [by apply lookup_empty|]. rewrite list_elem_of_fmap.
    intros (i & -> & Hi). rewrite Hl, values_some in Hi by done. by rewrite Hi in Hk.
Qed.

Section SpillSpec.
Context `{HashOrder} {W : Type} `{SummaryWorkspace W} (view : W -> View) `{!WorkspaceLaws W view}.

Lemma push_batches_spec add step items : forall batch w rest w',
  (forall l w w', add l w = Ok w' -> view w' = step l (view w)) ->
  (forall l k v, step (l ++ k) v = step k (step l v)) ->
  push_batches add items batch w = Ok (rest, w') ->
  step rest (view w') = step (batch ++ items) (view w).
Proof.
  induction items as [|i items IH]; intros batch w rest w' Hadd Happ; cbn.
  - intros [= <- <-]. by rewrite app_nil_r.
  - case_match eqn:E.
    + intros (w1 & H1 & H2)%bind_ok. rewrite (IH _ _ _ _ Hadd Happ H2), (Hadd _ _ _ H1). cbn.
      by rewrite <- Happ, <- app_assoc.
    + intros H1. rewrite (IH _ _ _ _ Hadd Happ H1). by rewrite <- app_assoc.
Qed.

Lemma drain_spec add step items w w' :
  (forall l w w', add l w = Ok w' -> view w' = step l (view w)) ->
  (forall l k v, step (l ++ k) v = step k (step l v)) ->
  drain add items w = Ok w' -> view w' = step items (view w).
Proof.
  intros Hadd Happ Hd. unfold drain in Hd. apply bind_ok in Hd as ([batch w1] & H1 & H2). rewrite (Hadd _ _ _ H2).
  exact (push_batches_spec _ _ _ _ _ _ _ Hadd Happ H1).
Qed.

Lemma for_each_spec {A} (f : A -> W -> result SyncError W) (step : A -> View -> View) l w w' :
  (forall x w w', f x w = Ok w' -> view w' = step x (view w)) ->
  for_each f l w = Ok w' -> view w' = foldl (fun v x => step x v) (view w) l.
Proof.
  intros Hf. revert w; induction l as [|x l IH]; intros w; cbn; [by intros [= <-]|].
  intros (w1 & H1 & H2)%bind_ok. rewrite (IH _ H2). by rewrite (Hf _ _ _ H1).
Qed.

Lemma view_want_all l v :
  foldl (fun v x => view_want x v) v l =
  {| v_advertised := v_advertised v; v_comparison := v_comparison v; v_remote := v_remote v;
     v_wanted := insert_all l (v_wanted v); v_deferred := v_deferred v |}.
Proof. revert v; induction l as [|i l IH]; intros v; cbn; [by destruct v|]. by rewrite IH. Qed.

Lemma view_defer_all l v :
  foldl (fun v x => view_defer {[x]} v) v l = view_defer (list_to_set l) v.
Proof.
  revert v; induction l as [|i l IH]; intros v; cbn.
  - destruct v; unfold view_defer; cbn. f_equal. set_solver.
  - rewrite IH. unfold view_defer; cbn. f_equal. set_solver.
Qed.

(** Moving a running session into another backend loses nothing: if the
    spill succeeds, the target holds exactly what the memory workspace held,
    whatever order its maps were drained in. *)
Theorem spill_preserves_view m target w' :
  view_ok m -> view target = empty_view -> spill_into m target = Ok w' -> view w' = m.
Proof.
  intros [Ha Hc Hw] Hempty Hs. unfold spill_into in Hs.
  apply bind_ok in Hs as (w1 & H1 & Hs). apply bind_ok in Hs as (w2 & H2 & Hs).
  apply bind_ok in Hs as (w3 & H3 & Hs). apply bind_ok in Hs as (w4 & H4 & H5).
  apply (for_each_spec _ (fun id => view_defer {[id]})) in H5; [|apply law_defer].
  apply (for_each_spec _ view_want) in H4; [|apply law_set_wanted].
  apply (drain_spec _ view_receive) in H3; [|apply law_remote|].
  2: { intros l k v. unfold view_receive; cbn. by rewrite app_assoc. }
  apply (drain_spec _ view_compare) in H2; [|apply law_comparison|].
  2: { intros l k v. unfold view_compare; cbn. by rewrite insert_all_app. }
  apply (drain_spec _ view_advertise) in H1; [|apply law_advertised|].
  2: { intros l k v. unfold view_advertise; cbn. by rewrite insert_all_app. }
  rewrite H5, view_defer_all, H4, view_want_all, H3, H2, H1, Hempty. cbn.
  rewrite (insert_all_values (v_advertised m)), (insert_all_values (v_comparison m)),
    (insert_all_values (v_wanted m)) by first [done|apply hash_values_perm]. destruct m; unfold view_defer; cbn in *.
  f_equal. apply set_eq. intros id. rewrite elem_of_union, elem_of_list_to_set, hash_ids_perm, elem_of_elements.
  set_solver.
Qed.
End SpillSpec.

(** ** Concrete inputs *)
Module WorkspaceDemo.
#[local] Instance plain_order : HashOrder :=
  {| hash_values := values; hash_values_perm _ := Permutation_refl _;
     hash_ids s := elements s; hash_ids_perm _ := Permutation_refl _ |}.

Definition version (id : string) (stamp : Z) : ItemSummary :=
  {| item_id := id; created_at := stamp; deleted := false; content_hash := "h";
     origin_device_id := "dev"; pinned := false; pin_order := None; pin_updated_at := 0 |}.
Definition small : View :=
  {| v_advertised := {["a"%string := version "a" 1]}; v_comparison := {["b"%string := version "b" 2]};
     v_remote := [version "c" 3; version "c" 4]; v_wanted := {["c"%string := version "c" 4]};
     v_deferred := {["d"%string]} |}.
Lemma small_ok : view_ok small.
Proof. split; unfold keyed; cbn; intros k i Hk; by apply lookup_singleton_Some in Hk as [<- <-]. Qed.
Lemma spill_small : spill_into small empty_view = Ok small.
Proof. vm_compute. reflexivity. Qed.
End WorkspaceDemo.

Lemma spill_preserves_view_witness :
  exists w' : MemorySummaryWorkspace,
    @spill_into WorkspaceDemo.plain_order _ (@memory_workspace WorkspaceDemo.plain_order)
      WorkspaceDemo.small empty_view = Ok w' /\ w' = WorkspaceDemo.small.
Proof.
  exists WorkspaceDemo.small. split; [apply WorkspaceDemo.spill_small|].
  apply (@spill_preserves_view WorkspaceDemo.plain_order _ (@memory_workspace WorkspaceDemo.plain_order)
    (fun w => w) _ WorkspaceDemo.small empty_view);
    [apply WorkspaceDemo.small_ok|reflexivity|apply WorkspaceDemo.spill_small].
Defined.
