(* ===== verification/Plan.v ===== *)
(** What to ask a peer for, and how far the cursor may move
    ([copypaste-p2p/src/sync/plan.rs], [sync/summary.rs]). *)

From S2P Require Import Prelude Float64 Bytes Wire Merge Workspace.

Definition MAX_FUTURE_SKEW_MS : Z := 24 * 60 * 60 * 1000.
Definition PAGE : nat := 256.
Definition MAX_REQUESTS : nat := Z.to_nat MAX_REQUEST_IDS_PER_MESSAGE.
(** Fuel of the loops over remote pages: a session holds at most sixteen pages
    of 10,000 summaries, so 625 workspace pages of 256 and the empty one that
    ends the loop. *)
Definition PAGE_FUEL : nat := 626.
#[global] Arguments PAGE : simpl never.
#[global] Arguments MAX_REQUESTS : simpl never.
#[global] Arguments PAGE_FUEL : simpl never.

Definition summary_key (s : ItemSummary) : Z := Z.max (created_at s) (pin_updated_at s).

(** ** The loop over the workspace's remote pages *)

Section Walk.
Context {W : Type} `{SummaryWorkspace W} {A : Type}.
Context (f : ItemSummary -> A -> W -> result SyncError (A * W)).

(** [for (next, r) in page { cursor = next; ... }]. *)
Fixpoint walk_page (page : list (nat * ItemSummary)) (cursor : nat) (acc : A) (w : W)
    : result SyncError (nat * A * W) :=
  match page with
  | [] => Ok (cursor, acc, w)
  | (next, r) :: rest =>
    '(acc, w) ← f r acc w;
    walk_page rest next acc w
  end.

(** [loop { let page = workspace.remote_page(cursor, 256)?; ... }]: [None]
    only when the fuel runs out. *)
Fixpoint walk (fuel : nat) (cursor : nat) (acc : A) (w : W) : option (result SyncError (A * W)) :=
  match fuel with
  | O => None
  | S fuel =>
    match remote_page cursor PAGE w with
    | Err e => Some (Err e)
    | Ok ([], w) => Some (Ok (acc, w))
    | Ok (page, w) =>
      match walk_page page cursor acc w with
      | Err e => Some (Err e)
      | Ok (cursor, acc, w) => walk fuel cursor acc w
      end
    end
  end.
End Walk.

(** ** Planning *)

Section Plan.
Context {W : Type} `{SummaryWorkspace W}.

(** One offered version: the body of the loop of [plan_workspace]. *)
Definition plan_one (ceiling : Z) (r : ItemSummary) (stats : SyncStats) (w : W)
    : result SyncError (SyncStats * W) :=
  if summary_key r >? ceiling then
    w ← defer (item_id r) w;
    Ok (add_future 1 (add_skipped 1 stats), w)
  else
    '(wins, w) ← remote_wins r w;
    if negb wins then Ok (add_skipped 1 stats, w) else
    '(taken, w) ← consider_wanted r w;
    if negb taken then Ok (add_skipped 1 stats, w) else Ok (stats, w).

(** [selected.into_iter().map(|s| (s.item_id.clone(), s)).collect()]. *)
Definition by_id (selected : list ItemSummary) : gmap string ItemSummary := insert_all selected ∅.

Definition plan_workspace (now : Z) (stats : SyncStats) (w : W)
    : option (result SyncError (gmap string ItemSummary * SyncStats * W)) :=
  let ceiling := i64_saturating_add now MAX_FUTURE_SKEW_MS in
  match walk (plan_one ceiling) PAGE_FUEL 0 stats w with
  | None => None
  | Some r => Some (
      '(stats, w) ← r;
      '(selected, dropped, w) ← finish_plan MAX_REQUESTS w;
      let stats := if (0 <? dropped)%nat
                   then add_deferred (Z.of_nat dropped) (add_skipped (Z.of_nat dropped) stats)
                   else stats in
      Ok (by_id selected, stats, w))
  end.

(** [workspace_watermark]. *)
Definition watermark_one (wanted : gmap string ItemSummary) (attempted : gset string)
    (s : ItemSummary) (acc : Z * Z) (w : W) : result SyncError ((Z * Z) * W) :=
  let '(reached, blocked) := acc in
  '(deferred, w) ← is_deferred (item_id s) w;
  let unresolved := deferred || (contains_key wanted (item_id s)
                                 && negb (bool_decide (item_id s ∈ attempted))) in
  Ok (if unresolved then (reached, Z.min blocked (summary_key s))
      else (Z.max reached (summary_key s), blocked), w).

Definition workspace_watermark (previous : Z) (wanted : gmap string ItemSummary)
    (attempted : gset string) (w : W) : option (result SyncError Z) :=
  match walk (watermark_one wanted attempted) PAGE_FUEL 0 (previous, i64_max) w with
  | None => None
  | Some r => Some ('((reached, blocked), _) ← r; Ok (Z.min reached blocked))
  end.

(** [requested_advertised] ([sync/session.rs]). *)
Fixpoint requested_advertised (requested : list string) (acc : gmap string ItemSummary) (w : W)
    : result SyncError (gmap string ItemSummary * W) :=
  match requested with
  | [] => Ok (acc, w)
  | id :: rest =>
    '(found, w) ← advertised id w;
    requested_advertised rest (match found with Some i => <[id := i]> acc | None => acc end) w
  end.
End Plan.

(** ** The reference plan, over plain maps *)

(** Newest first, at most as many as one request names: some ordering of the
    wanted versions by falling [created_at]. *)
Definition newest_order (newest : gmap string ItemSummary -> list ItemSummary) : Prop :=
  forall m, newest m ≡ₚ values m /\ StronglySorted newest_first (newest m).

Record PlanState := { p_stats : SyncStats; p_wanted : gmap string ItemSummary; p_deferred : gset string }.

(** The loop body of [plan]. *)
Definition offer (local : gmap string ItemSummary) (ceiling : Z) (p : PlanState) (r : ItemSummary)
    : PlanState :=
  if summary_key r >? ceiling then
    {| p_stats := add_future 1 (add_skipped 1 (p_stats p)); p_wanted := p_wanted p;
       p_deferred := p_deferred p ∪ {[item_id r]} |}
  else if negb (match local !! item_id r with
                | None => true
                | Some l => remote_version_wins l r
                end) then
    {| p_stats := add_skipped 1 (p_stats p); p_wanted := p_wanted p; p_deferred := p_deferred p |}
  else if match p_wanted p !! item_id r with
          | Some seen => negb (bool_decide (merge_decision_by_summary seen r = TakeRemote))
          | None => false
          end then
    {| p_stats := add_skipped 1 (p_stats p); p_wanted := p_wanted p; p_deferred := p_deferred p |}
  else
    {| p_stats := p_stats p; p_wanted := <[item_id r := r]> (p_wanted p); p_deferred := p_deferred p |}.

(** [plan]. *)
Definition plan (newest : gmap string ItemSummary -> list ItemSummary)
    (local : gmap string ItemSummary) (remote : list ItemSummary) (now : Z) (stats : SyncStats)
    : PlanState :=
  let ceiling := i64_saturating_add now MAX_FUTURE_SKEW_MS in
  let p := foldl (offer local ceiling)
             {| p_stats := stats; p_wanted := ∅; p_deferred := ∅ |} remote in
  if (MAX_REQUESTS <? size (p_wanted p))%nat then
    let keep := ids_of (take MAX_REQUESTS (newest (p_wanted p))) in
    let dropped := Z.of_nat (size (p_wanted p)) - Z.of_nat (size keep) in
    {| p_stats := add_deferred dropped (add_skipped dropped (p_stats p));
       p_wanted := map_retain (fun id _ => bool_decide (id ∈ keep)) (p_wanted p);
       p_deferred := p_deferred p ∪ (dom (p_wanted p) ∖ keep) |}
  else p.

(** ** The page loop is a fold over the remote rows *)

Lemma view_page_items after limit v :
  snd <$> view_page after limit v = take limit (drop after (v_remote v)).
Proof.
  unfold view_page. rewrite fmap_take, fmap_drop. do 2 f_equal.
  rewrite fmap_imap. transitivity (imap (fun _ x => x) (v_remote v)).
  - apply imap_ext. done.
  - apply list_eq. intros i. rewrite list_lookup_imap. by destruct (v_remote v !! i).
Qed.

Lemma view_page_last after limit v n r :
  last (view_page after limit v) = Some (n, r) ->
  n = (after + length (view_page after limit v))%nat.
Proof.
  rewrite last_lookup. set (len_ := length (view_page after limit v)).
  unfold view_page. rewrite lookup_take_Some, lookup_drop, list_lookup_imap.
  intros [Hr Hlt]. destruct (v_remote v !! _) eqn:E; [|done]. cbn in Hr. injection Hr as <- <-.
  apply lookup_lt_Some in E. assert (0 < len_)%nat; [|lia].
  subst len_. unfold view_page. rewrite length_take, length_drop, length_imap. lia.
Qed.

Lemma length_view_page after limit v :
  length (view_page after limit v) = Nat.min limit (length (v_remote v) - after).
Proof. unfold view_page. by rewrite length_take, length_drop, length_imap. Qed.

Section WalkSpec.
Context {W : Type} `{SummaryWorkspace W} (view : W -> View) `{!WorkspaceLaws W view} {A : Type}.
Context (f : ItemSummary -> A -> W -> result SyncError (A * W)) (g : A * View -> ItemSummary -> A * View).
Hypothesis f_refines : forall r acc w acc' w', f r acc w = Ok (acc', w') -> (acc', view w') = g (acc, view w) r.
Hypothesis g_remote : forall acc v r, v_remote (snd (g (acc, v) r)) = v_remote v.

Lemma walk_page_spec page : forall cursor acc w cursor' acc' w',
  walk_page f page cursor acc w = Ok (cursor', acc', w') ->
  (acc', view w') = foldl g (acc, view w) (snd <$> page) /\
  cursor' = match last page with Some (n, _) => n | None => cursor end /\
  v_remote (view w') = v_remote (view w).
Proof.
  induction page as [|[n r] page IH]; intros cursor acc w cursor' acc' w'; cbn.
  - by intros [= <- <- <-].
  - intros Hp. apply bind_ok in Hp as ([acc1 w1] & H1 & H2). apply f_refines in H1.
    destruct (IH _ _ _ _ _ _ H2) as (Hf & Hc & Hr). rewrite Hf, <- H1. split_and!; [done| |].
    + rewrite Hc. change (match page with [] => Some (n, r) | _ :: _ => last page end) with (last ((n, r) :: page)).
      rewrite last_cons. by destruct (last page) as [[? ?]|].
    + rewrite Hr. transitivity (v_remote (snd (g (acc, view w) r))); [by rewrite <- H1|apply g_remote].
Qed.

Lemma walk_spec fuel : forall cursor acc w acc' w',
  walk f fuel cursor acc w = Some (Ok (acc', w')) ->
  (acc', view w') = foldl g (acc, view w) (drop cursor (v_remote (view w))) /\
  v_remote (view w') = v_remote (view w).
Proof.
  induction fuel as [|fuel IH]; intros cursor acc w acc' w'; cbn [walk]; [done|].
  destruct (remote_page cursor PAGE w) as [[page w1]|e] eqn:Hp; [|done].
  apply law_page in Hp as [-> Hv]. pose proof (length_view_page cursor PAGE (view w)) as Hl.
  pose proof (view_page_items cursor PAGE (view w)) as Hi.
  pose proof (view_page_last cursor PAGE (view w)) as Hlast.
  destruct (view_page cursor PAGE (view w)) as [|p page].
  - intros [= <- <-]. rewrite Hv. split; [|done]. cbn in Hl. rewrite drop_ge by (unfold PAGE in *; lia). done.
  - destruct (walk_page f (p :: page) cursor acc w1) as [[[cursor2 acc2] w2]|e] eqn:Hw; [|done].
    apply walk_page_spec in Hw as (Hf & Hc & Hr). intros Hrest.
    destruct (IH _ _ _ _ _ Hrest) as [He Hr']. rewrite Hr', Hr, Hv. split; [|done].
    rewrite He, Hf, Hr, Hi, Hv, <- foldl_app. f_equal.
    destruct (last (p :: page)) as [[n r]|] eqn:El; [|by apply last_None in El].
    rewrite Hc, (Hlast _ _ eq_refl), Hl.
    rewrite <- (take_drop PAGE (drop cursor (v_remote (view w)))) at 2. f_equal.
    rewrite drop_drop. destruct (Nat.min_spec PAGE (length (v_remote (view w)) - cursor)) as [[? ->]|[? ->]]; [done|].
    rewrite !drop_ge by lia. done.
Qed.

(** Enough fuel: one round per page of 256 and one for the empty page. *)
Lemma walk_fuel fuel : forall cursor acc w,
  (length (v_remote (view w)) - cursor <= fuel * PAGE)%nat -> walk f (S fuel) cursor acc w <> None.
Proof.
  induction fuel as [|fuel IH]; intros cursor acc w Hlen; cbn [walk];
    destruct (remote_page cursor PAGE w) as [[page w1]|e] eqn:Hp; try done;
    apply law_page in Hp as [-> Hv]; pose proof (length_view_page cursor PAGE (view w)) as Hl;
    pose proof (view_page_last cursor PAGE (view w)) as Hlast;
    destruct (view_page cursor PAGE (view w)) as [|p page]; try done.
  - cbn in Hl. lia.
  - destruct (walk_page f (p :: page) cursor acc w1) as [[[cursor2 acc2] w2]|e] eqn:Hw; [|done].
    apply walk_page_spec in Hw as (_ & Hc & Hr). apply IH. rewrite Hr, Hv.
    destruct (last (p :: page)) as [[n r]|] eqn:El; [|by apply last_None in El].
    rewrite Hc, (Hlast _ _ eq_refl), Hl. lia.
Qed.
End WalkSpec.

(** ** Refinement of the reference plan *)

Definition plan_step (ceiling : Z) (p : SyncStats * View) (r : ItemSummary) : SyncStats * View :=
  let '(stats, v) := p in
  if summary_key r >? ceiling then (add_future 1 (add_skipped 1 stats), view_defer {[item_id r]} v)
  else if negb (view_wins r v) then (add_skipped 1 stats, v)
  else if view_keeps r v then (add_skipped 1 stats, v) else (stats, view_want r v).

Definition watermark_step (wanted : gmap string ItemSummary) (attempted : gset string)
    (p : (Z * Z) * View) (r : ItemSummary) : (Z * Z) * View :=
  let '((reached, blocked), v) := p in
  (if bool_decide (item_id r ∈ v_deferred v)
      || (contains_key wanted (item_id r) && negb (bool_decide (item_id r ∈ attempted)))
   then (reached, Z.min blocked (summary_key r)) else (Z.max reached (summary_key r), blocked), v).

(** The plan a workspace holds, and the rows planning leaves alone. *)
Definition planned (p : SyncStats * View) : PlanState :=
  {| p_stats := fst p; p_wanted := v_wanted (snd p); p_deferred := v_deferred (snd p) |}.
Definition fixed_rows (v : View) := (v_advertised v, v_comparison v, v_remote v).

Lemma plan_step_fixed ceiling p r : fixed_rows (snd (plan_step ceiling p r)) = fixed_rows (snd p).
Proof. destruct p. unfold plan_step. by repeat case_match. Qed.

Lemma plan_step_offer ceiling p r :
  planned (plan_step ceiling p r) = offer (v_comparison (snd p)) ceiling (planned p) r.
Proof.
  destruct p as [stats v]. unfold plan_step, offer, planned; cbn [fst snd p_stats p_wanted p_deferred].
  fold (view_wins r v). fold (view_keeps r v).
  destruct (summary_key r >? ceiling); [done|].
  destruct (view_wins r v); cbn [negb]; [|done]. by destruct (view_keeps r v).
Qed.

Lemma plan_steps_offer ceiling l : forall p,
  planned (foldl (plan_step ceiling) p l) = foldl (offer (v_comparison (snd p)) ceiling) (planned p) l /\
  fixed_rows (snd (foldl (plan_step ceiling) p l)) = fixed_rows (snd p).
Proof.
  induction l as [|r l IH]; intros p; [done|]. cbn [foldl].
  pose proof (plan_step_fixed ceiling p r) as Hfix. destruct (IH (plan_step ceiling p r)) as [-> ->].
  rewrite plan_step_offer, Hfix. split; [|done]. do 2 f_equal. unfold fixed_rows in Hfix. congruence.
Qed.

Section Refines.
Context {W : Type} `{SummaryWorkspace W} (view : W -> View) `{!WorkspaceLaws W view}.

Lemma plan_one_refines ceiling r stats w stats' w' :
  plan_one ceiling r stats w = Ok (stats', w') ->
  (stats', view w') = plan_step ceiling (stats, view w) r.
Proof.
  unfold plan_one, plan_step. destruct (summary_key r >? ceiling).
  - intros (w1 & H1 & [= <- <-])%bind_ok. by rewrite (law_defer _ _ _ H1).
  - intros Hb. apply bind_ok in Hb as ([wins w1] & H1 & Hb). apply law_wins in H1 as [-> Hv1].
    destruct (view_wins r (view w)); cbn [negb] in *; [|injection Hb as <- <-; by rewrite Hv1].
    apply bind_ok in Hb as ([taken w2] & H2 & Hb). apply law_consider in H2 as [-> Hv2].
    rewrite Hv1 in *. destruct (view_keeps r (view w)); cbn [negb] in *; injection Hb as <- <-; by rewrite Hv2.
Qed.

Lemma watermark_one_refines wanted attempted r acc w acc' w' :
  watermark_one wanted attempted r acc w = Ok (acc', w') ->
  (acc', view w') = watermark_step wanted attempted (acc, view w) r.
Proof.
  unfold watermark_one, watermark_step. destruct acc as [reached blocked].
  intros Hb. apply bind_ok in Hb as ([d w1] & H1 & Hb). apply law_is_deferred in H1 as [-> Hv].
  injection Hb as <- <-. by rewrite Hv.
Qed.

Lemma plan_step_remote ceiling acc v r : v_remote (snd (plan_step ceiling (acc, v) r)) = v_remote v.
Proof. unfold plan_step. by repeat case_match. Qed.

(** A plan that succeeds is the reference fold, then the finish. *)
Lemma plan_workspace_inv now stats w selected stats' w' :
  plan_workspace now stats w = Some (Ok (selected, stats', w')) ->
  exists p ordered,
    p = foldl (offer (v_comparison (view w)) (i64_saturating_add now MAX_FUTURE_SKEW_MS))
          {| p_stats := stats; p_wanted := v_wanted (view w); p_deferred := v_deferred (view w) |}
          (v_remote (view w)) /\
    ordered ≡ₚ values (p_wanted p) /\ StronglySorted newest_first ordered /\
    selected = by_id (take MAX_REQUESTS ordered) /\
    (let dropped := (length ordered - MAX_REQUESTS)%nat in
     stats' = if (0 <? dropped)%nat
              then add_deferred (Z.of_nat dropped) (add_skipped (Z.of_nat dropped) (p_stats p))
              else p_stats p) /\
    fixed_rows (view w') = fixed_rows (view w) /\
    v_deferred (view w') = p_deferred p ∪ ids_of (drop MAX_REQUESTS ordered).
Proof.
  unfold plan_workspace. destruct (walk _ _ _ _ _) as [[[stats1 w1]|e]|] eqn:Hw; try done.
  apply (walk_spec view _ (plan_step (i64_saturating_add now MAX_FUTURE_SKEW_MS))) in Hw as [Hf Hr];
    [|intros; by apply plan_one_refines|intros; apply plan_step_remote].
  intros [= Hb]. change (mbind _ (Ok (stats1, w1))) with
    ('(selected, dropped, w) ← finish_plan MAX_REQUESTS w1;
      Ok (by_id selected, if (0 <? dropped)%nat
        then add_deferred (Z.of_nat dropped) (add_skipped (Z.of_nat dropped) stats1) else stats1, w)) in Hb.
  apply bind_ok in Hb as ([[sel dropped] w2] & Hfin & Hb). injection Hb as <- <- <-.
  apply law_finish in Hfin as (ordered & Hperm & Hs & -> & -> & Hv2).
  rewrite drop_0 in Hf.
  destruct (plan_steps_offer (i64_saturating_add now MAX_FUTURE_SKEW_MS) (v_remote (view w)) (stats, view w))
    as [Ho Hfix]. rewrite <- Hf in Ho, Hfix. cbn [snd] in Hfix. unfold planned in Ho; cbn [fst snd] in Ho.
  exists (planned (stats1, view w1)), ordered. unfold planned; cbn [fst snd p_stats p_wanted p_deferred].
  split; [exact Ho|]. split_and!; try done.
  - rewrite Hv2. exact Hfix.
  - by rewrite Hv2.
Qed.
End Refines.

(** ** What a plan accounts for *)

(** [s] is at least as new as [r]: the merge would not replace it. *)
Definition at_least_as_new (s r : ItemSummary) : Prop := merge_decision_by_summary s r <> TakeRemote.

Lemma at_least_as_new_refl s : at_least_as_new s s.
Proof.
  unfold at_least_as_new, merge_decision_by_summary. rewrite merge_decision_take.
  by rewrite (cmp_refl merge_key_cmp).
Qed.
Lemma at_least_as_new_trans s s' r :
  merge_decision_by_summary s s' = TakeRemote -> at_least_as_new s r -> at_least_as_new s' r.
Proof.
  unfold at_least_as_new, merge_decision_by_summary. rewrite !merge_decision_take.
  intros Hlt Hn Hr. apply Hn. by eapply cmp_trans.
Qed.

(** The state of planning after some offers: every wanted version was offered,
    is not from the future and wins locally; every offer is accounted for. *)
Record plan_ok (local : gmap string ItemSummary) (ceiling : Z) (seen : list ItemSummary) (p : PlanState)
    : Prop := {
  plan_keyed : keyed (p_wanted p);
  plan_offered : forall s, p_wanted p !! item_id s = Some s ->
    s ∈ seen /\ summary_key s <= ceiling /\
    (forall l, local !! item_id s = Some l -> remote_version_wins l s = true);
  plan_accounts : forall r, r ∈ seen ->
    item_id r ∈ p_deferred p \/
    (exists l, local !! item_id r = Some l /\ remote_version_wins l r = false) \/
    (exists s, p_wanted p !! item_id r = Some s /\ at_least_as_new s r);
}.

Lemma offer_ok local ceiling seen p r :
  plan_ok local ceiling seen p -> plan_ok local ceiling (seen ++ [r]) (offer local ceiling p r).
Proof.
  intros [Hk Ho Ha].
  assert (Hother : forall x q, p_wanted q = p_wanted p -> p_deferred p ⊆ p_deferred q -> x ∈ seen ->
    item_id x ∈ p_deferred q \/
    (exists l, local !! item_id x = Some l /\ remote_version_wins l x = false) \/
    (exists s, p_wanted q !! item_id x = Some s /\ at_least_as_new s x)).
  { intros x q -> Hd Hx. destruct (Ha x Hx) as [?|[?|?]]; [left; set_solver|auto|auto]. }
  assert (Hstep : forall q, p_wanted q = p_wanted p -> p_deferred p ⊆ p_deferred q ->
    (item_id r ∈ p_deferred q \/
     (exists l, local !! item_id r = Some l /\ remote_version_wins l r = false) \/
     (exists s, p_wanted q !! item_id r = Some s /\ at_least_as_new s r)) ->
    plan_ok local ceiling (seen ++ [r]) q).
  { intros q Hw Hd Hr. split; [by rewrite Hw| |].
    - intros s. rewrite Hw. intros Hs. destruct (Ho s Hs) as (? & ? & ?). split_and!; try done. set_solver.
    - intros x [Hx|Hx%list_elem_of_singleton]%elem_of_app; [by apply Hother|by subst x]. }
  unfold offer. destruct (Z.gtb_spec (summary_key r) ceiling) as [Hc|Hc].
  { apply Hstep; cbn; [done|set_solver|left; set_solver]. }
  destruct (local !! item_id r) as [l|] eqn:El; cbn [negb].
  1: destruct (remote_version_wins l r) eqn:Ew; cbn [negb];
     [|apply Hstep; cbn; [done|done|right; left; eauto]].
  all: destruct (p_wanted p !! item_id r) as [seen_|] eqn:Es;
    [destruct (bool_decide _) eqn:Eb; cbn [negb]|].
  all: try (apply Hstep; cbn; [done|done|right; right; exists seen_; split; [done|];
            apply bool_decide_eq_false in Eb; exact Eb]).
  all: split; cbn; [by apply keyed_insert| |].
  all: try (intros s; rewrite lookup_insert_Some; intros [[_ <-]|[Hne Hs]];
    [split_and!; [set_solver|lia|intros l'; rewrite El; naive_solver]
    |destruct (Ho s Hs) as (? & ? & ?); split_and!; try done; set_solver]).
  all: intros x [Hx|Hx%list_elem_of_singleton]%elem_of_app;
    [|subst x; right; right; exists r; rewrite lookup_insert_eq; split; [done|apply at_least_as_new_refl]].
  all: destruct (Ha x Hx) as [?|[?|(s & Hs & Hn)]]; [auto|auto|]; right; right.
  all: destruct (decide (item_id r = item_id x)) as [Heq|Hne];
    [exists r; rewrite <- Heq, lookup_insert_eq; split; [done|]; rewrite <- Heq, Es in Hs; simplify_eq;
     apply bool_decide_eq_true in Eb; by eapply at_least_as_new_trans
    |exists s; by rewrite lookup_insert_ne].
Qed.

Lemma offers_ok local ceiling l : forall seen p,
  plan_ok local ceiling seen p -> plan_ok local ceiling (seen ++ l) (foldl (offer local ceiling) p l).
Proof.
  induction l as [|r l IH]; intros seen p Hp; cbn; [by rewrite app_nil_r|].
  rewrite cons_middle, app_assoc. by apply IH, offer_ok.
Qed.

Lemma fresh_plan_ok local ceiling remote stats :
  plan_ok local ceiling remote
    (foldl (offer local ceiling) {| p_stats := stats; p_wanted := ∅; p_deferred := ∅ |} remote).
Proof.
  apply (offers_ok local ceiling remote []). split; cbn.
  - intros k i. by rewrite lookup_empty.
  - intros s. by rewrite lookup_empty.
  - intros r Hr. by apply elem_of_nil in Hr.
Qed.

(** Selecting a prefix of some ordering of the wanted versions. *)
Lemma by_id_some m ordered n s : keyed m -> ordered ≡ₚ values m ->
  by_id (take n ordered) !! item_id s = Some s <-> s ∈ take n ordered.
Proof.
  intros Hm Hp. assert (NoDup (item_id <$> ordered)) as Hnd by (rewrite Hp; by apply NoDup_values_ids).
  assert (NoDup (item_id <$> take n ordered)) as Hnt.
  { rewrite fmap_take. eapply sublist_NoDup; [exact Hnd|apply sublist_take]. }
  unfold by_id. split.
  - intros Hs. destruct (decide (item_id s ∈ (item_id <$> take n ordered))) as [Hi|Hi].
    + apply list_elem_of_fmap in Hi as (t & Heq & Ht).
      rewrite Heq, (insert_all_some _ _ t) in Hs by done. by injection Hs as ->.
    + rewrite insert_all_none in Hs by done. by rewrite lookup_empty in Hs.
  - intros Hs. by apply insert_all_some.
Qed.

Lemma by_id_keyed l : keyed (by_id l).
Proof. apply keyed_insert_all. intros k i. by rewrite lookup_empty. Qed.

(** ** The watermark *)

Definition unresolved (wanted : gmap string ItemSummary) (attempted deferred : gset string)
    (r : ItemSummary) : bool :=
  bool_decide (item_id r ∈ deferred)
  || (contains_key wanted (item_id r) && negb (bool_decide (item_id r ∈ attempted))).

Lemma watermark_fold wanted attempted l : forall reached blocked v reached' blocked' v',
  foldl (watermark_step wanted attempted) ((reached, blocked), v) l = ((reached', blocked'), v') ->
  v' = v /\ reached <= reached' /\ blocked' <= blocked /\
  (forall r, r ∈ l -> if unresolved wanted attempted (v_deferred v) r
                      then blocked' <= summary_key r else summary_key r <= reached') /\
  (reached' = reached \/ exists r, r ∈ l /\ reached' = summary_key r) /\
  (blocked' = blocked \/
   exists r, r ∈ l /\ unresolved wanted attempted (v_deferred v) r = true /\ blocked' = summary_key r).
Proof.
  induction l as [|x l IH]; intros reached blocked v reached' blocked' v'; cbn [foldl].
  - intros [= <- <- <-]. split_and!; [done|lia|lia| |by left|by left].
    intros r Hr. by apply elem_of_nil in Hr.
  - unfold watermark_step at 2. fold (unresolved wanted attempted (v_deferred v) x).
    destruct (unresolved wanted attempted (v_deferred v) x) eqn:Eu; intros Hf;
      apply IH in Hf as (-> & Hr & Hb & Hall & Hre & Hbl); split_and!; try done; try lia.
    + intros r [->|Hin]%elem_of_cons; [rewrite Eu; lia|by apply Hall].
    + destruct Hre as [?|(r & ? & ?)]; [by left|right; exists r; split; [by right|done]].
    + destruct Hbl as [Hbl|(r & ? & ? & ?)].
      * destruct (Z.min_spec blocked (summary_key x)) as [[_ Hm]|[_ Hm]]; rewrite Hm in Hbl; [by left|].
        right. exists x. split; [left|done].
      * right. exists r. split; [by right|done].
    + intros r [->|Hin]%elem_of_cons; [rewrite Eu; lia|by apply Hall].
    + destruct Hre as [Hre|(r & ? & ?)].
      * destruct (Z.max_spec reached (summary_key x)) as [[_ Hm]|[_ Hm]]; rewrite Hm in Hre; [|by left].
        right. exists x. split; [left|done].
      * right. exists r. split; [by right|done].
    + destruct Hbl as [?|(r & ? & ? & ?)]; [by left|right; exists r; split; [by right|done]].
Qed.

Section Claims.
Context {W : Type} `{SummaryWorkspace W} (view : W -> View) `{!WorkspaceLaws W view}.

Lemma watermark_inv previous wanted attempted w m :
  workspace_watermark previous wanted attempted w = Some (Ok m) ->
  exists reached blocked, m = Z.min reached blocked /\
    foldl (watermark_step wanted attempted) ((previous, i64_max), view w) (v_remote (view w))
      = ((reached, blocked), view w).
Proof.
  unfold workspace_watermark. destruct (walk _ _ _ _ _) as [[[[reached blocked] w1]|e]|] eqn:Hw; try done.
  apply (walk_spec view _ (watermark_step wanted attempted)) in Hw as [Hf _];
    [|intros; by apply watermark_one_refines|by intros [] ? ?].
  rewrite drop_0 in Hf. cbn. intros [= <-]. exists reached, blocked. split; [done|].
  symmetry in Hf. apply watermark_fold in Hf as Hx. destruct Hx as [Hv _]. by rewrite Hf, Hv.
Qed.

(** The cursor never passes work that is left.  After planning and a
    transfer that applied the ids in [attempted], every version the peer
    offered below the new cursor is settled: the local copy is at least as new,
    or a version of it at least as new was requested and applied. *)
Lemma cursor_never_passes_unsettled now stats previous w selected stats' w' w'' attempted m :
  v_wanted (view w) = ∅ -> v_deferred (view w) = ∅ ->
  plan_workspace now stats w = Some (Ok (selected, stats', w')) -> view w'' = view w' ->
  workspace_watermark previous selected attempted w'' = Some (Ok m) ->
  forall r, r ∈ v_remote (view w) -> summary_key r < m ->
    (exists l, v_comparison (view w) !! item_id r = Some l /\ remote_version_wins l r = false) \/
    (exists s, selected !! item_id r = Some s /\ item_id r ∈ attempted /\ at_least_as_new s r).
Proof.
  intros Hw Hd Hplan Hsame Hmark r Hr Hlt.
  apply (plan_workspace_inv view) in Hplan as (p & ordered & Hp & Hperm & _ & -> & _ & Hfix & Hdef).
  assert (Hrem : v_remote (view w') = v_remote (view w)) by (unfold fixed_rows in Hfix; congruence).
  rewrite Hw, Hd in Hp. pose proof (fresh_plan_ok (v_comparison (view w))
    (i64_saturating_add now MAX_FUTURE_SKEW_MS) (v_remote (view w)) stats) as Hok.
  rewrite <- Hp in Hok. destruct Hok as [Hk _ Ha].
  apply watermark_inv in Hmark as (reached & blocked & -> & Hf). rewrite Hsame, Hrem in Hf.
  apply watermark_fold in Hf as (_ & _ & _ & Hall & _). specialize (Hall r Hr). revert Hall.
  rewrite Hdef. unfold unresolved.
  destruct (bool_decide (item_id r ∈ _)) eqn:Edef; cbn; [lia|]. apply bool_decide_eq_false in Edef.
  destruct (Ha r Hr) as [?|[?|(s & Hs & Hnew)]]; [set_solver|by left|].
  pose proof (Hk _ _ Hs) as Hid. rewrite <- Hid in Hs |- *.
  assert (s ∈ ordered) as Hin by (rewrite Hperm; by apply values_some).
  rewrite <- (take_drop MAX_REQUESTS ordered) in Hin. apply elem_of_app in Hin as [Hin|Hin].
  - apply (by_id_some _ _ _ _ Hk Hperm) in Hin. unfold contains_key. rewrite Hin. cbn.
    destruct (bool_decide (item_id s ∈ attempted)) eqn:Ea; cbn; [|lia].
    intros _. right. exists s. apply bool_decide_eq_true in Ea. done.
  - exfalso. apply Edef. rewrite <- Hid. unfold ids_of. apply elem_of_union_r, elem_of_list_to_set.
    apply list_elem_of_fmap. eauto.
Qed.

(** The cursor keeps moving.  When nothing is left over, it advances to the
    newest stamp the peer offered, never backwards and never to a stamp nobody
    offered. *)
Theorem cursor_advances_when_settled previous wanted attempted w m :
  workspace_watermark previous wanted attempted w = Some (Ok m) ->
  (forall r, r ∈ v_remote (view w) -> summary_key r <= i64_max /\
     unresolved wanted attempted (v_deferred (view w)) r = false) ->
  previous <= i64_max ->
  previous <= m /\ (forall r, r ∈ v_remote (view w) -> summary_key r <= m) /\
  (m = previous \/ exists r, r ∈ v_remote (view w) /\ m = summary_key r).
Proof.
  intros Hmark Hres Hprev. apply watermark_inv in Hmark as (reached & blocked & -> & Hf).
  apply watermark_fold in Hf as (_ & Hle & _ & Hall & Hre & Hbl).
  assert (blocked = i64_max) as ->.
  { destruct Hbl as [?|(r & Hr & Hu & _)]; [done|]. destruct (Hres r Hr). congruence. }
  assert (reached <= i64_max).
  { destruct Hre as [->|(r & Hr & ->)]; [done|]. by apply Hres. }
  rewrite Z.min_l by done. split_and!; [done| |done].
  intros r Hr. specialize (Hall r Hr). destruct (Hres r Hr) as [_ Hu]. by rewrite Hu in Hall.
Qed.

(** Planning and the watermark terminate within their fuel on everything a
    session can receive: sixteen pages of ten thousand summaries. *)
Theorem plan_terminates now stats previous wanted attempted w :
  (Z.of_nat (length (v_remote (view w))) <= MAX_SUMMARY_PAGES_PER_SESSION * MAX_SUMMARIES_PER_MESSAGE) ->
  plan_workspace now stats w <> None /\ workspace_watermark previous wanted attempted w <> None.
Proof.
  intros Hlen.
  assert (length (v_remote (view w)) - 0 <= 625 * PAGE)%nat as Hfuel.
  { unfold MAX_SUMMARY_PAGES_PER_SESSION, MAX_SUMMARIES_PER_MESSAGE, PAGE in *. lia. }
  split.
  - unfold plan_workspace, PAGE_FUEL. destruct (walk _ 626 0 stats w) eqn:E; [done|].
    exfalso. revert E. apply (walk_fuel view _ (plan_step (i64_saturating_add now MAX_FUTURE_SKEW_MS)));
      [intros; by apply plan_one_refines|intros; apply plan_step_remote|done].
  - unfold workspace_watermark, PAGE_FUEL. destruct (walk _ 626 0 (previous, i64_max) w) eqn:E; [done|].
    exfalso. revert E. apply (walk_fuel view _ (watermark_step wanted attempted));
      [intros; by apply watermark_one_refines|by intros [] ? ?|done].
Qed.

(** The order a finished plan used, as one of the orders of the reference. *)
Definition newest_as (m : gmap string ItemSummary) (ordered : list ItemSummary)
    (m' : gmap string ItemSummary) : list ItemSummary :=
  if decide (m' = m) then ordered else merge_sort newest_first (values m').
Lemma newest_as_order m ordered :
  ordered ≡ₚ values m -> StronglySorted newest_first ordered -> newest_order (newest_as m ordered).
Proof.
  intros Hp Hs m'. unfold newest_as. destruct (decide (m' = m)) as [->|]; [done|].
  split; [apply merge_sort_Permutation|apply (StronglySorted_merge_sort newest_first)].
Qed.

(** Keeping the versions of a prefix is retaining its ids. *)
Lemma by_id_retain m ordered n : keyed m -> ordered ≡ₚ values m ->
  by_id (take n ordered) =
  map_retain (fun id _ => bool_decide (id ∈ ids_of (take n ordered))) m.
Proof.
  intros Hm Hp. pose proof (by_id_keyed (take n ordered)) as Hk.
  apply map_eq. intros id. destruct (by_id (take n ordered) !! id) as [s|] eqn:Hs; symmetry.
  - pose proof (Hk _ _ Hs) as Hid. subst id. apply (by_id_some m) in Hs; [|done|done].
    apply map_retain_some. split.
    + apply values_some; [done|]. rewrite <- Hp. rewrite <- (take_drop n ordered). apply elem_of_app. by left.
    + apply bool_decide_eq_true. unfold ids_of. apply elem_of_list_to_set, list_elem_of_fmap. eauto.
  - apply map_retain_none. intros s Hms. apply bool_decide_eq_false. intros Hin.
    unfold ids_of in Hin. apply elem_of_list_to_set, list_elem_of_fmap in Hin as (t & Hid & Ht).
    apply (by_id_some m) in Ht; [|done|done]. by rewrite <- Hid, Hs in Ht.
Qed.

Lemma ids_of_drop m ordered n : keyed m -> ordered ≡ₚ values m ->
  ids_of (drop n ordered) = dom m ∖ ids_of (take n ordered).
Proof.
  intros Hm Hp. assert (NoDup (item_id <$> ordered)) as Hnd by (rewrite Hp; by apply NoDup_values_ids).
  rewrite <- (take_drop n ordered), fmap_app, NoDup_app in Hnd. destruct Hnd as (_ & Hdis & _).
  assert (Hdom : forall id, id ∈ dom m <-> id ∈ (item_id <$> take n ordered) \/ id ∈ (item_id <$> drop n ordered)).
  { intros id. rewrite <- elem_of_app, <- fmap_app, take_drop, Hp, elem_of_dom, list_elem_of_fmap. split.
    - intros [s Hs]. exists s. pose proof (Hm _ _ Hs) as Hid. split; [done|]. apply values_some; [done|]. by rewrite Hid.
    - intros (s & -> & Hs). apply values_some in Hs; eauto. }
  apply set_eq. intros id. unfold ids_of. rewrite elem_of_difference, !elem_of_list_to_set, Hdom.
  split; [|naive_solver]. intros Hi. split; [by right|]. intros Ht. by eapply Hdis.
Qed.

Lemma size_ids_of m ordered n : keyed m -> ordered ≡ₚ values m ->
  size (ids_of (take n ordered)) = Nat.min n (length ordered) /\ length ordered = size m.
Proof.
  intros Hm Hp. assert (NoDup (item_id <$> ordered)) as Hnd by (rewrite Hp; by apply NoDup_values_ids).
  split.
  - unfold ids_of. rewrite size_list_to_set; [by rewrite length_fmap, length_take|].
    rewrite fmap_take. eapply sublist_NoDup; [exact Hnd|apply sublist_take].
  - rewrite Hp. unfold values. rewrite length_fmap. apply length_map_to_list.
Qed.

(** C37: planning over bounded workspace pages, with any lawful backend, is the
    reference plan over whole maps: the same wanted versions, deferred ids and
    statistics, for some newest-first ordering of the candidates. *)
Theorem plan_workspace_is_plan now stats w selected stats' w' :
  v_wanted (view w) = ∅ -> v_deferred (view w) = ∅ ->
  plan_workspace now stats w = Some (Ok (selected, stats', w')) ->
  exists newest, newest_order newest /\
    plan newest (v_comparison (view w)) (v_remote (view w)) now stats =
      {| p_stats := stats'; p_wanted := selected; p_deferred := v_deferred (view w') |}.
Proof.
  intros Hw Hd Hplan.
  apply (plan_workspace_inv view) in Hplan as (p & ordered & Hp & Hperm & Hs & -> & -> & _ & ->).
  rewrite Hw, Hd in Hp. pose proof (fresh_plan_ok (v_comparison (view w))
    (i64_saturating_add now MAX_FUTURE_SKEW_MS) (v_remote (view w)) stats) as [Hk _ _].
  rewrite <- Hp in Hk. exists (newest_as (p_wanted p) ordered). split; [by apply newest_as_order|].
  unfold plan. rewrite <- Hp. unfold newest_as. rewrite decide_True by done.
  destruct (size_ids_of _ _ MAX_REQUESTS Hk Hperm) as [Hsz Hlen].
  rewrite (by_id_retain _ _ MAX_REQUESTS Hk Hperm), (ids_of_drop _ _ MAX_REQUESTS Hk Hperm), Hsz, Hlen.
  destruct (Nat.ltb_spec MAX_REQUESTS (size (p_wanted p))).
  - replace (0 <? size (p_wanted p) - MAX_REQUESTS)%nat with true by (symmetry; apply Nat.ltb_lt; lia).
    replace (Z.of_nat (size (p_wanted p)) - Z.of_nat (Nat.min MAX_REQUESTS (size (p_wanted p))))
      with (Z.of_nat (size (p_wanted p) - MAX_REQUESTS)) by lia. done.
  - replace (0 <? size (p_wanted p) - MAX_REQUESTS)%nat with false by (symmetry; apply Nat.ltb_ge; lia).
    rewrite take_ge by lia. assert (Hall : forall id, is_Some (p_wanted p !! id) -> id ∈ ids_of ordered).
    { intros id [s Hsm]. unfold ids_of. apply elem_of_list_to_set, list_elem_of_fmap.
      exists s. pose proof (Hk _ _ Hsm) as Hid. split; [done|]. rewrite Hperm. apply values_some; [done|]. by rewrite Hid. }
    destruct p as [ps pw pd]; cbn in *. f_equal.
    + apply map_eq. intros id. destruct (pw !! id) as [s|] eqn:E; symmetry.
      * apply map_retain_some. split; [done|]. apply bool_decide_eq_true, Hall. eauto.
      * apply map_retain_none. naive_solver.
    + apply set_eq. intros id. rewrite elem_of_union, elem_of_difference, elem_of_dom.
      split; [naive_solver|]. intros [?|[? []]]; [done|by apply Hall].
Qed.
End Claims.

(** ** Concrete inputs *)
Module PlanDemo.
#[export] Existing Instance WorkspaceDemo.plain_order.
Definition version := WorkspaceDemo.version.
Definition offered : MemorySummaryWorkspace :=
  {| v_advertised := ∅; v_comparison := {["b"%string := version "b" 2]};
     v_remote := [version "c" 3; version "b" 1; version "c" 4]; v_wanted := ∅; v_deferred := ∅ |}.
Definition selected : gmap string ItemSummary := {["c"%string := version "c" 4]}.
Definition after : MemorySummaryWorkspace := view_want (version "c" 4) (view_want (version "c" 3) offered).

Lemma plan_offered : plan_workspace 0 no_stats offered = Some (Ok (selected, add_skipped 1 no_stats, after)).
Proof. vm_compute. reflexivity. Qed.
Lemma mark_offered : workspace_watermark 0 selected {["c"%string]} after = Some (Ok 4).
Proof. vm_compute. reflexivity. Qed.
End PlanDemo.
#[local] Existing Instance WorkspaceDemo.plain_order.

Lemma cursor_advances_when_settled_witness :
  0 <= 4 /\ (forall r, r ∈ v_remote PlanDemo.after -> summary_key r <= 4).
Proof.
  destruct (cursor_advances_when_settled (fun w => w) 0 PlanDemo.selected {["c"%string]} PlanDemo.after 4
    PlanDemo.mark_offered) as (H1 & H2 & _).
  - assert (Forall (fun r => summary_key r <= i64_max /\
      unresolved PlanDemo.selected {["c"%string]} (v_deferred PlanDemo.after) r = false)
      (v_remote PlanDemo.after)) as Hf.
    { repeat constructor; vm_compute; try discriminate. }
    intros r Hr. rewrite Forall_forall in Hf. by apply Hf.
  - vm_compute. discriminate.
  - split; assumption.
Defined.

Lemma plan_terminates_witness :
  plan_workspace 0 no_stats PlanDemo.offered <> None /\
  workspace_watermark 0 PlanDemo.selected ∅ PlanDemo.offered <> None.
Proof.
  apply (plan_terminates (fun w => w)). vm_compute. discriminate.
Defined.

Lemma plan_workspace_is_plan_witness :
  exists newest, newest_order newest /\
    plan newest (v_comparison PlanDemo.offered) (v_remote PlanDemo.offered) 0 no_stats =
      {| p_stats := add_skipped 1 no_stats; p_wanted := PlanDemo.selected;
         p_deferred := v_deferred PlanDemo.after |}.
Proof.
  apply (plan_workspace_is_plan (fun w => w) 0 no_stats PlanDemo.offered PlanDemo.selected);
    [reflexivity|reflexivity|apply PlanDemo.plan_offered].
Defined.
