(* ===== verification/Prog.v ===== *)
(** Session programs: the asynchronous functions of [copypaste-p2p/src/sync] as
    trees of the effects they await, with the runs an environment can give
    them.  The channel ([trait SyncChannel]) and the local store
    ([trait SyncSource]) of [sync/source.rs] are the environment. *)

From S2P Require Import Prelude Float64 Bytes Wire Message Workspace.

(** ** Effects *)

(** One awaited or called operation and the type of its answer. *)
Inductive event (W : Type) : Type -> Type :=
| Send (m : SyncMessage.t) : event W unit
| Recv : event W SyncMessage.t
| SummaryWorkspaceNew : event W W
| SummaryPage (since_ms : Z) (after_id : option string) (limit : Z) : event W (list ItemSummary)
| LocalSummaries (ids : list string) : event W (list ItemSummary)
| Fetch (ids : list string) : event W (list SyncItem.t)
| ApplyBatch (items : list SyncItem.t) : event W (list bool)
| NowMs : event W Z
| SpawnBlocking : event W unit.
Arguments Send {W} m.
Arguments Recv {W}.
Arguments SummaryWorkspaceNew {W}.
Arguments SummaryPage {W} since_ms after_id limit.
Arguments LocalSummaries {W} ids.
Arguments Fetch {W} ids.
Arguments ApplyBatch {W} items.
Arguments NowMs {W}.
Arguments SpawnBlocking {W}.

Inductive prog (W A : Type) : Type :=
| Ret (a : A)
| Throw (e : SyncError)
| Vis {X : Type} (ev : event W X) (k : X -> prog W A).
Arguments Ret {W A} a.
Arguments Throw {W A} e.
Arguments Vis {W A X} ev k.

Fixpoint prog_bind {W A B} (f : A -> prog W B) (p : prog W A) : prog W B :=
  match p with
  | Ret a => f a
  | Throw e => Throw e
  | Vis ev k => Vis ev (fun x => prog_bind f (k x))
  end.
#[export] Instance prog_mret W : MRet (prog W) := fun A a => Ret a.
#[export] Instance prog_mbind W : MBind (prog W) := fun A B f p => prog_bind f p.

Definition trigger {W X} (ev : event W X) : prog W X := Vis ev Ret.
(** [result?]: a failure ends the session. *)
Definition lift {W A} (r : result SyncError A) : prog W A :=
  match r with Ok a => Ret a | Err e => Throw e end.

(** ** Runs *)

(** What happened: an operation and its answer, or the operation that failed. *)
Inductive entry (W : Type) : Type :=
| Did {X : Type} (ev : event W X) (x : X)
| Failed {X : Type} (ev : event W X) (e : SyncError).
Arguments Did {W X} ev x.
Arguments Failed {W X} ev e.

(** [run p tr r]: [p] can perform [tr] and end with [r].  The environment
    answers every operation as it likes and may fail any of them, which ends
    the session there. *)
Inductive run {W A} : prog W A -> list (entry W) -> result SyncError A -> Prop :=
| run_ret a : run (Ret a) [] (Ok a)
| run_throw e : run (Throw e) [] (Err e)
| run_fail X (ev : event W X) k e : run (Vis ev k) [Failed ev e] (Err e)
| run_vis X (ev : event W X) k x tr r : run (k x) tr r -> run (Vis ev k) (Did ev x :: tr) r.

(** The messages that left, or were being written when the channel failed. *)
Definition sent_of {W} (e : entry W) : list SyncMessage.t :=
  match e with
  | Did (Send m) _ => [m]
  | Failed (Send m) _ => [m]
  | _ => []
  end.
Definition sends {W} (tr : list (entry W)) : list SyncMessage.t := tr ≫= sent_of.

(** The batches handed to the local store. *)
Definition applied_of {W} (e : entry W) : list (list SyncItem.t) :=
  match e with
  | Did (ApplyBatch items) _ => [items]
  | Failed (ApplyBatch items) _ => [items]
  | _ => []
  end.
Definition applies {W} (tr : list (entry W)) : list (list SyncItem.t) := tr ≫= applied_of.

Definition received_of {W} (e : entry W) : nat :=
  match e with
  | Did Recv _ => 1
  | Failed Recv _ => 1
  | _ => 0
  end%nat.
Definition receives {W} (tr : list (entry W)) : nat := sum_list (received_of <$> tr).

Section Runs.
Context {W : Type}.

Lemma run_inv {A} (p : prog W A) tr r :
  run p tr r ->
  match p with
  | Ret a => tr = [] /\ r = Ok a
  | Throw e => tr = [] /\ r = Err e
  | Vis ev k => (exists e, tr = [Failed ev e] /\ r = Err e) \/
                (exists x tr', tr = Did ev x :: tr' /\ run (k x) tr' r)
  end.
Proof. destruct 1; [done|done|left; eauto|right; eauto]. Qed.

(** A run of a sequence is a run of its first part and, if that succeeds, one
    of the second. *)
Lemma run_bind_inv {A B} (p : prog W A) (f : A -> prog W B) tr r :
  run (p ≫= f) tr r ->
  (exists e, r = Err e /\ run p tr (Err e)) \/
  (exists a tr1 tr2, tr = tr1 ++ tr2 /\ run p tr1 (Ok a) /\ run (f a) tr2 r).
Proof.
  revert tr r; induction p as [a|e|X ev k IH]; intros tr r Hr.
  - right. exists a, [], tr. split_and!; [done|constructor|done].
  - apply run_inv in Hr as [-> ->]. left. exists e. split; [done|constructor].
  - apply run_inv in Hr as [(e & -> & ->)|(x & tr' & -> & Hr)].
    + left. exists e. split; [done|constructor].
    + destruct (IH _ _ _ Hr) as [(e & -> & H1)|(a & tr1 & tr2 & -> & H1 & H2)].
      * left. exists e. split; [done|by constructor].
      * right. exists a, (Did ev x :: tr1), tr2. split_and!; [done|by constructor|done].
Qed.

Lemma run_trigger_inv {X} (ev : event W X) tr r :
  run (trigger ev) tr r ->
  (exists e, tr = [Failed ev e] /\ r = Err e) \/ (exists x, tr = [Did ev x] /\ r = Ok x).
Proof.
  intros [?|(x & tr' & -> & [-> ->]%run_inv)]%run_inv; [by left|right; eauto].
Qed.

Lemma run_lift_inv {A} (q : result SyncError A) tr r : run (@lift W A q) tr r -> tr = [] /\ r = q.
Proof. destruct q; intros Hr; by apply run_inv in Hr. Qed.

(** Runs that succeed. *)
Lemma run_bind_ok {A B} (p : prog W A) (f : A -> prog W B) tr b :
  run (p ≫= f) tr (Ok b) ->
  exists a tr1 tr2, tr = tr1 ++ tr2 /\ run p tr1 (Ok a) /\ run (f a) tr2 (Ok b).
Proof. intros [(e & ? & _)|?]%run_bind_inv; done. Qed.
Lemma run_trigger_ok {X} (ev : event W X) tr x : run (trigger ev) tr (Ok x) -> tr = [Did ev x].
Proof. intros [(e & _ & ?)|(y & -> & [= ->])]%run_trigger_inv; done. Qed.
Lemma run_lift_ok {A} (q : result SyncError A) tr a : run (@lift W A q) tr (Ok a) -> tr = [] /\ q = Ok a.
Proof. by intros [-> <-]%run_lift_inv. Qed.
Lemma run_ret_ok {A} (a b : A) tr : run (@Ret W A a) tr (Ok b) -> tr = [] /\ a = b.
Proof. by intros [-> [= ->]]%run_inv. Qed.
Lemma run_throw_ok {A} e tr (b : A) : ~ run (@Throw W A e) tr (Ok b).
Proof. by intros [_ ?]%run_inv. Qed.

(** A property of runs, by the rule of its two parts. *)
Definition wp {A} (p : prog W A) (Q : list (entry W) -> result SyncError A -> Prop) : Prop :=
  forall tr r, run p tr r -> Q tr r.

Lemma wp_ret {A} (a : A) Q : Q [] (Ok a) -> wp (Ret a) Q.
Proof. intros HQ tr r [-> ->]%run_inv. done. Qed.
Lemma wp_throw {A} e (Q : _ -> result SyncError A -> Prop) : Q [] (Err e) -> wp (Throw e) Q.
Proof. intros HQ tr r [-> ->]%run_inv. done. Qed.
Lemma wp_bind {A B} (p : prog W A) (f : A -> prog W B) Q :
  wp p (fun tr r => match r with
                    | Ok a => wp (f a) (fun tr' r' => Q (tr ++ tr') r')
                    | Err e => Q tr (Err e)
                    end) ->
  wp (p ≫= f) Q.
Proof.
  intros Hp tr r [(e & -> & H1)|(a & tr1 & tr2 & -> & H1 & H2)]%run_bind_inv.
  - exact (Hp _ _ H1).
  - exact (Hp _ _ H1 _ _ H2).
Qed.
Lemma wp_trigger {X} (ev : event W X) Q :
  (forall e, Q [Failed ev e] (Err e)) -> (forall x, Q [Did ev x] (Ok x)) -> wp (trigger ev) Q.
Proof. intros Hf Hd tr r [(e & -> & ->)|(x & -> & ->)]%run_trigger_inv; done. Qed.
Lemma wp_lift {A} (q : result SyncError A) Q : Q [] q -> wp (@lift W A q) Q.
Proof. intros HQ tr r [-> ->]%run_lift_inv. done. Qed.
Lemma wp_mono {A} (p : prog W A) (P Q : list (entry W) -> result SyncError A -> Prop) :
  wp p P -> (forall tr r, P tr r -> Q tr r) -> wp p Q.
Proof. intros HP HPQ tr r Hr. apply HPQ, HP, Hr. Qed.

Lemma sends_app (tr tr' : list (entry W)) : sends (tr ++ tr') = sends tr ++ sends tr'.
Proof. apply bind_app. Qed.
Lemma applies_app (tr tr' : list (entry W)) : applies (tr ++ tr') = applies tr ++ applies tr'.
Proof. apply bind_app. Qed.
Lemma receives_app (tr tr' : list (entry W)) : receives (tr ++ tr') = (receives tr + receives tr')%nat.
Proof. unfold receives. by rewrite fmap_app, sum_list_with_app. Qed.
(** ** Programs that perform only some operations *)

Fixpoint only {A} (P : forall X, event W X -> Prop) (p : prog W A) : Prop :=
  match p with
  | @Vis _ _ X ev k => P X ev /\ forall x, only P (k x)
  | _ => True
  end.

Definition entry_event (P : forall X, event W X -> Prop) (e : entry W) : Prop :=
  match e with @Did _ X ev _ | @Failed _ X ev _ => P X ev end.

Lemma only_bind {A B} P (p : prog W A) (f : A -> prog W B) :
  only P p -> (forall a, only P (f a)) -> only P (p ≫= f).
Proof.
  induction p as [a|e|X ev k IH]; cbn; [by intros _ Hf|done|].
  intros [Hev Hk] Hf. split; [done|]. intros x. by apply IH.
Qed.
Lemma only_trigger {X} P (ev : event W X) : P X ev -> only P (trigger ev).
Proof. by split. Qed.
Lemma only_lift {A} P (q : result SyncError A) : only P (@lift W A q).
Proof. by destruct q. Qed.

Lemma only_run {A} P (p : prog W A) tr r : only P p -> run p tr r -> Forall (entry_event P) tr.
Proof.
  intros Ho Hr. induction Hr as [| |X ev k e|X ev k x tr r Hr IH]; [constructor|constructor| |].
  - constructor; [apply Ho|constructor].
  - constructor; [apply Ho|]. apply IH, Ho.
Qed.

(** A run computed from a handler of the operations. *)
Fixpoint exec {A S} (h : forall X, event W X -> S -> result SyncError X * S) (p : prog W A) (s : S)
    : list (entry W) * result SyncError A :=
  match p with
  | Ret a => ([], Ok a)
  | Throw e => ([], Err e)
  | @Vis _ _ X ev k =>
    match h X ev s with
    | (Ok x, s) => let '(tr, r) := exec h (k x) s in (Did ev x :: tr, r)
    | (Err e, _) => ([Failed ev e], Err e)
    end
  end.

Lemma exec_run {A S} (h : forall X, event W X -> S -> result SyncError X * S) (p : prog W A) s :
  run p (fst (exec h p s)) (snd (exec h p s)).
Proof.
  revert s; induction p as [a|e|X ev k IH]; intros s; cbn; [constructor|constructor|].
  destruct (h X ev s) as [[x|e] s'].
  - specialize (IH x s'). destruct (exec h (k x) s') as [tr r]. by constructor.
  - constructor.
Qed.

(** A store holding [items] that accepts every batch, and a peer that says
    [inbox]: the inputs of the concrete runs. *)
Record Scripted := {
  inbox : list SyncMessage.t; fresh : W; local : list ItemSummary; items : list SyncItem.t; clock : Z;
}.
Definition with_inbox (s : Scripted) l :=
  {| inbox := l; fresh := fresh s; local := local s; items := items s; clock := clock s |}.
Definition scripted X (ev : event W X) : Scripted -> result SyncError X * Scripted :=
  match ev in event _ X return Scripted -> result SyncError X * Scripted with
  | Send _ => fun s => (Ok tt, s)
  | Recv => fun s => match inbox s with
                     | m :: rest => (Ok m, with_inbox s rest)
                     | [] => (Err (Channel "closed"), s)
                     end
  | SummaryWorkspaceNew => fun s => (Ok (fresh s), s)
  | SummaryPage _ _ _ => fun s => (Ok (local s), s)
  | LocalSummaries ids => fun s =>
      (Ok (List.filter (fun x => bool_decide (item_id x ∈ ids)) (local s)), s)
  | Fetch ids => fun s =>
      (Ok (List.filter (fun i => bool_decide (SyncItem.item_id i ∈ ids)) (items s)), s)
  | ApplyBatch l => fun s => (Ok ((fun _ => true) <$> l), s)
  | NowMs => fun s => (Ok (clock s), s)
  | SpawnBlocking => fun s => (Ok tt, s)
  end.
End Runs.
Arguments scripted {W} X ev _.
