(* ===== verification/Transfer.v ===== *)
(** Moving item content: serving requests in bounded batches
    ([copypaste-p2p/src/sync/transfer.rs]) and applying what a peer sends
    ([sync/application.rs]). *)

From S2P Require Import Prelude Float64 Bytes Wire Net Payload Peer Group Message Merge.
From S2P Require Import Workspace Plan Prog.

(** [slice.chunks(n)]. *)
Fixpoint chunks_fuel {A} (fuel n : nat) (l : list A) : list (list A) :=
  match fuel, l with
  | S fuel, _ :: _ => take n l :: chunks_fuel fuel n (drop n l)
  | _, _ => []
  end.
Definition chunks {A} (n : nat) (l : list A) : list (list A) := chunks_fuel (length l) n l.
Definition CHUNK : nat := Z.to_nat MAX_ITEMS_PER_MESSAGE.

(** The clears of a tombstone's payload. *)
Definition clear_content (i : SyncItem.t) : SyncItem.t := SyncItem.with_content i "".
Definition clear_payload (i : SyncItem.t) : SyncItem.t :=
  SyncItem.with_binary (SyncItem.with_content i "") [].

Definition content_bytes (i : SyncItem.t) : Z :=
  usize_saturating_add (str_len (SyncItem.content i)) (len (SyncItem.binary_content i)).
Definition message_bytes (i : SyncItem.t) : Z :=
  usize_saturating_add (content_bytes i)
    (match SyncItem.payload_metadata i with Some m => str_len m | None => 0 end).

Section Transfer.
Context {W : Type} `{GroupCrypto} `{PayloadCodecs} `{Digest}.
Implicit Types (stats : SyncStats).

Definition expect_message (expected : string) {A}
    (f : SyncMessage.t -> option A) : prog W A :=
  msg ← trigger Recv;
  _ ← lift (map_err Protocol (message_validate msg));
  match f msg with
  | Some a => Ret a
  | None => Throw (Unexpected expected (SyncMessage.kind msg))
  end.

Definition receive_request : prog W (list string) :=
  expect_message "request"
    (fun m => match m with SyncMessage.Request ids => Some ids | _ => None end).

(** ** Serving *)

(** The filter of [serve_items]: advertised ids, each once. *)
Fixpoint allow (adv : gmap string ItemSummary) (requested : list string) (seen : gset string)
    : list string :=
  match requested with
  | [] => []
  | id :: rest =>
    if negb (contains_key adv id) then allow adv rest seen
    else if bool_decide (id ∈ seen) then allow adv rest seen
    else id :: allow adv rest ({[id]} ∪ seen)
  end.

Record ServeState := {
  batch : list SyncItem.t;
  batch_size : Z;
  unavailable : gset string;
  serve_stats : SyncStats;
}.

(** One item the source returned for [chunk]. *)
Definition serve_one (chunk : list string) (item : SyncItem.t) (s : ServeState) : prog W ServeState :=
  if negb (bool_decide (SyncItem.item_id item ∈ chunk))
     || negb (bool_decide (SyncItem.item_id item ∈ unavailable s)) then Ret s else
  let item := if SyncItem.deleted item then clear_payload item else item in
  if content_bytes item >? MAX_CONTENT_BYTES then
    Ret {| batch := batch s; batch_size := batch_size s;
           unavailable := unavailable s ∖ {[SyncItem.item_id item]};
           serve_stats := add_too_large 1 (add_skipped 1 (serve_stats s)) |}
  else
  match item_validate item with
  | Err _ =>
    Ret {| batch := batch s; batch_size := batch_size s; unavailable := unavailable s;
           serve_stats := add_invalid 1 (serve_stats s) |}
  | Ok _ =>
    let left := unavailable s ∖ {[SyncItem.item_id item]} in
    let n := message_bytes item in
    if negb (bool_decide (batch s = []))
       && ((len (batch s) =? MAX_ITEMS_PER_MESSAGE)
           || (usize_saturating_add (batch_size s) n >? MAX_ITEM_BYTES_PER_MESSAGE))
    then
      let stats := add_sent (len (batch s)) (serve_stats s) in
      _ ← trigger (Send (SyncMessage.Items (batch s)));
      Ret {| batch := [item]; batch_size := 0 + n; unavailable := left; serve_stats := stats |}
    else
      Ret {| batch := batch s ++ [item]; batch_size := batch_size s + n; unavailable := left;
             serve_stats := serve_stats s |}
  end.

Fixpoint serve_fetched (chunk : list string) (items : list SyncItem.t) (s : ServeState)
    : prog W ServeState :=
  match items with
  | [] => Ret s
  | item :: rest => s ← serve_one chunk item s; serve_fetched chunk rest s
  end.

Fixpoint serve_chunks (l : list (list string)) (s : ServeState) : prog W ServeState :=
  match l with
  | [] => Ret s
  | chunk :: rest =>
    items ← trigger (Fetch chunk);
    s ← serve_fetched chunk items s;
    serve_chunks rest s
  end.

Definition serve_items (adv : gmap string ItemSummary) (requested : list string) stats
    : prog W SyncStats :=
  let allowed := allow adv requested ∅ in
  s ← serve_chunks (chunks CHUNK allowed)
        {| batch := []; batch_size := 0; unavailable := list_to_set allowed; serve_stats := stats |};
  stats ← (if bool_decide (batch s = []) then Ret (serve_stats s) else
             let stats := add_sent (len (batch s)) (serve_stats s) in
             _ ← trigger (Send (SyncMessage.Items (batch s)));
             Ret stats);
  let n := Z.of_nat (size (unavailable s)) in
  let stats := add_unavailable n (add_skipped n stats) in
  _ ← trigger (Send SyncMessage.Done);
  Ret stats.

(** ** Applying *)

Record Applied := { attempted : gset string; floor : option Z }.

(** What is kept of one [Items] message while it is sorted through. *)
Record Sorting := {
  s_applied : gset string;
  s_received : gset string;
  s_stats : SyncStats;
  s_batch : list SyncItem.t;
  s_stamps : list Z;
}.

Definition sort_item (wanted : gmap string ItemSummary) (s : Sorting) (item : SyncItem.t) : Sorting :=
  match wanted !! SyncItem.item_id item with
  | None => {| s_applied := s_applied s; s_received := s_received s;
               s_stats := add_invalid 1 (add_skipped 1 (s_stats s));
               s_batch := s_batch s; s_stamps := s_stamps s |}
  | Some promised =>
    let received := {[SyncItem.item_id item]} ∪ s_received s in
    if negb (summary_eqb (SyncItem.summary item) promised) then
      {| s_applied := s_applied s; s_received := received;
         s_stats := add_invalid 1 (add_skipped 1 (s_stats s));
         s_batch := s_batch s; s_stamps := s_stamps s |}
    else if negb (SyncItem.deleted item)
            && negb (String.eqb (plaintext_content_hash (payload item).1) (SyncItem.content_hash item)) then
      {| s_applied := s_applied s; s_received := received;
         s_stats := add_invalid 1 (add_skipped 1 (s_stats s));
         s_batch := s_batch s; s_stamps := s_stamps s |}
    else if bool_decide (SyncItem.item_id item ∈ s_applied s) then
      {| s_applied := s_applied s; s_received := received; s_stats := add_skipped 1 (s_stats s);
         s_batch := s_batch s; s_stamps := s_stamps s |}
    else
      let item := if SyncItem.deleted item then clear_content item else item in
      {| s_applied := {[SyncItem.item_id item]} ∪ s_applied s; s_received := received;
         s_stats := s_stats s; s_batch := s_batch s ++ [item];
         s_stamps := s_stamps s ++ [summary_key (SyncItem.summary item)] |}
  end.

(** [outcomes.into_iter().zip(stamps)]. *)
Fixpoint settle_outcomes (outcomes : list bool) (stamps : list Z) stats (low : option Z)
    : SyncStats * option Z :=
  match outcomes, stamps with
  | stored :: outcomes, stamp :: stamps =>
    if stored then
      settle_outcomes outcomes stamps (add_received 1 stats)
        (Some (match low with Some low => Z.min low stamp | None => stamp end))
    else settle_outcomes outcomes stamps (add_skipped 1 stats) low
  | _, _ => (stats, low)
  end.

Fixpoint receive_loop (budget : nat) (wanted : gmap string ItemSummary)
    (applied received : gset string) (low : option Z) stats : prog W (Applied * SyncStats) :=
  match budget with
  | O => Throw PeerOverran
  | S budget =>
    msg ← trigger Recv;
    _ ← lift (map_err Protocol (message_validate msg));
    match msg with
    | SyncMessage.Items items =>
      let s := foldl (sort_item wanted)
                 {| s_applied := applied; s_received := received; s_stats := stats;
                    s_batch := []; s_stamps := [] |} items in
      if bool_decide (s_batch s = [])
      then receive_loop budget wanted (s_applied s) (s_received s) low (s_stats s)
      else
        outcomes ← trigger (ApplyBatch (s_batch s));
        let '(stats, low) := settle_outcomes outcomes (s_stamps s) (s_stats s) low in
        receive_loop budget wanted (s_applied s) (s_received s) low stats
    | SyncMessage.Done =>
      let stats := add_unavailable
        (usize_saturating_sub (map_len wanted) (Z.of_nat (size applied))) stats in
      let stats := add_skipped
        (usize_saturating_sub (map_len wanted) (Z.of_nat (size received))) stats in
      Ret ({| attempted := applied; floor := low |}, stats)
    | other => Throw (Unexpected "items" (SyncMessage.kind other))
    end
  end.

Definition receive_items (wanted : gmap string ItemSummary) stats : prog W (Applied * SyncStats) :=
  receive_loop (Z.to_nat (usize_saturating_add (map_len wanted) 2)) wanted ∅ ∅ None stats.

(** ** What serving keeps true *)

Lemma allow_spec adv requested seen :
  NoDup (allow adv requested seen) /\
  forall id, id ∈ allow adv requested seen ->
    id ∈ requested /\ contains_key adv id = true /\ id ∉ seen.
Proof.
  revert seen; induction requested as [|id rest IH]; intros seen; cbn.
  - split; [constructor|]. intros id Hid. by apply elem_of_nil in Hid.
  - destruct (contains_key adv id) eqn:Ek; cbn.
    2: { destruct (IH seen) as [? Hs]. split; [done|]. intros x Hx. destruct (Hs x Hx) as (? & ? & ?).
         split_and!; [by right|done|done]. }
    case_bool_decide as Hseen.
    1: { destruct (IH seen) as [? Hs]. split; [done|]. intros x Hx. destruct (Hs x Hx) as (? & ? & ?).
         split_and!; [by right|done|done]. }
    destruct (IH ({[id]} ∪ seen)) as [Hnd Hs]. split.
    + constructor; [|done]. intros Hid. destruct (Hs id Hid) as (_ & _ & Hn). set_solver.
    + intros x [->|Hx]%elem_of_cons; [split_and!; [left|done|done]|].
      destruct (Hs x Hx) as (? & ? & ?). split_and!; [by right|done|set_solver].
Qed.

Definition items_of (m : SyncMessage.t) : list SyncItem.t :=
  match m with SyncMessage.Items l => l | _ => [] end.
(** Every item that left in some message of the trace. *)
Definition served (tr : list (entry W)) : list SyncItem.t := sends tr ≫= items_of.

Lemma served_app tr tr' : served (tr ++ tr') = served tr ++ served tr'.
Proof. unfold served. rewrite sends_app. apply bind_app. Qed.

(** What may be served: allowed ids, each once, within the wire contract, and
    no payload on a tombstone. *)
Definition servable (allowed : list string) (i : SyncItem.t) : Prop :=
  SyncItem.item_id i ∈ allowed /\ item_ok i /\
  (SyncItem.deleted i = true -> SyncItem.content i = ""%string /\ SyncItem.binary_content i = []).
Definition served_ok (allowed : list string) (l : list SyncItem.t) : Prop :=
  NoDup (SyncItem.item_id <$> l) /\ Forall (servable allowed) l.

Definition batch_message (m : SyncMessage.t) : Prop :=
  exists l, m = SyncMessage.Items l /\ l <> [] /\ message_validate m = Ok tt.

Record serve_inv (allowed : list string) (start : Z) (gone : list SyncItem.t) (s : ServeState) : Prop := {
  inv_served : served_ok allowed (gone ++ batch s);
  inv_left : forall i, i ∈ gone ++ batch s -> SyncItem.item_id i ∉ unavailable s;
  inv_count : len (batch s) <= MAX_ITEMS_PER_MESSAGE;
  inv_size : batch_size s = batch_bytes (batch s);
  inv_limit : batch_bytes (batch s) <= MAX_ITEM_BYTES_PER_MESSAGE;
  inv_sent : sent (serve_stats s) = start + len gone;
}.

Lemma served_ok_app_l allowed l k : served_ok allowed (l ++ k) -> served_ok allowed l.
Proof.
  unfold served_ok. rewrite fmap_app, NoDup_app, Forall_app. naive_solver.
Qed.

Lemma inv_message allowed start gone s : serve_inv allowed start gone s -> batch s <> [] ->
  batch_message (SyncMessage.Items (batch s)).
Proof.
  intros [[_ Hf] _ Hc _ Hl _] Hne. exists (batch s). split_and!; [done|done|].
  apply items_message_ok. apply Forall_app in Hf as [_ Hf]. split_and!; [done| |done].
  eapply Forall_impl; [exact Hf|]. by intros i (_ & ? & _).
Qed.

Lemma message_bytes_ok i : item_ok i ->
  message_bytes i = item_bytes i /\ item_bytes i <= MAX_ITEM_BYTES_PER_MESSAGE.
Proof.
  intros Hok. pose proof (ok_content _ Hok). unfold message_bytes, content_bytes, item_bytes.
  assert (match SyncItem.payload_metadata i with Some m => str_len m | None => 0 end
          <= MAX_SYNC_METADATA_BYTES).
  { destruct (SyncItem.payload_metadata i) as [m|] eqn:E; [by apply (ok_metadata _ Hok)|].
    unfold MAX_SYNC_METADATA_BYTES. lia. }
  unfold usize_saturating_add, usize_max, MAX_ITEM_BYTES_PER_MESSAGE, MAX_SYNC_METADATA_BYTES,
    MAX_CONTENT_BYTES in *. lia.
Qed.

(** A trace that only sends batches, and what it leaves served. *)
Definition serving (allowed : list string) (start : Z) (gone : list SyncItem.t) (tr : list (entry W))
    (r : result SyncError ServeState) : Prop :=
  Forall batch_message (sends tr) /\ served_ok allowed (gone ++ served tr) /\
  (forall s', r = Ok s' -> serve_inv allowed start (gone ++ served tr) s').

Lemma serving_nil allowed start gone s :
  serve_inv allowed start gone s -> serving allowed start gone [] (Ok s).
Proof.
  intros Hi. unfold serving. change (served []) with (@nil SyncItem.t). rewrite app_nil_r.
  split_and!; [constructor| |by intros ? [= <-]]. eapply served_ok_app_l, Hi.
Qed.

Lemma serve_accept allowed start gone s item :
  serve_inv allowed start gone s -> item_ok item -> SyncItem.item_id item ∈ unavailable s ->
  SyncItem.item_id item ∈ allowed ->
  (SyncItem.deleted item = true -> SyncItem.content item = ""%string /\ SyncItem.binary_content item = []) ->
  served_ok allowed (gone ++ batch s ++ [item]) /\
  (forall i, i ∈ gone ++ batch s ++ [item] ->
     SyncItem.item_id i ∉ unavailable s ∖ {[SyncItem.item_id item]}).
Proof.
  intros [[Hnd Hf] Hl _ _ _ _] Hok Hun Hall Hdel. split; [split|].
  - rewrite app_assoc, fmap_app, NoDup_app. split_and!; [done| |apply NoDup_singleton].
    intros x Hx Hy. apply list_elem_of_fmap in Hx as (i & -> & Hi). cbn in Hy.
    apply list_elem_of_singleton in Hy. apply (Hl i Hi). by rewrite Hy.
  - rewrite app_assoc. apply Forall_app. split; [done|]. by apply Forall_singleton.
  - intros i. rewrite app_assoc, elem_of_app. intros [Hi|Hi%list_elem_of_singleton].
    + specialize (Hl i Hi). set_solver.
    + subst. set_solver.
Qed.

Lemma serve_one_spec allowed start gone chunk item s :
  (forall id, id ∈ chunk -> id ∈ allowed) ->
  serve_inv allowed start gone s ->
  wp (serve_one chunk item s) (serving allowed start gone).
Proof.
  intros Hchunk Hi. unfold serve_one. destruct (_ || _) eqn:Eg; [by apply wp_ret, serving_nil|].
  apply orb_false_iff in Eg as [E1 E2]. rewrite negb_false_iff, bool_decide_eq_true in E1, E2.
  set (item' := if SyncItem.deleted item then clear_payload item else item).
  assert (Hid : SyncItem.item_id item' = SyncItem.item_id item) by (subst item'; by destruct (SyncItem.deleted item)).
  assert (Hdel : SyncItem.deleted item' = true -> SyncItem.content item' = ""%string /\ SyncItem.binary_content item' = []).
  { subst item'. destruct (SyncItem.deleted item) eqn:E; cbn; [done|congruence]. }
  rewrite <- Hid in E1, E2. clearbody item'. clear Hid item.
  destruct (content_bytes item' >? MAX_CONTENT_BYTES).
  { apply wp_ret, serving_nil. destruct Hi as [? Hl ? ? ? ?]. split; cbn; try done.
    intros i Hin. specialize (Hl i Hin). set_solver. }
  destruct (item_validate item') as [u|e] eqn:Ev; [|apply wp_ret, serving_nil; by destruct Hi].
  apply item_validate_ok in Ev. destruct (message_bytes_ok _ Ev) as [Hmb Hmax].
  destruct (serve_accept _ _ _ _ _ Hi Ev E2 (Hchunk _ E1) Hdel) as (Hok & Hleft).
  destruct (_ && _) eqn:Eflush.
  - apply andb_true_iff in Eflush as [Hne _]. apply negb_true_iff, bool_decide_eq_false in Hne.
    pose proof (inv_message _ _ _ _ Hi Hne) as Hmsg.
    assert (Hgone : served_ok allowed (gone ++ batch s)) by apply Hi.
    apply wp_bind, wp_trigger.
    + intros e. split_and!; [by repeat constructor| |done].
      unfold served; cbn. by rewrite app_nil_r.
    + intros []. apply wp_ret. split_and!; [by repeat constructor| |].
      * unfold served; cbn. by rewrite app_nil_r.
      * intros s' [= <-]. unfold served; cbn. rewrite app_nil_r. split; cbn [batch batch_size unavailable serve_stats].
        -- by rewrite <- app_assoc.
        -- rewrite <- app_assoc. exact Hleft.
        -- unfold MAX_ITEMS_PER_MESSAGE, len. cbn. lia.
        -- cbn. lia.
        -- cbn. lia.
        -- cbn. rewrite len_app, (inv_sent _ _ _ _ Hi). lia.
  - apply wp_ret, serving_nil. destruct Hi as [Hs Hl Hc Hsz Hlim Hst].
    rewrite andb_false_iff, negb_false_iff, bool_decide_eq_true, orb_false_iff, Z.eqb_neq, Z.gtb_ltb, Z.ltb_ge in Eflush.
    split; cbn [batch batch_size unavailable serve_stats]; try done.
    + rewrite len_app. change (len [item']) with 1. destruct Eflush as [->|[? _]]; [done|]. lia.
    + rewrite batch_bytes_snoc. lia.
    + rewrite batch_bytes_snoc. destruct Eflush as [He|[_ He]].
      * rewrite He. cbn. lia.
      * rewrite <- Hsz, <- Hmb.
        unfold usize_saturating_add, usize_max, MAX_ITEM_BYTES_PER_MESSAGE, MAX_CONTENT_BYTES,
          MAX_SYNC_METADATA_BYTES in *. lia.
Qed.

Lemma serving_bind allowed start gone p f :
  wp p (serving allowed start gone) ->
  (forall gone' s', serve_inv allowed start gone' s' -> wp (f s') (serving allowed start gone')) ->
  wp (p ≫= f) (serving allowed start gone).
Proof.
  intros Hp Hf. apply wp_bind. eapply wp_mono; [exact Hp|]. intros tr [s'|e] (Hm & Hok & Hi); [|done].
  eapply wp_mono; [exact (Hf _ _ (Hi s' eq_refl))|]. intros tr' r (Hm' & Hok' & Hi').
  unfold serving. rewrite sends_app, served_app, !app_assoc. split_and!; [by apply Forall_app|done|done].
Qed.

Lemma serve_fetched_spec allowed start chunk items : forall gone s,
  (forall id, id ∈ chunk -> id ∈ allowed) -> serve_inv allowed start gone s ->
  wp (serve_fetched chunk items s) (serving allowed start gone).
Proof.
  induction items as [|item items IH]; intros gone s Hc Hi; cbn [serve_fetched]; [by apply wp_ret, serving_nil|].
  apply serving_bind; [by apply serve_one_spec|]. intros. by apply IH.
Qed.

Lemma serve_chunks_spec allowed start l : forall gone s,
  (forall chunk id, chunk ∈ l -> id ∈ chunk -> id ∈ allowed) -> serve_inv allowed start gone s ->
  wp (serve_chunks l s) (serving allowed start gone).
Proof.
  induction l as [|chunk l IH]; intros gone s Hc Hi; cbn [serve_chunks]; [by apply wp_ret, serving_nil|].
  apply wp_bind, wp_trigger.
  - intros e. split_and!; [constructor| |done]. unfold served; cbn. rewrite app_nil_r.
    eapply served_ok_app_l, Hi.
  - intros items. eapply (wp_mono _ (serving allowed start gone)); [|done].
    apply serving_bind.
    + apply serve_fetched_spec; [|done]. intros id. apply Hc. left.
    + intros gone' s' Hi'. apply IH; [|done]. intros chunk' id Hl. apply Hc. by right.
Qed.

Lemma chunks_fuel_elem {A} (fuel n : nat) (l : list A) chunk x :
  chunk ∈ chunks_fuel fuel n l -> x ∈ chunk -> x ∈ l.
Proof.
  revert l; induction fuel as [|fuel IH]; intros [|y l]; cbn; intros Hc Hx; try by apply elem_of_nil in Hc.
  apply elem_of_cons in Hc as [->|Hc].
  - rewrite <- (take_drop n (y :: l)). apply elem_of_app. by left.
  - rewrite <- (take_drop n (y :: l)). apply elem_of_app. right. by eapply IH.
Qed.

Lemma served_did m u : served [Did (Send m) u] = items_of m.
Proof. unfold served; cbn. apply app_nil_r. Qed.
Lemma served_failed m e : served [Failed (Send m) e] = items_of m.
Proof. unfold served; cbn. apply app_nil_r. Qed.

Lemma batch_messages l :
  Forall batch_message l -> exists batches, l = SyncMessage.Items <$> batches /\
    Forall (fun b => b <> []) batches.
Proof.
  induction 1 as [|m l (b & -> & Hne & _) _ (bs & -> & Hbs)]; [by exists []|].
  exists (b :: bs). split; [done|by constructor].
Qed.

(** Flushing the last batch. *)
Lemma flush_spec allowed start gone s :
  serve_inv allowed start gone s ->
  wp (if bool_decide (batch s = []) then Ret (serve_stats s) else
        let stats := add_sent (len (batch s)) (serve_stats s) in
        _ ← trigger (Send (SyncMessage.Items (batch s)));
        Ret stats)
    (fun tr r => Forall batch_message (sends tr) /\ served_ok allowed (gone ++ served tr) /\
       (forall st, r = Ok st -> sent st = start + len (gone ++ served tr))).
Proof.
  intros Hi. assert (Hok : served_ok allowed gone) by (eapply served_ok_app_l, Hi).
  case_bool_decide as Hb.
  - apply wp_ret. change (served []) with (@nil SyncItem.t). rewrite app_nil_r.
    split_and!; [constructor|done|]. intros st [= <-]. apply Hi.
  - pose proof (inv_message _ _ _ _ Hi Hb) as Hmsg. apply wp_bind, wp_trigger.
    + intros e. rewrite served_failed. split_and!; [by repeat constructor|apply Hi|done].
    + intros []. apply wp_ret. cbn [app]. rewrite served_did.
      split_and!; [by repeat constructor|apply Hi|].
      intros st [= <-]. cbn. rewrite len_app, (inv_sent _ _ _ _ Hi). lia.
Qed.

(** Everything [serve_items] sends, in whatever environment. *)
Lemma serve_items_spec adv requested stats :
  wp (serve_items adv requested stats) (fun tr r =>
    served_ok (allow adv requested ∅) (served tr) /\
    exists batches, Forall batch_message (SyncMessage.Items <$> batches) /\
      (sends tr = SyncMessage.Items <$> batches \/
       sends tr = (SyncMessage.Items <$> batches) ++ [SyncMessage.Done]) /\
      (forall stats', r = Ok stats' ->
         sends tr = (SyncMessage.Items <$> batches) ++ [SyncMessage.Done] /\
         sent stats' = sent stats + len (served tr))).
Proof.
  unfold serve_items. apply wp_bind.
  eapply wp_mono; [apply (serve_chunks_spec (allow adv requested ∅) (sent stats) _ [])|].
  { intros chunk id Hc Hi. unfold chunks in Hc. by eapply chunks_fuel_elem. }
  { split; cbn; try done; [split; constructor|intros i Hi; by apply elem_of_nil in Hi|].
    change (len []) with 0. lia. }
  intros tr [s|e] (Hm & Hok & Hinv).
  2: { split; [done|]. apply batch_messages in Hm as Hb. destruct Hb as (bs & Hbs & _).
       exists bs. rewrite <- Hbs. split_and!; [done|by left|done]. }
  apply wp_bind. eapply wp_mono; [apply flush_spec, Hinv, eq_refl|].
  intros tr' [st|e] (Hm' & Hok' & Hst); cbn [app] in *; rewrite <- served_app in *.
  all: assert (Hall : Forall batch_message (sends (tr ++ tr'))) by (rewrite sends_app; by apply Forall_app).
  all: apply batch_messages in Hall as Hb; destruct Hb as (bs & Hbs & _).
  2: { split; [done|]. exists bs. rewrite <- Hbs. split_and!; [done|by left|done]. }
  apply wp_bind, wp_trigger.
  - intros e. rewrite app_assoc, sends_app, served_app, served_failed. cbn [items_of]. rewrite app_nil_r.
    split; [done|]. exists bs. rewrite <- Hbs. split_and!; [done|by right|done].
  - intros []. apply wp_ret. rewrite app_nil_r, app_assoc, sends_app, served_app, served_did.
    cbn [items_of]. rewrite app_nil_r. split; [done|]. exists bs. rewrite <- Hbs.
    split_and!; [done|by right|]. intros stats' [= <-]. split; [done|]. cbn. by apply Hst.
Qed.

(** A peer is served only what it asked for and was offered.  However the
    store and the channel behave, every message sent is within the protocol's
    bounds; every item in them was requested and advertised, is sent at most
    once in the whole session, and carries no payload if it is a tombstone; a
    completed transfer is non-empty batches, then [Done], and is counted. *)
Theorem serve_items_safe adv requested stats tr r :
  run (serve_items adv requested stats) tr r ->
  Forall (fun m => message_validate m = Ok tt) (sends tr) /\
  NoDup (SyncItem.item_id <$> served tr) /\
  (forall i, i ∈ served tr ->
     SyncItem.item_id i ∈ requested /\ contains_key adv (SyncItem.item_id i) = true /\
     (SyncItem.deleted i = true -> SyncItem.content i = ""%string /\ SyncItem.binary_content i = [])) /\
  (forall stats', r = Ok stats' ->
     exists batches, sends tr = (SyncMessage.Items <$> batches) ++ [SyncMessage.Done] /\
       Forall (fun b => b <> []) batches /\ sent stats' = sent stats + len (served tr)).
Proof.
  intros Hrun. apply serve_items_spec in Hrun as ([Hnd Hf] & bs & Hbs & Hor & Hok).
  destruct (allow_spec adv requested ∅) as [_ Hallow].
  assert (Hv : Forall (fun m => message_validate m = Ok tt) (SyncMessage.Items <$> bs)).
  { eapply Forall_impl; [exact Hbs|]. by intros m (b & -> & _ & ?). }
  split_and!; [|done| |].
  - destruct Hor as [-> | ->]; [done|]. apply Forall_app. split; [done|by repeat constructor].
  - intros i Hi. rewrite Forall_forall in Hf. destruct (Hf i Hi) as (Ha & _ & ?).
    by destruct (Hallow _ Ha) as (? & ? & _).
  - intros stats' Hr. destruct (Hok stats' Hr) as [? ?]. exists bs. split_and!; [done| |done].
    rewrite Forall_fmap in Hbs. eapply Forall_impl; [exact Hbs|]. by intros b (b' & [= ->] & ? & _).
Qed.

(** ** What applying keeps true *)

(** Everything handed to the store, and what the store reported as written. *)
Definition applied (tr : list (entry W)) : list SyncItem.t := List.concat (applies tr).
Definition stored_of (e : entry W) : list SyncItem.t :=
  match e with
  | Did ev x =>
    match ev in event _ X return X -> list SyncItem.t with
    | ApplyBatch items => fun outcomes => fst <$> List.filter snd (zip items outcomes)
    | _ => fun _ => []
    end x
  | Failed _ _ => []
  end.
Definition stored (tr : list (entry W)) : list SyncItem.t := tr ≫= stored_of.

Lemma applied_app tr tr' : applied (tr ++ tr') = applied tr ++ applied tr'.
Proof. unfold applied. by rewrite applies_app, concat_app. Qed.

(** An item that may be applied: requested, as promised by the summary, and
    hashing to what it claims, with no text on a tombstone. *)
Definition promised (wanted : gmap string ItemSummary) (i : SyncItem.t) : Prop :=
  exists s, wanted !! SyncItem.item_id i = Some s /\ summary_eqb (SyncItem.summary i) s = true /\
    (SyncItem.deleted i = true -> SyncItem.content i = ""%string) /\
    (SyncItem.deleted i = false -> plaintext_content_hash (payload i).1 = SyncItem.content_hash i).

Definition item_ids (l : list SyncItem.t) : gset string := list_to_set (SyncItem.item_id <$> l).

Record sorting_ok (wanted : gmap string ItemSummary) (before : gset string) (s : Sorting) : Prop := {
  sort_ids : NoDup (SyncItem.item_id <$> s_batch s);
  sort_fresh : forall i, i ∈ s_batch s -> SyncItem.item_id i ∉ before;
  sort_applied : s_applied s = before ∪ item_ids (s_batch s);
  sort_promised : Forall (promised wanted) (s_batch s);
  sort_stamps : s_stamps s = (fun i => summary_key (SyncItem.summary i)) <$> s_batch s;
}.

Lemma sort_item_ok wanted before s item :
  sorting_ok wanted before s -> sorting_ok wanted before (sort_item wanted s item).
Proof.
  intros [Hnd Hfr Ha Hp Hs]. unfold sort_item.
  destruct (wanted !! SyncItem.item_id item) as [p|] eqn:Ew; [|by split].
  destruct (summary_eqb _ p) eqn:Eq; cbn [negb]; [|by split].
  destruct (_ && _) eqn:Eh; [by split|]. case_bool_decide as Hin; [by split|].
  set (item' := if SyncItem.deleted item then clear_content item else item).
  assert (Hsum : SyncItem.summary item' = SyncItem.summary item /\
                 SyncItem.item_id item' = SyncItem.item_id item).
  { subst item'. by destruct (SyncItem.deleted item). }
  destruct Hsum as [Hsum Hid].
  assert (Hprom : promised wanted item').
  { exists p. rewrite Hid, Hsum. split_and!; [done|done| |].
    - subst item'. by destruct (SyncItem.deleted item) eqn:E; [|congruence].
    - subst item'. destruct (SyncItem.deleted item) eqn:E; cbn; [congruence|].
      intros _. cbn in Eh. by apply negb_false_iff, String.eqb_eq in Eh. }
  rewrite Ha in Hin. split; cbn.
  - rewrite fmap_app, NoDup_app. split_and!; [done| |apply NoDup_singleton].
    intros x Hx Hy. cbn in Hy. apply list_elem_of_singleton in Hy. rewrite Hid in Hy. subst x.
    apply Hin. unfold item_ids. rewrite elem_of_union, elem_of_list_to_set. by right.
  - intros i [Hi|Hi%list_elem_of_singleton]%elem_of_app; [by apply Hfr|]. subst i. rewrite Hid. set_solver.
  - rewrite Ha. unfold item_ids. rewrite fmap_app, list_to_set_app_L. cbn. rewrite Hid. set_solver.
  - apply Forall_app. split; [done|by apply Forall_singleton].
  - rewrite fmap_app, Hs. cbn. by rewrite Hsum.
Qed.

Lemma sort_items_ok wanted before items : forall s,
  sorting_ok wanted before s -> sorting_ok wanted before (foldl (sort_item wanted) s items).
Proof. induction items as [|i items IH]; intros s Hs; cbn; [done|]. by apply IH, sort_item_ok. Qed.

(** The floor after some outcomes: at or below every stamp that was stored. *)
Definition below (low : option Z) (l : list SyncItem.t) : Prop :=
  forall i, i ∈ l -> exists f, low = Some f /\ f <= summary_key (SyncItem.summary i).
Definition lower (low low' : option Z) : Prop :=
  forall f, low = Some f -> exists f', low' = Some f' /\ f' <= f.

Lemma settle_outcomes_spec outcomes items : forall stats low,
  let '(_, low') := settle_outcomes outcomes ((fun i => summary_key (SyncItem.summary i)) <$> items) stats low in
  lower low low' /\ below low' (fst <$> List.filter snd (zip items outcomes)).
Proof.
  revert outcomes; induction items as [|i items IH]; intros [|[] outcomes] stats low; cbn;
    try (split; [intros f ->; exists f; split; [done|lia]|intros x Hx; by apply elem_of_nil in Hx]).
  - specialize (IH outcomes (add_received 1 stats)
      (Some (match low with Some l => Z.min l (summary_key (SyncItem.summary i)) | None => summary_key (SyncItem.summary i) end))).
    destruct (settle_outcomes _ _ _ _) as [st low']. destruct IH as [Hl Hb]. split.
    + intros f ->. destruct (Hl _ eq_refl) as (f' & ? & ?). exists f'. split; [done|lia].
    + destruct (Hl _ eq_refl) as (f' & ? & ?). intros x [->|Hx]%elem_of_cons; [|by apply Hb].
      exists f'. split; [done|]. destruct low; lia.
  - specialize (IH outcomes (add_skipped 1 stats) low).
    destruct (settle_outcomes _ _ _ _) as [st low']. done.
Qed.

Lemma lower_trans a b c : lower a b -> lower b c -> lower a c.
Proof.
  intros Hab Hbc f Hf. destruct (Hab f Hf) as (g & Hg & ?). destruct (Hbc g Hg) as (h & ? & ?).
  exists h. split; [done|lia].
Qed.
Lemma below_lower a b l : below a l -> lower a b -> below b l.
Proof.
  intros Ha Hab i Hi. destruct (Ha i Hi) as (f & Hf & ?). destruct (Hab f Hf) as (g & ? & ?).
  exists g. split; [done|lia].
Qed.

(** What one run of the receive loop does to the store. *)
Definition applying (budget : nat) (wanted : gmap string ItemSummary) (before : gset string)
    (low : option Z) (tr : list (entry W)) (r : result SyncError (Applied * SyncStats)) : Prop :=
  (receives tr <= budget)%nat /\
  NoDup (SyncItem.item_id <$> applied tr) /\
  (forall i, i ∈ applied tr -> SyncItem.item_id i ∉ before) /\
  Forall (promised wanted) (applied tr) /\
  (forall a stats', r = Ok (a, stats') ->
     attempted a = before ∪ item_ids (applied tr) /\ lower low (floor a) /\ below (floor a) (stored tr)).

Lemma applying_idle budget wanted before low e (ev : entry W) :
  applies [ev] = [] -> (receives [ev] <= budget)%nat -> applying budget wanted before low [ev] (Err e).
Proof.
  intros Ha Hr. unfold applying, applied. rewrite Ha. split_and!; [done|constructor| |constructor|done].
  intros i Hi. by apply elem_of_nil in Hi.
Qed.

Lemma applying_batch budget wanted before low low' (b : list SyncItem.t) outcomes msg tr r :
  NoDup (SyncItem.item_id <$> b) -> (forall i, i ∈ b -> SyncItem.item_id i ∉ before) ->
  Forall (promised wanted) b -> lower low low' ->
  below low' (fst <$> List.filter snd (zip b outcomes)) ->
  applying budget wanted (before ∪ item_ids b) low' tr r ->
  applying (S budget) wanted before low (Did Recv msg :: Did (ApplyBatch b) outcomes :: tr) r.
Proof.
  intros Hnd Hfr Hp Hlow Hbelow (Hr & Hnd' & Hfr' & Hp' & Ha).
  assert (Happ : applied (Did Recv msg :: Did (ApplyBatch b) outcomes :: tr) = b ++ applied tr) by done.
  unfold applying. rewrite Happ. split_and!.
  - unfold receives in *. cbn in *. lia.
  - rewrite fmap_app, NoDup_app. split_and!; [done| |done].
    intros x Hx Hy. apply list_elem_of_fmap in Hy as (j & -> & Hj). apply (Hfr' j Hj).
    unfold item_ids. rewrite elem_of_union, elem_of_list_to_set. by right.
  - intros i [Hi|Hi]%elem_of_app; [by apply Hfr|]. specialize (Hfr' i Hi). set_solver.
  - by apply Forall_app.
  - intros a stats' Hres. destruct (Ha a stats' Hres) as (Hat & Hl & Hb). split_and!.
    + rewrite Hat. unfold item_ids. rewrite fmap_app, list_to_set_app_L. set_solver.
    + by eapply lower_trans.
    + intros i. change (stored (Did Recv msg :: Did (ApplyBatch b) outcomes :: tr))
        with ((fst <$> List.filter snd (zip b outcomes)) ++ stored tr).
      intros [Hi|Hi]%elem_of_app; [|by apply Hb]. exact (below_lower _ _ _ Hbelow Hl i Hi).
Qed.

Lemma applying_message budget wanted before low msg tr r :
  applying budget wanted before low tr r ->
  applying (S budget) wanted before low (Did Recv msg :: tr) r.
Proof. intros (Hr & Hrest). split; [|exact Hrest]. unfold receives in *. cbn in *. lia. Qed.

Lemma receive_loop_spec wanted : forall budget before received_ low stats_,
  wp (receive_loop budget wanted before received_ low stats_) (applying budget wanted before low).
Proof.
  induction budget as [|budget IH]; intros before received_ low stats_; cbn [receive_loop].
  { apply wp_throw. split_and!; [done|constructor| |constructor|done]. intros i Hi. by apply elem_of_nil in Hi. }
  apply wp_bind, wp_trigger; [intros e; apply applying_idle; [done|cbn; lia]|].
  intros msg. apply wp_bind, wp_lift.
  destruct (map_err Protocol (message_validate msg)) as [u|e];
    [|apply applying_idle; [done|cbn; lia]].
  assert (Hother : forall q, wp (@Throw W (Applied * SyncStats) (Unexpected "items" q))
    (fun tr' r' => applying (S budget) wanted before low ([Did Recv msg] ++ [] ++ tr') r')).
  { intros q. apply wp_throw. apply applying_idle; [done|cbn; lia]. }
  destruct msg; try apply Hother.
  - set (s := foldl (sort_item wanted) _ items).
    assert (Hs : sorting_ok wanted before s).
    { apply sort_items_ok. split; cbn; [constructor| | |constructor|done].
      - intros i Hi. by apply elem_of_nil in Hi.
      - unfold item_ids. cbn. set_solver. }
    destruct Hs as [Hnd Hfr Ha Hp Hst]. case_bool_decide as Hb.
    + eapply wp_mono; [apply IH|]. intros tr r Hr. cbn [app]. apply applying_message.
      rewrite Ha, Hb in Hr. unfold item_ids in Hr; cbn in Hr. by rewrite union_empty_r_L in Hr.
    + apply wp_bind, wp_trigger.
      * intros e. cbn [app]. unfold applying, applied; cbn. rewrite app_nil_r.
        split_and!; [lia|done|done|done|done].
      * intros outcomes. cbn [app]. pose proof (settle_outcomes_spec outcomes (s_batch s) (s_stats s) low) as Hset.
        rewrite <- Hst in Hset. destruct (settle_outcomes outcomes _ _ _) as [st low'].
        destruct Hset as [Hlow Hbelow]. eapply wp_mono; [apply IH|]. intros tr r Hr. cbn [app].
        rewrite Ha in Hr. by eapply applying_batch.
  - apply wp_ret. cbn [app]. split_and!; [cbn; lia|constructor| |constructor|].
    + intros i Hi. by apply elem_of_nil in Hi.
    + intros a st [= <- <-]. cbn. split_and!; [|intros f ->; exists f; split; [done|lia]|].
      * unfold item_ids; cbn. set_solver.
      * intros i Hi. by apply elem_of_nil in Hi.
Qed.

(** C35: a hostile peer cannot write what was not agreed.  However the peer and
    the store behave, at most one message per requested id and two more are
    read; every item handed to the store was requested, is exactly the promised
    version, hashes to its content hash unless it is a tombstone, and is handed
    over at most once; and a completed round reports exactly those ids, with a
    floor at or below every stamp that was stored. *)
Theorem receive_items_safe wanted stats tr r :
  map_len wanted + 2 <= usize_max ->
  run (receive_items wanted stats) tr r ->
  Z.of_nat (receives tr) <= map_len wanted + 2 /\
  NoDup (SyncItem.item_id <$> applied tr) /\ Forall (promised wanted) (applied tr) /\
  (forall a stats', r = Ok (a, stats') ->
     attempted a = item_ids (applied tr) /\ below (floor a) (stored tr)).
Proof.
  intros Hlen Hrun. unfold receive_items in Hrun. apply receive_loop_spec in Hrun as (Hr & Hnd & _ & Hp & Ha).
  assert (0 <= map_len wanted) by (unfold map_len; lia).
  unfold usize_saturating_add in Hr. split_and!; [lia|done|done|].
  intros a stats' Hres. destruct (Ha a stats' Hres) as (-> & _ & ?). split; [set_solver|done].
Qed.

End Transfer.

(** A tombstone from the peer loses its text before it reaches the store, but
    not a binary payload it was sent with. *)
Lemma tombstone_keeps_binary `{Digest} wanted s item p :
  wanted !! SyncItem.item_id item = Some p -> summary_eqb (SyncItem.summary item) p = true ->
  SyncItem.deleted item = true -> SyncItem.item_id item ∉ s_applied s ->
  s_batch (sort_item wanted s item) = s_batch s ++ [clear_content item] /\
  SyncItem.binary_content (clear_content item) = SyncItem.binary_content item.
Proof.
  intros Hw Hs Hd Hn. unfold sort_item. rewrite Hw, Hs, Hd. cbn.
  by rewrite bool_decide_eq_false_2.
Qed.

(** ** Concrete inputs *)
Module TransferDemo.
#[local] Instance digest : Digest := {| sha256 b := b; hex_encode := of_bytes |}.
Definition item : SyncItem.t := {|
  SyncItem.item_id := "i1"; SyncItem.content := "hello"; SyncItem.binary_content := [];
  SyncItem.payload_metadata := None; SyncItem.source_app_bundle_id := None;
  SyncItem.source_app_name := None; SyncItem.content_type := TEXT; SyncItem.created_at := 1000;
  SyncItem.deleted := false; SyncItem.content_hash := "hello"; SyncItem.origin_device_id := "dev-a";
  SyncItem.pinned := false; SyncItem.pin_order := None; SyncItem.pin_updated_at := 0 |}.
Definition wanted : gmap string ItemSummary := {["i1"%string := SyncItem.summary item]}.
Definition world (inbox : list SyncMessage.t) : @Scripted unit :=
  {| inbox := inbox; fresh := tt; local := []; items := [item]; clock := 0 |}.
End TransferDemo.
#[local] Existing Instance TransferDemo.digest.
#[local] Existing Instance Demo.toy_crypto.
#[local] Existing Instance MessageDemo.codecs.

Lemma serve_items_safe_witness :
  exists tr, run (serve_items (W:=unit) TransferDemo.wanted ["i1"; "i2"; "i1"]%string no_stats) tr
               (Ok (add_sent 1 no_stats)) /\
    served tr = [TransferDemo.item] /\ NoDup (SyncItem.item_id <$> served tr).
Proof.
  pose (out := exec scripted (serve_items (W:=unit) TransferDemo.wanted ["i1"; "i2"; "i1"]%string no_stats)
                 (TransferDemo.world [])).
  exists (fst out). pose proof (exec_run scripted (serve_items (W:=unit) TransferDemo.wanted
    ["i1"; "i2"; "i1"]%string no_stats) (TransferDemo.world [])) as Hrun.
  change (run (serve_items (W:=unit) TransferDemo.wanted ["i1"; "i2"; "i1"]%string no_stats)
    (fst out) (snd out)) in Hrun.
  split; [|split; [vm_compute; reflexivity|]].
  - replace (Ok (add_sent 1 no_stats)) with (snd out) by (vm_compute; reflexivity). exact Hrun.
  - destruct (serve_items_safe _ _ _ _ _ Hrun) as (_ & Hnd & _). exact Hnd.
Defined.

Lemma receive_items_safe_witness :
  exists tr r, run (receive_items (W:=unit) TransferDemo.wanted no_stats) tr r /\
    applied tr = [TransferDemo.item] /\ Z.of_nat (receives tr) <= 3.
Proof.
  pose (start := TransferDemo.world [SyncMessage.Items [TransferDemo.item; TransferDemo.item]; SyncMessage.Done]).
  pose proof (exec_run scripted (receive_items (W:=unit) TransferDemo.wanted no_stats) start) as Hrun.
  eexists _, _. split; [exact Hrun|]. split; [vm_compute; reflexivity|].
  apply (receive_items_safe TransferDemo.wanted no_stats _ _ ltac:(vm_compute; discriminate) Hrun).
Defined.
