(* ===== verification/Session.v ===== *)
(** The message order of one complete sync session
    ([copypaste-p2p/src/sync/session.rs], [sync/summary.rs]): both halves as
    programs, what they may disclose, and that they never wait for each
    other. *)

From S2P Require Import Prelude Float64 Bytes Wire Net Payload Peer Group Message Merge.
From S2P Require Import Workspace Plan Prog Transfer.

Section Session.
Context {W : Type} `{SummaryWorkspace W} `{GroupCrypto} `{PayloadCodecs} `{Digest}.

(** What a session asks its source about this device. *)
Record Device := {
  own_id : string;
  own_name : string;
  own_profile : DeviceProfile;
}.

(** [workspace_call] ([sync/mod.rs]): on the reactor, or on a blocking task
    whose loss is an error. *)
Definition workspace_call {T} (blocking : bool) (f : W -> result SyncError T) (w : W) : prog W T :=
  if negb blocking then lift (f w)
  else _ ← trigger SpawnBlocking; lift (f w).

(** A loop that ran out of fuel: the bound of [plan_terminates] rules it out. *)
Definition fueled {A} (o : option (result SyncError A)) : result SyncError A :=
  match o with Some r => r | None => Err (Source "unreachable") end.

(** ** Summaries *)

Definition receive_page : prog W (list ItemSummary * bool) :=
  expect_message "summary"
    (fun m => match m with SyncMessage.Summary items more => Some (items, more) | _ => None end).

Definition next_page (since_ms : Z) (after_id : option string) : prog W (list ItemSummary * bool) :=
  items ← trigger (SummaryPage since_ms after_id (MAX_SUMMARIES_PER_MESSAGE + 1));
  if len items >? MAX_SUMMARIES_PER_MESSAGE
  then Ret (take (Z.to_nat MAX_SUMMARIES_PER_MESSAGE) items, true)
  else Ret (items, false).

Definition advance (items : list ItemSummary) (cursor_ms : Z) (after_id : option string)
    : Z * option string :=
  match last items with
  | Some s => (summary_key s, Some (item_id s))
  | None => (cursor_ms, after_id)
  end.

(** One turn of [exchange_workspace]: a page in each direction. *)
Definition exchange_page (initiator : bool) (cursor_ms : Z) (after_id : option string) (w : W)
    : prog W (W * bool * (Z * option string)) :=
  peer_first ← (if initiator then Ret None else (p ← receive_page; Ret (Some p)));
  '(items, more) ← next_page cursor_ms after_id;
  w ← workspace_call (may_block items w) (add_advertised items) w;
  _ ← trigger (Send (SyncMessage.Summary items more));
  '(peer_items, peer_more) ← (match peer_first with Some p => Ret p | None => receive_page end);
  comparison ← trigger (LocalSummaries (item_id <$> peer_items));
  w ← workspace_call (may_block comparison w) (add_comparison comparison) w;
  w ← workspace_call (may_block peer_items w) (add_remote peer_items) w;
  Ret (w, negb more && negb peer_more, advance items cursor_ms after_id).

(** The loop of [exchange_workspace]. *)
Fixpoint exchange_pages (pages : nat) (initiator : bool) (cursor_ms : Z) (after_id : option string)
    (w : W) : prog W W :=
  match pages with
  | O => Throw TooManySummaryPages
  | S pages =>
    '(w, finished, (cursor_ms, after_id)) ← exchange_page initiator cursor_ms after_id w;
    if (finished : bool) then Ret w else exchange_pages pages initiator cursor_ms after_id w
  end.

Definition exchange_workspace (since_ms : Z) (w : W) (initiator : bool) : prog W W :=
  exchange_pages (Z.to_nat MAX_SUMMARY_PAGES_PER_SESSION) initiator since_ms None w.

(** ** The two halves *)

Definition prepare_plan (w : W) (stats : SyncStats)
    : prog W (W * gmap string ItemSummary * SyncStats) :=
  if negb (may_block [] w) then
    now ← trigger NowMs;
    '(wanted, stats, w) ← lift (fueled (plan_workspace now stats w));
    Ret (w, wanted, stats)
  else
    _ ← trigger SpawnBlocking;
    now ← trigger NowMs;
    '(wanted, stats, w) ← lift (fueled (plan_workspace now stats w));
    Ret (w, wanted, stats).

Definition prepare_requested (w : W) (requested : list string)
    : prog W (W * gmap string ItemSummary * list string) :=
  '(adv, w) ← workspace_call (may_block [] w) (requested_advertised requested ∅) w;
  Ret (w, adv, requested).

Definition finish_watermark (w : W) (previous : Z) (wanted : gmap string ItemSummary)
    (att : gset string) : prog W Z :=
  workspace_call (may_block [] w) (fun w => fueled (workspace_watermark previous wanted att w)) w.

Definition local_hello (d : Device) (listen_addr : option string) (since_ms : Z) : SyncMessage.t :=
  SyncMessage.Hello PROTOCOL_VERSION (own_id d) (own_name d) (Some (own_profile d)) listen_addr since_ms.

Record PeerHello := {
  hello_id : string;
  hello_name : string;
  hello_profile : option DeviceProfile;
  hello_addr : option SocketAddr;
  hello_since : Z;
}.

Definition parse_hello (d : Device) (msg : SyncMessage.t) : result SyncError PeerHello :=
  _ ← map_err Protocol (message_validate msg);
  match msg with
  | SyncMessage.Hello _ device_id device_name profile listen_addr since_ms =>
    if String.eqb device_id (own_id d) then Err SelfSync else
    Ok {| hello_id := device_id; hello_name := device_name; hello_profile := profile;
          hello_addr := match addr ← listen_addr; parse_socket_addr addr with
                        | Some a => if is_dialable a then Some a else None
                        | None => None
                        end;
          hello_since := since_ms |}
  | other => Err (Unexpected "hello" (SyncMessage.kind other))
  end.

Definition recv_hello (d : Device) : prog W PeerHello :=
  msg ← trigger Recv; lift (parse_hello d msg).

Definition outcome (peer : PeerHello) (stats : SyncStats) (a : Applied) (since_ms : Z) : SyncOutcome :=
  {| Workspace.stats := stats; peer_device_id := hello_id peer; peer_device_name := hello_name peer;
     peer_profile := hello_profile peer; peer_listen_addr := hello_addr peer;
     cursor := {| Workspace.since_ms := since_ms; relay_floor_ms := None |};
     applied_floor := floor a |}.

(** [run_initiator], for the order the wanted map is iterated in. *)
Definition run_initiator (keys : gmap string ItemSummary -> list string) (d : Device)
    (listen_addr : option string) (c : SyncCursor) : prog W SyncOutcome :=
  _ ← trigger (Send (local_hello d listen_addr (Workspace.since_ms c)));
  peer ← recv_hello d;
  w ← trigger SummaryWorkspaceNew;
  w ← exchange_workspace (advertise_from c (hello_since peer)) w true;
  '(w, wanted, stats) ← prepare_plan w no_stats;
  _ ← trigger (Send (SyncMessage.Request (keys wanted)));
  '(a, stats) ← receive_items wanted stats;
  requested ← receive_request;
  '(w, adv, requested) ← prepare_requested w requested;
  stats ← serve_items adv requested stats;
  since_ms ← finish_watermark w (Workspace.since_ms c) wanted (attempted a);
  Ret (outcome peer stats a since_ms).

(** [run_responder_from_first]. *)
Definition run_responder_from_first (keys : gmap string ItemSummary -> list string) (d : Device)
    (listen_addr : option string) (c : SyncCursor) (first : SyncMessage.t) : prog W SyncOutcome :=
  peer ← lift (parse_hello d first);
  _ ← trigger (Send (local_hello d listen_addr (Workspace.since_ms c)));
  w ← trigger SummaryWorkspaceNew;
  w ← exchange_workspace (advertise_from c (hello_since peer)) w false;
  requested ← receive_request;
  '(w, adv, requested) ← prepare_requested w requested;
  stats ← serve_items adv requested no_stats;
  '(w, wanted, stats) ← prepare_plan w stats;
  _ ← trigger (Send (SyncMessage.Request (keys wanted)));
  '(a, stats) ← receive_items wanted stats;
  since_ms ← finish_watermark w (Workspace.since_ms c) wanted (attempted a);
  Ret (outcome peer stats a since_ms).

(** [run_responder]. *)
Definition run_responder (keys : gmap string ItemSummary -> list string) (d : Device)
    (listen_addr : option string) (c : SyncCursor) : prog W SyncOutcome :=
  first ← trigger Recv;
  run_responder_from_first keys d listen_addr c first.

(** ** What the pages of a session contain *)

(** The rows this device sent, the rows the peer sent, and the local rows the
    store gave for comparison. *)
Definition summaries_of (m : SyncMessage.t) : list ItemSummary :=
  match m with SyncMessage.Summary items _ => items | _ => [] end.
Definition announced (tr : list (entry W)) : list ItemSummary := sends tr ≫= summaries_of.
Definition offered_of (e : entry W) : list ItemSummary :=
  match e with
  | Did ev x => match ev in event _ X return X -> list ItemSummary with
                | Recv => summaries_of
                | _ => fun _ => []
                end x
  | Failed _ _ => []
  end.
Definition offered (tr : list (entry W)) : list ItemSummary := tr ≫= offered_of.
Definition compared_of (e : entry W) : list ItemSummary :=
  match e with
  | Did ev x => match ev in event _ X return X -> list ItemSummary with
                | LocalSummaries _ => fun l => l
                | _ => fun _ => []
                end x
  | Failed _ _ => []
  end.
Definition compared (tr : list (entry W)) : list ItemSummary := tr ≫= compared_of.

Lemma announced_app tr tr' : announced (tr ++ tr') = announced tr ++ announced tr'.
Proof. unfold announced. rewrite sends_app. apply bind_app. Qed.
Lemma offered_app tr tr' : offered (tr ++ tr') = offered tr ++ offered tr'.
Proof. apply bind_app. Qed.
Lemma compared_app tr tr' : compared (tr ++ tr') = compared tr ++ compared tr'.
Proof. apply bind_app. Qed.

(** The operations of each stage. *)
Definition page_event X (ev : event W X) : Prop :=
  match ev with
  | Send m => items_of m = []
  | Fetch _ | ApplyBatch _ | SummaryWorkspaceNew => False
  | _ => True
  end.
Definition serve_event X (ev : event W X) : Prop :=
  match ev with Send m => summaries_of m = [] | Fetch _ => True | _ => False end.
Definition receive_event X (ev : event W X) : Prop :=
  match ev with Recv | ApplyBatch _ => True | _ => False end.
Definition plain_event X (ev : event W X) : Prop :=
  match ev with Send m => items_of m = [] /\ summaries_of m = [] | NowMs | SpawnBlocking | SummaryWorkspaceNew => True | _ => False end.

Lemma page_quiet tr : Forall (entry_event page_event) tr -> served tr = [] /\ applied tr = [].
Proof.
  induction 1 as [|e tr He _ [IH1 IH2]]; [done|]. change (e :: tr) with ([e] ++ tr). rewrite (served_app [e]), (applied_app [e]), IH1, IH2, !app_nil_r.
  unfold served, applied. destruct e as [X ev x|X ev x]; destruct ev; cbn in *; try done;
    by rewrite ?app_nil_r, ?He.
Qed.
Lemma serve_quiet tr : Forall (entry_event serve_event) tr ->
  announced tr = [] /\ applied tr = [] /\ offered tr = [] /\ compared tr = [].
Proof.
  induction 1 as [|e tr He _ (IH1 & IH2 & IH3 & IH4)]; [done|].
  change (e :: tr) with ([e] ++ tr). rewrite (announced_app [e]), (applied_app [e]), (offered_app [e]), (compared_app [e]), IH1, IH2, IH3, IH4, !app_nil_r.
  unfold announced, applied, offered, compared.
  destruct e as [X ev x|X ev x]; destruct ev; cbn in *; try done; by rewrite ?app_nil_r, ?He.
Qed.
Lemma receive_quiet tr : Forall (entry_event receive_event) tr ->
  announced tr = [] /\ served tr = [] /\ compared tr = [].
Proof.
  induction 1 as [|e tr He _ (IH1 & IH2 & IH3)]; [done|].
  change (e :: tr) with ([e] ++ tr). rewrite (announced_app [e]), (served_app [e]), (compared_app [e]), IH1, IH2, IH3, !app_nil_r.
  unfold announced, served, compared.
  destruct e as [X ev x|X ev x]; destruct ev; cbn in *; done.
Qed.
Lemma plain_quiet tr : Forall (entry_event plain_event) tr ->
  announced tr = [] /\ served tr = [] /\ applied tr = [] /\ offered tr = [] /\ compared tr = [].
Proof.
  induction 1 as [|e tr He _ (IH1 & IH2 & IH3 & IH4 & IH5)]; [done|].
  change (e :: tr) with ([e] ++ tr). rewrite (announced_app [e]), (served_app [e]), (applied_app [e]), (offered_app [e]), (compared_app [e]),
    IH1, IH2, IH3, IH4, IH5, !app_nil_r.
  unfold announced, served, applied, offered, compared.
  destruct e as [X ev x|X ev x]; destruct ev; cbn in *; try done; destruct He as [? ?];
    by rewrite ?app_nil_r.
Qed.

Lemma workspace_call_only {T} (P : forall X, event W X -> Prop) b (f : W -> result SyncError T) w :
  P unit SpawnBlocking -> only P (workspace_call b f w).
Proof.
  intros HP. unfold workspace_call. destruct (negb b); [apply only_lift|].
  apply only_bind; [by apply only_trigger|intros []; apply only_lift].
Qed.

Lemma expect_message_only (P : forall X, event W X -> Prop) {A} s (f : SyncMessage.t -> option A) :
  P _ Recv -> only P (@expect_message W _ _ s A f).
Proof.
  intros HP. apply only_bind; [by apply only_trigger|]. intros m.
  apply only_bind; [apply only_lift|]. intros []. by destruct (f m).
Qed.

Lemma exchange_page_only i c a w : only page_event (exchange_page i c a w).
Proof.
  assert (Hrp : only page_event receive_page) by (by apply expect_message_only).
  unfold exchange_page. apply only_bind.
  { destruct i; [done|]. apply only_bind; [done|]. done. }
  intros peer_first. apply only_bind.
  { apply only_bind; [by apply only_trigger|]. intros l. by destruct (_ >? _). }
  intros [items more]. apply only_bind; [by apply workspace_call_only|]. intros w1.
  apply only_bind; [by apply only_trigger|]. intros _. apply only_bind; [by destruct peer_first|].
  intros [pi pm]. apply only_bind; [by apply only_trigger|]. intros cmp.
  apply only_bind; [by apply workspace_call_only|]. intros w2.
  apply only_bind; [by apply workspace_call_only|]. done.
Qed.

Lemma exchange_pages_only n : forall i c a w, only page_event (exchange_pages n i c a w).
Proof.
  induction n as [|n IH]; intros i c a w; cbn [exchange_pages]; [done|].
  apply only_bind; [apply exchange_page_only|]. intros [[w' fin] [c' a']]. by destruct fin.
Qed.

Lemma serve_items_only adv requested stats : only serve_event (@serve_items W _ adv requested stats).
Proof.
  assert (Hone : forall chunk item s, only serve_event (serve_one (W:=W) chunk item s)).
  { intros. unfold serve_one. destruct (_ || _); [done|]. destruct (_ >? _); [done|].
    destruct (item_validate _); [|done]. destruct (_ && _); [|done].
    apply only_bind; [by apply only_trigger|done]. }
  assert (Hf : forall chunk items s, only serve_event (serve_fetched (W:=W) chunk items s)).
  { intros chunk items. induction items as [|i items IH]; intros s; cbn [serve_fetched]; [done|].
    apply only_bind; [apply Hone|done]. }
  assert (Hc : forall l s, only serve_event (serve_chunks (W:=W) l s)).
  { intros l. induction l as [|c l IH]; intros s; cbn [serve_chunks]; [done|].
    apply only_bind; [by apply only_trigger|]. intros items. by apply only_bind. }
  unfold serve_items. apply only_bind; [done|]. intros s. apply only_bind.
  { destruct (bool_decide _); [done|]. apply only_bind; [by apply only_trigger|done]. }
  intros st. apply only_bind; [by apply only_trigger|done].
Qed.

Lemma receive_items_only wanted stats : only receive_event (@receive_items W _ _ _ wanted stats).
Proof.
  unfold receive_items. generalize (Z.to_nat (usize_saturating_add (map_len wanted) 2)).
  intros n. generalize (∅ : gset string) at 2. generalize (∅ : gset string).
  generalize (@None Z). revert stats. induction n as [|n IH]; intros stats low app rec_; cbn [receive_loop]; [done|].
  apply only_bind; [by apply only_trigger|]. intros m. apply only_bind; [apply only_lift|]. intros [].
  destruct m; try done. destruct (bool_decide _); [done|].
  apply only_bind; [by apply only_trigger|]. intros o. by destruct (settle_outcomes _ _ _ _).
Qed.

(** ** What the exchange leaves in the workspace *)

Lemma workspace_call_ok {T} b (f : W -> result SyncError T) w tr x :
  run (workspace_call b f w) tr (Ok x) -> Forall (entry_event plain_event) tr /\ f w = Ok x.
Proof.
  intros Hr. split.
  - eapply only_run; [|exact Hr]. by apply workspace_call_only.
  - unfold workspace_call in Hr. destruct (negb b); [by apply run_lift_ok in Hr as [_ ?]|].
    apply run_bind_ok in Hr as (? & ? & ? & _ & _ & Hr). by apply run_lift_ok in Hr as [_ ?].
Qed.

Lemma expect_message_ok {A} s (f : SyncMessage.t -> option A) tr a :
  run (@expect_message W _ _ s A f) tr (Ok a) ->
  exists m, tr = [Did Recv m] /\ message_validate m = Ok tt /\ f m = Some a.
Proof.
  intros Hr. apply run_bind_ok in Hr as (m & t1 & t2 & -> & ->%run_trigger_ok & Hr).
  apply run_bind_ok in Hr as ([] & t3 & t4 & -> & [-> Hv]%run_lift_ok & Hr).
  apply map_err_ok in Hv. destruct (f m) as [x|] eqn:Ef; [|by apply run_throw_ok in Hr].
  apply run_ret_ok in Hr as [-> ->]. by exists m.
Qed.

Lemma receive_page_ok tr items more :
  run receive_page tr (Ok (items, more)) ->
  offered tr = items /\ announced tr = [] /\ compared tr = [] /\ len items <= MAX_SUMMARIES_PER_MESSAGE.
Proof.
  intros (m & -> & Hv & Hm)%expect_message_ok. destruct m; simplify_eq.
  split_and!; [apply app_nil_r|done|done|].
  cbn [message_validate] in Hv. rewrite bind_unit_ok, check_count_ok in Hv. by destruct Hv.
Qed.

Lemma next_page_ok c a tr items more :
  run (next_page c a) tr (Ok (items, more)) -> offered tr = [] /\ announced tr = [] /\ compared tr = [].
Proof.
  intros Hr. apply run_bind_ok in Hr as (l & t1 & t2 & -> & ->%run_trigger_ok & Hr).
  destruct (_ >? _); by apply run_ret_ok in Hr as [-> _].
Qed.

Context (view : W -> View) `{!WorkspaceLaws W view}.

Lemma exchange_page_ok i c a w tr w' fin c' :
  run (exchange_page i c a w) tr (Ok (w', fin, c')) ->
  view w' = view_receive (offered tr) (view_compare (compared tr) (view_advertise (announced tr) (view w))) /\
  len (offered tr) <= MAX_SUMMARIES_PER_MESSAGE.
Proof.
  unfold exchange_page. intros Hr.
  apply run_bind_ok in Hr as (first & t1 & tr1 & -> & Hfirst & Hr).
  apply run_bind_ok in Hr as ([items more] & t2 & tr2 & -> & Hnext & Hr).
  apply run_bind_ok in Hr as (w1 & t3 & tr3 & -> & Hw1 & Hr).
  apply run_bind_ok in Hr as (u & t4 & tr4 & -> & ->%run_trigger_ok & Hr).
  apply run_bind_ok in Hr as ([pitems pmore] & t5 & tr5 & -> & Hpeer & Hr).
  apply run_bind_ok in Hr as (cmp & t6 & tr6 & -> & ->%run_trigger_ok & Hr).
  apply run_bind_ok in Hr as (w2 & t7 & tr7 & -> & Hw2 & Hr).
  apply run_bind_ok in Hr as (w3 & t8 & tr8 & -> & Hw3 & Hr).
  apply run_ret_ok in Hr as [-> Heq]. injection Heq as <- _ _.
  apply next_page_ok in Hnext as (On & An & Cn).
  apply workspace_call_ok in Hw1 as [(A3 & _ & _ & O3 & C3)%plain_quiet Hv1%law_advertised].
  apply workspace_call_ok in Hw2 as [(A7 & _ & _ & O7 & C7)%plain_quiet H2'%law_comparison].
  apply workspace_call_ok in Hw3 as [(A8 & _ & _ & O8 & C8)%plain_quiet H3%law_remote].
  assert (Hp : offered t1 ++ offered t5 = pitems /\ announced t1 = [] /\ announced t5 = [] /\
               compared t1 = [] /\ compared t5 = [] /\ len pitems <= MAX_SUMMARIES_PER_MESSAGE).
  { destruct i.
    - apply run_ret_ok in Hfirst as [-> <-]. apply receive_page_ok in Hpeer as (-> & -> & -> & ?). by split_and!.
    - apply run_bind_ok in Hfirst as ([fi fm] & t9 & t10 & -> & Hf & Hret).
      apply run_ret_ok in Hret as [-> <-]. apply run_ret_ok in Hpeer as [-> [= -> ->]].
      change (offered []) with (@nil ItemSummary). rewrite !app_nil_r.
      apply receive_page_ok in Hf as (-> & -> & -> & ?). by split_and!. }
  destruct Hp as (Op & A1 & A5 & C1 & C5 & Hlen).
  assert (Ho : offered (t1 ++ t2 ++ t3 ++ [Did (Send (SyncMessage.Summary items more)) u] ++ t5 ++
                        [Did (LocalSummaries (item_id <$> pitems)) cmp] ++ t7 ++ t8 ++ []) = pitems).
  { rewrite !offered_app, On, O3, O7, O8. cbn. by rewrite app_nil_r. }
  assert (Ha : announced (t1 ++ t2 ++ t3 ++ [Did (Send (SyncMessage.Summary items more)) u] ++ t5 ++
                        [Did (LocalSummaries (item_id <$> pitems)) cmp] ++ t7 ++ t8 ++ []) = items).
  { rewrite !announced_app, An, A1, A3, A5, A7, A8. unfold announced; cbn. by rewrite !app_nil_r. }
  assert (Hc : compared (t1 ++ t2 ++ t3 ++ [Did (Send (SyncMessage.Summary items more)) u] ++ t5 ++
                        [Did (LocalSummaries (item_id <$> pitems)) cmp] ++ t7 ++ t8 ++ []) = cmp).
  { rewrite !compared_app, Cn, C1, C3, C5, C7, C8. unfold compared; cbn. by rewrite !app_nil_r. }
  rewrite Ho, Ha, Hc, H3, H2', Hv1. done.
Qed.

Lemma exchange_pages_ok n : forall i c a w tr w',
  run (exchange_pages n i c a w) tr (Ok w') ->
  v_advertised (view w') = insert_all (announced tr) (v_advertised (view w)) /\
  v_comparison (view w') = insert_all (compared tr) (v_comparison (view w)) /\
  v_remote (view w') = v_remote (view w) ++ offered tr /\
  v_wanted (view w') = v_wanted (view w) /\ v_deferred (view w') = v_deferred (view w) /\
  len (offered tr) <= Z.of_nat n * MAX_SUMMARIES_PER_MESSAGE.
Proof.
  induction n as [|n IH]; intros i c a w tr w' Hr; cbn [exchange_pages] in Hr; [by apply run_throw_ok in Hr|].
  apply run_bind_ok in Hr as ([[w1 fin] [c1 a1]] & t1 & t2 & -> & Hx & Hr).
  apply exchange_page_ok in Hx as [Hv Hl]. rewrite announced_app, compared_app, offered_app, len_app, !insert_all_app.
  assert (0 <= MAX_SUMMARIES_PER_MESSAGE) by (unfold MAX_SUMMARIES_PER_MESSAGE; lia).
  destruct fin.
  - apply run_ret_ok in Hr as [-> <-]. rewrite Hv. cbn. rewrite app_nil_r. change (len (offered [])) with 0.
    split_and!; try done. rewrite (len_nil (A:=ItemSummary)). unfold MAX_SUMMARIES_PER_MESSAGE in *. lia.
  - destruct (IH _ _ _ _ _ _ Hr) as (-> & -> & -> & -> & -> & ?). rewrite Hv. cbn.
    split_and!; try done; [by rewrite app_assoc|]. unfold MAX_SUMMARIES_PER_MESSAGE in *. lia.
Qed.

(** Every workspace a session opens is empty. *)
Definition opens_fresh (e : entry W) : Prop :=
  match e with
  | Did ev x => match ev in event _ X return X -> Prop with
                | SummaryWorkspaceNew => fun w => view w = empty_view
                | _ => fun _ => True
                end x
  | Failed _ _ => True
  end.

Lemma insert_all_dom l m k i : insert_all l m !! k = Some i ->
  m !! k = Some i \/ (i ∈ l /\ item_id i = k).
Proof.
  revert m; induction l as [|j l IH]; intros m Hk; [by left|].
  destruct (IH _ Hk) as [Hj|[? ?]]; [|right; split; [by right|done]].
  apply lookup_insert_Some in Hj as [[? ->]|[_ ?]]; [right; split; [left|done]|by left].
Qed.

Lemma requested_advertised_ok requested : forall acc w adv w',
  requested_advertised requested acc w = Ok (adv, w') ->
  view w' = view w /\
  forall k, is_Some (adv !! k) -> is_Some (acc !! k) \/ is_Some (v_advertised (view w) !! k).
Proof.
  induction requested as [|id rest IH]; intros acc w adv w'; cbn.
  - intros [= <- <-]. split; [done|]. by left.
  - intros Hb. apply bind_ok in Hb as ([found w1] & Hx & Hb). apply law_get_advertised in Hx as [-> Hv].
    destruct (IH _ _ _ _ Hb) as [-> Hk]. rewrite Hv in *. split; [done|]. intros k Hs.
    destruct (Hk k Hs) as [Ha|?]; [|by right].
    destruct (v_advertised (view w) !! id) as [j|] eqn:E; [|by left].
    destruct (decide (id = k)) as [->|Hne]; [right; eauto|left; by rewrite lookup_insert_ne in Ha].
Qed.

(** Serving stays within what the workspace advertises. *)
Lemma serve_announced w requested adv w' stats (tr : list (entry W)) r :
  requested_advertised requested ∅ w = Ok (adv, w') ->
  run (serve_items adv requested stats) tr r ->
  forall i, i ∈ served tr -> is_Some (v_advertised (view w) !! SyncItem.item_id i).
Proof.
  intros Hreq Hrun i Hi. apply serve_items_spec in Hrun as ([_ Hf] & _).
  rewrite Forall_forall in Hf. destruct (Hf i Hi) as (Ha & _).
  destruct (allow_spec adv requested ∅) as [_ Hallow]. destruct (Hallow _ Ha) as (_ & Hk & _).
  apply requested_advertised_ok in Hreq as [_ Hadv].
  apply contains_key_true, Hadv in Hk as [Hk|Hk]; [by rewrite lookup_empty in Hk; destruct Hk|done].
Qed.

(** ** Disclosure *)

Definition withholding X (ev : event W X) : Prop :=
  match ev with Send m => items_of m = [] | _ => True end.
Lemma withheld tr : Forall (entry_event withholding) tr -> served tr = [].
Proof.
  induction 1 as [|e tr He _ IH]; [done|]. change (e :: tr) with ([e] ++ tr).
  rewrite served_app, IH, app_nil_r. unfold served.
  destruct e as [X ev x|X ev x]; destruct ev; cbn in *; rewrite ?app_nil_r; done.
Qed.

Lemma only_mono {A} (P Q : forall X, event W X -> Prop) (p : prog W A) :
  (forall X ev, P X ev -> Q X ev) -> only P p -> only Q p.
Proof.
  intros HPQ. induction p as [a|e|X ev k IH]; cbn; [done|done|]. intros [? Hk]. split; [by apply HPQ|].
  intros x. by apply IH.
Qed.

Lemma prepare_plan_only w stats : only plain_event (prepare_plan w stats).
Proof.
  unfold prepare_plan. destruct (negb _).
  - apply only_bind; [by apply only_trigger|]. intros now. apply only_bind; [apply only_lift|].
    by intros [[? ?] ?].
  - apply only_bind; [by apply only_trigger|]. intros _. apply only_bind; [by apply only_trigger|].
    intros now. apply only_bind; [apply only_lift|]. by intros [[? ?] ?].
Qed.
Lemma prepare_requested_only w l : only plain_event (prepare_requested w l).
Proof.
  apply only_bind; [by apply workspace_call_only|]. by intros [? ?].
Qed.
Lemma finish_watermark_only w p m s : only plain_event (finish_watermark w p m s).
Proof. by apply workspace_call_only. Qed.

Lemma plain_withholding X (ev : event W X) : plain_event X ev -> withholding X ev.
Proof. destruct ev; cbn; naive_solver. Qed.
Lemma page_withholding X (ev : event W X) : page_event X ev -> withholding X ev.
Proof. by destruct ev. Qed.
Lemma receive_withholding X (ev : event W X) : receive_event X ev -> withholding X ev.
Proof. by destruct ev. Qed.

(** Nothing is served by any stage but serving itself. *)
Lemma stage_withheld {A} (p : prog W A) tr r : only withholding p -> run p tr r -> served tr = [].
Proof. intros Ho Hr. apply withheld. by eapply only_run. Qed.

Lemma exchange_withheld since w i : only withholding (exchange_workspace since w i).
Proof. eapply only_mono; [apply page_withholding|apply exchange_pages_only]. Qed.
Lemma plan_withheld w stats : only withholding (prepare_plan w stats).
Proof. eapply only_mono; [apply plain_withholding|apply prepare_plan_only]. Qed.
Lemma requested_withheld w l : only withholding (prepare_requested w l).
Proof. eapply only_mono; [apply plain_withholding|apply prepare_requested_only]. Qed.
Lemma finish_withheld w p m s : only withholding (finish_watermark w p m s).
Proof. eapply only_mono; [apply plain_withholding|apply finish_watermark_only]. Qed.
Lemma receive_withheld wanted stats : only withholding (receive_items (W:=W) wanted stats).
Proof. eapply only_mono; [apply receive_withholding|apply receive_items_only]. Qed.
Lemma request_withheld : only withholding (receive_request (W:=W)).
Proof. by apply expect_message_only. Qed.
Lemma hello_withheld d : only withholding (recv_hello d).
Proof. apply only_bind; [by apply only_trigger|]. intros m. apply only_lift. Qed.

(** A stage that serves nothing, followed by one that serves only what it and
    the stages before it announced. *)
Definition announced_only (before : list ItemSummary) (tr : list (entry W)) : Prop :=
  forall i, i ∈ served tr -> SyncItem.item_id i ∈ (item_id <$> before ++ announced tr).

Lemma announced_only_quiet before tr : served tr = [] -> announced_only before tr.
Proof. intros Hs i. rewrite Hs. intros Hi. by apply elem_of_nil in Hi. Qed.

Lemma disclose_bind {A B} (p : prog W A) (f : A -> prog W B) before tr r :
  only withholding p ->
  (forall a tr1 tr2, run p tr1 (Ok a) -> tr = tr1 ++ tr2 -> run (f a) tr2 r ->
     announced_only (before ++ announced tr1) tr2) ->
  run (p ≫= f) tr r -> announced_only before tr.
Proof.
  intros Ho Hf [(e & -> & Hr)|(a & tr1 & tr2 & -> & H1' & H2')]%run_bind_inv.
  - apply announced_only_quiet. by eapply stage_withheld.
  - intros i. rewrite served_app, (stage_withheld _ _ _ Ho H1'), announced_app, app_assoc.
    by apply (Hf a tr1 tr2).
Qed.

(** What the workspace advertises was announced. *)
Definition advertises_within (v : View) (before : list ItemSummary) : Prop :=
  forall k, is_Some (v_advertised v !! k) -> k ∈ (item_id <$> before).
Lemma advertises_app v before more : advertises_within v before -> advertises_within v (before ++ more).
Proof. intros Hv k Hk. rewrite fmap_app. apply elem_of_app. left. by apply Hv. Qed.

Lemma serve_tail {B} adv requested stats (f : SyncStats -> prog W B) w before tr r :
  advertises_within (view w) before ->
  (exists w', requested_advertised requested ∅ w = Ok (adv, w')) ->
  (forall st, only withholding (f st)) ->
  run (serve_items adv requested stats ≫= f) tr r -> announced_only before tr.
Proof.
  intros Hadv [w' Hreq] Hf Hr.
  assert (Hs : forall (t : list (entry W)) q, run (serve_items adv requested stats) t q ->
    forall i, i ∈ served t -> SyncItem.item_id i ∈ (item_id <$> before)).
  { intros t q Hq i Hi. apply Hadv. by eapply serve_announced. }
  apply run_bind_inv in Hr as [(e & -> & Hr)|(st & t1 & t2 & -> & Hr1 & Hr2)].
  - intros i Hi. rewrite fmap_app. apply elem_of_app. left. by eapply Hs.
  - intros i. rewrite served_app, (stage_withheld _ _ _ (Hf st) Hr2), app_nil_r. intros Hi.
    rewrite fmap_app. apply elem_of_app. left. by eapply Hs.
Qed.

Lemma plan_ok_rows w stats tr w' wanted stats' :
  run (prepare_plan w stats) tr (Ok (w', wanted, stats')) ->
  exists now, plan_workspace now stats w = Some (Ok (wanted, stats', w')) /\
    fixed_rows (view w') = fixed_rows (view w).
Proof.
  intros Hr. assert (Hp : exists now, plan_workspace now stats w = Some (Ok (wanted, stats', w'))).
  { unfold prepare_plan in Hr. destruct (negb _); [|apply run_bind_ok in Hr as (u & tu & tu' & -> & _ & Hr)].
    all: apply run_bind_ok in Hr as (now & t1 & t2 & -> & _ & Hr).
    all: apply run_bind_ok in Hr as ([[m s] w1] & t3 & t4 & -> & [-> Hl]%run_lift_ok & Hr).
    all: apply run_ret_ok in Hr as [-> [= -> -> ->]]; exists now.
    all: unfold fueled in Hl; by destruct (plan_workspace now stats w) as [q|]; [subst q|]. }
  destruct Hp as [now Hp]. exists now. split; [done|].
  by apply (plan_workspace_inv view) in Hp as (p & o & _ & _ & _ & _ & _ & ? & _).
Qed.

Lemma exchange_ok since w i tr w' :
  run (exchange_workspace since w i) tr (Ok w') -> view w = empty_view ->
  v_advertised (view w') = insert_all (announced tr) ∅ /\
  v_comparison (view w') = insert_all (compared tr) ∅ /\
  v_remote (view w') = offered tr /\ v_wanted (view w') = ∅ /\ v_deferred (view w') = ∅ /\
  len (offered tr) <= MAX_SUMMARY_PAGES_PER_SESSION * MAX_SUMMARIES_PER_MESSAGE.
Proof.
  intros Hr He. apply exchange_pages_ok in Hr as (-> & -> & -> & -> & -> & ?). rewrite He. by split_and!.
Qed.

Lemma prepare_requested_ok w l tr w' adv l' :
  run (prepare_requested w l) tr (Ok (w', adv, l')) ->
  l' = l /\ requested_advertised l ∅ w = Ok (adv, w').
Proof.
  intros Hr. apply run_bind_ok in Hr as ([m w1] & t1 & t2 & -> & [_ Hc]%workspace_call_ok & Hr).
  by apply run_ret_ok in Hr as [-> [= -> -> ->]].
Qed.

Lemma fresh_entry w tr1 tr2 :
  Forall opens_fresh (tr1 ++ Did SummaryWorkspaceNew w :: tr2) -> view w = empty_view.
Proof. intros Hf. apply Forall_app in Hf as [_ Hf]. by apply Forall_cons in Hf as [? _]. Qed.

Lemma exchange_advertises since w i tr w' before :
  run (exchange_workspace since w i) tr (Ok w') -> view w = empty_view ->
  advertises_within (view w') (before ++ announced tr).
Proof.
  intros Hr He. destruct (exchange_ok _ _ _ _ _ Hr He) as (Ha & _). intros k [s Hk]. rewrite Ha in Hk.
  apply insert_all_dom in Hk as [Hk|[Hin <-]]; [by rewrite lookup_empty in Hk|].
  apply list_elem_of_fmap. exists s. split; [done|]. apply elem_of_app. by right.
Qed.

(** The prefix of a session up to the serving stage, in both orders. *)
Lemma initiator_discloses keys d addr c tr r :
  run (run_initiator keys d addr c) tr r -> Forall opens_fresh tr -> announced_only [] tr.
Proof.
  intros Hr Hfresh. revert Hr. apply disclose_bind; [by apply only_trigger|].
  intros [] t1 r1 ->%run_trigger_ok -> Hr. revert Hr. apply disclose_bind; [apply hello_withheld|].
  intros peer t2 r2 _ -> Hr. revert Hr. apply disclose_bind; [by apply only_trigger|].
  intros w t3 r3 ->%run_trigger_ok -> Hr.
  assert (He : view w = empty_view).
  { apply Forall_app in Hfresh as [_ Hf]. apply Forall_app in Hf as [_ Hf]. by apply Forall_cons in Hf as [? _]. }
  revert Hr. apply disclose_bind; [apply exchange_withheld|].
  intros w1 t4 r4 Hx -> Hr. pose proof (exchange_advertises _ _ _ _ _ (([] ++ announced
    [Did (Send (local_hello d addr (Workspace.since_ms c))) ()]) ++ announced t2 ++ announced
    [Did SummaryWorkspaceNew w]) Hx He) as Hadv. rewrite <- !app_assoc in Hadv.
  revert Hr. apply disclose_bind; [apply plan_withheld|].
  intros [[w2 wanted] st] t5 r5 Hplan -> Hr. apply plan_ok_rows in Hplan as (now & _ & Hrows).
  revert Hr. apply disclose_bind; [by apply only_trigger|]. intros u t6 r6 _ -> Hr.
  revert Hr. apply disclose_bind; [apply receive_withheld|]. intros [a st1] t7 r7 _ -> Hr.
  revert Hr. apply disclose_bind; [apply request_withheld|]. intros requested t8 r8 _ -> Hr.
  revert Hr. apply disclose_bind; [apply requested_withheld|].
  intros [[w3 adv] requested'] t9 r9 [-> Hreq]%prepare_requested_ok -> Hr.
  eapply (serve_tail _ _ _ _ w2); [|by exists w3| |exact Hr].
  - rewrite <- !app_assoc in *. unfold fixed_rows in Hrows. injection Hrows as Hrows _ _.
    intros k Hk. rewrite Hrows in Hk. specialize (Hadv k Hk). rewrite !fmap_app, !elem_of_app in *. tauto.
  - intros st2. apply only_bind; [apply finish_withheld|]. done.
Qed.

Lemma responder_discloses keys d addr c tr r :
  run (run_responder keys d addr c) tr r -> Forall opens_fresh tr -> announced_only [] tr.
Proof.
  intros Hr Hfresh. revert Hr. apply disclose_bind; [by apply only_trigger|].
  intros first t0 r0 ->%run_trigger_ok -> Hr. revert Hr. apply disclose_bind; [apply only_lift|].
  intros peer t2 r2 [-> _]%run_lift_ok -> Hr. revert Hr. apply disclose_bind; [by apply only_trigger|].
  intros [] t1 r1 ->%run_trigger_ok -> Hr. revert Hr. apply disclose_bind; [by apply only_trigger|].
  intros w t3 r3 ->%run_trigger_ok -> Hr.
  assert (He : view w = empty_view).
  { apply Forall_cons in Hfresh as [_ Hf]. cbn in Hf. apply Forall_cons in Hf as [_ Hf].
    by apply Forall_cons in Hf as [? _]. }
  revert Hr. apply disclose_bind; [apply exchange_withheld|].
  intros w1 t4 r4 Hx -> Hr. pose proof (exchange_advertises _ _ _ _ _ [] Hx He) as Hadv.
  revert Hr. apply disclose_bind; [apply request_withheld|]. intros requested t8 r8 _ -> Hr.
  revert Hr. apply disclose_bind; [apply requested_withheld|].
  intros [[w3 adv] requested'] t9 r9 [-> Hreq]%prepare_requested_ok -> Hr.
  eapply (serve_tail _ _ _ _ w1); [|by exists w3| |exact Hr].
  - intros k Hk. specialize (Hadv k Hk). rewrite !fmap_app, !elem_of_app in *. tauto.
  - intros st2. apply only_bind; [apply plan_withheld|]. intros [[? ?] ?].
    apply only_bind; [by apply only_trigger|]. intros _. apply only_bind; [apply receive_withheld|].
    intros [? ?]. apply only_bind; [apply finish_withheld|]. done.
Qed.

(** C1: a session discloses nothing it did not announce.  In either role, in
    any environment, at any point a session may break off: every item sent had
    its id in a summary page this device sent in the same session. *)
Theorem nothing_unannounced_is_served keys d addr c tr r :
  Forall opens_fresh tr ->
  run (run_initiator keys d addr c) tr r \/ run (run_responder keys d addr c) tr r ->
  forall i, i ∈ served tr -> SyncItem.item_id i ∈ (item_id <$> announced tr).
Proof.
  intros Hf [Hr|Hr] i Hi; [by apply (initiator_discloses _ _ _ _ _ _ Hr Hf)|].
  by apply (responder_discloses _ _ _ _ _ _ Hr Hf).
Qed.

(** ** The cursor of a completed session *)

Lemma at_least_as_new_eqb a s v : summary_eqb a s = true -> at_least_as_new s v -> at_least_as_new a v.
Proof.
  intros (_ & Hc & Hd & Hh & Ho & _)%summary_eqb_fields. unfold at_least_as_new, merge_decision_by_summary.
  rewrite !merge_decision_take. unfold merge_key. by rewrite Hc, Hd, Hh, Ho.
Qed.

(** A version is settled by what the trace read from the local store and wrote
    to it. *)
Definition settled (tr : list (entry W)) (v : ItemSummary) : Prop :=
  (exists l, l ∈ compared tr /\ item_id l = item_id v /\ remote_version_wins l v = false) \/
  (exists i, i ∈ applied tr /\ SyncItem.item_id i = item_id v /\ at_least_as_new (SyncItem.summary i) v).

(** The stages that decide the cursor, in whatever order the role runs them. *)
Lemma stages_settle since w i tx w1 w1' tp stats w2 wanted st w2' stats' (ta : list (entry W)) a st' previous tw m :
  view w = empty_view ->
  run (exchange_workspace since w i) tx (Ok w1) -> view w1' = view w1 ->
  run (prepare_plan w1' stats) tp (Ok (w2, wanted, st)) -> view w2' = view w2 ->
  run (receive_items wanted stats') ta (Ok (a, st')) ->
  run (finish_watermark w2' previous wanted (attempted a)) tw (Ok m) ->
  forall v, v ∈ offered tx -> summary_key v < m ->
    (exists l, l ∈ compared tx /\ item_id l = item_id v /\ remote_version_wins l v = false) \/
    (exists i, i ∈ applied ta /\ SyncItem.item_id i = item_id v /\ at_least_as_new (SyncItem.summary i) v).
Proof.
  intros He Hx H1' Hp H2' Ha Hw v Hv Hlt.
  destruct (exchange_ok _ _ _ _ _ Hx He) as (_ & Hcmp & Hrem & Hwant & Hdef & _).
  apply plan_ok_rows in Hp as (now & Hplan & _).
  apply workspace_call_ok in Hw as [_ Hmark]. unfold fueled in Hmark.
  destruct (workspace_watermark previous wanted (attempted a) w2') as [q|] eqn:Em; [subst q|done].
  destruct (cursor_never_passes_unsettled view now stats previous w1' wanted st w2 w2' (attempted a) m)
    with (r := v) as [(l & Hl & Hwins)|(s & Hs & Hatt & Hnew)]; try done.
  - by rewrite H1'.
  - by rewrite H1'.
  - by rewrite H1', Hrem.
  - left. rewrite H1', Hcmp in Hl. apply insert_all_dom in Hl as [Hl|[Hin Hid]]; [by rewrite lookup_empty in Hl|].
    exists l. by rewrite <- Hid.
  - right. unfold receive_items in Ha. apply receive_loop_spec in Ha as (_ & _ & _ & Hprom & Hres).
    destruct (Hres a st' eq_refl) as (Hat & _). rewrite Hat in Hatt. unfold item_ids in Hatt.
    rewrite elem_of_union, elem_of_list_to_set, list_elem_of_fmap in Hatt.
    destruct Hatt as [Hatt|(i' & Hid & Hi')]; [by apply elem_of_empty in Hatt|].
    exists i'. split_and!; [done|done|]. rewrite Forall_forall in Hprom.
    destruct (Hprom i' Hi') as (s' & Hs' & Heq & _). rewrite <- Hid, Hs in Hs'. injection Hs' as <-.
    by eapply at_least_as_new_eqb.
Qed.

(** No other stage of a session that goes on takes a summary page. *)
Lemma recv_hello_offers d tr p : run (recv_hello d) tr (Ok p) -> offered tr = [].
Proof.
  intros Hr. apply run_bind_ok in Hr as (m & t1 & t2 & -> & ->%run_trigger_ok & Hr).
  apply run_lift_ok in Hr as [-> Hp]. unfold parse_hello in Hp. rewrite bind_unit_ok in Hp.
  destruct Hp as [_ Hp]. by destruct m.
Qed.
Lemma request_offers (tr : list (entry W)) l : run receive_request tr (Ok l) -> offered tr = [].
Proof. intros (m & -> & _ & Hm)%expect_message_ok. by destruct m. Qed.

Lemma receive_loop_offers wanted n : forall before rec_ low st (tr : list (entry W)) x,
  run (receive_loop n wanted before rec_ low st) tr (Ok x) -> offered tr = [].
Proof.
  induction n as [|n IH]; intros before rec_ low st tr x Hr; cbn [receive_loop] in Hr;
    [by apply run_throw_ok in Hr|].
  apply run_bind_ok in Hr as (m & t1 & t2 & -> & ->%run_trigger_ok & Hr).
  apply run_bind_ok in Hr as (u & t3 & t4 & -> & [-> _]%run_lift_ok & Hr).
  destruct m; try (by apply run_throw_ok in Hr); rewrite !offered_app; cbn [offered].
  - destruct (bool_decide _); [by apply IH in Hr as ->|].
    apply run_bind_ok in Hr as (o & t5 & t6 & -> & ->%run_trigger_ok & Hr).
    destruct (settle_outcomes _ _ _ _). apply IH in Hr. by rewrite !offered_app, Hr.
  - by apply run_ret_ok in Hr as [-> _].
Qed.

Lemma plain_offers {A} (p : prog W A) tr r : only plain_event p -> run p tr r -> offered tr = [].
Proof. intros Ho Hr. eapply plain_quiet, only_run; [exact Ho|exact Hr]. Qed.
Lemma serve_offers adv req st (tr : list (entry W)) r :
  run (serve_items adv req st) tr r -> offered tr = [].
Proof. intros Hr. eapply serve_quiet, only_run; [apply serve_items_only|exact Hr]. Qed.

Lemma settled_within (tx ta tr : list (entry W)) v :
  (forall l, l ∈ compared tx -> l ∈ compared tr) -> (forall i, i ∈ applied ta -> i ∈ applied tr) ->
  (exists l, l ∈ compared tx /\ item_id l = item_id v /\ remote_version_wins l v = false) \/
  (exists i, i ∈ applied ta /\ SyncItem.item_id i = item_id v /\ at_least_as_new (SyncItem.summary i) v) ->
  settled tr v.
Proof. intros Hc Ha [(l & ? & ? & ?)|(i & ? & ? & ?)]; [left|right]; eauto. Qed.

Lemma initiator_settles keys d addr c tr o v :
  Forall opens_fresh tr -> run (run_initiator keys d addr c) tr (Ok o) ->
  v ∈ offered tr -> summary_key v < Workspace.since_ms (cursor o) -> settled tr v.
Proof.
  intros Hfresh Hr Hv Hlt.
  apply run_bind_ok in Hr as (u & t1 & r1 & -> & ->%run_trigger_ok & Hr).
  apply run_bind_ok in Hr as (peer & t2 & r2 & -> & Hhello & Hr).
  apply run_bind_ok in Hr as (w & t3 & r3 & -> & ->%run_trigger_ok & Hr).
  apply run_bind_ok in Hr as (w1 & t4 & r4 & -> & Hx & Hr).
  apply run_bind_ok in Hr as ([[w2 wanted] st] & t5 & r5 & -> & Hp & Hr).
  apply run_bind_ok in Hr as (u' & t6 & r6 & -> & ->%run_trigger_ok & Hr).
  apply run_bind_ok in Hr as ([a st1] & t7 & r7 & -> & Ha & Hr).
  apply run_bind_ok in Hr as (requested & t8 & r8 & -> & Hq & Hr).
  apply run_bind_ok in Hr as ([[w3 adv] requested'] & t9 & r9 & -> & Hreq & Hr).
  apply run_bind_ok in Hr as (st2 & t10 & r10 & -> & Hserve & Hr).
  apply run_bind_ok in Hr as (m & t11 & r11 & -> & Hm & Hr).
  apply run_ret_ok in Hr as [-> <-]. cbn [outcome cursor Workspace.since_ms] in Hlt.
  assert (He : view w = empty_view).
  { apply Forall_app in Hfresh as [_ Hf]. apply Forall_app in Hf as [_ Hf]. by apply Forall_cons in Hf as [? _]. }
  rewrite !offered_app, (recv_hello_offers _ _ _ Hhello), (plain_offers _ _ _ (prepare_plan_only _ _) Hp),
    (receive_loop_offers _ _ _ _ _ _ _ _ Ha), (request_offers _ _ Hq),
    (plain_offers _ _ _ (prepare_requested_only _ _) Hreq), (serve_offers _ _ _ _ _ Hserve),
    (plain_offers _ _ _ (finish_watermark_only _ _ _ _) Hm) in Hv.
  cbn in Hv. rewrite app_nil_r in Hv. apply prepare_requested_ok in Hreq as [-> Hreq].
  apply requested_advertised_ok in Hreq as [Hw3 _].
  eapply (settled_within t4 t7); [| |eapply stages_settle; [exact He|exact Hx|reflexivity|exact Hp|exact Hw3
    |exact Ha|exact Hm|exact Hv|exact Hlt]].
  - intros l Hl. rewrite !compared_app, !elem_of_app. tauto.
  - intros i Hi. rewrite !applied_app, !elem_of_app. tauto.
Qed.

Lemma responder_settles keys d addr c tr o v :
  Forall opens_fresh tr -> run (run_responder keys d addr c) tr (Ok o) ->
  v ∈ offered tr -> summary_key v < Workspace.since_ms (cursor o) -> settled tr v.
Proof.
  intros Hfresh Hr Hv Hlt.
  apply run_bind_ok in Hr as (first & t0 & r0 & -> & ->%run_trigger_ok & Hr).
  apply run_bind_ok in Hr as (peer & t1 & r1 & -> & [-> Hhello]%run_lift_ok & Hr).
  apply run_bind_ok in Hr as (u & t2 & r2 & -> & ->%run_trigger_ok & Hr).
  apply run_bind_ok in Hr as (w & t3 & r3 & -> & ->%run_trigger_ok & Hr).
  apply run_bind_ok in Hr as (w1 & t4 & r4 & -> & Hx & Hr).
  apply run_bind_ok in Hr as (requested & t8 & r8 & -> & Hq & Hr).
  apply run_bind_ok in Hr as ([[w3 adv] requested'] & t9 & r9 & -> & Hreq & Hr).
  apply run_bind_ok in Hr as (st2 & t10 & r10 & -> & Hserve & Hr).
  apply run_bind_ok in Hr as ([[w2 wanted] st] & t5 & r5 & -> & Hp & Hr).
  apply run_bind_ok in Hr as (u' & t6 & r6 & -> & ->%run_trigger_ok & Hr).
  apply run_bind_ok in Hr as ([a st1] & t7 & r7 & -> & Ha & Hr).
  apply run_bind_ok in Hr as (m & t11 & r11 & -> & Hm & Hr).
  apply run_ret_ok in Hr as [-> <-]. cbn [outcome cursor Workspace.since_ms] in Hlt.
  assert (He : view w = empty_view).
  { do 3 apply Forall_app in Hfresh as [_ Hfresh]. by apply Forall_cons in Hfresh as [? _]. }
  assert (Hfirst : offered ([Did Recv first] : list (entry W)) = []).
  { unfold parse_hello in Hhello. rewrite bind_unit_ok in Hhello. destruct Hhello as [_ Hh]. by destruct first. }
  rewrite !offered_app, Hfirst, (plain_offers _ _ _ (prepare_plan_only _ _) Hp),
    (receive_loop_offers _ _ _ _ _ _ _ _ Ha), (request_offers _ _ Hq),
    (plain_offers _ _ _ (prepare_requested_only _ _) Hreq), (serve_offers _ _ _ _ _ Hserve),
    (plain_offers _ _ _ (finish_watermark_only _ _ _ _) Hm) in Hv.
  cbn in Hv. rewrite !app_nil_r in Hv. apply prepare_requested_ok in Hreq as [-> Hreq].
  apply requested_advertised_ok in Hreq as [Hw3 _].
  eapply (settled_within t4 t7); [| |eapply stages_settle; [exact He|exact Hx|exact Hw3|exact Hp|reflexivity
    |exact Ha|exact Hm|exact Hv|exact Hlt]].
  - intros l Hl. rewrite !compared_app, !elem_of_app. tauto.
  - intros i Hi. rewrite !applied_app, !elem_of_app. tauto.
Qed.

(** C2: a completed session settles everything below its cursor.  In either
    role, for every version the peer offered with a stamp below the cursor the
    session reports: a local row read in this session beats it, or an item at
    least as new with the same id was handed to the store in this session. *)
Theorem session_cursor_is_settled keys d addr c tr o v :
  Forall opens_fresh tr ->
  run (run_initiator keys d addr c) tr (Ok o) \/ run (run_responder keys d addr c) tr (Ok o) ->
  v ∈ offered tr -> summary_key v < Workspace.since_ms (cursor o) -> settled tr v.
Proof. intros Hfresh [Hr|Hr]; [by eapply initiator_settles|by eapply responder_settles]. Qed.
End Session.

(** ** Concrete inputs *)

(** The initiator of a session with a peer that offers one version and asks
    for the one this device offers. *)
Module SessionDemo.
#[local] Existing Instance WorkspaceDemo.plain_order.
#[local] Existing Instance TransferDemo.digest.
#[local] Existing Instance Demo.toy_crypto.
#[local] Existing Instance MessageDemo.codecs.

Definition device : Device := {| own_id := "dev-b"; own_name := "b"; own_profile := unknown_profile |}.
Definition start : SyncCursor := {| Workspace.since_ms := 0; relay_floor_ms := None |}.
Definition keys (m : gmap string ItemSummary) : list string := (map_to_list m).*1.
Definition item (id : string) (stamp : Z) : SyncItem.t := {|
  SyncItem.item_id := id; SyncItem.content := id; SyncItem.binary_content := [];
  SyncItem.payload_metadata := None; SyncItem.source_app_bundle_id := None;
  SyncItem.source_app_name := None; SyncItem.content_type := TEXT; SyncItem.created_at := stamp;
  SyncItem.deleted := false; SyncItem.content_hash := id; SyncItem.origin_device_id := "dev-a";
  SyncItem.pinned := false; SyncItem.pin_order := None; SyncItem.pin_updated_at := 0 |}.
Definition offers : list SyncItem.t := [item "i1" 1000; item "i3" 3000].
Definition mine : SyncItem.t := item "i2" 2000.
Definition peer_says : list SyncMessage.t :=
  [SyncMessage.Hello PROTOCOL_VERSION "dev-a" "a" None None 0;
   SyncMessage.Summary (SyncItem.summary <$> offers) false;
   SyncMessage.Items offers; SyncMessage.Done;
   SyncMessage.Request ["i2"; "i9"]%string].
Definition world : @Scripted MemorySummaryWorkspace :=
  {| inbox := peer_says; fresh := empty_view; local := [SyncItem.summary mine]; items := [mine]; clock := 5000 |}.
Definition prog_ : prog MemorySummaryWorkspace SyncOutcome := run_initiator keys device None start.
Definition trace := fst (exec scripted prog_ world).

Lemma ended : exists o, run prog_ trace (Ok o) /\ Workspace.since_ms (cursor o) = 3000.
Proof.
  pose proof (exec_run scripted prog_ world) as Hr. fold trace in Hr.
  assert (He : match snd (exec scripted prog_ world) with
               | Ok o => Workspace.since_ms (cursor o) = 3000
               | Err _ => False
               end) by (vm_compute; reflexivity).
  destruct (snd (exec scripted prog_ world)) as [o|]; [by exists o|done].
Qed.
Lemma trace_served : served trace = [mine].
Proof. vm_compute. reflexivity. Qed.
Lemma trace_offered : offered trace = SyncItem.summary <$> offers.
Proof. vm_compute. reflexivity. Qed.
Lemma trace_fresh : Forall (opens_fresh (fun w : MemorySummaryWorkspace => w)) trace.
Proof.
  assert (Ht : forallb (fun e : entry MemorySummaryWorkspace => match e with
    | Did ev x => match ev in event _ X return X -> bool with
                  | SummaryWorkspaceNew => fun w => bool_decide (w = empty_view)
                  | _ => fun _ => true
                  end x
    | Failed _ _ => true
    end) trace = true) by (vm_compute; reflexivity).
  revert Ht. generalize trace as tr. induction tr as [|e tr IH]; cbn; [constructor|].
  intros [He Ht]%andb_true_iff. constructor; [|by apply IH].
  destruct e as [X ev x|X ev x]; [|done]. destruct ev; try done. cbn. by apply bool_decide_eq_true in He.
Qed.
End SessionDemo.

Lemma nothing_unannounced_is_served_witness :
  served SessionDemo.trace = [SessionDemo.mine] /\ "i2"%string ∈ (item_id <$> announced SessionDemo.trace).
Proof.
  split; [exact SessionDemo.trace_served|].
  destruct SessionDemo.ended as (o & Hr & _).
  apply (nothing_unannounced_is_served (W:=MemorySummaryWorkspace) (fun w => w) _ _ _ _ _ _ SessionDemo.trace_fresh (or_introl Hr) SessionDemo.mine).
  assert (Hm : SessionDemo.mine ∈ [SessionDemo.mine]) by left. rewrite <- SessionDemo.trace_served in Hm. exact Hm.
Defined.

Lemma session_cursor_is_settled_witness :
  exists o, run SessionDemo.prog_ SessionDemo.trace (Ok o) /\ Workspace.since_ms (cursor o) = 3000 /\
    settled SessionDemo.trace (SyncItem.summary (SessionDemo.item "i1" 1000)).
Proof.
  destruct SessionDemo.ended as (o & Hr & Ho). exists o. split; [exact Hr|]. split; [exact Ho|].
  apply (session_cursor_is_settled (W:=MemorySummaryWorkspace) (fun w => w) _ _ _ _ _ o _ SessionDemo.trace_fresh (or_introl Hr)).
  - rewrite SessionDemo.trace_offered. left.
  - rewrite Ho. reflexivity.
Defined.
