(* ===== verification/Duet.v ===== *)
(** Two sessions facing each other: the message order of
    [copypaste-p2p/src/sync/session.rs] as an automaton both roles follow, and
    the proof that the two never wait for each other. *)

From S2P Require Import Prelude Float64 Bytes Wire Net Payload Peer Group Message Merge.
From S2P Require Import Workspace Plan Prog Transfer Session.

(** ** The protocol *)

Inductive role := Initiator | Responder.
Definition other (r : role) : role := match r with Initiator => Responder | Responder => Initiator end.

Lemma other_ne a : a <> other a.
Proof. by destruct a. Qed.
Lemma other_other a : other (other a) = a.
Proof. by destruct a. Qed.

(** Where a session is: which role speaks next, and how many summary pages
    have gone each way. *)
Inductive phase :=
| Greet | Answer
| PageOut (n : nat) | PageBack (n : nat) (more : bool)
| Asking (r : role) | Giving (r : role)
| Over.

Definition speaker (p : phase) : option role :=
  match p with
  | Greet | PageOut _ => Some Initiator
  | Answer | PageBack _ _ => Some Responder
  | Asking r | Giving r => Some r
  | Over => None
  end.

Definition PAGES : nat := Z.to_nat MAX_SUMMARY_PAGES_PER_SESSION.

(** The phase before page [n], or the end of a session that ran out of pages. *)
Definition before_page (n : nat) : phase := if (n <? PAGES)%nat then PageOut n else Over.

Definition advance_phase (p : phase) (m : SyncMessage.t) : option phase :=
  match p, m with
  | Greet, SyncMessage.Hello _ _ _ _ _ _ => Some Answer
  | Answer, SyncMessage.Hello _ _ _ _ _ _ => Some (before_page 0)
  | PageOut n, SyncMessage.Summary _ more => Some (PageBack n more)
  | PageBack n more, SyncMessage.Summary _ more' =>
    Some (if negb more && negb more' then Asking Initiator else before_page (S n))
  | Asking r, SyncMessage.Request _ => Some (Giving (other r))
  | Giving r, SyncMessage.Items _ => Some (Giving r)
  | Giving Responder, SyncMessage.Done => Some (Asking Responder)
  | Giving Initiator, SyncMessage.Done => Some Over
  | _, _ => None
  end.

(** ** Programs that follow it *)

Definition expected_error (e : SyncError) : Prop :=
  match e with Unexpected _ _ => False | _ => True end.
Definition error_in {E A} (P : E -> Prop) (q : result E A) : Prop :=
  match q with Ok _ => True | Err e => P e end.

Lemma error_in_bind {E A B} (P : E -> Prop) (q : result E A) (f : A -> result E B) :
  error_in P q -> (forall a, error_in P (f a)) -> error_in P (q ≫= f).
Proof. destruct q; cbn; auto. Qed.

(** [follows me Q p prog]: from phase [p], [prog] speaks only when it is [me]'s
    turn, listens only when it is not, takes every message the automaton
    allows, never complains of an unexpected one, and ends with [Q]. *)
Fixpoint follows {W A} (me : role) (Q : A -> phase -> Prop) (p : phase) (q : prog W A) : Prop :=
  match q with
  | Ret a => Q a p
  | Throw e => expected_error e
  | Vis ev k =>
    match ev in event _ X return (X -> phase -> Prop) -> Prop with
    | Send m => fun C => speaker p = Some me /\ exists p', advance_phase p m = Some p' /\ C tt p'
    | Recv => fun C => speaker p = Some (other me) /\
                forall m p', advance_phase p m = Some p' -> C m p'
    | _ => fun C => forall x, C x p
    end (fun x p' => follows me Q p' (k x))
  end.

Section Follows.
Context {W : Type} (me : role).

Lemma follows_bind {A B} (Q : B -> phase -> Prop) p (q : prog W A) (f : A -> prog W B) :
  follows me (fun a p' => follows me Q p' (f a)) p q -> follows me Q p (q ≫= f).
Proof.
  revert p; induction q as [a|e|X ev k IH]; intros p; cbn; [done|done|].
  destruct ev; cbn.
  - intros [? (p' & ? & ?)]. split; [done|]. exists p'. split; [done|]. by apply IH.
  - intros [? Hk]. split; [done|]. intros m p' Hm. by apply IH, Hk.
  - intros Hk x. by apply IH.
  - intros Hk x. by apply IH.
  - intros Hk x. by apply IH.
  - intros Hk x. by apply IH.
  - intros Hk x. by apply IH.
  - intros Hk x. by apply IH.
  - intros Hk x. by apply IH.
Qed.

Lemma follows_mono {A} (Q Q' : A -> phase -> Prop) p (q : prog W A) :
  (forall a p', Q a p' -> Q' a p') -> follows me Q p q -> follows me Q' p q.
Proof.
  intros HQ. revert p; induction q as [a|e|X ev k IH]; intros p; cbn; [apply HQ|done|].
  destruct ev; cbn; [intros [? (p' & ? & ?)]; split; [done|exists p'; split; [done|by apply IH]]
                    |intros [? Hk]; split; [done|intros m p' Hm; by apply IH, Hk]
                    |intros Hk x; by apply IH..].
Qed.

(** Operations other than the channel leave the phase alone. *)
Definition local_event X (ev : event W X) : Prop :=
  match ev with Send _ | Recv => False | _ => True end.

Lemma follows_send p p' m : speaker p = Some me -> advance_phase p m = Some p' ->
  follows me (fun _ q => q = p') p (trigger (W:=W) (Send m)).
Proof. intros Hs Ha. split; [done|]. by exists p'. Qed.
Lemma follows_recv (Q : SyncMessage.t -> phase -> Prop) p : speaker p = Some (other me) ->
  (forall m p', advance_phase p m = Some p' -> Q m p') -> follows me Q p (trigger (W:=W) Recv).
Proof. by split. Qed.

Lemma follows_trigger {X} (ev : event W X) (Q : X -> phase -> Prop) p :
  local_event X ev -> (forall x, Q x p) -> follows me Q p (trigger ev).
Proof. destruct ev; cbn; naive_solver. Qed.

Lemma follows_lift {A} (q : result SyncError A) (Q : A -> phase -> Prop) p :
  error_in expected_error q -> (forall a, q = Ok a -> Q a p) -> follows me Q p (@lift W A q).
Proof. destruct q; cbn; auto. Qed.
End Follows.

(** ** The session's programs follow it *)

(** A workspace that fails, fails with errors of its own. *)
Class WorkspaceErrors (W : Type) `{SummaryWorkspace W} : Prop := {
  err_advertised items w : error_in expected_error (add_advertised items w);
  err_comparison items w : error_in expected_error (add_comparison items w);
  err_remote items w : error_in expected_error (add_remote items w);
  err_page after limit w : error_in expected_error (remote_page after limit w);
  err_get_advertised id w : error_in expected_error (advertised id w);
  err_wins item w : error_in expected_error (remote_wins item w);
  err_consider item w : error_in expected_error (consider_wanted item w);
  err_defer id w : error_in expected_error (defer id w);
  err_is_deferred id w : error_in expected_error (is_deferred id w);
  err_finish limit w : error_in expected_error (finish_plan limit w);
}.
#[export] Instance memory_errors `{HashOrder} : WorkspaceErrors MemorySummaryWorkspace.
Proof.
  split; try done. intros item w. cbn. by case_match.
Qed.
#[export] Hint Resolve err_advertised err_comparison err_remote err_page err_get_advertised err_wins
  err_consider err_defer err_is_deferred err_finish : session.

Section Errors.
Context {W : Type} `{WorkspaceErrors W}.

Lemma err_walk {A} (f : ItemSummary -> A -> W -> result SyncError (A * W)) :
  (forall r acc w, error_in expected_error (f r acc w)) ->
  forall fuel cursor acc w q, walk f fuel cursor acc w = Some q -> error_in expected_error q.
Proof.
  intros Hf fuel. induction fuel as [|fuel IH]; intros cursor acc w q; cbn [walk]; [done|].
  pose proof (err_page cursor PAGE w) as Hp. destruct (remote_page cursor PAGE w) as [[page w1]|e];
    [|by intros [= <-]].
  assert (Hw : forall l c a v, error_in expected_error (walk_page f l c a v)).
  { intros l. induction l as [|[n r] l IHl]; intros c a v; cbn [walk_page]; [done|].
    apply error_in_bind; [apply Hf|]. by intros []. }
  destruct page as [|x page]; [by intros [= <-]|].
  specialize (Hw (x :: page) cursor acc w1).
  destruct (walk_page f (x :: page) cursor acc w1) as [[[? ?] ?]|e]; [by apply IH|by intros [= <-]].
Qed.

Lemma err_fueled {A} (o : option (result SyncError A)) :
  (forall q, o = Some q -> error_in expected_error q) -> error_in expected_error (fueled o).
Proof. destruct o; cbn; auto. Qed.

Lemma err_plan_workspace now stats w : error_in expected_error (fueled (plan_workspace now stats w)).
Proof.
  apply err_fueled. intros q. unfold plan_workspace.
  destruct (walk _ _ _ _ _) as [r|] eqn:E; [|done]. intros [= <-].
  apply error_in_bind.
  - eapply err_walk; [|exact E]. intros x acc v. unfold plan_one. destruct (_ >? _).
    + apply error_in_bind; [auto with session|done].
    + apply error_in_bind; [auto with session|]. intros [[] ?]; [|done]. cbn.
      apply error_in_bind; [auto with session|]. by intros [[] ?].
  - intros [s v]. apply error_in_bind; [auto with session|]. by intros [[? ?] ?].
Qed.

Lemma err_watermark previous wanted att w :
  error_in expected_error (fueled (workspace_watermark previous wanted att w)).
Proof.
  apply err_fueled. intros q. unfold workspace_watermark.
  destruct (walk _ _ _ _ _) as [r|] eqn:E; [|done]. intros [= <-].
  apply error_in_bind.
  - eapply err_walk; [|exact E]. intros x [a b] v. unfold watermark_one.
    apply error_in_bind; [auto with session|]. by intros [? ?].
  - by intros [[? ?] ?].
Qed.

Lemma err_requested l : forall acc w, error_in expected_error (requested_advertised l acc w).
Proof.
  induction l as [|id l IH]; intros acc w; cbn [requested_advertised]; [done|].
  apply error_in_bind; [auto with session|]. by intros [? ?].
Qed.
End Errors.
#[export] Hint Resolve err_plan_workspace err_watermark err_requested : session.

Section Conformance.
Context {W : Type} `{WorkspaceErrors W} `{GroupCrypto} `{PayloadCodecs} `{Digest}.
Implicit Types (stats : SyncStats).

Lemma follows_call {T} me b (f : W -> result SyncError T) w (Q : T -> phase -> Prop) p :
  error_in expected_error (f w) -> (forall x, f w = Ok x -> Q x p) ->
  follows me Q p (workspace_call b f w).
Proof.
  intros He HQ. unfold workspace_call. destruct (negb b); [by apply follows_lift|].
  apply follows_bind, follows_trigger; [done|]. intros _. by apply follows_lift.
Qed.

(** A message that must be of one kind: any other is impossible here. *)
Lemma follows_expect {A} me s (f : SyncMessage.t -> option A) (Q : A -> phase -> Prop) p :
  speaker p = Some (other me) ->
  (forall m p', advance_phase p m = Some p' -> exists a, f m = Some a /\ Q a p') ->
  follows me Q p (@expect_message W _ _ s A f).
Proof.
  intros Hs Hf. apply follows_bind, follows_recv; [done|]. intros m p' (a & Ha & HQ)%Hf.
  apply follows_bind, follows_lift; [by destruct (message_validate m)|]. intros [] _. by rewrite Ha.
Qed.

Lemma follows_next_page me c a (Q : list ItemSummary * bool -> phase -> Prop) p :
  (forall x, Q x p) -> follows me Q p (next_page (W:=W) c a).
Proof.
  intros HQ. apply follows_bind, follows_trigger; [done|]. intros l. destruct (_ >? _); apply HQ.
Qed.

Definition after_page (n : nat) (finished : bool) : phase :=
  if finished then Asking Initiator else before_page (S n).

Lemma exchange_page_initiator n c a w :
  follows Initiator (fun x p => p = after_page n (snd (fst x))) (PageOut n) (exchange_page (W:=W) true c a w).
Proof.
  apply follows_bind, follows_bind, follows_next_page. intros [items more].
  apply follows_bind, follows_call; [auto with session|]. intros w1 _.
  apply follows_bind. eapply follows_mono; [|by apply follows_send]. intros _ p ->.
  apply follows_bind, follows_expect; [done|]. intros m p' Hm. destruct m; try done. injection Hm as <-.
  eexists. split; [done|].
  apply follows_bind, follows_trigger; [done|]. intros cmp.
  apply follows_bind, follows_call; [auto with session|]. intros w2 _.
  apply follows_bind, follows_call; [auto with session|]. done.
Qed.

Lemma exchange_page_responder n c a w :
  follows Responder (fun x p => p = after_page n (snd (fst x))) (PageOut n) (exchange_page (W:=W) false c a w).
Proof.
  apply follows_bind, follows_bind, follows_expect; [done|].
  intros m p' Hm. destruct m; try done. injection Hm as <-. eexists. split; [done|].
  apply follows_bind, follows_next_page. intros [out more'].
  apply follows_bind, follows_call; [auto with session|]. intros w1 _.
  apply follows_bind. eapply follows_mono; [|by apply follows_send]. intros _ p ->.
  apply follows_bind, follows_bind, follows_trigger; [done|]. intros cmp.
  apply follows_bind, follows_call; [auto with session|]. intros w2 _.
  apply follows_bind, follows_call; [auto with session|]. intros w3 _. cbn.
  by rewrite andb_comm.
Qed.

Lemma exchange_page_follows me n c a w :
  follows me (fun x p => p = after_page n (snd (fst x))) (PageOut n)
    (exchange_page (W:=W) (match me with Initiator => true | Responder => false end) c a w).
Proof. destruct me; [apply exchange_page_initiator|apply exchange_page_responder]. Qed.

Lemma before_page_out n : (n < PAGES)%nat -> before_page n = PageOut n.
Proof. intros Hn. unfold before_page. by rewrite (proj2 (Nat.ltb_lt _ _) Hn). Qed.

Lemma exchange_pages_follows me k : forall n c a w,
  (n + k = PAGES)%nat ->
  follows me (fun _ p => p = Asking Initiator) (before_page n)
    (exchange_pages (W:=W) k (match me with Initiator => true | Responder => false end) c a w).
Proof.
  induction k as [|k IH]; intros n c a w Hn; cbn [exchange_pages]; [done|].
  rewrite before_page_out by lia. apply follows_bind.
  eapply follows_mono; [|apply exchange_page_follows]. intros [[w1 fin] [c1 a1]] p ->.
  destruct fin; [done|]. apply IH. lia.
Qed.

Lemma exchange_workspace_follows me since w :
  follows me (fun _ p => p = Asking Initiator) (before_page 0)
    (exchange_workspace (W:=W) since w (match me with Initiator => true | Responder => false end)).
Proof. by apply exchange_pages_follows. Qed.

Definition after_items (r : role) : phase := match r with Responder => Asking Responder | Initiator => Over end.

Lemma follows_items me l : follows me (fun _ p => p = Giving me) (Giving me) (trigger (W:=W) (Send (SyncMessage.Items l))).
Proof. apply follows_send; by destruct me. Qed.

Lemma serve_fetched_follows me chunk items : forall s,
  follows me (fun _ p => p = Giving me) (Giving me) (serve_fetched (W:=W) chunk items s).
Proof.
  induction items as [|i items IH]; intros s; cbn [serve_fetched]; [done|].
  apply follows_bind. eapply follows_mono with (Q := fun _ p => p = Giving me).
  { intros st p ->. apply IH. }
  unfold serve_one. destruct (_ || _); [done|]. destruct (_ >? _); [done|].
  destruct (item_validate _); [|done]. destruct (_ && _); [|done].
  apply follows_bind. eapply follows_mono; [|apply follows_items]. by intros _ p ->.
Qed.

Lemma serve_chunks_follows me l : forall s,
  follows me (fun _ p => p = Giving me) (Giving me) (serve_chunks (W:=W) l s).
Proof.
  induction l as [|c l IH]; intros s; cbn [serve_chunks]; [done|].
  apply follows_bind, follows_trigger; [done|]. intros items.
  apply follows_bind. eapply follows_mono; [|apply serve_fetched_follows]. intros st p ->. apply IH.
Qed.

Lemma serve_items_follows me adv requested stats :
  follows me (fun _ p => p = after_items me) (Giving me) (serve_items (W:=W) adv requested stats).
Proof.
  apply follows_bind. eapply follows_mono; [|apply serve_chunks_follows]. intros s p ->.
  apply follows_bind. eapply follows_mono with (Q := fun _ p => p = Giving me).
  - intros st p ->. apply follows_bind. eapply follows_mono; [|apply (follows_send me _ (after_items me)); by destruct me].
    by intros _ p ->.
  - destruct (bool_decide _); [done|]. apply follows_bind.
    eapply follows_mono; [|apply follows_items]. by intros _ p ->.
Qed.

Lemma receive_loop_follows me wanted n : forall a r low stats,
  follows me (fun _ p => p = after_items (other me)) (Giving (other me)) (receive_loop (W:=W) n wanted a r low stats).
Proof.
  induction n as [|n IH]; intros a r low stats; cbn [receive_loop]; [done|].
  apply follows_bind, follows_recv; [done|]. intros m p' Hm.
  apply follows_bind, follows_lift; [by destruct (message_validate m)|]. intros [] _.
  assert (Hcases : (exists l, m = SyncMessage.Items l /\ p' = Giving (other me)) \/
                   (m = SyncMessage.Done /\ p' = after_items (other me))).
  { destruct me, m; cbn in Hm; try done; injection Hm as <-; eauto. }
  destruct Hcases as [(l & -> & ->)|[-> ->]]; [|done].
  destruct (bool_decide _); [apply IH|]. apply follows_bind, follows_trigger; [done|].
  intros o. destruct (settle_outcomes _ _ _ _). apply IH.
Qed.

Lemma follows_hello me d (Q : PeerHello -> phase -> Prop) p :
  speaker p = Some (other me) ->
  (forall m p' h, advance_phase p m = Some p' -> parse_hello d m = Ok h -> Q h p') ->
  (forall m p', advance_phase p m = Some p' -> SyncMessage.kind m = "hello"%string) ->
  follows me Q p (recv_hello (W:=W) d).
Proof.
  intros Hs HQ Hk. apply follows_bind, follows_recv; [done|]. intros m p' Hm.
  apply follows_lift; [|by intros h; apply HQ]. unfold parse_hello.
  specialize (Hk m p' Hm). destruct (message_validate m) as [[]|]; cbn; [|done].
  destruct m; try done. cbn. by destruct (String.eqb _ _).
Qed.

Lemma follows_prepare_plan me w stats (Q : W * gmap string ItemSummary * SyncStats -> phase -> Prop) p :
  (forall x, Q x p) -> follows me Q p (prepare_plan w stats).
Proof.
  intros HQ. unfold prepare_plan. destruct (negb _); [|apply follows_bind, follows_trigger; [done|]; intros _].
  all: apply follows_bind, follows_trigger; [done|]; intros now.
  all: apply follows_bind, follows_lift; [auto with session|]; intros [[? ?] ?] _; apply HQ.
Qed.

Lemma follows_prepare_requested me w l (Q : W * gmap string ItemSummary * list string -> phase -> Prop) p :
  (forall x, Q x p) -> follows me Q p (prepare_requested w l).
Proof.
  intros HQ. apply follows_bind, follows_call; [auto with session|]. intros [? ?] _. apply HQ.
Qed.

Lemma follows_request me r (Q : list string -> phase -> Prop) :
  r = other me -> (forall l, Q l (Giving me)) -> follows me Q (Asking r) (receive_request (W:=W)).
Proof.
  intros -> HQ. apply follows_expect; [done|]. intros m p' Hm. destruct m; try done.
  injection Hm as <-. eexists. split; [done|]. rewrite other_other. apply HQ.
Qed.

Definition finished (o : SyncOutcome) (p : phase) : Prop := p = Over.

Lemma run_initiator_follows keys d addr c :
  follows Initiator finished Greet (run_initiator (W:=W) keys d addr c).
Proof.
  apply follows_bind. eapply follows_mono; [|by apply follows_send]. intros _ p ->.
  apply follows_bind, follows_hello; [done| |by intros []]. intros m p peer Hm _.
  destruct m; try done. injection Hm as <-.
  apply follows_bind, follows_trigger; [done|]. intros w.
  apply follows_bind. eapply follows_mono; [|apply (exchange_workspace_follows Initiator)]. intros w1 p ->.
  apply follows_bind, follows_prepare_plan. intros [[w2 wanted] stats].
  apply follows_bind. eapply follows_mono; [|by apply follows_send]. intros _ p ->.
  apply follows_bind. eapply follows_mono; [|apply (receive_loop_follows Initiator)]. intros [a st] p ->.
  apply follows_bind, follows_request; [done|]. intros requested.
  apply follows_bind, follows_prepare_requested. intros [[w3 adv] requested'].
  apply follows_bind. eapply follows_mono; [|apply (serve_items_follows Initiator)]. intros st2 p ->.
  apply follows_bind, follows_call; [auto with session|]. done.
Qed.

Lemma run_responder_follows keys d addr c :
  follows Responder finished Greet (run_responder (W:=W) keys d addr c).
Proof.
  apply follows_bind, follows_recv; [done|]. intros first p Hm. destruct first; try done. injection Hm as <-.
  apply follows_bind, follows_lift.
  { unfold parse_hello. destruct (message_validate _) as [[]|]; cbn; [|done]. by destruct (String.eqb _ _). }
  intros peer _. apply follows_bind. eapply follows_mono; [|by apply follows_send]. intros _ p ->.
  apply follows_bind, follows_trigger; [done|]. intros w.
  apply follows_bind. eapply follows_mono; [|apply (exchange_workspace_follows Responder)]. intros w1 p ->.
  apply follows_bind, follows_request; [done|]. intros requested.
  apply follows_bind, follows_prepare_requested. intros [[w3 adv] requested'].
  apply follows_bind. eapply follows_mono; [|apply (serve_items_follows Responder)]. intros st2 p ->.
  apply follows_bind, follows_prepare_plan. intros [[w2 wanted] stats].
  apply follows_bind. eapply follows_mono; [|by apply follows_send]. intros _ p ->.
  apply follows_bind. eapply follows_mono; [|apply (receive_loop_follows Responder)]. intros [a st] p ->.
  apply follows_bind, follows_call; [auto with session|]. done.
Qed.
End Conformance.

(** ** Two sessions and the wires between them *)

Section Duet.
Context {W1 W2 A1 A2 : Type}.

Record config := {
  left : prog W1 A1;
  right : prog W2 A2;
  to_right : list SyncMessage.t;
  to_left : list SyncMessage.t;
}.

(** One side moves.  Any operation may fail, which ends that side's session;
    everything else goes on as the other side likes. *)
Inductive side_step {W A} : prog W A -> list SyncMessage.t -> list SyncMessage.t ->
    prog W A -> list SyncMessage.t -> list SyncMessage.t -> Prop :=
| side_send m k out inn : side_step (Vis (Send m) k) out inn (k tt) (out ++ [m]) inn
| side_recv m k out inn : side_step (Vis Recv k) out (m :: inn) (k m) out inn
| side_local X (ev : event W X) k x out inn :
    local_event X ev -> side_step (Vis ev k) out inn (k x) out inn
| side_fail X (ev : event W X) k e out inn :
    expected_error e -> side_step (Vis ev k) out inn (Throw e) out inn.

Inductive step : config -> config -> Prop :=
| step_left p p' q out out' inn inn' :
    side_step p out inn p' out' inn' ->
    step {| left := p; right := q; to_right := out; to_left := inn |}
         {| left := p'; right := q; to_right := out'; to_left := inn' |}
| step_right p q q' out out' inn inn' :
    side_step q inn out q' inn' out' ->
    step {| left := p; right := q; to_right := out; to_left := inn |}
         {| left := p; right := q'; to_right := out'; to_left := inn' |}.

(** Each side waits for a message and none is on its way. *)
Definition waiting {W A} (q : prog W A) : Prop := exists k, q = Vis Recv k.
Definition deadlocked (c : config) : Prop :=
  waiting (left c) /\ waiting (right c) /\ to_right c = [] /\ to_left c = [].
Definition confused {W A} (q : prog W A) : Prop := exists a b, q = Throw (Unexpected a b).

(** [q] takes the receiver's phase to the sender's, all of it said by [who]. *)
Inductive said (who : role) : phase -> list SyncMessage.t -> phase -> Prop :=
| said_nil p : said who p [] p
| said_cons p m p' q p'' :
    speaker p = Some who -> advance_phase p m = Some p' -> said who p' q p'' -> said who p (m :: q) p''.

Lemma said_snoc who p q p' m p'' :
  said who p q p' -> speaker p' = Some who -> advance_phase p' m = Some p'' -> said who p (q ++ [m]) p''.
Proof. induction 1; intros; cbn; econstructor; eauto; constructor. Qed.

(** What is on the wires links the two phases. *)
Definition linked (a : role) (pa pb : phase) (qab qba : list SyncMessage.t) : Prop :=
  (qba = [] /\ said a pb qab pa) \/ (qab = [] /\ said (other a) pa qba pb).

Lemma linked_sym a pa pb qab qba : linked a pa pb qab qba -> linked (other a) pb pa qba qab.
Proof. destruct a; intros [?|?]; [right|left|right|left]; done. Qed.

Lemma linked_send a pa pa' pb qab qba m :
  linked a pa pb qab qba -> speaker pa = Some a -> advance_phase pa m = Some pa' ->
  linked a pa' pb (qab ++ [m]) qba.
Proof.
  intros [[-> Hs]|[-> Hs]] Hsp Ha.
  - left. split; [done|]. by eapply said_snoc.
  - inversion Hs as [p|p m' p' q p'' Hsp' Ha' Hs']; subst.
    + left. split; [done|]. cbn. econstructor; eauto. constructor.
    + rewrite Hsp in Hsp'. injection Hsp' as Heq. by destruct (other_ne a).
Qed.

Lemma linked_recv a pa pb qab m qba :
  linked a pa pb qab (m :: qba) -> exists pa', advance_phase pa m = Some pa' /\ linked a pa' pb qab qba.
Proof.
  intros [[? _]|[-> Hs]]; [done|]. inversion Hs; subst. eexists. split; [done|]. by right.
Qed.

Lemma linked_same a pa pb : linked a pa pb [] [] -> pa = pb.
Proof. intros [[_ Hs]|[_ Hs]]; by inversion Hs. Qed.

(** One move of a side that follows the protocol. *)
Lemma side_step_linked {W A} (Q : A -> phase -> Prop) me (p p' : prog W A) out inn out' inn' ph phb :
  side_step p out inn p' out' inn' -> follows me Q ph p -> linked me ph phb out inn ->
  exists ph', follows me Q ph' p' /\ linked me ph' phb out' inn'.
Proof.
  intros Hst Hf Hl. destruct Hst as [m k out inn|m k out inn|X ev k x out inn Hev|X ev k e out inn He].
  - destruct Hf as [Hs (ph' & Ha & Hk)]. exists ph'. split; [done|]. by eapply linked_send.
  - destruct Hf as [_ Hk]. apply linked_recv in Hl as (ph' & Ha & Hl). exists ph'. split; [by apply Hk|done].
  - exists ph. split; [|done]. by destruct ev; cbn in *.
  - exists ph. split; [done|done].
Qed.

Context (Q1 : A1 -> phase -> Prop) (Q2 : A2 -> phase -> Prop).

Definition in_step (c : config) : Prop :=
  exists p1 p2, follows Initiator Q1 p1 (left c) /\ follows Responder Q2 p2 (right c) /\
    linked Initiator p1 p2 (to_right c) (to_left c).

Lemma step_in_step c c' : step c c' -> in_step c -> in_step c'.
Proof.
  destruct 1 as [p p' q out out' inn inn' Hs|p q q' out out' inn inn' Hs];
    intros (p1 & p2 & H1 & H2 & Hl); cbn in *.
  - destruct (side_step_linked Q1 _ _ _ _ _ _ _ _ _ Hs H1 Hl) as (p1' & ? & ?). exists p1', p2. done.
  - apply (linked_sym Initiator) in Hl.
    destruct (side_step_linked Q2 _ _ _ _ _ _ _ _ _ Hs H2 Hl) as (p2' & ? & Hl').
    exists p1, p2'. split_and!; [done|done|]. by apply (linked_sym Responder) in Hl'.
Qed.

Lemma steps_in_step c c' : rtc step c c' -> in_step c -> in_step c'.
Proof. induction 1; [done|]. intros. by eauto using step_in_step. Qed.

Lemma in_step_sound c : in_step c -> ~ deadlocked c /\ ~ confused (left c) /\ ~ confused (right c).
Proof.
  intros (p1 & p2 & H1 & H2 & Hl). split_and!.
  - intros ((k1 & E1) & (k2 & E2) & Er & El). rewrite E1 in H1. rewrite E2 in H2. rewrite Er, El in Hl.
    apply linked_same in Hl as <-. destruct H1 as [H1 _], H2 as [H2 _]. by rewrite H1 in H2.
  - intros (a & b & E). by rewrite E in H1.
  - intros (a & b & E). by rewrite E in H2.
Qed.
End Duet.
Arguments config : clear implicits.

(** ** Running both halves on concrete stores *)

Section Schedule.
Context {W1 W2 A1 A2 S1 S2 : Type}.
Context (h1 : forall X, event W1 X -> S1 -> result SyncError X * S1)
        (h2 : forall X, event W2 X -> S2 -> result SyncError X * S2).

(** One move of a side, unless it has ended or waits for a message. *)
Definition turn {W A S} (h : forall X, event W X -> S -> result SyncError X * S) (p : prog W A) (s : S)
    (out inn : list SyncMessage.t) : option (prog W A * S * list SyncMessage.t * list SyncMessage.t) :=
  match p with
  | Ret _ | Throw _ => None
  | @Vis _ _ X ev k =>
    match ev in event _ Y return (Y -> prog W A) -> _ with
    | Send m => fun k => Some (k tt, s, out ++ [m], inn)
    | Recv => fun k => match inn with m :: rest => Some (k m, s, out, rest) | [] => None end
    | ev => fun k => match h _ ev s with (Ok x, s) => Some (k x, s, out, inn) | (Err _, _) => None end
    end k
  end.

Lemma turn_step {W A S} (h : forall X, event W X -> S -> result SyncError X * S) (p p' : prog W A) s s'
    out inn out' inn' :
  turn h p s out inn = Some (p', s', out', inn') -> side_step p out inn p' out' inn'.
Proof.
  destruct p as [a|e|X ev k]; cbn; [done|done|].
  destruct ev; cbn; repeat case_match; intros [= <- <- <- <-]; subst; constructor; done.
Qed.

(** The left side moves while it can, then the right. *)
Fixpoint both (fuel : nat) (c : config W1 W2 A1 A2) (s1 : S1) (s2 : S2) : config W1 W2 A1 A2 :=
  match fuel with
  | O => c
  | S fuel =>
    match turn h1 (left c) s1 (to_right c) (to_left c) with
    | Some (p, s1, out, inn) =>
      both fuel {| left := p; right := right c; to_right := out; to_left := inn |} s1 s2
    | None =>
      match turn h2 (right c) s2 (to_left c) (to_right c) with
      | Some (q, s2, out, inn) =>
        both fuel {| left := left c; right := q; to_right := inn; to_left := out |} s1 s2
      | None => c
      end
    end
  end.

Lemma both_steps fuel : forall c s1 s2, rtc step c (both fuel c s1 s2).
Proof.
  induction fuel as [|fuel IH]; intros [p q out inn] s1 s2; cbn [both left right to_right to_left]; [done|].
  destruct (turn h1 p s1 out inn) as [[[[p' s1'] out'] inn']|] eqn:E1.
  - eapply rtc_l; [|apply IH]. constructor. by eapply turn_step.
  - destruct (turn h2 q s2 inn out) as [[[[q' s2'] out'] inn']|] eqn:E2; [|done].
    eapply rtc_l; [|apply IH]. constructor. by eapply turn_step.
Qed.
End Schedule.

Definition returned {W A} (p : prog W A) : option A := match p with Ret a => Some a | _ => None end.
Lemma returned_ret {W A} (p : prog W A) a : returned p = Some a -> p = Ret a.
Proof. destruct p; cbn; congruence. Qed.

(** ** Deadlock freedom *)

Section Sessions.
Context {W1 W2 : Type} `{WorkspaceErrors W1} `{WorkspaceErrors W2} `{GroupCrypto} `{PayloadCodecs} `{Digest}.
Implicit Types (keys : gmap string ItemSummary -> list string).

(** Two devices that have just been connected. *)
Definition connected keys1 keys2 (d1 d2 : Device) addr1 addr2 (c1 c2 : SyncCursor)
    : config W1 W2 SyncOutcome SyncOutcome :=
  {| left := run_initiator keys1 d1 addr1 c1; right := run_responder keys2 d2 addr2 c2;
     to_right := []; to_left := [] |}.

Lemma connected_in_step keys1 keys2 d1 d2 addr1 addr2 c1 c2 :
  in_step finished finished (connected keys1 keys2 d1 d2 addr1 addr2 c1 c2).
Proof.
  exists Greet, Greet. split_and!; [apply run_initiator_follows|apply run_responder_follows|].
  left. split; [done|constructor].
Qed.

Lemma in_step_finished (c : config W1 W2 SyncOutcome SyncOutcome) o1 o2 :
  in_step finished finished c -> left c = Ret o1 -> right c = Ret o2 -> to_right c = [] /\ to_left c = [].
Proof.
  intros (p1 & p2 & Hf1 & Hf2 & Hl) El Er. rewrite El in Hf1. rewrite Er in Hf2. cbn in Hf1, Hf2.
  unfold finished in Hf1, Hf2. subst p1 p2.
  destruct Hl as [[Hn Hs]|[Hn Hs]]; inversion Hs; by subst.
Qed.

(** C15: every send of one half pairs with a receive of the other.  Whatever
    the two stores answer and whichever operations fail, at no point do both
    sides wait for a message with none on its way, neither side ever meets a
    message it did not expect, and when both have finished nothing sent is left
    unread. *)
Theorem sessions_never_deadlock keys1 keys2 d1 d2 addr1 addr2 c1 c2 c :
  rtc step (connected keys1 keys2 d1 d2 addr1 addr2 c1 c2) c ->
  ~ deadlocked c /\ ~ confused (left c) /\ ~ confused (right c) /\
  (forall o1 o2, left c = Ret o1 -> right c = Ret o2 -> to_right c = [] /\ to_left c = []).
Proof.
  intros Hs. pose proof (steps_in_step _ _ _ _ Hs (connected_in_step _ _ _ _ _ _ _ _)) as Hi.
  destruct (in_step_sound _ _ _ Hi) as (? & ? & ?). split_and!; [done..|].
  intros o1 o2. by apply in_step_finished.
Qed.
End Sessions.

(** ** Concrete inputs *)

(** A fresh device meets one that holds a single item. *)
Module DuetDemo.
#[local] Existing Instance WorkspaceDemo.plain_order.
#[local] Existing Instance TransferDemo.digest.
#[local] Existing Instance Demo.toy_crypto.
#[local] Existing Instance MessageDemo.codecs.

Definition device (name : string) : Device :=
  {| own_id := name; own_name := name; own_profile := unknown_profile |}.
Definition start_cursor : SyncCursor := {| Workspace.since_ms := 0; relay_floor_ms := None |}.
Definition keys (m : gmap string ItemSummary) : list string := (map_to_list m).*1.
Definition store (l : list SyncItem.t) : @Scripted MemorySummaryWorkspace :=
  {| inbox := []; fresh := empty_view; local := SyncItem.summary <$> l; items := l; clock := 5000 |}.
Definition start : config MemorySummaryWorkspace MemorySummaryWorkspace SyncOutcome SyncOutcome :=
  connected keys keys (device "dev-b") (device "dev-a") None None start_cursor start_cursor.
#[global] Arguments start : simpl never.
Definition finish := both scripted scripted 100 start (store []) (store [TransferDemo.item]).

Lemma finish_reached : rtc step start finish.
Proof. unfold finish. apply both_steps. Qed.
Lemma finish_left : stats <$> returned (left finish) = Some (add_received 1 no_stats).
Proof. vm_compute. reflexivity. Qed.
Lemma finish_right : stats <$> returned (right finish) = Some (add_sent 1 no_stats).
Proof. vm_compute. reflexivity. Qed.
End DuetDemo.

Lemma sessions_never_deadlock_witness :
  exists c o1 o2, rtc step DuetDemo.start c /\ left c = Ret o1 /\ right c = Ret o2 /\
    stats o1 = add_received 1 no_stats /\ stats o2 = add_sent 1 no_stats /\ to_right c = [] /\ to_left c = [].
Proof.
  destruct (proj1 (fmap_Some _ _ _) DuetDemo.finish_left) as (o1 & E1 & Hl).
  destruct (proj1 (fmap_Some _ _ _) DuetDemo.finish_right) as (o2 & E2 & Hr).
  apply returned_ret in E1, E2. symmetry in Hl, Hr.
  pose proof DuetDemo.finish_reached as Hs.
  exists DuetDemo.finish, o1, o2. split; [exact Hs|]. split; [exact E1|]. split; [exact E2|].
  split; [exact Hl|]. split; [exact Hr|].
  destruct (sessions_never_deadlock _ _ _ _ _ _ _ _ _ Hs) as (_ & _ & _ & Hdone). exact (Hdone o1 o2 E1 E2).
Defined.
