(* ===== verification/Cursor.v ===== *)
(** The per-peer sync cursors ([copypaste-p2p/src/peers/cursor.rs]): where each
    session starts, and the floors that make later writes reach every peer. *)

From S2P Require Import Prelude Float64 Bytes Wire Merge Workspace.

(** ** The store *)

Record CursorRecord := { rec_since_ms : Z; rec_relay_floor_ms : option Z }.
#[export] Instance CursorRecord_eq_dec : EqDecision CursorRecord.
Proof. solve_decision. Defined.
#[export] Instance CursorRecord_countable : Countable CursorRecord.
Proof.
  apply (inj_countable' (fun r => (rec_since_ms r, rec_relay_floor_ms r))
    (fun p => {| rec_since_ms := p.1; rec_relay_floor_ms := p.2 |})). by intros [].
Defined.
Definition default_record : CursorRecord := {| rec_since_ms := 0; rec_relay_floor_ms := None |}.

(** [From<Record> for SyncCursor]. *)
Definition to_cursor (r : CursorRecord) : SyncCursor :=
  {| Workspace.since_ms := rec_since_ms r; relay_floor_ms := rec_relay_floor_ms r |}.

(** serde_json's spelling of a cursor file. *)
Class CursorJson := {
  write_cursors : gmap string CursorRecord -> option bytes;
  parse_cursors : bytes -> option (gmap string CursorRecord);
}.
(** A map of plain records always serializes, and parses back. *)
Class CursorJsonLaws `{CursorJson} : Prop := {
  cursors_write m : is_Some (write_cursors m);
  cursors_reparse m b : write_cursors m = Some b -> parse_cursors b = Some m;
}.

Record CursorStore := { cursors : gmap string CursorRecord; cursor_file : Read }.

Section Cursors.
Context `{CursorJson}.

Definition open_cursors (r : Read) : CursorStore :=
  {| cursors := match r with
                | Contents b => match parse_cursors b with Some peers => peers | None => ∅ end
                | Missing | Unreadable => ∅
                end;
     cursor_file := r |}.

Definition get (s : CursorStore) (pairing_id : string) : SyncCursor :=
  to_cursor (match cursors s !! pairing_id with Some r => r | None => default_record end).

(** [CursorStore::mutate]: [writes] is whether the file system takes the file. *)
Definition mutate (writes : bool) (f : gmap string CursorRecord -> bool * gmap string CursorRecord)
    (s : CursorStore) : CursorStore :=
  let '(changed, m) := f (cursors s) in
  if negb changed then s else
  match (if writes then write_cursors m else None) with
  | Some b => {| cursors := m; cursor_file := Contents b |}
  | None => s
  end.

Definition record_session (writes : bool) (pairing_id : string) (since_ms : Z) : CursorStore -> CursorStore :=
  mutate writes (fun m =>
    let r := {| rec_since_ms := Z.max since_ms 0; rec_relay_floor_ms := None |} in
    if bool_decide (m !! pairing_id = Some r) then (false, m) else (true, <[pairing_id := r]> m)).

(** The body of the loop of [note_written]. *)
Definition lower_floor (from : option string) (floor_ms : Z) (pairing_id : string) (r : CursorRecord)
    : CursorRecord :=
  if bool_decide (from = Some pairing_id) || (rec_since_ms r <=? floor_ms) then r
  else {| rec_since_ms := rec_since_ms r;
          rec_relay_floor_ms := Some (match rec_relay_floor_ms r with
                                      | Some f => Z.min f floor_ms
                                      | None => floor_ms
                                      end) |}.

Definition note_written (writes : bool) (from : option string) (floor_ms : Z) : CursorStore -> CursorStore :=
  mutate writes (fun m =>
    let m' := map_imap (fun id r => Some (lower_floor from floor_ms id r)) m in
    (negb (bool_decide (m' = m)), m')).
Definition note_applied (writes : bool) (from_pairing_id : string) (floor_ms : Z) : CursorStore -> CursorStore :=
  note_written writes (Some from_pairing_id) floor_ms.
Definition note_local (writes : bool) (floor_ms : Z) : CursorStore -> CursorStore :=
  note_written writes None floor_ms.

Definition forget (writes : bool) (pairing_id : string) : CursorStore -> CursorStore :=
  mutate writes (fun m => (contains_key m pairing_id, delete pairing_id m)).

Definition retain (writes : bool) (keep : list string) : CursorStore -> CursorStore :=
  mutate writes (fun m =>
    let m' := map_retain (fun id _ => existsb (String.eqb id) keep) m in
    (negb (map_len m' =? map_len m), m')).

(** Any operation, with what the file system makes of it. *)
Inductive CursorOp :=
| RecordSession (pairing_id : string) (since_ms : Z)
| NoteApplied (from_pairing_id : string) (floor_ms : Z)
| NoteLocal (floor_ms : Z)
| Forget (pairing_id : string)
| Retain (keep : list string).

Definition perform (op : CursorOp * bool) (s : CursorStore) : CursorStore :=
  match op with
  | (RecordSession id since, w) => record_session w id since s
  | (NoteApplied from f, w) => note_applied w from f s
  | (NoteLocal f, w) => note_local w f s
  | (Forget id, w) => forget w id s
  | (Retain keep, w) => retain w keep s
  end.
Definition performs (ops : list (CursorOp * bool)) (s : CursorStore) : CursorStore :=
  foldl (fun s op => perform op s) s ops.

(** ** Memory and disk *)

(** Memory says what reading the file back would say. *)
Definition durable (s : CursorStore) : Prop := cursors (open_cursors (cursor_file s)) = cursors s.

Lemma open_durable r : durable (open_cursors r).
Proof. done. Qed.

Lemma mutate_durable `{!CursorJsonLaws} writes f s : durable s -> durable (mutate writes f s).
Proof.
  intros Hs. unfold mutate. destruct (f (cursors s)) as [changed m]. destruct changed; [|done]. cbn.
  destruct (if writes then write_cursors m else None) as [b|] eqn:Ew; [|done].
  unfold durable; cbn. destruct writes; [|done]. by rewrite (cursors_reparse _ _ Ew).
Qed.

Lemma performs_durable `{!CursorJsonLaws} ops s : durable s -> durable (performs ops s).
Proof.
  revert s; induction ops as [|[op w] ops IH]; intros s Hs; [done|]. apply IH.
  destruct op; by apply mutate_durable.
Qed.

(** Memory never claims progress the disk does not have.  After any
    operations, each with its file write succeeding or failing, starting the
    process again reads the very cursors memory holds. *)
Theorem cursors_survive_restart `{!CursorJsonLaws} r ops id :
  get (open_cursors (cursor_file (performs ops (open_cursors r)))) id =
  get (performs ops (open_cursors r)) id.
Proof.
  unfold get. by rewrite (performs_durable ops (open_cursors r) (open_durable r)).
Qed.

(** ** Relay floors *)

(** A cursor that makes every session advertise from [floor] or earlier,
    whatever the peer asks for. *)
Definition reaches (floor : Z) (c : SyncCursor) : Prop :=
  forall peer_since, advertise_from c peer_since <= Z.max 0 floor.

Lemma reaches_floor floor c f : relay_floor_ms c = Some f -> f <= floor -> reaches floor c.
Proof. intros Hf Hle peer. unfold advertise_from. rewrite Hf. lia. Qed.

(** A record whose floor is at or below [floor]. *)
Definition floored (floor : Z) (r : CursorRecord) : Prop :=
  exists f, rec_relay_floor_ms r = Some f /\ f <= floor.

Lemma lower_floor_floored from f floor id r : floored floor r -> floored floor (lower_floor from f id r).
Proof.
  intros (g & Hg & ?). unfold lower_floor. destruct (_ || _); [by exists g|].
  exists (Z.min g f). cbn. rewrite Hg. split; [done|lia].
Qed.

Lemma lower_floor_now from f id r : from <> Some id -> f < rec_since_ms r -> floored f (lower_floor from f id r).
Proof.
  intros Hne Hlt. unfold lower_floor. rewrite bool_decide_eq_false_2 by done.
  rewrite (proj2 (Z.leb_gt _ _)) by lia. cbn. eexists. split; [done|]. destruct (rec_relay_floor_ms r); lia.
Qed.

(** The operations that start a peer's bookkeeping over. *)
Definition resets (id : string) (op : CursorOp) : Prop :=
  match op with
  | RecordSession id' _ | Forget id' => id' = id
  | Retain keep => id ∉ keep
  | _ => False
  end.

(** An update that leaves [id] with a record satisfying [P], if it had one. *)
Lemma mutate_keeps (P : CursorRecord -> Prop) writes f s id r :
  (forall m r, m !! id = Some r -> P r -> exists r', (f m).2 !! id = Some r' /\ P r') ->
  cursors s !! id = Some r -> P r ->
  exists r', cursors (mutate writes f s) !! id = Some r' /\ P r'.
Proof.
  intros Hf Hr HP. unfold mutate. specialize (Hf _ _ Hr HP). destruct (f (cursors s)) as [changed m].
  destruct changed; [|by exists r]. cbn in *. destruct (if writes then _ else _); [done|by exists r].
Qed.

Lemma perform_keeps_floor op writes floor s id r :
  ~ resets id op -> cursors s !! id = Some r -> floored floor r ->
  exists r', cursors (perform (op, writes) s) !! id = Some r' /\ floored floor r'.
Proof.
  intros Hn Hr Hf. assert (Hnote : forall from f,
    exists r', cursors (note_written writes from f s) !! id = Some r' /\ floored floor r').
  { intros from f. eapply mutate_keeps; [|exact Hr|exact Hf]. intros m r' Hm Hr'. cbn.
    eexists. split; [by rewrite map_lookup_imap, Hm|]. by apply lower_floor_floored. }
  destruct op as [id' since|from f|f|id'|keep]; cbn [perform resets] in *; [|apply Hnote|apply Hnote| |];
    unfold record_session, forget, retain;
    eapply mutate_keeps; try exact Hr; try exact Hf; intros m r' Hm Hr'; cbn.
  - case_bool_decide; cbn; [by exists r'|]. rewrite lookup_insert_ne by done. by exists r'.
  - rewrite lookup_delete_ne by done. by exists r'.
  - exists r'. split; [|done]. apply map_retain_some. split; [done|].
    apply existsb_exists. exists id. rewrite String.eqb_refl. split; [|done].
    apply list_elem_of_In. by destruct (decide (id ∈ keep)).
Qed.

Lemma performs_keeps_floor ops floor : forall s id r,
  Forall (fun op => ~ resets id op.1) ops -> cursors s !! id = Some r -> floored floor r ->
  exists r', cursors (performs ops s) !! id = Some r' /\ floored floor r'.
Proof.
  induction ops as [|[op w] ops IH]; intros s id r Hops Hr Hf; [by exists r|].
  apply Forall_cons in Hops as [Hop Hops].
  destruct (perform_keeps_floor op w floor s id r Hop Hr Hf) as (r' & Hr' & Hf'). by eapply IH.
Qed.

Lemma note_written_floors `{!CursorJsonLaws} from floor s s' id r :
  s' = note_written true from floor s ->
  from <> Some id -> cursors s !! id = Some r -> floor < rec_since_ms r ->
  exists r', cursors s' !! id = Some r' /\ floored floor r'.
Proof.
  intros -> Hne Hr Hlt. unfold note_written, mutate.
  assert (Hin : map_imap (fun id r => Some (lower_floor from floor id r)) (cursors s) !! id =
                Some (lower_floor from floor id r)) by (by rewrite map_lookup_imap, Hr).
  case_bool_decide as Heq; cbn.
  - rewrite Heq in Hin. exists (lower_floor from floor id r). split; [done|by apply lower_floor_now].
  - destruct (cursors_write (map_imap (fun id r => Some (lower_floor from floor id r)) (cursors s))) as [b ->]. cbn.
    eexists. split; [exact Hin|by apply lower_floor_now].
Qed.

(** A version written here reaches every other peer.  Once its stamp is
    noted, every later session with any other peer whose cursor had passed the
    stamp advertises from the stamp or before, whatever the peer asks for and
    whichever writes fail in between, until a completed session with that peer
    records a new cursor or the pairing is dropped. *)
Theorem relay_floor_reaches_other_peers `{!CursorJsonLaws} from floor s id r ops :
  from <> Some id -> cursors s !! id = Some r -> floor < rec_since_ms r ->
  Forall (fun op => ~ resets id op.1) ops ->
  reaches floor (get (performs ops (note_written true from floor s)) id).
Proof.
  intros Hne Hr Hlt Hops.
  destruct (note_written_floors from floor s _ id r eq_refl Hne Hr Hlt) as (r1 & Hr1 & Hf1).
  destruct (performs_keeps_floor ops floor _ id r1 Hops Hr1 Hf1) as (r2 & Hr2 & f & Hf & Hle).
  unfold get. rewrite Hr2. by apply (reaches_floor floor _ f).
Qed.
End Cursors.

(** ** Concrete inputs *)
Module CursorDemo.
#[local] Instance json : CursorJson := {|
  write_cursors m := Some (encode_bytes m);
  parse_cursors := decode_bytes |}.
#[local] Instance laws : CursorJsonLaws.
Proof. split; [by eexists|]. intros m b [= <-]. apply decode_encode_bytes. Qed.

Definition two : CursorStore :=
  performs [(RecordSession "p" 100, true); (RecordSession "q" 50, true)] (open_cursors Missing).
End CursorDemo.
#[local] Existing Instance CursorDemo.json.
#[local] Existing Instance CursorDemo.laws.

(** The last write is lost with the process, and with it what memory would
    have claimed. *)
Lemma cursors_survive_restart_witness :
  let s := performs [(RecordSession "p" 100, true); (NoteLocal 60, true); (RecordSession "q" 9, false)]
             (open_cursors Missing) in
  get (open_cursors (cursor_file s)) "p" = {| Workspace.since_ms := 100; relay_floor_ms := Some 60 |} /\
  get (open_cursors (cursor_file s)) "q" = get s "q".
Proof.
  split; [vm_compute; reflexivity|].
  apply (cursors_survive_restart Missing
    [(RecordSession "p" 100, true); (NoteLocal 60, true); (RecordSession "q" 9, false)] "q").
Defined.

Lemma relay_floor_reaches_other_peers_witness :
  reaches 60 (get (performs [(NoteApplied "q" 80, true); (RecordSession "q" 90, true)]
    (note_written true (Some "q"%string) 60 CursorDemo.two)) "p").
Proof.
  apply (relay_floor_reaches_other_peers (Some "q"%string) 60 CursorDemo.two "p"
    {| rec_since_ms := 100; rec_relay_floor_ms := None |}).
  - discriminate.
  - vm_compute. reflexivity.
  - vm_compute. reflexivity.
  - repeat constructor; cbn; try discriminate; tauto.
Defined.
