(* ===== verification/PeerFile.v ===== *)
(** The paired-device file ([copypaste-p2p/src/peers/file.rs],
    [peers/crypto.rs]): the state the store holds, its encrypted envelope, and
    what a restart reads back. *)

From S2P Require Import Prelude Bytes Wire Net Peer Group.

(** ** The state *)

Record State := {
  st_pair_admissions : gmap string PairAdmissions;
  st_group : option GroupState;
  st_group_admissions : gset string;
  st_peers : gmap string Peer.t;
  st_revoked : gmap string Z;
  st_generations : gmap string Z;
}.
Definition default_state : State :=
  {| st_pair_admissions := ∅; st_group := None; st_group_admissions := ∅; st_peers := ∅;
     st_revoked := ∅; st_generations := ∅ |}.

Definition set_pair_admissions (st : State) (m : gmap string PairAdmissions) : State :=
  {| st_pair_admissions := m; st_group := st_group st; st_group_admissions := st_group_admissions st;
     st_peers := st_peers st; st_revoked := st_revoked st; st_generations := st_generations st |}.
Definition set_group (st : State) (g : option GroupState) : State :=
  {| st_pair_admissions := st_pair_admissions st; st_group := g;
     st_group_admissions := st_group_admissions st; st_peers := st_peers st;
     st_revoked := st_revoked st; st_generations := st_generations st |}.
Definition set_group_admissions (st : State) (s : gset string) : State :=
  {| st_pair_admissions := st_pair_admissions st; st_group := st_group st; st_group_admissions := s;
     st_peers := st_peers st; st_revoked := st_revoked st; st_generations := st_generations st |}.
Definition set_peers (st : State) (m : gmap string Peer.t) : State :=
  {| st_pair_admissions := st_pair_admissions st; st_group := st_group st;
     st_group_admissions := st_group_admissions st; st_peers := m; st_revoked := st_revoked st;
     st_generations := st_generations st |}.
Definition set_revoked (st : State) (m : gmap string Z) : State :=
  {| st_pair_admissions := st_pair_admissions st; st_group := st_group st;
     st_group_admissions := st_group_admissions st; st_peers := st_peers st; st_revoked := m;
     st_generations := st_generations st |}.
Definition set_generations (st : State) (m : gmap string Z) : State :=
  {| st_pair_admissions := st_pair_admissions st; st_group := st_group st;
     st_group_admissions := st_group_admissions st; st_peers := st_peers st;
     st_revoked := st_revoked st; st_generations := m |}.

(** The on-disk envelope: the records sorted by pairing id. *)
Record StoreFile := {
  f_pair_admissions : gmap string PairAdmissions;
  f_group_admissions : gset string;
  f_group : option GroupState;
  f_peers : list Peer.t;
  f_revoked : gmap string Z;
}.

(** Iterating a [HashMap] of peers: some order, every value once. *)
Class PeerOrder := {
  peer_values : gmap string Peer.t -> list Peer.t;
  peer_values_perm m : peer_values m ≡ₚ (map_to_list m).*2;
}.

Definition by_pairing_id (a b : Peer.t) : Prop := str_le (Peer.pairing_id a) (Peer.pairing_id b).
#[export] Instance by_pairing_id_dec a b : Decision (by_pairing_id a b).
Proof. unfold by_pairing_id. apply _. Defined.

(** serde_json's spelling of the file, and XChaCha20-Poly1305. *)
Class StoreJson := {
  to_vec_pretty : StoreFile -> option bytes;
  from_slice : bytes -> option StoreFile;
}.
Class PeerCipher := {
  encrypt : key -> bytes -> bytes -> option bytes;
  decrypt : key -> bytes -> bytes -> option bytes;
}.
(** What is written reads back, and a ciphertext is its plaintext and a tag. *)
Class StoreLaws `{StoreJson, PeerCipher} : Prop := {
  store_reparse f b : to_vec_pretty f = Some b -> from_slice b = Some f;
  decrypt_encrypt k n m c : encrypt k n m = Some c -> decrypt k n c = Some m;
  encrypt_length k n m c : encrypt k n m = Some c -> length c = (length m + 16)%nat;
}.

Definition MAGIC : bytes := as_bytes "CPP1".
#[global] Arguments MAGIC : simpl never.
Definition NONCE_LEN : nat := 24.
Definition HEADER_LEN : nat := length MAGIC + NONCE_LEN.
Definition TAG_LEN : nat := 16.

(** One try at replacing the file: the nonce drawn, and whether the file system
    takes the new file. *)
Record Attempt := { nonce : bytes; nonce_length : length nonce = NONCE_LEN; taken : bool }.

Section File.
Context `{GroupCrypto} `{StoreJson} `{PeerCipher} `{PeerOrder}.

Definition seal (n plaintext : bytes) (k : key) : result PeerStoreError bytes :=
  ciphertext ← ok_or EncryptFailed (encrypt k n plaintext);
  Ok (MAGIC ++ n ++ ciphertext).

Definition open_envelope (envelope : bytes) (k : key) : result PeerStoreError bytes :=
  if (length envelope <? HEADER_LEN + TAG_LEN)%nat || negb (starts_with MAGIC envelope)
  then Err Corrupt
  else ok_or Corrupt (decrypt k (take NONCE_LEN (drop (length MAGIC) envelope)) (drop HEADER_LEN envelope)).

Fixpoint parse_peers (l : list Peer.t) (m : gmap string Peer.t) : result PeerStoreError (gmap string Peer.t) :=
  match l with
  | [] => Ok m
  | p :: rest =>
    _ ← map_err (fun _ => Corrupt) (peer_validate p);
    parse_peers rest (<[Peer.pairing_id p := p]> m)
  end.

Definition parse_file (f : StoreFile) : result PeerStoreError State :=
  _ ← match f_group f with
      | Some g => map_err (fun _ => Corrupt) (validate g)
      | None => Ok tt
      end;
  _ ← refuse_if (Z.of_nat (size (f_group_admissions f)) >? MAX_PAIRINGS) Corrupt;
  peers ← parse_peers (f_peers f) ∅;
  _ ← refuse_if ((map_len (f_pair_admissions f) >? MAX_PAIRINGS)
                 || existsb (fun e => negb (contains_key peers e.1)) (btree_iter (f_pair_admissions f))) Corrupt;
  _ ← refuse_if (map_len (f_revoked f) >? MAX_REVOCATIONS) Corrupt;
  _ ← each (fun e => map_err (fun _ => Corrupt) (validate_pairing_id e.1)) (btree_iter (f_revoked f));
  Ok {| st_pair_admissions := f_pair_admissions f; st_group_admissions := f_group_admissions f;
        st_group := f_group f; st_peers := peers; st_revoked := f_revoked f; st_generations := ∅ |}.

Definition parse (b : bytes) : result PeerStoreError State :=
  f ← ok_or Corrupt (from_slice b); parse_file f.

Definition store_file (st : State) : StoreFile :=
  {| f_pair_admissions := st_pair_admissions st; f_group_admissions := st_group_admissions st;
     f_group := st_group st; f_peers := merge_sort by_pairing_id (peer_values (st_peers st));
     f_revoked := st_revoked st |}.

(** [write_now]: the contents of the file once it is replaced. *)
Definition write_now (a : Attempt) (st : State) (k : key) : result PeerStoreError bytes :=
  json ← ok_or Corrupt (to_vec_pretty (store_file st));
  envelope ← seal (nonce a) json k;
  if taken a then Ok envelope else Err Io.

(** The state of [PeerStore::open]. *)
Definition open_state (r : Read) (k : key) : result PeerStoreError State :=
  match r with
  | Contents b => text ← open_envelope b k; parse text
  | Missing => Ok default_state
  | Unreadable => Err Io
  end.

(** [migrate_with], and the file it leaves. *)
Definition migrate_with (a : Attempt) (r : Read) (k : key) : result PeerStoreError unit * Read :=
  match r with
  | Missing => (Ok tt, r)
  | Unreadable => (Err Io, r)
  | Contents b =>
    if starts_with MAGIC b then
      match text ← open_envelope b k; parse text with
      | Ok _ => (Ok tt, r)
      | Err e => (Err e, r)
      end
    else
      match st ← parse b; write_now a st k with
      | Ok b' => (Ok tt, Contents b')
      | Err e => (Err e, r)
      end
  end.

Definition only_last_seen_moved (st : State) (incoming : Peer.t) : bool :=
  match st_peers st !! Peer.pairing_id incoming with
  | None => false
  | Some stored =>
    String.eqb (Peer.name stored) (Peer.name incoming)
    && bool_decide (Peer.device_id stored = Peer.device_id incoming)
    && bool_decide (Peer.last_addr stored = Peer.last_addr incoming)
    && psk_matches stored (Peer.psk incoming)
    && bool_decide (Peer.profile stored = Peer.profile incoming)
    && (Peer.profile_observed_at_ms stored =? Peer.profile_observed_at_ms incoming)
  end.

(** ** Well-formed states *)

(** Every record is filed under its own id and valid, a revoked id has none,
    and there are at most as many as one device may hold. *)
Record peers_ok (st : State) : Prop := {
  ok_keyed : forall id p, st_peers st !! id = Some p -> Peer.pairing_id p = id /\ peer_validate p = Ok tt;
  ok_cut : forall id, is_Some (st_revoked st !! id) -> st_peers st !! id = None;
  ok_revoked : forall id, is_Some (st_revoked st !! id) -> validate_pairing_id id = Ok tt;
  ok_bounded : map_len (st_peers st) <= MAX_PAIRINGS;
}.
Definition certified (st : State) : Prop :=
  forall id, is_Some (st_pair_admissions st !! id) -> is_Some (st_peers st !! id).
(** ... and every certificate belongs to a record. *)
Definition state_ok (st : State) : Prop := peers_ok st /\ certified st.

Lemma default_ok : state_ok default_state.
Proof.
  split; [split|unfold certified]; cbn.
  - intros id p Hp. by rewrite lookup_empty in Hp.
  - intros id _. apply lookup_empty.
  - intros id [v Hv]. by rewrite lookup_empty in Hv.
  - done.
  - intros id [v Hv]. by rewrite lookup_empty in Hv.
Qed.

(** What [parse] accepts, and so the least a state must be for its file to be
    opened again. *)
Record loadable (st : State) : Prop := {
  load_keyed : forall id p, st_peers st !! id = Some p -> Peer.pairing_id p = id /\ peer_validate p = Ok tt;
  load_admissions : forall id, is_Some (st_pair_admissions st !! id) -> is_Some (st_peers st !! id);
  load_admissions_len : map_len (st_pair_admissions st) <= MAX_PAIRINGS;
  load_group : forall g, st_group st = Some g -> validate g = Ok tt;
  load_group_admissions : Z.of_nat (size (st_group_admissions st)) <= MAX_PAIRINGS;
  load_revoked : forall id, is_Some (st_revoked st !! id) -> validate_pairing_id id = Ok tt;
  load_revoked_len : map_len (st_revoked st) <= MAX_REVOCATIONS;
}.

(** A well-formed state is loadable up to the caps on its two lists of ids. *)
Lemma state_ok_loadable st :
  state_ok st -> (forall g, st_group st = Some g -> validate g = Ok tt) ->
  Z.of_nat (size (st_group_admissions st)) <= MAX_PAIRINGS -> map_len (st_revoked st) <= MAX_REVOCATIONS ->
  loadable st.
Proof.
  intros [Hok Hc] Hg Hga Hr. split; try done; try apply Hok.
  etrans; [|apply (ok_bounded _ Hok)]. unfold map_len. rewrite <- !size_dom. apply inj_le, subseteq_size.
  intros id. rewrite !elem_of_dom. apply Hc.
Qed.

(** *** The envelope *)

Lemma seal_open n m k e :
  `{StoreLaws} -> length n = NONCE_LEN -> seal n m k = Ok e -> open_envelope e k = Ok m.
Proof.
  intros Hlaws Hn. unfold seal. rewrite bind_ok. intros (c & Hc & <-%ok_inj). rewrite ok_or_ok in Hc.
  unfold open_envelope. rewrite (starts_with_app MAGIC (n ++ c)). rewrite !length_app, Hn, (encrypt_length _ _ _ _ Hc).
  rewrite (proj2 (Nat.ltb_ge _ _)) by (unfold HEADER_LEN, NONCE_LEN, TAG_LEN; cbn; lia). cbn [negb orb].
  rewrite drop_app_length, take_app_length' by done.
  rewrite app_assoc, drop_app_length' by (rewrite length_app, Hn; done).
  by rewrite (decrypt_encrypt _ _ _ _ Hc).
Qed.

Lemma write_now_reads a st k b :
  `{StoreLaws} -> write_now a st k = Ok b -> open_state (Contents b) k = parse_file (store_file st).
Proof.
  intros Hlaws. unfold write_now. rewrite bind_ok. intros (json & Hj & Hb). rewrite ok_or_ok in Hj.
  rewrite bind_ok in Hb. destruct Hb as (e & He & Hb). destruct (taken a); [|done]. injection Hb as <-.
  cbn [open_state]. rewrite (seal_open _ _ _ _ _ (nonce_length a) He). cbn.
  unfold parse. by rewrite (store_reparse _ _ Hj).
Qed.

(** *** The records *)

Definition index (l : list Peer.t) (m : gmap string Peer.t) : gmap string Peer.t :=
  foldl (fun m p => <[Peer.pairing_id p := p]> m) m l.

Lemma parse_peers_ok l : forall m m',
  parse_peers l m = Ok m' <-> Forall (fun p => peer_validate p = Ok tt) l /\ m' = index l m.
Proof.
  induction l as [|p l IH]; intros m m'; cbn; [rewrite Forall_nil; naive_solver|].
  rewrite bind_unit_ok, map_err_ok, IH, Forall_cons. naive_solver.
Qed.

Lemma index_lookup l : forall m k,
  NoDup (Peer.pairing_id <$> l) ->
  (forall p, p ∈ l -> index l m !! Peer.pairing_id p = Some p) /\
  (k ∉ Peer.pairing_id <$> l -> index l m !! k = m !! k).
Proof.
  induction l as [|p l IH]; intros m k Hnd.
  { split; [intros p Hp; by apply elem_of_nil in Hp|done]. }
  rewrite fmap_cons in *. apply NoDup_cons in Hnd as [Hp Hnd]. change (index (p :: l) m) with (index l (<[Peer.pairing_id p := p]> m)).
  destruct (IH (<[Peer.pairing_id p := p]> m) k Hnd) as [Hin Hout].
  destruct (IH (<[Peer.pairing_id p := p]> m) (Peer.pairing_id p) Hnd) as [_ Hp']. split.
  - intros q [->|Hq]%elem_of_cons; [|by apply Hin]. by rewrite Hp', lookup_insert_eq.
  - rewrite not_elem_of_cons. intros [? ?]. rewrite Hout by done. by apply lookup_insert_ne.
Qed.

Lemma index_sorted (m : gmap string Peer.t) :
  (forall id p, m !! id = Some p -> Peer.pairing_id p = id) ->
  index (merge_sort by_pairing_id (peer_values m)) ∅ = m.
Proof.
  intros Hkey. set (l := merge_sort by_pairing_id (peer_values m)).
  assert (Hperm : l ≡ₚ (map_to_list m).*2) by (subst l; by rewrite merge_sort_Permutation, peer_values_perm).
  assert (Hids : Peer.pairing_id <$> (map_to_list m).*2 = (map_to_list m).*1).
  { rewrite <- list_fmap_compose. apply list_fmap_ext. intros i [k p] Hi. cbn.
    apply Hkey. by apply elem_of_map_to_list, list_elem_of_lookup_2 with i. }
  assert (Hnd : NoDup (Peer.pairing_id <$> l)).
  { rewrite Hperm, Hids. apply NoDup_fst_map_to_list. }
  apply map_eq. intros k. destruct (m !! k) as [p|] eqn:Ek.
  - rewrite <- (Hkey _ _ Ek). apply (index_lookup l ∅ k Hnd). rewrite Hperm. apply list_elem_of_fmap.
    exists (k, p). split; [done|]. by apply elem_of_map_to_list.
  - destruct (index_lookup l ∅ k Hnd) as [_ ->]; [apply lookup_empty|].
    rewrite Hperm, Hids, list_elem_of_fmap. intros ([k' p] & -> & Hin%elem_of_map_to_list). cbn in Ek. congruence.
Qed.

(** *** Reading back *)

Lemma loadable_reload st : loadable st -> parse_file (store_file st) = Ok (set_generations st ∅).
Proof.
  intros [Hkey Hadm Hlen Hgroup Hga Hrev Hrlen]. unfold parse_file, store_file; cbn [f_group f_group_admissions f_peers f_pair_admissions f_revoked].
  assert (Hg : match st_group st with Some g => map_err (fun _ => Corrupt) (validate g) | None => Ok tt end = Ok tt).
  { destruct (st_group st) as [g|]; [by rewrite (Hgroup g)|done]. }
  rewrite Hg. cbn. rewrite refuse_if_false by lia. cbn.
  rewrite (proj2 (parse_peers_ok _ _ (st_peers st))).
  2: { split; [|symmetry; apply index_sorted; intros id p Hp; by apply (Hkey id p)].
       rewrite Forall_forall. intros p Hp. rewrite merge_sort_Permutation, peer_values_perm in Hp.
       apply list_elem_of_fmap in Hp as ([id q] & -> & Hq%elem_of_map_to_list). by apply (Hkey id q). }
  cbn. rewrite refuse_if_false.
  2: { apply orb_false_iff. split; [lia|]. apply not_true_iff_false. intros (e & He & Hn)%existsb_exists.
       apply list_elem_of_In in He. destruct e as [id v]. apply elem_of_btree_iter in He.
       apply negb_true_iff, contains_key_false in Hn. cbn in Hn.
       destruct (Hadm id ltac:(eauto)) as [p Hp]. congruence. }
  cbn. rewrite refuse_if_false by lia. cbn.
  assert (Hall : each (fun e : string * Z => map_err (fun _ => Corrupt) (validate_pairing_id e.1)) (btree_iter (st_revoked st)) = Ok tt).
  { apply each_ok, Forall_forall. intros [id at_] He%elem_of_btree_iter. apply map_err_ok. apply Hrev. by eexists. }
  by rewrite Hall.
Qed.

Lemma index_keyed l : forall m id p,
  (forall id p, m !! id = Some p -> Peer.pairing_id p = id /\ peer_validate p = Ok tt) ->
  Forall (fun p => peer_validate p = Ok tt) l ->
  index l m !! id = Some p -> Peer.pairing_id p = id /\ peer_validate p = Ok tt.
Proof.
  induction l as [|q l IH]; intros m id p Hm Hl Hp; [by apply Hm|].
  apply Forall_cons in Hl as [Hq Hl]. revert Hp. apply (IH (<[Peer.pairing_id q := q]> m)); [|done].
  intros k r. rewrite lookup_insert_Some. intros [[<- <-]|[_ Hr]]; [done|by apply Hm].
Qed.

Lemma parse_file_loadable f st : parse_file f = Ok st -> loadable st.
Proof.
  unfold parse_file. rewrite bind_unit_ok. intros [Hg Hp].
  rewrite bind_unit_ok, refuse_if_ok in Hp. destruct Hp as [Hga Hp].
  rewrite bind_ok in Hp. destruct Hp as (peers & [Hv ->]%parse_peers_ok & Hp).
  rewrite bind_unit_ok, refuse_if_ok, orb_false_iff in Hp. destruct Hp as [[Hlen Hadm] Hp].
  rewrite bind_unit_ok, refuse_if_ok in Hp. destruct Hp as [Hrl Hp].
  rewrite bind_unit_ok, each_ok, Forall_forall in Hp. destruct Hp as [Hr Hst]. apply ok_inj in Hst as <-.
  split; cbn.
  - intros id p. apply index_keyed; [|done]. intros k q Hk. by rewrite lookup_empty in Hk.
  - intros id [v Hv']. apply contains_key_true, not_false_iff_true. intros Hn.
    apply not_true_iff_false in Hadm. apply Hadm, existsb_exists. exists (id, v). cbn. rewrite Hn.
    split; [|done]. by apply list_elem_of_In, elem_of_btree_iter.
  - lia.
  - intros g Hgs. rewrite Hgs in Hg. by apply map_err_ok in Hg.
  - lia.
  - intros id [v Hv']. specialize (Hr (id, v)). cbn in Hr. apply elem_of_btree_iter, Hr, map_err_ok in Hv'. done.
  - lia.
Qed.

(** Every refusal is the same. *)
Lemma parse_file_err f e : parse_file f = Err e -> e = Corrupt.
Proof.
  assert (Hv : forall A (r : result PeerStoreError A), map_err (fun _ => Corrupt) r = Err e -> e = Corrupt).
  { intros A [|]; cbn; congruence. }
  assert (Hp : forall l m, parse_peers l m = Err e -> e = Corrupt).
  { induction l as [|p l IH]; intros m; cbn [parse_peers]; [done|].
    destruct (map_err _ (peer_validate p)) eqn:E; cbn; [apply IH|]. intros [= ->]. by eapply Hv. }
  assert (He : forall l, each (fun x : string * Z => map_err (fun _ => Corrupt) (validate_pairing_id x.1)) l = Err e -> e = Corrupt).
  { induction l as [|x l IH]; cbn [each]; [done|].
    destruct (map_err _ (validate_pairing_id x.1)) eqn:E; cbn; [apply IH|]. intros [= ->]. by eapply Hv. }
  unfold parse_file. intros Hf. destruct (match f_group f with Some g => _ | None => _ end) as [[]|x] eqn:Eg; cbn in Hf.
  2: { destruct (f_group f); [|done]. injection Hf as ->. by eapply Hv. }
  unfold refuse_if in Hf. destruct (Z.of_nat (size (f_group_admissions f)) >? MAX_PAIRINGS); cbn in Hf; [congruence|].
  destruct (parse_peers _ _) eqn:Epp; cbn in Hf; [|injection Hf as ->; by eapply Hp].
  destruct (_ || _); cbn in Hf; [congruence|].
  destruct (map_len (f_revoked f) >? MAX_REVOCATIONS); cbn in Hf; [congruence|].
  destruct (each _ _) eqn:Ee; cbn in Hf; [done|]. injection Hf as ->. by eapply He.
Qed.

(** A saved store opens again.  Whatever was written for a loadable state,
    the next start reads back exactly that state, its write counters aside. *)
Theorem saved_store_reopens a st k b :
  `{StoreLaws} -> loadable st -> write_now a st k = Ok b ->
  open_state (Contents b) k = Ok (set_generations st ∅).
Proof. intros Hlaws Hl Hw. by rewrite (write_now_reads _ _ _ _ _ Hw), loadable_reload. Qed.

(** Migrating an old file loses nothing.  Either the file is left as it
    was, or it was plaintext that parsed, and the encrypted file in its place
    opens to the same state. *)
Theorem migration_keeps_state a r k q r' :
  `{StoreLaws} -> migrate_with a r k = (q, r') ->
  r' = r \/ (exists b st, r = Contents b /\ starts_with MAGIC b = false /\
               parse b = Ok st /\ q = Ok tt /\ open_state r' k = Ok st).
Proof.
  intros Hlaws. destruct r as [| |b]; cbn [migrate_with]; [naive_solver|naive_solver|].
  destruct (starts_with MAGIC b) eqn:Em.
  { intros Hm. left. destruct (text ← open_envelope b k; parse text); by simplify_eq. }
  destruct (parse b) as [st|e] eqn:Ep; cbn; [|intros Hm; left; by simplify_eq].
  destruct (write_now a st k) as [b'|e] eqn:Ew; intros Hm; [|left; by simplify_eq].
  simplify_eq. right. exists b, st. split_and!; try done.
  unfold parse in Ep. rewrite bind_ok in Ep. destruct Ep as (f & _ & Hf).
  pose proof (parse_file_loadable f st Hf) as Hl.
  rewrite (write_now_reads _ _ _ _ _ Ew), loadable_reload by done.
  unfold parse_file in Hf. rewrite bind_unit_ok in Hf. destruct Hf as [_ Hf].
  rewrite bind_unit_ok in Hf. destruct Hf as [_ Hf]. rewrite bind_ok in Hf. destruct Hf as (? & _ & Hf).
  do 3 (rewrite bind_unit_ok in Hf; destruct Hf as [_ Hf]). by apply ok_inj in Hf as <-.
Qed.
End File.

(** ** Concrete inputs *)

Module FileDemo.
#[local] Existing Instance Demo.toy_crypto.
#[local] Instance store_file_eq : EqDecision StoreFile.
Proof. solve_decision. Defined.
#[local] Instance order : PeerOrder := {| peer_values m := (map_to_list m).*2; peer_values_perm m := Permutation_refl _ |}.

Definition peer (id : string) (secret : Z) : Peer.t :=
  {| Peer.pairing_id := id; Peer.device_id := None; Peer.name := ""; Peer.psk := replicate 32 (byte_of secret);
     Peer.last_addr := None; Peer.last_seen_ms := 0; Peer.profile := None; Peer.profile_observed_at_ms := 0 |}.
(** A spelling of files of such records, after a byte no envelope starts with. *)
Definition spell (f : StoreFile) : bytes :=
  byte_of 123 :: encode_bytes (f_revoked f, (fun p => (Peer.pairing_id p, byte_val (hd (byte_of 0) (Peer.psk p)))) <$> f_peers f).
Definition unspell (b : bytes) : option StoreFile :=
  '(rv, ps) ← decode_bytes (tl b) : option (gmap string Z * list (string * Z));
  Some {| f_pair_admissions := ∅; f_group_admissions := ∅; f_group := None;
          f_peers := (fun e => peer e.1 e.2) <$> ps; f_revoked := rv |}.
#[local] Instance json : StoreJson := {|
  to_vec_pretty f := if bool_decide (unspell (spell f) = Some f) then Some (spell f) else None;
  from_slice := unspell |}.
#[local] Instance cipher : PeerCipher := {|
  encrypt k n m := Some (m ++ replicate 16 (byte_of 0));
  decrypt k n c := Some (take (length c - 16) c) |}.
#[local] Instance laws : StoreLaws.
Proof.
  split; cbn.
  - intros f b. case_bool_decide as Hf; [|done]. by intros [= <-].
  - intros k n m c [= <-]. rewrite length_app. cbn [length]. rewrite Nat.add_sub. by rewrite take_app_length.
  - intros k n m c [= <-]. by rewrite length_app.
Qed.
Definition secret : key := replicate 32 (byte_of 1).
Definition attempt (ok : bool) : Attempt :=
  {| nonce := replicate NONCE_LEN (byte_of 9); nonce_length := length_replicate NONCE_LEN (byte_of 9); taken := ok |}.

Definition two : State := set_peers (set_revoked default_state {["gone"%string := 5]})
  {["p"%string := peer "p" 7; "q"%string := peer "q" 8]}.
Lemma two_ok : state_ok two.
Proof.
  split; [split|unfold certified]; cbn.
  - intros id p. rewrite lookup_insert_Some, lookup_singleton_Some. intros [[<- <-]|[_ [<- <-]]]; done.
  - intros id [v Hv]. apply lookup_singleton_Some in Hv as [<- _]. done.
  - intros id [v Hv]. apply lookup_singleton_Some in Hv as [<- _]. done.
  - done.
  - intros id [v Hv]. by rewrite lookup_empty in Hv.
Qed.
Lemma two_loadable : loadable two.
Proof. apply state_ok_loadable; [apply two_ok|by intros g|by vm_compute|by vm_compute]. Qed.
Definition plain : bytes := spell (store_file two).
End FileDemo.
#[local] Existing Instance FileDemo.json.
#[local] Existing Instance FileDemo.cipher.
#[local] Existing Instance FileDemo.order.
#[local] Existing Instance Demo.toy_crypto.

Lemma saved_store_reopens_witness :
  exists b, write_now (FileDemo.attempt true) FileDemo.two FileDemo.secret = Ok b /\
    open_state (Contents b) FileDemo.secret = Ok FileDemo.two.
Proof.
  assert (Hw : exists b, write_now (FileDemo.attempt true) FileDemo.two FileDemo.secret = Ok b).
  { eexists. vm_compute. reflexivity. }
  destruct Hw as [b Hw]. exists b. split; [exact Hw|].
  exact (saved_store_reopens _ _ _ _ FileDemo.laws FileDemo.two_loadable Hw).
Qed.

Lemma migration_keeps_state_witness :
  exists r', migrate_with (FileDemo.attempt true) (Contents FileDemo.plain) FileDemo.secret = (Ok tt, r') /\
    open_state r' FileDemo.secret = Ok FileDemo.two.
Proof.
  assert (Hm : exists r', migrate_with (FileDemo.attempt true) (Contents FileDemo.plain) FileDemo.secret = (Ok tt, r')).
  { eexists. vm_compute. reflexivity. }
  destruct Hm as [r' Hm]. exists r'. split; [exact Hm|].
  destruct (migration_keeps_state _ _ _ _ _ FileDemo.laws Hm) as [He|(b & st & Hb & _ & Hp & _ & Ho)].
  - rewrite He in Hm. vm_compute in Hm. discriminate.
  - rewrite Ho. injection Hb as <-.
    assert (Hpl : parse FileDemo.plain = Ok FileDemo.two) by (vm_compute; reflexivity). congruence.
Defined.
