(* ===== verification/PeerStore.v ===== *)
(** The paired-device store ([copypaste-p2p/src/peers/store.rs],
    [peers/tentative.rs], [peers/revocation.rs], [peers/group.rs]): every
    operation that changes who may connect, with the file write it makes. *)

From S2P Require Import Prelude Bytes Wire Net Peer Group PeerFile.

(** ** The store *)

(** The state behind the lock, the flag of changes not yet on disk, the file,
    and the group revision.  A lock poisoned by a panic is not represented. *)
Record PeerStore := {
  state : State;
  unflushed : bool;
  file : Read;
  group_revision : Z;
}.
Definition with_state (s : PeerStore) (st : State) : PeerStore :=
  {| state := st; unflushed := unflushed s; file := file s; group_revision := group_revision s |}.
Definition mark_unflushed (s : PeerStore) : PeerStore :=
  {| state := state s; unflushed := true; file := file s; group_revision := group_revision s |}.
(** [group_changed]; the cache of scoped keys it drops is not represented. *)
Definition group_changed (s : PeerStore) : PeerStore :=
  {| state := state s; unflushed := unflushed s; file := file s;
     group_revision := u64_wrapping_succ (group_revision s) |}.

(** [PeerSnapshot]. *)
Record PeerSnapshot := {
  sn_previous_admission : option PairAdmissions;
  sn_pairing_id : string;
  sn_previous : option Peer.t;
  sn_generation : Z;
}.
Inductive Rollback := Undone | UndoneOverContention.

Definition generation (st : State) (id : string) : Z :=
  match st_generations st !! id with Some g => g | None => 0 end.
Definition bump (st : State) (id : string) : State :=
  if String.prefix GROUP_PAIRING_PREFIX id then st
  else set_generations st (<[id := u64_wrapping_succ (generation st id)]> (st_generations st)).

Definition admissions_of (st : State) (id : string) : PairAdmissions :=
  match st_pair_admissions st !! id with Some a => a | None => no_admissions end.

Section Store.
Context `{GroupCrypto} `{StoreJson} `{PeerCipher} `{PeerOrder}.
Context (secret : key).

Definition open (r : Read) : result PeerStoreError PeerStore :=
  st ← open_state r secret;
  Ok {| state := st; unflushed := false; file := r; group_revision := 0 |}.

(** [persist]: the file holds [st] when it succeeds. *)
Definition persist (a : Attempt) (st : State) (s : PeerStore) : result PeerStoreError unit * PeerStore :=
  match write_now a st secret with
  | Ok b => (Ok tt, {| state := state s; unflushed := false; file := Contents b;
                       group_revision := group_revision s |})
  | Err e => (Err e, s)
  end.
Definition persist_unflushed (a : Attempt) (st : State) (s : PeerStore)
    : result PeerStoreError unit * PeerStore :=
  match persist a st s with
  | (Ok u, s) => (Ok u, s)
  | (Err e, s) => (Err e, mark_unflushed s)
  end.
Definition flush (a : Attempt) (s : PeerStore) : result PeerStoreError unit * PeerStore :=
  if negb (unflushed s) then (Ok tt, s) else persist a (state s) s.

(** ** Queries *)

Definition list_peers (s : PeerStore) : list Peer.t := merge_sort by_pairing_id (peer_values (st_peers (state s))).
Definition get_peer (s : PeerStore) (id : string) : option Peer.t := st_peers (state s) !! id.
Definition contains_device (s : PeerStore) (id except : string) : bool :=
  existsb (fun p => negb (String.eqb (Peer.pairing_id p) except)
                    && bool_decide (Peer.device_id p = Some id)) (peer_values (st_peers (state s))).

(** A pairing the handshake does not try. *)
Definition outdated (st : State) (p : Peer.t) : bool :=
  match st_group st with
  | None => false
  | Some g => negb (active g)
              || match local_admission g with
                 | Ok local => pa_local (admissions_of st (Peer.pairing_id p)) <? local
                 | Err _ => false
                 end
  end.
(** [psks]: the credentials a handshake is tried against. *)
Definition psks (s : PeerStore) : list (string * key) :=
  (fun p => (Peer.pairing_id p, Peer.psk p)) <$>
    merge_sort by_pairing_id
      (List.filter (fun p => negb (outdated (state s) p)) (peer_values (st_peers (state s)))).

Definition is_current_credential (s : PeerStore) (id : string) : bool :=
  contains_key (st_peers (state s)) id
  && match st_group (state s) with
     | None => true
     | Some g => active g
                 && match local_admission g with
                    | Ok current => pa_local (admissions_of (state s) id) >=? current
                    | Err _ => false
                    end
     end.

(** ** Saving a pairing *)

(** The refusals of [upsert_locked_certified], in its order. *)
Definition check_certificate (st : State) (p : Peer.t) (admission : option PairAdmissions)
    : result PeerStoreError unit :=
  match admission, st_group st with
  | Some certified, Some g =>
    _ ← check_local_admission g (pa_local certified);
    refuse_if ((pa_remote certified =? u64_max)
               || match Peer.device_id p with
                  | Some id => match desired_admission g id with
                               | Ok required => pa_remote certified <? required
                               | Err _ => false
                               end
                  | None => false
                  end) Revoked
  | _, _ => Ok tt
  end.
Definition other_pairing_of (st : State) (p : Peer.t) : bool :=
  match Peer.device_id p with
  | Some id => existsb (fun q => negb (String.eqb (Peer.pairing_id q) (Peer.pairing_id p))
                                 && bool_decide (Peer.device_id q = Some id)) (peer_values (st_peers st))
  | None => false
  end.
Definition check_upsert (st : State) (p : Peer.t) (admission : option PairAdmissions)
    : result PeerStoreError unit :=
  let id := Peer.pairing_id p in
  _ ← peer_validate p;
  _ ← check_certificate st p admission;
  _ ← refuse_if (contains_key (st_revoked st) id) Revoked;
  _ ← refuse_if (other_pairing_of st p) AlreadyPaired;
  refuse_if (negb (contains_key (st_peers st) id) && (map_len (st_peers st) >=? MAX_PAIRINGS)) TooManyPairings.

Definition set_admission (id : string) (a : option PairAdmissions) (st : State) : State :=
  set_pair_admissions st (map_put id a (st_pair_admissions st)).

(** The certificate a saved pairing keeps: a new one, or the old one while the
    key is the same. *)
Definition next_admission (st : State) (p : Peer.t) (admission : option PairAdmissions)
    : option PairAdmissions :=
  match admission with
  | Some a => Some a
  | None => match st_peers st !! Peer.pairing_id p with
            | Some old => if psk_matches old (Peer.psk p)
                          then st_pair_admissions st !! Peer.pairing_id p else None
            | None => None
            end
  end.

(** The state with the pairing saved. *)
Definition with_peer (st : State) (p : Peer.t) (admission : option PairAdmissions) : State :=
  let id := Peer.pairing_id p in
  let st := set_admission id (next_admission st p admission) st in
  set_peers st (<[id := p]> (st_peers st)).

Definition upsert_locked_certified (a : Attempt) (p : Peer.t) (admission : option PairAdmissions)
    (s : PeerStore) : result PeerStoreError unit * PeerStore :=
  let st := state s in
  let id := Peer.pairing_id p in
  match check_upsert st p admission with
  | Err e => (Err e, s)
  | Ok _ =>
    let previous_admission := st_pair_admissions st !! id in
    let previous := st_peers st !! id in
    let st' := with_peer st p admission in
    if only_last_seen_moved st p && bool_decide (previous_admission = next_admission st p admission) then
      (Ok tt, mark_unflushed (with_state s (bump st' id)))
    else
      match persist a st' s with
      | (Ok _, s) => (Ok tt, with_state s (bump st' id))
      | (Err e, s) =>
        let st3 := set_admission id previous_admission st' in
        (Err e, with_state s (set_peers st3 (map_put id previous (st_peers st3))))
      end
  end.

Definition upsert (a : Attempt) (p : Peer.t) (s : PeerStore) : result PeerStoreError unit * PeerStore :=
  upsert_locked_certified a p None s.

Definition touch (a : Attempt) (p : Peer.t) (s : PeerStore) : result PeerStoreError bool * PeerStore :=
  if negb (contains_key (st_peers (state s)) (Peer.pairing_id p)) then (Ok false, s) else
  let '(r, s) := upsert_locked_certified a p None s in (_ ← r; Ok true, s).

(** ** Two-phase saves *)

Definition snapshot_slot (s : PeerStore) (id : string) : PeerSnapshot :=
  {| sn_previous_admission := st_pair_admissions (state s) !! id; sn_pairing_id := id;
     sn_previous := st_peers (state s) !! id; sn_generation := generation (state s) id |}.

(** [upsert_from_admission], and the snapshot it advances. *)
Definition upsert_from_admission (a : Attempt) (sn : PeerSnapshot) (p : Peer.t)
    (admission : option PairAdmissions) (s : PeerStore)
    : result PeerStoreError unit * PeerSnapshot * PeerStore :=
  if negb (generation (state s) (sn_pairing_id sn) =? sn_generation sn) then (Err Contended, sn, s) else
  match upsert_locked_certified a p admission s with
  | (Err e, s) => (Err e, sn, s)
  | (Ok _, s) =>
    (Ok tt, {| sn_previous_admission := sn_previous_admission sn; sn_pairing_id := sn_pairing_id sn;
               sn_previous := sn_previous sn; sn_generation := generation (state s) (sn_pairing_id sn) |}, s)
  end.

(** What [restore] leaves in the slot. *)
Definition restored (sn : PeerSnapshot) (st : State) : option Peer.t :=
  let id := sn_pairing_id sn in
  let contended := negb (generation st id =? sn_generation sn) in
  match sn_previous sn, contains_key (st_revoked st) id with
  | None, _ | _, true => None
  | Some previous, false =>
    if contended then
      (fun current => {|
         Peer.pairing_id := id;
         Peer.device_id := match Peer.device_id previous with
                           | Some d => Some d
                           | None => Peer.device_id current
                           end;
         Peer.name := Peer.name current; Peer.psk := Peer.psk previous;
         Peer.last_addr := Peer.last_addr current; Peer.last_seen_ms := Peer.last_seen_ms current;
         Peer.profile := Peer.profile current;
         Peer.profile_observed_at_ms := Peer.profile_observed_at_ms current |}) <$> st_peers st !! id
    else Some previous
  end.

(** The state with the slot put back. *)
Definition with_slot_restored (sn : PeerSnapshot) (st : State) : State :=
  let id := sn_pairing_id sn in
  let st1 := set_peers st (map_put id (restored sn st) (st_peers st)) in
  if negb (contains_key (st_revoked st) id) && contains_key (st_peers st1) id
  then set_admission id (sn_previous_admission sn) st1
  else set_admission id None st1.

Definition restore (a : Attempt) (sn : PeerSnapshot) (s : PeerStore)
    : result PeerStoreError Rollback * PeerStore :=
  let st := state s in
  let id := sn_pairing_id sn in
  let contended := negb (generation st id =? sn_generation sn) in
  let st' := bump (with_slot_restored sn st) id in
  let '(r, s) := persist_unflushed a st' (with_state s st') in
  (_ ← r; Ok (if contended then UndoneOverContention else Undone), s).

(** ** Removing and revoking *)

(** [group.remove] for the device a pairing names, if there is a group. *)
Definition remove_device (st : State) (device : option string) : result PeerStoreError State :=
  match device, st_group st with
  | Some id, Some g => '(_, g) ← Group.remove g id; Ok (set_group st (Some g))
  | _, _ => Ok st
  end.

Definition forget_pairing (id : string) (st : State) : State :=
  let st := set_peers st (delete id (st_peers st)) in
  let st := set_group_admissions st (st_group_admissions st ∖ {[id]}) in
  set_admission id None st.

Definition remove (a : Attempt) (id : string) (s : PeerStore) : result PeerStoreError bool * PeerStore :=
  let previous := state s in
  match remove_device previous (p ← st_peers previous !! id; Peer.device_id p) with
  | Err e => (Err e, s)
  | Ok st =>
    match st_peers st !! id with
    | None => (Ok false, with_state s st)
    | Some _ =>
      match persist a (forget_pairing id st) s with
      | (Ok _, s) => (Ok true, group_changed (with_state s (bump (forget_pairing id st) id)))
      | (Err e, s) => (Err e, with_state s previous)
      end
    end
  end.

Definition cut_off (id : string) (now_ms : Z) (st : State) : State :=
  let st := forget_pairing id st in
  set_revoked st (<[id := now_ms]> (st_revoked st)).

(** The rollback of a failed [revoke], slot by slot. *)
Definition undo_cut_off (id : string) (before : State) (removed : option Peer.t) (st : State) : State :=
  let st := set_pair_admissions st (match st_pair_admissions before !! id with
                                    | Some v => <[id := v]> (st_pair_admissions st)
                                    | None => st_pair_admissions st
                                    end) in
  let st := set_group st (st_group before) in
  let st := set_group_admissions st (if bool_decide (id ∈ st_group_admissions before)
                                     then {[id]} ∪ st_group_admissions st
                                     else st_group_admissions st) in
  let st := set_peers st (match removed with
                          | Some p => <[id := p]> (st_peers st)
                          | None => st_peers st
                          end) in
  set_revoked st (map_put id (st_revoked before !! id) (st_revoked st)).

Definition revoke (a : Attempt) (id : string) (now_ms : Z) (s : PeerStore)
    : result PeerStoreError bool * PeerStore :=
  let st := state s in
  match (_ ← validate_pairing_id id;
         _ ← refuse_if (negb (contains_key (st_revoked st) id) && (map_len (st_revoked st) >=? MAX_REVOCATIONS))
               TooManyRevocations;
         remove_device st (p ← st_peers st !! id; Peer.device_id p)) with
  | Err e => (Err e, s)
  | Ok st1 =>
    let removed := st_peers st1 !! id in
    let st4 := cut_off id now_ms st1 in
    match persist a st4 s with
    | (Ok _, s) => (Ok (bool_decide (is_Some removed)), with_state (group_changed s) (bump st4 id))
    | (Err e, s) =>
      (Err e, with_state s (undo_cut_off id st removed st4))
    end
  end.

(** The loop of [revoke_all] over the devices the pairings name. *)
Fixpoint remove_devices (ids : list string) (st : State) : result PeerStoreError State :=
  match ids with
  | [] => Ok st
  | id :: rest => st ← remove_device st (Some id); remove_devices rest st
  end.
Definition pairing_ids (m : gmap string Peer.t) : list string := (map_to_list m).*1.

Definition no_pairings (st : State) : State :=
  set_pair_admissions (set_group_admissions (set_peers st ∅) ∅) ∅.
Definition cut_off_all (now_ms : Z) (st : State) : State :=
  set_revoked (no_pairings st)
    (foldl (fun m id => <[id := now_ms]> m) (st_revoked st) (pairing_ids (st_peers st))).

Definition revoke_all (a : Attempt) (now_ms : Z) (s : PeerStore) : result PeerStoreError Z * PeerStore :=
  let previous := state s in
  if bool_decide (st_peers previous = ∅) then (Ok 0, s) else
  match remove_devices (omap Peer.device_id (peer_values (st_peers previous))) previous with
  | Err e => (Err e, s)
  | Ok st =>
    let ids := pairing_ids (st_peers st) in
    match persist a (cut_off_all now_ms st) s with
    | (Ok _, s) => (Ok (len ids), with_state (group_changed s) (foldl bump (cut_off_all now_ms st) ids))
    | (Err e, s) => (Err e, with_state s previous)
    end
  end.

Definition revoked (s : PeerStore) : list (string * Z) := btree_iter (st_revoked (state s)).

(** ** The device group *)

(** A pairing [project] keeps: its device was never removed, or it holds a newer
    certificate of this ceremony; a pairing of no known device needs a
    certificate at least as new as this device's admission. *)
Definition projected (st : State) (g : GroupState) (p : Peer.t) : bool :=
  match Peer.device_id p with
  | None => pa_local (admissions_of st (Peer.pairing_id p))
            >=? match local_admission g with Ok l => l | Err _ => u64_max end
  | Some id =>
    negb (removed_device g id)
    || (bool_decide (Peer.pairing_id p ∈ st_group_admissions st)
        && match st_pair_admissions st !! Peer.pairing_id p with
           | Some a => match desired_admission g id with Ok required => pa_remote a >=? required | Err _ => false end
           | None => false
           end)
  end.

(** The stored pairing of the device a derived credential is for. *)
Definition pairing_of_device (st : State) (p : Peer.t) : option string :=
  Peer.pairing_id <$> List.find (fun old => bool_decide (Peer.device_id old = Peer.device_id p))
                        (peer_values (st_peers st)).

Definition rename_peer (stored p : Peer.t) : Peer.t :=
  {| Peer.pairing_id := Peer.pairing_id stored; Peer.device_id := Peer.device_id stored;
     Peer.name := Peer.name p; Peer.psk := Peer.psk stored;
     Peer.last_addr := match Peer.last_addr p with Some a => Some a | None => Peer.last_addr stored end;
     Peer.last_seen_ms := Peer.last_seen_ms stored; Peer.profile := Peer.profile stored;
     Peer.profile_observed_at_ms := Peer.profile_observed_at_ms stored |}.

Definition insert_derived (p : Peer.t) (admission : PairAdmissions) (st : State) : result PeerStoreError State :=
  _ ← refuse_if (contains_key (st_revoked st) (Peer.pairing_id p)) Revoked;
  _ ← refuse_if (map_len (st_peers st) >=? MAX_PAIRINGS) TooManyPairings;
  let st := set_admission (Peer.pairing_id p) (Some admission) st in
  Ok (set_peers st (<[Peer.pairing_id p := p]> (st_peers st))).

(** The body of the loop of [project] over the derived credentials. *)
Definition project_peer (g : GroupState) (previous : option GroupState) (p : Peer.t) (st : State)
    : result PeerStoreError State :=
  _ ← peer_validate p;
  device ← ok_or Corrupt (Peer.device_id p);
  admission ← pair_admissions g device;
  match pairing_of_device st p with
  | Some id =>
    if (negb (String.prefix GROUP_PAIRING_PREFIX id) && bool_decide (admissions_of st id = admission))
       || String.eqb id (Peer.pairing_id p)
    then
      if member_changed g previous device then
        stored ← ok_or Corrupt (st_peers st !! id);
        Ok (set_peers st (<[id := rename_peer stored p]> (st_peers st)))
      else Ok st
    else insert_derived p admission (forget_pairing id st)
  | None => insert_derived p admission st
  end.
Fixpoint project_peers (g : GroupState) (previous : option GroupState) (l : list Peer.t) (st : State)
    : result PeerStoreError State :=
  match l with
  | [] => Ok st
  | p :: rest => st ← project_peer g previous p st; project_peers g previous rest st
  end.

Definition project (st : State) (previous : option GroupState) : result PeerStoreError State :=
  match st_group st with
  | None => Ok st
  | Some g =>
    if negb (active g)
    then Ok (no_pairings st)
    else
      let st1 := set_peers st (map_retain (fun _ p => projected st g p) (st_peers st)) in
      let st2 := set_group_admissions st1
                   (filter (fun id => contains_key (st_peers st1) id = true) (st_group_admissions st1)) in
      derived ← Group.peers g;
      st3 ← project_peers g previous derived st2;
      Ok (set_pair_admissions st3 (map_retain (fun id _ => contains_key (st_peers st3) id) (st_pair_admissions st3)))
  end.

(** The device a pairing turns out to be. *)
Definition bind_device (id : string) (issuer_ : string) (st : State) : result PeerStoreError (bool * State) :=
  p ← ok_or Revoked (st_peers st !! id);
  _ ← refuse_if (match Peer.device_id p with Some d => negb (String.eqb d issuer_) | None => false end)
        (Invalid "group identity does not match pairing");
  Ok (bool_decide (Peer.device_id p = None),
      set_peers st (<[id := {| Peer.pairing_id := Peer.pairing_id p; Peer.device_id := Some issuer_;
                               Peer.name := Peer.name p; Peer.psk := Peer.psk p;
                               Peer.last_addr := Peer.last_addr p; Peer.last_seen_ms := Peer.last_seen_ms p;
                               Peer.profile := Peer.profile p;
                               Peer.profile_observed_at_ms := Peer.profile_observed_at_ms p |}]> (st_peers st))).

Definition peers_changed (old next : State) : bool :=
  negb (map_len (st_peers next) =? map_len (st_peers old))
  || existsb (fun p => negb (only_last_seen_moved old p)
                       || match st_peers old !! Peer.pairing_id p with
                          | Some q => negb (Peer.last_seen_ms q =? Peer.last_seen_ms p)
                          | None => true
                          end) (peer_values (st_peers next)).

(** [merge_group] up to its write: the next state, if there is anything to
    write. *)
Definition merged_state (st : State) (sn : GroupSnapshot) (pairing_id : option string) (explicit : bool)
    : result PeerStoreError (option State) :=
  g ← ok_or (Invalid "group is not initialized") (st_group st);
  '(bound, next) ← match pairing_id with
                   | Some id => bind_device id (issuer (roster sn)) st
                   | None => Ok (false, st)
                   end;
  let fresh_sas := match pairing_id with Some id => bool_decide (id ∈ st_group_admissions next) | None => false end in
  '(changed, g) ← Group.merge g sn (explicit || fresh_sas);
  let next := set_group next (Some g) in
  if negb changed && negb fresh_sas && negb bound then Ok None else
  let next := match pairing_id with
              | Some id => set_group_admissions next (st_group_admissions next ∖ {[id]})
              | None => next
              end in
  next ← project next (st_group st);
  Ok (if changed || peers_changed st next
         || negb (bool_decide (st_group_admissions next = st_group_admissions st))
         || negb (bool_decide (st_pair_admissions next = st_pair_admissions st))
      then Some next else None).

Definition merge_group (a : Attempt) (sn : GroupSnapshot) (pairing_id : option string) (explicit : bool)
    (s : PeerStore) : result PeerStoreError bool * PeerStore :=
  let st := state s in
  match merged_state st sn pairing_id explicit with
  | Err e => (Err e, s)
  | Ok None => (Ok false, s)
  | Ok (Some next) =>
    match persist a next s with
    | (Err e, s) => (Err e, s)
    | (Ok _, s) =>
      let ids := pairing_ids (st_peers st) ++ pairing_ids (st_peers next) in
      (Ok true, group_changed (with_state s (foldl bump next ids)))
    end
  end.

(** [group_snapshot], with the identity the random source would produce. *)
Definition group_snapshot (a : Attempt) (random : Identity) (id name_ : string) (p : DeviceProfile)
    (addr : option SocketAddr) (s : PeerStore) : result PeerStoreError GroupSnapshot * PeerStore :=
  let st := state s in
  match st_group st with
  | Some g =>
    if local_matches g id name_ p addr then (Group.snapshot g, s) else
    match ('(changed, g) ← update_local g id name_ p addr;
           sn ← Group.snapshot g;
           _ ← (if (changed : bool) then snapshot_validate sn else Ok tt);
           Ok (changed, g, sn)) with
    | Err e => (Err e, s)
    | Ok (false, _, sn) => (Ok sn, s)
    | Ok (true, g, sn) =>
      match persist a (set_group st (Some g)) s with
      | (Err e, s) => (Err e, s)
      | (Ok _, s) => (Ok sn, group_changed (with_state s (set_group st (Some g))))
      end
    end
  | None =>
    match (g ← Group.new random id name_ p addr;
           sn ← Group.snapshot g;
           _ ← snapshot_validate sn;
           Ok (g, sn)) with
    | Err e => (Err e, s)
    | Ok (g, sn) =>
      match persist a (set_group st (Some g)) s with
      | (Err e, s) => (Err e, s)
      | (Ok _, s) => (Ok sn, group_changed (with_state s (set_group st (Some g))))
      end
    end
  end.

(** [confirm_group_admission] up to its write. *)
Definition confirmed_state (st : State) (id : string) : result PeerStoreError State :=
  _ ← refuse_if (negb (contains_key (st_peers st) id)) Revoked;
  next ← match st_pair_admissions st !! id, st_group st with
         | Some admission, Some g => g ← certify_local g (pa_local admission); Ok (set_group st (Some g))
         | _, _ => Ok st
         end;
  project (set_group_admissions next ({[id]} ∪ st_group_admissions next)) (st_group st).
Definition confirm_group_admission (a : Attempt) (id : string) (s : PeerStore)
    : result PeerStoreError unit * PeerStore :=
  match confirmed_state (state s) id with
  | Err e => (Err e, s)
  | Ok next =>
    match persist a next s with
    | (Err e, s) => (Err e, s)
    | (Ok _, s) => (Ok tt, group_changed (with_state s next))
    end
  end.

Definition desired_group_admission (s : PeerStore) (device : option string) : result PeerStoreError Z :=
  g ← ok_or (Invalid "group is not initialized") (st_group (state s));
  match device with Some id => desired_admission g id | None => local_admission g end.

(** ** Every operation *)

Inductive Op :=
| OpUpsert (p : Peer.t)
| OpTouch (p : Peer.t)
| OpUpsertFrom (sn : PeerSnapshot) (p : Peer.t) (admission : option PairAdmissions)
| OpRestore (sn : PeerSnapshot)
| OpRemove (id : string)
| OpRevoke (id : string) (now_ms : Z)
| OpRevokeAll (now_ms : Z)
| OpMergeGroup (sn : GroupSnapshot) (pairing_id : option string) (explicit : bool)
| OpGroupSnapshot (random : Identity) (id name_ : string) (p : DeviceProfile) (addr : option SocketAddr)
| OpConfirm (id : string)
| OpFlush.

Definition dropped {A} (x : result PeerStoreError A * PeerStore) : result PeerStoreError unit * PeerStore :=
  ((fun _ => tt) <$> x.1, x.2).
Definition perform (op : Op) (a : Attempt) (s : PeerStore) : result PeerStoreError unit * PeerStore :=
  match op with
  | OpUpsert p => upsert a p s
  | OpTouch p => dropped (touch a p s)
  | OpUpsertFrom sn p admission => let '(r, _, s) := upsert_from_admission a sn p admission s in (r, s)
  | OpRestore sn => dropped (restore a sn s)
  | OpRemove id => dropped (remove a id s)
  | OpRevoke id now => dropped (revoke a id now s)
  | OpRevokeAll now => dropped (revoke_all a now s)
  | OpMergeGroup sn id explicit => dropped (merge_group a sn id explicit s)
  | OpGroupSnapshot random id name_ p addr => dropped (group_snapshot a random id name_ p addr s)
  | OpConfirm id => confirm_group_admission a id s
  | OpFlush => flush a s
  end.
End Store.
