(* ===== verification/PeerSafety.v ===== *)
(** What the paired-device store keeps true: every operation of [PeerStore.v]
    preserves its invariant and every revocation, a failed one changes nothing,
    and the file follows memory. *)

From S2P Require Import Prelude Bytes Wire Net Peer Group PeerFile PeerStore.

Section Safety.
Context `{GroupCrypto} `{StoreJson} `{PeerCipher} `{PeerOrder}.
Context (secret : key).

(** ** What the changes keep *)

(** [w] is well formed if [st] is, and still holds every revocation. *)
Definition revocations_kept (st w : State) : Prop :=
  forall id, is_Some (st_revoked st !! id) -> is_Some (st_revoked w !! id).
Definition good_change (st w : State) : Prop :=
  (state_ok st -> state_ok w) /\ revocations_kept st w.

Lemma same_revoked st w : st_revoked w = st_revoked st -> revocations_kept st w.
Proof. intros He id. by rewrite He. Qed.

Lemma keyed_of st id p : peers_ok st -> st_peers st !! id = Some p -> Peer.pairing_id p = id.
Proof. intros Hok Hp. by apply (ok_keyed st Hok). Qed.

(** Replacing or adding one valid record. *)
Lemma peers_ok_insert st id p :
  peers_ok st -> Peer.pairing_id p = id -> peer_validate p = Ok tt -> st_revoked st !! id = None ->
  (is_Some (st_peers st !! id) \/ map_len (st_peers st) < MAX_PAIRINGS) ->
  peers_ok (set_peers st (<[id := p]> (st_peers st))).
Proof.
  intros [Hk Hc Hr Hb] Hid Hv Hn Hsize. split; cbn; [| |done|].
  - intros k q. rewrite lookup_insert_Some. intros [[<- <-]|[_ Hq]]; [done|by apply Hk].
  - intros k Hcut. rewrite lookup_insert_ne; [by apply Hc|]. intros <-. rewrite Hn in Hcut. by destruct Hcut.
  - destruct Hsize as [Hs|Hs]; [by rewrite map_len_insert_old|].
    pose proof (map_len_insert_le (st_peers st) id p). lia.
Qed.

Lemma peers_ok_shrink st m :
  peers_ok st -> (forall id p, m !! id = Some p -> st_peers st !! id = Some p) -> map_len m <= map_len (st_peers st) ->
  peers_ok (set_peers st m).
Proof.
  intros [Hk Hc Hr Hb] Hsub Hlen. split; cbn; [by intros id p Hp; apply Hk, Hsub| |done|lia].
  intros id Hcut. destruct (m !! id) as [p|] eqn:E; [|done]. apply Hsub in E. by rewrite (Hc id Hcut) in E.
Qed.

Lemma peers_ok_delete st id : peers_ok st -> peers_ok (set_peers st (delete id (st_peers st))).
Proof.
  intros Hok. apply peers_ok_shrink; [done| |apply map_len_delete_le].
  intros k p Hp. by apply lookup_delete_Some in Hp as [_ ?].
Qed.

(** The fields the invariant does not read. *)
Lemma peers_ok_same st w :
  st_peers w = st_peers st -> st_revoked w = st_revoked st -> peers_ok st -> peers_ok w.
Proof. intros Hp Hr [Hk Hc Hv Hb]. split; by rewrite ?Hp, ?Hr. Qed.

Lemma set_admission_ok id a st : peers_ok st -> peers_ok (set_admission id a st).
Proof. by apply peers_ok_same. Qed.

Lemma certified_set_admission id a st :
  certified st -> (is_Some a -> is_Some (st_peers st !! id)) -> certified (set_admission id a st).
Proof.
  intros Hc Ha k. unfold set_admission. destruct a as [v|]; cbn.
  - rewrite lookup_insert_is_Some'. intros [->|Hk]; [by apply Ha|by apply Hc].
  - intros [v Hv]. apply lookup_delete_Some in Hv as [_ Hv]. apply Hc. by eexists.
Qed.

(** *** Saving *)

Lemma check_upsert_spec st p adm :
  check_upsert st p adm = Ok tt ->
  peer_validate p = Ok tt /\ check_certificate st p adm = Ok tt /\
  st_revoked st !! Peer.pairing_id p = None /\ other_pairing_of st p = false /\
  (is_Some (st_peers st !! Peer.pairing_id p) \/ map_len (st_peers st) < MAX_PAIRINGS).
Proof.
  unfold check_upsert. rewrite !bind_unit_ok, !refuse_if_ok. intros (Hv & Hc & Hr & Ho & Hs).
  split_and!; [done|done|by apply contains_key_false|done|].
  apply andb_false_iff in Hs as [Hs|Hs]; [left|right; lia].
  apply contains_key_true. by apply negb_false_iff.
Qed.

Lemma with_peer_good st p adm : check_upsert st p adm = Ok tt -> good_change st (with_peer st p adm).
Proof.
  intros Hcheck. apply check_upsert_spec in Hcheck as (Hv & _ & Hr & _ & Hs). split; [|by apply same_revoked].
  intros [Hok Hc]. split.
  - unfold with_peer. apply peers_ok_insert; [by apply set_admission_ok|done|done|done|done].
  - intros k. cbn. unfold with_peer, set_admission; cbn. rewrite lookup_insert_is_Some'.
    destruct (next_admission st p adm); cbn [map_put]; [rewrite lookup_insert_is_Some'; intros [?|?]; [by left|]
                                        |intros [v [_ ?]%lookup_delete_Some]]; right; apply Hc; eauto.
Qed.

(** *** Putting a slot back *)

(** A snapshot of this store's own: its record is valid, and the slot it was
    taken of was not emptied since. *)
Definition restorable (st : State) (sn : PeerSnapshot) : Prop :=
  match sn_previous sn with
  | None => True
  | Some p => Peer.pairing_id p = sn_pairing_id sn /\ peer_validate p = Ok tt /\
              (generation st (sn_pairing_id sn) = sn_generation sn -> is_Some (st_peers st !! sn_pairing_id sn))
  end.

(** Validity reads the device id, the key and the profile. *)
Lemma peer_validate_mix p q :
  peer_validate p = Ok tt -> peer_validate q = Ok tt -> forall r,
  Peer.pairing_id r = Peer.pairing_id p -> Peer.psk r = Peer.psk p ->
  (Peer.device_id r = Peer.device_id p \/ Peer.device_id r = Peer.device_id q) ->
  Peer.profile r = Peer.profile q -> Peer.profile_observed_at_ms r = Peer.profile_observed_at_ms q ->
  peer_validate r = Ok tt.
Proof.
  unfold peer_validate. rewrite !bind_unit_ok. intros [Hid Hp] [_ Hq] r Er Ek Ed Ef Eo.
  rewrite bind_unit_ok, Er, Ef, Eo. split; [done|]. unfold psk_matches in *. rewrite Ek.
  destruct (match Peer.device_id p with Some d => _ | None => false end) eqn:Edp; [done|].
  destruct (match Peer.device_id q with Some d => _ | None => false end) eqn:Edq; [done|].
  assert (Hd : match Peer.device_id r with Some d => String.eqb d "" || (str_len d >? MAX_ID_BYTES) | None => false end = false).
  { by destruct Ed as [->| ->]. }
  rewrite Hd. destruct (bool_decide (Peer.psk p = zero_key)); [done|].
  by destruct (bool_decide (Peer.psk q = zero_key)).
Qed.

Lemma restored_valid st sn p :
  peers_ok st -> restorable st sn -> restored sn st = Some p ->
  Peer.pairing_id p = sn_pairing_id sn /\ peer_validate p = Ok tt /\
  st_revoked st !! sn_pairing_id sn = None /\ is_Some (st_peers st !! sn_pairing_id sn).
Proof.
  intros Hok Hrest. unfold restored, restorable in *. destruct (sn_previous sn) as [q|]; [|done].
  destruct Hrest as (Hid & Hv & Hocc). destruct (contains_key (st_revoked st) _) eqn:Er; [done|].
  apply contains_key_false in Er.
  destruct (generation st (sn_pairing_id sn) =? sn_generation sn) eqn:Eg; cbn [negb].
  - intros [= <-]. apply Z.eqb_eq in Eg. split_and!; [done|done|done|by apply Hocc].
  - destruct (st_peers st !! sn_pairing_id sn) as [c|] eqn:Ec; [|done]. intros [= <-].
    destruct (ok_keyed st Hok _ _ Ec) as [_ Hcv]. split_and!; [done| |done|by eexists].
    refine (peer_validate_mix _ _ Hv Hcv _ _ _ _ _ _); [by rewrite Hid|done| |done|done].
    cbn. destruct (Peer.device_id q); [by left|by right].
Qed.

Lemma with_slot_restored_good st sn : restorable st sn -> good_change st (with_slot_restored sn st).
Proof.
  intros Hrest. unfold with_slot_restored.
  set (st1 := set_peers st (map_put _ _ _)).
  split; [|destruct (_ && _); by apply same_revoked]. intros [Hok Hc].
  assert (Hok1 : peers_ok st1).
  { subst st1. destruct (restored sn st) as [p|] eqn:Er; [|by apply peers_ok_delete].
    destruct (restored_valid st sn p Hok Hrest Er) as (Hid & Hv & Hn & Ho). apply peers_ok_insert; [done|done|done|done|by left]. }
  assert (Hother : forall k, k <> sn_pairing_id sn -> st_peers st1 !! k = st_peers st !! k).
  { intros k Hk. subst st1. cbn. destruct (restored sn st); [by apply lookup_insert_ne|by apply lookup_delete_ne]. }
  split.
  { destruct (_ && _); by apply set_admission_ok. }
  destruct (negb _ && contains_key (st_peers st1) (sn_pairing_id sn)) eqn:Ein; intros k Hk.
  - apply andb_true_iff in Ein as [_ Ein]. apply contains_key_true in Ein.
    destruct (decide (k = sn_pairing_id sn)) as [->|Hne]; [destruct (sn_previous_admission sn); done|].
    destruct (sn_previous_admission sn); cbn in *; rewrite Hother by done; apply Hc;
      [by rewrite lookup_insert_ne in Hk|by rewrite lookup_delete_ne in Hk].
  - destruct Hk as [v Hv]. cbn in Hv. apply lookup_delete_Some in Hv as [Hne Hv]. cbn.
    rewrite Hother by done. apply Hc. by eexists.
Qed.

(** *** Removing *)

Lemma remove_device_same st d w : remove_device st d = Ok w ->
  st_peers w = st_peers st /\ st_revoked w = st_revoked st /\ st_pair_admissions w = st_pair_admissions st /\
  st_group_admissions w = st_group_admissions st /\ st_generations w = st_generations st /\
  (st_peers st = st_peers w).
Proof.
  unfold remove_device. destruct d as [id|]; [|by intros [= <-]].
  destruct (st_group st) as [g|]; [|by intros [= <-]].
  rewrite bind_ok. intros ([c g'] & _ & [= <-]). done.
Qed.

Lemma forget_pairing_good st w id : st_peers w = st_peers st -> st_revoked w = st_revoked st ->
  st_pair_admissions w = st_pair_admissions st -> good_change st (forget_pairing id w).
Proof.
  intros Hp Hr Ha. split; [|by apply same_revoked]. intros [Hok Hc]. split.
  - unfold forget_pairing. apply set_admission_ok. eapply peers_ok_same; [| |apply (peers_ok_delete w id)];
      [done|done|]. by eapply peers_ok_same.
  - intros j [v Hv]. cbn in *. apply lookup_delete_Some in Hv as [Hne Hv].
    rewrite lookup_delete_ne by done. rewrite Hp. rewrite Ha in Hv. apply Hc. by eexists.
Qed.

Lemma cut_off_good st w id now : validate_pairing_id id = Ok tt ->
  st_peers w = st_peers st -> st_revoked w = st_revoked st -> st_pair_admissions w = st_pair_admissions st ->
  good_change st (cut_off id now w).
Proof.
  intros Hv Hp Hr Ha. destruct (forget_pairing_good st w id Hp Hr Ha) as [Hgood _]. split.
  - intros Hst. destruct (Hgood Hst) as [[Hk Hcut Hval Hb] Hc]. split; [|done].
    split; cbn in *; [done| | |done].
    + intros j. rewrite lookup_insert_is_Some'. intros [->|Hj]; [apply lookup_delete_eq|by apply Hcut].
    + intros j. rewrite lookup_insert_is_Some'. intros [<-|Hj]; [done|by apply Hval].
  - intros j Hj. cbn. rewrite lookup_insert_is_Some', Hr. by right.
Qed.

Lemma no_pairings_ok st : peers_ok st -> state_ok (no_pairings st).
Proof.
  intros [Hk Hc Hv Hb]. split; [split|]; cbn.
  - intros id p Hp. by rewrite lookup_empty in Hp.
  - intros id _. apply lookup_empty.
  - done.
  - done.
  - intros id [v Hv']. cbn in Hv'. by rewrite lookup_empty in Hv'.
Qed.

(** The revocations [revoke_all] adds. *)
Lemma cut_ids_lookup ids now : forall (m : gmap string Z) id,
  is_Some (foldl (fun m id => <[id := now]> m) m ids !! id) <-> is_Some (m !! id) \/ id ∈ ids.
Proof.
  induction ids as [|i ids IH]; intros m id; cbn; [split; [by left|intros [?|Hn]; [done|by apply elem_of_nil in Hn]]|].
  rewrite IH, lookup_insert_is_Some', elem_of_cons. naive_solver.
Qed.
Lemma elem_of_pairing_ids (m : gmap string Peer.t) id : id ∈ pairing_ids m <-> is_Some (m !! id).
Proof.
  unfold pairing_ids. rewrite list_elem_of_fmap. split.
  - intros ([i p] & -> & Hin%elem_of_map_to_list). by eexists.
  - intros [p Hp]. exists (id, p). split; [done|]. by apply elem_of_map_to_list.
Qed.

Lemma pairing_id_valid p : peer_validate p = Ok tt -> validate_pairing_id (Peer.pairing_id p) = Ok tt.
Proof. unfold peer_validate. by rewrite bind_unit_ok; intros [? _]. Qed.

Lemma cut_off_all_good st w now : st_peers w = st_peers st -> st_revoked w = st_revoked st ->
  good_change st (cut_off_all now w).
Proof.
  intros Hp Hr. split.
  - intros [Hok Hc]. assert (Hokw : peers_ok w) by by apply (peers_ok_same st).
    destruct (no_pairings_ok w Hokw) as [[_ _ _ Hb] Hc']. split; [|done].
    split; cbn; [intros id p Hl; by rewrite lookup_empty in Hl|intros id _; apply lookup_empty| |done].
    intros id. rewrite cut_ids_lookup, elem_of_pairing_ids, Hr, Hp. intros [Hid|[p Hid]]; [by apply (ok_revoked st Hok)|].
    destruct (ok_keyed st Hok _ _ Hid) as [<- Hv]. by apply pairing_id_valid.
  - intros id Hid. cbn. apply cut_ids_lookup. left. by rewrite Hr.
Qed.

Lemma remove_devices_same ids : forall st w, remove_devices ids st = Ok w ->
  st_peers w = st_peers st /\ st_revoked w = st_revoked st.
Proof.
  induction ids as [|id ids IH]; intros st w; cbn [remove_devices]; [by intros [= <-]|].
  rewrite bind_ok. intros (st1 & (Hp & Hr & _)%remove_device_same & Hw).
  destruct (IH _ _ Hw) as [-> ->]. by rewrite Hp, Hr.
Qed.

(** *** Projecting the group *)

Lemma insert_derived_ok p adm st w : peers_ok st -> peer_validate p = Ok tt -> insert_derived p adm st = Ok w ->
  peers_ok w /\ st_revoked w = st_revoked st.
Proof.
  unfold insert_derived. intros Hok Hv. rewrite !bind_unit_ok, !refuse_if_ok. intros (Hr & Hl & [= <-]).
  split; [|done]. apply (peers_ok_insert (set_admission (Peer.pairing_id p) (Some adm) st));
    [by apply set_admission_ok|done|done|by apply contains_key_false|right; cbn; lia].
Qed.

Lemma rename_valid stored p : peer_validate stored = Ok tt -> peer_validate (rename_peer stored p) = Ok tt.
Proof. intros Hv. exact Hv. Qed.

Lemma project_peer_ok g prev p st w : peers_ok st -> project_peer g prev p st = Ok w ->
  peers_ok w /\ st_revoked w = st_revoked st.
Proof.
  intros Hok. unfold project_peer. rewrite bind_unit_ok. intros [Hv Hp].
  rewrite bind_ok in Hp. destruct Hp as (device & _ & Hp). rewrite bind_ok in Hp. destruct Hp as (adm & _ & Hp).
  destruct (pairing_of_device st p) as [id|]; [|by eapply insert_derived_ok].
  destruct (_ || _).
  - destruct (member_changed _ _ _); [|by injection Hp as <-]. rewrite bind_ok in Hp.
    destruct Hp as (stored & Hs & [= <-]). rewrite ok_or_ok in Hs. split; [|done].
    destruct (ok_keyed st Hok _ _ Hs) as [Hid Hval].
    apply peers_ok_insert; [done|done|by apply rename_valid| |left; by eexists].
    destruct (st_revoked st !! id) as [at_|] eqn:Er; [|done]. rewrite (ok_cut st Hok id) in Hs by by eexists. done.
  - destruct (insert_derived_ok p adm (forget_pairing id st) w) as [? Hr]; [|done|done|done].
    unfold forget_pairing. apply set_admission_ok. eapply peers_ok_same; [| |apply (peers_ok_delete st id Hok)]; done.
Qed.

Lemma project_peers_ok g prev l : forall st w, peers_ok st -> project_peers g prev l st = Ok w ->
  peers_ok w /\ st_revoked w = st_revoked st.
Proof.
  induction l as [|p l IH]; intros st w Hok; cbn [project_peers]; [by intros [= <-]|].
  rewrite bind_ok. intros (st1 & Hp & Hw). destruct (project_peer_ok _ _ _ _ _ Hok Hp) as [Hok1 Hr1].
  destruct (IH _ _ Hok1 Hw) as [? ->]. done.
Qed.

(** Projecting never touches the revocations. *)
Lemma project_revoked st prev w : project st prev = Ok w -> st_revoked w = st_revoked st.
Proof.
  assert (Hd : forall p adm st w, insert_derived p adm st = Ok w -> st_revoked w = st_revoked st).
  { intros p adm st1 w1. unfold insert_derived. rewrite !bind_unit_ok. by intros (_ & _ & [= <-]). }
  assert (Hone : forall g p st w, project_peer g prev p st = Ok w -> st_revoked w = st_revoked st).
  { intros g p st1 w1. unfold project_peer. rewrite bind_unit_ok. intros [_ Hp].
    rewrite bind_ok in Hp. destruct Hp as (device & _ & Hp). rewrite bind_ok in Hp. destruct Hp as (adm & _ & Hp).
    destruct (pairing_of_device st1 p) as [id|]; [|by eapply Hd].
    destruct (_ || _); [|by apply Hd in Hp]. destruct (member_changed _ _ _); [|by injection Hp as <-].
    rewrite bind_ok in Hp. by destruct Hp as (? & _ & [= <-]). }
  assert (Hall : forall g l st w, project_peers g prev l st = Ok w -> st_revoked w = st_revoked st).
  { intros g l. induction l as [|p l IH]; intros st1 w1; cbn [project_peers]; [by intros [= <-]|].
    rewrite bind_ok. intros (st2 & Hp & Hw). by rewrite (IH _ _ Hw), (Hone _ _ _ _ Hp). }
  unfold project. destruct (st_group st) as [g|]; [|by intros [= <-]].
  destruct (negb (active g)); [by intros [= <-]|]. rewrite bind_ok. intros (derived & _ & Hp).
  rewrite bind_ok in Hp. destruct Hp as (st3 & Hp & [= <-]). by apply Hall in Hp.
Qed.

Lemma project_ok st prev w : state_ok st -> project st prev = Ok w -> state_ok w /\ st_revoked w = st_revoked st.
Proof.
  intros [Hok Hc]. unfold project. destruct (st_group st) as [g|]; [|by intros [= <-]].
  destruct (negb (active g)); [intros [= <-]; split; [by apply no_pairings_ok|done]|].
  set (st2 := set_group_admissions _ _). rewrite bind_ok. intros (derived & _ & Hp).
  rewrite bind_ok in Hp. destruct Hp as (st3 & Hp & [= <-]).
  assert (Hok2 : peers_ok st2).
  { eapply peers_ok_same; [| |eapply (peers_ok_shrink st (map_retain (fun _ p => projected st g p) (st_peers st)) Hok)];
      [done|done| |apply map_len_retain_le].
    intros id p Hp'. by apply map_retain_some in Hp' as [? _]. }
  destruct (project_peers_ok _ _ _ _ _ Hok2 Hp) as [Hok3 Hr3]. split; [|done]. split; [by eapply peers_ok_same; [| |exact Hok3]|].
  intros id [v Hv]. cbn in Hv. apply map_retain_some in Hv as [_ Hk]. by apply contains_key_true.
Qed.

(** What a group merge binds and writes. *)
Lemma bind_device_ok id issuer_ st b w :
  state_ok st -> validate_id issuer_ = Ok tt -> bind_device id issuer_ st = Ok (b, w) ->
  state_ok w /\ st_revoked w = st_revoked st.
Proof.
  intros [Hok Hc] Hv. unfold bind_device. rewrite bind_ok. intros (p & Hp & Hb). rewrite ok_or_ok in Hp.
  rewrite bind_unit_ok in Hb. destruct Hb as [_ [= _ <-]]. split; [|done].
  destruct (ok_keyed st Hok _ _ Hp) as [Hid Hval]. split.
  - apply peers_ok_insert; [done|done| | |left; by eexists].
    + unfold peer_validate in *. cbn. rewrite bind_unit_ok in *. destruct Hval as [Hval1 Hval2]. split; [done|].
      destruct (match Peer.device_id p with Some d => _ | None => false end); [done|].
      unfold validate_id in Hv. destruct (_ || _ || _) eqn:Eb; [done|].
      apply orb_false_iff in Eb as [Eb _]. rewrite Eb. exact Hval2.
    + destruct (st_revoked st !! id) as [at_|] eqn:Er; [|done]. rewrite (ok_cut st Hok id) in Hp by by eexists. done.
  - intros j Hj. cbn. rewrite lookup_insert_is_Some'. right. by apply Hc.
Qed.

Lemma merge_issuer_id g sn explicit x : Group.merge g sn explicit = Ok x -> validate_id (issuer (roster sn)) = Ok tt.
Proof.
  unfold Group.merge. rewrite bind_ok. intros ([] & Hv & Hm). unfold snapshot_validate in Hv.
  destruct (_ || _); [done|]. rewrite bind_unit_ok in Hv. destruct Hv as [Hms Hv].
  rewrite bind_unit_ok in Hv. destruct Hv as [_ Hv]. rewrite bind_ok in Hv. destruct Hv as (who & Hw & _).
  rewrite ok_or_ok in Hw. rewrite each_ok, Forall_forall in Hms.
  specialize (Hms (issuer (roster sn), who)). rewrite elem_of_btree_iter in Hms. specialize (Hms Hw).
  cbn in Hms. by rewrite bind_unit_ok in Hms; destruct Hms as [? _].
Qed.

Lemma state_ok_same st w :
  st_peers w = st_peers st -> st_revoked w = st_revoked st -> st_pair_admissions w = st_pair_admissions st ->
  state_ok st -> state_ok w.
Proof.
  intros Hp Hr Ha [Hok Hc]. split; [by apply (peers_ok_same st)|]. intros id. rewrite Ha, Hp. apply Hc.
Qed.

Lemma merged_state_good st sn pid explicit w : merged_state st sn pid explicit = Ok (Some w) -> good_change st w.
Proof.
  unfold merged_state. rewrite bind_ok. intros (g & _ & Hm).
  rewrite bind_ok in Hm. destruct Hm as ([b next] & Hb & Hm).
  rewrite bind_ok in Hm. destruct Hm as ([c g'] & Hg & Hm).
  destruct (negb c && _ && _); [done|]. rewrite bind_ok in Hm. destruct Hm as (w' & Hp & Hm).
  case_match; [|done]. injection Hm as <-. pose proof (merge_issuer_id _ _ _ _ Hg) as Hid.
  assert (Hrev : st_revoked next = st_revoked st).
  { destruct pid as [id|]; [|by injection Hb as _ <-]. unfold bind_device in Hb.
    rewrite bind_ok in Hb. destruct Hb as (p & _ & Hb). rewrite bind_unit_ok in Hb. by destruct Hb as [_ [= _ <-]]. }
  assert (Hproj : exists next', st_peers next' = st_peers next /\ st_revoked next' = st_revoked next /\
    st_pair_admissions next' = st_pair_admissions next /\ project next' (st_group st) = Ok w').
  { eexists. split_and!; [| | |exact Hp]; by destruct pid. }
  destruct Hproj as (next' & Hp' & Hr' & Ha' & Hproj).
  assert (Hgood : state_ok st -> state_ok w' /\ st_revoked w' = st_revoked st).
  { intros Hst. assert (Hnext : state_ok next).
    { destruct pid as [id|]; [|by injection Hb as _ <-]. by eapply bind_device_ok. }
    destruct (project_ok _ _ _ (state_ok_same next next' Hp' Hr' Ha' Hnext) Hproj) as [? Hrw].
    split; [done|]. by rewrite Hrw, Hr'. }
  split; [by intros Hst; apply Hgood|]. intros id.
  enough (Hr : st_revoked w' = st_revoked st) by by rewrite Hr.
  rewrite (project_revoked _ _ _ Hproj). by rewrite Hr'.
Qed.

Lemma confirmed_state_good st id w : confirmed_state st id = Ok w -> good_change st w.
Proof.
  unfold confirmed_state. rewrite bind_unit_ok. intros [_ Hm]. rewrite bind_ok in Hm. destruct Hm as (next & Hn & Hp).
  assert (Hsame : st_peers next = st_peers st /\ st_revoked next = st_revoked st /\
                  st_pair_admissions next = st_pair_admissions st).
  { destruct (st_pair_admissions st !! id); [|by injection Hn as <-].
    destruct (st_group st); [|by injection Hn as <-]. rewrite bind_ok in Hn. by destruct Hn as (? & _ & [= <-]). }
  destruct Hsame as (Hp' & Hr' & Ha'). split.
  - intros Hst. eapply project_ok; [|exact Hp]. by apply (state_ok_same st).
  - intros j. rewrite (project_revoked _ _ _ Hp). cbn. by rewrite Hr'.
Qed.

(** ** What an operation does *)

(** Equal up to the write counters. *)
Definition same_slots (st w : State) : Prop := set_generations st ∅ = set_generations w ∅.
#[global] Instance same_slots_equiv : Equivalence same_slots.
Proof. split; unfold same_slots; repeat intro; congruence. Qed.

Lemma bump_slots st id : same_slots st (bump st id).
Proof. unfold bump. by destruct (String.prefix _ _). Qed.
Lemma bumps_slots ids : forall st, same_slots st (foldl bump st ids).
Proof.
  induction ids as [|id ids IH]; intros st; cbn; [done|]. etrans; [apply (bump_slots st id)|apply IH].
Qed.
Lemma same_slots_fields st w : same_slots st w ->
  st_peers w = st_peers st /\ st_revoked w = st_revoked st /\ st_pair_admissions w = st_pair_admissions st /\
  store_file w = store_file st.
Proof. destruct st, w. intros [= -> -> -> -> ->]. done. Qed.
Lemma same_slots_ok st w : same_slots st w -> state_ok st -> state_ok w.
Proof. intros (Hp & Hr & Ha & _)%same_slots_fields. by apply state_ok_same. Qed.

Lemma persist_cases a w s : let '(r, s1) := persist secret a w s in
  match r with
  | Ok _ => state s1 = state s /\ unflushed s1 = false /\ group_revision s1 = group_revision s /\
            exists b, write_now a w secret = Ok b /\ file s1 = Contents b
  | Err _ => s1 = s
  end.
Proof. unfold persist. destruct (write_now a w secret); cbn; eauto 6. Qed.

(** The operations a well-behaved caller makes. *)
Definition justified (op : Op) (st : State) : Prop :=
  match op with OpRestore sn => restorable st sn | _ => True end.

(** The file after the operation holds [w]. *)
Definition wrote (a : Attempt) (w : State) (s' : PeerStore) : Prop :=
  unflushed s' = false /\ exists b, write_now a w secret = Ok b /\ file s' = Contents b.
(** It was not replaced, and the store knows that it is behind. *)
Definition kept_in_memory (s s' : PeerStore) : Prop := unflushed s' = true /\ file s' = file s.

Definition effect (a : Attempt) (s s' : PeerStore) : Prop :=
  s' = s \/
  exists w, good_change (state s) w /\ same_slots w (state s') /\ (wrote a w s' \/ kept_in_memory s s').

Lemma effect_saved a s w st' s1 s' :
  good_change (state s) w -> same_slots w st' -> persist secret a w s = (Ok tt, s1) ->
  state s' = st' -> unflushed s' = unflushed s1 -> file s' = file s1 -> effect a s s'.
Proof.
  intros Hg Hs Hp <- Hu Hf. right. exists w. split_and!; [done|done|]. left.
  pose proof (persist_cases a w s) as Hc. rewrite Hp in Hc. destruct Hc as (_ & Hu1 & _ & b & Hb & Hf1).
  split; [by rewrite Hu|]. exists b. by rewrite Hf.
Qed.

(** The rollback of a failed save is exact. *)
Lemma upsert_rolls_back a p adm s e s' :
  upsert_locked_certified secret a p adm s = (Err e, s') -> s' = s.
Proof.
  unfold upsert_locked_certified. destruct (check_upsert (state s) p adm) as [[]|e']; [|by intros [= _ <-]].
  destruct (_ && _); [done|]. pose proof (persist_cases a (with_peer (state s) p adm) s) as Hc.
  destruct (persist secret a _ s) as [[[]|e'] s1]; [done|]. subst s1. intros [= _ <-].
  destruct s as [[pa g ga ps rv gs] u f r]. unfold with_state, with_peer, set_admission, set_peers, set_pair_admissions; cbn.
  rewrite map_put_undo. do 2 f_equal. apply (map_put_undo ps (Peer.pairing_id p) (Some p)).
Qed.

Lemma upsert_effect a p adm s : effect a s (upsert_locked_certified secret a p adm s).2.
Proof.
  destruct (upsert_locked_certified secret a p adm s) as [[[]|e] s'] eqn:E; cbn; [|left; by eapply upsert_rolls_back].
  unfold upsert_locked_certified in E. destruct (check_upsert (state s) p adm) as [[]|e] eqn:Ec; [|done].
  pose proof (with_peer_good _ _ _ Ec) as Hg. destruct (_ && _).
  - injection E as <-. right. exists (with_peer (state s) p adm). split_and!; [done|apply bump_slots|by right].
  - destruct (persist secret a _ s) as [[[]|e] s1] eqn:Ep; [|done]. injection E as <-.
    by eapply effect_saved; [exact Hg|apply bump_slots|exact Ep|..].
Qed.

Lemma with_state_same s : with_state s (state s) = s.
Proof. by destruct s. Qed.

Lemma remove_absent (s : PeerStore) st id : remove_device (state s) (p ← st_peers (state s) !! id; Peer.device_id p) = Ok st ->
  st_peers st !! id = None -> st = state s.
Proof.
  intros Hd Hn. destruct (remove_device_same _ _ _ Hd) as (Hp & _). rewrite Hp in Hn. rewrite Hn in Hd.
  cbn in Hd. by injection Hd as <-.
Qed.

Lemma remove_rolls_back a id s e s' : remove secret a id s = (Err e, s') -> s' = s.
Proof.
  unfold remove. destruct (remove_device _ _) as [st|e']; [|by intros [= _ <-]].
  destruct (st_peers st !! id); [|done]. pose proof (persist_cases a (forget_pairing id st) s) as Hc.
  destruct (persist secret a _ s) as [[[]|e'] s1]; [done|]. subst s1. intros [= _ <-]. apply with_state_same.
Qed.

Lemma remove_effect a id s : effect a s (remove secret a id s).2.
Proof.
  destruct (remove secret a id s) as [[b|e] s'] eqn:E; cbn; [|left; by eapply remove_rolls_back].
  unfold remove in E. destruct (remove_device _ _) as [st|e'] eqn:Ed; [|done].
  pose proof (remove_device_same _ _ _ Ed) as (Hp & Hr & Ha & _).
  destruct (st_peers st !! id) eqn:Ei.
  - destruct (persist secret a _ s) as [[[]|e] s1] eqn:Ep; [|done]. injection E as _ <-.
    by eapply effect_saved; [apply forget_pairing_good; [exact Hp|exact Hr|exact Ha]|apply bump_slots|exact Ep|..].
  - injection E as _ <-. left. rewrite (remove_absent _ _ _ Ed Ei). apply with_state_same.
Qed.

(** Removing a key and putting back what was there. *)
Lemma delete_undo {A} (m : gmap string A) id :
  match m !! id with Some v => <[id := v]> (delete id m) | None => delete id m end = m.
Proof. destruct (m !! id) eqn:E; [by rewrite insert_delete_id|by apply delete_id]. Qed.
Lemma singleton_undo (X : gset string) id :
  (if bool_decide (id ∈ X) then {[id]} ∪ X ∖ {[id]} else X ∖ {[id]}) = X.
Proof. case_bool_decide; [by rewrite <- union_difference_singleton_L|set_solver]. Qed.

Lemma undo_cut_off_exact st st1 id now d : remove_device st d = Ok st1 ->
  undo_cut_off id st (st_peers st1 !! id) (cut_off id now st1) = st.
Proof.
  intros (Hp & Hr & Ha & Hga & Hgen & _)%remove_device_same. destruct st as [pa g ga ps rv gs].
  unfold undo_cut_off, set_revoked, set_peers, set_group_admissions, set_group, set_pair_admissions;
    cbn in *. rewrite Hp, Hr, Ha, Hga, Hgen. f_equal.
  - apply delete_undo.
  - apply singleton_undo.
  - apply delete_undo.
  - apply (map_put_undo rv id (Some now)).
Qed.

Lemma revoke_rolls_back a id now s e s' : revoke secret a id now s = (Err e, s') -> s' = s.
Proof.
  unfold revoke. destruct (_ ← validate_pairing_id id; _) as [st1|e'] eqn:Ed; [|by intros [= _ <-]].
  rewrite !bind_unit_ok in Ed. destruct Ed as (_ & _ & Hd).
  pose proof (persist_cases a (cut_off id now st1) s) as Hc.
  destruct (persist secret a _ s) as [[[]|e'] s1]; [done|]. subst s1. intros [= _ <-].
  rewrite (undo_cut_off_exact _ _ _ _ _ Hd). apply with_state_same.
Qed.

Lemma revoke_effect a id now s : effect a s (revoke secret a id now s).2.
Proof.
  destruct (revoke secret a id now s) as [[b|e] s'] eqn:E; cbn; [|left; by eapply revoke_rolls_back].
  unfold revoke in E. destruct (_ ← validate_pairing_id id; _) as [st1|e'] eqn:Ed; [|done].
  rewrite !bind_unit_ok in Ed. destruct Ed as (Hv & _ & Hd).
  pose proof (remove_device_same _ _ _ Hd) as (Hp & Hr & Ha & _).
  destruct (persist secret a _ s) as [[[]|e] s1] eqn:Ep; [|done]. injection E as _ <-.
  by eapply effect_saved; [apply (cut_off_good _ st1 id now); [exact Hv|exact Hp|exact Hr|exact Ha]|apply bump_slots|exact Ep|..].
Qed.

Lemma revoke_all_rolls_back a now s e s' : revoke_all secret a now s = (Err e, s') -> s' = s.
Proof.
  unfold revoke_all. case_bool_decide; [done|]. destruct (remove_devices _ _) as [st|e']; [|by intros [= _ <-]].
  pose proof (persist_cases a (cut_off_all now st) s) as Hc.
  destruct (persist secret a _ s) as [[[]|e'] s1]; [done|]. subst s1. intros [= _ <-]. apply with_state_same.
Qed.

Lemma revoke_all_effect a now s : effect a s (revoke_all secret a now s).2.
Proof.
  destruct (revoke_all secret a now s) as [[b|e] s'] eqn:E; cbn; [|left; by eapply revoke_all_rolls_back].
  unfold revoke_all in E. case_bool_decide; [injection E as _ <-; by left|].
  destruct (remove_devices _ _) as [st|e'] eqn:Ed; [|done]. apply remove_devices_same in Ed as [Hp Hr].
  destruct (persist secret a _ s) as [[[]|e] s1] eqn:Ep; [|done]. injection E as _ <-.
  by eapply effect_saved; [apply (cut_off_all_good _ st now Hp Hr)|apply bumps_slots|exact Ep|..].
Qed.

Lemma merge_group_rolls_back a sn pid x s e s' : merge_group secret a sn pid x s = (Err e, s') -> s' = s.
Proof.
  unfold merge_group. destruct (merged_state _ _ _ _) as [[w|]|e']; [|done|by intros [= _ <-]].
  pose proof (persist_cases a w s) as Hc. destruct (persist secret a w s) as [[[]|e'] s1]; [done|].
  by intros [= _ <-].
Qed.
Lemma merge_group_effect a sn pid x s : effect a s (merge_group secret a sn pid x s).2.
Proof.
  unfold merge_group. destruct (merged_state _ _ _ _) as [[w|]|e'] eqn:Em; [|by left|by left].
  pose proof (persist_cases a w s) as Hc. destruct (persist secret a w s) as [[[]|e'] s1] eqn:Ep; cbn; [|by left].
  by eapply effect_saved; [by eapply merged_state_good|apply bumps_slots|exact Ep|..].
Qed.

Lemma set_group_good st g : good_change st (set_group st g).
Proof. split; [by apply state_ok_same|by apply same_revoked]. Qed.

(** The write of a group snapshot, made or not. *)
Lemma save_group_effect {A} a g (x : A) s :
  effect a s (match persist secret a (set_group (state s) (Some g)) s with
              | (Err e, s) => (Err e : result PeerStoreError A, s)
              | (Ok _, s) => (Ok x, group_changed (with_state s (set_group (state s) (Some g))))
              end).2.
Proof.
  pose proof (persist_cases a (set_group (state s) (Some g)) s) as Hc.
  destruct (persist secret a _ s) as [[[]|e'] s1] eqn:Ep; cbn; [|by left]. destruct Hc as (Hs1 & _).
  eapply effect_saved; [apply (set_group_good (state s) (Some g))|reflexivity|exact Ep|cbn; by rewrite Hs1|done|done].
Qed.

Lemma group_snapshot_effect a random id n p addr s : effect a s (group_snapshot secret a random id n p addr s).2.
Proof.
  unfold group_snapshot. destruct (st_group (state s)) as [g|].
  - destruct (local_matches _ _ _ _ _); [by left|].
    destruct (mbind _ _) as [[[[] g'] sn]|e]; [|by left|by left]. 
    pose proof (save_group_effect a g' sn s) as He. pose proof (persist_cases a (set_group (state s) (Some g')) s) as Hc.
    destruct (persist secret a _ s) as [[[]|e'] s1]; [|done]. destruct Hc as (Hs1 & _). by rewrite Hs1 in He.
  - destruct (mbind _ _) as [[g' sn]|e]; [|by left].
    pose proof (save_group_effect a g' sn s) as He. pose proof (persist_cases a (set_group (state s) (Some g')) s) as Hc.
    destruct (persist secret a _ s) as [[[]|e'] s1]; [|done]. destruct Hc as (Hs1 & _). by rewrite Hs1 in He.
Qed.
Lemma group_snapshot_rolls_back a random id n p addr s e s' :
  group_snapshot secret a random id n p addr s = (Err e, s') -> s' = s.
Proof.
  unfold group_snapshot. destruct (st_group (state s)) as [g|].
  - destruct (local_matches _ _ _ _ _); [by intros [= _ <-]|].
    destruct (mbind _ _) as [[[[] g'] sn]|e']; [|done|by intros [= _ <-]].
    pose proof (persist_cases a (set_group (state s) (Some g')) s) as Hc.
    destruct (persist secret a _ s) as [[[]|e'] s1]; [done|by intros [= _ <-]].
  - destruct (mbind _ _) as [[g' sn]|e']; [|by intros [= _ <-]].
    pose proof (persist_cases a (set_group (state s) (Some g')) s) as Hc.
    destruct (persist secret a _ s) as [[[]|e'] s1]; [done|by intros [= _ <-]].
Qed.

Lemma confirm_rolls_back a id s e s' : confirm_group_admission secret a id s = (Err e, s') -> s' = s.
Proof.
  unfold confirm_group_admission. destruct (confirmed_state _ _) as [w|e']; [|by intros [= _ <-]].
  pose proof (persist_cases a w s) as Hc. destruct (persist secret a w s) as [[[]|e'] s1]; [done|by intros [= _ <-]].
Qed.
Lemma confirm_effect a id s : effect a s (confirm_group_admission secret a id s).2.
Proof.
  unfold confirm_group_admission. destruct (confirmed_state _ _) as [w|e'] eqn:Em; [|by left].
  destruct (persist secret a w s) as [[[]|e'] s1] eqn:Ep; cbn.
  - eapply (effect_saved a s w w); [by eapply confirmed_state_good|reflexivity|exact Ep|done|done|done].
  - pose proof (persist_cases a w s) as Hc. rewrite Ep in Hc. by left.
Qed.

Lemma restore_effect a sn s : restorable (state s) sn -> effect a s (restore secret a sn s).2.
Proof.
  intros Hrest. right. exists (with_slot_restored sn (state s)).
  unfold restore, persist_unflushed. set (st' := bump _ _).
  assert (Hs : same_slots (with_slot_restored sn (state s)) st') by apply bump_slots.
  pose proof (persist_cases a st' (with_state s st')) as Hc.
  destruct (persist secret a st' _) as [[[]|e] s1] eqn:Ep; cbn.
  - destruct Hc as (Hs1 & Hu & _ & b & Hb & Hf). rewrite Hs1.
    split_and!; [by apply with_slot_restored_good|done|left]. split; [done|]. exists b. split; [|done].
    unfold write_now in *. by rewrite <- (proj2 (proj2 (proj2 (same_slots_fields _ _ Hs)))).
  - subst s1. split_and!; [by apply with_slot_restored_good|done|by right].
Qed.

Lemma flush_effect a s : effect a s (flush secret a s).2.
Proof.
  unfold flush. destruct (negb (unflushed s)); [by left|]. destruct (persist secret a (state s) s) as [[[]|e] s1] eqn:Ep.
  - pose proof (persist_cases a (state s) s) as Hc. rewrite Ep in Hc. destruct Hc as (Hs1 & _).
    apply (effect_saved a s (state s) (state s) s1); [split; [done|by intros ?]|reflexivity|exact Ep|exact Hs1|done|done].
  - pose proof (persist_cases a (state s) s) as Hc. rewrite Ep in Hc. by left.
Qed.

Lemma perform_effect op a s : justified op (state s) -> effect a s (perform secret op a s).2.
Proof.
  destruct op; cbn; intros Hj.
  - apply upsert_effect.
  - unfold touch. destruct (negb _); [by left|]. pose proof (upsert_effect a p None s) as He.
    by destruct (upsert_locked_certified secret a p None s).
  - unfold upsert_from_admission. destruct (negb _); [by left|]. pose proof (upsert_effect a p admission s) as He.
    by destruct (upsert_locked_certified secret a p admission s) as [[[]|] ?].
  - by apply restore_effect.
  - apply remove_effect.
  - apply revoke_effect.
  - apply revoke_all_effect.
  - apply merge_group_effect.
  - apply group_snapshot_effect.
  - apply confirm_effect.
  - apply flush_effect.
Qed.

(** ** Histories of the store *)

(** Any operation, with any outcome of its file write. *)
Definition step (s s' : PeerStore) : Prop :=
  exists op a, justified op (state s) /\ s' = (perform secret op a s).2.

Lemma effect_good a s s' : effect a s s' ->
  (state_ok (state s) -> state_ok (state s')) /\ revocations_kept (state s) (state s').
Proof.
  intros [->|(w & [Hok Hrev] & Hs & _)]; [split; [done|by intros ?]|]. split.
  - intros Hst. by apply (same_slots_ok w), Hok.
  - destruct (same_slots_fields _ _ Hs) as (_ & Hr & _). intros id. rewrite Hr. apply Hrev.
Qed.

Lemma steps_ok s s' : rtc step s s' -> state_ok (state s) -> state_ok (state s').
Proof.
  induction 1 as [|s s1 s' (op & a & Hj & ->) _ IH]; [done|]. intros Hst.
  apply IH. destruct (effect_good a s _ (perform_effect op a s Hj)) as [Hok _]. by apply Hok.
Qed.

(** A file that does not forget the revocation of [id]. *)
Definition file_cuts (id : string) (s : PeerStore) : Prop :=
  forall st, open_state (file s) secret = Ok st -> is_Some (st_revoked st !! id).

Lemma parse_file_revoked f st : parse_file f = Ok st -> st_revoked st = f_revoked f.
Proof.
  unfold parse_file. rewrite !bind_unit_ok. intros (_ & _ & Hf). rewrite bind_ok in Hf.
  destruct Hf as (? & _ & Hf). rewrite !bind_unit_ok in Hf. by destruct Hf as (_ & _ & _ & [= <-]).
Qed.

Lemma write_cuts `{!StoreLaws} a w b id : is_Some (st_revoked w !! id) -> write_now a w secret = Ok b ->
  forall st, open_state (Contents b) secret = Ok st -> is_Some (st_revoked st !! id).
Proof.
  intros Hid Hb st. rewrite (write_now_reads a w secret b _ Hb). intros Hp. by rewrite (parse_file_revoked _ _ Hp).
Qed.

Lemma effect_cuts `{!StoreLaws} a s s' id : effect a s s' ->
  is_Some (st_revoked (state s) !! id) -> file_cuts id s -> file_cuts id s'.
Proof.
  intros [->|(w & [_ Hrev] & _ & [(_ & b & Hb & Hf)|[_ Hf]])] Hid Hc; unfold file_cuts; [done| |by rewrite Hf].
  rewrite Hf. by apply (write_cuts a w b id (Hrev id Hid) Hb).
Qed.

Lemma elem_of_psks s id psk : (id, psk) ∈ psks s <->
  exists p, p ∈ peer_values (st_peers (state s)) /\ outdated (state s) p = false /\
    id = Peer.pairing_id p /\ psk = Peer.psk p.
Proof.
  unfold psks. rewrite list_elem_of_fmap. split.
  - intros (p & [= -> ->] & Hp). rewrite merge_sort_Permutation in Hp.
    apply list_elem_of_In, List.filter_In in Hp as [Hp Ho]. exists p. split_and!; [by apply list_elem_of_In| |done|done].
    by apply negb_true_iff.
  - intros (p & Hp & Ho & -> & ->). exists p. split; [done|]. rewrite merge_sort_Permutation.
    apply list_elem_of_In, List.filter_In. split; [by apply list_elem_of_In|by rewrite Ho].
Qed.
Lemma elem_of_values s p : p ∈ peer_values (st_peers (state s)) <-> exists id, st_peers (state s) !! id = Some p.
Proof.
  rewrite peer_values_perm, list_elem_of_fmap. split.
  - intros ([id q] & -> & Hq%elem_of_map_to_list). by exists id.
  - intros [id Hp]. exists (id, p). split; [done|]. by apply elem_of_map_to_list.
Qed.

Lemma revoke_ok `{!StoreLaws} a id now s b s1 : revoke secret a id now s = (Ok b, s1) ->
  is_Some (st_revoked (state s1) !! id) /\ file_cuts id s1.
Proof.
  unfold revoke. destruct (_ ← validate_pairing_id id; _) as [st1|e]; [|done].
  pose proof (persist_cases a (cut_off id now st1) s) as Hc.
  destruct (persist secret a _ s) as [[[]|e] s2]; [|done]. destruct Hc as (_ & _ & _ & b' & Hb & Hf). intros [= _ <-]. split.
  - destruct (same_slots_fields _ _ (bump_slots (cut_off id now st1) id)) as (_ & Hr & _).
    change (is_Some (st_revoked (bump (cut_off id now st1) id) !! id)). rewrite Hr. cbn. rewrite lookup_insert_eq. by eexists.
  - unfold file_cuts. cbn. rewrite Hf. eapply write_cuts; [|exact Hb]. cbn. rewrite lookup_insert_eq. by eexists.
Qed.

(** ** Failure *)

Lemma perform_fails op a s e s' :
  (forall sn, op <> OpRestore sn) -> perform secret op a s = (Err e, s') -> s' = s.
Proof.
  intros Hop. destruct op; cbn [perform].
  - apply upsert_rolls_back.
  - unfold touch. destruct (negb _); [done|].
    destruct (upsert_locked_certified secret a p None s) as [[[]|e'] s1] eqn:E; cbn; [done|].
    intros [= _ <-]. by eapply upsert_rolls_back.
  - unfold upsert_from_admission. destruct (negb _); [by intros [= _ <-]|].
    destruct (upsert_locked_certified secret a p admission s) as [[[]|e'] s1] eqn:E; [done|].
    intros [= _ <-]. by eapply upsert_rolls_back.
  - by destruct (Hop sn).
  - destruct (remove secret a id s) as [[b|e'] s1] eqn:E; cbn; [done|]. intros [= _ <-]. by eapply remove_rolls_back.
  - destruct (revoke secret a id now_ms s) as [[b|e'] s1] eqn:E; cbn; [done|]. intros [= _ <-]. by eapply revoke_rolls_back.
  - destruct (revoke_all secret a now_ms s) as [[b|e'] s1] eqn:E; cbn; [done|]. intros [= _ <-]. by eapply revoke_all_rolls_back.
  - destruct (merge_group secret a sn pairing_id explicit s) as [[b|e'] s1] eqn:E; cbn; [done|].
    intros [= _ <-]. by eapply merge_group_rolls_back.
  - destruct (group_snapshot secret a random id name_ p addr s) as [[b|e'] s1] eqn:E; cbn; [done|].
    intros [= _ <-]. by eapply group_snapshot_rolls_back.
  - apply confirm_rolls_back.
  - unfold flush. destruct (negb (unflushed s)); [done|]. pose proof (persist_cases a (state s) s) as Hc.
    destruct (persist secret a (state s) s) as [[[]|e'] s1]; [done|]. by intros [= _ <-].
Qed.

(** A caller is never told less than what happened.  An operation that
    reports an error, other than the rollback of a ceremony, leaves memory, the
    file and every counter exactly as they were. *)
Theorem failed_operation_changes_nothing op a s e s' :
  (forall sn, op <> OpRestore sn) -> perform secret op a s = (Err e, s') -> s' = s.
Proof. apply perform_fails. Qed.

(** *** The rollback of a ceremony *)

Lemma restore_slot a sn s id : st_peers (state (restore secret a sn s).2) !! id =
  map_put (sn_pairing_id sn) (restored sn (state s)) (st_peers (state s)) !! id.
Proof.
  unfold restore, persist_unflushed. set (st' := bump _ _).
  assert (Hs : st_peers st' = map_put (sn_pairing_id sn) (restored sn (state s)) (st_peers (state s))).
  { destruct (same_slots_fields _ _ (bump_slots (with_slot_restored sn (state s)) (sn_pairing_id sn))) as [Hp _].
    subst st'. rewrite Hp. unfold with_slot_restored. by destruct (_ && _). }
  rewrite <- Hs. pose proof (persist_cases a st' (with_state s st')) as Hc.
  destruct (persist secret a st' _) as [[[]|e] s1]; cbn; [by destruct Hc as (-> & _)|by subst s1].
Qed.

(** Repudiating a pairing fails closed.  Rolling a ceremony back leaves its
    slot with the credential from before it or with none at all, never with the
    one it wrote; a revoked pairing stays out; no other pairing is touched; and
    all of this whether or not the file could be written. *)
Theorem restore_fails_closed a sn s :
  let s' := (restore secret a sn s).2 in
  (forall p, get_peer s' (sn_pairing_id sn) = Some p ->
     exists q, sn_previous sn = Some q /\ Peer.psk p = Peer.psk q) /\
  (is_Some (st_revoked (state s) !! sn_pairing_id sn) -> get_peer s' (sn_pairing_id sn) = None) /\
  (forall id, id <> sn_pairing_id sn -> get_peer s' id = get_peer s id).
Proof.
  cbn zeta. unfold get_peer. split_and!.
  - intros p. rewrite restore_slot. unfold map_put. destruct (restored sn (state s)) as [q|] eqn:Er; [|by rewrite lookup_delete_eq].
    rewrite lookup_insert_eq. intros [= ->]. unfold restored in Er. destruct (sn_previous sn) as [r|]; [|done].
    exists r. split; [done|]. destruct (contains_key _ _); [done|]. destruct (negb _); [|by injection Er as ->].
    destruct (st_peers (state s) !! _); [|done]. by injection Er as <-.
  - intros Hr. rewrite restore_slot. apply contains_key_true in Hr. unfold restored. rewrite Hr.
    destruct (sn_previous sn); apply lookup_delete_eq.
  - intros id Hne. rewrite restore_slot. unfold map_put.
    destruct (restored sn (state s)); [by apply lookup_insert_ne|by apply lookup_delete_ne].
Qed.

(** ** Memory and file *)

(** The file says what memory says, or the store knows that it does not. *)
Definition synced (s : PeerStore) : Prop :=
  unflushed s = true \/ open_state (file s) secret = parse_file (store_file (state s)).

Lemma effect_synced `{!StoreLaws} a s s' : effect a s s' -> synced s -> synced s'.
Proof.
  intros [->|(w & _ & Hs & [(Hu & b & Hb & Hf)|[Hu _]])] Hsync; [done| |by left].
  right. rewrite Hf, (write_now_reads a w secret b _ Hb).
  destruct (same_slots_fields _ _ Hs) as (_ & _ & _ & ->). done.
Qed.

Lemma steps_synced `{!StoreLaws} s s' : rtc step s s' -> synced s -> synced s'.
Proof.
  induction 1 as [|s s1 s' (op & a & Hj & ->) _ IH]; [done|]. intros Hs.
  apply IH. by eapply effect_synced; [apply perform_effect|].
Qed.

Lemma parse_counters f st : parse_file f = Ok st -> set_generations st ∅ = st.
Proof.
  unfold parse_file. rewrite !bind_unit_ok. intros (_ & _ & Hf). rewrite bind_ok in Hf.
  destruct Hf as (? & _ & Hf). rewrite !bind_unit_ok in Hf. by destruct Hf as (_ & _ & _ & [= <-]).
Qed.

Lemma default_loadable : loadable default_state.
Proof. apply state_ok_loadable; [apply default_ok|by intros g|by vm_compute|by vm_compute]. Qed.

Lemma open_synced r s : open secret r = Ok s -> synced s.
Proof.
  unfold open. rewrite bind_ok. intros (st & Hst & [= <-]). right. cbn [file state]. rewrite Hst.
  destruct r as [| |b]; cbn in Hst; [|done|].
  - injection Hst as <-. rewrite loadable_reload; [done|apply default_loadable].
  - rewrite bind_ok in Hst. destruct Hst as (text & _ & Hp). unfold parse in Hp. rewrite bind_ok in Hp.
    destruct Hp as (f & _ & Hf). rewrite loadable_reload, (parse_counters _ _ Hf); [done|by eapply parse_file_loadable].
Qed.

(** A restart finds what memory had.  After any operations with any
    outcomes of their writes, a store that is not marked as behind reopens to
    exactly its state, write counters aside. *)
Theorem restart_finds_memory `{!StoreLaws} r s s' :
  open secret r = Ok s -> rtc step s s' -> unflushed s' = false -> loadable (state s') ->
  open_state (file s') secret = Ok (set_generations (state s') ∅).
Proof.
  intros Hopen Hsteps Hu Hl. destruct (steps_synced _ _ Hsteps (open_synced _ _ Hopen)) as [Hu'|Hf]; [congruence|].
  by rewrite Hf, loadable_reload.
Qed.

(** ** Credentials *)

(** The key a handshake accepts is the key a session keeps.  In a
    well-formed store that knows its own admission, a pairing's key is offered
    to handshakes exactly when the pairing counts as current. *)
Theorem handshake_keys_are_current_credentials s id :
  state_ok (state s) ->
  (forall g, st_group (state s) = Some g -> exists l, local_admission g = Ok l) ->
  is_current_credential s id = true <-> exists psk, (id, psk) ∈ psks s.
Proof.
  intros [Hok _] Hl. unfold is_current_credential. rewrite andb_true_iff, contains_key_true.
  assert (Hout : forall p, Peer.pairing_id p = id ->
    outdated (state s) p = negb (match st_group (state s) with
      | None => true
      | Some g => active g && match local_admission g with
                              | Ok current => pa_local (admissions_of (state s) id) >=? current
                              | Err _ => false
                              end
      end)).
  { intros p <-. unfold outdated. destruct (st_group (state s)) as [g|]; [|done].
    destruct (Hl g eq_refl) as [l ->]. rewrite negb_andb, Z.geb_leb, <- Z.ltb_antisym. done. }
  split.
  - intros [[p Hp] Hcur]. exists (Peer.psk p). apply elem_of_psks. exists p.
    pose proof (keyed_of _ _ _ Hok Hp) as Hid.
    split_and!; [apply elem_of_values; by exists id|by rewrite (Hout p Hid), Hcur|done|done].
  - intros (psk & (p & Hp & Ho & Hid & _)%elem_of_psks). apply elem_of_values in Hp as [j Hj].
    pose proof (keyed_of _ _ _ Hok Hj) as Hk. rewrite <- Hid in Hk. subst j. split; [by eexists|].
    rewrite (Hout p (eq_sym Hid)) in Ho. by apply negb_false_iff.
Qed.

(** ** The cap [revoke_all] does not check *)

(** With a full revocation list, revoking everything succeeds and is written,
    and the file it leaves is refused by the next start. *)
Lemma revoke_all_overfills `{!StoreLaws} a now s n s' :
  state_ok (state s) -> map_len (st_revoked (state s)) = MAX_REVOCATIONS -> st_group (state s) = None ->
  st_peers (state s) <> ∅ -> revoke_all secret a now s = (Ok n, s') ->
  open_state (file s') secret = Err Corrupt.
Proof.
  intros [Hok _] Hfull Hg Hne. unfold revoke_all. rewrite bool_decide_eq_false_2 by done.
  assert (Hsame : forall ids, remove_devices ids (state s) = Ok (state s)).
  { intros ids. induction ids as [|id ids IH]; [done|]. cbn [remove_devices]. unfold remove_device at 1. by rewrite Hg. }
  rewrite Hsame. pose proof (persist_cases a (cut_off_all now (state s)) s) as Hc.
  destruct (persist secret a _ s) as [[[]|e] s1]; [|done]. destruct Hc as (_ & _ & _ & b & Hb & Hf). intros [= _ <-].
  change (open_state (file s1) secret = Err Corrupt). rewrite Hf, (write_now_reads _ _ _ _ _ Hb).
  destruct (map_choose _ Hne) as (id & p & Hp).
  assert (Hlen : map_len (st_revoked (cut_off_all now (state s))) > MAX_REVOCATIONS).
  { assert (Hlt : (size (dom (st_revoked (state s))) < size (dom (st_revoked (cut_off_all now (state s)))))%nat).
    { apply subset_size. split.
      - intros j. rewrite !elem_of_dom. intros Hj. apply cut_ids_lookup. by left.
      - intros Hsub. specialize (Hsub id). rewrite !elem_of_dom in Hsub.
        assert (Hcut : is_Some (st_revoked (cut_off_all now (state s)) !! id)).
        { apply cut_ids_lookup. right. apply elem_of_pairing_ids. by eexists. }
        apply Hsub, (ok_cut _ Hok) in Hcut. congruence. }
    unfold map_len in *. rewrite !size_dom in Hlt. lia. }
  destruct (parse_file _) as [st|e] eqn:Ep; [|by rewrite (parse_file_err _ _ Ep)].
  pose proof (load_revoked_len _ (parse_file_loadable _ _ Ep)) as Hcap.
  rewrite (parse_file_revoked _ _ Ep) in Hcap. cbn [store_file f_revoked] in Hcap. lia.
Qed.
End Safety.

(** ** Concrete inputs *)
Module StoreDemo.
#[local] Existing Instance FileDemo.json.
#[local] Existing Instance FileDemo.cipher.
#[local] Existing Instance FileDemo.order.
#[local] Existing Instance FileDemo.laws.
#[local] Existing Instance Demo.toy_crypto.
Definition secret := FileDemo.secret.
Definition start : PeerStore := {| state := default_state; unflushed := false; file := Missing; group_revision := 0 |}.
Definition p := FileDemo.peer "p" 7.
Definition q := FileDemo.peer "q" 8.
Definition after (ops : list (Op * bool)) (s : PeerStore) : PeerStore :=
  foldl (fun s op => (perform secret op.1 (FileDemo.attempt op.2) s).2) s ops.
Lemma after_steps ops : forall s,
  Forall (fun op => match op.1 with OpRestore _ => False | _ => True end) ops -> rtc (step secret) s (after ops s).
Proof.
  induction ops as [|[op w] ops IH]; intros s Hops; [done|]. apply Forall_cons in Hops as [Hop Hops].
  eapply rtc_l; [|by apply IH]. exists op, (FileDemo.attempt w). split; [|done]. by destruct op.
Qed.
Definition paired := after [(OpUpsert p, true); (OpUpsert q, true)] start.
(** A ceremony over [q] that wrote another key and is repudiated. *)
Definition sn := snapshot_slot paired "q".
Definition rekeyed := after [(OpUpsert (FileDemo.peer "q" 9), true)] paired.

Lemma paired_ok : state_ok (state paired).
Proof.
  apply (steps_ok secret start); [apply after_steps; repeat constructor|apply default_ok].
Qed.
End StoreDemo.
#[local] Existing Instance FileDemo.json.
#[local] Existing Instance FileDemo.cipher.
#[local] Existing Instance FileDemo.order.
#[local] Existing Instance FileDemo.laws.
#[local] Existing Instance Demo.toy_crypto.

Lemma failed_operation_changes_nothing_witness :
  perform StoreDemo.secret (OpRevoke "p" 5) (FileDemo.attempt false) StoreDemo.paired = (Err Io, StoreDemo.paired).
Proof.
  assert (Hf : exists s', perform StoreDemo.secret (OpRevoke "p" 5) (FileDemo.attempt false) StoreDemo.paired = (Err Io, s')).
  { eexists. vm_compute. reflexivity. }
  destruct Hf as [s' Hf]. rewrite Hf. f_equal.
  apply (failed_operation_changes_nothing StoreDemo.secret (OpRevoke "p" 5) (FileDemo.attempt false) _ Io); [|exact Hf].
  intros sn. discriminate.
Defined.

Lemma restore_fails_closed_witness :
  let s' := (restore StoreDemo.secret (FileDemo.attempt false) StoreDemo.sn StoreDemo.rekeyed).2 in
  get_peer StoreDemo.rekeyed "q" = Some (FileDemo.peer "q" 9) /\ get_peer s' "q" = Some StoreDemo.q /\
  (exists q, sn_previous StoreDemo.sn = Some q /\ Peer.psk StoreDemo.q = Peer.psk q).
Proof.
  assert (Hs : get_peer (restore StoreDemo.secret (FileDemo.attempt false) StoreDemo.sn StoreDemo.rekeyed).2 "q" =
               Some StoreDemo.q) by (vm_compute; reflexivity).
  split; [vm_compute; reflexivity|]. split; [exact Hs|].
  destruct (restore_fails_closed StoreDemo.secret (FileDemo.attempt false) StoreDemo.sn StoreDemo.rekeyed) as [Hk _].
  apply Hk. exact Hs.
Defined.

Lemma restart_finds_memory_witness :
  open_state (file StoreDemo.paired) StoreDemo.secret = Ok (set_generations (state StoreDemo.paired) ∅).
Proof.
  apply (restart_finds_memory StoreDemo.secret Missing StoreDemo.start); [reflexivity| |reflexivity|].
  - apply StoreDemo.after_steps. repeat constructor.
  - apply state_ok_loadable; [apply StoreDemo.paired_ok| |vm_compute; discriminate|vm_compute; discriminate].
    intros g Hg. vm_compute in Hg. discriminate.
Defined.

Lemma handshake_keys_are_current_credentials_witness :
  is_current_credential StoreDemo.paired "q" = true /\ exists psk, ("q"%string, psk) ∈ psks StoreDemo.paired.
Proof.
  assert (Hc : is_current_credential StoreDemo.paired "q" = true) by (vm_compute; reflexivity).
  split; [exact Hc|]. apply (handshake_keys_are_current_credentials StoreDemo.paired "q" StoreDemo.paired_ok); [|exact Hc].
  intros g Hg. vm_compute in Hg. discriminate.
Qed.
