(* ===== verification/Ceremony.v ===== *)
(** The commit of a pairing ceremony
    ([copypaste-p2p/src/node/pairing_ceremony.rs], [persist_bilaterally] and the
    end of [complete_pairing]) among the other operations of the paired-device
    store: what a ceremony saves, takes back or confirms, with any operation of
    [PeerStore.v] in between and any number of restarts, keeps the store well
    formed and lets nobody revoked back in. *)

From S2P Require Import Prelude Bytes Wire Net Peer Group PeerFile PeerStore PeerSafety.

(** ** The commit *)

(** The other device's answer to [Stored]: its verdict, a broken channel, or
    nothing within [PAIRING_COMMIT_TIMEOUT]. *)
Inductive Acknowledged := Answered (ok : bool) | Broken | Elapsed.
Inductive Commit := Both | PeerSilent | PeerRefused | LocalStoreFailed | RollbackFailed.

Definition commit_outcome (stored : bool) (acknowledged : Acknowledged) : Commit :=
  match stored, acknowledged with
  | true, Answered true => Both
  | _, Elapsed => PeerSilent
  | false, _ => LocalStoreFailed
  | true, _ => PeerRefused
  end.
#[export] Instance commit_eq : EqDecision Commit.
Proof. solve_decision. Defined.

Section Protocol.
Context `{GroupCrypto} `{StoreJson} `{PeerCipher} `{PeerOrder}.
Context (secret : key).

(** [persist_bilaterally] up to the exchange: the slot as the ceremony will
    put it back, and whether the peer was saved. *)
Definition store_tentatively (a : Attempt) (slot : PeerSnapshot) (p : Peer.t) (admissions : PairAdmissions)
    (s : PeerStore) : bool * PeerSnapshot * PeerStore :=
  match upsert_from_admission secret a slot p (Some admissions) s with
  | (Ok _, slot, s) => (true, slot, s)
  | (Err _, slot, s) => (false, slot, s)
  end.
(** ... and after it. *)
Definition settle (a : Attempt) (slot : PeerSnapshot) (stored : bool) (acknowledged : Acknowledged)
    (s : PeerStore) : Commit * PeerStore :=
  let outcome := commit_outcome stored acknowledged in
  if stored && negb (bool_decide (outcome = Both)) then
    match restore secret a slot s with
    | (Err _, s) => (RollbackFailed, s)
    | (Ok _, s) => (outcome, s)
    end
  else (outcome, s).
(** The end of [complete_pairing]: only an agreed pairing is confirmed. *)
Definition confirm_agreed (a : Attempt) (outcome : Commit) (pairing_id : string) (s : PeerStore) : PeerStore :=
  match outcome with
  | Both => (confirm_group_admission secret a pairing_id s).2
  | _ => s
  end.

(** ** The store while ceremonies run *)

(** The one commit under way (the pairing slot of [pairing.rs] holds one
    ceremony at a time), with how many operations ran since it tried to save its peer. *)
Inductive Progress :=
| NoCommit
| SlotRead (slot : PeerSnapshot)
| Exchanging (slot : PeerSnapshot) (stored : bool) (since : nat)
| Settled (pairing_id : string) (outcome : Commit).
Record Run := { store : PeerStore; progress : Progress }.
Definition idle (s : PeerStore) : Run := {| store := s; progress := NoCommit |}.

Definition aged (c : Progress) : Progress :=
  match c with Exchanging slot stored n => Exchanging slot stored (S n) | _ => c end.

(** What runs beside a ceremony: every operation but the three only its commit
    calls. *)
Definition outside_commit (op : Op) : bool :=
  match op with OpUpsertFrom _ _ _ | OpRestore _ | OpConfirm _ => false | _ => true end.

Inductive run_step : Run -> Run -> Prop :=
| step_operation s c op a :
    outside_commit op = true ->
    run_step {| store := s; progress := c |} {| store := (perform secret op a s).2; progress := aged c |}
| step_read_slot s id :
    String.prefix GROUP_PAIRING_PREFIX id = false ->
    run_step (idle s) {| store := s; progress := SlotRead (snapshot_slot s id) |}
| step_store s slot a p admissions :
    Peer.pairing_id p = sn_pairing_id slot ->
    run_step {| store := s; progress := SlotRead slot |}
      (let '(stored, slot, s) := store_tentatively a slot p admissions s in
       {| store := s; progress := Exchanging slot stored 0 |})
| step_settle s slot stored n a acknowledged :
    Z.of_nat n < 2 ^ 62 ->
    run_step {| store := s; progress := Exchanging slot stored n |}
      (let '(outcome, s) := settle a slot stored acknowledged s in
       {| store := s; progress := Settled (sn_pairing_id slot) outcome |})
| step_confirm s id outcome a :
    run_step {| store := s; progress := Settled id outcome |} (idle (confirm_agreed a outcome id s))
| step_abandon s c : run_step {| store := s; progress := c |} (idle s)
| step_restart s c s' : open secret (file s) = Ok s' -> run_step {| store := s; progress := c |} (idle s').

(** ** The slot of a running ceremony *)

Definition later (k : nat) (g : Z) : Z := Nat.iter k u64_wrapping_succ g.

Lemma later_add j k g : later j (later k g) = later (j + k) g.
Proof. unfold later. by rewrite Nat.iter_add. Qed.
Lemma later_mod k g : Z.of_nat (S k) < 2 ^ 64 -> later (S k) g = (g + Z.of_nat (S k)) mod 2 ^ 64.
Proof.
  induction k as [|k IH]; intros Hk; [done|].
  change (later (S (S k)) g) with (u64_wrapping_succ (later (S k) g)). rewrite IH by lia.
  unfold u64_wrapping_succ. rewrite Zplus_mod_idemp_l. f_equal. lia.
Qed.
Lemma later_same k g : Z.of_nat k < 2 ^ 64 -> later k g = g -> k = 0%nat.
Proof.
  destruct k as [|k]; [done|]. intros Hk. rewrite later_mod by done. intros Hg. exfalso.
  pose proof (Z.mod_pos_bound (g + Z.of_nat (S k)) (2 ^ 64) ltac:(lia)) as Hb.
  assert (Hz : Z.of_nat (S k) mod 2 ^ 64 = 0).
  { replace (Z.of_nat (S k)) with ((g + Z.of_nat (S k)) - g) by lia.
    rewrite Zminus_mod, Hg, (Z.mod_small g) by lia. by rewrite Z.sub_diag. }
  rewrite Z.mod_small in Hz by lia. lia.
Qed.

(** Between two states the slot of [id] was written at most [n] times, and if it
    was not written at all, it was not emptied. *)
Definition slot_moved (n : nat) (id : string) (st w : State) : Prop :=
  exists k, (k <= n)%nat /\ generation w id = later k (generation st id) /\
    (k = 0%nat -> is_Some (st_peers st !! id) -> is_Some (st_peers w !! id)).

Lemma slot_unmoved n id st w : st_generations w = st_generations st ->
  (is_Some (st_peers st !! id) -> is_Some (st_peers w !! id)) -> slot_moved n id st w.
Proof. intros Hg Hp. exists 0%nat. split_and!; [lia|unfold generation; by rewrite Hg|done]. Qed.
Lemma slot_moved_refl n id st : slot_moved n id st st.
Proof. by apply slot_unmoved. Qed.

Lemma generation_bump id i st : String.prefix GROUP_PAIRING_PREFIX id = false ->
  generation (bump st i) id = if decide (i = id) then later 1 (generation st id) else generation st id.
Proof.
  intros Hid. unfold bump. destruct (String.prefix _ i) eqn:Ei.
  - case_decide; [congruence|done].
  - unfold generation at 1. cbn. case_decide as Hd; [subst i; by rewrite lookup_insert_eq|by rewrite lookup_insert_ne].
Qed.
Lemma peers_bumps ids : forall st, st_peers (foldl bump st ids) = st_peers st.
Proof.
  intros st. by destruct (same_slots_fields _ _ (bumps_slots ids st)) as [-> _].
Qed.
Definition times (id : string) (ids : list string) : nat := length (filter (fun i => i = id) ids).
Lemma generation_bumps id ids : String.prefix GROUP_PAIRING_PREFIX id = false -> forall st,
  generation (foldl bump st ids) id = later (times id ids) (generation st id).
Proof.
  intros Hid. induction ids as [|i ids IH]; intros st; cbn [foldl]; [done|].
  rewrite IH, generation_bump by done. unfold times. rewrite filter_cons. case_decide; [|done].
  rewrite later_add. cbn [length]. f_equal. lia.
Qed.
Lemma times_once id ids : NoDup ids -> (times id ids <= 1)%nat.
Proof.
  intros Hnd. unfold times. apply (NoDup_filter (fun i => i = id)) in Hnd.
  assert (Hall : Forall (fun i => i = id) (filter (fun i => i = id) ids)).
  { apply Forall_forall. by intros i [? _]%list_elem_of_filter. }
  destruct Hnd as [|i l Hi Hl]; [cbn; lia|]. apply Forall_cons in Hall as [-> Hall].
  destruct l as [|j l]; [done|]. apply Forall_cons in Hall as [-> _]. by destruct Hi; left.
Qed.
Lemma times_app id l l' : times id (l ++ l') = (times id l + times id l')%nat.
Proof. unfold times. by rewrite filter_app, length_app. Qed.
Lemma times_none id ids : times id ids = 0%nat -> id ∉ ids.
Proof.
  unfold times. intros Hn Hin. apply length_zero_iff_nil in Hn.
  assert (Hf : id ∈ filter (fun i => i = id) ids) by by apply list_elem_of_filter. rewrite Hn in Hf. by apply elem_of_nil in Hf.
Qed.
Lemma pairing_ids_nodup m : NoDup (pairing_ids m).
Proof. apply NoDup_fst_map_to_list. Qed.

(** A change that bumps its ids, one of which is every slot it empties. *)
Lemma slot_moved_bumps n id st w ids :
  String.prefix GROUP_PAIRING_PREFIX id = false -> st_generations w = st_generations st -> (times id ids <= n)%nat ->
  (id ∉ ids -> is_Some (st_peers st !! id) -> is_Some (st_peers w !! id)) ->
  slot_moved n id st (foldl bump w ids).
Proof.
  intros Hid Hg Hn Hp. exists (times id ids). split_and!; [done| |].
  - rewrite generation_bumps by done. unfold generation. by rewrite Hg.
  - intros Hz. rewrite peers_bumps. apply Hp. by apply times_none.
Qed.
Lemma slot_moved_bump n id st w i :
  String.prefix GROUP_PAIRING_PREFIX id = false -> st_generations w = st_generations st -> (1 <= n)%nat ->
  (i <> id -> is_Some (st_peers st !! id) -> is_Some (st_peers w !! id)) -> slot_moved n id st (bump w i).
Proof.
  intros Hid Hg Hn Hp. apply (slot_moved_bumps n id st w [i]); [done|done| |].
  - etrans; [apply times_once, NoDup_singleton|done].
  - rewrite list_elem_of_singleton. intros Hne. apply Hp. congruence.
Qed.

(** *** What each operation does to a slot *)

Lemma remove_devices_generations ids : forall st w, remove_devices ids st = Ok w -> st_generations w = st_generations st.
Proof.
  induction ids as [|id ids IH]; intros st w; cbn [remove_devices]; [by intros [= <-]|].
  rewrite bind_ok. intros (st1 & Hd & Hw). rewrite (IH _ _ Hw). by apply remove_device_same in Hd as (_ & _ & _ & _ & -> & _).
Qed.
Lemma project_generations st prev w : project st prev = Ok w -> st_generations w = st_generations st.
Proof.
  assert (Hd : forall p adm st w, insert_derived p adm st = Ok w -> st_generations w = st_generations st).
  { intros p adm st1 w1. unfold insert_derived. rewrite !bind_unit_ok. by intros (_ & _ & [= <-]). }
  assert (Hone : forall g p st w, project_peer g prev p st = Ok w -> st_generations w = st_generations st).
  { intros g p st1 w1. unfold project_peer. rewrite bind_unit_ok. intros [_ Hp].
    rewrite bind_ok in Hp. destruct Hp as (device & _ & Hp). rewrite bind_ok in Hp. destruct Hp as (adm & _ & Hp).
    destruct (pairing_of_device st1 p) as [id|]; [|by eapply Hd].
    destruct (_ || _); [|by apply Hd in Hp]. destruct (member_changed _ _ _); [|by injection Hp as <-].
    rewrite bind_ok in Hp. by destruct Hp as (? & _ & [= <-]). }
  assert (Hall : forall g l st w, project_peers g prev l st = Ok w -> st_generations w = st_generations st).
  { intros g l. induction l as [|p l IH]; intros st1 w1; cbn [project_peers]; [by intros [= <-]|].
    rewrite bind_ok. intros (st2 & Hp & Hw). by rewrite (IH _ _ Hw), (Hone _ _ _ _ Hp). }
  unfold project. destruct (st_group st) as [g|]; [|by intros [= <-]].
  destruct (negb (active g)); [by intros [= <-]|]. rewrite bind_ok. intros (derived & _ & Hp).
  rewrite bind_ok in Hp. destruct Hp as (st3 & Hp & [= <-]). by apply Hall in Hp.
Qed.
Lemma merged_state_generations st sn pid explicit w :
  merged_state st sn pid explicit = Ok (Some w) -> st_generations w = st_generations st.
Proof.
  unfold merged_state. rewrite bind_ok. intros (g & _ & Hm).
  rewrite bind_ok in Hm. destruct Hm as ([b next] & Hb & Hm).
  rewrite bind_ok in Hm. destruct Hm as ([c g'] & _ & Hm).
  destruct (negb c && _ && _); [done|]. rewrite bind_ok in Hm. destruct Hm as (w' & Hp & Hm).
  case_match; [|done]. injection Hm as <-. rewrite (project_generations _ _ _ Hp).
  assert (Hn : st_generations next = st_generations st).
  { destruct pid as [id|]; [|by injection Hb as _ <-]. unfold bind_device in Hb.
    rewrite bind_ok in Hb. destruct Hb as (p & _ & Hb). rewrite bind_unit_ok in Hb. by destruct Hb as [_ [= _ <-]]. }
  by destruct pid.
Qed.

Lemma upsert_moves a p adm s id : String.prefix GROUP_PAIRING_PREFIX id = false ->
  slot_moved 2 id (state s) (state (upsert_locked_certified secret a p adm s).2).
Proof.
  intros Hid. destruct (upsert_locked_certified secret a p adm s) as [[[]|e] s'] eqn:E; cbn.
  2: { apply upsert_rolls_back in E as ->. apply slot_moved_refl. }
  assert (Hs : state s' = bump (with_peer (state s) p adm) (Peer.pairing_id p)).
  { unfold upsert_locked_certified in E. destruct (check_upsert _ _ _); [|done]. destruct (_ && _); [by injection E as <-|].
    destruct (persist secret a _ s) as [[[]|e] s1]; [by injection E as <-|done]. }
  rewrite Hs. apply slot_moved_bump; [done|done|lia|]. intros Hne Hp. cbn. by rewrite lookup_insert_ne.
Qed.

(** A saved peer occupies its slot. *)
Lemma upsert_occupies a p adm s s' :
  upsert_locked_certified secret a p adm s = (Ok tt, s') -> is_Some (st_peers (state s') !! Peer.pairing_id p).
Proof.
  unfold upsert_locked_certified. destruct (check_upsert _ _ _); [|done].
  assert (Hb : is_Some (st_peers (bump (with_peer (state s) p adm) (Peer.pairing_id p)) !! Peer.pairing_id p)).
  { destruct (same_slots_fields _ _ (bump_slots (with_peer (state s) p adm) (Peer.pairing_id p))) as [-> _].
    cbn. rewrite lookup_insert_eq. by eexists. }
  destruct (_ && _); [by intros [= <-]|]. destruct (persist secret a _ s) as [[[]|e] s1]; [by intros [= <-]|done].
Qed.

Lemma remove_moves a i s id : String.prefix GROUP_PAIRING_PREFIX id = false ->
  slot_moved 2 id (state s) (state (remove secret a i s).2).
Proof.
  intros Hid. unfold remove. destruct (remove_device _ _) as [st|e] eqn:Ed; [|apply slot_moved_refl].
  pose proof (remove_device_same _ _ _ Ed) as (Hp & _ & _ & _ & Hg & _). destruct (st_peers st !! i) eqn:Ei.
  - destruct (persist secret a _ s) as [[[]|e] s1]; [|apply slot_moved_refl].
    apply (slot_moved_bump _ _ _ (forget_pairing i st)); [done|by rewrite <- Hg|lia|].
    intros Hne Hs. cbn. by rewrite lookup_delete_ne, Hp.
  - cbn. rewrite (remove_absent _ _ _ Ed Ei). apply slot_moved_refl.
Qed.

Lemma revoke_moves a i now s id : String.prefix GROUP_PAIRING_PREFIX id = false ->
  slot_moved 2 id (state s) (state (revoke secret a i now s).2).
Proof.
  intros Hid. destruct (revoke secret a i now s) as [[b|e] s'] eqn:E; cbn.
  2: { apply revoke_rolls_back in E as ->. apply slot_moved_refl. }
  unfold revoke in E. destruct (_ ← validate_pairing_id i; _) as [st1|e] eqn:Ed; [|done].
  rewrite !bind_unit_ok in Ed. destruct Ed as (_ & _ & (Hp & _ & _ & _ & Hg & _)%remove_device_same).
  destruct (persist secret a _ s) as [[[]|e] s1]; [|done]. injection E as _ <-.
  apply (slot_moved_bump _ _ _ (cut_off i now st1)); [done|by rewrite <- Hg|lia|].
  intros Hne Hs. cbn. by rewrite lookup_delete_ne, Hp.
Qed.

Lemma revoke_all_moves a now s id : String.prefix GROUP_PAIRING_PREFIX id = false ->
  slot_moved 2 id (state s) (state (revoke_all secret a now s).2).
Proof.
  intros Hid. destruct (revoke_all secret a now s) as [[b|e] s'] eqn:E; cbn.
  2: { apply revoke_all_rolls_back in E as ->. apply slot_moved_refl. }
  unfold revoke_all in E. case_bool_decide; [injection E as _ <-; apply slot_moved_refl|].
  destruct (remove_devices _ _) as [st|e] eqn:Ed; [|done].
  pose proof (remove_devices_same _ _ _ Ed) as [Hp _]. pose proof (remove_devices_generations _ _ _ Ed) as Hg.
  destruct (persist secret a _ s) as [[[]|e] s1]; [|done]. injection E as _ <-.
  apply slot_moved_bumps; [done|by rewrite <- Hg| |].
  - etrans; [apply times_once, pairing_ids_nodup|lia].
  - intros Hn Hs. destruct Hn. rewrite Hp. by apply elem_of_pairing_ids.
Qed.

Lemma merge_moves a sn pid x s id : String.prefix GROUP_PAIRING_PREFIX id = false ->
  slot_moved 2 id (state s) (state (merge_group secret a sn pid x s).2).
Proof.
  intros Hid. unfold merge_group. destruct (merged_state _ _ _ _) as [[w|]|e] eqn:Em; [|apply slot_moved_refl..].
  pose proof (persist_cases secret a w s) as Hc. destruct (persist secret a w s) as [[[]|e] s1]; [clear Hc|cbn; rewrite Hc; apply slot_moved_refl].
  apply slot_moved_bumps; [done|by eapply merged_state_generations| |].
  - rewrite times_app. pose proof (times_once id _ (pairing_ids_nodup (st_peers (state s)))).
    pose proof (times_once id _ (pairing_ids_nodup (st_peers w))). lia.
  - rewrite elem_of_app, !elem_of_pairing_ids. naive_solver.
Qed.

Lemma group_snapshot_moves a random i n p addr s id :
  slot_moved 2 id (state s) (state (group_snapshot secret a random i n p addr s).2).
Proof.
  unfold group_snapshot. destruct (st_group (state s)) as [g|].
  - destruct (local_matches _ _ _ _ _); [apply slot_moved_refl|].
    destruct (mbind _ _) as [[[[] g'] sn]|e]; [|apply slot_moved_refl..].
    pose proof (persist_cases secret a (set_group (state s) (Some g')) s) as Hc.
    destruct (persist secret a _ s) as [[[]|e] s1]; [by apply slot_unmoved|subst s1; apply slot_moved_refl].
  - destruct (mbind _ _) as [[g' sn]|e]; [|apply slot_moved_refl].
    pose proof (persist_cases secret a (set_group (state s) (Some g')) s) as Hc.
    destruct (persist secret a _ s) as [[[]|e] s1]; [by apply slot_unmoved|subst s1; apply slot_moved_refl].
Qed.

Lemma outside_moves op a s id : String.prefix GROUP_PAIRING_PREFIX id = false -> outside_commit op = true ->
  slot_moved 2 id (state s) (state (perform secret op a s).2).
Proof.
  intros Hid Hop. destruct op; cbn; try done.
  - by apply upsert_moves.
  - unfold touch. destruct (negb _); [apply slot_moved_refl|]. pose proof (upsert_moves a p None s id Hid) as Hm.
    by destruct (upsert_locked_certified secret a p None s).
  - by apply remove_moves.
  - by apply revoke_moves.
  - by apply revoke_all_moves.
  - by apply merge_moves.
  - apply group_snapshot_moves.
  - unfold flush. destruct (negb _); [apply slot_moved_refl|]. pose proof (persist_cases secret a (state s) s) as Hc.
    destruct (persist secret a (state s) s) as [[[]|e] s1]; cbn; [destruct Hc as [-> _]|subst s1]; apply slot_moved_refl.
Qed.

(** *** The file *)

(** What was written of a well-formed state and is accepted is well formed. *)
Lemma reload_ok w st : state_ok w -> parse_file (store_file w) = Ok st -> state_ok st.
Proof.
  intros Hok Hp. pose proof (parse_file_loadable _ _ Hp) as Hl.
  assert (Hf : st_group st = st_group w /\ st_group_admissions st = st_group_admissions w /\ st_revoked st = st_revoked w).
  { clear -Hp. unfold parse_file in Hp. rewrite !bind_unit_ok in Hp. destruct Hp as (_ & _ & Hp).
    rewrite bind_ok in Hp. destruct Hp as (? & _ & Hp). rewrite !bind_unit_ok in Hp. by destruct Hp as (_ & _ & _ & [= <-]). }
  destruct Hf as (Hg & Hga & Hr).
  assert (Hw : loadable w).
  { apply state_ok_loadable; [done| | |].
    - intros g. rewrite <- Hg. apply (load_group _ Hl).
    - rewrite <- Hga. apply (load_group_admissions _ Hl).
    - rewrite <- Hr. apply (load_revoked_len _ Hl). }
  rewrite (loadable_reload _ Hw) in Hp. injection Hp as <-. by apply (state_ok_same w).
Qed.

Definition file_ok (s : PeerStore) : Prop :=
  forall st, open_state (file s) secret = Ok st -> state_ok st.

Lemma effect_store_ok `{!StoreLaws} a s s' : effect secret a s s' ->
  state_ok (state s) -> file_ok s -> state_ok (state s') /\ file_ok s'.
Proof.
  intros He Hok Hf. split; [by apply (effect_good secret _ _ _ He)|].
  destruct He as [->|(w & [Hw _] & _ & [(_ & b & Hb & Hc)|[_ Hc]])]; [done| |]; unfold file_ok; rewrite Hc; [|done].
  intros st. rewrite (write_now_reads a w secret b _ Hb). apply reload_ok. by apply Hw.
Qed.

(** *** The invariant *)

(** What a ceremony would put back is a record of this slot ... *)
Definition slot_ok (slot : PeerSnapshot) : Prop :=
  String.prefix GROUP_PAIRING_PREFIX (sn_pairing_id slot) = false /\
  forall p, sn_previous slot = Some p -> Peer.pairing_id p = sn_pairing_id slot /\ peer_validate p = Ok tt.
(** ... and since it saved its peer the slot was written at most twice for each
    operation, and not emptied without a write. *)
Definition slot_since (n : nat) (slot : PeerSnapshot) (st : State) : Prop :=
  exists k, (k <= 2 * n)%nat /\ generation st (sn_pairing_id slot) = later k (sn_generation slot) /\
    (k = 0%nat -> is_Some (st_peers st !! sn_pairing_id slot)).
Definition progress_ok (c : Progress) (st : State) : Prop :=
  match c with
  | NoCommit | Settled _ _ | Exchanging _ false _ => True
  | SlotRead slot => slot_ok slot
  | Exchanging slot true n => slot_ok slot /\ slot_since n slot st
  end.
Record run_ok (r : Run) : Prop := {
  run_state : state_ok (state (store r));
  run_file : file_ok (store r);
  run_progress : progress_ok (progress r) (state (store r));
}.

Lemma slot_restorable n slot st :
  slot_ok slot -> slot_since n slot st -> Z.of_nat n < 2 ^ 62 -> restorable st slot.
Proof.
  intros [_ Hs] (k & Hk & Hg & Ho) Hn. unfold restorable. destruct (sn_previous slot) as [p|]; [|done].
  destruct (Hs p eq_refl) as [Hid Hv]. split_and!; [done|done|]. rewrite Hg. intros Hsame.
  apply Ho. apply later_same in Hsame; [done|]. lia.
Qed.

Lemma slot_since_moved n slot st w :
  slot_since n slot st -> slot_moved 2 (sn_pairing_id slot) st w -> slot_since (S n) slot w.
Proof.
  intros (k & Hk & Hg & Ho) (j & Hj & Hgw & Hw). exists (j + k)%nat. split_and!; [lia| |].
  - by rewrite Hgw, Hg, later_add.
  - intros Hz. apply Hw; [lia|]. apply Ho. lia.
Qed.

Lemma aged_ok c s s' :
  progress_ok c (state s) ->
  (forall id, String.prefix GROUP_PAIRING_PREFIX id = false -> slot_moved 2 id (state s) (state s')) ->
  progress_ok (aged c) (state s').
Proof.
  intros Hc Hm. destruct c as [|slot|slot [] n|id o]; cbn in *; try done.
  destruct Hc as [Hs Hn]. split; [done|]. eapply slot_since_moved; [exact Hn|]. apply Hm, Hs.
Qed.

Lemma idle_ok s : state_ok (state s) -> file_ok s -> run_ok (idle s).
Proof. by split. Qed.

Lemma outside_justified op st : outside_commit op = true -> justified op st.
Proof. by destruct op. Qed.

Lemma slot_snapshot_ok s id : state_ok (state s) -> String.prefix GROUP_PAIRING_PREFIX id = false -> slot_ok (snapshot_slot s id).
Proof. intros [Hok _] Hid. split; [done|]. cbn. intros p. apply (ok_keyed _ Hok). Qed.

Lemma store_tentatively_effect a slot p adm s : effect secret a s (store_tentatively a slot p adm s).2.
Proof.
  pose proof (perform_effect secret (OpUpsertFrom slot p (Some adm)) a s I) as He. cbn in He. unfold store_tentatively.
  by destruct (upsert_from_admission secret a slot p (Some adm) s) as [[[[]|e] slot'] s'].
Qed.
Lemma store_tentatively_since a slot p adm s slot' s' :
  Peer.pairing_id p = sn_pairing_id slot -> store_tentatively a slot p adm s = (true, slot', s') ->
  slot_since 0 slot' (state s') /\ (slot_ok slot -> slot_ok slot').
Proof.
  intros Hp. unfold store_tentatively, upsert_from_admission. destruct (negb _); [done|].
  destruct (upsert_locked_certified secret a p (Some adm) s) as [[[]|e] s1] eqn:Eu; [|done]. intros [= <- <-].
  split; [|done]. exists 0%nat. split_and!; [lia|done|]. intros _. cbn. rewrite <- Hp. by eapply upsert_occupies.
Qed.

Lemma settle_effect n a slot stored acknowledged s :
  progress_ok (Exchanging slot stored n) (state s) -> Z.of_nat n < 2 ^ 62 ->
  effect secret a s (settle a slot stored acknowledged s).2.
Proof.
  intros Hc Hn. unfold settle. destruct stored; [|by left]. cbn [andb]. destruct (negb _); [|by left].
  destruct Hc as [Hs Hw]. pose proof (restore_effect secret a slot s (slot_restorable _ _ _ Hs Hw Hn)) as He.
  by destruct (restore secret a slot s) as [[o|e] s'].
Qed.

(** Every step is an operation on the store, or a restart. *)
Lemma run_step_store r r' : run_step r r' -> progress_ok (progress r) (state (store r)) ->
  (exists a, effect secret a (store r) (store r')) \/ open secret (file (store r)) = Ok (store r').
Proof.
  assert (Hsame : forall s, exists a, effect secret a s s).
  { intros s. exists {| nonce := replicate NONCE_LEN (byte_of 0); nonce_length := length_replicate _ _; taken := true |}. by left. }
  intros Hstep Hc. destruct Hstep as [s c op a Hop|s id Hid|s slot a p adm Hp|s slot stored n a ack Hn|s id o a|s c|s c s' Ho]; cbn in *.
  - left. exists a. by apply perform_effect; destruct op.
  - left. apply Hsame.
  - left. exists a. pose proof (store_tentatively_effect a slot p adm s) as He.
    by destruct (store_tentatively a slot p adm s) as [[stored slot'] s'].
  - left. exists a. pose proof (settle_effect n a slot stored ack s Hc Hn) as He. by destruct (settle a slot stored ack s).
  - left. exists a. destruct o; try (by left). apply confirm_effect.
  - left. apply Hsame.
  - by right.
Qed.

Lemma run_step_progress r r' : run_step r r' -> run_ok r -> progress_ok (progress r') (state (store r')).
Proof.
  intros Hstep [Hok Hf Hc]. destruct Hstep as [s c op a Hop|s id Hid|s slot a p adm Hp|s slot stored n a ack Hn|s id o a|s c|s c s' Ho]; cbn in *; try done.
  - apply (aged_ok c s); [done|]. intros id Hid. by apply outside_moves.
  - by apply slot_snapshot_ok.
  - destruct (store_tentatively a slot p adm s) as [[[] slot'] s'] eqn:E; cbn; [|done].
    destruct (store_tentatively_since _ _ _ _ _ _ _ Hp E) as [Hs Hso]. split; [by apply Hso|done].
  - by destruct (settle a slot stored ack s).
Qed.

Lemma run_step_ok `{!StoreLaws} r r' : run_step r r' -> run_ok r -> run_ok r'.
Proof.
  intros Hstep Hr. pose proof (run_step_progress _ _ Hstep Hr) as Hc. destruct Hr as [Hok Hf Hp].
  destruct (run_step_store _ _ Hstep Hp) as [[a He]|Ho].
  - destruct (effect_store_ok _ _ _ He Hok Hf). by split.
  - unfold open in Ho. rewrite bind_ok in Ho. destruct Ho as (st & Hst & Ho).
    assert (Hs : state (store r') = st /\ file (store r') = file (store r)) by by injection Ho as <-.
    destruct Hs as [Hs Hfile]. split; [rewrite Hs; by apply (Hf st)| |done]. unfold file_ok. by rewrite Hfile.
Qed.

Lemma runs_ok `{!StoreLaws} r r' : rtc run_step r r' -> run_ok r -> run_ok r'.
Proof. induction 1 as [|r r1 r' Hs _ IH]; [done|]. intros Hr. by apply IH, (run_step_ok r). Qed.

Lemma open_ok b s : open secret b = Ok s -> state_ok (state s) -> run_ok (idle s).
Proof.
  intros Ho Hok. apply idle_ok; [done|]. unfold open in Ho. rewrite bind_ok in Ho. destruct Ho as (st & Hst & [= <-]).
  intros w. cbn. rewrite Hst. by intros [= <-].
Qed.

(** Every store a device can have: opened on a first start, or on a file that
    is well formed, and any operations, ceremonies and restarts since. *)
Definition reachable (r : Run) : Prop :=
  exists b s, open secret b = Ok s /\ (b = Missing \/ state_ok (state s)) /\ rtc run_step (idle s) r.

Lemma reachable_ok `{!StoreLaws} r : reachable r -> run_ok r.
Proof.
  intros (b & s & Ho & Hb & Hr). apply (runs_ok _ _ Hr), (open_ok b); [done|].
  destruct Hb as [->|Hb]; [|done]. injection Ho as <-. apply default_ok.
Qed.

(** C40: what decides who may connect stays well formed.  In every store a
    device can have, from a first start or from a well-formed file through any
    operations, whichever file writes fail, any ceremonies, rolled back ones
    included, and any restarts, every record is filed under its own id and
    valid, no revoked id has a record, every certificate belongs to a record and
    there are never more than sixteen records; and so it is with whatever the
    file then opens to.  Runs have one commit under way at a time, as the one
    pairing slot allows; only that commit rolls back, and only its own slot, with
    fewer than 2^62 operations since it saved its peer; only an agreed pairing
    is confirmed; and a pairing it commits has an id that no group derives.  What
    is encrypted and written reads back. *)
Theorem store_stays_well_formed `{!StoreLaws} r :
  reachable r ->
  state_ok (state (store r)) /\
  (forall st, open_state (file (store r)) secret = Ok st -> state_ok st).
Proof. intros Hr. destruct (reachable_ok r Hr). done. Qed.

(** *** Revocation *)

Lemma run_step_cut `{!StoreLaws} id r r' : run_step r r' -> run_ok r ->
  is_Some (st_revoked (state (store r)) !! id) -> file_cuts secret id (store r) ->
  is_Some (st_revoked (state (store r')) !! id) /\ file_cuts secret id (store r').
Proof.
  intros Hstep [_ _ Hp] Hid Hf. destruct (run_step_store _ _ Hstep Hp) as [[a He]|Ho].
  - split; [|by eapply effect_cuts]. by apply (effect_good secret _ _ _ He).
  - unfold open in Ho. rewrite bind_ok in Ho. destruct Ho as (st & Hst & Ho).
    assert (Hs : state (store r') = st /\ file (store r') = file (store r)) by by injection Ho as <-.
    destruct Hs as [Hs Hfile]. unfold file_cuts. rewrite Hs, Hfile. split; [by apply Hf|exact Hf].
Qed.
Lemma runs_cut `{!StoreLaws} id r r' : rtc run_step r r' -> run_ok r ->
  is_Some (st_revoked (state (store r)) !! id) -> file_cuts secret id (store r) ->
  is_Some (st_revoked (state (store r')) !! id).
Proof.
  induction 1 as [|r r1 r' Hs _ IH]; [done|]. intros Hr Hid Hf.
  destruct (run_step_cut id _ _ Hs Hr Hid Hf). by apply IH; [apply (run_step_ok r)|..].
Qed.

(** C39: a revocation is final.  Once [revoke] has returned, no later operation,
    successful file write or failed one, pairing ceremony, rollback or restart
    gives that pairing a record or offers its key to a handshake.  The store
    before the revocation is one a device can have: opened on a first start or
    on a well-formed file, then any operations, ceremonies and restarts, with one
    commit under way at a time, which alone rolls back, and only its own slot,
    with fewer than 2^62 operations since it saved its peer, and alone confirms;
    a pairing it commits has an id that no group derives.  What is encrypted and
    written reads back. *)
Theorem revocation_is_final `{!StoreLaws} r a id now b s r' :
  reachable r -> revoke secret a id now (store r) = (Ok b, s) ->
  rtc run_step {| store := s; progress := aged (progress r) |} r' ->
  get_peer (store r') id = None /\ id ∉ (psks (store r')).*1.
Proof.
  intros Hr Hrev Hruns. destruct (revoke_ok secret a id now (store r) b s Hrev) as [Hcut Hfile].
  assert (Hstep : run_step r {| store := s; progress := aged (progress r) |}).
  { destruct r as [s0 c]. pose proof (step_operation s0 c (OpRevoke id now) a eq_refl) as Hs. cbn in Hs, Hrev.
    by rewrite Hrev in Hs. }
  pose proof (run_step_ok _ _ Hstep (reachable_ok r Hr)) as Hok.
  pose proof (runs_cut id _ _ Hruns Hok Hcut Hfile) as Hcut'.
  destruct (runs_ok _ _ Hruns Hok) as [[Hst _] _ _]. pose proof (ok_cut _ Hst id Hcut') as Hnone. split; [done|].
  rewrite list_elem_of_fmap. intros ([i psk] & -> & Hin). apply elem_of_psks in Hin as (p & Hp & _ & Hid & _).
  apply elem_of_values in Hp as [j Hj]. destruct (ok_keyed _ Hst _ _ Hj) as [Hk _]. cbn in *. congruence.
Qed.
End Protocol.

(** ** Concrete inputs *)

Module CeremonyDemo.
#[local] Existing Instance Demo.toy_crypto.
#[local] Existing Instance FileDemo.cipher.
#[local] Existing Instance FileDemo.order.
#[local] Existing Instance FileDemo.store_file_eq.
(** A spelling of files of bare records with their certificates. *)
Definition spell (f : StoreFile) : bytes :=
  byte_of 123 :: encode_bytes (f_revoked f,
    (fun e => (e.1, (pa_local e.2, pa_remote e.2))) <$> map_to_list (f_pair_admissions f),
    (fun p => (Peer.pairing_id p, byte_val (hd (byte_of 0) (Peer.psk p)))) <$> f_peers f).
Definition unspell (b : bytes) : option StoreFile :=
  '(rv, pa, ps) ← decode_bytes (tl b)
    : option (gmap string Z * list (string * (Z * Z)) * list (string * Z));
  Some {| f_pair_admissions := list_to_map ((fun e => (e.1, {| pa_local := e.2.1; pa_remote := e.2.2 |})) <$> pa);
          f_group_admissions := ∅; f_group := None;
          f_peers := (fun e => FileDemo.peer e.1 e.2) <$> ps; f_revoked := rv |}.
#[local] Instance json : StoreJson := {|
  to_vec_pretty f := if bool_decide (unspell (spell f) = Some f) then Some (spell f) else None;
  from_slice := unspell |}.
#[local] Instance laws : StoreLaws.
Proof.
  split; cbn.
  - intros f b. case_bool_decide as Hf; [|done]. by intros [= <-].
  - intros k n m c [= <-]. rewrite length_app. cbn [length]. rewrite Nat.add_sub. by rewrite take_app_length.
  - intros k n m c [= <-]. by rewrite length_app.
Qed.
Definition secret := FileDemo.secret.
Definition peer := FileDemo.peer.
Definition start : PeerStore := {| state := default_state; unflushed := false; file := Missing; group_revision := 0 |}.
Definition after (op : Op) (s : PeerStore) : PeerStore := (perform secret op (FileDemo.attempt true) s).2.
Definition paired : PeerStore := after (OpUpsert (peer "q" 8)) (after (OpUpsert (peer "p" 7)) start).
(** A ceremony over [q] writes another key ... *)
Definition tentative := store_tentatively secret (FileDemo.attempt true) (snapshot_slot paired "q") (peer "q" 9)
  {| pa_local := 1; pa_remote := 1 |} paired.
(** ... while [p] is revoked, and the other device never answers. *)
Definition cut : PeerStore := after (OpRevoke "p" 5) tentative.2.
Definition undone := settle secret (FileDemo.attempt true) tentative.1.2 true Elapsed cut.
Definition restarted : PeerStore :=
  match open secret (file undone.2) with Ok s => s | Err _ => start end.

Lemma to_tentative : rtc (run_step secret) (idle start)
  {| store := tentative.2; progress := Exchanging tentative.1.2 true 0 |}.
Proof.
  eapply rtc_l; [apply (step_operation secret _ _ (OpUpsert (peer "p" 7)) (FileDemo.attempt true)); reflexivity|].
  eapply rtc_l; [apply (step_operation secret _ _ (OpUpsert (peer "q" 8)) (FileDemo.attempt true)); reflexivity|].
  eapply rtc_l; [apply (step_read_slot secret paired "q"); reflexivity|].
  apply rtc_once.
  assert (Ht : tentative.1.1 = true) by (vm_compute; reflexivity).
  pose proof (step_store secret paired (snapshot_slot paired "q") (FileDemo.attempt true) (peer "q" 9)
    {| pa_local := 1; pa_remote := 1 |} eq_refl) as Hs.
  fold tentative in Hs. destruct tentative as [[stored slot] s]. cbn in Ht. subst stored. exact Hs.
Qed.
Lemma from_cut : rtc (run_step secret) {| store := cut; progress := Exchanging tentative.1.2 true 1 |} (idle restarted).
Proof.
  eapply rtc_l; [apply (step_settle secret cut tentative.1.2 true 1 (FileDemo.attempt true) Elapsed); lia|].
  fold undone. destruct undone as [o s] eqn:E. apply rtc_once, step_restart. unfold restarted. rewrite E. cbn.
  assert (Ho : exists s', open secret (file undone.2) = Ok s') by (eexists; vm_compute; reflexivity).
  rewrite E in Ho. cbn in Ho. destruct Ho as [s' ->]. done.
Qed.
Lemma tentative_reachable : reachable secret {| store := tentative.2; progress := Exchanging tentative.1.2 true 0 |}.
Proof. exists Missing, start. split_and!; [done|by left|apply to_tentative]. Qed.
Lemma restarted_reachable : reachable secret (idle restarted).
Proof.
  destruct tentative_reachable as (b & s & Ho & Hb & Hr). exists b, s. split_and!; [done|done|].
  etrans; [exact Hr|]. eapply rtc_l; [|apply from_cut].
  exact (step_operation secret tentative.2 (Exchanging tentative.1.2 true 0) (OpRevoke "p" 5) (FileDemo.attempt true) eq_refl).
Qed.
End CeremonyDemo.
#[local] Existing Instance Demo.toy_crypto.
#[local] Existing Instance FileDemo.cipher.
#[local] Existing Instance FileDemo.order.
#[local] Existing Instance CeremonyDemo.json.
#[local] Existing Instance CeremonyDemo.laws.

(** The key of the ceremony is live while it runs, and gone after its rollback
    and a restart. *)
Lemma store_stays_well_formed_witness :
  get_peer CeremonyDemo.tentative.2 "q" = Some (FileDemo.peer "q" 9) /\
  CeremonyDemo.undone.1 = PeerSilent /\
  get_peer CeremonyDemo.restarted "q" = Some (FileDemo.peer "q" 8) /\
  state_ok (state CeremonyDemo.restarted).
Proof.
  split; [vm_compute; reflexivity|]. split; [vm_compute; reflexivity|]. split; [vm_compute; reflexivity|].
  destruct (store_stays_well_formed CeremonyDemo.secret _ CeremonyDemo.restarted_reachable) as [Hok _]. exact Hok.
Defined.

Lemma revocation_is_final_witness :
  get_peer CeremonyDemo.tentative.2 "p" = Some (FileDemo.peer "p" 7) /\
  get_peer CeremonyDemo.restarted "p" = None /\ "p"%string ∉ (psks CeremonyDemo.restarted).*1.
Proof.
  split; [vm_compute; reflexivity|].
  assert (Hrev : revoke CeremonyDemo.secret (FileDemo.attempt true) "p" 5 CeremonyDemo.tentative.2 = (Ok true, CeremonyDemo.cut)).
  { vm_compute. reflexivity. }
  exact (revocation_is_final CeremonyDemo.secret _ _ _ _ _ _ _ CeremonyDemo.tentative_reachable Hrev CeremonyDemo.from_cut).
Defined.
