(* ===== verification/Table.v ===== *)
(** The tables of the local history database
    ([copypaste-core/src/storage/migrations/*.sql], [storage/model.rs]): the
    columns, the unique index, the triggers, and the statements the operations
    of [Items.v], [Versions.v] and [Retention.v] are made of.

    A table is a map from its primary key.  A statement is a function on the
    tables; one that a constraint can refuse returns [None] and changes nothing,
    as SQLite undoes a failed statement.  A transaction that ends in an error is
    rolled back, so the operations return the state they started from.  Tables
    that only caches read ([resource_revisions], the preview cache) and the
    bookkeeping of file operations are not represented. *)

From S2P Require Import Prelude Float64 Bytes Text Wire Payload.

(** ** Rows *)

(** One row of [clipboard_items]. *)
Record Row := {
  r_id : string;
  r_ciphertext : option bytes;
  r_nonce : option bytes;
  r_type : string;
  r_hash : string;
  r_pinned : bool;
  r_pin_order : option f64;
  r_pin_at : Z;
  r_created_at : Z;
  r_deleted : bool;
  r_origin : string;
  r_app_id : option string;
  r_app_name : option string;
  r_metadata : option string;
  r_fts : option Z;
  r_icon : option string;
  r_bytes : Z;
  r_rowid : Z;
}.

(** The assignments of an [UPDATE ... SET], a group of columns each. *)
Definition set_stamp (v : Z) (r : Row) : Row :=
  {| r_id := r_id r; r_ciphertext := r_ciphertext r; r_nonce := r_nonce r; r_type := r_type r;
     r_hash := r_hash r; r_pinned := r_pinned r; r_pin_order := r_pin_order r; r_pin_at := r_pin_at r;
     r_created_at := v; r_deleted := r_deleted r; r_origin := r_origin r; r_app_id := r_app_id r;
     r_app_name := r_app_name r; r_metadata := r_metadata r; r_fts := r_fts r; r_icon := r_icon r;
     r_bytes := r_bytes r; r_rowid := r_rowid r |}.
Definition set_source (a n i : option string) (r : Row) : Row :=
  {| r_id := r_id r; r_ciphertext := r_ciphertext r; r_nonce := r_nonce r; r_type := r_type r;
     r_hash := r_hash r; r_pinned := r_pinned r; r_pin_order := r_pin_order r; r_pin_at := r_pin_at r;
     r_created_at := r_created_at r; r_deleted := r_deleted r; r_origin := r_origin r; r_app_id := a;
     r_app_name := n; r_metadata := r_metadata r; r_fts := r_fts r; r_icon := i;
     r_bytes := r_bytes r; r_rowid := r_rowid r |}.
Definition set_metadata (m : option string) (b : Z) (r : Row) : Row :=
  {| r_id := r_id r; r_ciphertext := r_ciphertext r; r_nonce := r_nonce r; r_type := r_type r;
     r_hash := r_hash r; r_pinned := r_pinned r; r_pin_order := r_pin_order r; r_pin_at := r_pin_at r;
     r_created_at := r_created_at r; r_deleted := r_deleted r; r_origin := r_origin r;
     r_app_id := r_app_id r; r_app_name := r_app_name r; r_metadata := m; r_fts := r_fts r;
     r_icon := r_icon r; r_bytes := b; r_rowid := r_rowid r |}.
Definition set_fts (f : option Z) (r : Row) : Row :=
  {| r_id := r_id r; r_ciphertext := r_ciphertext r; r_nonce := r_nonce r; r_type := r_type r;
     r_hash := r_hash r; r_pinned := r_pinned r; r_pin_order := r_pin_order r; r_pin_at := r_pin_at r;
     r_created_at := r_created_at r; r_deleted := r_deleted r; r_origin := r_origin r;
     r_app_id := r_app_id r; r_app_name := r_app_name r; r_metadata := r_metadata r; r_fts := f;
     r_icon := r_icon r; r_bytes := r_bytes r; r_rowid := r_rowid r |}.
Definition set_pin (p : bool) (o : option f64) (at_ : Z) (r : Row) : Row :=
  {| r_id := r_id r; r_ciphertext := r_ciphertext r; r_nonce := r_nonce r; r_type := r_type r;
     r_hash := r_hash r; r_pinned := p; r_pin_order := o; r_pin_at := at_;
     r_created_at := r_created_at r; r_deleted := r_deleted r; r_origin := r_origin r;
     r_app_id := r_app_id r; r_app_name := r_app_name r; r_metadata := r_metadata r;
     r_fts := r_fts r; r_icon := r_icon r; r_bytes := r_bytes r; r_rowid := r_rowid r |}.
(** [SET deleted = 1, content_ciphertext = NULL, content_bytes = 0, nonce = NULL,
    ...]: what every soft delete clears.  A sweep names only rows that are not
    pinned, so the flag is down afterwards in both. *)
Definition set_tombstone (r : Row) : Row :=
  {| r_id := r_id r; r_ciphertext := None; r_nonce := None; r_type := r_type r;
     r_hash := r_hash r; r_pinned := false; r_pin_order := None; r_pin_at := r_pin_at r;
     r_created_at := r_created_at r; r_deleted := true; r_origin := r_origin r;
     r_app_id := None; r_app_name := None; r_metadata := None;
     r_fts := None; r_icon := None; r_bytes := 0; r_rowid := r_rowid r |}.
Definition set_icon (i : option string) (r : Row) : Row :=
  set_source (r_app_id r) (r_app_name r) i r.

(** A row of [source_app_icons], of [organization_records] and of
    [history_pin_state]. *)
Record IconRow := { ic_asset : SourceAppIconMetadata; ic_updated_at : Z }.
Record OrganizationRow := {
  o_id : string; o_ciphertext : bytes; o_nonce : bytes; o_hash : string;
  o_created_at : Z; o_origin : string;
}.
Record PinState := { ps_pinned : bool; ps_order : option f64; ps_updated_at : Z }.

Record Store := {
  items : gmap string Row;
  live_count : Z;
  fts : gmap Z (string * string);
  search_documents : gset string;
  icons : gmap string IconRow;
  shared_payloads : gmap string bytes;
  file_payloads : gmap string string;
  transfer_bytes : gmap string Z;
  organization : gmap string OrganizationRow;
  tags : gmap string (string * bool);
  clip_tags : gmap (string * string) bool;
  pin_states : gmap string PinState;
}.

Definition with_items (m : gmap string Row) (s : Store) : Store :=
  {| items := m; live_count := live_count s; fts := fts s; search_documents := search_documents s;
     icons := icons s; shared_payloads := shared_payloads s; file_payloads := file_payloads s;
     transfer_bytes := transfer_bytes s; organization := organization s; tags := tags s;
     clip_tags := clip_tags s; pin_states := pin_states s |}.
Definition with_live_count (n : Z) (s : Store) : Store :=
  {| items := items s; live_count := n; fts := fts s; search_documents := search_documents s;
     icons := icons s; shared_payloads := shared_payloads s; file_payloads := file_payloads s;
     transfer_bytes := transfer_bytes s; organization := organization s; tags := tags s;
     clip_tags := clip_tags s; pin_states := pin_states s |}.
Definition with_fts (m : gmap Z (string * string)) (s : Store) : Store :=
  {| items := items s; live_count := live_count s; fts := m; search_documents := search_documents s;
     icons := icons s; shared_payloads := shared_payloads s; file_payloads := file_payloads s;
     transfer_bytes := transfer_bytes s; organization := organization s; tags := tags s;
     clip_tags := clip_tags s; pin_states := pin_states s |}.
Definition with_documents (d : gset string) (s : Store) : Store :=
  {| items := items s; live_count := live_count s; fts := fts s; search_documents := d;
     icons := icons s; shared_payloads := shared_payloads s; file_payloads := file_payloads s;
     transfer_bytes := transfer_bytes s; organization := organization s; tags := tags s;
     clip_tags := clip_tags s; pin_states := pin_states s |}.
Definition with_icons (m : gmap string IconRow) (s : Store) : Store :=
  {| items := items s; live_count := live_count s; fts := fts s; search_documents := search_documents s;
     icons := m; shared_payloads := shared_payloads s; file_payloads := file_payloads s;
     transfer_bytes := transfer_bytes s; organization := organization s; tags := tags s;
     clip_tags := clip_tags s; pin_states := pin_states s |}.
Definition with_payloads (b : gmap string bytes) (l : gmap string string) (t : gmap string Z)
    (s : Store) : Store :=
  {| items := items s; live_count := live_count s; fts := fts s; search_documents := search_documents s;
     icons := icons s; shared_payloads := b; file_payloads := l;
     transfer_bytes := t; organization := organization s; tags := tags s;
     clip_tags := clip_tags s; pin_states := pin_states s |}.
Definition with_organization (m : gmap string OrganizationRow) (s : Store) : Store :=
  {| items := items s; live_count := live_count s; fts := fts s; search_documents := search_documents s;
     icons := icons s; shared_payloads := shared_payloads s; file_payloads := file_payloads s;
     transfer_bytes := transfer_bytes s; organization := m; tags := tags s;
     clip_tags := clip_tags s; pin_states := pin_states s |}.
Definition with_tags (t : gmap string (string * bool)) (c : gmap (string * string) bool)
    (p : gmap string PinState) (s : Store) : Store :=
  {| items := items s; live_count := live_count s; fts := fts s; search_documents := search_documents s;
     icons := icons s; shared_payloads := shared_payloads s; file_payloads := file_payloads s;
     transfer_bytes := transfer_bytes s; organization := organization s; tags := t;
     clip_tags := c; pin_states := p |}.

Definition empty_store : Store :=
  {| items := ∅; live_count := 0; fts := ∅; search_documents := ∅; icons := ∅;
     shared_payloads := ∅; file_payloads := ∅; transfer_bytes := ∅; organization := ∅;
     tags := ∅; clip_tags := ∅; pin_states := ∅ |}.

(** ** The dedup index

    [idx_items_dedup], as migration 004 leaves it: unique over live rows with a
    hash, except imported files.  [LIKE] ignores the case of ASCII letters;
    integer division truncates. *)
Definition DEDUP_WINDOW_MS : Z := 60000.
Definition like_import (id : string) : bool :=
  starts_with (as_bytes "file-import-") (ascii_lower <$> as_bytes id).
Definition dedup_key (r : Row) : option (string * string * Z * string) :=
  if negb (r_deleted r) && negb (String.eqb (r_hash r) "") && negb (like_import (r_id r))
  then Some (r_hash r, r_type r, Z.quot (r_created_at r) DEDUP_WINDOW_MS, r_origin r)
  else None.
Definition rows (s : Store) : list Row := snd <$> map_to_list (items s).
(** Another row holds the key of [r]. *)
Definition dedup_clash (r : Row) (s : Store) : bool :=
  match dedup_key r with
  | None => false
  | Some k => existsb (fun q => negb (String.eqb (r_id q) (r_id r))
                                && bool_decide (dedup_key q = Some k)) (rows s)
  end.

(** ** Triggers *)

Definition is_live (r : Row) : bool := negb (r_deleted r).
Definition opt_live (o : option Row) : Z :=
  match o with Some r => if is_live r then 1 else 0 | None => 0 end.
(** [clipboard_live_count_insert], [_delete] and [_update]. *)
Definition count_live (old new : option Row) (s : Store) : Store :=
  with_live_count (live_count s + opt_live new - opt_live old) s.

(** [source_icon_release_update], [source_icon_release_delete], and
    [release_unused] of [storage/source_icons.rs]. *)
Definition icon_used (i : string) (s : Store) : bool :=
  existsb (fun r => bool_decide (r_icon r = Some i)) (rows s).
Definition release_unused (o : option string) (s : Store) : Store :=
  match o with
  | Some i => if icon_used i s then s else with_icons (delete i (icons s)) s
  | None => s
  end.
Definition old_icon (old new : option Row) : option string :=
  i ← (r ← old; r_icon r);
  if bool_decide ((r ← new; r_icon r) = Some i) then None else Some i.

(** [history_file_release_update], [history_file_release_delete] and
    [history_file_blob_release]; [file_transfer_release_update] and
    [file_transfer_release_delete]. *)
Definition blob_used (b : string) (l : gmap string string) : bool :=
  existsb (fun p => String.eqb p.2 b) (map_to_list l).
Definition release_payload (id : string) (s : Store) : Store :=
  let l := delete id (file_payloads s) in
  let b := match file_payloads s !! id with
           | Some blob => if blob_used blob l then shared_payloads s
                          else delete blob (shared_payloads s)
           | None => shared_payloads s
           end in
  with_payloads b l (delete id (transfer_bytes s)) s.
Definition payload_changed (old new : option Row) : bool :=
  match old with
  | Some o => match new with
              | Some n => negb (bool_decide (r_ciphertext o = r_ciphertext n))
              | None => true
              end
  | None => false
  end.
Definition after_change (id : string) (old new : option Row) (s : Store) : Store :=
  let s := release_unused (old_icon old new) (count_live old new s) in
  if payload_changed old new then release_payload id s else s.

(** ** Statements *)

(** A row written under its primary key, and the triggers that follow. *)
Definition write_row (r : Row) (s : Store) : Store :=
  after_change (r_id r) (items s !! r_id r) (Some r) (with_items (<[r_id r := r]> (items s)) s).
(** [DELETE FROM clipboard_items WHERE id = ...]; the foreign keys cascade to the
    search documents. *)
Definition drop_row (id : string) (s : Store) : Store :=
  match items s !! id with
  | Some r => after_change id (Some r) None
                (with_documents (search_documents s ∖ {[id]}) (with_items (delete id (items s)) s))
  | None => s
  end.
(** An [INSERT ... ON CONFLICT(id) DO UPDATE] or an [UPDATE] of one row: refused
    by the dedup index. *)
Definition upsert_row (r : Row) (s : Store) : option Store :=
  if dedup_clash r s then None else Some (write_row r s).
(** A plain [INSERT]: refused by the primary key as well. *)
Definition insert_row (r : Row) (s : Store) : option Store :=
  match items s !! r_id r with Some _ => None | None => upsert_row r s end.
(** [UPDATE ... WHERE id = ?1 AND deleted = 0] for columns no index constrains. *)
Definition update_live (id : string) (f : Row -> Row) (s : Store) : Store :=
  match items s !! id with
  | Some r => if r_deleted r then s else write_row (f r) s
  | None => s
  end.

(** The next [rowid] of a table without [AUTOINCREMENT]. *)
Definition fresh_key {A} (m : gmap Z A) : Z := map_fold (fun k _ n => Z.max k n) 0 m + 1.
Definition next_rowid (s : Store) : Z := foldr (fun r n => Z.max (r_rowid r) n) 0 (rows s) + 1.

(** [delete_fts_row_in_tx] and [insert_fts_in_tx] of [storage/search.rs]. *)
Definition delete_fts_row_in_tx (id : string) (s : Store) : Store :=
  match (r ← items s !! id; r_fts r) with
  | Some k => with_fts (delete k (fts s)) s
  | None => s
  end.
Definition insert_fts_in_tx (id text content_type : string) (s : Store) : option Z * Store :=
  if is_text content_type
  then let k := fresh_key (fts s) in (Some k, with_fts (<[k := (id, text)]> (fts s)) s)
  else (None, s).
(** [DELETE FROM module_search_documents / module_search_vectors WHERE item_id]. *)
Definition delete_documents (id : string) (s : Store) : Store :=
  with_documents (search_documents s ∖ {[id]}) s.

(** SQL's [LENGTH]: bytes of a BLOB, characters of a TEXT. *)
Definition blob_length (b : option bytes) : Z := match b with Some b => len b | None => 0 end.
Definition char_length (s : string) : Z :=
  len (List.filter (fun b => negb (continuation b)) (as_bytes s)).
Definition text_length (o : option string) : Z :=
  match o with Some s => char_length s | None => 0 end.
(** [content_bytes_sql!] of [storage/content_bytes.rs]. *)
Definition content_bytes_sql (metadata : option string) (r : Row) (s : Store) : Z :=
  blob_length (r_ciphertext r) + match metadata with Some j => str_len j | None => 0 end
  + match transfer_bytes s !! r_id r with Some n => n | None => 0 end
  + blob_length (b ← file_payloads s !! r_id r; shared_payloads s !! b).

(** ** What a statement changes *)

Lemma release_unused_frame o s :
  items (release_unused o s) = items s /\ fts (release_unused o s) = fts s /\
  live_count (release_unused o s) = live_count s /\
  search_documents (release_unused o s) = search_documents s.
Proof. destruct o; cbn; [case_match|]; done. Qed.

Lemma after_change_frame id old new s :
  items (after_change id old new s) = items s /\ fts (after_change id old new s) = fts s /\
  live_count (after_change id old new s) = live_count s + opt_live new - opt_live old /\
  search_documents (after_change id old new s) = search_documents s.
Proof.
  unfold after_change.
  destruct (release_unused_frame (old_icon old new) (count_live old new s)) as (Hi & Hf & Hl & Hd).
  case_match; cbn; rewrite ?Hi, ?Hf, ?Hl, ?Hd; done.
Qed.

Section Writes.
Implicit Types (s : Store) (r : Row).

Lemma items_write_row r s : items (write_row r s) = <[r_id r := r]> (items s).
Proof. unfold write_row. by rewrite (proj1 (after_change_frame _ _ _ _)). Qed.
Lemma fts_write_row r s : fts (write_row r s) = fts s.
Proof. unfold write_row. by rewrite (proj1 (proj2 (after_change_frame _ _ _ _))). Qed.
Lemma live_write_row r s :
  live_count (write_row r s) = live_count s + opt_live (Some r) - opt_live (items s !! r_id r).
Proof. unfold write_row. by rewrite (proj1 (proj2 (proj2 (after_change_frame _ _ _ _)))). Qed.
Lemma documents_write_row r s : search_documents (write_row r s) = search_documents s.
Proof. unfold write_row. by rewrite (proj2 (proj2 (proj2 (after_change_frame _ _ _ _)))). Qed.

Lemma items_drop_row id s : items (drop_row id s) = delete id (items s).
Proof.
  unfold drop_row. destruct (items s !! id) eqn:E; [|by rewrite delete_id].
  by rewrite (proj1 (after_change_frame _ _ _ _)).
Qed.
Lemma fts_drop_row id s : fts (drop_row id s) = fts s.
Proof.
  unfold drop_row. destruct (items s !! id); [|done].
  by rewrite (proj1 (proj2 (after_change_frame _ _ _ _))).
Qed.
Lemma live_drop_row id s : live_count (drop_row id s) = live_count s - opt_live (items s !! id).
Proof.
  unfold drop_row. destruct (items s !! id); [|cbn; lia].
  rewrite (proj1 (proj2 (proj2 (after_change_frame _ _ _ _)))); cbn; lia.
Qed.

Lemma upsert_row_some r s s' :
  upsert_row r s = Some s' <-> dedup_clash r s = false /\ s' = write_row r s.
Proof. unfold upsert_row. case_match; naive_solver. Qed.
Lemma insert_row_some r s s' :
  insert_row r s = Some s' <->
  items s !! r_id r = None /\ dedup_clash r s = false /\ s' = write_row r s.
Proof. unfold insert_row. case_match; rewrite ?upsert_row_some; naive_solver. Qed.

Lemma delete_fts_frame id s :
  items (delete_fts_row_in_tx id s) = items s /\
  live_count (delete_fts_row_in_tx id s) = live_count s.
Proof. unfold delete_fts_row_in_tx. by case_match. Qed.
Lemma insert_fts_frame id t ct s :
  items (insert_fts_in_tx id t ct s).2 = items s /\
  live_count (insert_fts_in_tx id t ct s).2 = live_count s.
Proof. unfold insert_fts_in_tx. by case_match. Qed.
End Writes.

Lemma elem_of_rows s r : r ∈ rows s <-> exists id, items s !! id = Some r.
Proof.
  unfold rows. rewrite list_elem_of_fmap. split.
  - intros [[id q] [-> H]]. exists id. by apply elem_of_map_to_list.
  - intros [id H]. exists (id, r). split; [done|]. by apply elem_of_map_to_list.
Qed.
Lemma in_rows s k q : items s !! k = Some q -> In q (rows s).
Proof. intros Hq. apply list_elem_of_In, elem_of_rows. by exists k. Qed.
Lemma dedup_clash_true r s : dedup_clash r s = true ->
  exists q k key, items s !! k = Some q /\ r_id q <> r_id r /\ dedup_key r = Some key /\ dedup_key q = Some key.
Proof.
  unfold dedup_clash. destruct (dedup_key r) as [key|]; [|done]. intros (q & Hq & Hc)%existsb_exists.
  apply andb_true_iff in Hc as [Hne Hk]. apply negb_true_iff, String.eqb_neq in Hne. apply bool_decide_eq_true in Hk.
  apply list_elem_of_In, elem_of_rows in Hq as [k Hq]. by exists q, k, key.
Qed.

(** ** Well-formed tables *)

(** How many rows of a table are live. *)
Definition count_row (_ : string) (r : Row) (n : Z) : Z := opt_live (Some r) + n.
Definition live_total (m : gmap string Row) : Z := map_fold count_row 0 m.
Lemma live_total_insert m k r :
  live_total (<[k := r]> m) = live_total m + opt_live (Some r) - opt_live (m !! k).
Proof.
  unfold live_total. destruct (m !! k) as [q|] eqn:E.
  - rewrite <- insert_delete_eq.
    rewrite (map_fold_delete_L count_row 0 k q m); [|intros; unfold count_row; lia|done].
    rewrite map_fold_insert_L; [unfold count_row; lia|intros; unfold count_row; lia|].
    apply lookup_delete_eq.
  - rewrite map_fold_insert_L; [unfold count_row; cbn; lia|intros; unfold count_row; lia|done].
Qed.
Lemma live_total_delete m k :
  live_total (delete k m) = live_total m - opt_live (m !! k).
Proof.
  unfold live_total. destruct (m !! k) as [q|] eqn:E.
  - rewrite (map_fold_delete_L count_row 0 k q m); [|intros; unfold count_row; lia|done].
    unfold count_row; lia.
  - rewrite delete_id by done. cbn; lia.
Qed.

(** What a tombstone holds, and the two halves of the search index. *)
Definition tombstone_ok (r : Row) : Prop :=
  r_deleted r = true ->
  r_ciphertext r = None /\ r_nonce r = None /\ r_metadata r = None /\ r_fts r = None /\
  r_pinned r = false /\ r_pin_order r = None.
Definition fts_ok (m : gmap string Row) (f : gmap Z (string * string)) : Prop :=
  (forall k id t, f !! k = Some (id, t) -> exists r, m !! id = Some r /\ r_fts r = Some k) /\
  (forall id r k, m !! id = Some r -> r_fts r = Some k -> exists t, f !! k = Some (id, t)).
Definition keyed (m : gmap string Row) : Prop := forall k r, m !! k = Some r -> r_id r = k.
Definition dedup_ok (m : gmap string Row) : Prop :=
  forall a b r q k, m !! a = Some r -> m !! b = Some q ->
    dedup_key r = Some k -> dedup_key q = Some k -> a = b.

Lemma rows_keyed_insert m r : keyed m -> keyed (<[r_id r := r]> m).
Proof. intros Hk k q. rewrite lookup_insert_Some. naive_solver. Qed.
Lemma keyed_delete m k : keyed m -> keyed (delete k m).
Proof. intros Hk j q. rewrite lookup_delete_Some. naive_solver. Qed.

Lemma dedup_clash_false r s :
  keyed (items s) -> dedup_clash r s = false ->
  forall b q k, items s !! b = Some q -> b <> r_id r -> dedup_key r = Some k -> dedup_key q <> Some k.
Proof.
  unfold dedup_clash. intros Hk Hc b q k Hq Hne Hr. rewrite Hr in Hc.
  apply not_true_iff_false in Hc. intros Hqk. apply Hc, existsb_exists. exists q. split.
  - apply list_elem_of_In, elem_of_rows. eauto.
  - rewrite andb_true_iff, negb_true_iff, String.eqb_neq, bool_decide_eq_true.
    split; [|done]. by rewrite (Hk _ _ Hq).
Qed.
Lemma dedup_insert r s :
  keyed (items s) -> dedup_ok (items s) -> dedup_clash r s = false ->
  dedup_ok (<[r_id r := r]> (items s)).
Proof.
  intros Hk Hd Hc a b x y k. rewrite !lookup_insert_Some.
  pose proof (dedup_clash_false r s Hk Hc) as Hn.
  intros [[<- <-]|[Ha Hx]] [[<- <-]|[Hb Hy]] Hx' Hy'; try done.
  - exfalso. by eapply Hn.
  - exfalso. by eapply Hn.
  - by eapply Hd.
Qed.
(** A write that leaves a row's key alone cannot clash. *)
Lemma dedup_insert_same m r q :
  keyed m -> dedup_ok m -> m !! r_id r = Some q ->
  (dedup_key r = dedup_key q \/ dedup_key r = None) -> dedup_ok (<[r_id r := r]> m).
Proof.
  intros Hk Hd Hq Hs a b x y k. rewrite !lookup_insert_Some.
  intros [[<- <-]|[Ha Hx]] [[<- <-]|[Hb Hy]] Hx' Hy'; try done.
  - destruct Hs as [Hs|Hs]; [|congruence]. rewrite Hs in Hx'. by eapply (Hd _ _ _ _ _ Hq Hy).
  - destruct Hs as [Hs|Hs]; [|congruence]. rewrite Hs in Hy'. by eapply (Hd _ _ _ _ _ Hx Hq).
  - by eapply Hd.
Qed.
Lemma dedup_delete m k : dedup_ok m -> dedup_ok (delete k m).
Proof. intros Hd a b x y j. rewrite !lookup_delete_Some. naive_solver. Qed.

Lemma fresh_key_fresh {A} (m : gmap Z A) : m !! fresh_key m = None.
Proof.
  assert (H : forall k x, m !! k = Some x -> k < fresh_key m).
  { unfold fresh_key. induction m as [|k x m Hk _ IH] using map_first_key_ind.
    - intros k x. by rewrite lookup_empty.
    - intros j y. rewrite map_fold_insert_L; [|intros; lia|done].
      rewrite lookup_insert_Some. intros [[<- _]|[_ Hj]]; [lia|]. specialize (IH _ _ Hj). lia. }
  destruct (m !! fresh_key m) eqn:E; [|done]. specialize (H _ _ E). lia.
Qed.
