(* ===== verification/Items.v ===== *)
(** Captures, recopies and deletions of the local history
    ([copypaste-core/src/storage/items.rs], [storage/source_icons.rs],
    [storage/privacy.rs], and the lookups of [storage/retention.rs]). *)

From S2P Require Import Prelude Float64 Bytes Text Wire Binary Payload Table.

(** ** Errors and parameters *)

(** [rusqlite::ErrorCode], as far as [sync/diagnostics.rs] tells codes apart. *)
Inductive SqliteCode :=
| ConstraintViolation | DiskFull | OutOfMemory | PermissionDenied | ReadOnly
| AuthorizationDenied | DatabaseBusy | DatabaseLocked | DatabaseCorrupt | NotADatabase
| OtherCode.
(** [std::io::ErrorKind], likewise. *)
Inductive IoKind :=
| IoStorageFull | IoOutOfMemory | IoPermissionDenied | IoWouldBlock | IoInterrupted | IoTimedOut | IoOther.
Inductive StoreError :=
| FileFailed (kind : IoKind) | Sqlite (code : SqliteCode) | Pool | InvalidKey | IntegrityCheckFailed
| InvalidSchema | InvalidPayload | NotFound | InvalidCursor | InvalidHistoryQuery
| InvalidDeviceName.

(** [serde_json::Value] of a metadata document, as far as its privacy hints go.
    What serialisation writes, both readers read back. *)
Class MetadataJson `{PayloadCodecs} := { serde_value_privacy : string -> ClipboardPrivacy }.
Class MetadataLaws `{MetadataJson} : Prop := {
  value_privacy_of m j : serde_payload_string m = Some j -> serde_value_privacy j = privacy m;
  value_privacy_parsed m j : serde_payload_metadata j = Some m -> serde_value_privacy j = privacy m;
}.

(** [PayloadMetadata::default()], and [Option::filter] on a string. *)
Definition no_metadata : PayloadMetadata :=
  {| credentials := false; privacy := no_privacy; secret_override := None;
     file := None; source_app_icon := None |}.
Definition with_privacy (p : ClipboardPrivacy) (m : PayloadMetadata) : PayloadMetadata :=
  {| credentials := credentials m; privacy := p; secret_override := secret_override m;
     file := file m; source_app_icon := source_app_icon m |}.
Definition with_credentials (c : bool) (m : PayloadMetadata) : PayloadMetadata :=
  {| credentials := c; privacy := privacy m; secret_override := secret_override m;
     file := file m; source_app_icon := source_app_icon m |}.
Definition without_icon (m : PayloadMetadata) : PayloadMetadata :=
  {| credentials := credentials m; privacy := privacy m; secret_override := secret_override m;
     file := file m; source_app_icon := None |}.
Definition non_empty (o : option string) : option string :=
  match o with Some s => if String.eqb s "" then None else o | None => None end.

(** The newer of two rows by [created_at DESC, id DESC]. *)
Definition row_key (r : Row) : Z * string := (r_created_at r, r_id r).
Definition key_cmp : Z * string -> Z * string -> comparison := pair_cmp Z.compare str_cmp.
Fixpoint newest (l : list Row) : option Row :=
  match l with
  | [] => None
  | r :: l' => match newest l' with
               | Some q => Some (cmp_max (cmp_on row_key key_cmp) r q)
               | None => Some r
               end
  end.

(** An item on its way into the store, and what became of it. *)
Record NewItem := {
  n_id : string; n_type : string; n_hash : string; n_created_at : Z;
  n_app_id : option string; n_app_name : option string; n_metadata : option string;
}.
Inductive Ingest := Inserted (r : Row) | Bumped (r : Row).
Definition ingest_item (i : Ingest) : Row := match i with Inserted r | Bumped r => r end.

Section Items.
Context {PC : PayloadCodecs} {MJ : MetadataJson} {DG : Digest}.

(** [PayloadMetadata::privacy_from_json], [StoredItem::clipboard_privacy]. *)
Definition privacy_from_json (value : string) : ClipboardPrivacy :=
  if str_len value >? MAX_SYNC_METADATA_BYTES then no_privacy else serde_value_privacy value.
Definition privacy_of (m : option string) : ClipboardPrivacy :=
  match m with Some j => privacy_from_json j | None => no_privacy end.
Definition clipboard_privacy (r : Row) : ClipboardPrivacy := privacy_of (r_metadata r).
Definition parsed_metadata (m : option string) (content_type : string) : option PayloadMetadata :=
  j ← m; from_json j content_type.

(** ** Source icons *)

(** The trigger [source_icon_link_insert]. *)
Definition link_icon (id app : string) (s : Store) : Store :=
  with_items ((fun r => if bool_decide (r_icon r = None) && bool_decide (r_app_id r = Some app)
                           && is_live r
                        then set_icon (Some id) r else r) <$> items s) s.
Definition upsert_icon (id : string) (app : option string) (i : IconRow) (s : Store) : Store :=
  match icons s !! id with
  | None => let s := with_icons (<[id := i]> (icons s)) s in
            match app with Some a => link_icon id a s | None => s end
  | Some old =>
    if (ic_updated_at old <? ic_updated_at i)
       || ((ic_updated_at i =? ic_updated_at old)
           && bool_decide (str_cmp (png_base64 (ic_asset old)) (png_base64 (ic_asset i)) = Lt))
    then with_icons (<[id := i]> (icons s)) s else s
  end.
Definition known_asset (app_id : option string) (s : Store) : option string :=
  a ← non_empty app_id;
  let id := String.append "app:" a in
  if contains_key (icons s) id then Some id else None.

(** [source_icons::normalise]: an icon moves out of the metadata into its
    table. *)
Definition normalise (app_id : option string) (content_type : string) (captured_at : Z)
    (metadata : option string) (s : Store)
    : result StoreError (option string * option string * Store) :=
  match parsed_metadata metadata content_type with
  | None => Ok (metadata, known_asset app_id s, s)
  | Some parsed =>
    match source_app_icon parsed with
    | None => Ok (metadata, known_asset app_id s, s)
    | Some icon =>
      let app := non_empty app_id in
      id ← match app with
           | Some a => Ok (String.append "app:" a)
           | None => png ← ok_or InvalidSchema (icon_png icon);
                     Ok (String.append "png:" (plaintext_content_hash png))
           end;
      let s := upsert_icon id app {| ic_asset := icon; ic_updated_at := captured_at |} s in
      let m := without_icon parsed in
      let remaining :=
        if match file m with Some _ => true | None => false end || credentials m
           || negb (privacy_is_empty (privacy m))
           || match secret_override m with Some _ => true | None => false end
        then to_json m content_type else None in
      Ok (remaining, Some id, s)
    end
  end.

(** ** Lookups *)

(** [newest_live_with_representation] and [find_in_bucket]. *)
Definition newest_live_with_representation (hash content_type : string) (since_ms : Z) (s : Store)
    : option Row :=
  if String.eqb hash "" then None
  else newest (List.filter (fun r => String.eqb (r_hash r) hash && String.eqb (r_type r) content_type
                                && (since_ms <=? r_created_at r) && is_live r) (rows s)).
Definition find_in_bucket (hash content_type : string) (created_at : Z) (s : Store) : option Row :=
  if String.eqb hash "" then None
  else newest (List.filter (fun r => String.eqb (r_hash r) hash && String.eqb (r_type r) content_type
                                && (Z.quot (r_created_at r) DEDUP_WINDOW_MS
                                    =? Z.quot created_at DEDUP_WINDOW_MS) && is_live r) (rows s)).
Definition newest_live_key (s : Store) : option (string * Z) :=
  r ← newest (List.filter is_live (rows s)); Some (r_id r, r_created_at r).
Definition get (id : string) (s : Store) : option Row :=
  r ← items s !! id; if r_deleted r then None else Some r.
Definition count (s : Store) : Z := Z.max 0 (live_count s).

(** ** Recopies *)

(** [bump_in_tx]: forward only, and never at the price of the capture. *)
Definition bump_in_tx (existing : Row) (created_at : Z) (app_id app_name icon : option string)
    (s : Store) : Row * Store :=
  if created_at <=? r_created_at existing then (existing, s)
  else let r := set_source app_id app_name icon (set_stamp created_at existing) in
       match upsert_row r s with
       | Some s' => (r, s')
       | None => (existing, s)
       end.

(** [refresh_privacy]: a recopy can only add privacy, unless the user chose. *)
Definition combined_privacy (item : Row) (p : ClipboardPrivacy) : ClipboardPrivacy :=
  let combined := privacy_union (clipboard_privacy item) p in
  match (m ← parsed_metadata (r_metadata item) (r_type item); secret_override m) with
  | Some choice => {| secret := so_secret choice; transient := transient combined |}
  | None => combined
  end.
Definition refreshed (item : Row) (combined : ClipboardPrivacy) (creds repair : bool) (s : Store) : Row :=
  let m := default no_metadata (parsed_metadata (r_metadata item) (r_type item)) in
  let m' := with_privacy combined (with_credentials (credentials m || creds) m) in
  let json := to_json m' (r_type item) in
  let stamp :=
    if negb (bool_decide (secret combined = secret (clipboard_privacy item))
             && bool_decide (transient combined = transient (clipboard_privacy item)))
       || repair || negb (Bool.eqb (credentials m') (credentials m))
    then i64_saturating_add (r_created_at item) 1 else r_created_at item in
  set_metadata json (content_bytes_sql json item s) (set_stamp stamp item).
Definition reindex (item : Row) (combined : ClipboardPrivacy) (repair : option string) (s : Store)
    : Row * Store :=
  if secret combined then
    let r := set_fts None item in
    (r, delete_documents (r_id item) (write_row r (delete_fts_row_in_tx (r_id item) s)))
  else match repair with
       | Some text =>
         let '(k, s') := insert_fts_in_tx (r_id item) text (r_type item)
                           (delete_fts_row_in_tx (r_id item) s) in
         let r := set_fts k item in (r, write_row r s')
       | None => (item, s)
       end.
Definition refresh_privacy (item : Row) (p : ClipboardPrivacy) (creds : bool)
    (search_text : option string) (s : Store) : result StoreError (Row * Store) :=
  let combined := combined_privacy item p in
  let repair := match r_metadata item, parsed_metadata (r_metadata item) (r_type item) with
                | Some _, None => search_text
                | _, _ => None
                end in
  let repair_text := match repair with Some _ => true | None => false end in
  if privacy_is_empty combined && negb repair_text && negb creds then Ok (item, s)
  else let r := refreshed item combined creds repair_text s in
       match upsert_row r s with
       | None => Err (Sqlite ConstraintViolation)
       | Some s' => Ok (reindex r combined repair s')
       end.

(** ** Captures *)

(** The row of the [INSERT]. *)
Definition fresh_row (item : NewItem) (nonce ciphertext : bytes) (k : option Z) (icon : option string)
    (s : Store) : Row :=
  {| r_id := n_id item; r_ciphertext := Some ciphertext; r_nonce := Some nonce;
     r_type := n_type item; r_hash := n_hash item; r_pinned := false; r_pin_order := None;
     r_pin_at := 0; r_created_at := n_created_at item; r_deleted := false; r_origin := "";
     r_app_id := n_app_id item; r_app_name := n_app_name item; r_metadata := n_metadata item;
     r_fts := k; r_icon := icon; r_bytes := len ciphertext + text_length (n_metadata item);
     r_rowid := next_rowid s |}.
Definition with_n_metadata (m : option string) (i : NewItem) : NewItem :=
  {| n_id := n_id i; n_type := n_type i; n_hash := n_hash i; n_created_at := n_created_at i;
     n_app_id := n_app_id i; n_app_name := n_app_name i; n_metadata := m |}.
Definition row_changed (old new : Row) : bool :=
  negb (r_created_at new =? r_created_at old) || negb (bool_decide (r_metadata new = r_metadata old)).

(** The two ways a capture folds into a row that is there; they release an
    unused icon at different points. *)
Definition fold_into (existing : Row) (item : NewItem) (icon : option string)
    (p : ClipboardPrivacy) (creds : bool) (text : option string) (s : Store)
    : result StoreError (Ingest * bool * Store) :=
  let '(bumped, s) := bump_in_tx existing (n_created_at item) (n_app_id item) (n_app_name item) icon s in
  '(bumped, s) ← refresh_privacy bumped p creds text s;
  Ok (Bumped bumped, row_changed existing bumped, release_unused icon s).
Definition fold_after_race (existing : Row) (item : NewItem) (icon : option string)
    (p : ClipboardPrivacy) (creds : bool) (text : option string) (s : Store)
    : result StoreError (Ingest * bool * Store) :=
  let '(bumped, s) := bump_in_tx existing (n_created_at item) (n_app_id item) (n_app_name item) icon s in
  '(bumped, s) ← refresh_privacy bumped p creds text (release_unused icon s);
  Ok (Bumped bumped, row_changed existing bumped, s).

Definition insert_new {E} (of_store : StoreError -> E) (item : NewItem) (icon : option string)
    (p : ClipboardPrivacy) (creds : bool) (text : option string)
    (seal : result E (bytes * bytes)) (s : Store) : result E (Ingest * bool * Store) :=
  '(nonce, ciphertext) ← seal;
  let '(k, s1) := match text with
                  | Some t => insert_fts_in_tx (n_id item) t (n_type item) s
                  | None => (None, s)
                  end in
  let r := fresh_row item nonce ciphertext k icon s in
  match insert_row r s1 with
  | Some s2 => Ok (Inserted r, true, s2)
  | None =>
    let s2 := match k with Some k => with_fts (delete k (fts s1)) s1 | None => s1 end in
    match find_in_bucket (n_hash item) (n_type item) (n_created_at item) s2 with
    | Some existing => map_err of_store (fold_after_race existing item icon p creds text s2)
    | None => Err (of_store (Sqlite ConstraintViolation))
    end
  end.

Definition insert_or_bump_late_sealed {E} (of_store : StoreError -> E) (item : NewItem)
    (search_text : option string) (seal : result E (bytes * bytes)) (s : Store)
    : result E (Ingest * bool * Store) :=
  let p := privacy_of (n_metadata item) in
  let creds := match parsed_metadata (n_metadata item) (n_type item) with
               | Some m => credentials m | None => false end in
  let indexable := is_text (n_type item) && negb (secret p) in
  let text := t ← search_text; if indexable && negb (is_blank (as_bytes t)) then Some t else None in
  '(metadata, icon, s) ← map_err of_store
     (normalise (n_app_id item) (n_type item) (n_created_at item) (n_metadata item) s);
  let item := with_n_metadata metadata item in
  match newest_live_with_representation (n_hash item) (n_type item) i64_min s with
  | Some existing => map_err of_store (fold_into existing item icon p creds text s)
  | None => insert_new of_store item icon p creds text seal s
  end.

(** [insert_or_bump]: the seal is already there. *)
Definition insert_or_bump (item : NewItem) (ciphertext nonce : bytes) (search_text : option string)
    (s : Store) : result StoreError (Ingest * Store) :=
  '(i, _, s) ← insert_or_bump_late_sealed (fun e => e) item search_text (Ok (nonce, ciphertext)) s;
  Ok (i, s).

(** ** Deletion *)

(** [CASE WHEN created_at = i64::MAX THEN created_at ELSE MAX(created_at + 1, now)]. *)
Definition tombstone_stamp (created_at now : Z) : Z :=
  if created_at =? i64_max then created_at else Z.max (created_at + 1) now.
Definition to_tombstone (now : Z) (r : Row) : Row :=
  set_stamp (tombstone_stamp (r_created_at r) now) (set_tombstone r).
Definition soft_delete (id : string) (now : Z) (s : Store) : bool * Store :=
  let s := delete_fts_row_in_tx id s in
  match items s !! id with
  | Some r => if r_deleted r then (false, s) else (true, write_row (to_tombstone now r) s)
  | None => (false, s)
  end.
(** The rows one [UPDATE] names, and the index entries of what is no longer
    live. *)
Definition delete_all_through (through now : Z) (s : Store) : Z * Store :=
  let gone := List.filter (fun r => is_live r && negb (r_pinned r) && (r_rowid r <=? through)) (rows s) in
  let s := foldr (fun r s => write_row (to_tombstone now r) s) s gone in
  let live_id id := match items s !! id with Some r => is_live r | None => false end in
  (len gone, with_fts (filter (fun p => live_id p.2.1 = true) (fts s)) s).

(** [promote_copied]. *)
Definition stamp_succ (z : Z) : Z := if z =? i64_max then z else z + 1.
Definition promote_copied (id : string) (copied_at : Z) (s : Store)
    : result StoreError (option Z * Store) :=
  match get id s with
  | None => Ok (None, s)
  | Some r =>
    let top := match newest (List.filter (fun r => is_live r && negb (r_pinned r)) (rows s)) with
               | Some q => stamp_succ (r_created_at q)
               | None => copied_at
               end in
    let stamp := Z.max copied_at (Z.max (stamp_succ (r_created_at r)) top) in
    match upsert_row (set_stamp stamp r) s with
    | Some s' => Ok (Some stamp, s')
    | None => Err (Sqlite ConstraintViolation)
    end
  end.

(** ** Explicit secrecy *)

Definition set_secret_row `{ItemKey} (r : Row) (choice : bool) (now : Z)
    : result StoreError (PayloadMetadata * string * Z * option string) :=
  let m := with_privacy (clipboard_privacy r)
             (default no_metadata (parsed_metadata (r_metadata r) (r_type r))) in
  let stamp := Z.max (Z.max now (i64_saturating_add (r_created_at r) 1))
                 (match secret_override m with
                  | Some c => i64_saturating_add (updated_at c) 1 | None => 0 end) in
  let m := Payload.set_secret m choice stamp in
  json ← ok_or InvalidPayload (to_json m (r_type r));
  text ← (if negb choice && is_text (r_type r)
          then plaintext ← map_err (fun _ => InvalidPayload)
                 (decrypt (default [] (r_ciphertext r)) (default [] (r_nonce r)) (r_id r));
               t ← ok_or InvalidPayload (from_utf8 plaintext); Ok (Some t)
          else Ok None);
  Ok (m, json, stamp, text).
Definition set_secret `{ItemKey} (id : string) (choice : bool) (now : Z) (s : Store)
    : result StoreError (bool * Store) :=
  match get id s with
  | None => Ok (false, s)
  | Some r =>
    '(_, json, stamp, text) ← set_secret_row r choice now;
    let s1 := delete_documents id (delete_fts_row_in_tx id s) in
    let '(k, s2) := match text with
                    | Some t => insert_fts_in_tx id t (r_type r) s1
                    | None => (None, s1)
                    end in
    match upsert_row (set_fts k (set_metadata (Some json) (content_bytes_sql (Some json) r s2)
                                   (set_stamp stamp r))) s2 with
    | Some s3 => Ok (true, s3)
    | None => Err (Sqlite ConstraintViolation)
    end
  end.

(** ** Well-formed stores

    The invariant of every operation: rows are filed under their id, the live
    count counts, no two live rows share a dedup key, tombstones hold no content,
    the search index and the rows agree, and nothing secret is indexed. *)
Definition private_ok (r : Row) : Prop := secret (clipboard_privacy r) = true -> r_fts r = None.
Record indexed (s : Store) : Prop := {
  ok_keyed : keyed (items s);
  ok_live : live_count s = live_total (items s);
  ok_dedup : dedup_ok (items s);
  ok_tombs k r : items s !! k = Some r -> tombstone_ok r;
  ok_fts : fts_ok (items s) (fts s);
}.
Record store_ok (s : Store) : Prop := {
  ok_indexed : indexed s;
  ok_private k r : items s !! k = Some r -> private_ok r;
}.

Lemma fts_same m f r q :
  fts_ok m f -> m !! r_id r = Some q -> r_fts r = r_fts q -> fts_ok (<[r_id r := r]> m) f.
Proof.
  intros [H1 H2] Hq Hr. split.
  - intros k id t Hk. destruct (H1 _ _ _ Hk) as (x & Hx & Hxk).
    destruct (decide (id = r_id r)) as [->|Hne].
    + exists r. rewrite lookup_insert_eq. split; [done|]. rewrite Hr. congruence.
    + exists x. by rewrite lookup_insert_ne.
  - intros id x k. rewrite lookup_insert_Some. intros [[<- <-]|[_ Hx]] Hk; [|by eapply H2].
    rewrite Hr in Hk. by apply (H2 _ _ _ Hq).
Qed.
Lemma fts_cleared s r :
  fts_ok (items s) (fts s) -> r_fts r = None ->
  fts_ok (<[r_id r := r]> (items s)) (fts (delete_fts_row_in_tx (r_id r) s)).
Proof.
  unfold delete_fts_row_in_tx. intros [H1 H2] Hr.
  assert (Hne : forall k id t, fts (delete_fts_row_in_tx (r_id r) s) !! k = Some (id, t) ->
                fts s !! k = Some (id, t) /\ id <> r_id r).
  { unfold delete_fts_row_in_tx. intros k id t.
    destruct (items s !! r_id r) as [q|] eqn:Eq; cbn.
    - destruct (r_fts q) as [j|] eqn:Ej; cbn; rewrite ?lookup_delete_Some; intros Hk.
      + destruct Hk as [Hj Hk]. split; [done|]. intros ->.
        destruct (H1 _ _ _ Hk) as (x & Hx & Hxk). congruence.
      + split; [done|]. intros ->. destruct (H1 _ _ _ Hk) as (x & Hx & Hxk). congruence.
    - intros Hk. split; [done|]. intros ->. destruct (H1 _ _ _ Hk) as (x & Hx & _). congruence. }
  split.
  - intros k id t Hk. destruct (Hne _ _ _ Hk) as [Hs Hid].
    destruct (H1 _ _ _ Hs) as (x & Hx & Hxk). exists x. by rewrite lookup_insert_ne.
  - intros id x k. rewrite lookup_insert_Some. intros [[<- <-]|[Hid Hx]] Hk; [congruence|].
    destruct (H2 _ _ _ Hx Hk) as [t Ht]. exists t.
    destruct (items s !! r_id r) as [q|] eqn:Eq; cbn; [|done].
    destruct (r_fts q) as [j|] eqn:Ej; cbn; [|done].
    rewrite lookup_delete_Some. split; [|done]. intros ->.
    destruct (H2 _ _ _ Eq Ej) as [t' Ht']. congruence.
Qed.
Lemma fts_entered m f r t :
  fts_ok (<[r_id r := set_fts None r]> m) f -> r_fts r = Some (fresh_key f) ->
  fts_ok (<[r_id r := r]> m) (<[fresh_key f := (r_id r, t)]> f).
Proof.
  intros [H1 H2] Hr. split.
  - intros k id t'. rewrite lookup_insert_Some. intros [[<- [= <- <-]]|[Hk Hf]].
    + exists r. by rewrite lookup_insert_eq.
    + destruct (H1 _ _ _ Hf) as (x & Hx & Hxk). revert Hx. rewrite lookup_insert_Some.
      intros [[<- <-]|[Hid Hx]]; [done|]. exists x. by rewrite lookup_insert_ne.
  - intros id x k. rewrite lookup_insert_Some. intros [[<- <-]|[Hid Hx]] Hk.
    + exists t. rewrite Hr in Hk. simplify_eq. apply lookup_insert_eq.
    + destruct (H2 id x k) as [t' Ht']; [by rewrite lookup_insert_ne|done|].
      exists t'. rewrite lookup_insert_ne; [done|]. intros <-.
      by rewrite fresh_key_fresh in Ht'.
Qed.
Lemma fts_reindexed s r t ct :
  fts_ok (items s) (fts s) ->
  let '(k, s') := insert_fts_in_tx (r_id r) t ct (delete_fts_row_in_tx (r_id r) s) in
  r_fts r = k -> fts_ok (<[r_id r := r]> (items s)) (fts s').
Proof.
  intros Hf. unfold insert_fts_in_tx. destruct (is_text ct); intros Hr.
  - cbn. apply fts_entered; [|done].
    apply (fts_cleared s (set_fts None r)); done.
  - by apply fts_cleared.
Qed.

Lemma write_row_indexed s s1 r :
  indexed s -> items s1 = items s -> live_count s1 = live_count s ->
  dedup_ok (<[r_id r := r]> (items s)) -> tombstone_ok r ->
  fts_ok (<[r_id r := r]> (items s)) (fts s1) -> indexed (write_row r s1).
Proof.
  intros [Hk Hl Hd Ht Hf] Hi Hc Hd' Ht' Hf'.
  split; rewrite ?items_write_row, ?fts_write_row, ?live_write_row, ?Hi, ?Hc; try done.
  - by apply rows_keyed_insert.
  - rewrite live_total_insert. lia.
  - intros k q. rewrite lookup_insert_Some. intros [[_ <-]|[_ Hq]]; eauto.
Qed.
Lemma drop_row_ok s id :
  store_ok s -> store_ok (drop_row id (delete_fts_row_in_tx id s)).
Proof.
  intros [[Hk Hl Hd Ht Hf] Hp]. destruct (delete_fts_frame id s) as [Hi Hc].
  split; [split|]; rewrite ?items_drop_row, ?fts_drop_row, ?live_drop_row, ?Hi, ?Hc.
  - by apply keyed_delete.
  - rewrite live_total_delete. lia.
  - by apply dedup_delete.
  - intros k r. rewrite lookup_delete_Some. naive_solver.
  - destruct (items s !! id) as [q|] eqn:Eq.
    + pose proof (fts_cleared s (set_fts None q) Hf eq_refl) as [H1 H2].
      cbn in H1, H2. rewrite (Hk _ _ Eq) in H1, H2. split.
      * intros k i t Hk'. destruct (H1 _ _ _ Hk') as (x & Hx & Hxk). exists x.
        revert Hx. rewrite lookup_insert_Some, lookup_delete_Some.
        intros [[<- <-]|[Hne Hx]]; done.
      * intros i x k. rewrite lookup_delete_Some. intros [Hne Hx] Hxk.
        apply (H2 i x k); [by rewrite lookup_insert_ne|done].
    + unfold delete_fts_row_in_tx. rewrite Eq; cbn. by rewrite delete_id.
  - intros k r. rewrite lookup_delete_Some. naive_solver.
Qed.

(** Statements that touch neither rows nor the index. *)
Lemma store_ok_frame s s' :
  store_ok s -> items s' = items s -> live_count s' = live_count s -> fts s' = fts s -> store_ok s'.
Proof. intros [[] ] Hi Hl Hf. split; [split|]; rewrite ?Hi, ?Hl, ?Hf; eauto. Qed.
Lemma release_unused_ok o s : store_ok s -> store_ok (release_unused o s).
Proof.
  intros Hs. destruct (release_unused_frame o s) as (? & ? & ? & _).
  by apply (store_ok_frame s).
Qed.

(** Columns the invariant does not read. *)
Definition same_shape (r q : Row) : Prop :=
  r_id q = r_id r /\ dedup_key q = dedup_key r /\ r_deleted q = r_deleted r /\
  r_fts q = r_fts r /\ r_metadata q = r_metadata r /\ (tombstone_ok r -> tombstone_ok q).
Lemma set_icon_shape i r : same_shape r (set_icon i r).
Proof. by split_and!. Qed.
Lemma live_total_fmap f m :
  (forall r, r_deleted (f r) = r_deleted r) -> live_total (f <$> m) = live_total m.
Proof.
  intros Hf. induction m as [|k r m Hk IH] using map_ind; [by rewrite fmap_empty|].
  rewrite fmap_insert, !live_total_insert, IH, lookup_fmap, Hk. cbn. unfold is_live.
  by rewrite Hf.
Qed.
Lemma store_ok_fmap (f : Row -> Row) s :
  (forall r, same_shape r (f r)) -> store_ok s -> store_ok (with_items (f <$> items s) s).
Proof.
  intros Hf [[Hk Hl Hd Ht [H1 H2]] Hp].
  assert (Hlk : forall k q, (f <$> items s) !! k = Some q -> exists r, items s !! k = Some r /\ q = f r).
  { intros k q. rewrite lookup_fmap_Some. naive_solver. }
  split; [split|]; cbn.
  - intros k q (r & Hr & ->)%Hlk. rewrite (proj1 (Hf r)). by apply Hk.
  - rewrite live_total_fmap; [done|]. intros r. apply (Hf r).
  - intros a b x y k (r & Hr & ->)%Hlk (q & Hq & ->)%Hlk.
    rewrite (proj1 (proj2 (Hf r))), (proj1 (proj2 (Hf q))). by apply Hd.
  - intros k q (r & Hr & ->)%Hlk. apply (Hf r). eauto.
  - split.
    + intros k id t Hkt. destruct (H1 _ _ _ Hkt) as (r & Hr & Hrk). exists (f r).
      rewrite lookup_fmap, Hr. split; [done|]. by rewrite (proj1 (proj2 (proj2 (proj2 (Hf r))))).
    + intros id q k (r & Hr & ->)%Hlk. rewrite (proj1 (proj2 (proj2 (proj2 (Hf r))))). by apply H2.
  - intros k q (r & Hr & ->)%Hlk. unfold private_ok, clipboard_privacy.
    destruct (Hf r) as (_ & _ & _ & -> & -> & _). apply (Hp _ _ Hr).
Qed.

(** ** Every operation keeps them *)

Lemma to_json_privacy `{!MetadataLaws} m ct j :
  to_json m ct = Some j -> privacy_of (Some j) = privacy m.
Proof.
  unfold to_json. case_match; [|done]. destruct (serde_payload_string m) as [k|] eqn:E; cbn; [|done].
  case_match eqn:Hl; [|done]. intros [= <-]. unfold privacy_of, privacy_from_json.
  apply Z.leb_le in Hl. destruct (Z.gtb_spec (str_len k) MAX_SYNC_METADATA_BYTES); [lia|].
  by apply value_privacy_of.
Qed.
Lemma privacy_of_to_json `{!MetadataLaws} m ct :
  secret (privacy_of (to_json m ct)) = true -> secret (privacy m) = true.
Proof. destruct (to_json m ct) eqn:E; [|done]. by rewrite (to_json_privacy _ _ _ E). Qed.

(** Writing rows whose metadata cannot be secret, or that are not indexed. *)
Lemma write_row_ok s s1 r :
  store_ok s -> items s1 = items s -> live_count s1 = live_count s ->
  dedup_ok (<[r_id r := r]> (items s)) -> tombstone_ok r -> private_ok r ->
  fts_ok (<[r_id r := r]> (items s)) (fts s1) -> store_ok (write_row r s1).
Proof.
  intros [Hs Hp] Hi Hc Hd Ht Hr Hf. split; [by apply (write_row_indexed s)|].
  intros k q. rewrite items_write_row, Hi, lookup_insert_Some. naive_solver.
Qed.

(** A row whose shape stays. *)
Lemma write_shape_ok s q r :
  store_ok s -> items s !! r_id q = Some q -> same_shape q r -> store_ok (write_row r s).
Proof.
  intros Hs Hq (Hi & Hd & _ & Hf & Hm & Ht). pose proof Hs as [[Hk _ Hdd Htb Hfo] Hp].
  assert (Hqr : items s !! r_id r = Some q) by by rewrite Hi.
  apply (write_row_ok s); try done.
  - apply (dedup_insert_same _ r q); [done..|by left].
  - by apply Ht, (Htb _ _ Hq).
  - unfold private_ok, clipboard_privacy. rewrite Hm, Hf. apply (Hp _ _ Hq).
  - by apply (fts_same _ _ _ q).
Qed.
Lemma link_icon_ok id app s : store_ok s -> store_ok (link_icon id app s).
Proof.
  intros Hs. unfold link_icon. apply store_ok_fmap; [|done].
  intros r. case_match; [apply set_icon_shape|]. unfold same_shape. by split_and!.
Qed.
Lemma normalise_ok app ct at_ m s m' i s' :
  store_ok s -> normalise app ct at_ m s = Ok (m', i, s') -> store_ok s'.
Proof.
  intros Hs. unfold normalise.
  destruct (parsed_metadata m ct) as [p|]; [|by intros [= _ _ <-]].
  destruct (source_app_icon p) as [ic|]; [|by intros [= _ _ <-]].
  intros (id & _ & Hr)%bind_ok. simplify_eq. unfold upsert_icon.
  destruct (icons s !! id).
  - case_match; [by apply (store_ok_frame s)|done].
  - destruct (non_empty app); [apply link_icon_ok|]; by apply (store_ok_frame s).
Qed.
Lemma normalise_secret `{!MetadataLaws} app ct at_ m s m' i s' :
  normalise app ct at_ m s = Ok (m', i, s') ->
  secret (privacy_of m') = true -> secret (privacy_of m) = true.
Proof.
  unfold normalise. destruct (parsed_metadata m ct) as [p|] eqn:Ep; [|by intros [= <- _ _]].
  destruct (source_app_icon p) as [ic|] eqn:Ei; [|by intros [= <- _ _]].
  intros (id & _ & Hr)%bind_ok. simplify_eq. case_match; [|done].
  intros Hsec%privacy_of_to_json. cbn in Hsec.
  destruct m as [j|]; [|done]. cbn in *. unfold from_json in Ep.
  destruct (str_len j >? MAX_SYNC_METADATA_BYTES) eqn:El; [done|].
  destruct (file_from_json j); [by destruct (ct =? FILE)%string; [injection Ep as <-|]|].
  destruct (serde_payload_metadata j) as [q|] eqn:Eq; cbn in Ep; [|done].
  destruct (is_valid_for q ct); [injection Ep as <-|done]. unfold privacy_from_json. rewrite El.
  by rewrite (value_privacy_parsed _ _ Eq).
Qed.

(** A row that is there. *)
Definition holds (s : Store) (r : Row) : Prop := items s !! r_id r = Some r.
Lemma newest_in l r : newest l = Some r -> r ∈ l.
Proof.
  revert r; induction l as [|x l IH]; intros r; cbn; [done|].
  destruct (newest l) as [q|]; intros [= <-]; [|left].
  destruct (cmp_max_case (cmp_on row_key key_cmp) x q) as [->| ->]; [left|right; eauto].
Qed.
Lemma newest_row_holds f s r :
  store_ok s -> newest (List.filter f (rows s)) = Some r -> holds s r /\ f r = true.
Proof.
  intros [[Hk _ _ _ _] _] Hr%newest_in. apply list_elem_of_In, filter_In in Hr as [Hr Hf].
  apply list_elem_of_In, elem_of_rows in Hr as [id Hid]. split; [|done].
  unfold holds. by rewrite (Hk _ _ Hid).
Qed.

Lemma bump_in_tx_ok existing at_ a n i s r s' :
  store_ok s -> holds s existing -> bump_in_tx existing at_ a n i s = (r, s') ->
  store_ok s' /\ holds s' r /\ r_id r = r_id existing /\ r_fts r = r_fts existing /\
  r_metadata r = r_metadata existing /\ r_deleted r = r_deleted existing.
Proof.
  intros Hs Hh. unfold bump_in_tx. case_match; [by intros [= <- <-]; split_and!|].
  set (q := set_source a n i (set_stamp at_ existing)).
  destruct (upsert_row q s) as [s1|] eqn:E; intros [= <- <-]; [|by split_and!].
  apply upsert_row_some in E as [Hc ->]. split_and!; try done.
  - pose proof Hs as [[Hk Hl Hd Ht Hf] Hp]. apply (write_row_ok s); try done.
    + by apply dedup_insert.
    + pose proof (Ht _ _ Hh) as Ht'. unfold tombstone_ok in *; cbn. naive_solver.
    + apply (Hp _ _ Hh).
    + by apply (fts_same _ _ _ existing).
  - unfold holds. rewrite items_write_row. apply lookup_insert_eq.
Qed.

Lemma refreshed_not_private `{!MetadataLaws} item combined creds repair s k :
  secret combined = false -> private_ok (set_fts k (refreshed item combined creds repair s)).
Proof.
  intros Hc Hsec. unfold refreshed, clipboard_privacy in Hsec; cbn in Hsec.
  apply privacy_of_to_json in Hsec; cbn in Hsec. congruence.
Qed.
Lemma write_live_indexed s r q :
  indexed s -> items s !! r_id r = Some q -> r_deleted r = false -> r_fts r = r_fts q ->
  dedup_clash r s = false -> indexed (write_row r s).
Proof.
  intros [Hk Hl Hd Ht Hf] Hq Hlive Hfts Hc. apply (write_row_indexed s); try done.
  - by apply dedup_insert.
  - unfold tombstone_ok. congruence.
  - by apply (fts_same _ _ _ q).
Qed.
Lemma reindex_ok r combined repair s r' s' :
  indexed s -> holds s r -> r_deleted r = false ->
  (forall k q, k <> r_id r -> items s !! k = Some q -> private_ok q) ->
  (secret combined = false -> private_ok r /\ private_ok (set_fts None r)
                              /\ forall k, private_ok (set_fts k r)) ->
  reindex r combined repair s = (r', s') ->
  store_ok s' /\ holds s' r' /\ r_id r' = r_id r.
Proof.
  intros Hi Hh Hl Hothers Hr. pose proof Hi as [Hk Hlc Hd Ht Hf]. unfold reindex.
  assert (Hd' : forall k, dedup_ok (<[r_id r := set_fts k r]> (items s))).
  { intros k. apply (dedup_insert_same _ (set_fts k r) r); [done..|by left]. }
  assert (Hfin : forall k s1, items s1 = items s -> live_count s1 = live_count s ->
            fts_ok (<[r_id r := set_fts k r]> (items s)) (fts s1) ->
            private_ok (set_fts k r) ->
            store_ok (write_row (set_fts k r) s1) /\ holds (write_row (set_fts k r) s1) (set_fts k r)).
  { intros k s1 Hi1 Hl1 Hf1 Hp1. split.
    - split; [apply (write_row_indexed s); try done; unfold tombstone_ok; cbn; congruence|].
      intros j q. rewrite items_write_row, Hi1, lookup_insert_Some. cbn. naive_solver.
    - unfold holds. rewrite items_write_row. apply lookup_insert_eq. }
  destruct (secret combined).
  - destruct (delete_fts_frame (r_id r) s) as [Hfi Hfl]. intros [= <- <-].
    destruct (Hfin None (delete_fts_row_in_tx (r_id r) s)) as [Hok Hho]; [done..| |done|].
    + by apply (fts_cleared s (set_fts None r)).
    + split_and!; [|done|done]. by eapply store_ok_frame.
  - destruct (Hr eq_refl) as (Hp0 & _ & Hpk). destruct repair as [t|].
    + destruct (insert_fts_in_tx (r_id r) t (r_type r) (delete_fts_row_in_tx (r_id r) s)) as [k s1] eqn:E.
      destruct (delete_fts_frame (r_id r) s) as [Hfi Hfl].
      destruct (insert_fts_frame (r_id r) t (r_type r) (delete_fts_row_in_tx (r_id r) s)) as [Hii Hil].
      rewrite E in Hii, Hil; cbn [snd] in Hii, Hil. intros [= <- <-].
      pose proof (fts_reindexed s (set_fts k r) t (r_type r) Hf) as Hre. cbn [r_id set_fts r_fts] in Hre. rewrite E in Hre.
      destruct (Hfin k s1) as [Hok Hho]; [congruence..|by apply Hre|done|done].
    + intros [= <- <-]. split_and!; [|done|done]. split; [done|]. intros k q Hq.
      destruct (decide (k = r_id r)) as [->|Hne]; [|by eapply Hothers].
      unfold holds in Hh. by assert (q = r) as -> by congruence.
Qed.
Lemma refresh_privacy_ok `{!MetadataLaws} item p creds text s r s' :
  store_ok s -> holds s item -> r_deleted item = false ->
  refresh_privacy item p creds text s = Ok (r, s') ->
  store_ok s' /\ holds s' r /\ r_id r = r_id item.
Proof.
  intros Hs Hh Hl. unfold refresh_privacy. case_match; [by intros [= <- <-]; split_and!|].
  set (rep := match r_metadata item, parsed_metadata (r_metadata item) (r_type item) with
              | Some _, None => text | _, _ => None end).
  set (q := refreshed _ _ _ _ _). set (c := combined_privacy item p).
  destruct (upsert_row q s) as [s1|] eqn:E; [|done].
  apply upsert_row_some in E as [Hc ->]. intros Hr%ok_inj. pose proof Hs as [Hix Hp].
  assert (Hi1 : indexed (write_row q s)) by by apply (write_live_indexed s q item).
  destruct (reindex_ok q c rep (write_row q s) r s') as (? & ? & ?); try done.
  - unfold holds. rewrite items_write_row. apply lookup_insert_eq.
  - intros k x Hne. rewrite items_write_row, lookup_insert_ne by done. apply Hp.
  - intros Hsec. split_and!.
    + exact (refreshed_not_private item c creds _ s (r_fts q) Hsec).
    + exact (refreshed_not_private item c creds _ s None Hsec).
    + intros k. exact (refreshed_not_private item c creds _ s k Hsec).
Qed.
End Items.
