(* ===== verification/ItemSafety.v ===== *)
(** What the operations of [Items.v] keep and what they do: every one keeps the
    store well formed, a capture is never folded away, a deletion is final until
    it is outvoted. *)

From S2P Require Import Prelude Float64 Bytes Text Wire Binary Payload Table Items.

Section ItemSafety.
Context {PC : PayloadCodecs} {MJ : MetadataJson} {DG : Digest} {ML : MetadataLaws}.

(** ** Captures *)

Lemma fold_into_ok existing item icon p creds text s i c s' :
  store_ok s -> holds s existing -> r_deleted existing = false ->
  fold_into existing item icon p creds text s = Ok (i, c, s') ->
  store_ok s' /\ holds s' (ingest_item i) /\ r_id (ingest_item i) = r_id existing.
Proof.
  intros Hs Hh Hl. unfold fold_into.
  destruct (bump_in_tx _ _ _ _ _ _) as [b s1] eqn:Eb.
  destruct (bump_in_tx_ok _ _ _ _ _ _ _ _ Hs Hh Eb) as (Hs1 & Hh1 & Hid & _ & _ & Hd).
  intros ([r s2] & Hr & He)%bind_ok. simplify_eq.
  destruct (refresh_privacy_ok _ _ _ _ _ _ _ Hs1 Hh1 ltac:(congruence) Hr) as (Hs2 & Hh2 & Hid2).
  split_and!; [by apply release_unused_ok| |cbn; congruence].
  unfold holds; cbn. by rewrite (proj1 (release_unused_frame _ _)).
Qed.
Lemma fold_after_race_ok existing item icon p creds text s i c s' :
  store_ok s -> holds s existing -> r_deleted existing = false ->
  fold_after_race existing item icon p creds text s = Ok (i, c, s') ->
  store_ok s' /\ holds s' (ingest_item i) /\ r_id (ingest_item i) = r_id existing.
Proof.
  intros Hs Hh Hl. unfold fold_after_race.
  destruct (bump_in_tx _ _ _ _ _ _) as [b s1] eqn:Eb.
  destruct (bump_in_tx_ok _ _ _ _ _ _ _ _ Hs Hh Eb) as (Hs1 & Hh1 & Hid & _ & _ & Hd).
  intros ([r s2] & Hr & He)%bind_ok. simplify_eq.
  destruct (refresh_privacy_ok b p creds text (release_unused icon s1) r s') as (Hs2 & Hh2 & Hid2).
  - by apply release_unused_ok.
  - unfold holds. by rewrite (proj1 (release_unused_frame _ _)).
  - congruence.
  - done.
  - split_and!; [done|done|cbn; congruence].
Qed.

(** The index entry written before a refused [INSERT] is taken back. *)
Lemma insert_fts_undone id t ct s k s1 :
  insert_fts_in_tx id t ct s = (Some k, s1) -> with_fts (delete k (fts s1)) s1 = s.
Proof.
  unfold insert_fts_in_tx. case_match; intros [= <- <-]. cbn.
  rewrite delete_insert_id by apply fresh_key_fresh. by destruct s.
Qed.
Lemma delete_fts_absent id s : items s !! id = None -> delete_fts_row_in_tx id s = s.
Proof. unfold delete_fts_row_in_tx. by intros ->. Qed.

Lemma insert_new_ok {E} (of_store : StoreError -> E) item icon p creds text seal s i c s' :
  store_ok s ->
  (text <> None -> secret (privacy_of (n_metadata item)) = false) ->
  insert_new of_store item icon p creds text seal s = Ok (i, c, s') ->
  store_ok s' /\ holds s' (ingest_item i).
Proof.
  intros Hs Ht. unfold insert_new. intros ([nonce ct] & _ & H)%bind_ok. revert H.
  set (step := match text with Some t => insert_fts_in_tx (n_id item) t (n_type item) s
                             | None => (None, s) end).
  destruct step as [k s1] eqn:Ek. set (r := fresh_row item nonce ct k icon s).
  assert (Hfr : items s1 = items s /\ live_count s1 = live_count s).
  { subst step. destruct text; [|by injection Ek as <- <-].
    pose proof (insert_fts_frame (n_id item) s0 (n_type item) s) as Hf. by rewrite Ek in Hf. }
  destruct Hfr as [Hi1 Hl1].
  destruct (insert_row r s1) as [s2|] eqn:Ei.
  - intros [= <- <- <-]. apply insert_row_some in Ei as (Hn & Hc & ->).
    rewrite Hi1 in Hn. cbn. split; [|unfold holds; by rewrite items_write_row, lookup_insert_eq].
    pose proof Hs as [[Hk Hlv Hd Htb Hf] Hp]. apply (write_row_ok s); try done.
    + rewrite <- Hi1. apply dedup_insert; rewrite ?Hi1; done.
    + subst step. intros Hsec. destruct text as [t|]; [|by injection Ek as <- _].
      change (secret (privacy_of (n_metadata item)) = true) in Hsec. by rewrite Ht in Hsec.
    + pose proof (fts_cleared s (set_fts None r) Hf eq_refl) as Hcl. cbn in Hcl.
      rewrite delete_fts_absent in Hcl by done.
      subst step. destruct text as [t|]; [|by injection Ek as <- <-].
      unfold insert_fts_in_tx in Ek. destruct (is_text (n_type item)).
      * injection Ek as <- <-. by apply fts_entered.
      * by injection Ek as <- <-.
  - set (s2 := match k with Some k => with_fts (delete k (fts s1)) s1 | None => s1 end).
    assert (s2 = s) as ->.
    { subst s2 step. destruct text as [t|].
      - destruct k as [k|]; [by apply (insert_fts_undone (n_id item) t (n_type item))|].
        unfold insert_fts_in_tx in Ek. destruct (is_text (n_type item)); [done|by injection Ek as <-].
      - by injection Ek as <- <-. }
    unfold find_in_bucket. destruct (n_hash item =? "")%string; [done|].
    destruct (newest _) as [ex|] eqn:En; [|done].
    destruct (newest_row_holds _ _ _ Hs En) as [Hh Hf].
    rewrite map_err_ok. intros Hfold. eapply fold_after_race_ok in Hfold; [naive_solver|done..|].
    unfold is_live in Hf. rewrite !andb_true_iff, negb_true_iff in Hf. naive_solver.
Qed.

Lemma capture_ok {E} (of_store : StoreError -> E) item text seal s i c s' :
  store_ok s -> insert_or_bump_late_sealed of_store item text seal s = Ok (i, c, s') ->
  store_ok s' /\ holds s' (ingest_item i).
Proof.
  intros Hs. unfold insert_or_bump_late_sealed.
  intros ([[m icon] s1] & Hn & H)%bind_ok. rewrite map_err_ok in Hn.
  pose proof (normalise_ok _ _ _ _ _ _ _ _ Hs Hn) as Hs1. revert H.
  unfold newest_live_with_representation. cbn [n_hash n_type with_n_metadata].
  destruct (if String.eqb (n_hash item) "" then None else _) as [ex|] eqn:En.
  - rewrite map_err_ok. intros Hfold.
    destruct (String.eqb (n_hash item) ""); [done|].
    destruct (newest_row_holds _ _ _ Hs1 En) as [Hh Hf].
    eapply fold_into_ok in Hfold; [naive_solver|done..|].
    unfold is_live in Hf. rewrite !andb_true_iff, negb_true_iff in Hf. naive_solver.
  - intros Hins. eapply insert_new_ok in Hins; [done|done|]. cbn. intros Ht.
    destruct (secret (privacy_of m)) eqn:Em; [|done].
    pose proof (normalise_secret _ _ _ _ _ _ _ _ Hn Em) as Hsec. rewrite Hsec in Ht.
    destruct text; cbn in Ht; rewrite ?andb_false_r in Ht; done.
Qed.

(** ** Deletions *)

Lemma tombstone_key now r : dedup_key (to_tombstone now r) = None.
Proof. done. Qed.
Lemma soft_delete_ok id now s b s' :
  store_ok s -> soft_delete id now s = (b, s') -> store_ok s'.
Proof.
  intros Hs. unfold soft_delete. destruct (delete_fts_frame id s) as [Hi Hl].
  pose proof Hs as [[Hk Hlv Hd Ht Hf] Hp]. rewrite Hi.
  destruct (items s !! id) as [r|] eqn:Er.
  - pose proof (Hk _ _ Er) as <-. destruct (r_deleted r) eqn:Edel; intros [= <- <-].
    + unfold delete_fts_row_in_tx. rewrite Er; cbn.
      destruct (Ht _ _ Er Edel) as (_ & _ & _ & -> & _). by cbn.
    + apply (write_row_ok s); try done.
      * apply (dedup_insert_same _ _ r); auto.
      * by apply (fts_cleared s (to_tombstone now r)).
  - intros [= <- <-]. by rewrite delete_fts_absent.
Qed.

(** Several tombstones at once, the index following afterwards. *)
Definition clear_rows (now : Z) (l : list Row) (m : gmap string Row) : gmap string Row :=
  foldr (fun r m => <[r_id r := to_tombstone now r]> m) m l.
Lemma items_foldr_write now l s :
  items (foldr (fun r s => write_row (to_tombstone now r) s) s l) = clear_rows now l (items s).
Proof. induction l as [|r l IH]; cbn; [done|]. by rewrite items_write_row, IH. Qed.
Lemma fts_foldr_write now l s :
  fts (foldr (fun r s => write_row (to_tombstone now r) s) s l) = fts s.
Proof. induction l as [|r l IH]; cbn; [done|]. by rewrite fts_write_row. Qed.
Lemma live_foldr_write now l s :
  live_count s = live_total (items s) ->
  live_count (foldr (fun r s => write_row (to_tombstone now r) s) s l)
  = live_total (clear_rows now l (items s)).
Proof.
  intros Hl. induction l as [|r l IH]; cbn; [done|].
  rewrite live_write_row, IH, items_foldr_write, live_total_insert.
  fold (clear_rows now l (items s)). cbn [r_id to_tombstone set_stamp set_tombstone]. lia.
Qed.
Lemma clear_rows_lookup now l m k q :
  NoDup (r_id <$> l) -> clear_rows now l m !! k = Some q ->
  (exists r, r ∈ l /\ k = r_id r /\ q = to_tombstone now r) \/ (m !! k = Some q /\ k ∉ (r_id <$> l)).
Proof.
  induction l as [|r l IH]; cbn; [right; split; [done|apply not_elem_of_nil]|].
  intros [Hr Hnd]%NoDup_cons. rewrite lookup_insert_Some. intros [[<- <-]|[Hne Hq]].
  - left. exists r. split_and!; [left|done|done].
  - destruct (IH Hnd Hq) as [(x & Hx & -> & ->)|[Hm Hk]].
    + left. exists x. split_and!; [by right|done|done].
    + right. split; [done|]. rewrite not_elem_of_cons. auto.
Qed.
Lemma rows_ids_nodup s : keyed (items s) -> NoDup (r_id <$> rows s).
Proof.
  intros Hk. unfold rows. rewrite <- list_fmap_compose.
  rewrite (list_fmap_ext (r_id ∘ snd) fst).
  - apply NoDup_fst_map_to_list.
  - intros i [k r] Hin. cbn. apply Hk. apply elem_of_map_to_list.
    by apply list_elem_of_lookup_2 in Hin.
Qed.
Lemma filter_nodup_ids (f : Row -> bool) l : NoDup (r_id <$> l) -> NoDup (r_id <$> List.filter f l).
Proof.
  induction l as [|r l IH]; cbn; [done|]. intros [Hr Hnd]%NoDup_cons.
  destruct (f r); cbn; [|auto]. apply NoDup_cons. split; [|auto].
  rewrite list_elem_of_fmap in Hr |- *. intros (q & Hq & Hin). apply Hr. exists q. split; [done|].
  apply list_elem_of_In in Hin. apply filter_In in Hin as [Hin _]. by apply list_elem_of_In.
Qed.

Lemma clear_rows_absent now l m k : k ∉ (r_id <$> l) -> clear_rows now l m !! k = m !! k.
Proof.
  induction l as [|r l IH]; cbn; [done|]. rewrite not_elem_of_cons. intros [Hne Hk].
  rewrite lookup_insert_ne by done. auto.
Qed.
Lemma clear_rows_present now l m r :
  NoDup (r_id <$> l) -> r ∈ l -> clear_rows now l m !! r_id r = Some (to_tombstone now r).
Proof.
  induction l as [|q l IH]; cbn; [intros _ []%not_elem_of_nil|].
  intros [Hq Hnd]%NoDup_cons [<-|Hr]%elem_of_cons; [apply lookup_insert_eq|].
  rewrite lookup_insert_ne; [auto|]. intros He. cbn in He. apply Hq. rewrite He.
  apply list_elem_of_fmap. eauto.
Qed.

Definition clearable (through : Z) (r : Row) : bool :=
  is_live r && negb (r_pinned r) && (r_rowid r <=? through).
Lemma elem_of_clearable s through r :
  r ∈ List.filter (clearable through) (rows s) <-> r ∈ rows s /\ clearable through r = true.
Proof. by rewrite !list_elem_of_In, filter_In. Qed.
Lemma delete_all_items through now s n s' :
  delete_all_through through now s = (n, s') ->
  items s' = clear_rows now (List.filter (clearable through) (rows s)) (items s).
Proof. intros [= _ <-]. cbn. apply items_foldr_write. Qed.

Lemma delete_all_ok through now s n s' :
  store_ok s -> delete_all_through through now s = (n, s') -> store_ok s'.
Proof.
  intros Hs Hd. pose proof (delete_all_items _ _ _ _ _ Hd) as Hi.
  pose proof Hs as [[Hk Hlv Hdd Ht [H1 H2]] Hp].
  set (gone := List.filter (clearable through) (rows s)) in *.
  assert (Hnd : NoDup (r_id <$> gone)) by by apply filter_nodup_ids, rows_ids_nodup.
  assert (Hlk : forall k q, items s' !! k = Some q ->
            (exists r, k = r_id r /\ q = to_tombstone now r) \/ (items s !! k = Some q)).
  { intros k q. rewrite Hi. intros [(r & _ & -> & ->)|[Hq _]]%clear_rows_lookup; eauto. }
  assert (Hfs : fts s' = filter (fun p => match items s' !! p.2.1 with
                                          | Some r => is_live r | None => false end = true) (fts s)).
  { revert Hd Hi. intros [= _ <-] _. cbn. rewrite items_foldr_write, fts_foldr_write. done. }
  split; [split|].
  - intros k q [(r & -> & ->)|Hq]%Hlk; [done|by apply Hk].
  - rewrite Hi. rewrite <- (live_foldr_write now gone s Hlv). by injection Hd as _ <-.
  - intros a b x y k [(r & -> & ->)|Hx]%Hlk; [done|].
    intros [(r & -> & ->)|Hy]%Hlk; [done|]. by eapply Hdd.
  - intros k q [(r & -> & ->)|Hq]%Hlk; [by intros _|by eapply Ht].
  - rewrite Hfs. split.
    + intros k id t. rewrite map_lookup_filter_Some. cbn. intros [Hf Hl].
      destruct (items s' !! id) as [r|] eqn:Er; [|done]. exists r. split; [done|].
      destruct (Hlk _ _ Er) as [(q & -> & ->)|Hq]; [done|].
      destruct (H1 _ _ _ Hf) as (x & Hx & Hxk). congruence.
    + intros id r k Hr Hrk. destruct (Hlk _ _ Hr) as [(q & -> & ->)|Hq]; [done|].
      destruct (H2 _ _ _ Hq Hrk) as [t Hf]. exists t. rewrite map_lookup_filter_Some.
      split; [done|]. cbn. rewrite Hr. unfold is_live. rewrite negb_true_iff.
      destruct (r_deleted r) eqn:Ed; [|done].
      destruct (Ht _ _ Hq Ed) as (_ & _ & _ & ? & _). congruence.
  - intros k q [(r & -> & ->)|Hq]%Hlk; [by intros _|by eapply Hp].
Qed.

Lemma get_some id s r : store_ok s -> get id s = Some r -> holds s r /\ r_id r = id /\ r_deleted r = false.
Proof.
  intros [[Hk _ _ _ _] _]. unfold get. destruct (items s !! id) as [q|] eqn:E; cbn; [|done].
  case_match; [done|]. intros [= <-]. unfold holds. rewrite (Hk _ _ E). auto.
Qed.
Lemma promote_ok id at_ s o s' :
  store_ok s -> promote_copied id at_ s = Ok (o, s') -> store_ok s'.
Proof.
  intros Hs. unfold promote_copied. destruct (get id s) as [r|] eqn:Eg; [|by intros [= _ <-]].
  destruct (get_some _ _ _ Hs Eg) as (Hh & <- & Hl).
  set (stamp := Z.max _ _). destruct (upsert_row (set_stamp stamp r) s) as [s1|] eqn:E; [|done].
  intros [= _ <-]. apply upsert_row_some in E as [Hc ->]. pose proof Hs as [Hix Hp].
  split; [by apply (write_live_indexed s _ r)|].
  intros k q. rewrite items_write_row, lookup_insert_Some. intros [[_ <-]|[_ Hq]]; [|eauto].
  apply (Hp _ _ Hh).
Qed.

Lemma set_secret_ok {IK : ItemKey} id choice now s b s' :
  store_ok s -> set_secret id choice now s = Ok (b, s') -> store_ok s'.
Proof.
  intros Hs. unfold set_secret. destruct (get id s) as [r|] eqn:Eg; [|by intros [= _ <-]].
  destruct (get_some _ _ _ Hs Eg) as (Hh & <- & Hl).
  intros ([[[m json] stamp] text] & Hr & H)%bind_ok. revert H.
  unfold set_secret_row in Hr. apply bind_ok in Hr as (j & Hj & Hr).
  apply bind_ok in Hr as (t & Ht & Hr). simplify_eq. rewrite ok_or_ok in Hj.
  set (s1 := delete_documents (r_id r) (delete_fts_row_in_tx (r_id r) s)).
  assert (H1 : items s1 = items s /\ live_count s1 = live_count s /\
               fts s1 = fts (delete_fts_row_in_tx (r_id r) s)).
  { destruct (delete_fts_frame (r_id r) s). by split_and!. }
  destruct H1 as (Hi1 & Hl1 & Hf1).
  destruct (match text with Some t => insert_fts_in_tx (r_id r) t (r_type r) s1 | None => (None, s1) end)
    as [k s2] eqn:Ek.
  set (q := set_fts k _).
  assert (H2 : items s2 = items s /\ live_count s2 = live_count s /\
               fts_ok (<[r_id r := q]> (items s)) (fts s2)).
  { pose proof Hs as [[_ _ _ _ Hf] _]. destruct text as [t|].
    - destruct (insert_fts_frame (r_id r) t (r_type r) s1) as [Hi2 Hl2]. rewrite Ek in Hi2, Hl2.
      cbn [snd] in Hi2, Hl2. split_and!; [congruence..|].
      pose proof (fts_reindexed s q t (r_type r) Hf) as Hre. cbn [r_id q set_fts set_metadata set_stamp] in Hre.
      destruct (insert_fts_in_tx (r_id r) t (r_type r) (delete_fts_row_in_tx (r_id r) s)) as [k' s2'] eqn:Ek'.
      assert (k = k' /\ fts s2 = fts s2') as [-> ->]; [|by apply Hre].
      unfold insert_fts_in_tx in Ek, Ek'. rewrite Hf1 in Ek.
      destruct (is_text (r_type r)); injection Ek as <- <-; injection Ek' as <- <-; done.
    - injection Ek as <- <-. split_and!; [done..|]. rewrite Hf1. by apply (fts_cleared s q). }
  destruct H2 as (Hi2 & Hl2 & Hf2).
  destruct (upsert_row q s2) as [s3|] eqn:E; [|done]. intros [= _ <-].
  apply upsert_row_some in E as [Hc ->]. pose proof Hs as [[Hk _ Hd Htb _] Hp].
  apply (write_row_ok s); try done.
  - rewrite <- Hi2. apply (dedup_insert q s2); rewrite ?Hi2; done.
  - unfold tombstone_ok. cbn. congruence.
  - intros Hsec. change (secret (privacy_of (Some json)) = true) in Hsec.
    rewrite (to_json_privacy _ _ _ Hj) in Hsec. cbn in Hsec. subst choice. cbn in Ht.
    injection Ht as <-. by injection Ek as <- _.
Qed.

(** ** What a capture does

    The columns a recopy may not touch, and rows that differ in the source icon
    only. *)
Definition kept (r : Row) :=
  (r_id r, r_ciphertext r, r_nonce r, (r_type r, r_hash r), (r_pinned r, r_pin_order r, r_pin_at r),
   r_deleted r, r_origin r, r_rowid r).
Definition same_but_icon (q q' : Row) : Prop := set_icon None q = set_icon None q'.
Definition others_kept (id : string) (s s' : Store) : Prop :=
  forall k q, k <> id -> items s !! k = Some q ->
    exists q', items s' !! k = Some q' /\ same_but_icon q q'.

Lemma same_but_icon_kept q q' : same_but_icon q q' ->
  kept q = kept q' /\ r_created_at q = r_created_at q' /\ r_metadata q = r_metadata q'.
Proof. unfold same_but_icon, set_icon, set_source. intros [=]. unfold kept. split_and!; congruence. Qed.
Lemma others_kept_items id s s' :
  (forall k, k <> id -> items s' !! k = items s !! k) -> others_kept id s s'.
Proof. intros H k q Hne Hq. exists q. by rewrite H. Qed.
Lemma others_kept_trans id s1 s2 s3 :
  others_kept id s1 s2 -> others_kept id s2 s3 -> others_kept id s1 s3.
Proof.
  intros H1 H2 k q Hne Hq. destruct (H1 k q Hne Hq) as (q1 & Hq1 & E1).
  destruct (H2 k q1 Hne Hq1) as (q2 & Hq2 & E2). exists q2. split; [done|].
  unfold same_but_icon in *. congruence.
Qed.
Lemma others_kept_write r s s1 :
  items s1 = items s -> others_kept (r_id r) s (write_row r s1).
Proof.
  intros Hi. apply others_kept_items. intros k Hne.
  by rewrite items_write_row, Hi, lookup_insert_ne.
Qed.
Lemma normalise_rows app ct at_ m s m' i s' k :
  normalise app ct at_ m s = Ok (m', i, s') ->
  match items s !! k with
  | Some q => exists q', items s' !! k = Some q' /\ same_but_icon q q'
  | None => items s' !! k = None
  end.
Proof.
  unfold normalise.
  assert (Hrefl : forall t, items t = items s ->
            match items s !! k with
            | Some q => exists q', items t !! k = Some q' /\ same_but_icon q q'
            | None => items t !! k = None
            end).
  { intros t ->. destruct (items s !! k); [eexists; by split|done]. }
  destruct (parsed_metadata m ct) as [p|]; [|by intros [= _ _ <-]; apply Hrefl].
  destruct (source_app_icon p) as [ic|]; [|by intros [= _ _ <-]; apply Hrefl].
  intros (id & _ & Hr)%bind_ok. simplify_eq. unfold upsert_icon.
  destruct (icons s !! id).
  - destruct ((ic_updated_at _ <? _) || _); by apply Hrefl.
  - destruct (non_empty app) as [a|]; [|by apply Hrefl].
    unfold link_icon. cbn. rewrite lookup_fmap. destruct (items s !! k) as [q|]; cbn; [|done].
    eexists. split; [done|]. by case_match.
Qed.

Lemma bump_in_tx_kept existing at_ a n i s r s' :
  bump_in_tx existing at_ a n i s = (r, s') ->
  kept r = kept existing /\ r_created_at existing <= r_created_at r /\ others_kept (r_id existing) s s'.
Proof.
  unfold bump_in_tx. destruct (Z.leb_spec at_ (r_created_at existing)).
  - intros [= <- <-]. split_and!; [done|lia|by apply others_kept_items].
  - destruct (upsert_row _ s) as [s1|] eqn:E; intros [= <- <-].
    + apply upsert_row_some in E as [_ ->]. split_and!; [done|cbn; lia|].
      by apply (others_kept_write (set_source a n i (set_stamp at_ existing))).
    + split_and!; [done|lia|by apply others_kept_items].
Qed.
Lemma i64_saturating_succ_le z : z <= i64_max -> z <= i64_saturating_add z 1.
Proof. unfold i64_saturating_add, i64_min, i64_max. lia. Qed.
Lemma refresh_privacy_kept item p creds text s r s' :
  r_created_at item <= i64_max ->
  refresh_privacy item p creds text s = Ok (r, s') ->
  kept r = kept item /\ r_created_at item <= r_created_at r /\ others_kept (r_id item) s s'.
Proof.
  intros Hmax. unfold refresh_privacy. case_match.
  { intros [= <- <-]. split_and!; [done|lia|by apply others_kept_items]. }
  set (rep := match r_metadata item, parsed_metadata (r_metadata item) (r_type item) with
              | Some _, None => text | _, _ => None end).
  set (q := refreshed _ _ _ _ _). set (c := combined_privacy item p).
  destruct (upsert_row q s) as [s1|] eqn:E; [|done]. apply upsert_row_some in E as [_ ->].
  intros Hr%ok_inj.
  assert (Hq : kept q = kept item /\ r_created_at item <= r_created_at q).
  { subst q. unfold refreshed. cbn. split; [done|]. pose proof (i64_saturating_succ_le _ Hmax).
    match goal with |- _ <= (if ?b then _ else _) => destruct b end; lia. }
  destruct Hq as [Hk Hc].
  assert (Ho : others_kept (r_id item) s (write_row q s)) by by apply (others_kept_write q).
  revert Hr. unfold reindex. destruct (secret c); [|destruct rep as [t|]].
  - intros [= <- <-]. split_and!; [done|done|]. eapply others_kept_trans; [exact Ho|].
    destruct (delete_fts_frame (r_id q) (write_row q s)) as [Hi _].
    eapply (others_kept_trans _ _ (write_row (set_fts None q) (delete_fts_row_in_tx (r_id q) (write_row q s)))).
    + by apply (others_kept_write (set_fts None q)).
    + by apply others_kept_items.
  - destruct (insert_fts_in_tx _ _ _ _) as [k s2] eqn:Ek. intros [= <- <-].
    split_and!; [done|done|]. eapply others_kept_trans; [exact Ho|].
    apply (others_kept_write (set_fts k q)).
    destruct (delete_fts_frame (r_id q) (write_row q s)) as [Hi _].
    pose proof (insert_fts_frame (r_id q) t (r_type q) (delete_fts_row_in_tx (r_id q) (write_row q s)))
      as [Hi2 _]. rewrite Ek in Hi2. cbn [snd] in Hi2. by rewrite Hi2.
  - intros [= <- <-]. by split_and!.
Qed.

(** Every stamp fits the column. *)
Definition in_range64 (s : Store) : Prop :=
  forall k q, items s !! k = Some q -> r_created_at q <= i64_max.
Definition no_representation (hash ct : string) (s : Store) : Prop :=
  forall k q, items s !! k = Some q -> r_deleted q = false -> r_hash q = hash -> r_type q = ct -> False.
(** The outcome of a capture of [item] that folds into a row of [s]. *)
Definition folded (item : NewItem) (s s' : Store) (r : Row) : Prop :=
  exists q, items s !! r_id r = Some q /\ r_deleted q = false /\
    r_hash q = n_hash item /\ r_type q = n_type item /\
    kept r = kept q /\ r_created_at q <= r_created_at r.

Lemma fold_into_kept existing item icon p creds text s i c s' :
  r_created_at existing <= i64_max -> n_created_at item <= i64_max ->
  fold_into existing item icon p creds text s = Ok (i, c, s') ->
  exists r, i = Bumped r /\ kept r = kept existing /\ r_created_at existing <= r_created_at r /\
    others_kept (r_id existing) s s'.
Proof.
  intros Hm Hn. unfold fold_into. destruct (bump_in_tx _ _ _ _ _ _) as [b s1] eqn:Eb.
  assert (Hb : r_created_at b <= i64_max).
  { revert Eb. unfold bump_in_tx. case_match; [by intros [= <- _]|].
    destruct (upsert_row _ s); intros [= <- _]; [cbn|]; lia. }
  destruct (bump_in_tx_kept _ _ _ _ _ _ _ _ Eb) as (Hk1 & Hc1 & Ho1).
  intros ([r s2] & Hr & He)%bind_ok. injection He as <- <- <-.
  destruct (refresh_privacy_kept _ _ _ _ _ _ _ Hb Hr) as (Hk2 & Hc2 & Ho2).
  exists r. split_and!; [done|congruence|lia|].
  eapply others_kept_trans; [exact Ho1|]. replace (r_id existing) with (r_id b) by (unfold kept in Hk1; congruence).
  eapply others_kept_trans; [exact Ho2|]. apply others_kept_items.
  intros k _. by rewrite (proj1 (release_unused_frame _ _)).
Qed.
Lemma fold_after_race_kept existing item icon p creds text s i c s' :
  r_created_at existing <= i64_max -> n_created_at item <= i64_max ->
  fold_after_race existing item icon p creds text s = Ok (i, c, s') ->
  exists r, i = Bumped r /\ kept r = kept existing /\ r_created_at existing <= r_created_at r /\
    others_kept (r_id existing) s s'.
Proof.
  intros Hm Hn. unfold fold_after_race. destruct (bump_in_tx _ _ _ _ _ _) as [b s1] eqn:Eb.
  assert (Hb : r_created_at b <= i64_max).
  { revert Eb. unfold bump_in_tx. case_match; [by intros [= <- _]|].
    destruct (upsert_row _ s); intros [= <- _]; [cbn|]; lia. }
  destruct (bump_in_tx_kept _ _ _ _ _ _ _ _ Eb) as (Hk1 & Hc1 & Ho1).
  intros ([r s2] & Hr & He)%bind_ok. injection He as <- <- <-.
  destruct (refresh_privacy_kept _ _ _ _ _ _ _ Hb Hr) as (Hk2 & Hc2 & Ho2).
  exists r. split_and!; [done|congruence|lia|].
  eapply others_kept_trans; [exact Ho1|]. replace (r_id existing) with (r_id b) by (unfold kept in Hk1; congruence).
  eapply others_kept_trans; [|exact Ho2]. apply others_kept_items.
  intros k _. by rewrite (proj1 (release_unused_frame _ _)).
Qed.

Lemma representation_found s hash ct r :
  store_ok s -> newest_live_with_representation hash ct i64_min s = Some r ->
  holds s r /\ r_deleted r = false /\ r_hash r = hash /\ r_type r = ct.
Proof.
  intros Hs. unfold newest_live_with_representation. case_match; [done|]. intros Hn.
  destruct (newest_row_holds _ _ _ Hs Hn) as [Hh Hf].
  unfold is_live in Hf. rewrite !andb_true_iff, !String.eqb_eq, negb_true_iff in Hf. naive_solver.
Qed.
Lemma newest_none l : newest l = None -> l = [].
Proof. destruct l; cbn; [done|]. by case_match. Qed.
Lemma representation_absent s hash ct :
  (forall k q, items s !! k = Some q -> i64_min <= r_created_at q) -> hash <> ""%string ->
  newest_live_with_representation hash ct i64_min s = None -> no_representation hash ct s.
Proof.
  intros Hm Hh. unfold newest_live_with_representation.
  rewrite (proj2 (String.eqb_neq _ _) Hh). intros Hn%newest_none k q Hq Hl <- <-.
  assert (Hin : q ∈ List.filter (fun r => String.eqb (r_hash r) (r_hash q) && String.eqb (r_type r) (r_type q)
                                && (i64_min <=? r_created_at r) && is_live r) (rows s)).
  { apply list_elem_of_In, filter_In. split; [apply list_elem_of_In, elem_of_rows; eauto|].
    rewrite !String.eqb_refl. unfold is_live. rewrite Hl. cbn. rewrite andb_true_r.
    by apply Z.leb_le, (Hm k). }
  rewrite Hn in Hin. by apply elem_of_nil in Hin.
Qed.
(** An [INSERT] that folds into a row of its bucket after all. *)
Lemma find_in_bucket_found s hash ct at_ r :
  store_ok s -> find_in_bucket hash ct at_ s = Some r ->
  holds s r /\ r_deleted r = false /\ r_hash r = hash /\ r_type r = ct.
Proof.
  intros Hs. unfold find_in_bucket. case_match; [done|]. intros Hn.
  destruct (newest_row_holds _ _ _ Hs Hn) as [Hh Hf].
  unfold is_live in Hf. rewrite !andb_true_iff, !String.eqb_eq, negb_true_iff in Hf. naive_solver.
Qed.

Lemma insert_new_kept {E} (of_store : StoreError -> E) item icon p creds text seal s i c s' :
  store_ok s -> in_range64 s -> n_created_at item <= i64_max ->
  insert_new of_store item icon p creds text seal s = Ok (i, c, s') ->
  others_kept (r_id (ingest_item i)) s s' /\
  match i with
  | Inserted r => r_id r = n_id item /\ r_hash r = n_hash item /\ r_type r = n_type item /\
                  r_created_at r = n_created_at item /\ r_deleted r = false /\
                  items s !! n_id item = None
  | Bumped r => folded item s s' r
  end.
Proof.
  intros Hs Hr Hn. unfold insert_new. intros ([nonce ct] & _ & H)%bind_ok. revert H.
  destruct (match text with Some t => insert_fts_in_tx (n_id item) t (n_type item) s
                          | None => (None, s) end) as [k s1] eqn:Ek.
  assert (Hi1 : items s1 = items s).
  { destruct text as [t|]; [|by injection Ek as <- <-].
    pose proof (insert_fts_frame (n_id item) t (n_type item) s) as [Hf _]. by rewrite Ek in Hf. }
  destruct (insert_row _ s1) as [s2|] eqn:Ei.
  - intros [= <- <- <-]. apply insert_row_some in Ei as (Ha & _ & ->). rewrite Hi1 in Ha.
    cbn [ingest_item]. split; [by apply others_kept_write|]. by split_and!.
  - set (s2 := match k with Some k => with_fts (delete k (fts s1)) s1 | None => s1 end).
    assert (Hi2 : items s2 = items s) by by (subst s2; destruct k).
    assert (Hs2 : store_ok s2).
    { destruct k as [k|]; subst s2.
      - destruct text as [t|]; [|done]. by rewrite (insert_fts_undone _ _ _ _ _ _ Ek).
      - destruct text as [t|]; [|by injection Ek as <-]. unfold insert_fts_in_tx in Ek.
        destruct (is_text (n_type item)); [done|by injection Ek as <-]. }
    destruct (find_in_bucket _ _ _ s2) as [ex|] eqn:Ef; [|done]. rewrite map_err_ok.
    destruct (find_in_bucket_found _ _ _ _ _ Hs2 Ef) as (Hh & Hl & Hha & Hty).
    unfold holds in Hh. rewrite Hi2 in Hh. intros Hfold.
    apply fold_after_race_kept in Hfold as (r & -> & Hk & Hc & Ho); [|by apply (Hr _ _ Hh)|done].
    assert (Hid : r_id r = r_id ex) by (unfold kept in Hk; congruence).
    cbn [ingest_item]. rewrite Hid. split.
    + intros j q. rewrite <- Hi2. apply Ho.
    + exists ex. rewrite Hid. by split_and!.
Qed.

Lemma capture_outcome {E} (of_store : StoreError -> E) item text seal s i c s' :
  store_ok s -> in_range64 s ->
  (forall k q, items s !! k = Some q -> i64_min <= r_created_at q) ->
  n_created_at item <= i64_max -> n_hash item <> ""%string ->
  insert_or_bump_late_sealed of_store item text seal s = Ok (i, c, s') ->
  let r := ingest_item i in
  holds s' r /\ r_deleted r = false /\ r_hash r = n_hash item /\ r_type r = n_type item /\
  others_kept (r_id r) s s' /\
  match i with
  | Inserted _ => r_id r = n_id item /\ items s !! n_id item = None /\
                  no_representation (n_hash item) (n_type item) s
  | Bumped _ => exists q, items s !! r_id r = Some q /\ r_deleted q = false /\
                  kept r = kept q /\ r_created_at q <= r_created_at r
  end.
Proof.
  intros Hs Hr Hm Hn Hh Hcap. pose proof (capture_ok _ _ _ _ _ _ _ _ Hs Hcap) as [_ Hhold].
  revert Hcap. unfold insert_or_bump_late_sealed.
  intros ([[m icon] s1] & Hno & H)%bind_ok. rewrite map_err_ok in Hno.
  pose proof (normalise_ok _ _ _ _ _ _ _ _ Hs Hno) as Hs1.
  assert (Hback : forall k q, items s1 !! k = Some q -> exists q0, items s !! k = Some q0 /\ same_but_icon q0 q).
  { intros k q Hq. pose proof (normalise_rows _ _ _ _ _ _ _ _ k Hno) as Hk.
    destruct (items s !! k) as [q0|]; [|congruence]. destruct Hk as (q' & Hq' & E0).
    exists q0. split; [done|]. congruence. }
  assert (Ho1 : forall id, others_kept id s s1).
  { intros id k q _ Hq. pose proof (normalise_rows _ _ _ _ _ _ _ _ k Hno) as Hk. by rewrite Hq in Hk. }
  assert (Hr1 : in_range64 s1).
  { intros k q (q0 & Hq0 & E0)%Hback. apply same_but_icon_kept in E0 as (_ & <- & _). eauto. }
  assert (Hfold : forall r q, items s1 !! r_id r = Some q -> r_deleted q = false -> kept r = kept q ->
            r_created_at q <= r_created_at r -> exists q, items s !! r_id r = Some q /\
            r_deleted q = false /\ kept r = kept q /\ r_created_at q <= r_created_at r).
  { intros r q Hq Hl Hk Hc. destruct (Hback _ _ Hq) as (q0 & Hq0 & E0).
    apply same_but_icon_kept in E0 as (Hk0 & Hc0 & _). exists q0. rewrite Hk0, Hc0.
    split_and!; [done| |done|done]. unfold kept in Hk0; congruence. }
  revert H. cbn [n_hash n_type n_created_at with_n_metadata].
  destruct (newest_live_with_representation _ _ _ s1) as [ex|] eqn:En.
  - destruct (representation_found _ _ _ _ Hs1 En) as (Hx & Hl & Hha & Hty).
    rewrite map_err_ok. intros Hf. apply fold_into_kept in Hf as (r & -> & Hk & Hc & Ho); [|by apply (Hr1 _ _ Hx)|done].
    assert (Hk' := Hk). unfold kept in Hk'. cbn [ingest_item] in *. split_and!; [done|congruence..| |].
    + replace (r_id r) with (r_id ex) by congruence. by eapply others_kept_trans.
    + apply (Hfold r ex); [|done..]. replace (r_id r) with (r_id ex) by congruence. done.
  - intros Hin. apply insert_new_kept in Hin as [Ho Hi]; [|done..].
    assert (Ho' : others_kept (r_id (ingest_item i)) s s') by by eapply others_kept_trans.
    destruct i as [r|r]; cbn [ingest_item] in *.
    + destruct Hi as (Hid & Hha & Hty & _ & Hl & Ha). split_and!; try done.
      * pose proof (normalise_rows _ _ _ _ _ _ _ _ (n_id item) Hno) as Hk. cbn in Ha.
        destruct (items s !! n_id item); [|done]. destruct Hk as (? & ? & _). congruence.
      * intros k q Hq Hlq Hhq Htq.
        pose proof (normalise_rows _ _ _ _ _ _ _ _ k Hno) as Hk. rewrite Hq in Hk.
        destruct Hk as (q' & Hq' & E0). apply same_but_icon_kept in E0 as (Hk0 & Hc0 & _).
        unfold kept in Hk0.
        apply (representation_absent s1 (n_hash item) (n_type item)) with k q'; try done; [|congruence..].
        intros j x (x0 & Hx0 & E0)%Hback. apply same_but_icon_kept in E0 as (_ & <- & _). eauto.
    + destruct Hi as (q & Hq & Hl & Hha & Hty & Hk & Hc). assert (Hk' := Hk). unfold kept in Hk'.
      split_and!; [done|cbn in *; congruence..|done|]. by apply (Hfold r q).
Qed.

(** C17: a capture that is accepted is in the history afterwards: either as the
    new row it asked for, which only happens when no live row has that content
    and type, or folded into a live row that does, whose content, pin and
    identity it keeps and whose stamp only moves forward; every other row stays
    as it was, its icon apart. *)
Theorem capture_is_stored {E} (of_store : StoreError -> E) item text seal s i c s' :
  store_ok s -> in_range64 s ->
  (forall k q, items s !! k = Some q -> i64_min <= r_created_at q) ->
  n_created_at item <= i64_max -> n_hash item <> ""%string ->
  insert_or_bump_late_sealed of_store item text seal s = Ok (i, c, s') ->
  let r := ingest_item i in
  holds s' r /\ r_deleted r = false /\ r_hash r = n_hash item /\ r_type r = n_type item /\
  others_kept (r_id r) s s' /\
  match i with
  | Inserted _ => r_id r = n_id item /\ items s !! n_id item = None /\
                  no_representation (n_hash item) (n_type item) s
  | Bumped _ => exists q, items s !! r_id r = Some q /\ r_deleted q = false /\
                  kept r = kept q /\ r_created_at q <= r_created_at r
  end.
Proof. exact (capture_outcome of_store item text seal s i c s'). Qed.

Lemma newest_app_none (f : Row -> bool) s :
  (forall k q, items s !! k = Some q -> f q = false) -> newest (List.filter f (rows s)) = None.
Proof.
  intros Hf. assert (Hall : forall q, q ∈ rows s -> f q = false).
  { intros q [k Hq]%elem_of_rows. eauto. }
  revert Hall. generalize (rows s). intros l. induction l as [|q l IH]; cbn; [done|]. intros Hall.
  rewrite (Hall q) by left. apply IH. intros x Hx. apply Hall. by right.
Qed.
Lemma no_representation_filter hash ct s (g : Row -> bool) :
  no_representation hash ct s ->
  (forall q, g q = true -> r_hash q = hash /\ r_type q = ct /\ r_deleted q = false) ->
  newest (List.filter g (rows s)) = None.
Proof.
  intros Hn Hg. apply newest_app_none. intros k q Hq. destruct (g q) eqn:E; [|done].
  destruct (Hg q E) as (H1 & H2 & H3). by destruct (Hn k q).
Qed.

(** A binary capture takes an id made from its bytes.  When the item of that id
    was deleted, its tombstone still holds the primary key, and no live row has
    the content: the capture is refused, every time. *)
Lemma recopy_under_a_tombstone_fails {E} (of_store : StoreError -> E) item text seal s tomb :
  n_metadata item = None -> items s !! n_id item = Some tomb -> r_deleted tomb = true ->
  no_representation (n_hash item) (n_type item) s ->
  insert_or_bump_late_sealed of_store item text (Ok seal) s = Err (of_store (Sqlite ConstraintViolation)).
Proof.
  intros Hm Ht Hd Hn. unfold insert_or_bump_late_sealed. rewrite Hm.
  unfold normalise. cbn -[newest_live_with_representation find_in_bucket insert_new].
  assert (Hrep : forall h ct a, newest_live_with_representation h ct a s = None \/ (h, ct) <> (n_hash item, n_type item)).
  { intros h ct a. destruct (decide ((h, ct) = (n_hash item, n_type item))) as [[= -> ->]|]; [left|by right].
    unfold newest_live_with_representation. case_match; [done|].
    apply (no_representation_filter _ _ _ _ Hn). intros q. unfold is_live.
    rewrite !andb_true_iff, !String.eqb_eq, negb_true_iff. naive_solver. }
  destruct (Hrep (n_hash item) (n_type item) i64_min) as [-> |]; [|done].
  unfold insert_new. destruct seal as [nonce ct]. cbn -[find_in_bucket insert_row].
  destruct (match _ with Some t => insert_fts_in_tx (n_id item) t (n_type item) s
                    | None => (None, s) end) as [k s1] eqn:Ek.
  assert (Hi1 : items s1 = items s).
  { revert Ek. case_match; [|by intros [= <- <-]]. intros Ek.
    pose proof (insert_fts_frame (n_id item) s0 (n_type item) s) as [Hf _]. by rewrite Ek in Hf. }
  assert (Hins : insert_row (fresh_row (with_n_metadata None item) nonce ct k (known_asset (n_app_id item) s) s) s1 = None).
  { unfold insert_row. cbn. by rewrite Hi1, Ht. }
  rewrite Hins. unfold find_in_bucket.
  destruct (String.eqb (n_hash item) ""); [done|].
  rewrite (no_representation_filter (n_hash item) (n_type item)); [done| |].
  - intros j q. replace (items _) with (items s) by (by destruct k). apply Hn.
  - intros q. unfold is_live. rewrite !andb_true_iff, !String.eqb_eq, negb_true_iff. naive_solver.
Qed.
End ItemSafety.

(** ** Concrete histories

    A metadata codec that knows one document, a digest that is the identity. *)
Module HistoryDemo.
Definition secret_metadata : PayloadMetadata :=
  {| credentials := false; privacy := {| secret := true; transient := false |};
     secret_override := None; file := None; source_app_icon := None |}.
Definition is_secret_metadata (m : PayloadMetadata) : bool :=
  negb (credentials m) && secret (privacy m) && negb (transient (privacy m))
  && match secret_override m, file m, source_app_icon m with None, None, None => true | _, _, _ => false end.
#[export] Instance codecs : PayloadCodecs := {|
  serde_file_metadata := fun _ => None;
  serde_payload_metadata := fun s => if String.eqb s "S" then Some secret_metadata else None;
  serde_payload_string := fun m => if is_secret_metadata m then Some "S"%string else None;
  base64_decode := fun _ => None; base64_encode := fun _ => ""%string; png_dimensions := fun _ => None |}.
#[export] Instance json : MetadataJson := {|
  serde_value_privacy := fun s => if String.eqb s "S" then privacy secret_metadata else no_privacy |}.
#[export] Instance laws : MetadataLaws.
Proof.
  split.
  - intros [[] [[] []] [?|] [?|] [?|]] j; cbn; intros [= <-]. done.
  - intros m j. cbn. destruct (String.eqb j "S"); [|done]. by intros [= <-].
Qed.
#[export] Instance digest : Digest := {| sha256 := fun b => b; hex_encode := fun b => of_bytes b |}.
Definition note (id hash : string) (at_ : Z) (m : option string) : NewItem :=
  {| n_id := id; n_type := TEXT; n_hash := hash; n_created_at := at_;
     n_app_id := None; n_app_name := None; n_metadata := m |}.
Definition put (id hash : string) (at_ : Z) (m : option string) (s : Store) : result StoreError (Ingest * bool * Store) :=
  insert_or_bump_late_sealed (fun e => e) (note id hash at_ m) (Some hash)
    (Ok (as_bytes id, as_bytes hash)) s.
Definition after (r : result StoreError (Ingest * bool * Store)) (s : Store) : Store :=
  match r with Ok (_, _, s') => s' | Err _ => s end.
Definition one : Store := after (put "a" "alpha" 1000 None empty_store) empty_store.
Definition two : Store := after (put "b" "beta" 2000 (Some "S"%string) one) one.
Definition three : Store := after (put "c" "gamma" 3000 None two) two.
Lemma empty_ok : store_ok empty_store.
Proof.
  split; [|by intros k r].
  split; [by intros k r|done|by intros a b r q|by intros k r|by split].
Qed.
Lemma after_ok id hash at_ m s : store_ok s -> store_ok (after (put id hash at_ m s) s).
Proof.
  intros Hs. destruct (put id hash at_ m s) as [[[i c] s']|e] eqn:E; [|done].
  cbn. by destruct (capture_ok _ _ _ _ _ _ _ _ Hs E).
Qed.
Lemma two_notes_ok : store_ok two.
Proof. apply after_ok, after_ok, empty_ok. Qed.
Lemma three_ok : store_ok three.
Proof. apply after_ok, two_notes_ok. Qed.
(** The first note copied again, a minute and a half later. *)
Definition again := put "z" "alpha" 90000 None two.
Lemma again_folds : match again with Ok (Bumped r, true, _) => r_id r = "a"%string | _ => False end.
Proof. vm_compute. reflexivity. Qed.
Definition stamps_in_range (s : Store) : bool :=
  forallb (fun p => (i64_min <=? r_created_at p.2) && (r_created_at p.2 <=? i64_max)) (map_to_list (items s)).
Lemma stamps_in_range_spec s : stamps_in_range s = true ->
  forall k r, items s !! k = Some r -> i64_min <= r_created_at r <= i64_max.
Proof.
  unfold stamps_in_range. rewrite forallb_forall. intros Hall k r Hr.
  apply elem_of_map_to_list, list_elem_of_In, Hall in Hr. cbn in Hr. lia.
Qed.
End HistoryDemo.
#[local] Existing Instances HistoryDemo.codecs HistoryDemo.json HistoryDemo.laws HistoryDemo.digest.

Lemma capture_is_stored_witness :
  exists r s', HistoryDemo.again = Ok (Bumped r, true, s') /\ r_id r = "a"%string /\ holds s' r.
Proof.
  pose proof HistoryDemo.again_folds as Hf.
  destruct HistoryDemo.again as [[[[r|r] []] s']|] eqn:E; try done.
  exists r, s'. split_and!; [done|done|].
  pose proof (HistoryDemo.stamps_in_range_spec HistoryDemo.two ltac:(vm_compute; reflexivity)) as Hr.
  refine (proj1 (capture_is_stored (fun e => e) _ _ _ _ _ _ _ HistoryDemo.two_notes_ok _ _ _ _ E)).
  - intros k q Hq. by apply (Hr k q).
  - intros k q Hq. by apply (Hr k q).
  - by vm_compute.
  - discriminate.
Defined.
