(* ===== verification/Retention.v ===== *)
(** Retention ([copypaste-core/src/storage/retention.rs],
    [copypaste-core/src/retention.rs]): the history cap, the storage quota and
    the age limit.  A pinned item is never removed by anything here. *)

From S2P Require Import Prelude Float64 Bytes Text Wire Binary Payload Table Items ItemSafety.

(** ** Order of eviction: [ORDER BY created_at ASC, id ASC] *)

Definition older (r q : Row) : Prop := key_cmp (row_key r) (row_key q) <> Gt.
#[export] Instance older_dec r q : Decision (older r q).
Proof. unfold older. apply _. Defined.
#[export] Instance key_cmp_ord : OrdLaws key_cmp.
Proof. unfold key_cmp. apply _. Qed.
#[export] Instance older_total : Total older.
Proof.
  intros r q. unfold older. rewrite (cmp_antisym (cmp:=key_cmp) (row_key r) (row_key q)).
  destruct (key_cmp (row_key r) (row_key q)); cbn; auto.
Qed.
#[export] Instance older_trans : Transitive older.
Proof.
  intros r q t. unfold older. rewrite !(cmp_gt_lt key_cmp).
  intros H1 H2 H3. destruct (key_cmp (row_key r) (row_key q)) eqn:E.
  - apply cmp_eq_iff in E. congruence.
  - apply H2. by eapply (cmp_trans (cmp:=key_cmp) (row_key t) (row_key r)).
  - apply (cmp_gt_lt key_cmp) in E. congruence.
Qed.

Definition EVICTION_BATCH : nat := 500.

Definition unpinned (r : Row) : bool := is_live r && negb (r_pinned r).
Definition unpinned_rows (s : Store) : list Row := List.filter unpinned (rows s).
(** [KEEP_NEWEST_SQL]: the newest unpinned live row, the empty string without
    one. *)
Definition keep_newest (s : Store) : string :=
  match newest (unpinned_rows s) with Some r => r_id r | None => "" end.
Definition victims (keep : Row -> bool) (s : Store) : list Row :=
  merge_sort older (List.filter keep (unpinned_rows s)).
Definition not_kept (id : string) (r : Row) : bool := negb (String.eqb (r_id r) id).

(** [hard_delete_in_tx]: the index entries of a batch, then its rows; how many
    rows went. *)
Definition delete_batch (ids : list string) (s : Store) : Z * Store :=
  let s := foldl (fun s id => delete_fts_row_in_tx id s) s ids in
  foldl (fun '(n, s) id => (n + match items s !! id with Some _ => 1 | None => 0 end, drop_row id s))
    (0, s) ids.
Fixpoint hard_delete_in_tx (fuel : nat) (ids : list string) (s : Store) : Z * Store :=
  match fuel, ids with
  | S fuel, _ :: _ =>
    let '(n, s) := delete_batch (take EVICTION_BATCH ids) s in
    let '(m, s) := hard_delete_in_tx fuel (drop EVICTION_BATCH ids) s in
    (n + m, s)
  | _, _ => (0, s)
  end.
Definition hard_delete (ids : list string) (s : Store) : Z * Store :=
  hard_delete_in_tx (length ids) ids s.

(** ** The three sweeps *)

Definition evict_over_cap (max_items : Z) (s : Store) : Z * Store :=
  if count s <=? max_items then (0, s)
  else let excess := count s - max_items in
       hard_delete (r_id <$> take (Z.to_nat excess) (victims (not_kept (keep_newest s)) s)) s.

Fixpoint sum_bytes (l : list Row) : Z :=
  match l with [] => 0 | r :: l' => r_bytes r + sum_bytes l' end.
Definition unpinned_bytes (s : Store) : Z := Z.max 0 (sum_bytes (unpinned_rows s)).
(** [BYTE_VICTIMS_SQL]: the rows whose running total, themselves excepted, is
    below the excess. *)
Fixpoint byte_victims (before excess : Z) (l : list Row) : list Row :=
  match l with
  | [] => []
  | r :: l' => (if before <? excess then [r] else [])
               ++ byte_victims (before + r_bytes r) excess l'
  end.
Definition has_byte_victim (s : Store) : bool := 2 <=? len (unpinned_rows s).
(** [i64::try_from(n).unwrap_or(i64::MAX)]. *)
Definition clamp_i64 (n : Z) : Z := Z.min n i64_max.
Definition evict_over_byte_cap (max_bytes : Z) (s : Store) : Z * Store :=
  if negb (has_byte_victim s) || (unpinned_bytes s <=? max_bytes) then (0, s)
  else let excess := clamp_i64 (unpinned_bytes s) - clamp_i64 max_bytes in
       hard_delete (r_id <$> byte_victims 0 excess (victims (not_kept (keep_newest s)) s)) s.

Definition expired (cutoff_ms : Z) (r : Row) : bool := r_created_at r <? cutoff_ms.
Definition has_expired (cutoff_ms : Z) (s : Store) : bool := existsb (expired cutoff_ms) (unpinned_rows s).
(** The loop over batches; [fuel] bounds it. *)
Fixpoint evict_batches (fuel : nat) (cutoff_ms removed : Z) (s : Store) : option (Z * Store) :=
  match fuel with
  | O => None
  | S fuel =>
    let batch := take EVICTION_BATCH (victims (expired cutoff_ms) s) in
    match batch with
    | [] => Some (removed, s)
    | _ => let '(n, s) := hard_delete (r_id <$> batch) s in
           if (length batch <? EVICTION_BATCH)%nat then Some (removed + n, s)
           else evict_batches fuel cutoff_ms (removed + n) s
    end
  end.
Definition evict_older_than (fuel : nat) (cutoff_ms : Z) (s : Store) : option (Z * Store) :=
  if has_expired cutoff_ms s then evict_batches fuel cutoff_ms 0 s else Some (0, s).

(** ** When they run *)

Record RetentionPolicy := { history_limit : Z; storage_quota_bytes : Z; retention_days : Z }.
Definition policy_tightened (before after : RetentionPolicy) : bool :=
  (storage_quota_bytes after <? storage_quota_bytes before)
  || (history_limit after <? history_limit before)
  || ((0 <? retention_days after)
      && ((retention_days before =? 0) || (retention_days after <? retention_days before))).
Definition DAY_MS : Z := 86400000.
Definition enforce_retention (fuel : nat) (p : RetentionPolicy) (now : Z) (s : Store)
    : option (Z * Store) :=
  let '(a, s) := evict_over_cap (history_limit p) s in
  let '(b, s) := evict_over_byte_cap (storage_quota_bytes p) s in
  if 0 <? retention_days p
  then '(c, s) ← evict_older_than fuel (now - retention_days p * DAY_MS) s; Some (a + b + c, s)
  else Some (a + b, s).

(** ** Hard deletes *)

Section Retention.
Context {PC : PayloadCodecs} {MJ : MetadataJson} {DG : Digest}.

Lemma after_change_with_fts id o n f s :
  after_change id o n (with_fts f s) = with_fts f (after_change id o n s).
Proof.
  unfold after_change.
  assert (Hr : forall i t, release_unused i (with_fts f t) = with_fts f (release_unused i t)).
  { intros [i|] t; [|done]. unfold release_unused.
    change (icon_used i (with_fts f t)) with (icon_used i t). by destruct (icon_used i t). }
  change (count_live o n (with_fts f s)) with (with_fts f (count_live o n s)). rewrite Hr.
  by destruct (payload_changed o n).
Qed.
Lemma drop_row_with_fts f id s : drop_row id (with_fts f s) = with_fts f (drop_row id s).
Proof.
  unfold drop_row. cbn [items with_fts]. destruct (items s !! id) as [r|]; [|done].
  exact (after_change_with_fts id (Some r) None f
           (with_documents (search_documents s ∖ {[id]}) (with_items (delete id (items s)) s))).
Qed.
Lemma delete_fts_drop id j s :
  id <> j -> delete_fts_row_in_tx id (drop_row j s) = drop_row j (delete_fts_row_in_tx id s).
Proof.
  intros Hne. unfold delete_fts_row_in_tx. rewrite items_drop_row, lookup_delete_ne by done.
  rewrite fts_drop_row. destruct (items s !! id ≫= r_fts) as [k|]; [|done].
  by rewrite drop_row_with_fts.
Qed.
(** Emptying the index first, or row by row, comes to the same. *)
Definition remove_row (s : Store) (id : string) : Store := drop_row id (delete_fts_row_in_tx id s).
Lemma delete_fts_all_drop ids j s :
  j ∉ ids -> foldl (fun s id => delete_fts_row_in_tx id s) (drop_row j s) ids
             = drop_row j (foldl (fun s id => delete_fts_row_in_tx id s) s ids).
Proof.
  revert s; induction ids as [|id ids IH]; intros s; cbn; [done|].
  rewrite not_elem_of_cons. intros [Hne Hj]. rewrite delete_fts_drop by done. by apply IH.
Qed.
Lemma delete_batch_spec ids s :
  NoDup ids -> (delete_batch ids s).2 = foldl remove_row s ids.
Proof.
  intros Hnd. unfold delete_batch.
  assert (Hcount : forall l n t, (foldl (fun '(n, s) id =>
            (n + match items s !! id with Some _ => 1 | None => 0 end, drop_row id s)) (n, t) l).2
            = foldl (fun s id => drop_row id s) t l).
  { induction l as [|x l IH]; intros n t; cbn; [done|]. apply IH. }
  rewrite Hcount. clear Hcount. revert s; induction Hnd as [|id ids Hid Hnd IH]; intros s; cbn; [done|].
  rewrite <- IH. unfold remove_row. by rewrite delete_fts_all_drop.
Qed.
Lemma delete_batch_count ids s :
  NoDup ids -> (forall id, id ∈ ids -> is_Some (items s !! id)) -> (delete_batch ids s).1 = len ids.
Proof.
  intros Hnd Hin. unfold delete_batch.
  set (s' := foldl _ s ids).
  assert (Hi : items s' = items s).
  { subst s'. clear. revert s; induction ids as [|id ids IH]; intros s; cbn; [done|].
    rewrite IH. apply delete_fts_frame. }
  assert (Hc : forall n, (foldl (fun '(n, s) id =>
            (n + match items s !! id with Some _ => 1 | None => 0 end, drop_row id s)) (n, s') ids).1
            = n + len ids); [|by rewrite Hc].
  rewrite <- Hi in Hin. clearbody s'. clear Hi s.
  revert s' Hin; induction Hnd as [|id ids Hid Hnd IH]; intros s Hin n; cbn; [rewrite len_nil; lia|].
  destruct (Hin id) as [r ->]; [left|]. rewrite IH, len_cons; [lia|].
  intros j Hj. rewrite items_drop_row, lookup_delete_ne by (intros ->; done). apply Hin. by right.
Qed.

Lemma items_remove_rows ids s : items (foldl remove_row s ids) = foldl (fun m id => delete id m) (items s) ids.
Proof.
  revert s; induction ids as [|id ids IH]; intros s; cbn; [done|].
  rewrite IH. unfold remove_row. by rewrite items_drop_row, (proj1 (delete_fts_frame id s)).
Qed.
Lemma delete_all_lookup {A} (ids : list string) (m : gmap string A) k :
  foldl (fun m id => delete id m) m ids !! k = if bool_decide (k ∈ ids) then None else m !! k.
Proof.
  revert m; induction ids as [|id ids IH]; intros m; cbn [foldl].
  - rewrite bool_decide_eq_false_2; [done|]. apply not_elem_of_nil.
  - rewrite IH. case_bool_decide as H1; case_bool_decide as H2; rewrite ?elem_of_cons in H2.
    + done.
    + tauto.
    + destruct H2 as [->|]; [apply lookup_delete_eq|done].
    + apply lookup_delete_ne. intros ->; tauto.
Qed.
Lemma remove_rows_ok ids s : store_ok s -> store_ok (foldl remove_row s ids).
Proof.
  revert s; induction ids as [|id ids IH]; intros s Hs; cbn; [done|].
  apply IH. by apply drop_row_ok.
Qed.

(** What a hard delete of distinct, present ids does. *)
Lemma hard_delete_spec ids s :
  NoDup ids -> (forall id, id ∈ ids -> is_Some (items s !! id)) ->
  hard_delete ids s = (len ids, foldl remove_row s ids).
Proof.
  unfold hard_delete. assert (Hlen : (length ids <= length ids)%nat) by lia. revert Hlen.
  generalize (length ids) at 2 3 as fuel. intros fuel. revert ids s.
  induction fuel as [|fuel IH]; intros ids s Hl Hnd Hin.
  - destruct ids; [|cbn in Hl; lia]. by rewrite len_nil.
  - destruct ids as [|x ids']; [by rewrite len_nil|]. set (ids := x :: ids') in *.
    cbn [hard_delete_in_tx]. unfold ids at 1.
    assert (Hnd' := Hnd). rewrite <- (take_drop EVICTION_BATCH ids) in Hnd'.
    apply NoDup_app in Hnd' as (Hnt & Hdis & Hnr).
    assert (Hb : delete_batch (take EVICTION_BATCH ids) s
                 = (len (take EVICTION_BATCH ids), foldl remove_row s (take EVICTION_BATCH ids))).
    { rewrite (surjective_pairing (delete_batch _ _)), delete_batch_spec by done.
      rewrite delete_batch_count; [done..|]. intros id Hid. apply Hin.
      rewrite <- (take_drop EVICTION_BATCH ids). apply elem_of_app. by left. }
    change (take EVICTION_BATCH (x :: ids')) with (take EVICTION_BATCH ids).
    change (drop EVICTION_BATCH (x :: ids')) with (drop EVICTION_BATCH ids). rewrite Hb.
    rewrite IH.
    + f_equal; [rewrite <- len_app; by rewrite take_drop|]. rewrite <- foldl_app. by rewrite take_drop.
    + rewrite length_drop. assert (length ids = S (length ids')) by done. unfold EVICTION_BATCH. lia.
    + done.
    + intros id Hid. rewrite items_remove_rows, delete_all_lookup, bool_decide_eq_false_2.
      * apply Hin. rewrite <- (take_drop EVICTION_BATCH ids). apply elem_of_app. by right.
      * intros Ht. by apply (Hdis id).
Qed.

(** ** Totals over the rows *)

Definition total (f : Row -> Z) (m : gmap string Row) : Z := map_fold (fun _ r n => f r + n) 0 m.
Fixpoint msum (f : Row -> Z) (l : list Row) : Z :=
  match l with [] => 0 | r :: l' => f r + msum f l' end.
Lemma total_delete f m k r : m !! k = Some r -> total f (delete k m) = total f m - f r.
Proof.
  intros Hk. unfold total.
  rewrite (map_fold_delete_L (fun _ r n => f r + n) 0 k r m); [lia|intros; lia|done].
Qed.
Lemma total_rows f s : total f (items s) = msum f (rows s).
Proof.
  unfold total, rows. rewrite map_fold_foldr.
  induction (map_to_list (items s)) as [|[k r] l IH]; cbn; [done|]. by rewrite <- IH.
Qed.
Lemma total_removed f (V : list Row) m :
  NoDup (r_id <$> V) -> (forall r, r ∈ V -> m !! r_id r = Some r) ->
  total f (foldl (fun m id => delete id m) m (r_id <$> V)) = total f m - msum f V.
Proof.
  revert m; induction V as [|r V IH]; intros m; cbn; [intros; lia|].
  intros [Hr Hnd]%NoDup_cons Hin. rewrite IH; [|done|].
  - rewrite (total_delete f m (r_id r) r); [lia|]. apply Hin. left.
  - intros q Hq. rewrite lookup_delete_ne; [apply Hin; by right|].
    intros He. apply Hr. rewrite He. apply list_elem_of_fmap. eauto.
Qed.
Lemma total_nonneg f m : (forall r, 0 <= f r) -> 0 <= total f m.
Proof.
  intros Hf. unfold total. apply (map_fold_weak_ind (fun n _ => 0 <= n)); [lia|].
  intros k r m' n _ Hn. specialize (Hf r). lia.
Qed.
Lemma total_subseteq f m m' : (forall r, 0 <= f r) -> m' ⊆ m -> total f m' <= total f m.
Proof.
  intros Hf. revert m. induction m' as [|k r m' Hk IH] using map_ind; intros m Hm.
  - unfold total at 1. rewrite map_fold_empty. by apply total_nonneg.
  - assert (Hmk : m !! k = Some r).
    { eapply lookup_weaken; [|exact Hm]. apply lookup_insert_eq. }
    assert (Hsub : m' ⊆ delete k m).
    { apply map_subseteq_spec. intros j x Hj. apply lookup_delete_Some. split; [congruence|].
      eapply lookup_weaken; [|exact Hm]. rewrite lookup_insert_ne by congruence. done. }
    specialize (IH _ Hsub). rewrite (total_delete f m k r Hmk) in IH.
    assert (Ht : total f (<[k := r]> m') = f r + total f m').
    { unfold total. rewrite map_fold_insert_L; [done|intros; lia|done]. }
    lia.
Qed.
Lemma live_total_total m : live_total m = total (fun r => opt_live (Some r)) m.
Proof. done. Qed.
Definition unpinned_size (r : Row) : Z := if unpinned r then r_bytes r else 0.
Lemma sum_bytes_total s : sum_bytes (unpinned_rows s) = total unpinned_size (items s).
Proof.
  rewrite total_rows. unfold unpinned_rows. induction (rows s) as [|r l IH]; cbn; [done|].
  unfold unpinned_size at 1. destruct (unpinned r); cbn; lia.
Qed.
Lemma msum_const f c l : (forall r, r ∈ l -> f r = c) -> msum f l = c * len l.
Proof.
  induction l as [|r l IH]; cbn; [intros _; unfold len; cbn; lia|]. intros Hc. rewrite len_cons.
  rewrite (Hc r) by left. rewrite IH; [lia|]. intros q Hq. apply Hc. by right.
Qed.

(** ** Victims *)

Lemma elem_of_victims keep s r :
  r ∈ victims keep s <-> (exists k, items s !! k = Some r) /\ unpinned r = true /\ keep r = true.
Proof.
  unfold victims, unpinned_rows. rewrite merge_sort_Permutation.
  rewrite list_elem_of_In, !filter_In, <- list_elem_of_In, elem_of_rows. tauto.
Qed.
Lemma victims_nodup keep s : keyed (items s) -> NoDup (r_id <$> victims keep s).
Proof.
  intros Hk. unfold victims. rewrite merge_sort_Permutation.
  by apply filter_nodup_ids, filter_nodup_ids, rows_ids_nodup.
Qed.
Lemma victims_sorted keep s : StronglySorted older (victims keep s).
Proof. apply StronglySorted_merge_sort; apply _. Qed.

(** [s'] is [s] less some unpinned live rows. *)
Record shrunk (s s' : Store) : Prop := {
  sh_ok : store_ok s -> store_ok s';
  sh_sub : items s' ⊆ items s;
  sh_lost k r : items s !! k = Some r -> items s' !! k = None -> unpinned r = true;
}.
Lemma shrunk_refl s : shrunk s s.
Proof. split; [done|done|congruence]. Qed.
Lemma shrunk_trans s1 s2 s3 : shrunk s1 s2 -> shrunk s2 s3 -> shrunk s1 s3.
Proof.
  intros [A1 B1 C1] [A2 B2 C2]. split; [auto|by etrans|].
  intros k r Hr Hn. destruct (items s2 !! k) as [q|] eqn:E; [|eauto].
  pose proof (lookup_weaken _ _ _ _ E B1) as Hq. assert (q = r) as -> by congruence. eauto.
Qed.

(** Removing some of the unpinned rows. *)
Lemma hard_delete_victims s V :
  store_ok s -> NoDup (r_id <$> V) -> (forall r, r ∈ V -> holds s r /\ unpinned r = true) ->
  exists s', hard_delete (r_id <$> V) s = (len V, s') /\ shrunk s s' /\
    (forall k r, items s' !! k = Some r <-> items s !! k = Some r /\ k ∉ (r_id <$> V)) /\
    (forall f, total f (items s') = total f (items s) - msum f V).
Proof.
  intros Hs Hnd Hin. exists (foldl remove_row s (r_id <$> V)).
  assert (Hlk : forall k r, items (foldl remove_row s (r_id <$> V)) !! k = Some r <->
                       items s !! k = Some r /\ k ∉ (r_id <$> V)).
  { intros k r. rewrite items_remove_rows, delete_all_lookup. case_bool_decide; naive_solver. }
  split_and!.
  - rewrite hard_delete_spec; [|done|].
    + f_equal. unfold len. by rewrite length_fmap.
    + intros id (r & -> & Hr)%list_elem_of_fmap. destruct (Hin r Hr) as [Hh _]. by exists r.
  - split; [intros _; by apply remove_rows_ok| |].
    + apply map_subseteq_spec. intros k r Hr. by apply Hlk in Hr as [? _].
    + intros k r Hr Hn. destruct (decide (k ∈ (r_id <$> V))) as [Hk|Hk].
      * apply list_elem_of_fmap in Hk as (q & -> & Hq). destruct (Hin q Hq) as [Hh Hu].
        unfold holds in Hh. congruence.
      * assert (items (foldl remove_row s (r_id <$> V)) !! k = Some r) by by apply Hlk. congruence.
  - done.
  - intros f. rewrite items_remove_rows. apply total_removed; [done|].
    intros r Hr. by destruct (Hin r Hr).
Qed.
Lemma victims_hold keep s r :
  store_ok s -> r ∈ victims keep s -> holds s r /\ unpinned r = true /\ keep r = true.
Proof.
  intros [[Hk _ _ _ _] _]. rewrite elem_of_victims. intros ([k Hr] & Hu & Hp). split_and!; [|done..].
  unfold holds. by rewrite (Hk _ _ Hr).
Qed.

(** At most one unpinned live row. *)
Definition lone (s : Store) : Prop :=
  forall a b r q, items s !! a = Some r -> items s !! b = Some q ->
    unpinned r = true -> unpinned q = true -> a = b.
Lemma shrunk_spares_pins s s' :
  shrunk s s' ->
  forall k r, items s !! k = Some r -> items s' !! k = None -> r_deleted r = false /\ r_pinned r = false.
Proof.
  intros [_ _ Hl] k r Hr Hn. specialize (Hl k r Hr Hn). unfold unpinned, is_live in Hl.
  by rewrite andb_true_iff, !negb_true_iff in Hl.
Qed.
Lemma lone_shrunk s s' : shrunk s s' -> lone s -> lone s'.
Proof.
  intros [_ Hsub _] Hl a b r q Hr Hq.
  exact (Hl a b r q (lookup_weaken _ _ _ _ Hr Hsub) (lookup_weaken _ _ _ _ Hq Hsub)).
Qed.
(** Only the protected row is left when everything else went. *)
Lemma only_kept_lone s s' :
  store_ok s -> (forall k r, items s' !! k = Some r ->
      items s !! k = Some r /\ k ∉ (r_id <$> victims (not_kept (keep_newest s)) s)) -> lone s'.
Proof.
  intros Hs Hlk a b r q Hr Hq Hur Huq.
  assert (Hone : forall k x, items s' !! k = Some x -> unpinned x = true -> k = keep_newest s).
  { intros k x Hx Hu. destruct (Hlk _ _ Hx) as [Hxs Hn]. destruct Hs as [[Hk _ _ _ _] _].
    destruct (String.eqb_spec k (keep_newest s)) as [|Hne]; [done|]. exfalso. apply Hn.
    apply list_elem_of_fmap. exists x. split; [by rewrite (Hk _ _ Hxs)|].
    apply elem_of_victims. split_and!; [by exists k|done|]. unfold not_kept.
    rewrite (Hk _ _ Hxs). apply negb_true_iff. by apply String.eqb_neq. }
  rewrite (Hone _ _ Hr Hur), (Hone _ _ Hq Huq). done.
Qed.

Lemma count_live_total s : store_ok s -> count s = live_total (items s).
Proof.
  intros [[_ Hl _ _ _] _]. unfold count. rewrite Hl, live_total_total.
  pose proof (total_nonneg (fun r => opt_live (Some r)) (items s)) as Hn.
  cbn in *. rewrite Z.max_r; [done|]. apply Hn. intros r. unfold is_live. by destruct (r_deleted r).
Qed.
Lemma unpinned_live r : unpinned r = true -> opt_live (Some r) = 1.
Proof. unfold unpinned, is_live. cbn. unfold is_live. by destruct (r_deleted r). Qed.

(** A sweep that hard-deletes the first [m] of its victims: what it removes is
    unpinned, wanted and older than every candidate it leaves. *)
Record swept (keep : Row -> bool) (s s' : Store) (n : Z) : Prop := {
  sw_shrunk : shrunk s s';
  sw_count : n = count s - count s';
  sw_wanted k r : items s !! k = Some r -> items s' !! k = None -> keep r = true;
  sw_oldest a r b q : items s !! a = Some r -> items s' !! a = None ->
    items s' !! b = Some q -> unpinned q = true -> keep q = true -> older r q;
}.
Lemma swept_refl keep s : swept keep s s 0.
Proof. split; [apply shrunk_refl|lia|congruence|congruence]. Qed.

Lemma swept_trans keep s1 s2 s3 n m :
  swept keep s1 s2 n -> swept keep s2 s3 m -> swept keep s1 s3 (n + m).
Proof.
  intros [A1 B1 C1 D1] [A2 B2 C2 D2]. split; [by eapply shrunk_trans|lia| |].
  - intros k r Hr Hn. destruct (items s2 !! k) as [q|] eqn:E; [|eauto].
    pose proof (lookup_weaken _ _ _ _ E (sh_sub _ _ A1)). assert (q = r) as -> by congruence. eauto.
  - intros a r b q Hr Hn Hq Hu Hk. destruct (items s2 !! a) as [x|] eqn:E.
    + pose proof (lookup_weaken _ _ _ _ E (sh_sub _ _ A1)). assert (x = r) as -> by congruence. eauto.
    + eapply D1; eauto. by eapply lookup_weaken, (sh_sub _ _ A2).
Qed.

Lemma prefix_swept keep s m :
  store_ok s -> exists s',
    hard_delete (r_id <$> take m (victims keep s)) s = (len (take m (victims keep s)), s') /\
    swept keep s s' (len (take m (victims keep s))) /\
    (forall k r, items s' !! k = Some r <->
       items s !! k = Some r /\ k ∉ (r_id <$> take m (victims keep s))) /\
    (forall f, total f (items s') = total f (items s) - msum f (take m (victims keep s))).
Proof.
  intros Hs. set (V := victims keep s).
  assert (Hsplit := take_drop m V). assert (Hkeyed : keyed (items s)) by apply Hs.
  assert (Hin : forall r, r ∈ take m V -> holds s r /\ unpinned r = true /\ keep r = true).
  { intros r Hr. apply victims_hold; [done|]. fold V. rewrite <- Hsplit. apply elem_of_app. by left. }
  assert (Hnd : NoDup (r_id <$> take m V)).
  { pose proof (victims_nodup keep s Hkeyed) as Hnd. fold V in Hnd.
    rewrite <- Hsplit, fmap_app in Hnd. by apply NoDup_app in Hnd as [? _]. }
  destruct (hard_delete_victims s (take m V) Hs Hnd) as (s' & -> & Hsh & Hlk & Htot).
  { intros r Hr. by destruct (Hin r Hr) as (? & ? & _). }
  assert (Hgone : forall k r, items s !! k = Some r -> items s' !! k = None -> r ∈ take m V).
  { intros k r Hr Hn. destruct (decide (k ∈ (r_id <$> take m V))) as [Hk|Hk].
    - apply list_elem_of_fmap in Hk as (q & -> & Hq). destruct (Hin q Hq) as [Hh _].
      unfold holds in Hh. by assert (q = r) as -> by congruence.
    - assert (items s' !! k = Some r) by by apply Hlk. congruence. }
  exists s'. split_and!; [done| |done..]. split; [done| | |].
  - assert (Hs' : store_ok s') by by apply (sh_ok _ _ Hsh).
    rewrite !count_live_total, (live_total_total (items s)), (live_total_total (items s')), Htot by done.
    rewrite (msum_const _ 1); [lia|].
    intros r Hr. apply unpinned_live. by destruct (Hin r Hr) as (_ & ? & _).
  - intros k r Hr Hn. by destruct (Hin r (Hgone k r Hr Hn)) as (_ & _ & ?).
  - intros a r b q Hr Hn Hq Hu Hk. pose proof (victims_sorted keep s) as Hsort. fold V in Hsort.
    rewrite <- Hsplit in Hsort. eapply StronglySorted_app_1_elem_of; [exact Hsort|by eapply Hgone|].
    apply Hlk in Hq as [Hq Hqn].
    assert (HqV : q ∈ take m V ++ drop m V).
    { rewrite Hsplit. apply elem_of_victims. eauto. }
    apply elem_of_app in HqV as [Hbad|?]; [|done]. destruct Hqn.
    rewrite <- (Hkeyed _ _ Hq). by apply list_elem_of_fmap_2.
Qed.

Lemma evict_over_cap_spec max s n s' :
  store_ok s -> 0 <= max -> evict_over_cap max s = (n, s') ->
  swept (not_kept (keep_newest s)) s s' n /\ (count s' <= max \/ lone s') /\
  Z.min (count s) max <= count s'.
Proof.
  intros Hs Hm. unfold evict_over_cap. destruct (Z.leb_spec (count s) max) as [Hle|Hgt].
  { intros [= <- <-]. split_and!; [apply swept_refl|by left|lia]. }
  set (keep := not_kept _). set (ex := Z.to_nat _).
  destruct (prefix_swept keep s ex Hs) as (s1 & -> & Hsw & Hlk & _).
  intros [= <- <-]. pose proof (sw_count _ _ _ _ Hsw) as Hc.
  assert (Hlen : len (take ex (victims keep s)) = Z.min (count s - max) (len (victims keep s))).
  { unfold len. rewrite length_take. lia. }
  split_and!; [done| |lia].
  destruct (Z.le_gt_cases (count s - max) (len (victims keep s))); [left; lia|right].
  apply (only_kept_lone s); [done|]. intros k r Hr. apply Hlk in Hr as [Hr Hk].
  rewrite take_ge in Hk; [done|]. unfold len in *. lia.
Qed.

(** The running total names a prefix that covers the excess, and no longer one
    than that takes. *)
Lemma byte_victims_spec before ex l :
  (forall r, r ∈ l -> 0 <= r_bytes r) ->
  exists n, byte_victims before ex l = take n l /\
    ((length l <= n)%nat \/ ex <= before + sum_bytes (take n l)) /\
    (forall m, (m < n)%nat -> (m < length l)%nat -> before + sum_bytes (take m l) < ex).
Proof.
  revert before; induction l as [|r l IH]; intros before Hb; cbn.
  - exists 0%nat. split_and!; [done|left; cbn; lia|intros; lia].
  - destruct (IH (before + r_bytes r)) as (n & -> & Hend & Hmin).
    { intros q Hq. apply Hb. by right. }
    assert (Hr : 0 <= r_bytes r) by (apply Hb; left).
    destruct (Z.ltb_spec before ex) as [Hlt|Hge].
    + exists (S n). cbn. split_and!; [done| |].
      * destruct Hend as [?|?]; [left; lia|right; lia].
      * intros [|m] H1 H2; cbn; [lia|]. specialize (Hmin m). lia.
    + exists 0%nat. cbn. split_and!; [|right; lia|intros; lia].
      destruct n as [|n]; [done|]. destruct l as [|q l]; [done|].
      specialize (Hmin 0%nat). cbn in Hmin. lia.
Qed.
Definition sizes_ok (s : Store) : Prop :=
  (forall k r, items s !! k = Some r -> 0 <= r_bytes r) /\ sum_bytes (unpinned_rows s) <= i64_max.
Lemma msum_sizes V : (forall r, r ∈ V -> unpinned r = true) -> msum unpinned_size V = sum_bytes V.
Proof.
  induction V as [|r V IH]; cbn; [done|]. intros Hu. rewrite IH.
  - unfold unpinned_size. by rewrite (Hu r) by left.
  - intros q Hq. apply Hu. by right.
Qed.
Lemma msum_ext f g l : (forall r, r ∈ l -> f r = g r) -> msum f l = msum g l.
Proof.
  induction l as [|r l IH]; cbn; [done|]. intros Hall. rewrite (Hall r) by left.
  f_equal. apply IH. intros q Hq. apply Hall. by right.
Qed.
Lemma total_nonneg_in f m : (forall k r, m !! k = Some r -> 0 <= f r) -> 0 <= total f m.
Proof.
  induction m as [|k r m Hk IH] using map_ind; intros Hf; [unfold total; rewrite map_fold_empty; lia|].
  unfold total. rewrite map_fold_insert_L; [|intros; lia|done]. fold (total f m).
  pose proof (Hf k r (lookup_insert_eq _ _ _)). specialize (IH ltac:(intros j q Hq;
    apply (Hf j); rewrite lookup_insert_ne; congruence)). lia.
Qed.
Lemma unpinned_bytes_total s : sizes_ok s -> unpinned_bytes s = total unpinned_size (items s).
Proof.
  intros [Hn _]. unfold unpinned_bytes. rewrite sum_bytes_total, Z.max_r; [done|].
  apply total_nonneg_in. intros k r Hr. unfold unpinned_size. case_match; [eauto|lia].
Qed.
Lemma sizes_shrunk s s' : sizes_ok s -> shrunk s s' -> sizes_ok s' /\ unpinned_bytes s' <= unpinned_bytes s.
Proof.
  intros [Hn Hm] [_ Hsub _].
  assert (Hn' : forall k r, items s' !! k = Some r -> 0 <= r_bytes r).
  { intros k r Hr. apply (Hn k). by eapply lookup_weaken. }
  assert (Hz : forall t, (forall k r, items t !! k = Some r -> 0 <= r_bytes r) ->
            total unpinned_size (items t) = total (fun r => Z.max 0 (unpinned_size r)) (items t)).
  { intros t Ht. rewrite !total_rows. apply msum_ext. intros r [k Hr]%elem_of_rows.
    unfold unpinned_size. case_match; [|done]. specialize (Ht _ _ Hr). lia. }
  assert (Hle : total unpinned_size (items s') <= total unpinned_size (items s)).
  { rewrite (Hz s), (Hz s') by done. apply total_subseteq; [intros; lia|done]. }
  unfold unpinned_bytes, sizes_ok in *. rewrite !sum_bytes_total in *. split; [|lia]. split; [done|lia].
Qed.
Lemma few_rows_lone s : store_ok s -> has_byte_victim s = false -> lone s.
Proof.
  intros [[Hk _ _ _ _] _] Hb a b r q Hr Hq Hur Huq.
  assert (Hin : forall k x, items s !! k = Some x -> unpinned x = true -> x ∈ unpinned_rows s).
  { intros k x Hx Hu. unfold unpinned_rows. apply list_elem_of_In, filter_In. split; [|done].
    apply list_elem_of_In, elem_of_rows. by exists k. }
  pose proof (Hin _ _ Hr Hur) as H1. pose proof (Hin _ _ Hq Huq) as H2.
  rewrite <- (Hk _ _ Hr), <- (Hk _ _ Hq). unfold has_byte_victim in Hb.
  destruct (unpinned_rows s) as [|x [|y l]]; [by apply elem_of_nil in H1| |].
  - apply list_elem_of_singleton in H1, H2. congruence.
  - rewrite !len_cons in Hb. pose proof (len_nonneg l). lia.
Qed.
Lemma evict_over_byte_cap_spec max s n s' :
  store_ok s -> sizes_ok s -> 0 <= max -> evict_over_byte_cap max s = (n, s') ->
  swept (not_kept (keep_newest s)) s s' n /\ (unpinned_bytes s' <= max \/ lone s').
Proof.
  intros Hs Hz Hm. unfold evict_over_byte_cap.
  destruct (has_byte_victim s) eqn:Hb; cbn [negb orb].
  2:{ intros [= <- <-]. split; [apply swept_refl|right]. by apply few_rows_lone. }
  destruct (Z.leb_spec (unpinned_bytes s) max) as [Hle|Hgt].
  { intros [= <- <-]. split; [apply swept_refl|by left]. }
  set (keep := not_kept _).
  assert (Hub : unpinned_bytes s = sum_bytes (unpinned_rows s)).
  { pose proof (unpinned_bytes_total s Hz). by rewrite sum_bytes_total. }
  unfold clamp_i64. rewrite !Z.min_l by (destruct Hz; lia).
  destruct (byte_victims_spec 0 (unpinned_bytes s - max) (victims keep s)) as (m & -> & Hend & _).
  { intros r Hr. destruct (victims_hold _ _ _ Hs Hr) as (Hh & _). by eapply (proj1 Hz). }
  destruct (prefix_swept keep s m Hs) as (s1 & -> & Hsw & Hlk & Htot). intros [= <- <-].
  split; [done|]. destruct Hend as [Hall|Henough].
  - right. apply (only_kept_lone s); [done|]. intros k r Hr. apply Hlk in Hr as [Hr Hk].
    by rewrite take_ge in Hk.
  - left. destruct (sizes_shrunk s s1 Hz (sw_shrunk _ _ _ _ Hsw)) as [Hz1 _].
    rewrite (unpinned_bytes_total s1 Hz1), Htot, <- (unpinned_bytes_total s Hz), msum_sizes; [lia|].
    intros r Hr. assert (HrV : r ∈ victims keep s).
    { rewrite <- (take_drop m (victims keep s)). apply elem_of_app. by left. }
    by destruct (victims_hold _ _ _ Hs HrV) as (_ & ? & _).
Qed.
(** The age sweep ends, and leaves nothing older than the cutoff but pins. *)
Lemma evict_batches_spec fuel cutoff removed s :
  store_ok s -> total (fun _ => 1) (items s) < Z.of_nat fuel ->
  exists n s', evict_batches fuel cutoff removed s = Some (removed + n, s') /\
    swept (expired cutoff) s s' n /\
    (forall k r, items s' !! k = Some r -> unpinned r = true -> cutoff <= r_created_at r).
Proof.
  revert removed s; induction fuel as [|fuel IH]; intros removed s Hs Hf.
  { assert (0 <= total (fun _ => 1) (items s)) by (apply total_nonneg; intros _; lia). lia. }
  cbn [evict_batches]. set (V := victims (expired cutoff) s).
  destruct (prefix_swept (expired cutoff) s EVICTION_BATCH Hs) as (s1 & Hdel & Hsw & Hlk & Htot).
  fold V in Hdel, Hsw, Hlk, Htot.
  assert (Hdone : take EVICTION_BATCH V = V -> forall k r, items s1 !! k = Some r ->
            unpinned r = true -> cutoff <= r_created_at r).
  { intros Hall k r [Hr Hk]%Hlk Hu. rewrite Hall in Hk.
    destruct (Z.ltb_spec (r_created_at r) cutoff) as [Hlt|]; [|done]. destruct Hk.
    assert (r ∈ V) by (apply elem_of_victims; split_and!; [eauto|done|by apply Z.ltb_lt]).
    assert (Hkey : keyed (items s)) by apply Hs.
    rewrite <- (Hkey _ _ Hr). by apply list_elem_of_fmap_2. }
  revert Hdel Hsw Hlk Htot Hdone.
  destruct (take EVICTION_BATCH V) as [|v vs] eqn:Ht; intros Hdel Hsw Hlk Htot Hdone.
  - exists 0, s. split_and!; [f_equal; f_equal; lia|apply swept_refl|].
    assert (HV : V = []) by by destruct V. intros k r Hr Hu. apply (Hdone (eq_sym HV) k r); [|done].
    apply Hlk. split; [done|]. apply not_elem_of_nil.
  - rewrite Hdel. destruct (Nat.ltb_spec (length (v :: vs)) EVICTION_BATCH) as [Hlt|Hge].
    + exists (len (v :: vs)), s1. split_and!; [done|done|]. apply Hdone.
      rewrite <- Ht in Hlt |- *. apply take_ge. rewrite length_take in Hlt. lia.
    + destruct (IH (removed + len (v :: vs)) s1) as (n & s2 & -> & Hsw2 & Hold).
      * apply (sh_ok _ _ (sw_shrunk _ _ _ _ Hsw)), Hs.
      * rewrite Htot, (msum_const _ 1), len_cons by done. pose proof (len_nonneg vs). lia.
      * exists (len (v :: vs) + n), s2. split_and!; [f_equal; f_equal; lia| |done].
        by eapply swept_trans.
Qed.
Lemma size_total m : total (fun _ => 1) m = Z.of_nat (size m).
Proof.
  induction m as [|k r m Hk IH] using map_ind.
  - unfold total. by rewrite map_fold_empty, map_size_empty.
  - unfold total. rewrite map_fold_insert_L; [|intros; lia|done]. fold (total (fun _ => 1) m).
    rewrite map_size_insert_None by done. lia.
Qed.
Lemma size_shrunk s s' : shrunk s s' -> (size (items s') <= size (items s))%nat.
Proof. intros [_ Hsub _]. by apply map_subseteq_size. Qed.
Lemma count_shrunk s s' : store_ok s -> shrunk s s' -> count s' <= count s.
Proof.
  intros Hs Hsh. rewrite !count_live_total by (try apply (sh_ok _ _ Hsh); done).
  rewrite (live_total_total (items s)), (live_total_total (items s')).
  apply total_subseteq; [|apply Hsh]. intros r. cbn. by destruct (is_live r).
Qed.
Lemma evict_older_than_spec fuel cutoff s :
  store_ok s -> Z.of_nat (size (items s)) < Z.of_nat fuel ->
  exists n s', evict_older_than fuel cutoff s = Some (n, s') /\ swept (expired cutoff) s s' n /\
    (forall k r, items s' !! k = Some r -> unpinned r = true -> cutoff <= r_created_at r).
Proof.
  rewrite <- size_total. intros Hs Hf. unfold evict_older_than. destruct (has_expired cutoff s) eqn:E.
  - destruct (evict_batches_spec fuel cutoff 0 s Hs Hf) as (n & s' & He & ? & ?). by exists n, s'.
  - exists 0, s. split_and!; [done|apply swept_refl|]. intros k r Hr Hu.
    destruct (Z.ltb_spec (r_created_at r) cutoff) as [Hlt|]; [|done]. exfalso.
    unfold has_expired in E. assert (existsb (expired cutoff) (unpinned_rows s) = true); [|congruence].
    apply existsb_exists. exists r. split; [|by apply Z.ltb_lt].
    unfold unpinned_rows. apply filter_In. split; [|done].
    apply list_elem_of_In, elem_of_rows. by exists k.
Qed.

(** The newest unpinned row is at least as new as every other. *)
Lemma older_max x y :
  older x (cmp_max (cmp_on row_key key_cmp) x y) /\ older y (cmp_max (cmp_on row_key key_cmp) x y).
Proof.
  unfold older, cmp_max, cmp_on. destruct (key_cmp (row_key x) (row_key y)) eqn:Ek; cbn;
    rewrite ?Ek, ?(cmp_refl key_cmp); split; try done.
  - apply (cmp_eq_iff (cmp:=key_cmp)) in Ek. by rewrite Ek, (cmp_refl key_cmp).
  - apply (cmp_gt_lt key_cmp) in Ek. by rewrite Ek.
Qed.
Lemma newest_is_newest l r : newest l = Some r -> forall q, q ∈ l -> older q r.
Proof.
  revert r; induction l as [|x l IH]; intros r; cbn [newest]; [done|].
  destruct (newest l) as [y|] eqn:E; intros [= <-] q [->|Hq]%elem_of_cons.
  - apply older_max.
  - etrans; [by apply IH|apply older_max].
  - unfold older. by rewrite (cmp_refl key_cmp).
  - apply newest_none in E. subst. by apply elem_of_nil in Hq.
Qed.

Lemma retention_bounds fuel p now s :
  store_ok s -> sizes_ok s -> 0 <= history_limit p -> 0 <= storage_quota_bytes p ->
  Z.of_nat (size (items s)) < Z.of_nat fuel ->
  exists n s', enforce_retention fuel p now s = Some (n, s') /\
    shrunk s s' /\ n = count s - count s' /\
    (forall k r, items s !! k = Some r -> items s' !! k = None -> r_deleted r = false /\ r_pinned r = false) /\
    (count s' <= history_limit p \/ lone s') /\
    (unpinned_bytes s' <= storage_quota_bytes p \/ lone s') /\
    (0 < retention_days p -> forall k r, items s' !! k = Some r -> unpinned r = true ->
       now - retention_days p * DAY_MS <= r_created_at r).
Proof.
  intros Hs Hz Hl Hq Hf. unfold enforce_retention.
  destruct (evict_over_cap (history_limit p) s) as [a s1] eqn:E1.
  destruct (evict_over_cap_spec _ _ _ _ Hs Hl E1) as ([H1 C1 _ _] & B1 & _).
  pose proof (sh_ok _ _ H1 Hs) as Hs1. pose proof (sizes_shrunk _ _ Hz H1) as [Hz1 _].
  destruct (evict_over_byte_cap (storage_quota_bytes p) s1) as [b s2] eqn:E2.
  destruct (evict_over_byte_cap_spec _ _ _ _ Hs1 Hz1 Hq E2) as ([H2 C2 _ _] & B2).
  pose proof (sh_ok _ _ H2 Hs1) as Hs2. pose proof (sizes_shrunk _ _ Hz1 H2) as [Hz2 _].
  assert (Hcap : forall t, shrunk s1 t -> store_ok t -> count t <= history_limit p \/ lone t).
  { intros t Ht Hok. destruct B1 as [B1|B1]; [left|right; by eapply lone_shrunk].
    pose proof (count_shrunk _ _ Hs1 Ht). lia. }
  pose proof (shrunk_trans _ _ _ H1 H2) as H12.
  destruct (Z.ltb_spec 0 (retention_days p)) as [Hd|Hd].
  - destruct (evict_older_than_spec fuel (now - retention_days p * DAY_MS) s2 Hs2) as (c & s3 & -> & [H3 C3 _ _] & B3).
    { pose proof (size_shrunk _ _ H12). lia. }
    pose proof (sizes_shrunk _ _ Hz2 H3) as [_ Hle]. exists (a + b + c), s3.
    pose proof (shrunk_trans _ _ _ H12 H3) as H13.
    split_and!; [done|done|lia|exact (shrunk_spares_pins _ _ H13)| | |done].
    + apply Hcap; [by eapply shrunk_trans|]. by apply (sh_ok _ _ H3).
    + destruct B2 as [B2|B2]; [left; lia|right; exact (lone_shrunk _ _ H3 B2)].
  - exists (a + b), s2. split_and!; [done|done|lia|exact (shrunk_spares_pins _ _ H12)|by apply Hcap|done|lia].
Qed.

(** ** Properties *)

(** C27: enforcing the retention policy always ends, reports exactly how many
    items it removed, removes nothing but unpinned live items, and leaves the
    history within its item limit and its storage quota unless a single
    unpinned item is left, and with nothing unpinned older than the retention
    period. *)
Theorem retention_enforced fuel p now s :
  store_ok s -> sizes_ok s -> 0 <= history_limit p -> 0 <= storage_quota_bytes p ->
  Z.of_nat (size (items s)) < Z.of_nat fuel ->
  exists n s', enforce_retention fuel p now s = Some (n, s') /\
    shrunk s s' /\ n = count s - count s' /\
    (forall k r, items s !! k = Some r -> items s' !! k = None -> r_deleted r = false /\ r_pinned r = false) /\
    (count s' <= history_limit p \/ lone s') /\
    (unpinned_bytes s' <= storage_quota_bytes p \/ lone s') /\
    (0 < retention_days p -> forall k r, items s' !! k = Some r -> unpinned r = true ->
       now - retention_days p * DAY_MS <= r_created_at r).
Proof. apply retention_bounds. Qed.

(** The two caps take the oldest items first and never the newest unpinned
    one, so an item just copied is never evicted at once. *)
Theorem caps_evict_oldest_first max s n s' :
  store_ok s -> sizes_ok s -> 0 <= max ->
  evict_over_cap max s = (n, s') \/ evict_over_byte_cap max s = (n, s') ->
  (forall r, newest (unpinned_rows s) = Some r -> holds s' r) /\
  (forall a r b q, items s !! a = Some r -> items s' !! a = None ->
     items s' !! b = Some q -> unpinned q = true -> older r q).
Proof.
  intros Hs Hz Hm Hev. assert (Hsw : swept (not_kept (keep_newest s)) s s' n).
  { destruct Hev as [Hev|Hev]; [by eapply evict_over_cap_spec|by eapply evict_over_byte_cap_spec]. }
  assert (Hkey : keyed (items s)) by apply Hs. destruct Hsw as [Hsh _ Hw Ho]. split.
  - intros r Hr. pose proof (newest_in _ _ Hr) as Hin. unfold unpinned_rows in Hin.
    apply list_elem_of_In, filter_In in Hin as [[k Hk]%list_elem_of_In%elem_of_rows _].
    rewrite <- (Hkey _ _ Hk) in Hk. unfold holds.
    destruct (items s' !! r_id r) as [q|] eqn:E.
    + pose proof (lookup_weaken _ _ _ _ E (sh_sub _ _ Hsh)). congruence.
    + specialize (Hw _ _ Hk E). unfold not_kept, keep_newest in Hw.
      by rewrite Hr, String.eqb_refl in Hw.
  - intros a r b q Hr Hn Hq Hu. pose proof (lookup_weaken _ _ _ _ Hq (sh_sub _ _ Hsh)) as Hqs.
    destruct (not_kept (keep_newest s) q) eqn:E; [by eapply Ho|].
    assert (Hin : forall k x, items s !! k = Some x -> unpinned x = true -> x ∈ unpinned_rows s).
    { intros k x Hx Hxu. unfold unpinned_rows. apply list_elem_of_In, filter_In. split; [|done].
      apply list_elem_of_In, elem_of_rows. by exists k. }
    pose proof (sh_lost _ _ Hsh _ _ Hr Hn) as Hru.
    unfold not_kept, keep_newest in E. apply negb_false_iff, String.eqb_eq in E.
    destruct (newest (unpinned_rows s)) as [x|] eqn:Ex.
    + assert (q = x) as ->; [|by eapply newest_is_newest, Hin].
      pose proof (newest_in _ _ Ex) as Hx. unfold unpinned_rows in Hx.
      apply list_elem_of_In, filter_In in Hx as [[k Hk]%list_elem_of_In%elem_of_rows _].
      rewrite <- (Hkey _ _ Hk) in Hk. rewrite <- (Hkey _ _ Hqs) in Hqs. congruence.
    + apply newest_none in Ex. specialize (Hin _ _ Hqs Hu). rewrite Ex in Hin. by apply elem_of_nil in Hin.
Qed.
End Retention.

(** ** Witnesses *)

Module RetentionDemo.
#[export] Existing Instances HistoryDemo.codecs HistoryDemo.json HistoryDemo.laws HistoryDemo.digest.
Definition policy : RetentionPolicy :=
  {| history_limit := 2; storage_quota_bytes := 7; retention_days := 1 |}.
Lemma sizes s : forallb (fun p => 0 <=? r_bytes p.2) (map_to_list (items s)) = true ->
  sum_bytes (unpinned_rows s) <= i64_max -> sizes_ok s.
Proof.
  rewrite forallb_forall. intros Hall Hsum. split; [|done]. intros k r Hr.
  apply elem_of_map_to_list, list_elem_of_In, Hall in Hr. cbn in Hr. lia.
Qed.
Lemma three_sizes : sizes_ok HistoryDemo.three.
Proof. apply sizes; vm_compute; [reflexivity|discriminate]. Qed.
End RetentionDemo.
Import RetentionDemo.

Lemma retention_enforced_witness :
  exists s', enforce_retention 9 policy 3000 HistoryDemo.three = Some (2, s') /\
    (unpinned_bytes s' <= 7 \/ lone s').
Proof.
  destruct (retention_enforced 9 policy 3000 HistoryDemo.three) as (n & s' & He & _ & _ & _ & _ & Hb & _);
    [apply HistoryDemo.three_ok|apply three_sizes|by vm_compute..|].
  exists s'. split; [|exact Hb]. rewrite He. f_equal. f_equal.
  assert (option_map fst (enforce_retention 9 policy 3000 HistoryDemo.three) = Some 2) as H2 by by vm_compute.
  rewrite He in H2. cbn in H2. congruence.
Defined.

Lemma caps_evict_oldest_first_witness :
  exists r, newest (unpinned_rows HistoryDemo.three) = Some r /\ r_id r = "c"%string /\
    holds (evict_over_cap 1 HistoryDemo.three).2 r.
Proof.
  destruct (evict_over_cap 1 HistoryDemo.three) as [n s'] eqn:E.
  destruct (newest (unpinned_rows HistoryDemo.three)) as [r|] eqn:Hr; [|vm_compute in Hr; discriminate Hr].
  exists r. split; [reflexivity|]. split; [vm_compute in Hr; injection Hr as <-; reflexivity|].
  destruct (caps_evict_oldest_first 1 HistoryDemo.three n s') as [H _];
    [apply HistoryDemo.three_ok|apply three_sizes|by vm_compute|by left|exact (H r Hr)].
Defined.
