(* ===== verification/Organization.v ===== *)
(** Replicated organization records ([copypaste-core/src/storage/organization.rs]):
    tags, tag memberships and pins, each a last-writer-wins record of its own,
    and the tables they are projected to. *)

From S2P Require Import Prelude Float64 Bytes Text Wire Binary Payload Table Items.

(** ** Records *)

Definition CONTENT_TYPE : string := "application/vnd.copypaste.organization+json".
Definition PREFIX : string := "org:v1:".
Definition MAX_RECORD_BYTES : Z := 2048.
Definition MAX_HISTORY_TAGS : Z := 500.
Definition MAX_TAG_CLIPS : Z := 500.
Definition MAX_TAG_NAME_CHARS : Z := 64.

Inductive OrgRecord :=
| RTag (id name : string) (deleted : bool)
| RMembership (clip_id tag_id : string) (assigned : bool)
| RPin (clip_id : string) (pinned : bool) (order : option f64).

Definition is_record_id (id : string) : bool := str_starts_with PREFIX id.
Definition identifier (id : string) : bool :=
  negb (String.eqb id "") && (str_len id <=? 128) && negb (is_record_id id).

(** The key a record's id is the digest of. *)
Definition record_key (r : OrgRecord) : string :=
  match r with
  | RTag id _ _ => String.append "tag:" id
  | RMembership clip tag _ =>
    String.append "membership:" (String.append (show_nat (String.length clip))
      (String.append ":" (String.append clip (String.append ":" tag))))
  | RPin clip _ _ => String.append "pin:" clip
  end.
Definition record_valid (r : OrgRecord) : bool :=
  match r with
  | RTag id name _ =>
    identifier id && negb (String.eqb (trim name) "") && String.eqb name (trim name)
    && (char_length name <=? MAX_TAG_NAME_CHARS) && negb (has_control (as_bytes name))
  | RMembership clip tag _ => identifier clip && identifier tag
  | RPin clip pinned order =>
    identifier clip
    && (if pinned then match order with Some o => is_finite o | None => false end
        else match order with None => true | Some _ => false end)
  end.

(** What a record is about: a later record of the same slot replaces it. *)
Inductive Slot := STag (id : string) | SMembership (clip tag : string) | SPin (clip : string).
#[export] Instance slot_eq_dec : EqDecision Slot.
Proof. solve_decision. Defined.
Definition slot (r : OrgRecord) : Slot :=
  match r with RTag id _ _ => STag id | RMembership c t _ => SMembership c t | RPin c _ _ => SPin c end.

(** Library code: serde's rendering of a record and its parser. *)
Class OrgCodec := {
  serde_record : string -> option OrgRecord;
  serde_record_string : OrgRecord -> option string;
}.

(** ** Statements *)

(** [apply_pin_projection]. *)
Definition apply_pin_projection (id : string) (s : Store) : Store :=
  match pin_states s !! id with
  | Some p => match items s !! id with
              | Some r => if negb (r_deleted r) && (r_pin_at r <=? ps_updated_at p)
                          then write_row (set_pin (ps_pinned p) (ps_order p) (ps_updated_at p) r) s
                          else s
              | None => s
              end
  | None => s
  end.
(** [Record::project]. *)
Definition project (r : OrgRecord) (stamp : Z) (s : Store) : Store :=
  match r with
  | RTag id name deleted => with_tags (<[id := (name, deleted)]> (tags s)) (clip_tags s) (pin_states s) s
  | RMembership clip tag assigned =>
    with_tags (tags s) (<[(clip, tag) := assigned]> (clip_tags s)) (pin_states s) s
  | RPin clip pinned order =>
    apply_pin_projection clip
      (with_tags (tags s) (clip_tags s)
         (<[clip := {| ps_pinned := pinned; ps_order := order; ps_updated_at := stamp |}]> (pin_states s)) s)
  end.

Section Organization.
Context {DG : Digest} {OC : OrgCodec} {K : ItemKey}.

(** [Record::id]. *)
Definition record_id (r : OrgRecord) : string :=
  String.append PREFIX (plaintext_content_hash (as_bytes (record_key r))).

Definition valid_wire (id content_type content : string) (deleted : bool) : bool :=
  if negb (String.eqb content_type CONTENT_TYPE) then negb (is_record_id id)
  else negb deleted && (str_len content <=? MAX_RECORD_BYTES)
       && match serde_record content with
          | Some r => record_valid r && String.eqb (record_id r) id
          | None => false
          end.

(** [upsert_in_tx]: [None] is the refusal [Ok(false)].  A record whose bytes are
    missing is refused by the columns' [NOT NULL]. *)
Definition org_upsert_in_tx (id content_type hash origin : string) (ciphertext nonce : option bytes)
    (created_at : Z) (deleted : bool) (search_text : option string) (s : Store)
    : result StoreError (option Store) :=
  match search_text with
  | None => Ok None
  | Some text =>
    if negb (valid_wire id content_type text deleted) then Ok None
    else match serde_record text with
         | None => Err InvalidHistoryQuery
         | Some r =>
           match ciphertext, nonce with
           | Some c, Some n =>
             let row := {| o_id := id; o_ciphertext := c; o_nonce := n; o_hash := hash;
                           o_created_at := created_at; o_origin := origin |} in
             Ok (Some (project r created_at (with_organization (<[id := row]> (organization s)) s)))
           | _, _ => Err (Sqlite ConstraintViolation)
           end
         end
  end.

(** [write]: a change made on this device; [rng] gives the nonce drawn for a
    record. *)
Definition org_write (rng : string -> bytes) (r : OrgRecord) (now : Z) (s : Store) : result StoreError Store :=
  _ ← refuse_if (negb (record_valid r)) InvalidHistoryQuery;
  let id := record_id r in
  text ← ok_or InvalidHistoryQuery (serde_record_string r);
  let hash := plaintext_content_hash (as_bytes text) in
  let previous := organization s !! id in
  if match previous with Some p => String.eqb (o_hash p) hash | None => false end then Ok s
  else
    let pin_stamp := match r with
                     | RPin clip _ _ => match items s !! clip with Some q => r_pin_at q | None => 0 end
                     | _ => 0
                     end in
    let stamp := Z.max (match previous with
                        | Some p => Z.max (i64_saturating_add (o_created_at p) 1) now
                        | None => now
                        end) pin_stamp in
    bytes ← map_err (fun _ => InvalidHistoryQuery) (seal (rng id) (as_bytes text) id);
    o ← org_upsert_in_tx id CONTENT_TYPE hash "" (Some bytes) (Some []) stamp false (Some text) s;
    Ok (default s o).
Definition write_pin (rng : string -> bytes) (id : string) (now : Z) (s : Store) : result StoreError Store :=
  match items s !! id with
  | Some r => if r_deleted r then Ok s else org_write rng (RPin id (r_pinned r) (r_pin_order r)) now s
  | None => Ok s
  end.

(** ** [mutate_history_tags] *)

Inductive HistoryTagMutation :=
| Save (id : option string) (name : string)
| Delete (id : string)
| Assign (clip_ids tag_ids : list string) (assigned : bool).

Definition live_tag (id : string) (s : Store) : option string :=
  match tags s !! id with Some (name, false) => Some name | _ => None end.
Definition live_tags (s : Store) : list (string * string) :=
  omap (fun p : string * (string * bool) => if p.2.2 then None else Some (p.1, p.2.1))
       (map_to_list (tags s)).
Definition pinned_clip (id : string) (s : Store) : bool :=
  match items s !! id with Some r => negb (r_deleted r) && r_pinned r | None => false end.

(** [for clip_id in clip_ids], [for tag_id in tag_ids]: the whole transaction is
    undone when one step fails. *)
Fixpoint assign_clips (rng : string -> bytes) (tag : string) (clips : list string) (assigned : bool) (now : Z) (s : Store)
    : result StoreError Store :=
  match clips with
  | [] => Ok s
  | clip :: clips =>
    _ ← refuse_if (negb (pinned_clip clip s)) InvalidHistoryQuery;
    s ← org_write rng (RMembership clip tag assigned) now s;
    assign_clips rng tag clips assigned now s
  end.
Fixpoint assign_tags (rng : string -> bytes) (tag_ids clips : list string) (assigned : bool) (now : Z) (s : Store)
    : result StoreError Store :=
  match tag_ids with
  | [] => Ok s
  | tag :: tag_ids =>
    _ ← refuse_if (match live_tag tag s with Some _ => false | None => true end) InvalidHistoryQuery;
    s ← assign_clips rng tag clips assigned now s;
    assign_tags rng tag_ids clips assigned now s
  end.
(** [uuid] is the id [Uuid::new_v4] returns. *)
Definition mutate_history_tags (rng : string -> bytes) (m : HistoryTagMutation) (uuid : string) (now : Z) (s : Store)
    : result StoreError Store :=
  match m with
  | Save id name =>
    tag ← (match id with
          | Some t => match live_tag t s with Some _ => Ok t | None => Err InvalidHistoryQuery end
          | None => _ ← refuse_if (MAX_HISTORY_TAGS <=? len (live_tags s)) InvalidHistoryQuery; Ok uuid
          end : result StoreError string);
    let name := trim name in
    _ ← refuse_if (existsb (fun p => nocase_eqb p.2 name && negb (String.eqb p.1 tag)) (live_tags s))
          InvalidHistoryQuery;
    org_write rng (RTag tag name false) now s
  | Delete id => match live_tag id s with
                 | Some name => org_write rng (RTag id name true) now s
                 | None => Ok s
                 end
  | Assign clips tag_ids assigned =>
    _ ← refuse_if ((MAX_TAG_CLIPS <? len clips) || (MAX_HISTORY_TAGS <? len tag_ids)
                   || (5000 <? len clips * len tag_ids)) InvalidHistoryQuery;
    assign_tags rng tag_ids clips assigned now s
  end.
End Organization.

(** ** Keys name slots *)

Lemma record_key_slot r q : record_key r = record_key q <-> slot r = slot q.
Proof.
  split.
  - destruct r as [i n d|c t a|c p o], q as [i' n' d'|c' t' a'|c' p' o']; cbn; try done.
    + intros H. injection H as H. rewrite !append_empty in H. by subst.
    + intros H. injection H as H. rewrite !append_empty in H. apply colon_split in H as [Hn H]; [|apply show_nat_no_colon..].
      apply show_nat_inj in Hn. apply append_same_length in H as [-> H]; [|done]. by apply append_same_length in H as [_ ->].
    + intros H. injection H as H. rewrite !append_empty in H. by subst.
  - destruct r, q; cbn; intros [=]; by subst.
Qed.

(** ** Projections *)

(** What the queries see of a slot. *)
Definition view (sl : Slot) (s : Store) : option OrgRecord :=
  match sl with
  | STag id => '(name, deleted) ← tags s !! id; Some (RTag id name deleted)
  | SMembership clip tag => a ← clip_tags s !! (clip, tag); Some (RMembership clip tag a)
  | SPin clip => p ← pin_states s !! clip; Some (RPin clip (ps_pinned p) (ps_order p))
  end.
Lemma release_unused_tables o s :
  tags (release_unused o s) = tags s /\ clip_tags (release_unused o s) = clip_tags s /\
  pin_states (release_unused o s) = pin_states s /\ organization (release_unused o s) = organization s.
Proof. destruct o; cbn; [case_match|]; done. Qed.
Lemma write_row_tables r s :
  tags (write_row r s) = tags s /\ clip_tags (write_row r s) = clip_tags s /\
  pin_states (write_row r s) = pin_states s /\ organization (write_row r s) = organization s.
Proof.
  unfold write_row, after_change.
  match goal with |- context [release_unused ?o ?t] => destruct (release_unused_tables o t) as (H1 & H2 & H3 & H4) end.
  case_match; cbn; rewrite ?H1, ?H2, ?H3, ?H4; done.
Qed.
Lemma pin_projection_tables id s :
  tags (apply_pin_projection id s) = tags s /\ clip_tags (apply_pin_projection id s) = clip_tags s /\
  pin_states (apply_pin_projection id s) = pin_states s /\
  organization (apply_pin_projection id s) = organization s.
Proof. unfold apply_pin_projection. repeat case_match; try done. apply write_row_tables. Qed.
Lemma view_tables sl s s' :
  tags s' = tags s -> clip_tags s' = clip_tags s -> pin_states s' = pin_states s -> view sl s' = view sl s.
Proof. intros H1 H2 H3. destruct sl; cbn; by rewrite ?H1, ?H2, ?H3. Qed.
Lemma pin_record_others clip p o stamp s :
  keyed (items s) -> forall k, k <> clip -> items (project (RPin clip p o) stamp s) !! k = items s !! k.
Proof.
  intros Hk k Hne. cbn [project]. unfold apply_pin_projection. cbn. rewrite lookup_insert_eq.
  destruct (items s !! clip) as [q|] eqn:E; [|done]. case_match; [|done].
  rewrite items_write_row. cbn. rewrite (Hk _ _ E). by apply lookup_insert_ne.
Qed.
Lemma organization_project r stamp s : organization (project r stamp s) = organization s.
Proof. destruct r; cbn; [done..|]. by rewrite (proj2 (proj2 (proj2 (pin_projection_tables _ _)))). Qed.
Lemma view_project sl r stamp s :
  view sl (project r stamp s) = if decide (sl = slot r) then Some r else view sl s.
Proof.
  assert (Hp : forall id t, view sl (apply_pin_projection id t) = view sl t).
  { intros id t. destruct (pin_projection_tables id t) as (? & ? & ? & _). by apply view_tables. }
  destruct r as [i n d|c t a|c p o]; cbn; rewrite ?Hp; case_decide as Hd; subst; cbn;
    rewrite ?lookup_insert_eq; try done; destruct sl; cbn; try done;
    rewrite lookup_insert_ne; try done; congruence.
Qed.

(** ** What a write does *)

(** Rows keep everything but their pin. *)
Definition same_but_pin (q r : Row) : Prop :=
  set_pin false None 0 q = set_pin false None 0 r.
Definition pins_only (s s' : Store) : Prop :=
  forall k, match items s !! k with
            | Some q => exists r, items s' !! k = Some r /\ same_but_pin q r
            | None => items s' !! k = None
            end.
Lemma pins_only_refl s : pins_only s s.
Proof. intros k. destruct (items s !! k) as [q|]; [by exists q|done]. Qed.
Lemma pins_only_trans s1 s2 s3 : pins_only s1 s2 -> pins_only s2 s3 -> pins_only s1 s3.
Proof.
  intros H1 H2 k. specialize (H1 k). specialize (H2 k). destruct (items s1 !! k) as [q|].
  - destruct H1 as (r & Hr & E1). rewrite Hr in H2. destruct H2 as (x & Hx & E2).
    exists x. split; [done|]. unfold same_but_pin in *. congruence.
  - by rewrite H1 in H2.
Qed.
Lemma pins_only_projection id s : keyed (items s) -> pins_only s (apply_pin_projection id s).
Proof.
  intros Hk. unfold apply_pin_projection. destruct (pin_states s !! id) as [p|]; [|apply pins_only_refl].
  destruct (items s !! id) as [r|] eqn:E; [|apply pins_only_refl]. case_match; [|apply pins_only_refl].
  intros k. rewrite items_write_row. cbn. rewrite (Hk _ _ E).
  destruct (decide (k = id)) as [->|Hne].
  - rewrite E, lookup_insert_eq. by eexists.
  - rewrite lookup_insert_ne by done. destruct (items s !! k) as [q|]; [by exists q|done].
Qed.
Lemma pins_only_project r stamp s : keyed (items s) -> pins_only s (project r stamp s).
Proof.
  intros Hk. destruct r as [| |c p o]; cbn [project]; [exact (pins_only_refl s)..|].
  intros k. by apply (pins_only_projection c (with_tags (tags s) (clip_tags s) _ s)).
Qed.

Section Projection.
Context {PC : PayloadCodecs} {MJ : MetadataJson}.
Lemma apply_pin_projection_ok id s : store_ok s -> store_ok (apply_pin_projection id s).
Proof.
  intros Hs. unfold apply_pin_projection. destruct (pin_states s !! id) as [p|]; [|done].
  destruct (items s !! id) as [r|] eqn:E; [|done].
  destruct (r_deleted r) eqn:Hd; cbn [negb andb]; [done|]. case_match; [|done].
  apply (write_shape_ok s r); [done| |].
  - pose proof Hs as [[Hk _ _ _ _] _]. by rewrite (Hk _ _ E).
  - split_and!; try done. intros _ Ht. cbn in Ht. congruence.
Qed.
Lemma project_record_ok r stamp s : store_ok s -> store_ok (project r stamp s).
Proof.
  intros Hs. destruct r; cbn [project]; [by apply (store_ok_frame s)..|].
  apply apply_pin_projection_ok. by apply (store_ok_frame s).
Qed.

Context {DG : Digest} {OC : OrgCodec} {K : ItemKey}.
Lemma org_upsert_ok id ct hash origin c n at_ del text s s' :
  store_ok s -> org_upsert_in_tx id ct hash origin c n at_ del text s = Ok (Some s') -> store_ok s'.
Proof.
  intros Hs. unfold org_upsert_in_tx. destruct text as [t|]; [|done]. case_match; [done|].
  destruct (serde_record t); [|done]. destruct c, n; try done. intros [= <-].
  apply project_record_ok. by apply (store_ok_frame s).
Qed.
Lemma org_write_ok rng r now s s' : store_ok s -> org_write rng r now s = Ok s' -> store_ok s'.
Proof.
  intros Hs. unfold org_write. intros (_ & Hw)%bind_unit_ok.
  apply bind_ok in Hw as (text & _ & Hw). revert Hw. cbn zeta. case_match; [by intros [= <-]|].
  intros (bs & _ & (o & Ho & [= <-])%bind_ok)%bind_ok.
  destruct o as [s1|]; [|done]. by eapply org_upsert_ok.
Qed.
End Projection.

(** What every write of a record keeps, the operations made of them keep. *)
Section Kept.
Context {PC : PayloadCodecs} {DG : Digest} {OC : OrgCodec} {K : ItemKey}.
Context (P : Store -> Prop) (rng : string -> bytes).
Hypothesis org_write_keeps : forall r now s s', P s -> org_write rng r now s = Ok s' -> P s'.
Lemma write_pin_keeps id now s s' : P s -> write_pin rng id now s = Ok s' -> P s'.
Proof.
  intros Hs. unfold write_pin. destruct (items s !! id) as [r|]; [|by intros [= <-]].
  case_match; [by intros [= <-]|]. by apply org_write_keeps.
Qed.
Lemma assign_clips_keeps tag clips a now s s' : P s -> assign_clips rng tag clips a now s = Ok s' -> P s'.
Proof using org_write_keeps.
  revert s; induction clips as [|c clips IH]; intros s Hs; cbn [assign_clips]; [by intros [= <-]|].
  intros (_ & (s1 & H1 & H2)%bind_ok)%bind_unit_ok. eapply IH; [|exact H2]. by eapply org_write_keeps.
Qed.
Lemma assign_tags_keeps tag_ids clips a now s s' : P s -> assign_tags rng tag_ids clips a now s = Ok s' -> P s'.
Proof using org_write_keeps.
  revert s; induction tag_ids as [|t ts IH]; intros s Hs; cbn [assign_tags]; [by intros [= <-]|].
  intros (_ & (s1 & H1 & H2)%bind_ok)%bind_unit_ok. eapply IH; [|exact H2]. by eapply assign_clips_keeps.
Qed.
Lemma mutate_history_tags_keeps m uuid now s s' : P s -> mutate_history_tags rng m uuid now s = Ok s' -> P s'.
Proof using org_write_keeps.
  intros Hs. destruct m as [id name|id|clips ts a]; cbn [mutate_history_tags].
  - intros (t & _ & (_ & Hw)%bind_unit_ok)%bind_ok. by eapply org_write_keeps.
  - destruct (live_tag id s); [by apply org_write_keeps|by intros [= <-]].
  - intros (_ & Hw)%bind_unit_ok. by eapply assign_tags_keeps.
Qed.
End Kept.

(** ** Properties *)

(** What the rendering of a valid record reads back as, and that it fits: a
    record has at most two identifiers of 128 bytes or a name of 64 characters,
    and escaping takes six bytes at most. *)
Class OrgCodecLaws `{OrgCodec} : Prop := {
  serde_record_inv r t : serde_record_string r = Some t -> serde_record t = Some r;
  serde_record_short r t : record_valid r = true -> serde_record_string r = Some t ->
                           str_len t <= MAX_RECORD_BYTES;
}.

Lemma i64_saturating_succ_gt z : z < i64_max -> z < i64_saturating_add z 1.
Proof. unfold i64_saturating_add. lia. Qed.

Section Properties.
Context {DG : Digest} {OC : OrgCodec} {K : ItemKey}.

Lemma valid_wire_record id text del :
  valid_wire id CONTENT_TYPE text del = true ->
  exists r, serde_record text = Some r /\ record_valid r = true /\ record_id r = id /\ del = false.
Proof.
  unfold valid_wire. rewrite String.eqb_refl. cbn [negb].
  destruct (serde_record text) as [r|]; rewrite !andb_true_iff; [|naive_solver].
  intros [[Hd _] [Hv Hi]]. exists r. apply String.eqb_eq in Hi. apply negb_true_iff in Hd. by split_and!.
Qed.

(** Two organization records that a device accepts under one id are about
    the same tag, the same membership or the same pin, unless two different
    byte strings have one digest: nobody can replace one record by another. *)
Theorem one_record_per_slot id t1 d1 r1 t2 d2 r2 :
  valid_wire id CONTENT_TYPE t1 d1 = true -> serde_record t1 = Some r1 ->
  valid_wire id CONTENT_TYPE t2 d2 = true -> serde_record t2 = Some r2 ->
  slot r1 = slot r2 \/
  exists a b, a <> b /\ plaintext_content_hash a = plaintext_content_hash b.
Proof.
  intros (x & Hx & _ & Hid1 & _)%valid_wire_record H1 (y & Hy & _ & Hid2 & _)%valid_wire_record H2.
  assert (x = r1) as -> by congruence. assert (y = r2) as -> by congruence.
  rewrite <- Hid2 in Hid1. unfold record_id in Hid1.
  apply append_same_length in Hid1 as [_ Hh]; [|done].
  destruct (decide (record_key r1 = record_key r2)) as [He|Hne]; [left; by apply record_key_slot|right].
  exists (as_bytes (record_key r1)), (as_bytes (record_key r2)). split; [|done].
  intros He. apply Hne. by rewrite <- (of_as_bytes (record_key r1)), He, of_as_bytes.
Qed.

(** An organization record that is stored is the one its id names; from
    then on the queries see exactly it in its slot and what they saw before in
    every other, and no history item changes but for the pin it decides. *)
Theorem organization_upsert_projects id hash origin c n at_ del text s s' :
  keyed (items s) ->
  org_upsert_in_tx id CONTENT_TYPE hash origin c n at_ del text s = Ok (Some s') ->
  exists r t, text = Some t /\ serde_record t = Some r /\ record_valid r = true /\ record_id r = id /\
    (forall sl, view sl s' = if decide (sl = slot r) then Some r else view sl s) /\
    (exists row, organization s' !! id = Some row /\ o_hash row = hash /\ o_created_at row = at_) /\
    pins_only s s'.
Proof.
  intros Hk. unfold org_upsert_in_tx. destruct text as [t|]; [|done].
  destruct (valid_wire id CONTENT_TYPE t del) eqn:Hw; cbn [negb]; [|done].
  apply valid_wire_record in Hw as (r & Hr & Hv & Hid & _). rewrite Hr.
  destruct c as [c|], n as [n|]; try done. intros [= <-].
  exists r, t. split_and!; try done.
  - intros sl. rewrite view_project. case_decide; [done|]. by apply view_tables.
  - eexists. split; [rewrite organization_project; cbn; apply lookup_insert_eq|by split].
  - exact (pins_only_project r at_ (with_organization _ s) Hk).
Qed.

(** What a local change writes. *)
Lemma org_write_spec `{!OrgCodecLaws} rng r now s s' :
  org_write rng r now s = Ok s' ->
  s' = s \/
  exists row, organization s' !! record_id r = Some row /\ o_origin row = ""%string /\
    (forall p, organization s !! record_id r = Some p -> o_created_at p < i64_max ->
       o_created_at p < o_created_at row) /\
    (forall sl, view sl s' = if decide (sl = slot r) then Some r else view sl s) /\
    match r with
    | RPin clip p o =>
      (forall q, items s !! clip = Some q -> r_deleted q = false -> r_id q = clip ->
         items s' !! clip = Some (set_pin p o (o_created_at row) q)) /\
      (keyed (items s) -> forall k, k <> clip -> items s' !! k = items s !! k)
    | _ => items s' = items s
    end.
Proof.
  unfold org_write. intros (Hv%refuse_if_ok & Hw)%bind_unit_ok. apply negb_false_iff in Hv.
  apply bind_ok in Hw as (text & Ht & Hw). apply ok_or_ok in Ht. revert Hw. cbn zeta.
  case_match; [intros [= <-]; by left|].
  intros (bs & _ & (o & Ho & [= <-])%bind_ok)%bind_ok. right.
  revert Ho. unfold org_upsert_in_tx.
  assert (Hval : valid_wire (record_id r) CONTENT_TYPE text false = true).
  { unfold valid_wire. rewrite String.eqb_refl, (serde_record_inv r text Ht), Hv, String.eqb_refl. cbn.
    rewrite andb_true_r. apply Z.leb_le. by apply (serde_record_short r). }
  rewrite Hval, (serde_record_inv r text Ht). cbn [negb]. intros [= <-]. cbn [from_option id].
  eexists. split_and!.
  - rewrite organization_project. cbn. apply lookup_insert_eq.
  - done.
  - intros p Hp Hmax. rewrite Hp. cbn. pose proof (i64_saturating_succ_gt (o_created_at p) Hmax). lia.
  - intros sl. rewrite view_project. case_decide; [done|]. by apply view_tables.
  - destruct r as [| |clip p o]; [done..|]. split; [|intros Hk k Hne; exact (pin_record_others clip p o _ (with_organization _ s) Hk k Hne)]. intros q Hq Hlive Hid. cbn [project].
    unfold apply_pin_projection. cbn. rewrite lookup_insert_eq, Hq, Hlive. cbn.
    rewrite (proj2 (Z.leb_le _ _)) by lia. rewrite items_write_row. cbn. rewrite Hid. apply lookup_insert_eq.
Qed.
(** A change of a tag, a membership or a pin made on this device is a newer
    version of its record than the one it replaces, and it takes effect at
    once: the queries see it, and a pin reaches the item. *)
Theorem local_change_takes_effect `{!OrgCodecLaws} rng r now s s' :
  org_write rng r now s = Ok s' ->
  s' = s \/
  exists row, organization s' !! record_id r = Some row /\ o_origin row = ""%string /\
    (forall p, organization s !! record_id r = Some p -> o_created_at p < i64_max ->
       o_created_at p < o_created_at row) /\
    (forall sl, view sl s' = if decide (sl = slot r) then Some r else view sl s) /\
    match r with
    | RPin clip p o => forall q, items s !! clip = Some q -> r_deleted q = false -> r_id q = clip ->
        items s' !! clip = Some (set_pin p o (o_created_at row) q)
    | _ => items s' = items s
    end.
Proof.
  intros [->|(row & H1 & H2 & H3 & H4 & H5)]%org_write_spec; [by left|right].
  exists row. split_and!; [done..|]. destruct r as [| |clip p o]; [done..|apply H5].
Qed.
End Properties.

(** ** Witnesses *)

(** A rendering of two records, the digest that is the identity, and a row. *)
Module OrgDemo.
#[export] Existing Instances BinaryDemo.key.
#[export] Instance digest : Digest := {| sha256 := fun b => b; hex_encode := of_bytes |}.
Definition work : OrgRecord := RTag "t1" "work" false.
Definition pin_a : OrgRecord := RPin "a" true (Some Float64.one).
#[export] Instance orgrecord_eq_dec : EqDecision OrgRecord.
Proof. solve_decision. Defined.
#[export] Instance codec : OrgCodec := {|
  serde_record := fun t => if String.eqb t "W" then Some work
                           else if String.eqb t "P" then Some pin_a else None;
  serde_record_string := fun r => if decide (r = work) then Some "W"%string
                                  else if decide (r = pin_a) then Some "P"%string else None |}.
#[export] Instance codec_laws : OrgCodecLaws.
Proof.
  split.
  - intros r t. cbn. repeat case_decide; subst; intros [= <-]; done.
  - intros r t _. cbn. repeat case_decide; intros [= <-]; by vm_compute.
Qed.
Definition row : Row :=
  {| r_id := "a"; r_ciphertext := Some (as_bytes "x"); r_nonce := Some []; r_type := TEXT; r_hash := "h";
     r_pinned := false; r_pin_order := None; r_pin_at := 50; r_created_at := 10; r_deleted := false;
     r_origin := ""; r_app_id := None; r_app_name := None; r_metadata := None; r_fts := None;
     r_icon := None; r_bytes := 1; r_rowid := 1 |}.
Definition base : Store := write_row row empty_store.
Definition pinned : result StoreError Store := org_write (fun _ => []) pin_a 20 base.
Definition tagged : result StoreError (option Store) :=
  org_upsert_in_tx (record_id work) CONTENT_TYPE "W" "peer" (Some []) (Some []) 5 false (Some "W"%string) base.
End OrgDemo.
#[local] Existing Instances BinaryDemo.key OrgDemo.digest OrgDemo.codec OrgDemo.codec_laws.

Lemma one_record_per_slot_witness :
  STag "t1" = STag "t1" \/ exists a b, a <> b /\ plaintext_content_hash a = plaintext_content_hash b.
Proof.
  apply (one_record_per_slot (record_id OrgDemo.work) "W" false OrgDemo.work "W" false OrgDemo.work);
    vm_compute; reflexivity.
Defined.
Lemma organization_upsert_projects_witness :
  exists s', OrgDemo.tagged = Ok (Some s') /\ view (STag "t1") s' = Some OrgDemo.work.
Proof.
  destruct OrgDemo.tagged as [[s'|]|] eqn:E; [|vm_compute in E; discriminate E..].
  exists s'. split; [done|].
  assert (Hk : keyed (items OrgDemo.base)).
  { intros k r. unfold OrgDemo.base. rewrite items_write_row, lookup_insert_Some.
    intros [[<- <-]|[_ H]]; [done|]. by vm_compute in H. }
  destruct (organization_upsert_projects _ _ _ _ _ _ _ _ _ _ Hk E) as (r & t & Ht & Hr & _ & _ & Hv & _).
  injection Ht as <-. vm_compute in Hr. injection Hr as <-. by rewrite Hv.
Defined.
Lemma local_change_takes_effect_witness :
  exists s', OrgDemo.pinned = Ok s' /\ (s' = OrgDemo.base \/
    exists row, items s' !! "a"%string = Some (set_pin true (Some Float64.one) (o_created_at row) OrgDemo.row)).
Proof.
  destruct OrgDemo.pinned as [s'|] eqn:E; [|vm_compute in E; discriminate E].
  exists s'. split; [done|].
  destruct (local_change_takes_effect _ _ _ _ _ E) as [Hs|(row & _ & _ & _ & _ & Hp)]; [by left|right].
  exists row. by apply Hp.
Defined.
