(* ===== verification/Versions.v ===== *)
(** The history as a sync session sees it
    ([copypaste-core/src/storage/versions.rs], [storage/merge_page.rs],
    [storage/file_payloads.rs]): the versions it offers, tombstones included,
    and the write that stores one that won. *)

From S2P Require Import Prelude Float64 Bytes Text Wire Binary Payload Table Items ItemSafety Organization.

(** ** Versions *)

Record Version := {
  v_id : string; v_created_at : Z; v_hash : string; v_deleted : bool;
  v_pinned : bool; v_order : option f64; v_pin_at : Z; v_origin : string;
}.
#[export] Instance Version_eq_dec : EqDecision Version.
Proof. unfold f64. solve_decision. Defined.
(** The derived [PartialEq], and that of maps of them. *)
Definition version_eqb (v w : Version) : bool :=
  String.eqb (v_id v) (v_id w) && (v_created_at v =? v_created_at w) && String.eqb (v_hash v) (v_hash w)
  && Bool.eqb (v_deleted v) (v_deleted w) && Bool.eqb (v_pinned v) (v_pinned w)
  && match v_order v, v_order w with Some a, Some b => f64_eqb a b | None, None => true | _, _ => false end
  && (v_pin_at v =? v_pin_at w) && String.eqb (v_origin v) (v_origin w).
Definition summaries_eqb (m n : gmap string Version) : bool :=
  (size m =? size n)%nat
  && forallb (fun p => match n !! p.1 with Some w => version_eqb p.2 w | None => false end) (map_to_list m).
(** [origin_or]. *)
Definition origin_or (stored here : string) : string := if String.eqb stored "" then here else stored.

(** [row_to_version] over the two halves of [summary_query]. *)
Definition row_version (r : Row) : Version :=
  {| v_id := r_id r; v_created_at := r_created_at r; v_hash := r_hash r; v_deleted := r_deleted r;
     v_pinned := r_pinned r; v_order := r_pin_order r; v_pin_at := r_pin_at r; v_origin := r_origin r |}.
Definition organization_version (o : OrganizationRow) : Version :=
  {| v_id := o_id o; v_created_at := o_created_at o; v_hash := o_hash o; v_deleted := false;
     v_pinned := false; v_order := None; v_pin_at := 0; v_origin := o_origin o |}.
(** [version_summary] takes the first row of the two halves. *)
Definition version_summary (id : string) (s : Store) : option Version :=
  match items s !! id with
  | Some r => Some (row_version r)
  | None => organization_version <$> organization s !! id
  end.
(** [version_summaries]: a map filled from the first half, then from the second. *)
Definition version_summaries (ids : list string) (s : Store) : gmap string Version :=
  let one half m id := match half id with Some v => <[v_id v := v]> m | None => m end in
  foldl (one (fun id => organization_version <$> organization s !! id))
    (foldl (one (fun id => row_version <$> items s !! id)) ∅ ids) ids.

(** ** Scans *)

Definition change_stamp (v : Version) : Z := Z.max (v_created_at v) (v_pin_at v).
(** The keyset after which a scan starts. *)
Definition after_keyset (stamp : Version -> Z) (since : Z) (after_id : option string) (v : Version) : bool :=
  (since <? stamp v)
  || ((stamp v =? since) && match after_id with
                            | None => true
                            | Some id => bool_decide (str_cmp (v_id v) id = Gt)
                            end).
Definition by_stamp (stamp : Version -> Z) (v w : Version) : Prop :=
  pair_cmp Z.compare str_cmp (stamp v, v_id v) (stamp w, v_id w) <> Gt.
#[export] Instance by_stamp_dec stamp v w : Decision (by_stamp stamp v w).
Proof. unfold by_stamp. apply _. Defined.
Definition local_versions (s : Store) : list Version := row_version <$> rows s.
Definition organization_versions (s : Store) : list Version :=
  (fun p => organization_version p.2) <$> map_to_list (organization s).
(** [version_ctes]: each half bounded, then the two together. *)
Definition bounded_versions (stamp : Version -> Z) (since : Z) (after_id : option string) (limit : nat)
    (s : Store) : list Version :=
  let half l := take limit (merge_sort (by_stamp stamp) (List.filter (after_keyset stamp since after_id) l)) in
  take limit (merge_sort (by_stamp stamp) (half (local_versions s) ++ half (organization_versions s))).
Definition versions_after (since : Z) (after_id : option string) (limit : nat) (s : Store) : list Version :=
  bounded_versions v_created_at since after_id limit s.
Definition summaries_since (since : Z) (after_id : option string) (limit : nat) (s : Store) : list Version :=
  bounded_versions change_stamp since after_id limit s.

(** ** Incoming versions *)

Record IncomingItem := {
  i_id : string; i_ciphertext : option bytes; i_nonce : option bytes; i_type : string; i_hash : string;
  i_created_at : Z; i_deleted : bool; i_origin : string; i_app_id : option string; i_app_name : option string;
  i_pinned : bool; i_pin_order : option f64; i_pin_at : Z; i_search_text : option string;
  i_metadata : option string;
}.

(** [row_ciphertext] and [link]. *)
Definition row_ciphertext (b : bytes) : bytes := match split b with Some (r, _) => r | None => b end.
Definition link (id hash : string) (b : bytes) (s : Store) : result StoreError Store :=
  match split b with
  | None => Ok s
  | Some (_, []) => Err InvalidSchema
  | Some (_, blob) =>
    let blobs := match shared_payloads s !! hash with
                 | Some _ => shared_payloads s
                 | None => <[hash := blob]> (shared_payloads s)
                 end in
    Ok (with_payloads blobs (<[id := hash]> (file_payloads s)) (transfer_bytes s) s)
  end.

#[export] Instance ClipboardPrivacy_eq_dec : EqDecision ClipboardPrivacy.
Proof. solve_decision. Defined.
#[export] Instance SecretOverride_eq_dec : EqDecision SecretOverride.
Proof. solve_decision. Defined.
#[export] Instance FileTransfer_eq_dec : EqDecision FileTransfer.
Proof. solve_decision. Defined.
#[export] Instance FileMetadata_eq_dec : EqDecision FileMetadata.
Proof. solve_decision. Defined.
#[export] Instance SourceAppIcon_eq_dec : EqDecision SourceAppIconMetadata.
Proof. solve_decision. Defined.
#[export] Instance PayloadMetadata_eq_dec : EqDecision PayloadMetadata.
Proof. solve_decision. Defined.

Section Versions.
Context {PC : PayloadCodecs} {MJ : MetadataJson} {DG : Digest} {OC : OrgCodec}.

(** The metadata of a document with the privacy hints read leniently. *)
Definition lenient_metadata (m : option string) (content_type : string) : PayloadMetadata :=
  with_privacy (privacy_of m) (default no_metadata (parsed_metadata m content_type)).
(** The merge of an incoming document with what the row of the same content
    has, and the stamp that publishes the merged choice back. *)
Definition merge_metadata (m existing : option string) (content_type : string) (created_at : Z)
    : option string * Z :=
  let previous := lenient_metadata existing content_type in
  let value := lenient_metadata m content_type in
  let merged := merge_privacy value previous in
  (if decide (merged = value) then m else to_json merged content_type,
   if decide (secret_override merged = secret_override value) then created_at
   else i64_saturating_add created_at 1).

(** The row of the [INSERT ... ON CONFLICT(id) DO UPDATE]. *)
Definition incoming_row (i : IncomingItem) (metadata : option string) (stamp : Z) (k : option Z)
    (icon : option string) (s : Store) : Row :=
  {| r_id := i_id i; r_ciphertext := row_ciphertext <$> i_ciphertext i; r_nonce := i_nonce i;
     r_type := i_type i; r_hash := i_hash i;
     r_pinned := if i_deleted i then false else i_pinned i;
     r_pin_order := if i_deleted i then None else i_pin_order i;
     r_pin_at := if i_deleted i then 0 else i_pin_at i;
     r_created_at := stamp; r_deleted := i_deleted i; r_origin := i_origin i;
     r_app_id := i_app_id i; r_app_name := i_app_name i; r_metadata := metadata; r_fts := k;
     r_icon := icon; r_bytes := blob_length (i_ciphertext i) + text_length metadata;
     r_rowid := match items s !! i_id i with Some r => r_rowid r | None => next_rowid s end |}.
Definition existing_metadata (id hash : string) (s : Store) : option string :=
  r ← items s !! id; if String.eqb (r_hash r) hash then r_metadata r else None.

(** [upsert_in_tx]: [None] is the refusal, after which the caller discards what
    was written. *)
Definition upsert_in_tx (i : IncomingItem) (s : Store) : result StoreError (option Store) :=
  if String.eqb (i_type i) CONTENT_TYPE then
    org_upsert_in_tx (i_id i) (i_type i) (i_hash i) (i_origin i) (i_ciphertext i) (i_nonce i)
      (i_created_at i) (i_deleted i) (i_search_text i) s
  else if is_record_id (i_id i) then Ok None
  else
    let s := delete_fts_row_in_tx (i_id i) s in
    '(metadata, icon, s) ← (if i_deleted i then Ok (None, None, s)
       else normalise (i_app_id i) (i_type i) (i_created_at i) (i_metadata i) s);
    let '(metadata, stamp) :=
      if i_deleted i then (metadata, i_created_at i)
      else merge_metadata metadata (existing_metadata (i_id i) (i_hash i) s) (i_type i) (i_created_at i) in
    let hidden := secret (privacy_of metadata) in
    let s := if hidden then delete_documents (i_id i) s else s in
    let '(k, s) := match i_search_text i with
                   | Some t => if negb hidden && negb (i_deleted i) && negb (is_blank (as_bytes t))
                               then insert_fts_in_tx (i_id i) t (i_type i) s else (None, s)
                   | None => (None, s)
                   end in
    match upsert_row (incoming_row i metadata stamp k icon s) s with
    | None => Ok None
    | Some s =>
      let s := apply_pin_projection (i_id i) s in
      match i_ciphertext i with
      | Some b => s ← link (i_id i) (i_hash i) b s; Ok (Some s)
      | None => Ok (Some s)
      end
    end.

(** [Store::upsert], and [upsert_all] with its savepoint for each row. *)
Definition upsert (i : IncomingItem) (s : Store) : result StoreError (bool * Store) :=
  o ← upsert_in_tx i s;
  Ok (match o with Some s' => (true, s') | None => (false, s) end).
Fixpoint upsert_all (l : list IncomingItem) (s : Store) : result StoreError (list bool * Store) :=
  match l with
  | [] => Ok ([], s)
  | i :: l => '(b, s) ← upsert i s; '(bs, s) ← upsert_all l s; Ok (b :: bs, s)
  end.
(** [merge_page]: refused when the versions it was planned from have changed. *)
Inductive MergePageError := PageStore (e : StoreError) | SnapshotChanged (m : gmap string Version).
Definition merge_page (ids : list string) (expected : gmap string Version) (writes : list IncomingItem)
    (s : Store) : result MergePageError (list bool * Store) :=
  let summaries := version_summaries ids s in
  if summaries_eqb summaries expected then map_err PageStore (upsert_all writes s)
  else Err (SnapshotChanged summaries).

(** [apply_pin_state]: an organization record at least as new has the say. *)
Definition apply_pin_state (id : string) (pinned : bool) (order : option f64) (at_ : Z) (s : Store)
    : bool * Store :=
  if match pin_states s !! id with Some p => at_ <=? ps_updated_at p | None => false end then (false, s)
  else match items s !! id with
       | Some r => if r_deleted r then (false, s) else (true, write_row (set_pin pinned order at_ r) s)
       | None => (false, s)
       end.

(** ** Every write keeps the store well formed *)

Lemma indexed_text s r text ct s0 k s2 :
  fts_ok (items s) (fts s) -> items s0 = items s -> live_count s0 = live_count s ->
  fts s0 = fts (delete_fts_row_in_tx (r_id r) s) ->
  match text with Some t => insert_fts_in_tx (r_id r) t ct s0 | None => (None, s0) end = (k, s2) ->
  r_fts r = k ->
  items s2 = items s /\ live_count s2 = live_count s /\ fts_ok (<[r_id r := r]> (items s)) (fts s2).
Proof.
  intros Hf Hi Hl Hfts He Hr. destruct text as [t|].
  - destruct (insert_fts_frame (r_id r) t ct s0) as [Hi2 Hl2]. rewrite He in Hi2, Hl2.
    cbn [snd] in Hi2, Hl2. split_and!; [congruence..|].
    pose proof (fts_reindexed s r t ct Hf) as Hre.
    destruct (insert_fts_in_tx (r_id r) t ct (delete_fts_row_in_tx (r_id r) s)) as [k' s2'] eqn:Ek'.
    assert (k = k' /\ fts s2 = fts s2') as [-> ->]; [|by apply Hre].
    unfold insert_fts_in_tx in He, Ek'. rewrite Hfts in He.
    destruct (is_text ct); injection He as <- <-; injection Ek' as <- <-; done.
  - injection He as <- <-. split_and!; [done..|]. rewrite Hfts. by apply (fts_cleared s r).
Qed.
(** An icon moves out of the metadata whether or not the index was cleared. *)
Lemma normalise_cleared app ct at_ m id s :
  normalise app ct at_ m (delete_fts_row_in_tx id s) =
  match normalise app ct at_ m s with
  | Ok (m', i, s') => Ok (m', i, delete_fts_row_in_tx id s')
  | Err e => Err e
  end.
Proof.
  unfold normalise, known_asset.
  assert (Hicons : icons (delete_fts_row_in_tx id s) = icons s).
  { unfold delete_fts_row_in_tx. by case_match. }
  rewrite Hicons.
  destruct (parsed_metadata m ct) as [p|]; [|done]. destruct (source_app_icon p) as [ic|]; [|done].
  destruct (match non_empty app with Some a => _ | None => _ end) as [i|e]; [cbn|done].
  f_equal. f_equal. unfold upsert_icon. rewrite Hicons.
  assert (Hw : forall t t', items t = items s -> fts t = fts s ->
            t' = with_fts (fts (delete_fts_row_in_tx id s)) t -> t' = delete_fts_row_in_tx id t).
  { intros t t' Hi Hft ->. unfold delete_fts_row_in_tx. rewrite Hi.
    destruct (r ← items s !! id; r_fts r); cbn; [by rewrite Hft|].
    rewrite <- Hft. by destruct t. }
  destruct (icons s !! i) as [old|].
  - case_match; [|done]. apply Hw; [done..|]. unfold delete_fts_row_in_tx. by case_match.
  - destruct (non_empty app) as [a|].
    + unfold link_icon, delete_fts_row_in_tx. cbn. rewrite lookup_fmap.
      destruct (items s !! id) as [r|] eqn:E; cbn; [|done].
      assert (Hr : r_fts (if bool_decide (r_icon r = None) && bool_decide (r_app_id r = Some a) && is_live r
                          then set_icon (Some i) r else r) = r_fts r) by by case_match.
      rewrite Hr. by destruct (r_fts r).
    + apply Hw; [done..|]. unfold delete_fts_row_in_tx. by case_match.
Qed.
Lemma link_frame id hash b s s' :
  link id hash b s = Ok s' -> items s' = items s /\ live_count s' = live_count s /\ fts s' = fts s /\
    pin_states s' = pin_states s /\ organization s' = organization s.
Proof.
  unfold link. destruct (split b) as [[r [|x blob]]|]; [done| |]; intros [= <-]; done.
Qed.

(** The shape of an accepted write: the source icon moves out, the index entry
    is renewed, the row is written, the organization's pin is applied, the blob
    is linked. *)
Record accepted (i : IncomingItem) (s s' : Store) (r : Row) (s1 s2 : Store) : Prop := {
  ac_icon : exists m icon, (if i_deleted i then Ok (None, None, s)
      else normalise (i_app_id i) (i_type i) (i_created_at i) (i_metadata i) s) = Ok (m, icon, s1) /\
    exists m' stamp k, (if i_deleted i then (m, i_created_at i)
      else merge_metadata m (existing_metadata (i_id i) (i_hash i) s1) (i_type i) (i_created_at i)) = (m', stamp) /\
    (secret (privacy_of m') = true -> k = None) /\ (i_deleted i = true -> k = None) /\
    r = incoming_row i m' stamp k icon s2;
  ac_items : items s2 = items s1;
  ac_live : live_count s2 = live_count s1;
  ac_organization : organization s2 = organization s;
  ac_fts : forall q, r_id q = i_id i -> r_fts q = r_fts r -> fts_ok (items s1) (fts s1) ->
    fts_ok (<[r_id q := q]> (items s1)) (fts s2);
  ac_clash : dedup_clash r s2 = false;
  ac_final : let t := apply_pin_projection (i_id i) (write_row r s2) in
    items s' = items t /\ live_count s' = live_count t /\ fts s' = fts t /\ organization s' = organization t;
  ac_payloads : file_payloads s2 = file_payloads s /\ shared_payloads s2 = shared_payloads s;
  ac_linked : let t := apply_pin_projection (i_id i) (write_row r s2) in
    match i_ciphertext i with Some b => link (i_id i) (i_hash i) b t = Ok s' | None => s' = t end;
}.
Lemma normalise_organization app ct at_ m s m' i s' :
  normalise app ct at_ m s = Ok (m', i, s') -> organization s' = organization s.
Proof.
  unfold normalise. destruct (parsed_metadata m ct) as [p|]; [|by intros [= _ _ <-]].
  destruct (source_app_icon p) as [ic|]; [|by intros [= _ _ <-]].
  intros (id & _ & Hr)%bind_ok. simplify_eq. unfold upsert_icon.
  destruct (icons s !! id); [by case_match|]. by destruct (non_empty app).
Qed.
Lemma normalise_payloads app ct at_ m s m' i s' :
  normalise app ct at_ m s = Ok (m', i, s') ->
  file_payloads s' = file_payloads s /\ shared_payloads s' = shared_payloads s.
Proof.
  unfold normalise. destruct (parsed_metadata m ct) as [p|]; [|by intros [= _ _ <-]].
  destruct (source_app_icon p) as [ic|]; [|by intros [= _ _ <-]].
  intros (id & _ & Hr)%bind_ok. simplify_eq. unfold upsert_icon.
  destruct (icons s !! id); [by case_match|]. by destruct (non_empty app).
Qed.
Lemma delete_documents_frame id s :
  items (delete_documents id s) = items s /\ live_count (delete_documents id s) = live_count s /\
  fts (delete_documents id s) = fts s.
Proof. done. Qed.
Lemma upsert_in_tx_accepted i s s' :
  i_type i <> CONTENT_TYPE -> upsert_in_tx i s = Ok (Some s') ->
  is_record_id (i_id i) = false /\ exists r s1 s2, accepted i s s' r s1 s2.
Proof.
  intros Hct. unfold upsert_in_tx. rewrite (proj2 (String.eqb_neq _ _) Hct).
  destruct (is_record_id (i_id i)); [done|]. intros H. split; [done|]. revert H. cbn zeta.
  assert (Hn : (if i_deleted i then Ok (None, None, delete_fts_row_in_tx (i_id i) s)
                else normalise (i_app_id i) (i_type i) (i_created_at i) (i_metadata i) (delete_fts_row_in_tx (i_id i) s))
             = match (if i_deleted i then Ok (None, None, s)
                else normalise (i_app_id i) (i_type i) (i_created_at i) (i_metadata i) s) with
               | Ok (m', ic, s1) => Ok (m', ic, delete_fts_row_in_tx (i_id i) s1) | Err e => Err e end).
  { destruct (i_deleted i); [done|]. apply normalise_cleared. }
  rewrite Hn. clear Hn.
  destruct (if i_deleted i then _ else _) as [[[m icon] s1]|e] eqn:En; [|done]. cbn [mbind result_bind].
  assert (Hex : existing_metadata (i_id i) (i_hash i) (delete_fts_row_in_tx (i_id i) s1)
                = existing_metadata (i_id i) (i_hash i) s1).
  { unfold existing_metadata. by rewrite (proj1 (delete_fts_frame _ _)). }
  rewrite Hex. clear Hex.
  destruct (if i_deleted i then (m, i_created_at i) else _) as [m' stamp] eqn:Em.
  set (hidden := secret (privacy_of m')).
  set (s1' := if hidden then _ else _).
  assert (Hs1 : items s1' = items s1 /\ live_count s1' = live_count s1 /\
                fts s1' = fts (delete_fts_row_in_tx (i_id i) s1)).
  { destruct (delete_fts_frame (i_id i) s1). subst s1'. destruct hidden; by split_and!. }
  destruct Hs1 as (Hi1 & Hl1 & Hf1).
  set (text := t ← i_search_text i;
               if negb hidden && negb (i_deleted i) && negb (is_blank (as_bytes t)) then Some t else None).
  assert (Htext : match i_search_text i with
                  | Some t => if negb hidden && negb (i_deleted i) && negb (is_blank (as_bytes t))
                              then insert_fts_in_tx (i_id i) t (i_type i) s1' else (None, s1')
                  | None => (None, s1') end
          = match text with Some t => insert_fts_in_tx (i_id i) t (i_type i) s1' | None => (None, s1') end).
  { subst text. destruct (i_search_text i) as [t|]; cbn; [|done].
    by destruct (negb hidden && negb (i_deleted i) && negb (is_blank (as_bytes t))). }
  rewrite Htext. clear Htext.
  destruct (match text with Some t => _ | None => _ end) as [k s2] eqn:Ek.
  destruct (upsert_row _ s2) as [s3|] eqn:Eu; [|done]. apply upsert_row_some in Eu as [Hc ->].
  intros Hfin. exists (incoming_row i m' stamp k icon s2), s1, s2.
  assert (Hk : hidden = true \/ i_deleted i = true -> k = None).
  { intros Hor. assert (text = None) as Ht.
    { subst text. destruct (i_search_text i) as [t|]; cbn; [|done].
      destruct Hor as [-> | ->]; cbn; [done|]. by rewrite andb_false_r. }
    rewrite Ht in Ek. by injection Ek. }
  assert (Hgen : items s2 = items s1 /\ live_count s2 = live_count s1).
  { destruct text as [t|].
    - destruct (insert_fts_frame (i_id i) t (i_type i) s1') as [Ha Hb]. rewrite Ek in Ha, Hb. cbn in Ha, Hb.
      split; congruence.
    - by injection Ek as <- <-. }
  assert (Horg : organization s2 = organization s).
  { assert (Hd : forall t, organization (delete_fts_row_in_tx (i_id i) t) = organization t).
    { intros t. unfold delete_fts_row_in_tx. by destruct (r ← items t !! i_id i; r_fts r). }
    assert (H1 : organization s1' = organization s).
    { subst s1'. transitivity (organization s1); [destruct hidden; cbn; apply Hd|].
      destruct (i_deleted i); [by injection En as _ _ <-|]. by eapply normalise_organization. }
    rewrite <- H1. destruct text as [t|]; [|by injection Ek as _ <-].
    unfold insert_fts_in_tx in Ek. destruct (is_text (i_type i)); by injection Ek as _ <-. }
  assert (Hpay : file_payloads s2 = file_payloads s /\ shared_payloads s2 = shared_payloads s).
  { assert (Hd : forall t, file_payloads (delete_fts_row_in_tx (i_id i) t) = file_payloads t /\
                          shared_payloads (delete_fts_row_in_tx (i_id i) t) = shared_payloads t).
    { intros t. unfold delete_fts_row_in_tx. by destruct (r ← items t !! i_id i; r_fts r). }
    assert (H1 : file_payloads s1' = file_payloads s /\ shared_payloads s1' = shared_payloads s).
    { subst s1'. assert (H0 : file_payloads s1 = file_payloads s /\ shared_payloads s1 = shared_payloads s).
      { destruct (i_deleted i); [by injection En as _ _ <-|]. by eapply normalise_payloads. }
      destruct H0 as [<- <-]. destruct hidden; cbn; apply Hd. }
    destruct H1 as [<- <-]. destruct text as [t|]; [|by injection Ek as _ <-].
    unfold insert_fts_in_tx in Ek. destruct (is_text (i_type i)); by injection Ek as _ <-. }
  split; [|apply Hgen|apply Hgen|done| |done| |done|].
  - exists m, icon. split; [done|]. exists m', stamp, k. split_and!; [done|by intros; apply Hk; left|by intros; apply Hk; right|done].
  - intros q Hq Hfq Hf0. rewrite <- Hq in *.
    destruct (indexed_text s1 q text (i_type i) s1' k s2 Hf0 Hi1 Hl1 Hf1 Ek) as (_ & _ & Hok); [by rewrite Hfq|done].
  - cbn zeta. destruct (i_ciphertext i) as [b|].
    + apply bind_ok in Hfin as (s4 & Hl & [= <-]). apply link_frame in Hl as (? & ? & ? & _ & ?). by split_and!.
    + injection Hfin as <-. by split_and!.
  - cbn zeta. destruct (i_ciphertext i) as [b|]; [|by injection Hfin as <-].
    by apply bind_ok in Hfin as (s4 & Hl & [= <-]).
Qed.

Definition wiped (i : IncomingItem) : Prop :=
  i_deleted i = true -> i_ciphertext i = None /\ i_nonce i = None.

Lemma accepted_ok i s s' r s1 s2 :
  store_ok s -> wiped i -> accepted i s s' r s1 s2 -> store_ok s'.
Proof.
  intros Hs Hw [(m & icon & Hn & m' & stamp & k & Hm & Hk & Hkd & Hr) Hi Hl Horg Hf Hc Hfin _ _].
  assert (Hs1 : store_ok s1).
  { destruct (i_deleted i); [by injection Hn as _ _ <-|]. by eapply normalise_ok. }
  pose proof Hs1 as [[Hkey Hlc Hd Ht Hfo] Hp]. cbn zeta in Hfin. destruct Hfin as (Fi & Fl & Ff & _).
  assert (Hid : r_id r = i_id i) by by subst r.
  apply (store_ok_frame (apply_pin_projection (i_id i) (write_row r s2))); [|done..].
  apply apply_pin_projection_ok, (write_row_ok s1); try done.
  - rewrite <- Hi. apply (dedup_insert r s2); rewrite ?Hi; done.
  - intros Hdel. subst r. cbn in *. rewrite Hdel in *. destruct (Hw Hdel) as [-> ->].
    rewrite (Hkd eq_refl). injection Hn as <- <- <-. injection Hm as <- <-. by split_and!.
  - intros Hsec. subst r. cbn in *. by apply Hk.
  - by apply Hf.
Qed.
Lemma upsert_in_tx_ok i s s' :
  store_ok s -> wiped i -> upsert_in_tx i s = Ok (Some s') -> store_ok s'.
Proof.
  intros Hs Hw H. destruct (decide (i_type i = CONTENT_TYPE)) as [He|Hne].
  - unfold upsert_in_tx in H. rewrite He, String.eqb_refl in H. by eapply org_upsert_ok.
  - destruct (upsert_in_tx_accepted i s s' Hne H) as (_ & r & s1 & s2 & Ha). by eapply accepted_ok.
Qed.
Lemma upsert_ok i s b s' : store_ok s -> wiped i -> upsert i s = Ok (b, s') -> store_ok s'.
Proof.
  intros Hs Hw. unfold upsert. intros (o & Ho & H)%bind_ok.
  destruct o as [s1|]; apply ok_inj in H; injection H as <- <-; [|done]. by eapply upsert_in_tx_ok.
Qed.
Lemma upsert_all_ok l s bs s' :
  store_ok s -> Forall wiped l -> upsert_all l s = Ok (bs, s') -> store_ok s'.
Proof.
  intros Hs Hw. revert s bs Hs; induction Hw as [|i l Hi Hl IH]; intros s bs Hs; cbn [upsert_all].
  - by intros [= <- <-].
  - intros ([b s1] & Hu & ([bs' s2] & Hrest & [= <- <-])%bind_ok)%bind_ok.
    eapply IH; [|exact Hrest]. by eapply upsert_ok.
Qed.
Lemma apply_pin_state_ok id p o at_ s b s' :
  store_ok s -> apply_pin_state id p o at_ s = (b, s') -> store_ok s'.
Proof.
  intros Hs. unfold apply_pin_state.
  destruct (match pin_states s !! id with Some _ => _ | None => _ end); [by intros [= _ <-]|].
  destruct (items s !! id) as [r|] eqn:E; [|by intros [= _ <-]].
  destruct (r_deleted r) eqn:Hd; [by intros [= _ <-]|]. intros [= _ <-].
  apply (write_shape_ok s r); [done| |].
  - pose proof Hs as [[Hk _ _ _ _] _]. by rewrite (Hk _ _ E).
  - split_and!; try done. intros _ Ht. cbn in Ht. congruence.
Qed.

(** ** What an accepted write leaves *)

Lemma pin_projection_row id s r :
  keyed (items s) -> items s !! id = Some r ->
  exists r', items (apply_pin_projection id s) !! id = Some r' /\ same_but_pin r r' /\
             (r_deleted r = true -> r' = r).
Proof.
  intros Hk Hr. unfold apply_pin_projection. destruct (pin_states s !! id) as [p|]; [|by exists r].
  rewrite Hr. destruct (r_deleted r) eqn:Hd; cbn [negb andb]; [by exists r|]. case_match; [|by exists r].
  eexists. rewrite items_write_row. cbn. rewrite (Hk _ _ Hr), lookup_insert_eq. split_and!; done.
Qed.
Lemma pin_projection_others id s k : keyed (items s) -> k <> id ->
  items (apply_pin_projection id s) !! k = items s !! k.
Proof.
  intros Hk Hne. unfold apply_pin_projection. destruct (pin_states s !! id) as [p|]; [|done].
  destruct (items s !! id) as [r|] eqn:E; [|done]. case_match; [|done].
  rewrite items_write_row. cbn. rewrite (Hk _ _ E). by apply lookup_insert_ne.
Qed.
Lemma accepted_row i s s' r s1 s2 :
  store_ok s -> accepted i s s' r s1 s2 ->
  (exists r', items s' !! i_id i = Some r' /\ same_but_pin r r' /\ (i_deleted i = true -> r' = r)) /\
  (forall k, k <> i_id i -> match items s !! k with
     | Some q => exists q', items s' !! k = Some q' /\ same_but_icon q q'
     | None => items s' !! k = None end).
Proof.
  intros Hs [(m & icon & Hn & m' & stamp & k & Hm & Hk & Hkd & Hr) Hi Hl Horg Hf Hc Hfin _ _].
  cbn zeta in Hfin. destruct Hfin as (Fi & _).
  assert (Hid : r_id r = i_id i) by by subst r.
  assert (Hs1 : store_ok s1).
  { destruct (i_deleted i); [by injection Hn as _ _ <-|]. by eapply normalise_ok. }
  assert (Hkey : keyed (items (write_row r s2))).
  { rewrite items_write_row, Hi. apply rows_keyed_insert, Hs1. }
  rewrite !Fi. split.
  - destruct (pin_projection_row (i_id i) (write_row r s2) r Hkey) as (r' & Hr' & Hsb & Hdel).
    { rewrite items_write_row, Hid. apply lookup_insert_eq. }
    exists r'. split_and!; [done..|]. intros Hd. apply Hdel. by subst r.
  - intros j Hj. rewrite pin_projection_others, items_write_row, Hid, lookup_insert_ne, Hi by done.
    destruct (i_deleted i).
    + injection Hn as _ _ <-. destruct (items s !! j) as [q|]; [by exists q|done].
    + by apply (normalise_rows _ _ _ _ _ _ _ _ j Hn).
Qed.
End Versions.
