(* ===== verification/Scan.v ===== *)
(** Reading the history in pages ([version_ctes] of
    [copypaste-core/src/storage/versions.rs]): the two bounded streams together
    are the first rows of the whole, and keyset paging neither loses nor repeats
    a version. *)

From S2P Require Import Prelude Float64 Bytes Text Wire Binary Payload Table Items ItemSafety Organization Versions.

(** ** Merging bounded sorted lists *)

Section Merge.
Context {A} (R : relation A) `{!forall x y, Decision (R x y)}.

Lemma take_list_merge n m p L K :
  (n <= m)%nat -> (n <= p)%nat ->
  take n (list_merge R (take m L) (take p K)) = take n (list_merge R L K).
Proof.
  revert m p L K; induction n as [|n IH]; intros m p L K Hm Hp; [done|].
  destruct m as [|m]; [lia|]. destruct p as [|p]; [lia|].
  destruct L as [|x L], K as [|y K]; cbn [take].
  - done.
  - rewrite !list_merge_nil_l. cbn [take]. f_equal. rewrite take_take. f_equal. lia.
  - rewrite !list_merge_nil_r. cbn [take]. f_equal. rewrite take_take. f_equal. lia.
  - rewrite !list_merge_cons. destruct (decide (R x y)); cbn [take]; f_equal.
    + exact (IH m (S p) L (y :: K) ltac:(lia) ltac:(lia)).
    + exact (IH (S m) p (x :: L) K ltac:(lia) ltac:(lia)).
Qed.

Context `{!Total R, !Transitive R}.
Definition antisym_on (l : list A) : Prop := forall x y, x ∈ l -> y ∈ l -> R x y -> R y x -> x = y.

Lemma sorted_unique l k :
  antisym_on l -> StronglySorted R l -> StronglySorted R k -> l ≡ₚ k -> l = k.
Proof.
  intros Ha Hl Hk Hp. apply (StronglySorted_unique_strong R); [|done..].
  intros x y Hx Hy. apply Ha; [done|]. by rewrite Hp.
Qed.
Lemma sorted_merge l k : StronglySorted R l -> StronglySorted R k -> StronglySorted R (list_merge R l k).
Proof.
  intros Hl Hk. apply Sorted_StronglySorted; [done|].
  apply Sorted_list_merge; [done|by apply StronglySorted_Sorted..].
Qed.
Lemma merge_sort_app l k :
  antisym_on (l ++ k) -> merge_sort R (l ++ k) = list_merge R (merge_sort R l) (merge_sort R k).
Proof.
  intros Ha. apply sorted_unique.
  - intros x y. rewrite !merge_sort_Permutation. apply Ha.
  - by apply (StronglySorted_merge_sort R).
  - apply sorted_merge; by apply (StronglySorted_merge_sort R).
  - by rewrite merge_Permutation, !merge_sort_Permutation.
Qed.
Lemma take_sorted n l : StronglySorted R l -> StronglySorted R (take n l).
Proof. intros Hl. rewrite <- (take_drop n l) in Hl. by apply StronglySorted_app_1_l in Hl. Qed.
Lemma merge_sort_sorted l : antisym_on l -> StronglySorted R l -> merge_sort R l = l.
Proof.
  intros Ha Hl. symmetry. apply sorted_unique; [done|done|by apply (StronglySorted_merge_sort R)|].
  by rewrite merge_sort_Permutation.
Qed.
Lemma elem_take n (l : list A) x : x ∈ take n l -> x ∈ l.
Proof. intros Hx. rewrite <- (take_drop n l). apply elem_of_app. by left. Qed.

(** Bounding each stream first changes nothing. *)
Lemma bounded_streams n l k :
  antisym_on (l ++ k) ->
  take n (merge_sort R (take n (merge_sort R l) ++ take n (merge_sort R k)))
  = take n (merge_sort R (l ++ k)).
Proof.
  intros Ha. assert (Hin : forall h x, x ∈ take n (merge_sort R h) -> x ∈ h).
  { intros h x Hx%elem_take. by rewrite merge_sort_Permutation in Hx. }
  assert (Hs : forall h, StronglySorted R (merge_sort R h)) by (intros h; by apply (StronglySorted_merge_sort R)).
  rewrite (merge_sort_app l k), (merge_sort_app (take n _)).
  - rewrite (merge_sort_sorted (take n (merge_sort R l))), (merge_sort_sorted (take n (merge_sort R k))).
    + by apply take_list_merge.
    + intros x y Hx Hy. apply Ha; apply elem_of_app; eauto.
    + by apply take_sorted.
    + intros x y Hx Hy. apply Ha; apply elem_of_app; eauto.
    + by apply take_sorted.
  - intros x y. rewrite !elem_of_app. intros Hx Hy. apply Ha; apply elem_of_app; naive_solver.
  - done.
Qed.
End Merge.

(** ** Scans *)

#[export] Instance stamp_key_ord : OrdLaws (pair_cmp Z.compare str_cmp).
Proof. apply _. Qed.
Notation key_order := (pair_cmp Z.compare str_cmp).
Definition scan_key (stamp : Version -> Z) (v : Version) : Z * string := (stamp v, v_id v).

Section Scans.
Context (stamp : Version -> Z).
#[export] Instance by_stamp_total : Total (by_stamp stamp).
Proof.
  intros v w. unfold by_stamp. rewrite (cmp_antisym (cmp:=key_order) (stamp v, v_id v) (stamp w, v_id w)).
  destruct (key_order (stamp v, v_id v) (stamp w, v_id w)); cbn; auto.
Qed.
#[export] Instance by_stamp_trans : Transitive (by_stamp stamp).
Proof.
  intros u v w. unfold by_stamp. rewrite !(cmp_gt_lt key_order). intros H1 H2 H3.
  destruct (key_order (stamp u, v_id u) (stamp v, v_id v)) eqn:E.
  - apply (cmp_eq_iff (cmp:=key_order)) in E. congruence.
  - apply H2. by eapply (cmp_trans (cmp:=key_order) _ (stamp u, v_id u)).
  - apply (cmp_gt_lt key_order) in E. congruence.
Qed.

(** Everything that can be offered, and what a keyset selects of it. *)
Definition all_versions (s : Store) : list Version := local_versions s ++ organization_versions s.
Definition selected (since : Z) (after_id : option string) (s : Store) : list Version :=
  merge_sort (by_stamp stamp) (List.filter (after_keyset stamp since after_id) (all_versions s)).

(** The two tables hold different ids, each row under its own. *)
Record tables_ok (s : Store) : Prop := {
  tb_keyed : keyed (items s);
  tb_organization k o : organization s !! k = Some o -> o_id o = k;
  tb_disjoint k : items s !! k = None \/ organization s !! k = None;
}.
Lemma elem_of_all_versions s v :
  v ∈ all_versions s <-> (exists k r, items s !! k = Some r /\ v = row_version r)
                         \/ (exists k o, organization s !! k = Some o /\ v = organization_version o).
Proof.
  unfold all_versions, local_versions, organization_versions. rewrite elem_of_app, !list_elem_of_fmap. split.
  - intros [(r & -> & [k Hr]%elem_of_rows)|([k o] & -> & Ho%elem_of_map_to_list)]; naive_solver.
  - intros [(k & r & Hr & ->)|(k & o & Ho & ->)].
    + left. exists r. split; [done|]. apply elem_of_rows. eauto.
    + right. exists (k, o). split; [done|]. by apply elem_of_map_to_list.
Qed.
(** An id names one version. *)
Lemma versions_by_id s v w :
  tables_ok s -> v ∈ all_versions s -> w ∈ all_versions s -> v_id v = v_id w -> v = w.
Proof.
  intros [Hk Ho Hd]. rewrite !elem_of_all_versions.
  intros [(a & r & Ha & ->)|(a & o & Ha & ->)] [(b & q & Hb & ->)|(b & p & Hb & ->)]; cbn.
  - rewrite (Hk _ _ Ha), (Hk _ _ Hb). intros ->. congruence.
  - rewrite (Hk _ _ Ha), (Ho _ _ Hb). intros ->. destruct (Hd b); congruence.
  - rewrite (Ho _ _ Ha), (Hk _ _ Hb). intros ->. destruct (Hd b); congruence.
  - rewrite (Ho _ _ Ha), (Ho _ _ Hb). intros ->. congruence.
Qed.
Lemma by_stamp_antisym v w : by_stamp stamp v w -> by_stamp stamp w v -> scan_key stamp v = scan_key stamp w.
Proof.
  unfold by_stamp, scan_key. rewrite (cmp_antisym (cmp:=key_order) (stamp v, v_id v) (stamp w, v_id w)).
  destruct (key_order (stamp v, v_id v) (stamp w, v_id w)) eqn:E; cbn; try done.
  intros _ _. by apply (cmp_eq_iff (cmp:=key_order)) in E.
Qed.
Lemma elem_of_selected since after_id s v :
  v ∈ selected since after_id s <-> v ∈ all_versions s /\ after_keyset stamp since after_id v = true.
Proof. unfold selected. by rewrite merge_sort_Permutation, list_elem_of_In, filter_In, <- list_elem_of_In. Qed.
Lemma selected_sorted since after_id s : StronglySorted (by_stamp stamp) (selected since after_id s).
Proof. apply StronglySorted_merge_sort; apply _. Qed.

Lemma bounded_versions_selected since after_id limit s :
  tables_ok s -> bounded_versions stamp since after_id limit s = take limit (selected since after_id s).
Proof.
  intros Ht. unfold bounded_versions, selected, all_versions. rewrite List.filter_app. apply bounded_streams; [apply _..|].
  rewrite <- List.filter_app. intros v w. rewrite !list_elem_of_In, !filter_In, <- !list_elem_of_In.
  intros [Hv _] [Hw _] H1 H2. apply (versions_by_id s); [done..|].
  pose proof (by_stamp_antisym _ _ H1 H2) as He. by injection He.
Qed.

(** The keyset in terms of the order. *)
Lemma after_keyset_key v w :
  after_keyset stamp (stamp v) (Some (v_id v)) w = true <->
  key_order (scan_key stamp v) (scan_key stamp w) = Lt.
Proof.
  unfold after_keyset, scan_key, pair_cmp. cbn.
  rewrite orb_true_iff, andb_true_iff, Z.ltb_lt, Z.eqb_eq, bool_decide_eq_true, (cmp_gt_lt str_cmp).
  destruct (Z.compare_spec (stamp v) (stamp w)) as [He|Hl|Hg]; cbn; naive_solver lia.
Qed.

Lemma all_versions_nodup s : tables_ok s -> NoDup (v_id <$> all_versions s).
Proof.
  intros Ht. pose proof Ht as [Hk Ho Hd]. unfold all_versions. rewrite fmap_app. apply NoDup_app. split_and!.
  - unfold local_versions. rewrite <- list_fmap_compose. by apply (rows_ids_nodup s).
  - intros id (v & -> & Hv)%list_elem_of_fmap (w & He & Hw)%list_elem_of_fmap.
    assert (v = w) as ->.
    { apply (versions_by_id s); [done|..|done]; apply elem_of_app; eauto. }
    unfold local_versions in Hv. apply list_elem_of_fmap in Hv as (r & -> & [a Ha]%elem_of_rows).
    unfold organization_versions in Hw. apply list_elem_of_fmap in Hw as ([b o] & Hw & Hb%elem_of_map_to_list).
    apply (f_equal v_id) in Hw. cbn in Hw. rewrite (Hk _ _ Ha), (Ho _ _ Hb) in Hw. subst b.
    destruct (Hd a); congruence.
  - unfold organization_versions. rewrite <- list_fmap_compose.
    assert (Hids : forall l : list (string * OrganizationRow), (forall p, p ∈ l -> o_id p.2 = p.1) ->
              (v_id ∘ (fun p => organization_version p.2)) <$> l = fst <$> l).
    { induction l as [|p l IH]; cbn; [done|]. intros Hp. f_equal; [apply Hp; by left|apply IH].
      intros q Hq. apply Hp. by right. }
    rewrite Hids; [apply NoDup_fst_map_to_list|]. intros [k o] Hp%elem_of_map_to_list. by apply Ho.
Qed.
Lemma nodup_of_ids (l : list Version) : NoDup (v_id <$> l) -> NoDup l.
Proof. apply NoDup_fmap_1. Qed.
Lemma filter_nodup (f : Version -> bool) l : NoDup l -> NoDup (List.filter f l).
Proof. intros Hl. apply NoDup_ListNoDup, List.NoDup_filter. by apply NoDup_ListNoDup. Qed.
Lemma selected_nodup since after_id s : tables_ok s -> NoDup (selected since after_id s).
Proof.
  intros Ht. unfold selected. rewrite merge_sort_Permutation. by apply filter_nodup, nodup_of_ids, all_versions_nodup.
Qed.
Lemma selected_antisym since after_id s : tables_ok s -> antisym_on (by_stamp stamp) (selected since after_id s).
Proof.
  intros Ht v w [Hv _]%elem_of_selected [Hw _]%elem_of_selected H1 H2. apply (versions_by_id s); [done..|].
  pose proof (by_stamp_antisym _ _ H1 H2) as He. by injection He.
Qed.
Lemma after_keyset_trans since after_id v w :
  after_keyset stamp since after_id v = true -> key_order (scan_key stamp v) (scan_key stamp w) = Lt ->
  after_keyset stamp since after_id w = true.
Proof.
  unfold after_keyset, scan_key, pair_cmp. cbn.
  rewrite !orb_true_iff, !andb_true_iff, !Z.ltb_lt, !Z.eqb_eq.
  destruct (Z.compare_spec (stamp v) (stamp w)) as [He|Hl|Hg]; cbn; [|intros; left; lia|done].
  intros [Hv|[Hv Ha]] Hlt; [left; lia|right]. split; [lia|]. destruct after_id as [a|]; [|done].
  revert Ha. rewrite !bool_decide_eq_true, !(cmp_gt_lt str_cmp). intros Ha.
  by eapply (cmp_trans (cmp:=str_cmp) a (v_id v)).
Qed.

(** After a page that ends in [v], the keyset of [v] selects exactly the rest. *)
Lemma rest_selected since after_id n s v :
  tables_ok s -> last (take n (selected since after_id s)) = Some v ->
  selected (stamp v) (Some (v_id v)) s = drop n (selected since after_id s).
Proof.
  intros Ht Hlast. set (S := selected since after_id s) in *.
  pose proof (selected_sorted since after_id s) as Hsort. fold S in Hsort.
  pose proof (selected_nodup since after_id s Ht) as Hnd. fold S in Hnd.
  assert (HvT : v ∈ take n S) by (apply last_Some_elem_of; done).
  assert (HvS : v ∈ S) by by eapply elem_take.
  assert (Hle : forall w, w ∈ take n S -> by_stamp stamp w v).
  { apply last_Some in Hlast as [l Hl]. intros w Hw.
    assert (Hs : StronglySorted (by_stamp stamp) (l ++ [v])) by (rewrite <- Hl; by apply take_sorted).
    rewrite Hl in Hw. apply elem_of_app in Hw as [Hw|Hw].
    - eapply StronglySorted_app_1_elem_of; [exact Hs|done|by apply list_elem_of_singleton].
    - apply list_elem_of_singleton in Hw as ->. unfold by_stamp. by rewrite (cmp_refl key_order). }
  rewrite <- (take_drop n S) in Hsort, Hnd. apply NoDup_app in Hnd as (_ & Hdis & HndD).
  apply sorted_unique with (R := by_stamp stamp).
  - by apply selected_antisym.
  - apply selected_sorted.
  - by apply StronglySorted_app_1_r in Hsort.
  - apply NoDup_Permutation; [by apply selected_nodup|done|]. intros w.
    rewrite elem_of_selected, after_keyset_key. split.
    + intros [Hall Hlt]. assert (HwS : w ∈ S).
      { apply elem_of_selected. split; [done|]. apply (after_keyset_trans _ _ v); [|done].
        by apply elem_of_selected in HvS as [_ ?]. }
      rewrite <- (take_drop n S) in HwS. apply elem_of_app in HwS as [Hw|?]; [|done].
      apply Hle in Hw. unfold by_stamp in Hw. apply (cmp_gt_lt key_order) in Hlt. by destruct Hw.
    + intros Hw. assert (HwS : w ∈ S).
      { rewrite <- (take_drop n S). apply elem_of_app. by right. }
      apply elem_of_selected in HwS as [Hall _]. split; [done|].
      assert (Hvw : by_stamp stamp v w) by (eapply StronglySorted_app_1_elem_of; eauto).
      unfold by_stamp in Hvw. fold (scan_key stamp v) (scan_key stamp w) in Hvw.
      destruct (key_order (scan_key stamp v) (scan_key stamp w)) eqn:E; [|done|done].
      apply (cmp_eq_iff (cmp:=key_order)) in E. exfalso. apply (Hdis v); [done|].
      assert (v = w) as ->; [|done]. apply elem_of_selected in HvS as [HvA _].
      apply (versions_by_id s); [done..|]. by injection E.
Qed.
End Scans.

(** ** Properties *)

(** C29: a page of the history is what sorting everything and taking the first
    rows gives, although each table is bounded first; and the page after it, asked
    for by the key of its last version, is the next stretch of the same list, so
    paging neither loses nor repeats a version, also when many share a stamp. *)
Theorem paging_is_complete stamp since after_id limit s :
  tables_ok s ->
  let page := bounded_versions stamp since after_id limit s in
  page = take limit (selected stamp since after_id s) /\
  forall v, last page = Some v ->
    bounded_versions stamp (stamp v) (Some (v_id v)) limit s
    = take limit (drop limit (selected stamp since after_id s)).
Proof.
  intros Ht page. subst page. rewrite bounded_versions_selected by done. split; [done|].
  intros v Hv. rewrite bounded_versions_selected by done. f_equal. by apply rest_selected.
Qed.

Lemma paging_is_complete_witness :
  exists v, last (versions_after 0 None 2 HistoryDemo.three) = Some v /\ v_id v = "b"%string /\
    v_id <$> versions_after (v_created_at v) (Some (v_id v)) 2 HistoryDemo.three = ["c"%string].
Proof.
  assert (Ht : tables_ok HistoryDemo.three).
  { split; [apply HistoryDemo.three_ok| |right]; [|by vm_compute].
    intros k o Hko. by vm_compute in Hko. }
  destruct (paging_is_complete v_created_at 0 None 2 HistoryDemo.three Ht) as [Hp Hn].
  destruct (last (versions_after 0 None 2 HistoryDemo.three)) as [v|] eqn:E; [|vm_compute in E; discriminate E].
  exists v. split; [done|]. split; [vm_compute in E; injection E as <-; reflexivity|].
  unfold versions_after in *. rewrite (Hn v E). vm_compute. reflexivity.
Defined.
