(* ===== verification/Pinning.v ===== *)
(** Pinning and the order of the pinned items
    ([copypaste-core/src/storage/pinning.rs]). *)

From S2P Require Import Prelude Float64 Bytes Text Wire Binary Payload Table Items ItemSafety Organization Scan.

(** ** Numbers *)

(** [SQLite] compares reals by value: the two zeros are equal. *)
Definition real_key (x : f64) : Z := if magnitude x =? 0 then 0 else total_key x.
Definition real_cmp (x y : f64) : comparison := Z.compare (real_key x) (real_key y).
(** [(n as f64).to_bits()], exact for [0 < n < 2^53]. *)
Definition f64_of_int (n : Z) : f64 :=
  let e := Z.log2 n in (1023 + e) * 2^52 + (n - 2^e) * 2^(52 - e).
(** [COALESCE(MAX(pin_order), 0) + 1] is computed by the database. *)
Class RealArith := { real_add_one : f64 -> f64 }.

Lemma f64_of_int_bounds n : 0 < n < 2^53 ->
  (1023 + Z.log2 n) * 2^52 <= f64_of_int n < (1024 + Z.log2 n) * 2^52.
Proof.
  intros Hn. unfold f64_of_int. destruct (Z.log2_spec n) as [H1 H2]; [lia|].
  assert (He : 0 <= Z.log2 n <= 52).
  { split; [apply Z.log2_nonneg|]. apply Z.lt_succ_r. apply Z.log2_lt_pow2; lia. }
  assert (Hp : 2^52 = 2^(Z.log2 n) * 2^(52 - Z.log2 n)) by (rewrite <- Z.pow_add_r by lia; f_equal; lia).
  assert (0 < 2^(52 - Z.log2 n)) by (apply Z.pow_pos_nonneg; lia).
  rewrite Z.pow_succ_r in H2 by lia. nia.
Qed.
Lemma f64_of_int_lt n m : 0 < n -> n < m -> m < 2^53 -> f64_of_int n < f64_of_int m.
Proof.
  intros H0 Hnm Hm. pose proof (f64_of_int_bounds n ltac:(lia)) as Bn.
  pose proof (f64_of_int_bounds m ltac:(lia)) as Bm.
  assert (Hl : Z.log2 n <= Z.log2 m) by (apply Z.log2_le_mono; lia).
  destruct (Z.eq_dec (Z.log2 n) (Z.log2 m)) as [He|Hne]; [|nia].
  unfold f64_of_int. rewrite He.
  assert (0 <= Z.log2 m <= 52).
  { split; [apply Z.log2_nonneg|]. apply Z.lt_succ_r. apply Z.log2_lt_pow2; lia. }
  assert (0 < 2^(52 - Z.log2 m)) by (apply Z.pow_pos_nonneg; lia). nia.
Qed.
Lemma real_key_of_int n : 0 < n < 2^53 -> real_key (f64_of_int n) = f64_of_int n.
Proof.
  intros Hn. pose proof (f64_of_int_bounds n Hn) as Hb.
  assert (0 <= Z.log2 n <= 52).
  { split; [apply Z.log2_nonneg|]. apply Z.lt_succ_r. apply Z.log2_lt_pow2; lia. }
  assert (Hpos : 0 < f64_of_int n < 2^63) by nia.
  unfold real_key, magnitude, total_key. change (2^63 - 1) with (Z.ones 63).
  rewrite Z.land_ones, Z.mod_small by lia.
  destruct (Z.eqb_spec (f64_of_int n) 0); [lia|]. destruct (Z.ltb_spec (f64_of_int n) 0); lia.
Qed.

(** ** Operations *)

(** [ORDER BY pin_order ASC, created_at DESC, id DESC]. *)
Definition pin_position (r : Row) : option Z * (Z * string) :=
  (real_key <$> r_pin_order r, row_key r).
Definition position_cmp (a b : option Z * (Z * string)) : comparison :=
  pair_cmp (option_cmp Z.compare) (fun x y => key_cmp y x) a b.
Definition before (r q : Row) : Prop := position_cmp (pin_position r) (pin_position q) <> Gt.
#[export] Instance before_dec r q : Decision (before r q).
Proof. unfold before. apply _. Defined.
Definition is_pinned (r : Row) : bool := r_pinned r && is_live r.
Definition pinned_rows (s : Store) : list Row := merge_sort before (List.filter is_pinned (rows s)).

(** [MAX(pin_order)] over the pinned rows, by value. *)
Fixpoint max_order (l : list Row) : option f64 :=
  match l with
  | [] => None
  | r :: l => match r_pin_order r, max_order l with
              | Some a, Some b => Some (cmp_max real_cmp b a)
              | Some a, None => Some a
              | None, m => m
              end
  end.

(** [Vec::contains] through a [HashSet]: the first mention counts. *)
Fixpoint dedup_ids (seen : list string) (ids : list string) : list string :=
  match ids with
  | [] => []
  | id :: ids => if existsb (String.eqb id) seen then dedup_ids seen ids
                 else id :: dedup_ids (id :: seen) ids
  end.
(** The rows named by the caller that are pinned, in its order, then the rest in
    theirs. *)
Definition find_row (id : string) (l : list Row) : option Row :=
  List.find (fun r => String.eqb (r_id r) id) l.
Definition reordered (ids : list string) (current : list Row) : list Row :=
  let named := omap (fun id => find_row id current) (dedup_ids [] ids) in
  named ++ List.filter (fun r => negb (existsb (String.eqb (r_id r)) (r_id <$> named))) current.

Section Pinning.
Context {DG : Digest} {OC : OrgCodec} {K : ItemKey} {RA : RealArith}.

(** [set_pinned_inner]; [synced] is [key.is_some()].  The clock is read once for
    the row and once for the record. *)
Definition set_pinned (rng : string -> bytes) (synced : bool) (id : string) (pinned : bool) (now later : Z) (s : Store)
    : result StoreError (bool * Store) :=
  match get id s with
  | None => Ok (false, s)
  | Some r =>
    let stamp := Z.max (i64_saturating_add (r_pin_at r) 1) now in
    let s := if pinned
             then if r_pinned r then s
                  else write_row (set_pin true (Some (real_add_one
                         (default Float64.zero (max_order (List.filter is_pinned (rows s)))))) stamp r) s
             else write_row (set_pin false None stamp r) s in
    if synced then s ← write_pin rng id later s; Ok (true, s) else Ok (true, s)
  end.

(** The renumbering [UPDATE]s, from [index]; the clock is read for every row. *)
Fixpoint renumber (index : Z) (ordered : list (string * Z)) (now : string -> Z) (s : Store) : Z * Store :=
  match ordered with
  | [] => (0, s)
  | (id, previous) :: rest =>
    let stamp := Z.max (i64_saturating_add previous 1) (now id) in
    let '(n, s') := match items s !! id with
                    | Some r => if is_pinned r
                                then (1, write_row (set_pin (r_pinned r) (Some (f64_of_int (index + 1))) stamp r) s)
                                else (0, s)
                    | None => (0, s)
                    end in
    let '(m, s'') := renumber (index + 1) rest now s' in
    (n + m, s'')
  end.
Fixpoint write_pins (rng : string -> bytes) (ids : list string) (now : string -> Z) (s : Store) : result StoreError Store :=
  match ids with
  | [] => Ok s
  | id :: ids => s ← write_pin rng id (now id) s; write_pins rng ids now s
  end.
(** [reorder_pinned_inner]. *)
Definition reorder_pinned (rng : string -> bytes) (synced : bool) (ids : list string) (now later : string -> Z) (s : Store)
    : result StoreError (Z * Store) :=
  let ordered := reordered ids (pinned_rows s) in
  let '(n, s) := renumber 0 ((fun r => (r_id r, r_pin_at r)) <$> ordered) now s in
  if synced then s ← write_pins rng (r_id <$> ordered) later s; Ok (n, s) else Ok (n, s).
End Pinning.

(** ** Orders *)

#[export] Instance position_ord : OrdLaws position_cmp.
Proof.
  assert (H : OrdLaws (fun x y => key_cmp y x)).
  { assert (Hk : OrdLaws key_cmp) by (unfold key_cmp; apply _). split.
    - intros a b. rewrite (cmp_eq_iff (cmp:=key_cmp)). naive_solver.
    - intros a b. apply (cmp_antisym (cmp:=key_cmp)).
    - intros a b c H1 H2. by apply (cmp_trans (cmp:=key_cmp) c b a). }
  unfold position_cmp. apply pair_ord; [apply _|exact H].
Qed.
#[export] Instance before_total : Total before.
Proof.
  intros r q. unfold before. rewrite (cmp_antisym (cmp:=position_cmp) (pin_position r) (pin_position q)).
  destruct (position_cmp (pin_position r) (pin_position q)); cbn; auto.
Qed.
#[export] Instance before_trans : Transitive before.
Proof.
  intros r q t. unfold before. rewrite !(cmp_gt_lt position_cmp). intros H1 H2 H3.
  destruct (position_cmp (pin_position r) (pin_position q)) eqn:E.
  - apply (cmp_eq_iff (cmp:=position_cmp)) in E. congruence.
  - apply H2. by eapply (cmp_trans (cmp:=position_cmp) _ (pin_position r)).
  - apply (cmp_gt_lt position_cmp) in E. congruence.
Qed.
Lemma elem_of_pinned_rows s r :
  r ∈ pinned_rows s <-> (exists k, items s !! k = Some r) /\ is_pinned r = true.
Proof.
  unfold pinned_rows. by rewrite merge_sort_Permutation, list_elem_of_In, filter_In, <- list_elem_of_In, elem_of_rows.
Qed.
Lemma pinned_rows_nodup s : keyed (items s) -> NoDup (r_id <$> pinned_rows s).
Proof.
  intros Hk. unfold pinned_rows. rewrite merge_sort_Permutation. by apply filter_nodup_ids, rows_ids_nodup.
Qed.

(** ** The requested order is a permutation of the pinned rows *)

Lemma existsb_eqb id l : existsb (String.eqb id) l = true <-> id ∈ l.
Proof.
  rewrite existsb_exists. setoid_rewrite String.eqb_eq. setoid_rewrite <- list_elem_of_In. naive_solver.
Qed.
Lemma dedup_ids_spec seen ids :
  NoDup (dedup_ids seen ids) /\ forall id, id ∈ dedup_ids seen ids <-> id ∈ ids /\ id ∉ seen.
Proof.
  revert seen; induction ids as [|x ids IH]; intros seen; cbn [dedup_ids].
  - split; [constructor|]. intros id. split; [by intros H%elem_of_nil|]. by intros [H%elem_of_nil _].
  - destruct (existsb (String.eqb x) seen) eqn:E.
    + apply existsb_eqb in E. destruct (IH seen) as [Hn Hi]. split; [done|].
      intros id. rewrite Hi, elem_of_cons. naive_solver.
    + assert (Hx : x ∉ seen) by (rewrite <- existsb_eqb; congruence).
      destruct (IH (x :: seen)) as [Hn Hi]. split.
      * constructor; [|done]. rewrite Hi, elem_of_cons. tauto.
      * intros id. rewrite elem_of_cons, Hi, !elem_of_cons. destruct (decide (id = x)); naive_solver.
Qed.
Lemma NoDup_fmap_in {A B} (f : A -> B) l x y : NoDup (f <$> l) -> x ∈ l -> y ∈ l -> f x = f y -> x = y.
Proof.
  induction l as [|a l IH]; cbn; [by intros _ H%elem_of_nil|].
  intros [Ha Hn]%NoDup_cons [->|Hx]%elem_of_cons [->|Hy]%elem_of_cons He; [done| | |by apply IH].
  - destruct Ha. rewrite He. by apply list_elem_of_fmap_2.
  - destruct Ha. rewrite <- He. by apply list_elem_of_fmap_2.
Qed.
Lemma find_row_some id l r : find_row id l = Some r -> r ∈ l /\ r_id r = id.
Proof. intros [Hin He]%find_some. apply String.eqb_eq in He. by rewrite list_elem_of_In. Qed.
Lemma find_row_in l r : NoDup (r_id <$> l) -> r ∈ l -> find_row (r_id r) l = Some r.
Proof.
  intros Hnd Hr. destruct (find_row (r_id r) l) as [q|] eqn:E.
  - apply find_row_some in E as [Hq He]. f_equal. by apply (NoDup_fmap_in r_id l).
  - apply list_elem_of_In in Hr. pose proof (find_none _ _ E r Hr) as Hn. cbn in Hn.
    by rewrite String.eqb_refl in Hn.
Qed.
Lemma reordered_permutation ids l : NoDup (r_id <$> l) -> reordered ids l ≡ₚ l.
Proof.
  intros Hnd. unfold reordered. set (named := omap _ _).
  destruct (dedup_ids_spec [] ids) as [Hd Hin].
  assert (Hnamed : forall r, r ∈ named -> r ∈ l).
  { intros r (id & _ & Hf)%list_elem_of_omap. by apply find_row_some in Hf as [? _]. }
  assert (Hndn : NoDup (r_id <$> named)).
  { subst named. clear Hin Hnamed. induction Hd as [|id d Hid Hd IH]; cbn; [constructor|].
    destruct (find_row id l) as [r|] eqn:E; cbn; [|done]. constructor; [|done].
    apply find_row_some in E as [_ ->]. intros (q & -> & (j & Hj & Hf)%list_elem_of_omap)%list_elem_of_fmap.
    apply find_row_some in Hf as [_ Hq]. apply Hid. by rewrite Hq. }
  assert (HndF : NoDup (r_id <$> List.filter (fun r => negb (existsb (String.eqb (r_id r)) (r_id <$> named))) l))
    by by apply filter_nodup_ids.
  apply NoDup_Permutation.
  - apply NoDup_app. split_and!; [by eapply NoDup_fmap_1| |by eapply NoDup_fmap_1].
    intros r Hr [_ Hf]%list_elem_of_In%filter_In. apply negb_true_iff in Hf.
    assert (r_id r ∈ r_id <$> named) by by apply list_elem_of_fmap_2.
    apply existsb_eqb in H. congruence.
  - by eapply NoDup_fmap_1.
  - intros r. rewrite elem_of_app, list_elem_of_In with (l := List.filter _ _), filter_In, <- list_elem_of_In. split.
    + intros [?|[? _]]; eauto.
    + intros Hr. destruct (existsb (String.eqb (r_id r)) (r_id <$> named)) eqn:E; [left|by right].
      apply existsb_eqb, list_elem_of_fmap in E as (q & He & Hq).
      assert (q = r) as ->; [|done]. apply (NoDup_fmap_in r_id l); auto.
Qed.

(** ** Renumbering *)

Section PinningSafety.
Context {PC : PayloadCodecs} {MJ : MetadataJson}.

Lemma set_pin_shape o at_ r : is_pinned r = true -> same_shape r (set_pin (r_pinned r) o at_ r).
Proof.
  unfold is_pinned, is_live. intros [_ Hl%negb_true_iff]%andb_true_iff. split_and!; try done.
  intros _ Ht. cbn in Ht. congruence.
Qed.
Lemma renumber_ok index l now s n s' : store_ok s -> renumber index l now s = (n, s') -> store_ok s'.
Proof.
  revert index s n; induction l as [|[id p] l IH]; intros index s n Hs; cbn [renumber]; [by intros [= _ <-]|].
  set (step := match items s !! id with Some _ => _ | None => _ end).
  assert (Hstep : store_ok step.2).
  { subst step. destruct (items s !! id) as [r|] eqn:E; [|done]. case_match eqn:Hp; [|done]. cbn.
    apply (write_shape_ok s r); [done| |by apply set_pin_shape].
    pose proof Hs as [[Hk _ _ _ _] _]. by rewrite (Hk _ _ E). }
  destruct step as [a s1]. destruct (renumber _ l now s1) as [b s2] eqn:E. intros [= _ <-].
  by eapply IH.
Qed.
(** The rows of distinct pinned ids get consecutive orders, the others stay. *)
Lemma renumber_spec index l now s n s' :
  keyed (items s) -> NoDup (fst <$> l) ->
  (forall id p, (id, p) ∈ l -> exists r, items s !! id = Some r /\ is_pinned r = true) ->
  renumber index l now s = (n, s') ->
  n = len l /\ keyed (items s') /\
  (forall k, k ∉ (fst <$> l) -> items s' !! k = items s !! k) /\
  (forall i id p, l !! i = Some (id, p) -> exists r st, items s !! id = Some r /\
     items s' !! id = Some (set_pin (r_pinned r) (Some (f64_of_int (index + Z.of_nat i + 1))) st r)).
Proof.
  revert index s n; induction l as [|[id p] l IH]; intros index s n Hk Hnd Hin; cbn [renumber].
  - intros [= <- <-]. split_and!; try done.
  - cbn [fmap list_fmap] in Hnd. apply NoDup_cons in Hnd as [Hid Hnd].
    destruct (Hin id p) as (r & Hr & Hp); [left|]. rewrite Hr, Hp.
    set (r1 := set_pin _ _ _ r). set (s1 := write_row r1 s).
    assert (Hi1 : items s1 = <[id := r1]> (items s)).
    { subst s1. rewrite items_write_row. cbn. by rewrite (Hk _ _ Hr). }
    assert (Hk1 : keyed (items s1)).
    { subst s1. rewrite items_write_row. by apply rows_keyed_insert. }
    destruct (renumber (index + 1) l now s1) as [m s2] eqn:E. intros [= <- <-].
    destruct (IH (index + 1) s1 m Hk1 Hnd) as (-> & Hk2 & Hsame & Hset); [|done|].
    { intros j q Hj. destruct (Hin j q) as (x & Hx & Hxp); [by right|]. exists x. split; [|done].
      rewrite Hi1, lookup_insert_ne; [done|]. intros ->. apply Hid.
      apply list_elem_of_fmap. by exists (j, q). }
    split_and!; [rewrite len_cons; lia|done| |].
    + intros k. cbn. rewrite not_elem_of_cons. intros [Hne Hkl]. rewrite Hsame by done.
      by rewrite Hi1, lookup_insert_ne.
    + intros [|i] j q; cbn.
      * intros [= <- <-]. exists r. eexists. split; [done|].
        rewrite Hsame by done. rewrite Hi1, lookup_insert_eq. subst r1.
        do 3 f_equal. f_equal. lia.
      * intros Hi. destruct (Hset i j q Hi) as (x & st & Hx & Hx').
        exists x, st. rewrite Hi1, lookup_insert_ne in Hx.
        -- split; [done|]. rewrite Hx'. do 3 f_equal. f_equal. lia.
        -- intros ->. apply Hid, list_elem_of_fmap. exists (j, q). split; [done|]. by eapply list_elem_of_lookup_2.
Qed.

(** ** Records of pins *)

(** Rows that differ in the stamp of their pin only. *)
Definition same_position (q r : Row) : Prop :=
  set_pin (r_pinned q) (r_pin_order q) 0 q = set_pin (r_pinned r) (r_pin_order r) 0 r.
Definition positions_kept (s s' : Store) : Prop :=
  forall k, match items s !! k with
            | Some q => exists r, items s' !! k = Some r /\ same_position q r
            | None => items s' !! k = None
            end.
Lemma positions_kept_refl s : positions_kept s s.
Proof. intros k. destruct (items s !! k) as [q|]; [by exists q|done]. Qed.
Lemma positions_kept_trans s1 s2 s3 : positions_kept s1 s2 -> positions_kept s2 s3 -> positions_kept s1 s3.
Proof.
  intros H1 H2 k. specialize (H1 k). specialize (H2 k). destruct (items s1 !! k) as [q|].
  - destruct H1 as (r & Hr & E1). rewrite Hr in H2. destruct H2 as (x & Hx & E2).
    exists x. split; [done|]. unfold same_position in *. congruence.
  - by rewrite H1 in H2.
Qed.

Context {DG : Digest} {OC : OrgCodec} {OL : OrgCodecLaws} {K : ItemKey}.
Lemma write_pin_positions rng id now s s' :
  keyed (items s) -> write_pin rng id now s = Ok s' -> positions_kept s s'.
Proof.
  intros Hk. unfold write_pin. destruct (items s !! id) as [r|] eqn:E; [|intros [= <-]; apply positions_kept_refl].
  destruct (r_deleted r) eqn:Hd; [intros [= <-]; apply positions_kept_refl|].
  intros [->|(row & _ & _ & _ & _ & Hrow & Hoth)]%org_write_spec; [apply positions_kept_refl|].
  intros k. destruct (decide (k = id)) as [->|Hne].
  - rewrite E. exists (set_pin (r_pinned r) (r_pin_order r) (o_created_at row) r). split; [|done].
    by apply Hrow; [|done|apply Hk].
  - rewrite (Hoth Hk) by done. destruct (items s !! k) as [q|]; [by exists q|done].
Qed.
Lemma write_pins_spec rng ids now s s' :
  store_ok s -> write_pins rng ids now s = Ok s' -> store_ok s' /\ positions_kept s s'.
Proof.
  revert s; induction ids as [|id ids IH]; intros s Hs; cbn [write_pins].
  - intros [= <-]. split; [done|apply positions_kept_refl].
  - intros (s1 & H1 & H2)%bind_ok. pose proof (write_pin_keeps store_ok rng (org_write_ok rng) _ _ _ _ Hs H1) as Hs1.
    destruct (IH s1 Hs1 H2) as [Hs' Hp]. split; [done|].
    eapply positions_kept_trans; [|exact Hp]. eapply write_pin_positions; [|done]. apply Hs.
Qed.
Lemma set_pinned_ok {RA : RealArith} rng synced id p now later s b s' :
  store_ok s -> set_pinned rng synced id p now later s = Ok (b, s') -> store_ok s'.
Proof.
  intros Hs. unfold set_pinned. destruct (get id s) as [r|] eqn:Eg; [|by intros [= _ <-]].
  destruct (get_some _ _ _ Hs Eg) as (Hh & <- & Hl).
  set (s1 := if p then _ else _). assert (Hs1 : store_ok s1).
  { assert (Hw : forall q o at_, store_ok (write_row (set_pin q o at_ r) s)).
    { intros q o at_. apply (write_shape_ok s r); [done|exact Hh|]. split_and!; try done.
      intros _ Ht. cbn in Ht. congruence. }
    subst s1. destruct p; [destruct (r_pinned r); [done|]|]; apply Hw. }
  destruct synced; [|by intros [= _ <-]].
  intros (s2 & Hw & [= _ <-])%bind_ok. by eapply (write_pin_keeps store_ok rng (org_write_ok rng)).
Qed.
Lemma reorder_pinned_ok rng synced ids now later s n s' :
  store_ok s -> reorder_pinned rng synced ids now later s = Ok (n, s') -> store_ok s'.
Proof.
  intros Hs. unfold reorder_pinned. destruct (renumber _ _ now s) as [m s1] eqn:E.
  pose proof (renumber_ok _ _ _ _ _ _ Hs E) as Hs1.
  destruct synced; [|by intros [= _ <-]]. intros (s2 & Hw & [= _ <-])%bind_ok.
  by apply (write_pins_spec _ _ _ _ _ Hs1 Hw).
Qed.

(** Rows with orders 1, 2, ... stand in that sequence. *)
Lemma before_orders r q i j :
  r_pin_order r = Some (f64_of_int i) -> r_pin_order q = Some (f64_of_int j) ->
  0 < i -> i < j -> j < 2^53 -> before r q.
Proof.
  intros Hr Hq H0 Hij Hj. unfold before, position_cmp, pin_position, pair_cmp. cbn. rewrite Hr, Hq. cbn.
  rewrite !real_key_of_int by lia.
  by rewrite (proj2 (Z.compare_lt_iff _ _) (f64_of_int_lt i j H0 Hij Hj)).
Qed.
Lemma pinned_sequence (l : list Row) :
  len l < 2^53 - 1 ->
  (forall i r, l !! i = Some r -> r_pin_order r = Some (f64_of_int (Z.of_nat i + 1))) ->
  StronglySorted before l.
Proof.
  intros Hlen Hl.
  assert (H : forall k m, l = k ++ m -> StronglySorted before m).
  { intros k m; revert k; induction m as [|r m IH]; intros k Hkm; constructor.
    - apply (IH (k ++ [r])). by rewrite <- app_assoc.
    - apply Forall_lookup. intros j q Hq.
      assert (Hr : l !! length k = Some r) by (rewrite Hkm; by apply list_lookup_middle).
      assert (Hq' : l !! (length k + S j)%nat = Some q).
      { rewrite Hkm, lookup_app_r by lia. by replace (length k + S j - length k)%nat with (S j) by lia. }
      eapply before_orders; [by apply Hl|by apply Hl|lia|lia|].
      apply lookup_lt_Some in Hq'. unfold len in Hlen. lia. }
  by apply (H []).
Qed.

(** A list of rows is the pinned list when it holds just the pinned rows, in
    consecutive orders. *)
Lemma pinned_rows_unique s l :
  keyed (items s) -> len l < 2^53 - 1 -> NoDup (r_id <$> l) ->
  (forall r, r ∈ l <-> (exists k, items s !! k = Some r) /\ is_pinned r = true) ->
  (forall i r, l !! i = Some r -> r_pin_order r = Some (f64_of_int (Z.of_nat i + 1))) ->
  pinned_rows s = l.
Proof.
  intros Hk Hlen Hnd Hin Hord. symmetry. apply (sorted_unique before).
  - intros x y Hx Hy H1 H2.
    apply list_elem_of_lookup in Hx as [i Hi]. apply list_elem_of_lookup in Hy as [j Hj].
    destruct (Nat.lt_trichotomy i j) as [Hij|[->|Hij]]; [|congruence|].
    + destruct H2. unfold position_cmp, pin_position, pair_cmp. cbn.
      rewrite (Hord _ _ Hi), (Hord _ _ Hj). cbn. apply lookup_lt_Some in Hi, Hj. unfold len in Hlen.
      rewrite !real_key_of_int by lia.
      by rewrite (proj2 (Z.compare_gt_iff _ _) (f64_of_int_lt (Z.of_nat i + 1) (Z.of_nat j + 1) ltac:(lia) ltac:(lia) ltac:(lia))).
    + destruct H1. unfold position_cmp, pin_position, pair_cmp. cbn.
      rewrite (Hord _ _ Hi), (Hord _ _ Hj). cbn. apply lookup_lt_Some in Hi, Hj. unfold len in Hlen.
      rewrite !real_key_of_int by lia.
      by rewrite (proj2 (Z.compare_gt_iff _ _) (f64_of_int_lt (Z.of_nat j + 1) (Z.of_nat i + 1) ltac:(lia) ltac:(lia) ltac:(lia))).
  - by apply pinned_sequence.
  - apply (StronglySorted_merge_sort before).
  - apply NoDup_Permutation; [by eapply NoDup_fmap_1| |].
    + eapply NoDup_fmap_1. by apply pinned_rows_nodup.
    + intros r. by rewrite Hin, elem_of_pinned_rows.
Qed.

Lemma same_position_facts q r : same_position q r ->
  r_id q = r_id r /\ r_pinned q = r_pinned r /\ r_pin_order q = r_pin_order r /\ is_pinned q = is_pinned r.
Proof. unfold same_position, set_pin. intros [=]. unfold is_pinned, is_live. split_and!; congruence. Qed.

(** The rows a renumbering leaves under the ids of [O]. *)
Lemma renumbered_rows O now s n s1 s' :
  keyed (items s) -> keyed (items s') -> NoDup (r_id <$> O) ->
  (forall r, r ∈ O -> holds s r /\ is_pinned r = true) ->
  renumber 0 ((fun r => (r_id r, r_pin_at r)) <$> O) now s = (n, s1) -> positions_kept s1 s' ->
  n = len O /\
  (forall k r, items s' !! k = Some r -> is_pinned r = true -> k ∉ (r_id <$> O) ->
     exists q, items s !! k = Some q /\ is_pinned q = true) /\
  exists L, r_id <$> L = r_id <$> O /\ (forall r, r ∈ L -> items s' !! r_id r = Some r /\ is_pinned r = true) /\
    (forall i r, L !! i = Some r -> r_pin_order r = Some (f64_of_int (Z.of_nat i + 1))).
Proof.
  intros Hk Hk' Hnd HO Hren Hpos.
  assert (Hfst : fst <$> ((fun r => (r_id r, r_pin_at r)) <$> O) = r_id <$> O).
  { rewrite <- list_fmap_compose. done. }
  destruct (renumber_spec _ _ _ _ _ _ Hk ltac:(by rewrite Hfst) ltac:(idtac;
    intros id p (r & [= -> ->] & Hr)%list_elem_of_fmap; destruct (HO r Hr); by exists r) Hren)
    as (-> & _ & Hsame & Hset).
  rewrite Hfst in Hsame. split; [unfold len; by rewrite length_fmap|]. split.
  - intros k r Hr Hp Hn. specialize (Hpos k). rewrite (Hsame k Hn) in Hpos.
    destruct (items s !! k) as [q|]; [|congruence]. destruct Hpos as (x & Hx & Hsp).
    exists q. split; [done|]. apply same_position_facts in Hsp as (_ & _ & _ & Hpp). congruence.
  - assert (Hrow : forall i r, O !! i = Some r -> exists r', items s' !! r_id r = Some r' /\ r_id r' = r_id r /\
              is_pinned r' = true /\ r_pin_order r' = Some (f64_of_int (Z.of_nat i + 1))).
    { intros i r Hi. destruct (Hset i (r_id r) (r_pin_at r)) as (q & st & Hq & Hq1).
      { by rewrite list_lookup_fmap, Hi. }
      specialize (Hpos (r_id r)). rewrite Hq1 in Hpos. destruct Hpos as (x & Hx & Hsp).
      exists x. apply same_position_facts in Hsp as (Hid & _ & Ho & Hpp). cbn in Hid, Ho.
      destruct (HO r) as [Hh Hrp]; [by eapply list_elem_of_lookup_2|]. unfold holds in Hh.
      assert (q = r) as -> by congruence. split_and!; [done|done| |].
      - rewrite <- Hpp. exact Hrp.
      - by rewrite <- Ho. }
    exists ((fun r => default r (items s' !! r_id r)) <$> O). split_and!.
    + apply list_eq. intros i. rewrite !list_lookup_fmap. destruct (O !! i) as [r|] eqn:Hi; cbn; [|done].
      destruct (Hrow i r Hi) as (x & -> & Hid & _). cbn. by rewrite Hid.
    + intros r (i & Hi)%list_elem_of_lookup. rewrite list_lookup_fmap in Hi.
      destruct (O !! i) as [q|] eqn:Hq; [|done]. destruct (Hrow i q Hq) as (x & Hx & Hid & Hp & _).
      cbn in Hi. rewrite Hx in Hi. injection Hi as <-. by rewrite Hid.
    + intros i r Hi. rewrite list_lookup_fmap in Hi. destruct (O !! i) as [q|] eqn:Hq; [|done].
      destruct (Hrow i q Hq) as (x & Hx & _ & _ & Ho). cbn in Hi. rewrite Hx in Hi. by injection Hi as <-.
Qed.

(** Reordering the pinned items shows them in exactly the order asked for:
    the named ones that are still pinned first, in the caller's order, then the
    others in the order they had; none is lost, and all are renumbered. *)
Theorem reorder_shows_the_requested_order rng synced ids now later s n s' :
  store_ok s -> len (pinned_rows s) < 2^53 - 1 ->
  reorder_pinned rng synced ids now later s = Ok (n, s') ->
  n = len (pinned_rows s) /\
  r_id <$> pinned_rows s' = r_id <$> reordered ids (pinned_rows s) /\
  reordered ids (pinned_rows s) ≡ₚ pinned_rows s.
Proof.
  intros Hs Hlen Hre. pose proof (reorder_pinned_ok _ _ _ _ _ _ _ _ Hs Hre) as Hs'.
  assert (Hk : keyed (items s)) by apply Hs. assert (Hk' : keyed (items s')) by apply Hs'.
  pose proof (pinned_rows_nodup s Hk) as Hnd.
  pose proof (reordered_permutation ids _ Hnd) as Hperm. set (O := reordered ids (pinned_rows s)) in *.
  assert (HO : forall r, r ∈ O -> holds s r /\ is_pinned r = true).
  { intros r. rewrite Hperm, elem_of_pinned_rows. intros [[k Hr] Hp]. split; [|done].
    unfold holds. by rewrite (Hk _ _ Hr). }
  assert (HndO : NoDup (r_id <$> O)) by by rewrite Hperm.
  assert (HlO : len O = len (pinned_rows s)) by (unfold len; by rewrite Hperm).
  revert Hre. unfold reorder_pinned. fold O. destruct (renumber _ _ now s) as [m s1] eqn:Hren.
  intros Hre. assert (Hpos : n = m /\ positions_kept s1 s').
  { destruct synced; [|injection Hre as <- <-; split; [done|apply positions_kept_refl]].
    apply bind_ok in Hre as (s2 & Hw & [= <- <-]). split; [done|].
    apply (write_pins_spec _ _ _ _ _ (renumber_ok _ _ _ _ _ _ Hs Hren) Hw). }
  destruct Hpos as [-> Hpos].
  destruct (renumbered_rows O now s m s1 s' Hk Hk' HndO HO Hren Hpos) as (-> & Hout & L & Hids & HL & Hord).
  split_and!; [done| |done]. rewrite <- Hids. f_equal. apply pinned_rows_unique; [done| |by rewrite Hids| |done].
  - replace (len L) with (len O); [lia|]. unfold len. rewrite <- (length_fmap r_id L), Hids. by rewrite length_fmap.
  - intros r. split; [intros Hr; destruct (HL r Hr); eauto|]. intros [[k Hr] Hp].
    destruct (decide (k ∈ (r_id <$> O))) as [Hin|Hout'].
    + rewrite <- Hids in Hin. apply list_elem_of_fmap in Hin as (q & -> & Hq).
      destruct (HL q Hq) as [Hq' _]. assert (q = r) as -> by congruence. done.
    + destruct (Hout k r Hr Hp Hout') as (q & Hq & Hqp). destruct Hout'.
      apply list_elem_of_fmap. exists q. split; [by rewrite (Hk _ _ Hq)|].
      rewrite Hperm. apply elem_of_pinned_rows. eauto.
Qed.
End PinningSafety.

Module PinDemo.
#[export] Existing Instances HistoryDemo.codecs HistoryDemo.json HistoryDemo.laws BinaryDemo.key OrgDemo.digest
  OrgDemo.codec OrgDemo.codec_laws.
#[export] Instance arith : RealArith :=
  {| real_add_one := fun x => if x =? Float64.zero then f64_of_int 1 else f64_of_int 2 |}.
Definition pin (id : string) (s : Store) : Store :=
  match set_pinned (fun _ => []) false id true 5000 5000 s with Ok (_, s') => s' | Err _ => s end.
Definition pinned : Store := pin "b" (pin "a" HistoryDemo.three).
Lemma pinned_ok : store_ok pinned.
Proof.
  assert (H : forall id s, store_ok s -> store_ok (pin id s)).
  { intros id s Hs. unfold pin. destruct (set_pinned (fun _ => []) false id true 5000 5000 s) as [[b s']|] eqn:E; [|done].
    by eapply set_pinned_ok. }
  apply H, H, HistoryDemo.three_ok.
Qed.
End PinDemo.
Import PinDemo.

Lemma reorder_shows_the_requested_order_witness :
  exists s', reorder_pinned (fun _ => []) false ["b"; "x"; "b"]%string (fun _ => 6000) (fun _ => 6000) pinned = Ok (2, s') /\
    r_id <$> pinned_rows s' = ["b"; "a"]%string.
Proof.
  destruct (reorder_pinned (fun _ => []) false ["b"; "x"; "b"]%string (fun _ => 6000) (fun _ => 6000) pinned)
    as [[n s']|e] eqn:E; [|vm_compute in E; discriminate E].
  destruct (reorder_shows_the_requested_order _ _ _ _ _ _ _ _ pinned_ok ltac:(vm_compute; reflexivity) E)
    as (-> & Ho & _).
  exists s'. split; [f_equal; f_equal; vm_compute; reflexivity|]. rewrite Ho. vm_compute. reflexivity.
Defined.
