(* ===== verification/LocalMerge.v ===== *)
(** Merging a version that arrived into the local history
    ([copypaste-core/src/sync/merge.rs], [prepare.rs], [batch.rs],
    [diagnostics.rs]): the decision, the seal, the write, and the same for a
    whole page under one transaction. *)

From S2P Require Import Prelude Float64 Bytes Text Wire Binary Merge Payload Credentials Workspace Table Items ItemSafety Organization Versions Scan.

(** ** [diagnostics.rs] *)

Definition io_code (k : IoKind) : SyncIssueCode.t :=
  match k with
  | IoStorageFull => SyncIssueCode.StorageFull
  | IoOutOfMemory => SyncIssueCode.ResourcesUnavailable
  | IoPermissionDenied => SyncIssueCode.StoragePermissionDenied
  | IoWouldBlock | IoInterrupted => SyncIssueCode.HistoryBusy
  | IoTimedOut | IoOther => SyncIssueCode.HistoryUnavailable
  end.
Definition sqlite_code (c : SqliteCode) : SyncIssueCode.t :=
  match c with
  | DiskFull => SyncIssueCode.StorageFull
  | OutOfMemory => SyncIssueCode.ResourcesUnavailable
  | PermissionDenied | ReadOnly | AuthorizationDenied => SyncIssueCode.StoragePermissionDenied
  | DatabaseBusy | DatabaseLocked => SyncIssueCode.HistoryBusy
  | DatabaseCorrupt | NotADatabase => SyncIssueCode.HistoryCorrupt
  | _ => SyncIssueCode.HistoryUnavailable
  end.
Definition store_code (e : StoreError) : SyncIssueCode.t :=
  match e with
  | FileFailed k => io_code k
  | Sqlite c => sqlite_code c
  | Pool => SyncIssueCode.HistoryUnavailable
  | InvalidKey => SyncIssueCode.HistoryLocked
  | IntegrityCheckFailed => SyncIssueCode.HistoryCorrupt
  | InvalidSchema => SyncIssueCode.HistoryIncompatible
  | InvalidPayload => SyncIssueCode.LocalPayloadInvalid
  | NotFound | InvalidCursor | InvalidHistoryQuery | InvalidDeviceName => SyncIssueCode.HistoryUnavailable
  end.

(** ** Versions that arrive *)

Record RemoteVersion := {
  rv_id : string; rv_content : string; rv_binary : option bytes; rv_metadata : option string;
  rv_type : string; rv_created_at : Z; rv_deleted : bool; rv_hash : option string; rv_origin : string;
  rv_app_id : option string; rv_app_name : option string;
}.
Inductive MergeError :=
| MergeStore | StoreCause (code : SyncIssueCode.t) | MergeEncrypt | MergeTooLarge.
Record P2pPin := { pp_pinned : bool; pp_order : option f64; pp_updated_at : Z }.
Record P2pApply := { ap_content : bool; ap_pin : bool }.
Definition ap_any (a : P2pApply) : bool := ap_content a || ap_pin a.

(** Library code: serde's parser of a transfer offer. *)
Class OfferJson := { serde_file_transfer : bytes -> option FileTransfer }.

Definition IMPORT_ID_PREFIX : string := "file-import-".
Definition rv_bytes (i : RemoteVersion) : bytes := default (as_bytes (rv_content i)) (rv_binary i).

Definition stored_summary (local : Version) (here : string) : ItemSummary :=
  {| item_id := v_id local; created_at := v_created_at local; deleted := v_deleted local;
     content_hash := v_hash local; origin_device_id := origin_or (v_origin local) here;
     pinned := v_pinned local; pin_order := v_order local; pin_updated_at := v_pin_at local |}.
Definition remote_summary (i : RemoteVersion) (hash : string) (pin : option P2pPin) : ItemSummary :=
  {| item_id := rv_id i; created_at := rv_created_at i; deleted := rv_deleted i; content_hash := hash;
     origin_device_id := rv_origin i;
     pinned := match pin with Some p => pp_pinned p | None => false end;
     pin_order := p ← pin; pp_order p;
     pin_updated_at := match pin with Some p => pp_updated_at p | None => 0 end |}.

Section LocalMerge.
Context {PC : PayloadCodecs} {MJ : MetadataJson} {DG : Digest} {OC : OrgCodec} {K : ItemKey}
        {CC : CredentialCodecs} {OJ : OfferJson}.

(** [payload_is_refused]. *)
Definition payload_is_refused (i : RemoteVersion) : bool :=
  if rv_deleted i then is_some (rv_metadata i)
  else if is_binary (rv_type i) && negb (is_some (rv_binary i)) then true
  else match rv_metadata i with
       | None => String.eqb (rv_type i) FILE
       | Some j =>
         match from_json j (rv_type i) with
         | None => true
         | Some m => match (f ← file m; transfer f) with
                     | Some offer => negb (String.eqb (rv_type i) FILE)
                                     || negb (bool_decide ((b ← rv_binary i; serde_file_transfer b) = Some offer))
                     | None => false
                     end
         end
       end.

(** The hash of a version: of its content; a tombstone's own or the one it
    deletes. *)
Definition remote_content_hash (i : RemoteVersion) (local : option Version) : string :=
  if rv_deleted i then
    match rv_hash i with
    | Some h => h
    | None => match local with Some l => v_hash l | None => ""%string end
    end
  else plaintext_content_hash (rv_bytes i).
Definition organization_text (i : RemoteVersion) : option string :=
  if String.eqb (rv_type i) CONTENT_TYPE then b ← rv_binary i; from_utf8 b else Some (rv_content i).

(** The seal of a live version; [rng] gives the two nonces drawn for an item. *)
Definition seal_remote (rng : string -> bytes * bytes) (i : RemoteVersion)
    : result MergeError (option bytes * option bytes) :=
  if rv_deleted i then Ok (None, None)
  else
    let '(nonce, stream_nonce) := rng (rv_id i) in
    let content := rv_bytes i in
    if is_binary (rv_type i) then
      let digest := sha256 content in
      c ← map_err (fun _ => MergeEncrypt)
            (if str_starts_with IMPORT_ID_PREFIX (rv_id i)
             then reference_seal nonce stream_nonce content digest (rv_id i)
             else seal_with_digest stream_nonce content digest (rv_id i));
      Ok (Some [], Some c)
    else
      '(n, c) ← map_err (fun _ => MergeEncrypt) (encrypt nonce content (rv_id i));
      Ok (Some n, Some c).

(** The metadata of a live version: recognised credentials are marked. *)
Definition remote_metadata (i : RemoteVersion) : option string :=
  if rv_deleted i then None
  else match classify_credentials (rv_type i) (rv_content i) with
       | Some p =>
         let supplied := default (with_privacy (privacy_of (rv_metadata i)) no_metadata)
                           (parsed_metadata (rv_metadata i) (rv_type i)) in
         to_json (credential_metadata p (Some supplied)) (rv_type i)
       | None => rv_metadata i
       end.
Definition remote_pin (i : RemoteVersion) (pin : option (P2pPin * bool)) (local : option Version)
    : bool * option f64 * Z :=
  if rv_deleted i then (false, None, 0)
  else match pin with
       | Some (p, true) => (pp_pinned p, pp_order p, pp_updated_at p)
       | _ => match local with
              | Some l => (v_pinned l, v_order l, v_pin_at l)
              | None => (false, None, 0)
              end
       end.

(** [prepare_remote_version]: [None] when the local copy wins. *)
Definition prepare_remote_version (rng : string -> bytes * bytes) (here : string) (i : RemoteVersion)
    (pin : option (P2pPin * bool)) (local : option Version) : result MergeError (option IncomingItem) :=
  if negb (match organization_text i with
           | Some t => valid_wire (rv_id i) (rv_type i) t (rv_deleted i)
           | None => false
           end) then Ok None
  else
    _ ← refuse_if (negb (rv_deleted i) && (len (rv_bytes i) >? MAX_CONTENT_BYTES)) MergeTooLarge;
    let hash := remote_content_hash i local in
    let remote := remote_summary i hash (fst <$> pin) in
    if match local with
       | Some l => match merge_decision (stored_summary l here) (origin_or (v_origin l) here)
                           remote (rv_origin i) with KeepLocal => true | TakeRemote => false end
       | None => false
       end then Ok None
    else
      '(nonce, ciphertext) ← seal_remote rng i;
      let '(p, order, at_) := remote_pin i pin local in
      Ok (Some {|
        i_id := rv_id i; i_ciphertext := ciphertext; i_nonce := nonce; i_type := rv_type i; i_hash := hash;
        i_created_at := rv_created_at i; i_deleted := rv_deleted i; i_origin := rv_origin i;
        i_app_id := rv_app_id i; i_app_name := rv_app_name i; i_pinned := p; i_pin_order := order;
        i_pin_at := at_;
        i_search_text := if String.eqb (rv_type i) CONTENT_TYPE then organization_text i
                         else if rv_deleted i || is_binary (rv_type i) then None
                         else Some (rv_content i);
        i_metadata := remote_metadata i |}).

(** [apply_remote_version_with_pin_state] and [apply_remote_version]. *)
Definition apply_with_pin_state (rng : string -> bytes * bytes) (here : string) (i : RemoteVersion)
    (pin : option (P2pPin * bool)) (local : option Version) (s : Store) : result MergeError (bool * Store) :=
  o ← prepare_remote_version rng here i pin local;
  match o with
  | None => Ok (false, s)
  | Some p => map_err (fun e => StoreCause (store_code e)) (upsert p s)
  end.
Definition apply_remote_version (rng : string -> bytes * bytes) (here : string) (i : RemoteVersion) (s : Store)
    : result MergeError (bool * Store) :=
  if payload_is_refused i then Ok (false, s)
  else apply_with_pin_state rng here i None (version_summary (rv_id i) s) s.

(** [apply_remote_p2p_version_with_pin_stamp]. *)
Definition remote_pin_wins (here : string) (i : RemoteVersion) (pin : P2pPin) (local : option Version) : bool :=
  negb (rv_deleted i)
  && match local with
     | Some l => pin_state_wins (stored_summary l here) (remote_summary i "" (Some pin))
     | None => true
     end.
Definition apply_remote_p2p_version (rng : string -> bytes * bytes) (here : string) (i : RemoteVersion)
    (pin : P2pPin) (s : Store) : result MergeError (P2pApply * Store) :=
  let local := version_summary (rv_id i) s in
  let wins := remote_pin_wins here i pin local in
  '(content, s) ← (if payload_is_refused i then Ok (false, s)
                   else apply_with_pin_state rng here i (Some (pin, wins)) local s);
  let '(pinned, s) := if negb content && wins
                      then apply_pin_state (rv_id i) (pp_pinned pin) (pp_order pin) (pp_updated_at pin) s
                      else (false, s) in
  Ok ({| ap_content := content; ap_pin := pinned |}, s).

(** [local_winner_stamp]: what must be published again. *)
Definition local_winner_stamp (here : string) (i : RemoteVersion) (s : Store) : option Z :=
  l ← version_summary (rv_id i) s;
  let mine := stored_summary l here in
  let remote := remote_summary i (remote_content_hash i (Some l)) None in
  let same := (created_at mine =? created_at remote) && String.eqb (content_hash mine) (content_hash remote)
              && Bool.eqb (deleted mine) (deleted remote)
              && String.eqb (origin_device_id mine) (origin_device_id remote) in
  if negb same && match merge_decision_by_summary mine remote with KeepLocal => true | _ => false end
  then Some (v_created_at l) else None.

(** ** A page *)

(** [Prepared::as_version]. *)
Definition as_version (here : string) (p : IncomingItem) : Version :=
  {| v_id := i_id p; v_created_at := i_created_at p; v_hash := i_hash p; v_deleted := i_deleted p;
     v_pinned := i_pinned p; v_order := i_pin_order p; v_pin_at := i_pin_at p;
     v_origin := origin_or (i_origin p) here |}.

(** What [prepare] decides for one version of the page. *)
Inductive Slot := Skip | PinOnly | Write (p : IncomingItem).
Fixpoint prepare (rng : string -> bytes * bytes) (here : string) (page : list (RemoteVersion * option P2pPin))
    (local : gmap string Version) : result MergeError (list Slot) :=
  match page with
  | [] => Ok []
  | (i, pin) :: page =>
    if payload_is_refused i then rest ← prepare rng here page local; Ok (Skip :: rest)
    else
      let mine := local !! rv_id i in
      let state := (fun p => (p, remote_pin_wins here i p mine)) <$> pin in
      o ← prepare_remote_version rng here i state mine;
      match o with
      | Some p => rest ← prepare rng here page (<[rv_id i := as_version here p]> local); Ok (Write p :: rest)
      | None =>
        rest ← prepare rng here page local;
        Ok ((match state with Some (_, true) => PinOnly | _ => Skip end) :: rest)
      end
  end.
Definition writes (slots : list Slot) : list IncomingItem :=
  omap (fun x => match x with Write p => Some p | _ => None end) slots.

(** The flags of a page from what [merge_page] answered. *)
Fixpoint applied_flags (p2p : bool) (slots : list Slot) (written : list bool) : list P2pApply :=
  match slots with
  | [] => []
  | Write _ :: slots =>
    match written with
    | b :: written => {| ap_content := b; ap_pin := b && p2p |} :: applied_flags p2p slots written
    | [] => {| ap_content := false; ap_pin := false |} :: applied_flags p2p slots []
    end
  | _ :: slots => {| ap_content := false; ap_pin := false |} :: applied_flags p2p slots written
  end.
Fixpoint pins_only_step (page : list (RemoteVersion * option P2pPin)) (slots : list Slot)
    (flags : list P2pApply) (s : Store) : list P2pApply * Store :=
  match page, slots, flags with
  | (i, pin) :: page, x :: slots, f :: flags =>
    let '(f, s) := match x, pin with
                   | PinOnly, Some p =>
                     if ap_any f then (f, s)
                     else let '(b, s) := apply_pin_state (rv_id i) (pp_pinned p) (pp_order p) (pp_updated_at p) s in
                          ({| ap_content := ap_content f; ap_pin := b |}, s)
                   | _, _ => (f, s)
                   end in
    let '(fs, s) := pins_only_step page slots flags s in
    (f :: fs, s)
  | _, _, _ => (flags, s)
  end.
(** [redo_after_refusals]: [refused] holds the ids whose write was refused
    earlier in the page. *)
Fixpoint redo_after_refusals (rng : string -> bytes * bytes) (here : string)
    (page : list (RemoteVersion * option P2pPin)) (slots : list Slot) (written : list bool)
    (flags : list P2pApply) (refused : gset string) (s : Store) : result MergeError (list P2pApply * Store) :=
  match page, slots, flags with
  | (i, pin) :: page, x :: slots, f :: flags =>
    '(f', s) ← (if ap_any f || negb (bool_decide (rv_id i ∈ refused)) then Ok (f, s)
                else match pin with
                     | Some p => apply_remote_p2p_version rng here i p s
                     | None => '(c, s) ← apply_remote_version rng here i s;
                               Ok ({| ap_content := c; ap_pin := false |}, s)
                     end);
    let '(refused, written) :=
      match x, written with
      | Write _, b :: w => (if b then refused else {[rv_id i]} ∪ refused, w)
      | _, w => (refused, w)
      end in
    '(fs, s) ← redo_after_refusals rng here page slots written flags refused s;
    Ok (f' :: fs, s)
  | _, _, _ => Ok (flags, s)
  end.

(** [apply_page].  Other writers may change the store before the write lock is
    taken: [interference] is what they do before each attempt. *)
Definition SNAPSHOT_ATTEMPTS : nat := 2.
Fixpoint attempts (n : nat) (rng : string -> bytes * bytes) (here : string) (p2p : bool)
    (page : list (RemoteVersion * option P2pPin)) (snapshot : gmap string Version)
    (interference : nat -> Store -> Store) (s : Store) : result MergeError (list P2pApply * Store) :=
  match n with
  | O => Err (StoreCause SyncIssueCode.HistoryBusy)
  | S n =>
    slots ← prepare rng here page snapshot;
    let s := interference n s in
    match merge_page ((fun x => rv_id x.1) <$> page) snapshot (writes slots) s with
    | Ok (written, s) =>
      _ ← refuse_if (negb (length written =? length (writes slots))%nat) MergeStore;
      let '(flags, s) := pins_only_step page slots (applied_flags p2p slots written) s in
      redo_after_refusals rng here page slots written flags ∅ s
    | Err (SnapshotChanged m) => attempts n rng here p2p page m interference s
    | Err (PageStore e) => Err (StoreCause (store_code e))
    end
  end.
Definition apply_page (rng : string -> bytes * bytes) (here : string) (p2p : bool)
    (page : list (RemoteVersion * option P2pPin)) (interference : nat -> Store -> Store) (s : Store)
    : result MergeError (list P2pApply * Store) :=
  match page with
  | [] => Ok ([], s)
  | _ => attempts SNAPSHOT_ATTEMPTS rng here p2p page
           (version_summaries ((fun x => rv_id x.1) <$> page) s) interference s
  end.
End LocalMerge.
