(* ===== verification/LocalMergeSafety.v ===== *)
(** What merging a remote version does to the history: it implements the merge
    order of [Merge.v], never goes back, is idempotent, and a page comes to the
    same as its versions one at a time. *)

From S2P Require Import Prelude Float64 Bytes Text Wire Binary Merge Payload Credentials Workspace Table Items ItemSafety Organization Versions Scan LocalMerge.

(** ** Ids of the two tables *)

Record tables_split (s : Store) : Prop := {
  ts_items k r : items s !! k = Some r -> is_record_id k = false;
  ts_organization k o : organization s !! k = Some o -> is_record_id k = true /\ o_id o = k;
}.
(** What the comparator reads of a version. *)
Definition content_key (v : Version) : Z * string * bool * string :=
  (v_created_at v, v_hash v, v_deleted v, v_origin v).
Definition content_of (k : string) (s : Store) := content_key <$> version_summary k s.

Lemma same_but_pin_content q r : same_but_pin q r -> content_key (row_version q) = content_key (row_version r).
Proof. unfold same_but_pin, set_pin. intros [=]. unfold content_key, row_version. cbn. congruence. Qed.
Lemma same_but_icon_version q r : same_but_icon q r -> row_version q = row_version r.
Proof. unfold same_but_icon, set_icon, set_source. intros [=]. unfold row_version. congruence. Qed.

Section Apply.
Context {PC : PayloadCodecs} {MJ : MetadataJson} {DG : Digest} {OC : OrgCodec} {K : ItemKey}
        {CC : CredentialCodecs} {OJ : OfferJson}.

Lemma record_id_is_record r : is_record_id (record_id r) = true.
Proof. unfold is_record_id, record_id, str_starts_with. rewrite as_bytes_app. apply starts_with_app. Qed.

(** ** One write *)

(** The version a write leaves: the incoming one, restamped by one when a
    choice about secrecy was merged into it. *)
Definition lands (p : IncomingItem) (v : Version) : Prop :=
  v_id v = i_id p /\ v_hash v = i_hash p /\ v_deleted v = i_deleted p /\ v_origin v = i_origin p /\
  (v_created_at v = i_created_at p \/
   i_deleted p = false /\ v_created_at v = i64_saturating_add (i_created_at p) 1).

Lemma org_upsert_version p s s' :
  store_ok s -> tables_split s -> i_type p = CONTENT_TYPE -> upsert_in_tx p s = Ok (Some s') ->
  (exists v, version_summary (i_id p) s' = Some v /\ lands p v) /\
  (forall k, k <> i_id p -> content_of k s' = content_of k s) /\ tables_split s'.
Proof.
  intros Hs [Hi Ho] Ht. unfold upsert_in_tx. rewrite Ht, String.eqb_refl. unfold org_upsert_in_tx.
  destruct (i_search_text p) as [t|]; [|done].
  destruct (valid_wire (i_id p) CONTENT_TYPE t (i_deleted p)) eqn:Hw; cbn [negb]; [|done].
  apply valid_wire_record in Hw as (r & Hr & _ & Hid & Hdel). rewrite Hr.
  destruct (i_ciphertext p) as [c|], (i_nonce p) as [n|]; try done. intros [= <-].
  set (row := {| o_id := i_id p |}). set (s1 := with_organization _ s).
  assert (Hrec : is_record_id (i_id p) = true) by (rewrite <- Hid; apply record_id_is_record).
  assert (Hpins : pins_only s (project r (i_created_at p) s1)).
  { exact (pins_only_project r (i_created_at p) s1 (ok_keyed s (ok_indexed s Hs))). }
  assert (Hnone : items s !! i_id p = None).
  { destruct (items s !! i_id p) eqn:E; [|done]. apply Hi in E. congruence. }
  assert (Horg : organization (project r (i_created_at p) s1) = <[i_id p := row]> (organization s)).
  { by rewrite organization_project. }
  split_and!.
  - exists (organization_version row). split.
    + unfold version_summary. pose proof (Hpins (i_id p)) as Hp. rewrite Hnone in Hp. rewrite Hp, Horg.
      by rewrite lookup_insert_eq.
    + split_and!; try done. by left.
  - intros k Hne. unfold content_of, version_summary. pose proof (Hpins k) as Hp.
    destruct (items s !! k) as [q|].
    + destruct Hp as (q' & -> & Hsb). cbn. f_equal. symmetry. by apply same_but_pin_content.
    + by rewrite Hp, Horg, lookup_insert_ne.
  - split.
    + intros k q Hq. pose proof (Hpins k) as Hp. destruct (items s !! k) as [x|] eqn:E; [by eapply Hi|congruence].
    + intros k o. rewrite Horg, lookup_insert_Some. intros [[<- <-]|[_ Hk]]; [done|by apply Ho].
Qed.
Lemma item_upsert_version p s s' :
  store_ok s -> tables_split s -> i_type p <> CONTENT_TYPE -> upsert_in_tx p s = Ok (Some s') ->
  (exists v, version_summary (i_id p) s' = Some v /\ lands p v) /\
  (forall k, k <> i_id p -> content_of k s' = content_of k s) /\ tables_split s'.
Proof.
  intros Hs [Hi Ho] Ht Hu. destruct (upsert_in_tx_accepted p s s' Ht Hu) as (Hrec & r & s1 & s2 & Ha).
  destruct (accepted_row p s s' r s1 s2 Hs Ha) as ((r' & Hr' & Hsb & _) & Hoth).
  pose proof Ha as [(m & icon & Hn & m' & stamp & k & Hm & _ & _ & Hrow) _ _ Horg _ _ Hfin _ _].
  cbn zeta in Hfin. destruct Hfin as (_ & _ & _ & Hforg).
  assert (Hos : organization s' = organization s).
  { rewrite Hforg, (proj2 (proj2 (proj2 (pin_projection_tables _ _)))).
    by rewrite (proj2 (proj2 (proj2 (write_row_tables _ _)))). }
  split_and!.
  - exists (row_version r'). unfold version_summary. rewrite Hr'. split; [done|].
    pose proof (same_but_pin_content _ _ Hsb) as Hc. unfold content_key in Hc. cbn in Hc.
    assert (Hid : r_id r' = i_id p).
    { unfold same_but_pin, set_pin in Hsb. injection Hsb as Hsb. subst r. cbn in *. congruence. }
    injection Hc as Hc1 Hc2 Hc3 Hc4. subst r. cbn in Hc1, Hc2, Hc3, Hc4.
    split_and!; cbn; try congruence. rewrite <- Hc1.
    destruct (i_deleted p) eqn:Hd; [left; by injection Hm|].
    unfold merge_metadata in Hm. injection Hm as _ <-. case_decide; [by left|by right].
  - intros j Hne. unfold content_of, version_summary. rewrite Hos. pose proof (Hoth j Hne) as Hj.
    destruct (items s !! j) as [q|].
    + destruct Hj as (q' & -> & Hsi). cbn. by rewrite (same_but_icon_version _ _ Hsi).
    + by rewrite Hj.
  - split.
    + intros j q Hq. destruct (decide (j = i_id p)) as [->|Hne]; [done|]. pose proof (Hoth j Hne) as Hj.
      destruct (items s !! j) eqn:E; [by eapply Hi|congruence].
    + intros j o. rewrite Hos. apply Ho.
Qed.
Lemma upsert_version p s s' :
  store_ok s -> tables_split s -> upsert_in_tx p s = Ok (Some s') ->
  (exists v, version_summary (i_id p) s' = Some v /\ lands p v) /\
  (forall k, k <> i_id p -> content_of k s' = content_of k s) /\ tables_split s'.
Proof.
  intros Hs Ht Hu. destruct (decide (i_type p = CONTENT_TYPE)) as [He|Hne];
    [by apply org_upsert_version|by apply item_upsert_version].
Qed.

(** ** The decision *)

Definition decided (here : string) (i : RemoteVersion) (hash : string) (local : option Version) : Prop :=
  forall l, local = Some l ->
    merge_key_cmp (version_key (stored_summary l here)) (version_key (remote_summary i hash None)) = Lt.
Lemma remote_summary_key i hash pin pin' :
  version_key (remote_summary i hash pin) = version_key (remote_summary i hash pin').
Proof. done. Qed.

Lemma prepare_some rng here i pin local p :
  prepare_remote_version rng here i pin local = Ok (Some p) ->
  i_id p = rv_id i /\ i_type p = rv_type i /\ i_hash p = remote_content_hash i local /\
  i_created_at p = rv_created_at i /\ i_deleted p = rv_deleted i /\ i_origin p = rv_origin i /\ wiped p /\
  decided here i (remote_content_hash i local) local /\
  (rv_deleted i = false -> len (rv_bytes i) <= MAX_CONTENT_BYTES).
Proof.
  unfold prepare_remote_version. destruct (match organization_text i with Some _ => _ | None => _ end);
    cbn [negb]; [|done]. intros (Hlen%refuse_if_ok & H)%bind_unit_ok. cbn zeta in H.
  destruct (match local with Some l => _ | None => false end) eqn:Em; [done|].
  apply bind_ok in H as ([nonce c] & Hseal & H).
  destruct (remote_pin i pin local) as [[q o] at_]. apply ok_inj in H. injection H as <-. cbn.
  split_and!; try done.
  - unfold wiped. cbn. intros Hd. unfold seal_remote in Hseal. rewrite Hd in Hseal. by injection Hseal as <- <-.
  - intros l ->. destruct (merge_decision _ _ _ _) eqn:Ed; [done|].
    apply merge_decision_take in Ed. exact Ed.
  - intros Hd. rewrite Hd in Hlen. cbn in Hlen. rewrite Z.gtb_ltb in Hlen. by apply Z.ltb_ge in Hlen.
Qed.
(** The losing version prepares nothing. *)
Lemma prepare_none rng here i pin l :
  merge_key_cmp (version_key (stored_summary l here))
    (version_key (remote_summary i (remote_content_hash i (Some l)) None)) <> Lt ->
  (rv_deleted i = false -> len (rv_bytes i) <= MAX_CONTENT_BYTES) ->
  prepare_remote_version rng here i pin (Some l) = Ok None.
Proof.
  intros Hk Hlen. unfold prepare_remote_version.
  destruct (match organization_text i with Some _ => _ | None => _ end); cbn [negb]; [|done].
  rewrite refuse_if_false.
  - cbn [mbind result_bind]. cbn zeta.
    destruct (merge_decision _ _ _ _) eqn:Ed; [done|]. apply merge_decision_take in Ed. by destruct Hk.
  - destruct (rv_deleted i); cbn; [done|]. rewrite Z.gtb_ltb. apply Z.ltb_ge. by apply Hlen.
Qed.

(** ** One version *)

(** What is stored of an incoming version. *)
Definition landed (i : RemoteVersion) (hash : string) (v : Version) : Prop :=
  v_hash v = hash /\ v_deleted v = rv_deleted i /\ v_origin v = rv_origin i /\
  (v_created_at v = rv_created_at i \/
   rv_deleted i = false /\ v_created_at v = i64_saturating_add (rv_created_at i) 1).

Lemma apply_with_pin_state_spec rng here i pin s b s' :
  store_ok s -> tables_split s ->
  apply_with_pin_state rng here i pin (version_summary (rv_id i) s) s = Ok (b, s') ->
  store_ok s' /\ tables_split s' /\
  if b then
    let hash := remote_content_hash i (version_summary (rv_id i) s) in
    (exists v, version_summary (rv_id i) s' = Some v /\ landed i hash v) /\
    decided here i hash (version_summary (rv_id i) s) /\
    (forall k, k <> rv_id i -> content_of k s' = content_of k s) /\
    (rv_deleted i = false -> len (rv_bytes i) <= MAX_CONTENT_BYTES)
  else s' = s.
Proof.
  intros Hs Ht. unfold apply_with_pin_state.
  intros ([p|] & Hp & Hu)%bind_ok; [|by injection Hu as <- <-].
  apply map_err_ok in Hu. destruct (prepare_some _ _ _ _ _ _ Hp) as (Hid & _ & Hh & Hc & Hd & Ho & Hw & Hdec & Hlen).
  pose proof (upsert_ok _ _ _ _ Hs Hw Hu) as Hs'. revert Hu. unfold upsert.
  intros (o & Ho' & H)%bind_ok. destruct o as [s1|]; apply ok_inj in H; injection H as <- <-; [|by split_and!].
  destruct (upsert_version p s s1 Hs Ht Ho') as ((v & Hv & Hl) & Hoth & Ht'). rewrite Hid in *.
  split_and!; try done. exists v. split; [done|].
  destruct Hl as (_ & H1 & H2 & H3 & H4). unfold landed. rewrite H1, H2, H3, Hh, Hd, Ho.
  split_and!; try done. by rewrite Hc, Hd in H4.
Qed.
Lemma apply_remote_version_spec rng here i s b s' :
  store_ok s -> tables_split s -> apply_remote_version rng here i s = Ok (b, s') ->
  store_ok s' /\ tables_split s' /\
  if b then
    let hash := remote_content_hash i (version_summary (rv_id i) s) in
    (exists v, version_summary (rv_id i) s' = Some v /\ landed i hash v) /\
    decided here i hash (version_summary (rv_id i) s) /\
    (forall k, k <> rv_id i -> content_of k s' = content_of k s) /\
    (rv_deleted i = false -> len (rv_bytes i) <= MAX_CONTENT_BYTES)
  else s' = s.
Proof.
  intros Hs Ht. unfold apply_remote_version. destruct (payload_is_refused i); [by intros [= <- <-]|].
  by apply apply_with_pin_state_spec.
Qed.

(** ** Why a version is not taken *)

(** Another live row holds what the deduplication index compares of it: the hash
    of its content, its type, its origin and the minute of its stamp, restamped
    by one at most. *)
Definition content_elsewhere (i : RemoteVersion) (s : Store) : Prop :=
  rv_deleted i = false /\ like_import (rv_id i) = false /\
  exists k q stamp, items s !! k = Some q /\ k <> rv_id i /\ r_deleted q = false /\
    r_hash q = plaintext_content_hash (rv_bytes i) /\ r_type q = rv_type i /\ r_origin q = rv_origin i /\
    Z.quot (r_created_at q) DEDUP_WINDOW_MS = Z.quot stamp DEDUP_WINDOW_MS /\
    (stamp = rv_created_at i \/ stamp = i64_saturating_add (rv_created_at i) 1).

(** A write is refused for its record id, or because of such a row. *)
Lemma upsert_refused p s :
  store_ok s -> i_type p <> CONTENT_TYPE -> upsert_in_tx p s = Ok None ->
  is_record_id (i_id p) = true \/
  i_deleted p = false /\ like_import (i_id p) = false /\
  exists k q stamp, items s !! k = Some q /\ k <> i_id p /\ r_deleted q = false /\
    r_hash q = i_hash p /\ r_type q = i_type p /\ r_origin q = i_origin p /\
    Z.quot (r_created_at q) DEDUP_WINDOW_MS = Z.quot stamp DEDUP_WINDOW_MS /\
    (stamp = i_created_at p \/ stamp = i64_saturating_add (i_created_at p) 1).
Proof.
  intros Hs Hct. unfold upsert_in_tx. rewrite (proj2 (String.eqb_neq _ _) Hct).
  destruct (is_record_id (i_id p)); [by left|]. intros H. right. revert H. cbn zeta.
  set (s0 := delete_fts_row_in_tx (i_id p) s).
  assert (Hi0 : items s0 = items s) by apply delete_fts_frame.
  destruct (if i_deleted p then _ else _) as [[[m icon] s1]|e] eqn:En; [|done]. cbn [mbind result_bind].
  destruct (if i_deleted p then (m, i_created_at p) else _) as [m' stamp] eqn:Em.
  set (s1' := if secret (privacy_of m') then _ else _).
  assert (Hi1 : items s1' = items s1) by (subst s1'; by destruct (secret _)).
  destruct (match i_search_text p with Some t => _ | None => _ end) as [k s2] eqn:Ek.
  assert (Hi2 : items s2 = items s1).
  { rewrite <- Hi1. destruct (i_search_text p) as [t|]; [|by injection Ek as _ <-].
    destruct (negb _ && _ && _); [|by injection Ek as _ <-].
    pose proof (insert_fts_frame (i_id p) t (i_type p) s1') as [Hf _]. by rewrite Ek in Hf. }
  destruct (upsert_row _ s2) as [s3|] eqn:Eu; [destruct (i_ciphertext p); [by intros (? & _ & [=])%bind_ok|done]|]. intros _.
  unfold upsert_row in Eu. destruct (dedup_clash _ s2) eqn:Ec; [clear Eu|done].
  apply dedup_clash_true in Ec as (q & j & key & Hq & Hne & Hkr & Hkq).
  unfold dedup_key in Hkr, Hkq. cbn [incoming_row r_deleted r_hash r_id r_type r_created_at r_origin] in Hkr, Hne.
  destruct (i_deleted p); [done|]. destruct (String.eqb (i_hash p) ""); [done|].
  destruct (like_import (i_id p)); [done|]. injection Hkr as <-.
  destruct (r_deleted q) eqn:Edq; [done|]. destruct (String.eqb (r_hash q) ""); [done|].
  destruct (like_import (r_id q)); [done|]. injection Hkq as E1 E2 E3 E4.
  assert (Hback : exists q0, items s !! j = Some q0 /\ same_but_icon q0 q).
  { pose proof (normalise_rows _ _ _ _ _ _ _ _ j En) as Hn. rewrite Hi0, <- Hi2, Hq in Hn.
    destruct (items s !! j) as [q0|]; [|done]. destruct Hn as (q' & [= <-] & Hsb). by exists q0. }
  destruct Hback as (q0 & Hq0 & Hsb). pose proof (same_but_icon_kept _ _ Hsb) as (Hk & Hc & _).
  injection Hk as K1 _ _ K2 K3 _ _ _ K4 K5 _. split_and!; [done|done|].
  exists j, q0, stamp. destruct Hs as [[Hkeyed _ _ _ _] _]. pose proof (Hkeyed _ _ Hq0).
  split_and!; try congruence.
  unfold merge_metadata in Em. injection Em as _ <-. case_decide; [by left|by right].
Qed.

(** Its shape is never stored; its record is not valid; the copy that is here
    survives it; or its content is here already, under another id. *)
Definition declined (here : string) (i : RemoteVersion) (s : Store) : Prop :=
  payload_is_refused i = true \/
  (forall t, organization_text i = Some t -> valid_wire (rv_id i) (rv_type i) t (rv_deleted i) = false) \/
  (exists l, version_summary (rv_id i) s = Some l /\
     let remote := remote_summary i (remote_content_hash i (Some l)) None in
     survivor (stored_summary l here) remote = stored_summary l here) \/
  content_elsewhere i s.
Lemma prepare_declines rng here i local :
  prepare_remote_version rng here i None local = Ok None ->
  (forall t, organization_text i = Some t -> valid_wire (rv_id i) (rv_type i) t (rv_deleted i) = false) \/
  exists l, local = Some l /\
    let remote := remote_summary i (remote_content_hash i (Some l)) None in
    survivor (stored_summary l here) remote = stored_summary l here.
Proof.
  unfold prepare_remote_version. destruct (organization_text i) as [t|]; cbn [negb]; [|by left].
  destruct (valid_wire (rv_id i) (rv_type i) t (rv_deleted i)) eqn:Hw; cbn [negb]; [|left; by intros ? [= <-]].
  intros (_ & H)%bind_unit_ok. right. cbn zeta in H. destruct local as [l|].
  - exists l. split; [done|]. unfold survivor, merge_decision_by_summary. cbn [fmap option_fmap option_map] in H.
    cbn zeta.
    destruct (merge_decision _ _ _ _) eqn:Ed in H; [|by apply bind_ok in H as ([n c] & _ & H);
      destruct (remote_pin i None (Some l)) as [[? ?] ?]].
    change (origin_device_id (stored_summary l here)) with (origin_or (v_origin l) here).
    by change (origin_device_id (remote_summary i (remote_content_hash i (Some l)) None)) with (rv_origin i);
      rewrite Ed.
  - by apply bind_ok in H as ([n c] & _ & H); destruct (remote_pin i None None) as [[? ?] ?].
Qed.
(** What was prepared is valid, so only the index refuses it. *)
Lemma prepared_refused rng here i pin local p s :
  store_ok s -> prepare_remote_version rng here i pin local = Ok (Some p) -> upsert_in_tx p s = Ok None ->
  content_elsewhere i s.
Proof.
  intros Hs Hp Hu. destruct (prepare_some _ _ _ _ _ _ Hp) as (Hid & Hty & Hh & Hc & Hd & Ho & _).
  unfold prepare_remote_version in Hp. destruct (organization_text i) as [t|] eqn:Et; cbn [negb] in Hp; [|done].
  destruct (valid_wire (rv_id i) (rv_type i) t (rv_deleted i)) eqn:Ew; cbn [negb] in Hp; [|done].
  destruct (decide (rv_type i = CONTENT_TYPE)) as [Hct|Hct].
  - exfalso. apply bind_unit_ok in Hp as [_ Hp]. cbn zeta in Hp.
    destruct (match local with Some l => _ | None => false end); [done|].
    apply bind_ok in Hp as ([n c] & _ & Hp). destruct (remote_pin i pin local) as [[q o] at_].
    apply ok_inj in Hp. injection Hp as <-. unfold upsert_in_tx in Hu. cbn [i_type i_id i_search_text i_deleted] in Hu.
    rewrite Hct, String.eqb_refl in Hu. unfold org_upsert_in_tx in Hu. rewrite <- Hct, Ew in Hu. cbn [negb] in Hu.
    destruct (serde_record t); [|done]. by repeat case_match.
  - destruct (upsert_refused p s Hs) as [Hr|(Hdel & Himp & k & q & stamp & Hq)]; [congruence|done| |].
    + exfalso. unfold valid_wire in Ew. rewrite (proj2 (String.eqb_neq _ _) Hct) in Ew. cbn [negb] in Ew.
      rewrite Hid in Hr. by rewrite Hr in Ew.
    + split; [congruence|]. split; [congruence|]. exists k, q, stamp. rewrite Hid, Hh, Hty, Ho, Hc in Hq.
      unfold remote_content_hash in Hq. rewrite Hd in Hdel. by rewrite Hdel in Hq.
Qed.
Lemma apply_remote_version_declined rng here i s s' :
  store_ok s -> apply_remote_version rng here i s = Ok (false, s') -> declined here i s.
Proof.
  intros Hs. unfold apply_remote_version. destruct (payload_is_refused i) eqn:Er; [by left|]. unfold apply_with_pin_state.
  intros ([p|] & Hp & Hu)%bind_ok.
  - do 3 right. apply map_err_ok in Hu. revert Hu. unfold upsert.
    intros ([s1|] & Ho & H)%bind_ok; [by injection H|]. by eapply prepared_refused.
  - right. apply prepare_declines in Hp as [?|?]; [by left|right; by left].
Qed.
End Apply.

(** ** Deletions *)

Lemma soft_delete_row {PC : PayloadCodecs} {MJ : MetadataJson} id now s s1 r b :
  store_ok s -> items s !! id = Some r -> soft_delete id now s = (b, s1) ->
  items s1 !! id = Some (if r_deleted r then r else to_tombstone now r).
Proof.
  intros [[Hk _ _ _ _] _] Hr. unfold soft_delete. rewrite (proj1 (delete_fts_frame id s)), Hr.
  destruct (r_deleted r); intros [= _ <-]; [by rewrite (proj1 (delete_fts_frame id s))|].
  rewrite items_write_row, (proj1 (delete_fts_frame id s)). cbn. rewrite (Hk _ _ Hr). apply lookup_insert_eq.
Qed.
Lemma soft_delete_split {PC : PayloadCodecs} {MJ : MetadataJson} id now s s1 b :
  store_ok s -> tables_split s -> soft_delete id now s = (b, s1) -> tables_split s1.
Proof.
  intros [[Hk _ _ _ _] _] [Hi Ho]. unfold soft_delete. rewrite (proj1 (delete_fts_frame id s)).
  assert (Hd : organization (delete_fts_row_in_tx id s) = organization s).
  { unfold delete_fts_row_in_tx. by destruct (r ← items s !! id; r_fts r). }
  assert (Hsame : tables_split (delete_fts_row_in_tx id s)).
  { split; [rewrite (proj1 (delete_fts_frame id s)); exact Hi|rewrite Hd; exact Ho]. }
  destruct (items s !! id) as [r|] eqn:Hr; [|by intros [= _ <-]].
  destruct (r_deleted r); intros [= _ <-]; [done|].
  split.
  - intros k q. rewrite items_write_row, (proj1 (delete_fts_frame id s)). cbn. rewrite (Hk _ _ Hr), lookup_insert_Some.
    intros [[<- _]|[_ Hq]]; [by eapply Hi|by eapply Hi].
  - rewrite (proj2 (proj2 (proj2 (write_row_tables _ _)))), Hd. exact Ho.
Qed.

(** ** Properties *)

Section Properties.
Context {PC : PayloadCodecs} {MJ : MetadataJson} {DG : Digest} {OC : OrgCodec} {K : ItemKey}
        {CC : CredentialCodecs} {OJ : OfferJson}.


(** Receiving a version again changes nothing: a session that is replayed or
    a page that is fetched twice is harmless. *)
Theorem replay_changes_nothing rng here i s s1 :
  store_ok s -> tables_split s -> rv_created_at i <= i64_max ->
  apply_remote_version rng here i s = Ok (true, s1) ->
  apply_remote_version rng here i s1 = Ok (false, s1).
Proof.
  intros Hs Ht Hmax Ha. pose proof (apply_remote_version_spec _ _ _ _ _ _ Hs Ht Ha) as (_ & _ & Hv & _ & _ & Hlen).
  destruct Hv as (v & Hv & Hh & Hd & Ho & Hc). revert Ha. unfold apply_remote_version.
  destruct (payload_is_refused i); [done|]. intros _. unfold apply_with_pin_state. rewrite Hv.
  rewrite prepare_none; [done| |done].
  assert (Hhash : remote_content_hash i (Some v) = v_hash v).
  { unfold remote_content_hash in Hh |- *. destruct (rv_deleted i); [destruct (rv_hash i)|]; congruence. }
  unfold version_key, merge_key, stored_summary, remote_summary, merge_key_cmp, pair_cmp. cbn.
  rewrite Hhash, Hd, Ho, (cmp_refl str_cmp), (cmp_refl bool_cmp).
  assert (Hz : v_created_at v = rv_created_at i \/ rv_created_at i < v_created_at v \/ v_created_at v = rv_created_at i).
  { destruct Hc as [Hc|[_ Hc]]; [by left|]. rewrite Hc. unfold i64_saturating_add, i64_min. lia. }
  assert (Horigin : str_cmp (origin_or (rv_origin i) here) (rv_origin i) <> Lt).
  { unfold origin_or. destruct (String.eqb_spec (rv_origin i) "") as [->|_]; [|by rewrite (cmp_refl str_cmp)].
    by destruct here. }
  destruct Hz as [-> | [Hlt | ->]]; [by rewrite Z.compare_refl| |by rewrite Z.compare_refl].
  by rewrite (proj2 (Z.compare_gt_iff _ _) Hlt).
Qed.

(** Versions received one after the other. *)
Fixpoint apply_each (rng : string -> bytes * bytes) (here : string) (l : list RemoteVersion) (s : Store)
    : result MergeError (list bool * Store) :=
  match l with
  | [] => Ok ([], s)
  | i :: l => '(b, s) ← apply_remote_version rng here i s;
              '(bs, s) ← apply_each rng here l s; Ok (b :: bs, s)
  end.

(** A deletion is final until it is outvoted: after an item was deleted
    here, no sequence of versions from other devices that are no newer than the
    deleted one, arriving in any number and order among versions of other items,
    brings it back. *)
Theorem deletion_outlasts_older_versions rng here id now s s1 r l bs s' :
  store_ok s -> tables_split s -> items s !! id = Some r -> r_deleted r = false -> r_created_at r < i64_max ->
  soft_delete id now s = (true, s1) ->
  Forall (fun i => rv_id i = id -> rv_created_at i <= r_created_at r) l ->
  apply_each rng here l s1 = Ok (bs, s') ->
  exists t, items s' !! id = Some t /\ r_deleted t = true /\ r_created_at r < r_created_at t.
Proof.
  intros Hs Ht Hr Hlive Hmax Hdel Hold Hall.
  pose proof (soft_delete_ok _ _ _ _ _ Hs Hdel) as Hs1. pose proof (soft_delete_split _ _ _ _ _ Hs Ht Hdel) as Ht1.
  assert (Hrec : is_record_id id = false) by exact (ts_items s Ht id r Hr).
  assert (Hkey : content_of id s1 = Some (content_key (row_version (to_tombstone now r)))).
  { pose proof (soft_delete_row _ _ _ _ _ _ Hs Hr Hdel) as Hrow.
    rewrite Hlive in Hrow. unfold content_of, version_summary. by rewrite Hrow. }
  assert (Hnew : r_created_at r < r_created_at (to_tombstone now r)).
  { cbn. unfold tombstone_stamp. destruct (Z.eqb_spec (r_created_at r) i64_max); lia. }
  assert (Hgoal : content_of id s' = content_of id s1 /\ tables_split s').
  { clear Hs Ht Hr Hdel. revert s1 bs Hs1 Ht1 Hkey Hall.
    induction Hold as [|i l Hi Hl IH]; intros s1 bs Hs1 Ht1 Hkey; cbn [apply_each].
    - by intros [= _ <-].
    - intros ([b s2] & Ha & ([bs' s3] & Hrest & [= _ <-])%bind_ok)%bind_ok.
      destruct (apply_remote_version_spec _ _ _ _ _ _ Hs1 Ht1 Ha) as (Hs2 & Ht2 & Hb).
      assert (Hsame : content_of id s2 = content_of id s1).
      { destruct b; [|by subst]. destruct Hb as (_ & Hdec & Hoth & _).
        destruct (decide (rv_id i = id)) as [He|Hne]; [|by apply Hoth; congruence]. exfalso.
        rewrite He in Hdec. unfold content_of in Hkey.
        destruct (version_summary id s1) as [v|] eqn:Ev; [|done].
        assert (Hc : v_created_at v = r_created_at (to_tombstone now r)).
        { exact (f_equal (fun o => match o with Some x => x.1.1.1 | None => 0 end) Hkey). }
        specialize (Hdec v eq_refl). specialize (Hi He).
        unfold version_key, merge_key, stored_summary, remote_summary, merge_key_cmp, pair_cmp in Hdec.
        cbn in Hdec.
        assert (Hgt : (v_created_at v ?= rv_created_at i) = Gt).
        { apply Z.compare_gt_iff. rewrite Hc. lia. }
        by rewrite Hgt in Hdec. }
      destruct (IH s2 bs' Hs2 Ht2 ltac:(by rewrite Hsame) Hrest) as [H1 H2]. split; [congruence|done]. }
  destruct Hgoal as [Hgoal Ht']. rewrite Hkey in Hgoal. unfold content_of, version_summary in Hgoal.
  destruct (items s' !! id) as [t|] eqn:E.
  - cbn in Hgoal. unfold content_key in Hgoal. cbn in Hgoal. injection Hgoal as H1 H2 H3 H4.
    exists t. split_and!; [done|done|]. rewrite H1. exact Hnew.
  - destruct (organization s' !! id) as [o|] eqn:Eo; [|done].
    destruct (ts_organization _ Ht' _ _ Eo) as [Hbad _]. congruence.
Qed.
End Properties.

(** ** Witnesses *)

Module MergeDemo.
#[export] Existing Instances HistoryDemo.codecs HistoryDemo.json HistoryDemo.laws HistoryDemo.digest
  OrgDemo.codec BinaryDemo.key no_codecs.
#[export] Instance offers : OfferJson := {| serde_file_transfer := fun _ => None |}.
Definition rng (_ : string) : bytes * bytes := (BinaryDemo.nonce, BinaryDemo.stream_nonce).
(** A peer's version of the note [id]. *)
Definition version (id text : string) (at_ : Z) : RemoteVersion :=
  {| rv_id := id; rv_content := text; rv_binary := None; rv_metadata := None; rv_type := TEXT;
     rv_created_at := at_; rv_deleted := false; rv_hash := None; rv_origin := "peer";
     rv_app_id := None; rv_app_name := None |}.
Definition split_check (s : Store) : bool :=
  forallb (fun p => negb (is_record_id p.1)) (map_to_list (items s))
  && forallb (fun p => is_record_id p.1 && String.eqb (o_id p.2) p.1) (map_to_list (organization s)).
Lemma split_check_spec s : split_check s = true -> tables_split s.
Proof.
  unfold split_check. intros [H1 H2]%andb_prop. rewrite forallb_forall in H1. rewrite forallb_forall in H2. split.
  - intros k r Hr. apply elem_of_map_to_list, list_elem_of_In, H1 in Hr. by apply negb_true_iff.
  - intros k o Ho. apply elem_of_map_to_list, list_elem_of_In, H2 in Ho.
    apply andb_prop in Ho as [? ?%String.eqb_eq]. done.
Qed.
Lemma three_split : tables_split HistoryDemo.three.
Proof. apply split_check_spec. vm_compute. reflexivity. Qed.
Definition newer := apply_remote_version rng "here" (version "a" "alpha, edited" 5000) HistoryDemo.three.
Definition older : list RemoteVersion := [version "a" "alpha" 1000; version "d" "delta" 9000; version "a" "old" 1].
Definition left_ : Store := (soft_delete "a" 7000 HistoryDemo.three).2.
Definition after := apply_each rng "here" older left_.
Definition alpha : Row := default (OrgDemo.row) (items HistoryDemo.three !! "a"%string).
End MergeDemo.
#[local] Existing Instances HistoryDemo.codecs HistoryDemo.json HistoryDemo.laws HistoryDemo.digest
  OrgDemo.codec BinaryDemo.key no_codecs MergeDemo.offers.

Lemma replay_changes_nothing_witness :
  exists s', MergeDemo.newer = Ok (true, s') /\
    apply_remote_version MergeDemo.rng "here" (MergeDemo.version "a" "alpha, edited" 5000) s' = Ok (false, s').
Proof.
  destruct MergeDemo.newer as [[b s']|] eqn:E; [|vm_compute in E; discriminate E].
  destruct b; [|vm_compute in E; discriminate E]. exists s'. split; [done|].
  apply (replay_changes_nothing MergeDemo.rng "here" _ HistoryDemo.three s'
           HistoryDemo.three_ok MergeDemo.three_split); [vm_compute; discriminate|exact E].
Defined.
Lemma deletion_outlasts_older_versions_witness :
  exists s' t, items s' !! "a"%string = Some t /\ r_deleted t = true.
Proof.
  destruct MergeDemo.after as [[bs s']|] eqn:E; [|vm_compute in E; discriminate E].
  destruct (deletion_outlasts_older_versions MergeDemo.rng "here" "a" 7000 HistoryDemo.three MergeDemo.left_
              MergeDemo.alpha MergeDemo.older bs s' HistoryDemo.three_ok MergeDemo.three_split)
    as (t & Ht & Hdel & _); [vm_compute; reflexivity..| |exact E|exists s', t; exact (conj Ht Hdel)].
  repeat constructor; vm_compute; congruence.
Defined.
