(* ===== verification/History.v ===== *)
(** The history as a whole: its transactions as the steps of a transition system,
    and what holds in every history they can reach. *)

From S2P Require Import Prelude Float64 Bytes Text Wire Binary Merge Payload Credentials Workspace Table Items ItemSafety Retention Organization Versions Scan Pinning LocalMerge LocalMergeSafety.
From stdpp Require Import relations.
Local Open Scope Z_scope.

(** ** What a write adds

    A write of the history proper leaves the organization records alone, and the
    rows it adds do not pass for one. *)
Record tame (s s' : Store) : Prop := {
  tm_organization : organization s' = organization s;
  tm_items k : is_Some (items s' !! k) -> is_Some (items s !! k) \/ is_record_id k = false;
}.
#[export] Instance tame_preorder : PreOrder tame.
Proof.
  split.
  - intros s. split; [done|by left].
  - intros s1 s2 s3 [O1 I1] [O2 I2]. split; [congruence|]. intros k [Hk|Hk]%I2; [by apply I1|by right].
Qed.
Lemma tame_split s s' : tame s s' -> tables_split s -> tables_split s'.
Proof.
  intros [Ho Hi] [Hsi Hso]. split.
  - intros k r Hr. destruct (Hi k) as [[q Hq]|Hk]; [by eexists|by eapply Hsi|done].
  - intros k o. rewrite Ho. apply Hso.
Qed.
Lemma tame_same s s' : items s' = items s -> organization s' = organization s -> tame s s'.
Proof. intros Hi Ho. split; [done|]. rewrite Hi. by left. Qed.
Lemma tame_write r s : is_record_id (r_id r) = false -> tame s (write_row r s).
Proof.
  intros Hr. split; [apply write_row_tables|]. intros k. rewrite items_write_row.
  destruct (decide (k = r_id r)) as [->|Hne]; [by right|]. rewrite lookup_insert_ne by done. by left.
Qed.
Lemma tame_upsert r s s' : upsert_row r s = Some s' -> is_record_id (r_id r) = false -> tame s s'.
Proof. intros [_ ->]%upsert_row_some Hr. by apply tame_write. Qed.
Lemma tame_drop id s : tame s (drop_row id s).
Proof.
  split.
  - unfold drop_row. destruct (items s !! id); [|done]. unfold after_change.
    match goal with |- context [release_unused ?o ?t] => pose proof (release_unused_tables o t) as (_ & _ & _ & H) end.
    case_match; [exact H|exact H].
  - intros k. rewrite items_drop_row. destruct (decide (k = id)) as [->|Hne].
    + rewrite lookup_delete_eq. by intros [? ?].
    + rewrite lookup_delete_ne by done. by left.
Qed.
Lemma tame_delete_fts id s : tame s (delete_fts_row_in_tx id s).
Proof. unfold delete_fts_row_in_tx. case_match; by apply tame_same. Qed.
Lemma tame_insert_fts id t ct s : tame s (insert_fts_in_tx id t ct s).2.
Proof. unfold insert_fts_in_tx. case_match; by apply tame_same. Qed.
Lemma tame_release o s : tame s (release_unused o s).
Proof. apply tame_same; [apply release_unused_frame|apply release_unused_tables]. Qed.

Section Tame.
Context {PC : PayloadCodecs} {MJ : MetadataJson} {DG : Digest}.

(** ** Captures *)

Lemma tame_normalise app ct at_ m s m' i s' : normalise app ct at_ m s = Ok (m', i, s') -> tame s s'.
Proof.
  intros H. split; [by eapply normalise_organization|]. intros k Hk. left.
  pose proof (normalise_rows _ _ _ _ _ _ _ _ k H) as Hr. destruct (items s !! k); [by eexists|].
  rewrite Hr in Hk. by destruct Hk as [? ?].
Qed.
Lemma tame_bump existing at_ a n i s r s' :
  is_record_id (r_id existing) = false -> bump_in_tx existing at_ a n i s = (r, s') ->
  r_id r = r_id existing /\ tame s s'.
Proof.
  intros Hid. unfold bump_in_tx. case_match; [by intros [= <- <-]|].
  destruct (upsert_row _ s) as [s1|] eqn:E; intros [= <- <-]; [|done].
  split; [done|]. eapply tame_upsert; [exact E|done].
Qed.
Lemma tame_reindex item c t s : is_record_id (r_id item) = false ->
  r_id (reindex item c t s).1 = r_id item /\ tame s (reindex item c t s).2.
Proof.
  intros Hid. unfold reindex. case_match; cbn.
  - split; [done|]. transitivity (delete_fts_row_in_tx (r_id item) s); [apply tame_delete_fts|].
    transitivity (write_row (set_fts None item) (delete_fts_row_in_tx (r_id item) s)); [by apply tame_write|].
    by apply tame_same.
  - destruct t as [t|]; [|done].
    destruct (insert_fts_in_tx _ _ _ _) as [k s1] eqn:E. cbn. split; [done|].
    transitivity (delete_fts_row_in_tx (r_id item) s); [apply tame_delete_fts|].
    transitivity s1; [|by apply tame_write].
    change s1 with (k, s1).2. rewrite <- E. apply tame_insert_fts.
Qed.
Lemma tame_refresh item p creds text s r s' :
  is_record_id (r_id item) = false -> refresh_privacy item p creds text s = Ok (r, s') -> tame s s'.
Proof.
  intros Hid. unfold refresh_privacy. case_match; [by intros [= _ <-]|].
  destruct (upsert_row _ s) as [s1|] eqn:E; [|done]. intros Heq%ok_inj.
  match type of Heq with reindex ?i ?c ?t ?x = _ => pose proof (tame_reindex i c t x Hid) as [_ Ht] end.
  rewrite Heq in Ht. transitivity s1; [eapply tame_upsert; [exact E|done]|done].
Qed.
Lemma tame_fold existing item icon p creds text s i c s' :
  is_record_id (r_id existing) = false ->
  fold_into existing item icon p creds text s = Ok (i, c, s') \/
  fold_after_race existing item icon p creds text s = Ok (i, c, s') -> tame s s'.
Proof.
  intros Hid. unfold fold_into, fold_after_race. destruct (bump_in_tx _ _ _ _ _ s) as [b s1] eqn:Eb.
  destruct (tame_bump _ _ _ _ _ _ _ _ Hid Eb) as [Hb H1]. rewrite <- Hb in Hid.
  intros [H|H]; apply bind_ok in H as ([r s2] & Hr & [= _ _ <-]).
  - transitivity s1; [done|]. transitivity s2; [by eapply tame_refresh|apply tame_release].
  - transitivity s1; [done|]. transitivity (release_unused icon s1); [apply tame_release|by eapply tame_refresh].
Qed.
Lemma tame_capture {E} (of_store : StoreError -> E) item text seal s i c s' :
  store_ok s -> tables_split s -> is_record_id (n_id item) = false ->
  insert_or_bump_late_sealed of_store item text seal s = Ok (i, c, s') -> tame s s'.
Proof.
  intros Hs Ht Hid. unfold insert_or_bump_late_sealed.
  intros ([[m icon] s1] & Hn%map_err_ok & H)%bind_ok.
  pose proof (tame_normalise _ _ _ _ _ _ _ _ Hn) as Hn1. pose proof (normalise_ok _ _ _ _ _ _ _ _ Hs Hn) as Hs1.
  transitivity s1; [done|]. pose proof (tame_split _ _ Hn1 Ht) as Ht1. revert H.
  destruct (newest_live_with_representation _ _ _ s1) as [q|] eqn:Eq.
  - intros H%map_err_ok. eapply tame_fold; [|by left].
    destruct (representation_found _ _ _ _ Hs1 Eq) as [Hq _]. by eapply (ts_items s1).
  - unfold insert_new. intros ([nonce ct] & _ & H)%bind_ok. revert H.
    destruct (match _ with Some t => insert_fts_in_tx _ t _ s1 | None => (None, s1) end) as [k s2] eqn:Ek.
    assert (Hk : tame s1 s2 /\ items s2 = items s1).
    { revert Ek. case_match; [|by intros [= _ <-]]. intros Ek.
      change s2 with (k, s2).2. rewrite <- Ek. split; [apply tame_insert_fts|apply insert_fts_frame]. }
    destruct Hk as [Hk Hi]. transitivity s2; [done|]. revert H. destruct (insert_row _ s2) as [s3|] eqn:Ei.
    + intros [= _ _ <-]. apply insert_row_some in Ei as (_ & Hc & ->). apply tame_write. exact Hid.
    + set (s3 := match k with Some _ => _ | None => _ end).
      assert (H3 : tame s2 s3 /\ items s3 = items s2) by (subst s3; destruct k; split; done || by apply tame_same).
      destruct H3 as [H3 Hi3]. unfold find_in_bucket. destruct (String.eqb _ ""); [done|].
      destruct (newest _) as [q|] eqn:En; [|done]. intros H%map_err_ok.
      transitivity s3; [done|]. eapply tame_fold; [|by right].
      apply newest_in, list_elem_of_In, filter_In in En as [[j Hj]%list_elem_of_In%elem_of_rows _].
      rewrite Hi3, Hi in Hj. destruct Hs1 as [[Hkey _ _ _ _] _]. rewrite (Hkey _ _ Hj). by eapply (ts_items s1).
Qed.
End Tame.

(** ** Deletions, promotions, choices and sweeps *)

Section Good.
Context {PC : PayloadCodecs} {MJ : MetadataJson} {ML : MetadataLaws}.

(** What every history keeps. *)
Record good (s : Store) : Prop := { gd_ok : store_ok s; gd_split : tables_split s }.
Lemma good_tame s s' : good s -> store_ok s' -> tame s s' -> good s'.
Proof. intros [Hs Ht] Hs' Htm. split; [done|by eapply tame_split]. Qed.

Lemma tame_foldr_write now l s :
  (forall r, r ∈ l -> is_record_id (r_id r) = false) ->
  tame s (foldr (fun r s => write_row (to_tombstone now r) s) s l).
Proof.
  induction l as [|r l IH]; intros Hl; cbn [foldr]; [done|].
  etransitivity; [apply IH; intros q Hq; apply Hl; by right|]. apply tame_write, (Hl r). by left.
Qed.
Lemma delete_all_good through now s n s' : good s -> delete_all_through through now s = (n, s') -> good s'.
Proof.
  intros [Hs Ht] Hd. eapply good_tame; [by split|by eapply delete_all_ok|]. injection Hd as _ <-.
  set (gone := List.filter _ (rows s)).
  transitivity (foldr (fun r s => write_row (to_tombstone now r) s) s gone); [|by apply tame_same].
  apply tame_foldr_write. intros r [[k Hk]%list_elem_of_In%elem_of_rows _]%list_elem_of_In%filter_In.
  destruct Hs as [[Hkey _ _ _ _] _]. rewrite (Hkey _ _ Hk). by eapply (ts_items s).
Qed.
Lemma get_plain id s r : good s -> get id s = Some r -> is_record_id (r_id r) = false.
Proof.
  intros [Hs Ht] Hg. destruct (get_some _ _ _ Hs Hg) as (Hh & _ & _). by eapply (ts_items s).
Qed.
Lemma promote_good id at_ s o s' : good s -> promote_copied id at_ s = Ok (o, s') -> good s'.
Proof.
  intros Hg Hp. eapply good_tame; [done|eapply promote_ok; [apply Hg|done]|]. revert Hp. unfold promote_copied.
  destruct (get id s) as [r|] eqn:Eg; [|by intros [= _ <-]]. pose proof (get_plain _ _ _ Hg Eg) as Hid.
  destruct (upsert_row _ s) as [s1|] eqn:E; [|done]. intros [= _ <-]. eapply tame_upsert; [exact E|exact Hid].
Qed.
Lemma set_secret_good {K : ItemKey} id choice now s b s' :
  good s -> set_secret id choice now s = Ok (b, s') -> good s'.
Proof.
  intros Hg Hp. eapply good_tame; [done|eapply set_secret_ok; [apply Hg|done]|]. revert Hp. unfold set_secret.
  destruct (get id s) as [r|] eqn:Eg; [|by intros [= _ <-]]. pose proof (get_plain _ _ _ Hg Eg) as Hid.
  intros ([[[m json] stamp] text] & _ & H)%bind_ok. revert H. cbn zeta.
  destruct (match text with Some t => insert_fts_in_tx id t (r_type r) _ | None => _ end) as [k s2] eqn:Ek.
  destruct (upsert_row _ s2) as [s3|] eqn:E; [|done]. intros [= _ <-].
  transitivity s2; [|eapply tame_upsert; [exact E|exact Hid]].
  transitivity (delete_documents id (delete_fts_row_in_tx id s)).
  { transitivity (delete_fts_row_in_tx id s); [apply tame_delete_fts|by apply tame_same]. }
  destruct text as [t|]; [|by injection Ek as _ <-].
  change s2 with (k, s2).2. rewrite <- Ek. apply tame_insert_fts.
Qed.

(** Sweeps. *)
Lemma tame_delete_batch ids s : tame s (delete_batch ids s).2.
Proof.
  unfold delete_batch. set (s1 := foldl (fun s id => delete_fts_row_in_tx id s) s ids).
  assert (H1 : tame s s1).
  { subst s1. revert s; induction ids as [|id ids IH]; intros s; cbn [foldl]; [done|].
    etransitivity; [apply (tame_delete_fts id)|apply IH]. }
  etransitivity; [exact H1|]. clear H1. clearbody s1.
  assert (H : forall n t, tame t (foldl (fun '(n, s) id =>
            (n + match items s !! id with Some _ => 1 | None => 0 end, drop_row id s)) (n, t) ids).2); [|apply H].
  clear s s1. induction ids as [|id ids IH]; intros n t; cbn [foldl]; [done|].
  etransitivity; [apply (tame_drop id)|apply IH].
Qed.
Lemma tame_hard_delete ids s : tame s (hard_delete ids s).2.
Proof.
  unfold hard_delete. generalize (length ids) as fuel. intros fuel. revert ids s.
  induction fuel as [|fuel IH]; intros [|id ids] s; cbn [hard_delete_in_tx]; try done.
  pose proof (tame_delete_batch (take EVICTION_BATCH (id :: ids)) s) as H.
  destruct (delete_batch _ s) as [n s1]. specialize (IH (drop EVICTION_BATCH (id :: ids)) s1).
  destruct (hard_delete_in_tx _ _ s1) as [m s2]. by transitivity s1.
Qed.
Lemma delete_batch_ok ids s : NoDup ids -> store_ok s -> store_ok (delete_batch ids s).2.
Proof. intros Hnd Hs. rewrite delete_batch_spec by done. by apply remove_rows_ok. Qed.
Lemma hard_delete_ok ids s : NoDup ids -> store_ok s -> store_ok (hard_delete ids s).2.
Proof.
  unfold hard_delete. generalize (length ids) as fuel. intros fuel. revert ids s.
  induction fuel as [|fuel IH]; intros [|id ids] s Hnd Hs; cbn [hard_delete_in_tx]; try done.
  pose proof Hnd as Hsplit. rewrite <- (take_drop EVICTION_BATCH (id :: ids)) in Hsplit.
  apply NoDup_app in Hsplit as (Ht & _ & Hd).
  pose proof (delete_batch_ok _ s Ht Hs) as H. destruct (delete_batch _ s) as [n s1].
  specialize (IH (drop EVICTION_BATCH (id :: ids)) s1 Hd H).
  by destruct (hard_delete_in_tx _ _ s1) as [m s2].
Qed.
Lemma hard_delete_good ids s n s' : NoDup ids -> good s -> hard_delete ids s = (n, s') -> good s'.
Proof.
  intros Hnd Hg He. pose proof (hard_delete_ok ids s Hnd (gd_ok s Hg)) as H1.
  pose proof (tame_hard_delete ids s) as H2. rewrite He in H1, H2. by eapply good_tame.
Qed.
End Good.

(** ** Sweeps *)

Lemma byte_victims_sublist before ex l : byte_victims before ex l `sublist_of` l.
Proof.
  revert before; induction l as [|r l IH]; intros before; cbn [byte_victims]; [done|].
  destruct (before <? ex); cbn; [apply sublist_skip|apply sublist_cons]; apply IH.
Qed.
Section Sweeps.
Context {PC : PayloadCodecs} {MJ : MetadataJson}.
Lemma victims_sublist_nodup keep s l :
  good s -> l `sublist_of` victims keep s -> NoDup (r_id <$> l).
Proof.
  intros [Hs _] Hl. eapply sublist_NoDup; [by apply (victims_nodup keep s), Hs|]. by apply fmap_sublist.
Qed.
Lemma evict_over_cap_good max s n s' : good s -> evict_over_cap max s = (n, s') -> good s'.
Proof.
  intros Hg. unfold evict_over_cap. case_match; [by intros [= _ <-]|].
  apply hard_delete_good; [|done]. eapply victims_sublist_nodup; [done|]. apply sublist_take.
Qed.
Lemma evict_over_byte_cap_good max s n s' : good s -> evict_over_byte_cap max s = (n, s') -> good s'.
Proof.
  intros Hg. unfold evict_over_byte_cap. case_match; [by intros [= _ <-]|].
  apply hard_delete_good; [|done]. eapply victims_sublist_nodup; [done|]. apply byte_victims_sublist.
Qed.
Lemma evict_batch_good cutoff s n s' :
  good s -> hard_delete (r_id <$> take EVICTION_BATCH (victims (expired cutoff) s)) s = (n, s') -> good s'.
Proof. intros Hg. apply hard_delete_good; [|done]. eapply victims_sublist_nodup; [done|]. apply sublist_take. Qed.
End Sweeps.

(** ** Organization records and pins *)

Section Records.
Context {PC : PayloadCodecs} {MJ : MetadataJson} {DG : Digest} {OC : OrgCodec} {K : ItemKey}.
Lemma pins_only_split s s' :
  pins_only s s' -> (forall k o, organization s' !! k = Some o -> is_record_id k = true /\ o_id o = k) ->
  tables_split s -> tables_split s'.
Proof.
  intros Hp Ho [Hi _]. split; [|done]. intros k r Hr. specialize (Hp k).
  destruct (items s !! k) eqn:E; [by eapply Hi|congruence].
Qed.
Lemma org_upsert_good id ct hash origin c n at_ del text s s' :
  ct = CONTENT_TYPE -> good s -> org_upsert_in_tx id ct hash origin c n at_ del text s = Ok (Some s') -> good s'.
Proof.
  intros -> [Hs Ht] Hu. split; [by eapply org_upsert_ok|]. revert Hu. unfold org_upsert_in_tx.
  destruct text as [t|]; [|done]. destruct (valid_wire id CONTENT_TYPE t del) eqn:Hw; cbn [negb]; [|done].
  apply valid_wire_record in Hw as (r & -> & _ & Hid & _). destruct c, n; try done. intros [= <-].
  apply (pins_only_split s); [|intros k o|done].
  - exact (pins_only_project r at_ (with_organization _ s) (ok_keyed s (ok_indexed s Hs))).
  - rewrite organization_project. cbn [organization with_organization]. rewrite lookup_insert_Some.
    intros [[<- <-]|[_ Hk]]; [|by eapply Ht]. split; [|done]. rewrite <- Hid. apply record_id_is_record.
Qed.
Lemma org_write_good rng r now s s' : good s -> org_write rng r now s = Ok s' -> good s'.
Proof.
  intros Hg. unfold org_write. intros (_ & Hw)%bind_unit_ok.
  apply bind_ok in Hw as (text & _ & Hw). revert Hw. cbn zeta. case_match; [by intros [= <-]|].
  intros (bs & _ & (o & Ho & [= <-])%bind_ok)%bind_ok.
  destruct o as [s1|]; [|done]. by eapply org_upsert_good.
Qed.
Lemma write_pins_good rng ids now s s' : good s -> write_pins rng ids now s = Ok s' -> good s'.
Proof.
  revert s; induction ids as [|id ids IH]; intros s Hg; cbn [write_pins]; [by intros [= <-]|].
  intros (s1 & H1 & H2)%bind_ok. eapply IH; [|exact H2].
  by eapply (write_pin_keeps good rng (org_write_good rng)).
Qed.
End Records.

Section Pins.
Context {PC : PayloadCodecs} {MJ : MetadataJson} {DG : Digest} {OC : OrgCodec} {K : ItemKey} {RA : RealArith}.
Lemma tame_renumber index l now s :
  store_ok s -> tables_split s -> tame s (renumber index l now s).2.
Proof.
  revert index s; induction l as [|[id p] l IH]; intros index s Hs Ht; cbn [renumber]; [done|].
  set (step := match items s !! id with Some _ => _ | None => _ end).
  assert (Hstep : store_ok step.2 /\ tame s step.2).
  { subst step. destruct (items s !! id) as [r|] eqn:E; [|done]. destruct (is_pinned r) eqn:Ep; [|done]. cbn.
    destruct Hs as [[Hkey Hl Hd Htb Hf] Hp]. split.
    - apply (write_shape_ok s r); [by split|by rewrite (Hkey _ _ E)|by apply set_pin_shape].
    - apply tame_write. cbn. rewrite (Hkey _ _ E). by eapply (ts_items s). }
  destruct Hstep as [H1 H2]. destruct step as [n s1]. cbn in H1, H2.
  specialize (IH (index + 1) s1 H1 (tame_split _ _ H2 Ht)).
  destruct (renumber (index + 1) l now s1) as [m s2]. by transitivity s1.
Qed.
Lemma set_pinned_good rng synced id p now later s b s' :
  good s -> set_pinned rng synced id p now later s = Ok (b, s') -> good s'.
Proof.
  intros Hg He. pose proof (set_pinned_ok rng false id p now later s true) as Hok. revert He Hok.
  unfold set_pinned. destruct (get id s) as [r|] eqn:Eg; [|by intros [= _ <-]].
  pose proof (get_plain _ _ _ Hg Eg) as Hid. set (s1 := if p then _ else _). intros He Hok.
  assert (Hg1 : good s1).
  { eapply good_tame; [done|by apply Hok; [apply Hg|]|].
    subst s1. destruct p; [destruct (r_pinned r); [done|]|]; by apply tame_write. }
  destruct synced; [|by injection He as _ <-].
  apply bind_ok in He as (s2 & Hw & [= _ <-]). by eapply (write_pin_keeps good rng (org_write_good rng)).
Qed.
Lemma reorder_pinned_good rng synced ids now later s n s' :
  good s -> reorder_pinned rng synced ids now later s = Ok (n, s') -> good s'.
Proof.
  intros Hg. unfold reorder_pinned. destruct (renumber _ _ now s) as [m s1] eqn:E.
  assert (Hg1 : good s1).
  { eapply good_tame; [done|eapply renumber_ok; [apply Hg|exact E]|].
    change s1 with (m, s1).2. rewrite <- E. apply tame_renumber; apply Hg. }
  destruct synced; [|by intros [= _ <-]]. intros (s2 & Hw & [= _ <-])%bind_ok. by eapply write_pins_good.
Qed.
Lemma apply_pin_state_good id p o at_ s b s' : good s -> apply_pin_state id p o at_ s = (b, s') -> good s'.
Proof.
  intros Hg He. eapply good_tame; [done|eapply apply_pin_state_ok; [apply Hg|done]|]. revert He.
  unfold apply_pin_state. case_match; [by intros [= _ <-]|].
  destruct (items s !! id) as [r|] eqn:E; [|by intros [= _ <-]].
  destruct (r_deleted r); intros [= _ <-]; [done|]. apply tame_write. cbn.
  destruct Hg as [[[Hkey _ _ _ _] _] Ht]. rewrite (Hkey _ _ E). by eapply (ts_items s).
Qed.
End Pins.

(** ** Versions of other devices *)

Section Merges.
Context {PC : PayloadCodecs} {MJ : MetadataJson} {ML : MetadataLaws} {DG : Digest} {OC : OrgCodec} {K : ItemKey}
        {CC : CredentialCodecs} {OJ : OfferJson}.
Lemma upsert_good i s b s' : good s -> wiped i -> upsert i s = Ok (b, s') -> good s'.
Proof.
  intros [Hs Ht] Hw He. split; [by eapply upsert_ok|]. revert He. unfold upsert.
  intros (o & Ho & H)%bind_ok. destruct o as [s1|]; apply ok_inj in H; injection H as _ <-; [|done].
  by apply (upsert_version i s s1).
Qed.
Lemma upsert_all_good l s bs s' : good s -> Forall wiped l -> upsert_all l s = Ok (bs, s') -> good s'.
Proof.
  intros Hg Hl. revert s bs Hg; induction Hl as [|i l Hi _ IH]; intros s bs Hg; cbn [upsert_all]; [by intros [= _ <-]|].
  intros ([b s1] & H1 & ([cs s2] & H2 & [= _ <-])%bind_ok)%bind_ok.
  eapply IH; [|exact H2]. by eapply upsert_good.
Qed.
Lemma merge_page_good ids expected writes s bs s' :
  good s -> Forall wiped writes -> merge_page ids expected writes s = Ok (bs, s') -> good s'.
Proof.
  intros Hg Hw. unfold merge_page. case_match; [|done]. intros H1%map_err_ok. by eapply upsert_all_good.
Qed.
End Merges.

(** ** The transition system *)

Section History.
Context {PC : PayloadCodecs} {MJ : MetadataJson} {ML : MetadataLaws} {DG : Digest} {OC : OrgCodec} {K : ItemKey}
        {RA : RealArith} {CC : CredentialCodecs} {OJ : OfferJson}.

(** One committed transaction; one that fails is rolled back and is no step.  The
    transactions of this device: captures name their rows by random or derived ids,
    which never look like a record's. *)
Inductive own_step (s : Store) : Store -> Prop :=
| step_capture item text (seal : result StoreError (bytes * bytes)) i c s' :
    is_record_id (n_id item) = false ->
    insert_or_bump_late_sealed (fun e => e) item text seal s = Ok (i, c, s') -> own_step s s'
| step_delete id now b s' : soft_delete id now s = (b, s') -> own_step s s'
| step_clear through now n s' : delete_all_through through now s = (n, s') -> own_step s s'
| step_promote id at_ o s' : promote_copied id at_ s = Ok (o, s') -> own_step s s'
| step_secret id choice now b s' : set_secret id choice now s = Ok (b, s') -> own_step s s'
| step_cap max n s' : evict_over_cap max s = (n, s') -> own_step s s'
| step_byte_cap max n s' : evict_over_byte_cap max s = (n, s') -> own_step s s'
| step_age cutoff n s' :
    hard_delete (r_id <$> take EVICTION_BATCH (victims (expired cutoff) s)) s = (n, s') -> own_step s s'
| step_pin rng synced id p now later b s' : set_pinned rng synced id p now later s = Ok (b, s') -> own_step s s'
| step_reorder rng synced ids now later n s' :
    reorder_pinned rng synced ids now later s = Ok (n, s') -> own_step s s'
| step_tags rng m uuid now s' : mutate_history_tags rng m uuid now s = Ok s' -> own_step s s'.
(** And those that write the versions of others: the versions a merge writes are
    prepared ones, in which a tombstone has no content ([prepare_some]). *)
Inductive step (s : Store) : Store -> Prop :=
| step_own s' : own_step s s' -> step s s'
| step_upsert i b s' : wiped i -> upsert i s = Ok (b, s') -> step s s'
| step_page ids expected writes bs s' :
    Forall wiped writes -> merge_page ids expected writes s = Ok (bs, s') -> step s s'
| step_pin_state id p o at_ b s' : apply_pin_state id p o at_ s = (b, s') -> step s s'.
Definition reachable (s : Store) : Prop := rtc step empty_store s.

Lemma soft_delete_good id now s b s' : good s -> soft_delete id now s = (b, s') -> good s'.
Proof. intros [Hs Ht] He. split; [by eapply soft_delete_ok|by eapply soft_delete_split]. Qed.
Lemma own_step_good s s' : good s -> own_step s s' -> good s'.
Proof.
  intros Hg [item text seal i c s1 Hid He|id now b s1 He|through now n s1 He|id at_ o s1 He|id ch now b s1 He
            |max n s1 He|max n s1 He|cutoff n s1 He|rng sy id p now later b s1 He|rng sy ids now later n s1 He
            |rng m uuid now s1 He].
  - eapply good_tame; [done|by eapply capture_ok; [apply Hg|]|]. by eapply tame_capture; [apply Hg..| |].
  - by eapply soft_delete_good.
  - by eapply delete_all_good.
  - by eapply promote_good.
  - by eapply set_secret_good.
  - by eapply evict_over_cap_good.
  - by eapply evict_over_byte_cap_good.
  - by eapply evict_batch_good.
  - by eapply set_pinned_good.
  - by eapply reorder_pinned_good.
  - by eapply (mutate_history_tags_keeps good rng (org_write_good rng)).
Qed.
Lemma step_good s s' : good s -> step s s' -> good s'.
Proof.
  intros Hg [s1 H|i b s1 Hw He|ids ex ws bs s1 Hw He|id p o at_ b s1 He].
  - by eapply own_step_good.
  - by eapply upsert_good.
  - by eapply merge_page_good.
  - by eapply apply_pin_state_good.
Qed.
Lemma steps_good s s' : good s -> rtc step s s' -> good s'.
Proof. intros Hg H. induction H as [s|s1 s2 s3 H _ IH]; [done|]. by apply IH, (step_good s1). Qed.
Lemma empty_good : good empty_store.
Proof.
  split; [|by split; intros k r; cbn; rewrite lookup_empty].
  split; [|by intros k r]. split; [by intros k r|done|by intros a b r q|by intros k r|by split].
Qed.
Lemma good_tables s : good s -> tables_ok s.
Proof.
  intros [[[Hkey _ _ _ _] _] [Hi Ho]]. split; [done|intros k o Hk; by apply Ho in Hk as [_ ?]|].
  intros k. destruct (items s !! k) eqn:E1; [|by left]. destruct (organization s !! k) eqn:E2; [|by right].
  apply Hi in E1. apply Ho in E2 as [E2 _]. congruence.
Qed.

(** ** What merges are made of *)

Lemma upsert_step i b s s' : wiped i -> upsert i s = Ok (b, s') -> rtc step s s'.
Proof. intros Hw He. apply rtc_once. by eapply step_upsert. Qed.
Lemma apply_with_pin_state_steps rng here i pin local s b s' :
  apply_with_pin_state rng here i pin local s = Ok (b, s') -> rtc step s s'.
Proof.
  unfold apply_with_pin_state. intros ([p|] & Hp & Hu)%bind_ok; [|by injection Hu as _ <-].
  apply map_err_ok in Hu. eapply upsert_step; [|done].
  by destruct (prepare_some _ _ _ _ _ _ Hp) as (_ & _ & _ & _ & _ & _ & Hw & _).
Qed.
Lemma apply_remote_version_steps rng here i s b s' :
  apply_remote_version rng here i s = Ok (b, s') -> rtc step s s'.
Proof.
  unfold apply_remote_version. case_match; [by intros [= _ <-]|]. apply apply_with_pin_state_steps.
Qed.
Lemma apply_pin_state_steps id p o at_ s b s' : apply_pin_state id p o at_ s = (b, s') -> rtc step s s'.
Proof. intros He. apply rtc_once. by eapply step_pin_state. Qed.
Lemma apply_remote_p2p_steps rng here i pin s a s' :
  apply_remote_p2p_version rng here i pin s = Ok (a, s') -> rtc step s s'.
Proof.
  unfold apply_remote_p2p_version. cbn zeta. intros ([c s1] & Hc & H)%bind_ok.
  assert (H1 : rtc step s s1).
  { destruct (payload_is_refused i); [by injection Hc as _ <-|by eapply apply_with_pin_state_steps]. }
  destruct (if negb c && _ then _ else (false, s1)) as [b s2] eqn:E. injection H as _ <-.
  etransitivity; [exact H1|]. destruct (negb c && _); [by eapply apply_pin_state_steps|by injection E as _ <-].
Qed.
Lemma pins_only_steps page slots flags s : rtc step s (pins_only_step page slots flags s).2.
Proof.
  revert slots flags s; induction page as [|[i pin] page IH]; intros [|x slots] [|f flags] s; cbn [pins_only_step]; try done.
  set (one := match x, pin with PinOnly, Some _ => _ | _, _ => (f, s) end).
  assert (H1 : rtc step s one.2).
  { subst one. destruct x; [done| |done]. destruct pin as [p|]; [|done]. destruct (ap_any f); [done|].
    destruct (apply_pin_state _ _ _ _ s) as [b s1] eqn:E. by eapply apply_pin_state_steps. }
  destruct one as [f1 s1]. specialize (IH slots flags s1).
  destruct (pins_only_step page slots flags s1) as [fs s2]. by etransitivity.
Qed.
Lemma redo_steps rng here page slots written flags refused s fs s' :
  redo_after_refusals rng here page slots written flags refused s = Ok (fs, s') -> rtc step s s'.
Proof.
  revert slots written flags refused s fs s'.
  induction page as [|[i pin] page IH]; intros [|x slots] written [|f flags] refused s fs s';
    cbn [redo_after_refusals]; try by intros [= _ <-].
  intros ([f1 s1] & H1 & H)%bind_ok.
  assert (Hs1 : rtc step s s1).
  { destruct (ap_any f || _); [by injection H1 as _ <-|]. destruct pin as [p|]; [by eapply apply_remote_p2p_steps|].
    apply bind_ok in H1 as ([c s2] & H1 & [= _ <-]). by eapply apply_remote_version_steps. }
  destruct (match x, written with Write _, b :: w => _ | _, w => _ end) as [refused1 written1].
  apply bind_ok in H as ([fs1 s2] & H & [= _ <-]). etransitivity; [exact Hs1|by eapply IH].
Qed.
Lemma prepare_wiped rng here page local slots :
  prepare rng here page local = Ok slots -> Forall wiped (writes slots).
Proof.
  revert local slots; induction page as [|[i pin] page IH]; intros local slots; cbn [prepare]; [by intros [= <-]|].
  destruct (payload_is_refused i).
  - intros (rest & Hr & [= <-])%bind_ok. cbn. by eapply IH.
  - cbn zeta. intros ([p|] & Hp & (rest & Hr & [= <-])%bind_ok)%bind_ok.
    + cbn. constructor; [|by eapply IH].
      by destruct (prepare_some _ _ _ _ _ _ Hp) as (_ & _ & _ & _ & _ & _ & Hw & _).
    + unfold writes. cbn [omap list_omap]. destruct ((fun p => _) <$> pin) as [[p []]|]; by eapply IH.
Qed.
Lemma attempts_steps n rng here p2p page snapshot interference s fs s' :
  (forall n s, rtc step s (interference n s)) ->
  attempts n rng here p2p page snapshot interference s = Ok (fs, s') -> rtc step s s'.
Proof.
  intros Hint. revert snapshot s; induction n as [|n IH]; intros snapshot s; cbn [attempts]; [done|].
  intros (slots & Hp & H)%bind_ok. etransitivity; [apply (Hint n)|]. revert H. cbn zeta.
  destruct (merge_page _ _ _ _) as [[written s1]|[e|m]] eqn:Em; [|done|apply IH].
  intros (_ & H)%bind_unit_ok.
  pose proof (pins_only_steps page slots (applied_flags p2p slots written) s1) as Hpins.
  destruct (pins_only_step _ _ _ s1) as [flags s2]. etransitivity; [|etransitivity; [exact Hpins|by eapply redo_steps]].
  apply rtc_once. eapply step_page; [|exact Em]. by eapply prepare_wiped.
Qed.

(** A page of versions is merged by such steps, between those of others. *)
Lemma apply_page_steps rng here p2p page interference s fs s' :
  (forall n s, rtc step s (interference n s)) ->
  apply_page rng here p2p page interference s = Ok (fs, s') -> rtc step s s'.
Proof. intros Hint. unfold apply_page. destruct page; [by intros [= _ <-]|]. by apply attempts_steps. Qed.

(** Enforcing the policy is a sequence of them as well. *)
Lemma evict_batches_steps fuel cutoff removed s n s' :
  evict_batches fuel cutoff removed s = Some (n, s') -> rtc step s s'.
Proof.
  revert removed s; induction fuel as [|fuel IH]; intros removed s; cbn [evict_batches]; [done|]. cbn zeta.
  pose proof (fun n s' H => step_own s s' (step_age s cutoff n s' H)) as Hage. revert Hage.
  generalize (take EVICTION_BATCH (victims (expired cutoff) s)) as batch. intros batch Hage H. 
  destruct batch as [|r l]; [by injection H as _ <-|].
  destruct (hard_delete (r_id <$> r :: l) s) as [m s1] eqn:E.
  etransitivity; [by apply rtc_once, (Hage m)|].
  destruct (length (r :: l) <? EVICTION_BATCH)%nat; [by injection H as _ <-|by eapply IH].
Qed.
Lemma enforce_retention_steps fuel p now s n s' :
  enforce_retention fuel p now s = Some (n, s') -> rtc step s s'.
Proof.
  unfold enforce_retention. destruct (evict_over_cap _ s) as [a s1] eqn:E1.
  destruct (evict_over_byte_cap _ s1) as [b s2] eqn:E2. intros H.
  etransitivity; [by apply rtc_once, step_own; eapply step_cap|]. etransitivity; [by apply rtc_once, step_own; eapply step_byte_cap|].
  destruct (0 <? retention_days p); [|by injection H as _ <-].
  unfold evict_older_than in H. destruct (has_expired _ s2); [|by injection H as _ <-].
  destruct (evict_batches _ _ _ s2) as [[c s3]|] eqn:E3; [|done]. injection H as _ <-. by eapply evict_batches_steps.
Qed.

(** C22: in every state the history can reach, by any sequence of captures,
    deletions, promotions, choices, sweeps, pins, tags and merged pages, every
    row is filed under its id, the live counter is the number of live rows, no
    two live rows are of the same hash, type and origin and stamped in the same
    minute (rows without a hash or with the id of an imported file apart),
    tombstones hold no content, the search index and the rows agree, nothing secret
    can be searched for, and no id is in both the history and the organization
    records.  Captures have ids that do not look like a record's, and the versions
    of a merge are prepared ones, whose tombstones have no content. *)
Theorem reachable_histories_are_well_formed s :
  reachable s ->
  keyed (items s) /\ live_count s = live_total (items s) /\ dedup_ok (items s) /\
  fts_ok (items s) (fts s) /\
  (forall k r, items s !! k = Some r -> tombstone_ok r /\
     (secret (clipboard_privacy r) = true -> r_fts r = None)) /\
  tables_ok s.
Proof.
  intros H. pose proof (steps_good _ _ empty_good H) as Hg. pose proof (good_tables s Hg) as Ht.
  destruct Hg as [[[H1 H2 H3 H4 H5] H6] _]. split_and!; try done. intros k r Hr. split; [by eapply H4|by eapply H6].
Qed.
End History.

(** ** Witness *)

Module ReachDemo.
#[export] Existing Instances HistoryDemo.codecs HistoryDemo.json HistoryDemo.laws HistoryDemo.digest
  OrgDemo.codec BinaryDemo.key PinDemo.arith no_codecs MergeDemo.offers.
Lemma after_reachable id hash at_ m s :
  is_record_id id = false -> reachable s -> reachable (HistoryDemo.after (HistoryDemo.put id hash at_ m s) s).
Proof.
  intros Hid Hs. destruct (HistoryDemo.put id hash at_ m s) as [[[i c] s']|e] eqn:E; [|done].
  eapply rtc_r; [exact Hs|]. cbn. eapply step_own, step_capture; [|exact E]. exact Hid.
Qed.
Lemma three_reachable : reachable HistoryDemo.three.
Proof. repeat (apply after_reachable; [reflexivity|]). apply rtc_refl. Qed.
(** Three captures, then the first is deleted. *)
Definition left_ : Store := (soft_delete "a" 7000 HistoryDemo.three).2.
Lemma left_reachable : reachable left_.
Proof. eapply rtc_r; [apply three_reachable|]. eapply step_own, (step_delete _ "a" 7000 true). vm_compute. reflexivity. Qed.
End ReachDemo.
#[local] Existing Instances HistoryDemo.codecs HistoryDemo.json HistoryDemo.laws HistoryDemo.digest
  OrgDemo.codec BinaryDemo.key PinDemo.arith no_codecs MergeDemo.offers.
Lemma reachable_histories_are_well_formed_witness :
  size (items ReachDemo.left_) = 3%nat /\ live_count ReachDemo.left_ = live_total (items ReachDemo.left_).
Proof.
  split; [vm_compute; reflexivity|].
  apply (reachable_histories_are_well_formed ReachDemo.left_ ReachDemo.left_reachable).
Defined.
