(* ===== verification/PinPlaces.v ===== *)
(** The places of the pins: in a history whose merged versions passed the wire's
    check of their pins, only a pinned row has a place among the pins. *)

From S2P Require Import Prelude Float64 Bytes Text Wire Message Binary Merge Payload Credentials Workspace Table Items ItemSafety Retention Organization Versions Scan Pinning LocalMerge LocalMergeSafety History.
From stdpp Require Import relations.
Local Open Scope Z_scope.

(** What is not pinned has no place: the half of the wire's [check_pin_state] that
    matters here. *)
Definition tidy_pin (pinned : bool) (order : option f64) : Prop := pinned = false -> order = None.
Lemma check_pin_state_tidy p o : check_pin_state p o = Ok tt -> tidy_pin p o.
Proof. unfold check_pin_state. intros H ->. revert H. destruct o as [o|]; [|done]. by destruct (is_finite o). Qed.
Definition tidy_row (r : Row) : Prop := tidy_pin (r_pinned r) (r_pin_order r).
Record placed (s : Store) : Prop := {
  pl_rows k r : items s !! k = Some r -> tidy_row r;
  pl_states k p : pin_states s !! k = Some p -> tidy_pin (ps_pinned p) (ps_order p);
}.

(** ** Single writes *)

Lemma placed_same s s' : items s' = items s -> pin_states s' = pin_states s -> placed s -> placed s'.
Proof. intros Hi Hp [H1 H2]. split; rewrite ?Hi, ?Hp; done. Qed.
Lemma placed_write r s : tidy_row r -> placed s -> placed (write_row r s).
Proof.
  intros Hr [H1 H2]. split; [|by rewrite (proj1 (proj2 (proj2 (write_row_tables r s))))].
  intros k q. rewrite items_write_row, lookup_insert_Some. intros [[_ <-]|[_ Hq]]; [done|by eapply H1].
Qed.
Lemma placed_upsert r s s' : upsert_row r s = Some s' -> tidy_row r -> placed s -> placed s'.
Proof. intros [_ ->]%upsert_row_some. by apply placed_write. Qed.
Lemma placed_drop id s : placed s -> placed (drop_row id s).
Proof.
  intros [H1 H2]. split.
  - intros k r. rewrite items_drop_row, lookup_delete_Some. intros [_ Hr]. by eapply H1.
  - assert (pin_states (drop_row id s) = pin_states s) as ->; [|done].
    unfold drop_row. destruct (items s !! id); [|done]. unfold after_change.
    match goal with |- context [release_unused ?o ?t] => pose proof (release_unused_tables o t) as (_ & _ & H & _) end.
    case_match; exact H.
Qed.
Lemma placed_delete_fts id s : placed s -> placed (delete_fts_row_in_tx id s).
Proof. unfold delete_fts_row_in_tx. case_match; by apply placed_same. Qed.
Lemma placed_insert_fts id t ct s : placed s -> placed (insert_fts_in_tx id t ct s).2.
Proof. unfold insert_fts_in_tx. case_match; by apply placed_same. Qed.
Lemma placed_release o s : placed s -> placed (release_unused o s).
Proof. apply placed_same; [apply release_unused_frame|apply release_unused_tables]. Qed.
Lemma placed_get s r id : get id s = Some r -> placed s -> tidy_row r.
Proof.
  unfold get. destruct (items s !! id) as [q|] eqn:E; [|done]. cbn. case_match; [done|]. intros [= <-] [Hr _]. by eapply Hr.
Qed.

Lemma placed_projection id s : placed s -> placed (apply_pin_projection id s).
Proof.
  intros Hs. unfold apply_pin_projection. destruct (pin_states s !! id) as [q|] eqn:E; [|done]. destruct (items s !! id); [|done].
  case_match; [|done]. apply placed_write; [|done]. by apply (pl_states _ Hs id).
Qed.

Section Captures.
Context {PC : PayloadCodecs} {MJ : MetadataJson} {DG : Digest}.
Lemma placed_normalise app ct at_ m s m' i s' : normalise app ct at_ m s = Ok (m', i, s') -> placed s -> placed s'.
Proof.
  intros H [H1 H2]. split.
  - intros k r Hr. pose proof (normalise_rows _ _ _ _ _ _ _ _ k H) as Hk. destruct (items s !! k) as [q|] eqn:E; [|congruence].
    destruct Hk as (q' & Hq' & (Hs & _)%same_but_icon_kept). rewrite Hr in Hq'. injection Hq' as <-.
    assert (E1 : r_pinned q = r_pinned r) by (unfold kept in Hs; congruence).
    assert (E2 : r_pin_order q = r_pin_order r) by (unfold kept in Hs; congruence).
    specialize (H1 k q E). unfold tidy_row in *. by rewrite E1, E2 in H1.
  - assert (pin_states s' = pin_states s) as ->; [|done]. revert H. unfold normalise.
    destruct (parsed_metadata m ct) as [p|]; [|by intros [= _ _ <-]].
    destruct (source_app_icon p) as [ic|]; [|by intros [= _ _ <-]].
    intros (id & _ & Hr)%bind_ok. simplify_eq. unfold upsert_icon. destruct (icons s !! id); [by case_match|]. by destruct (non_empty app).
Qed.
Lemma placed_bump existing at_ a n i s r s' : bump_in_tx existing at_ a n i s = (r, s') ->
  tidy_row existing -> placed s -> tidy_row r /\ placed s'.
Proof.
  unfold bump_in_tx. intros H He Hs. revert H. case_match; [by intros [= <- <-]|].
  destruct (upsert_row _ s) as [s1|] eqn:E; intros [= <- <-]; [|done]. split; [done|]. by eapply placed_upsert.
Qed.
Lemma placed_reindex item c t s : tidy_row item -> placed s -> placed (reindex item c t s).2.
Proof.
  intros Hi Hs. unfold reindex. case_match; cbn.
  - apply (placed_same (write_row (set_fts None item) (delete_fts_row_in_tx (r_id item) s))); [done|done|].
    by apply placed_write, placed_delete_fts.
  - destruct t as [t|]; [|done]. destruct (insert_fts_in_tx _ _ _ _) as [k s1] eqn:E. cbn. apply placed_write; [done|].
    change s1 with (k, s1).2. rewrite <- E. by apply placed_insert_fts, placed_delete_fts.
Qed.
Lemma placed_refresh item p creds text s r s' :
  refresh_privacy item p creds text s = Ok (r, s') -> tidy_row item -> placed s -> placed s'.
Proof.
  unfold refresh_privacy. intros H Hi Hs. revert H. case_match; [by intros [= _ <-]|].
  destruct (upsert_row _ s) as [s1|] eqn:E; [|done]. intros Heq%ok_inj.
  match type of Heq with reindex ?i ?c ?t ?x = _ => pose proof (placed_reindex i c t x Hi) as Ht end.
  rewrite Heq in Ht. apply Ht. by eapply placed_upsert.
Qed.
Lemma placed_fold existing item icon p creds text s i c s' :
  tidy_row existing -> placed s ->
  fold_into existing item icon p creds text s = Ok (i, c, s') \/
  fold_after_race existing item icon p creds text s = Ok (i, c, s') -> placed s'.
Proof.
  intros He Hs. unfold fold_into, fold_after_race. destruct (bump_in_tx _ _ _ _ _ s) as [b s1] eqn:Eb.
  destruct (placed_bump _ _ _ _ _ _ _ _ Eb He Hs) as [Hb H1].
  intros [H|H]; apply bind_ok in H as ([r s2] & Hr & [= _ _ <-]).
  - apply placed_release. by eapply placed_refresh.
  - eapply placed_refresh; [exact Hr|done|by apply placed_release].
Qed.
Lemma placed_newest (f : Row -> bool) s q : newest (List.filter f (rows s)) = Some q -> placed s -> tidy_row q.
Proof.
  intros Hq%newest_in [H _]. apply list_elem_of_In, filter_In in Hq as [[j Hj]%list_elem_of_In%elem_of_rows _]. by eapply H.
Qed.
Lemma placed_capture {E} (of_store : StoreError -> E) item text seal s i c s' :
  insert_or_bump_late_sealed of_store item text seal s = Ok (i, c, s') -> placed s -> placed s'.
Proof.
  unfold insert_or_bump_late_sealed. intros ([[m icon] s1] & Hn%map_err_ok & H)%bind_ok Hs.
  pose proof (placed_normalise _ _ _ _ _ _ _ _ Hn Hs) as Hs1. revert H.
  destruct (newest_live_with_representation _ _ _ s1) as [q|] eqn:Eq.
  - intros H%map_err_ok. eapply placed_fold; [|done|by left].
    revert Eq. unfold newest_live_with_representation. destruct (String.eqb _ ""); [done|]. intros Eq. exact (placed_newest _ _ _ Eq Hs1).
  - unfold insert_new. intros ([nonce ct] & _ & H)%bind_ok. revert H.
    destruct (match _ with Some t => insert_fts_in_tx _ t _ s1 | None => (None, s1) end) as [k s2] eqn:Ek.
    assert (Hs2 : placed s2).
    { revert Ek. case_match; [|by intros [= _ <-]]. intros Ek. change s2 with (k, s2).2. rewrite <- Ek. by apply placed_insert_fts. }
    destruct (insert_row _ s2) as [s3|] eqn:Ei.
    + intros [= _ _ <-]. apply insert_row_some in Ei as (_ & _ & ->). by apply placed_write.
    + set (s3 := match k with Some _ => _ | None => _ end).
      assert (Hs3 : placed s3) by (subst s3; destruct k; [by apply (placed_same s2)|done]).
      unfold find_in_bucket. destruct (String.eqb _ ""); [done|]. destruct (newest _) as [q|] eqn:En; [|done].
      intros H%map_err_ok. eapply placed_fold; [|exact Hs3|by right]. exact (placed_newest _ _ _ En Hs3).
Qed.
End Captures.

(** ** Deletions, promotions, choices and sweeps *)

Section Own.
Context {PC : PayloadCodecs} {MJ : MetadataJson} {K : ItemKey}.
Lemma placed_soft_delete id now s b s' : soft_delete id now s = (b, s') -> placed s -> placed s'.
Proof.
  unfold soft_delete. intros H Hs%(placed_delete_fts id). revert H. destruct (items _ !! id); [|by intros [= _ <-]].
  case_match; intros [= _ <-]; [done|by apply placed_write].
Qed.
Lemma placed_delete_all through now s n s' : delete_all_through through now s = (n, s') -> placed s -> placed s'.
Proof.
  intros [= _ <-] Hs. set (gone := List.filter _ (rows s)). apply (placed_same (foldr (fun r s => write_row (to_tombstone now r) s) s gone)); [done..|].
  induction gone as [|r l IH]; [done|]. by apply placed_write.
Qed.
Lemma placed_promote id at_ s o s' : promote_copied id at_ s = Ok (o, s') -> placed s -> placed s'.
Proof.
  unfold promote_copied. intros H Hs. revert H. destruct (get id s) as [r|] eqn:Eg; [|by intros [= _ <-]].
  destruct (upsert_row _ s) as [s1|] eqn:E; [|done]. intros [= _ <-]. eapply placed_upsert; [exact E| |done]. by eapply (placed_get s r).
Qed.
Lemma placed_set_secret id choice now s b s' : set_secret id choice now s = Ok (b, s') -> placed s -> placed s'.
Proof.
  unfold set_secret. intros H Hs. revert H. destruct (get id s) as [r|] eqn:Eg; [|by intros [= _ <-]].
  pose proof (placed_get _ _ _ Eg Hs) as Hr. intros ([[[m json] stamp] text] & _ & H)%bind_ok. revert H. cbn zeta.
  destruct (match text with Some t => insert_fts_in_tx id t (r_type r) _ | None => _ end) as [k s2] eqn:Ek.
  destruct (upsert_row _ s2) as [s3|] eqn:E; [|done]. intros [= _ <-]. eapply placed_upsert; [exact E|exact Hr|].
  assert (H1 : placed (delete_documents id (delete_fts_row_in_tx id s))).
  { apply (placed_same (delete_fts_row_in_tx id s)); [done..|by apply placed_delete_fts]. }
  destruct text as [t|]; [|by injection Ek as _ <-]. change s2 with (k, s2).2. rewrite <- Ek. by apply placed_insert_fts.
Qed.
Lemma placed_delete_batch ids s : placed s -> placed (delete_batch ids s).2.
Proof.
  unfold delete_batch. set (s1 := foldl (fun s id => delete_fts_row_in_tx id s) s ids). intros Hs.
  assert (H1 : placed s1).
  { subst s1. revert s Hs; induction ids as [|id ids IH]; intros s Hs; cbn [foldl]; [done|]. by apply IH, placed_delete_fts. }
  clearbody s1. assert (H : forall n t, placed t -> placed (foldl (fun '(n, s) id =>
      (n + match items s !! id with Some _ => 1 | None => 0 end, drop_row id s)) (n, t) ids).2); [|by apply H].
  clear. induction ids as [|id ids IH]; intros n t Ht; cbn [foldl]; [done|]. by apply IH, placed_drop.
Qed.
Lemma placed_hard_delete ids s n s' : hard_delete ids s = (n, s') -> placed s -> placed s'.
Proof.
  intros H Hs. change s' with (n, s').2. rewrite <- H. clear H. unfold hard_delete. generalize (length ids) as fuel. intros fuel. revert ids s Hs.
  induction fuel as [|fuel IH]; intros [|id ids] s Hs; cbn [hard_delete_in_tx]; try done.
  pose proof (placed_delete_batch (take EVICTION_BATCH (id :: ids)) s Hs) as H1. destruct (delete_batch _ s) as [m s1].
  specialize (IH (drop EVICTION_BATCH (id :: ids)) s1 H1). by destruct (hard_delete_in_tx _ _ s1).
Qed.
End Own.

(** ** Records and pins *)

Section Records.
Context {DG : Digest} {OC : OrgCodec} {K : ItemKey} {RA : RealArith}.
Lemma placed_project r stamp s : record_valid r = true -> placed s -> placed (project r stamp s).
Proof.
  intros Hv Hs. destruct r as [i n d|c t a|c p o]; cbn [project]; [by apply (placed_same s)..|].
  assert (Hpo : tidy_pin p o) by (intros ->; cbn in Hv; apply andb_prop in Hv as [_ Hv]; by destruct o).
  set (s1 := with_tags _ _ _ s). assert (H1 : placed s1).
  { destruct Hs as [H1 H2]. split; [done|]. intros k q. cbn. rewrite lookup_insert_Some. intros [[_ <-]|[_ Hq]]; [done|by eapply H2]. }
  by apply placed_projection.
Qed.
Lemma placed_org_upsert id ct hash origin c n at_ del text s s' :
  ct = CONTENT_TYPE -> org_upsert_in_tx id ct hash origin c n at_ del text s = Ok (Some s') -> placed s -> placed s'.
Proof.
  intros -> Hu Hs. revert Hu. unfold org_upsert_in_tx. destruct text as [t|]; [|done].
  destruct (valid_wire id CONTENT_TYPE t del) eqn:Hw; cbn [negb]; [|done].
  apply valid_wire_record in Hw as (r & -> & Hv & _). destruct c, n; try done. intros [= <-].
  apply placed_project; [done|by apply (placed_same s)].
Qed.
Lemma placed_org_write rng r now s s' : placed s -> org_write rng r now s = Ok s' -> placed s'.
Proof.
  intros Hs. unfold org_write. intros (_ & Hw)%bind_unit_ok. apply bind_ok in Hw as (text & _ & Hw). revert Hw. cbn zeta.
  case_match; [by intros [= <-]|]. intros (bs & _ & (o & Ho & [= <-])%bind_ok)%bind_ok.
  destruct o as [s1|]; [|done]. by eapply placed_org_upsert.
Qed.
Lemma placed_write_pins rng ids now s s' : write_pins rng ids now s = Ok s' -> placed s -> placed s'.
Proof.
  revert s; induction ids as [|id ids IH]; intros s; cbn [write_pins]; [by intros [= <-]|].
  intros (s1 & H1 & H2)%bind_ok Hs. eapply IH; [exact H2|]. by eapply (write_pin_keeps placed rng (placed_org_write rng)).
Qed.
Lemma placed_set_pinned rng synced id p now later s b s' :
  set_pinned rng synced id p now later s = Ok (b, s') -> placed s -> placed s'.
Proof.
  unfold set_pinned. intros He Hs. revert He. destruct (get id s) as [r|]; [|by intros [= _ <-]]. set (s1 := if p then _ else _).
  assert (H1 : placed s1) by (subst s1; destruct p; [destruct (r_pinned r); [done|]|]; by apply placed_write).
  destruct synced; [|by intros [= _ <-]]. intros (s2 & Hw & [= _ <-])%bind_ok.
  by eapply (write_pin_keeps placed rng (placed_org_write rng)).
Qed.
Lemma placed_renumber index l now s : placed s -> placed (renumber index l now s).2.
Proof.
  revert index s; induction l as [|[id p] l IH]; intros index s Hs; cbn [renumber]; [done|].
  set (step := match items s !! id with Some _ => _ | None => _ end).
  assert (Hstep : placed step.2).
  { subst step. destruct (items s !! id) as [r|] eqn:E; [|done]. destruct (is_pinned r) eqn:Ep; [|done]. cbn.
    apply placed_write; [|done]. unfold is_pinned in Ep. intros Hp. cbn in Hp. rewrite Hp in Ep. by rewrite ?andb_false_r in Ep. }
  destruct step as [n s1]. specialize (IH (index + 1) s1 Hstep). by destruct (renumber (index + 1) l now s1).
Qed.
Lemma placed_reorder rng synced ids now later s n s' :
  reorder_pinned rng synced ids now later s = Ok (n, s') -> placed s -> placed s'.
Proof.
  unfold reorder_pinned. intros He Hs. revert He. destruct (renumber _ _ now s) as [m s1] eqn:E.
  assert (H1 : placed s1) by (change s1 with (m, s1).2; rewrite <- E; by apply placed_renumber).
  destruct synced; [|by intros [= _ <-]]. intros (s2 & Hw & [= _ <-])%bind_ok. by eapply placed_write_pins.
Qed.
Lemma placed_apply_pin_state id p o at_ s b s' :
  apply_pin_state id p o at_ s = (b, s') -> tidy_pin p o -> placed s -> placed s'.
Proof.
  unfold apply_pin_state. intros He Hp Hs. revert He. case_match; [by intros [= _ <-]|].
  destruct (items s !! id) as [r|]; [|by intros [= _ <-]]. destruct (r_deleted r); intros [= _ <-]; [done|by apply placed_write].
Qed.
End Records.

(** ** Versions of other devices *)

Definition tidy_version (v : Version) : Prop := tidy_pin (v_pinned v) (v_order v).
Definition tidy_item (i : IncomingItem) : Prop := tidy_pin (i_pinned i) (i_pin_order i).
Definition tidy_remote (p : P2pPin) : Prop := tidy_pin (pp_pinned p) (pp_order p).

Lemma placed_version id s v : version_summary id s = Some v -> placed s -> tidy_version v.
Proof.
  unfold version_summary. intros Hv [H1 _]. revert Hv. destruct (items s !! id) as [r|] eqn:E; [intros [= <-]; exact (H1 _ _ E)|].
  destruct (organization s !! id); [|done]. by intros [= <-].
Qed.
Lemma placed_versions ids s k v : version_summaries ids s !! k = Some v -> placed s -> tidy_version v.
Proof.
  intros Hv [H1 _]. revert k v Hv. change (map_Forall (fun _ v => tidy_version v) (version_summaries ids s)). unfold version_summaries. cbv zeta.
  set (one := fun (half : string -> option Version) (m : gmap string Version) (id : string) => match half id with Some v => <[v_id v := v]> m | None => m end).
  assert (Hone : forall half l m, (forall id v, half id = Some v -> tidy_version v) ->
            map_Forall (fun _ v => tidy_version v) m -> map_Forall (fun _ v => tidy_version v) (foldl (one half) m l)).
  { intros half l m Hh. revert m. induction l as [|id l IH]; intros m Hm; [done|]. cbn [foldl]. apply IH. unfold one.
    destruct (half id) eqn:E; [|done]. apply map_Forall_insert_2; [by eapply Hh|done]. }
  apply Hone; [intros id v; destruct (organization s !! id); by intros [= <-]|].
  apply Hone; [|apply map_Forall_empty]. intros id v. destruct (items s !! id) as [r|] eqn:E; [|done]. intros [= <-]. exact (H1 _ _ E).
Qed.

Section Merges.
Context {PC : PayloadCodecs} {MJ : MetadataJson} {ML : MetadataLaws} {DG : Digest} {OC : OrgCodec} {K : ItemKey}
        {RA : RealArith} {CC : CredentialCodecs} {OJ : OfferJson}.
Lemma placed_upsert_item i s b s' : upsert i s = Ok (b, s') -> tidy_item i -> placed s -> placed s'.
Proof.
  unfold upsert. intros (o & Ho & H)%bind_ok Hi Hs. destruct o as [s1|]; apply ok_inj in H; injection H as _ <-; [|done].
  revert Ho. unfold upsert_in_tx. destruct (String.eqb_spec (i_type i) CONTENT_TYPE) as [Ht|_]; [intros Ho; by eapply placed_org_upsert|].
  case_match; [done|]. cbv zeta. intros ([[m icon] t] & Hn & Hb)%bind_ok. revert Hb.
  assert (Ht : placed t).
  { pose proof (placed_delete_fts (i_id i) s Hs) as H1. destruct (i_deleted i); [injection Hn as _ _ <-; exact H1|by eapply placed_normalise]. }
  destruct (if i_deleted i then _ else merge_metadata _ _ _ _) as [metadata stamp].
  set (t1 := if secret _ then _ else t). assert (Ht1 : placed t1) by (subst t1; destruct (secret _); [by apply (placed_same t)|done]).
  destruct (match i_search_text i with Some _ => _ | None => _ end) as [k t2] eqn:Ek.
  assert (Ht2 : placed t2).
  { revert Ek. destruct (i_search_text i) as [x|]; [|by intros [= _ <-]]. destruct (_ && _); [|by intros [= _ <-]].
    intros Ek. change t2 with (k, t2).2. rewrite <- Ek. by apply placed_insert_fts. }
  destruct (upsert_row _ t2) as [t3|] eqn:Eu; [|done].
  assert (Ht3 : placed t3).
  { eapply placed_upsert; [exact Eu| |done]. unfold tidy_row. cbn. destruct (i_deleted i); [done|exact Hi]. }
  pose proof (placed_projection (i_id i) t3 Ht3) as Ht4.
  destruct (i_ciphertext i) as [c|]; [|by intros [= <-]]. intros (t5 & Hl & [= <-])%bind_ok. revert Hl. unfold link.
  destruct (Binary.split c) as [[h l]|]; [destruct l; [done|]|]; intros [= <-]; [by apply (placed_same (apply_pin_projection (i_id i) t3))|done].
Qed.
Lemma placed_upsert_all l s bs s' : upsert_all l s = Ok (bs, s') -> Forall tidy_item l -> placed s -> placed s'.
Proof.
  intros H Hl; revert s bs H; induction Hl as [|i l Hi _ IH]; intros s bs; cbn [upsert_all]; [by intros [= _ <-]|].
  intros ([b s1] & H1 & ([cs s2] & H2 & [= _ <-])%bind_ok)%bind_ok Hs. eapply IH; [exact H2|]. by eapply placed_upsert_item.
Qed.
Lemma placed_merge_page ids ex ws s bs s' : merge_page ids ex ws s = Ok (bs, s') -> Forall tidy_item ws -> placed s -> placed s'.
Proof. unfold merge_page. case_match; [|done]. intros He%map_err_ok. by apply (placed_upsert_all _ _ _ _ He). Qed.

(** ** Histories whose merged pins were checked *)

(** A transaction of the history, where what a merge writes is of a tidy pin. *)
Inductive checked_step (s : Store) : Store -> Prop :=
| checked_own s' : own_step s s' -> checked_step s s'
| checked_upsert i b s' : wiped i -> tidy_item i -> upsert i s = Ok (b, s') -> checked_step s s'
| checked_page ids expected writes bs s' : Forall wiped writes -> Forall tidy_item writes ->
    merge_page ids expected writes s = Ok (bs, s') -> checked_step s s'
| checked_pin_state id p o at_ b s' : tidy_pin p o -> apply_pin_state id p o at_ s = (b, s') -> checked_step s s'.
Lemma checked_is_step s s' : checked_step s s' -> step s s'.
Proof.
  intros [s1 H|i b s1 Hw _ H|ids ex ws bs s1 Hw _ H|id p o at_ b s1 _ H];
    [by apply step_own|by eapply step_upsert|by eapply step_page|by eapply step_pin_state].
Qed.
Lemma own_step_placed s s' : own_step s s' -> placed s -> placed s'.
Proof.
  intros [item text seal i c s1 Hid He|id now b s1 He|through now n s1 He|id at_ o s1 He|id ch now b s1 He
         |max n s1 He|max n s1 He|cutoff n s1 He|rng sy id p now later b s1 He|rng sy ids now later n s1 He
         |rng m uuid now s1 He] Hs.
  - by eapply placed_capture.
  - by eapply placed_soft_delete.
  - by eapply placed_delete_all.
  - by eapply placed_promote.
  - by eapply placed_set_secret.
  - revert He. unfold evict_over_cap. case_match; [by intros [= _ <-]|]. intros He. by eapply placed_hard_delete.
  - revert He. unfold evict_over_byte_cap. case_match; [by intros [= _ <-]|]. intros He. by eapply placed_hard_delete.
  - by eapply placed_hard_delete.
  - by eapply placed_set_pinned.
  - by eapply placed_reorder.
  - by eapply (mutate_history_tags_keeps placed rng (placed_org_write rng)).
Qed.
Lemma checked_step_placed s s' : checked_step s s' -> placed s -> placed s'.
Proof.
  intros [s1 H|i b s1 _ Hi H|ids ex ws bs s1 _ Hi H|id p o at_ b s1 Hp H].
  - by apply own_step_placed.
  - by eapply placed_upsert_item.
  - by eapply placed_merge_page.
  - by eapply placed_apply_pin_state.
Qed.
(** Starting from a well-formed history without strays, as the empty one is. *)
Record settled (s : Store) : Prop := { st_good : good s; st_placed : placed s }.
Lemma settled_steps s s' : settled s -> rtc checked_step s s' -> settled s'.
Proof.
  intros Hs H. induction H as [s|s1 s2 s3 H _ IH]; [done|]. apply IH. destruct Hs as [Hg Hp].
  split; [eapply step_good; [exact Hg|by apply checked_is_step]|by eapply checked_step_placed].
Qed.
Lemma empty_settled : settled empty_store.
Proof. split; [apply empty_good|]. by split; intros k r; cbn; rewrite lookup_empty. Qed.

(** The merges of the program are such steps when the pins they are handed passed
    the check: a prepared version takes the received pin or that of the row here. *)
Lemma prepared_tidy rng here i pin local p :
  prepare_remote_version rng here i pin local = Ok (Some p) ->
  (forall q b, pin = Some (q, b) -> tidy_remote q) -> (forall v, local = Some v -> tidy_version v) -> tidy_item p.
Proof.
  unfold prepare_remote_version. destruct (negb _); [done|]. intros (_ & H)%bind_unit_ok Hp Hl. cbv zeta in H.
  destruct (match local with Some l => _ | None => false end); [done|]. apply bind_ok in H as ([n c] & _ & H).
  assert (Hr : tidy_pin (remote_pin i pin local).1.1 (remote_pin i pin local).1.2).
  { unfold remote_pin. destruct (rv_deleted i); [done|].
    destruct pin as [[q []]|]; [exact (Hp q true eq_refl)|..]; (destruct local as [l|]; [exact (Hl l eq_refl)|done]). }
  destruct (remote_pin i pin local) as [[p0 o] at_]. injection H as <-. exact Hr.
Qed.
Lemma apply_with_pin_state_checked rng here i pin s b s' : placed s -> (forall q w, pin = Some (q, w) -> tidy_remote q) ->
  apply_with_pin_state rng here i pin (version_summary (rv_id i) s) s = Ok (b, s') -> rtc checked_step s s'.
Proof.
  unfold apply_with_pin_state. intros Hs Hq ([p|] & Hp & Hu)%bind_ok; [|by injection Hu as _ <-].
  apply map_err_ok in Hu. apply rtc_once. eapply checked_upsert; [| |exact Hu].
  - by destruct (prepare_some _ _ _ _ _ _ Hp) as (_ & _ & _ & _ & _ & _ & Hw & _).
  - eapply prepared_tidy; [exact Hp|exact Hq|]. intros v Hv. by eapply placed_version.
Qed.
Lemma apply_remote_version_checked rng here i s b s' : placed s ->
  apply_remote_version rng here i s = Ok (b, s') -> rtc checked_step s s'.
Proof. intros Hs. unfold apply_remote_version. case_match; [by intros [= _ <-]|]. by apply apply_with_pin_state_checked. Qed.
Lemma checked_placed s s' : rtc checked_step s s' -> placed s -> placed s'.
Proof. induction 1 as [|s1 s2 s3 H _ IH]; [done|]. intros Hs. by apply IH, (checked_step_placed s1). Qed.
Lemma apply_remote_p2p_checked rng here i pin s a s' : placed s -> tidy_remote pin ->
  apply_remote_p2p_version rng here i pin s = Ok (a, s') -> rtc checked_step s s'.
Proof.
  intros Hs Hq. unfold apply_remote_p2p_version. cbn zeta. intros ([c s1] & Hc & H)%bind_ok.
  assert (H1 : rtc checked_step s s1).
  { destruct (payload_is_refused i); [by injection Hc as _ <-|]. eapply apply_with_pin_state_checked; [done| |exact Hc]. by intros q w [= <- _]. }
  destruct (if negb c && _ then _ else (false, s1)) as [b s2] eqn:E. injection H as _ <-. etransitivity; [exact H1|].
  destruct (negb c && _); [by apply rtc_once; eapply checked_pin_state|by injection E as _ <-].
Qed.
Lemma pins_only_checked page slots flags s : (forall i q, (i, Some q) ∈ page -> tidy_remote q) ->
  rtc checked_step s (pins_only_step page slots flags s).2.
Proof.
  revert slots flags s; induction page as [|[i pin] page IH]; intros [|x slots] [|f flags] s Hp; cbn [pins_only_step]; try done.
  set (one := match x, pin with PinOnly, Some _ => _ | _, _ => (f, s) end).
  assert (H1 : rtc checked_step s one.2).
  { subst one. destruct x; [done| |done]. destruct pin as [p|]; [|done]. destruct (ap_any f); [done|].
    destruct (apply_pin_state _ _ _ _ s) as [b s1] eqn:E. apply rtc_once. eapply checked_pin_state; [|exact E].
    apply (Hp i p). by left. }
  destruct one as [f1 s1]. specialize (IH slots flags s1 ltac:(intros j q Hq; apply (Hp j q); by right)).
  destruct (pins_only_step page slots flags s1) as [fs s2]. by etransitivity.
Qed.
Lemma redo_checked rng here page slots written flags refused s fs s' :
  (forall i q, (i, Some q) ∈ page -> tidy_remote q) -> placed s ->
  redo_after_refusals rng here page slots written flags refused s = Ok (fs, s') -> rtc checked_step s s'.
Proof.
  revert slots written flags refused s fs s'.
  induction page as [|[i pin] page IH]; intros [|x slots] written [|f flags] refused s fs s' Hp Hs;
    cbn [redo_after_refusals]; try by intros [= _ <-].
  intros ([f1 s1] & H1 & H)%bind_ok.
  assert (Hs1 : rtc checked_step s s1).
  { destruct (ap_any f || _); [by injection H1 as _ <-|].
    destruct pin as [p|]; [eapply apply_remote_p2p_checked; [done|apply (Hp i p); by left|exact H1]|].
    apply bind_ok in H1 as ([c s2] & H1 & [= _ <-]). by eapply apply_remote_version_checked. }
  destruct (match x, written with Write _, b :: w => _ | _, w => _ end) as [refused1 written1].
  apply bind_ok in H as ([fs1 s2] & H & [= _ <-]). etransitivity; [exact Hs1|].
  eapply IH; [intros j q Hq; apply (Hp j q); by right|by eapply checked_placed|exact H].
Qed.
Lemma prepare_tidy rng here page local slots : (forall i q, (i, Some q) ∈ page -> tidy_remote q) ->
  map_Forall (fun _ v => tidy_version v) local -> prepare rng here page local = Ok slots -> Forall tidy_item (writes slots).
Proof.
  revert local slots; induction page as [|[i pin] page IH]; intros local slots Hp Hl; cbn [prepare]; [by intros [= <-]|].
  assert (Hp' : forall j q, (j, Some q) ∈ page -> tidy_remote q) by (intros j q Hq; apply (Hp j q); by right).
  destruct (payload_is_refused i); [intros (rest & Hr & [= <-])%bind_ok; cbn; by eapply IH|].
  cbn zeta. intros ([p|] & Hw & (rest & Hr & [= <-])%bind_ok)%bind_ok.
  - assert (Ht : tidy_item p).
    { eapply prepared_tidy; [exact Hw| |intros v Hv; by eapply Hl]. intros q b E. destruct pin as [q0|]; [|done].
      injection E as <- _. apply (Hp i q0). by left. }
    cbn. constructor; [done|]. eapply IH; [done| |exact Hr]. by apply map_Forall_insert_2.
  - unfold writes. cbn [omap list_omap]. destruct ((fun p => _) <$> pin) as [[p []]|]; by eapply IH.
Qed.
Lemma attempts_checked n rng here p2p page snapshot interference s fs s' :
  (forall i q, (i, Some q) ∈ page -> tidy_remote q) -> map_Forall (fun _ v => tidy_version v) snapshot ->
  (forall n s, rtc checked_step s (interference n s)) -> placed s ->
  attempts n rng here p2p page snapshot interference s = Ok (fs, s') -> rtc checked_step s s'.
Proof.
  intros Hq Hsn Hint. revert snapshot s Hsn; induction n as [|n IH]; intros snapshot s Hsn Hs; cbn [attempts]; [done|].
  intros (slots & Hp & H)%bind_ok. etransitivity; [apply (Hint n)|]. revert H. cbn zeta.
  pose proof (checked_placed _ _ (Hint n s) Hs) as Hs1.
  destruct (merge_page _ _ _ _) as [[written s1]|[e|m]] eqn:Em; [|done|].
  - intros (_ & H)%bind_unit_ok. pose proof (prepare_tidy _ _ _ _ _ Hq Hsn Hp) as Ht.
    pose proof (pins_only_checked page slots (applied_flags p2p slots written) s1 Hq) as Hpins.
    assert (Hm : rtc checked_step (interference n s) s1) by (apply rtc_once; eapply checked_page; [by eapply prepare_wiped|exact Ht|exact Em]).
    destruct (pins_only_step _ _ _ s1) as [flags s2]. cbn [snd] in Hpins. etransitivity; [exact Hm|]. etransitivity; [exact Hpins|].
    eapply redo_checked; [exact Hq| |exact H]. by eapply checked_placed, checked_placed.
  - apply IH; [|done]. revert Em. unfold merge_page. case_match; [by destruct (upsert_all _ _)|]. intros [= <-] k v Hv. by eapply placed_versions.
Qed.
Lemma apply_page_checked rng here p2p page interference s fs s' :
  (forall i q, (i, Some q) ∈ page -> tidy_remote q) -> (forall n s, rtc checked_step s (interference n s)) -> placed s ->
  apply_page rng here p2p page interference s = Ok (fs, s') -> rtc checked_step s s'.
Proof.
  intros Hq Hint Hs. unfold apply_page. destruct page as [|x page]; [by intros [= _ <-]|]. apply attempts_checked; [done| |done|done].
  intros k v Hv. by eapply placed_versions.
Qed.
End Merges.
