(* ===== verification/Source.v ===== *)
(** A device's history as a sync session sees it
    ([copypaste-core/src/sync/source.rs], the opening half of [sync/merge.rs],
    the row reads of [storage/model.rs] and [storage/versions.rs],
    [payload_metadata_for_sync] of [storage/source_icons.rs], and the retention
    gate of [core/retention.rs]): what is advertised, what is served, what is
    merged, and when retention runs. *)

From S2P Require Import Prelude Float64 Bytes Text Wire Binary Merge Payload Settings Credentials Workspace Prog Table Items ItemSafety Retention Organization Versions Scan LocalMerge LocalMergeSafety.

(** ** Rows as they are read *)

Record StoredItem := {
  st_id : string; st_ciphertext : bytes; st_nonce : bytes; st_type : string; st_hash : string;
  st_created_at : Z; st_pinned : bool; st_pin_order : option f64; st_pin_at : Z; st_deleted : bool;
  st_origin : string; st_app_id : option string; st_app_name : option string;
  st_metadata : option string; st_icon : option string;
}.
(** [joined_ciphertext]: the row's own bytes and the shared payload it refers
    to; nothing for a tombstone. *)
Definition joined_ciphertext (r : Row) (s : Store) : bytes :=
  match r_ciphertext r with
  | None => []
  | Some own => own ++ default [] (b ← file_payloads s !! r_id r; shared_payloads s !! b)
  end.
Definition row_to_item (r : Row) (s : Store) : StoredItem :=
  {| st_id := r_id r; st_ciphertext := joined_ciphertext r s; st_nonce := default [] (r_nonce r);
     st_type := r_type r; st_hash := r_hash r; st_created_at := r_created_at r; st_pinned := r_pinned r;
     st_pin_order := r_pin_order r; st_pin_at := r_pin_at r; st_deleted := r_deleted r;
     st_origin := r_origin r; st_app_id := r_app_id r; st_app_name := r_app_name r;
     st_metadata := r_metadata r; st_icon := r_icon r |}.
(** The other half of the view [sync_records]. *)
Definition organization_item (o : OrganizationRow) : StoredItem :=
  {| st_id := o_id o; st_ciphertext := o_ciphertext o; st_nonce := o_nonce o; st_type := CONTENT_TYPE;
     st_hash := o_hash o; st_created_at := o_created_at o; st_pinned := false; st_pin_order := None;
     st_pin_at := 0; st_deleted := false; st_origin := o_origin o; st_app_id := None; st_app_name := None;
     st_metadata := None; st_icon := None |}.
(** [Store::version] and [Store::versions]; unknown ids are left out, and in
    which order the rows come SQLite leaves open. *)
Definition version (id : string) (s : Store) : option StoredItem :=
  match items s !! id with
  | Some r => Some (row_to_item r s)
  | None => organization_item <$> organization s !! id
  end.
Definition versions (ids : list string) (s : Store) : list StoredItem :=
  omap (fun id => version id s) (remove_dups ids).

(** ** Opening a version *)

Inductive OpenVersionError := MissingPayload | AuthenticationFailed | OpenInvalidPayload.
Definition open_error (e : CryptoError) : OpenVersionError :=
  match e with AuthFailed => AuthenticationFailed | _ => OpenInvalidPayload end.

Section Open.
Context {PC : PayloadCodecs} {MJ : MetadataJson} {DG : Digest} {K : ItemKey}.
Definition open_version_bytes (r : StoredItem) : result OpenVersionError bytes :=
  if len (st_ciphertext r) =? 0 then Err MissingPayload
  else if is_binary (st_type r) then map_err open_error (open (st_ciphertext r) (st_id r))
  else if len (st_nonce r) =? 0 then Err MissingPayload
  else map_err open_error (decrypt (st_ciphertext r) (st_nonce r) (st_id r)).
Definition open_version (r : StoredItem) : result OpenVersionError string :=
  if negb (is_text (st_type r)) then Err MissingPayload
  else b ← open_version_bytes r; ok_or OpenInvalidPayload (from_utf8 b).

(** [payload_metadata_for_sync]: the icon is put back, the path of an imported
    file stays here. *)
Definition with_icon (i : option SourceAppIconMetadata) (m : PayloadMetadata) : PayloadMetadata :=
  {| credentials := credentials m; privacy := privacy m; secret_override := secret_override m;
     file := file m; source_app_icon := i |}.
Definition without_source (m : PayloadMetadata) : PayloadMetadata :=
  {| credentials := credentials m; privacy := privacy m; secret_override := secret_override m;
     file := (fun f => {| filename := filename f; mime_type := mime_type f; transfer := transfer f;
                          source_reference := None |}) <$> file m;
     source_app_icon := source_app_icon m |}.
End Open.

Section Metadata.
Context {PC : PayloadCodecs} {MJ : MetadataJson}.
Definition hydrated (i : StoredItem) (m : PayloadMetadata) (s : Store) : PayloadMetadata :=
  match (k ← st_icon i; icons s !! k) with
  | Some ic => match icon_png (ic_asset ic) with
               | Some _ => with_icon (Some (ic_asset ic)) m
               | None => m
               end
  | None => m
  end.
Definition payload_metadata_for_sync (i : StoredItem) (s : Store) : option string :=
  if st_deleted i then None
  else match (match st_metadata i with
              | None => Some no_metadata
              | Some j => match from_json j (st_type i) with
                          | Some m => Some m
                          | None => if is_text (st_type i)
                                    then Some (with_privacy (privacy_of (Some j)) no_metadata) else None
                          end
              end) with
       | None => st_metadata i
       | Some m => to_json (without_source (hydrated i m s)) (st_type i)
       end.
End Metadata.

(** ** The retention gate

    [RetentionGate]: sweeps of a burst of merges run together.  [tick] is the
    monotonic clock, in milliseconds, [now] the wall clock. *)

Record Gate := { last_run : option Z; trailing_scheduled : bool }.
Definition RETENTION_DEBOUNCE : Z := 250.
Definition stamp (tick : Z) (g : Gate) : Gate :=
  {| last_run := Some tick; trailing_scheduled := trailing_scheduled g |}.
Definition set_trailing (b : bool) (g : Gate) : Gate :=
  {| last_run := last_run g; trailing_scheduled := b |}.
Definition claim (tick : Z) (g : Gate) : bool * Gate :=
  if match last_run g with Some at_ => RETENTION_DEBOUNCE <=? tick - at_ | None => true end
  then (true, stamp tick g) else (false, g).

(** What retention reads of the settings. *)
Definition policy_of (c : ConfigData.t) : RetentionPolicy :=
  {| history_limit := ConfigData.history_limit c; retention_days := ConfigData.retention_days c;
     storage_quota_bytes := ConfigData.storage_quota_bytes c |}.

(** [enforce_retention_with]; the fuel covers every row ([retention_enforced]). *)
Definition sweep (c : ConfigData.t) (now : Z) (s : Store) : Store :=
  match enforce_retention (S (size (items s))) (policy_of c) now s with Some (_, s') => s' | None => s end.

(** The tasks [schedule_trailing_retention] spawned: those whose delay has not
    passed, and those that are about to sweep. *)
Record Tasks := { sleeping : nat; sweeping : nat }.
Record Source := { src_store : Store; src_gate : Gate; src_tasks : Tasks }.
(** [RetentionGate::default]. *)
Definition fresh_source (s : Store) : Source :=
  {| src_store := s; src_gate := {| last_run := None; trailing_scheduled := false |};
     src_tasks := {| sleeping := 0; sweeping := 0 |} |}.
(** Times at which a call reads its clocks. *)
Record Clock := { tick : Z; wall : Z }.
(** [schedule_trailing_retention]; [runtime]: a task can be spawned. *)
Definition schedule_trailing_retention (runtime : bool) (c : ConfigData.t) (t : Clock) (w : Source) : Source :=
  if trailing_scheduled (src_gate w) then w
  else if runtime
  then {| src_store := src_store w; src_gate := set_trailing true (src_gate w);
          src_tasks := {| sleeping := S (sleeping (src_tasks w)); sweeping := sweeping (src_tasks w) |} |}
  else {| src_store := sweep c (wall t) (src_store w);
          src_gate := stamp (tick t) (set_trailing false (src_gate w)); src_tasks := src_tasks w |}.
(** The task it spawned, once its delay has passed: first the gate ... *)
Definition trailing_wakes (t : Clock) (w : Source) : Source :=
  {| src_store := src_store w; src_gate := stamp (tick t) (set_trailing false (src_gate w));
     src_tasks := {| sleeping := pred (sleeping (src_tasks w)); sweeping := S (sweeping (src_tasks w)) |} |}.
(** ... then the sweep. *)
Definition trailing_sweeps (c : ConfigData.t) (t : Clock) (w : Source) : Source :=
  {| src_store := sweep c (wall t) (src_store w); src_gate := src_gate w;
     src_tasks := {| sleeping := sleeping (src_tasks w); sweeping := pred (sweeping (src_tasks w)) |} |}.
Definition source_enforce_retention (runtime : bool) (c : ConfigData.t) (t : Clock) (w : Source) : Source :=
  let '(mine, g) := claim (tick t) (src_gate w) in
  if mine then {| src_store := sweep c (wall t) (src_store w); src_gate := g; src_tasks := src_tasks w |}
  else schedule_trailing_retention runtime c t w.

(** ** Advertising and serving *)

Definition summary_from_version (v : Version) (device_id : string) : ItemSummary :=
  {| item_id := v_id v; created_at := v_created_at v; deleted := v_deleted v; content_hash := v_hash v;
     origin_device_id := origin_or (v_origin v) device_id; pinned := v_pinned v; pin_order := v_order v;
     pin_updated_at := v_pin_at v |}.
Definition settings_if_sync_enabled (c : ConfigData.t) : result SyncError ConfigData.t :=
  if ConfigData.sync_enabled c then Ok c else Err Cancelled.

Section Serve.
Context {PC : PayloadCodecs} {MJ : MetadataJson} {DG : Digest} {K : ItemKey}.
Definition to_wire (device_id : string) (r : StoredItem) (s : Store) : option SyncItem.t :=
  '(content, binary) ← (if st_deleted r then Some (""%string, [])
     else if is_binary (st_type r)
          then match open_version_bytes r with Ok b => Some (""%string, b) | Err _ => None end
          else match open_version r with Ok t => Some (t, []) | Err _ => None end);
  Some {| SyncItem.item_id := st_id r; SyncItem.content := content; SyncItem.binary_content := binary;
          SyncItem.payload_metadata := payload_metadata_for_sync r s;
          SyncItem.source_app_bundle_id := st_app_id r; SyncItem.source_app_name := st_app_name r;
          SyncItem.content_type := st_type r; SyncItem.created_at := st_created_at r;
          SyncItem.deleted := st_deleted r; SyncItem.content_hash := st_hash r;
          SyncItem.origin_device_id := origin_or (st_origin r) device_id; SyncItem.pinned := st_pinned r;
          SyncItem.pin_order := st_pin_order r; SyncItem.pin_updated_at := st_pin_at r |}.
Definition summary_page (c : ConfigData.t) (device_id : string) (since_ms : Z) (after_id : option string)
    (limit : nat) (s : Store) : result SyncError (list ItemSummary) :=
  _ ← settings_if_sync_enabled c;
  Ok ((fun v => summary_from_version v device_id) <$> summaries_since since_ms after_id limit s).
Definition local_summaries (c : ConfigData.t) (device_id : string) (ids : list string) (s : Store)
    : result SyncError (list ItemSummary) :=
  _ ← settings_if_sync_enabled c;
  Ok ((fun p => summary_from_version p.2 device_id) <$> map_to_list (version_summaries ids s)).
Definition fetch (c : ConfigData.t) (device_id : string) (ids : list string) (s : Store)
    : result SyncError (list SyncItem.t) :=
  _ ← settings_if_sync_enabled c;
  Ok (omap (fun r => to_wire device_id r s) (versions ids s)).
End Serve.

(** ** Merging *)

(** [Iterator::max_by_key]: the last of the greatest. *)
Definition max_by {A} (c : A -> A -> Datatypes.comparison) (l : list A) : option A :=
  foldl (fun best x => match best with
                       | Some b => match c b x with Gt => Some b | _ => Some x end
                       | None => Some x
                       end) None l.
Definition remote_of_item (i : SyncItem.t) : RemoteVersion :=
  {| rv_id := SyncItem.item_id i; rv_content := SyncItem.content i;
     rv_binary := match SyncItem.binary_content i with [] => None | b => Some b end;
     rv_metadata := SyncItem.payload_metadata i; rv_type := SyncItem.content_type i;
     rv_created_at := SyncItem.created_at i; rv_deleted := SyncItem.deleted i;
     rv_hash := Some (SyncItem.content_hash i); rv_origin := SyncItem.origin_device_id i;
     rv_app_id := SyncItem.source_app_bundle_id i; rv_app_name := SyncItem.source_app_name i |}.
Definition pin_of_item (i : SyncItem.t) : P2pPin :=
  {| pp_pinned := SyncItem.pinned i; pp_order := SyncItem.pin_order i;
     pp_updated_at := SyncItem.pin_updated_at i |}.
Definition merge_error (e : MergeError) : SyncError :=
  Diagnostic match e with
             | MergeStore => SyncIssueCode.HistoryUnavailable
             | StoreCause code => code
             | MergeEncrypt => SyncIssueCode.EncryptionUnavailable
             | MergeTooLarge => SyncIssueCode.ItemsTooLarge
             end.

(** What the platform is told: the floor the upload cursor is lowered to, and
    the newest clip received.  [hooks] says which of the two is listened to. *)
Record Effects := { floor : option Z; clip_received : option StoredItem }.
Record Hooks := { on_applied : bool; on_clip_received : bool }.
Definition no_effects : Effects := {| floor := None; clip_received := None |}.

Definition clipboard_floor (h : Hooks) (s : Store) : Z :=
  if negb (on_clip_received h) then i64_max
  else match newest_live_key s with Some (_, at_) => at_ | None => i64_min end.
Definition notify_clip_received (h : Hooks) (device_id : string) (floor_ms : Z) (l : list RemoteVersion) (s : Store)
    : option StoredItem :=
  if negb (on_clip_received h) then None
  else
    newest ← max_by (cmp_on (fun i => (rv_created_at i, rv_id i)) key_cmp)
      (List.filter (fun i => negb (String.eqb (rv_type i) CONTENT_TYPE) && negb (rv_deleted i)
                             && negb (String.eqb (rv_origin i) device_id) && (floor_ms <? rv_created_at i)) l);
    r ← get (rv_id newest) s;
    if r_created_at r =? rv_created_at newest then Some (row_to_item r s) else None.

(** The versions a page reports as stored, and the oldest of their stamps. *)
Definition stored_versions {A} (page : list A) (stored : list bool) : list A :=
  fst <$> List.filter snd (zip page stored).
Definition oldest_stamp (l : list RemoteVersion) : option Z :=
  match l with
  | [] => None
  | i :: l => Some (foldl (fun m j => Z.min m (rv_created_at j)) (rv_created_at i) l)
  end.

Section Apply.
Context {PC : PayloadCodecs} {MJ : MetadataJson} {DG : Digest} {OC : OrgCodec} {K : ItemKey}
        {CC : CredentialCodecs} {OJ : OfferJson}.
Context (c : ConfigData.t) (h : Hooks) (device_id : string) (runtime : bool) (rng : string -> bytes * bytes).

(** What follows a page of which [applied] was stored. *)
Definition after_page (t : Clock) (clip_floor : Z) (applied : list RemoteVersion) (w : Source) : Effects * Source :=
  match oldest_stamp applied with
  | None => (no_effects, w)
  | Some f =>
    let w := source_enforce_retention runtime c t w in
    ({| floor := if on_applied h then Some f else None;
        clip_received := notify_clip_received h device_id clip_floor applied (src_store w) |}, w)
  end.
Definition with_store (s : Store) (w : Source) : Source :=
  {| src_store := s; src_gate := src_gate w; src_tasks := src_tasks w |}.

(** [apply_batch] of a peer session, [apply_versions] and [apply_version] of the
    cloud.  The whole page is one call; what other writers do meanwhile is
    [interference]. *)
Definition apply_batch (items : list SyncItem.t) (t : Clock) (interference : nat -> Store -> Store) (w : Source)
    : result SyncError (list bool * Effects * Source) :=
  match items with
  | [] => Ok ([], no_effects, w)
  | _ =>
    _ ← settings_if_sync_enabled c;
    let page := remote_of_item <$> items in
    let clip_floor := clipboard_floor h (src_store w) in
    '(outcomes, s) ← map_err merge_error
       (apply_page rng device_id true (zip page ((fun i => Some (pin_of_item i)) <$> items)) interference (src_store w));
    let '(effects, w) := after_page t clip_floor (stored_versions page (ap_content <$> outcomes)) (with_store s w) in
    Ok (ap_any <$> outcomes, effects, w)
  end.
Definition apply_versions (page : list RemoteVersion) (t : Clock) (interference : nat -> Store -> Store) (w : Source)
    : result MergeError (list bool * Effects * Source) :=
  let clip_floor := clipboard_floor h (src_store w) in
  '(outcomes, s) ← apply_page rng device_id false ((fun i => (i, None)) <$> page) interference (src_store w);
  let '(effects, w) := after_page t clip_floor (stored_versions page (ap_any <$> outcomes)) (with_store s w) in
  Ok (ap_any <$> outcomes, effects, w).
Definition apply_version (i : RemoteVersion) (t : Clock) (w : Source) : result MergeError (bool * Effects * Source) :=
  let clip_floor := clipboard_floor h (src_store w) in
  '(stored, s) ← apply_remote_version rng device_id i (src_store w);
  let '(effects, w) := after_page t clip_floor (if (stored : bool) then [i] else []) (with_store s w) in
  Ok (stored, effects, w).
End Apply.
