(* ===== verification/SourceSafety.v ===== *)
(** What the source of a sync session promises: what it serves has the summary
    it advertises, what it received it can open and hand on, and no merge escapes
    the retention policy. *)

From S2P Require Import Prelude Float64 Bytes Text Wire Binary Merge Payload Settings Credentials Workspace Prog Table Items ItemSafety Retention Organization Versions Scan LocalMerge LocalMergeSafety Source.

(** ** What is served is what was advertised *)

Lemma elem_of_versions ids s r :
  r ∈ versions ids s -> exists id, id ∈ ids /\ version id s = Some r.
Proof. unfold versions. intros (id & Hid & Hv)%list_elem_of_omap. exists id. by rewrite <- elem_of_remove_dups. Qed.

Section Serve.
Context {PC : PayloadCodecs} {MJ : MetadataJson} {DG : Digest} {K : ItemKey}.
Lemma to_wire_fields here r s w :
  to_wire here r s = Some w ->
  SyncItem.summary w = {| item_id := st_id r; created_at := st_created_at r; deleted := st_deleted r;
    content_hash := st_hash r; origin_device_id := origin_or (st_origin r) here; pinned := st_pinned r;
    pin_order := st_pin_order r; pin_updated_at := st_pin_at r |} /\
  SyncItem.content_type w = st_type r /\
  (st_deleted r = true -> SyncItem.content w = ""%string /\ SyncItem.binary_content w = [] /\
                          SyncItem.payload_metadata w = None).
Proof.
  unfold to_wire. intros ([content binary] & Hc & [= <-])%bind_Some. split_and!; [done..|].
  intros Hd. rewrite Hd in Hc. injection Hc as <- <-. cbn. unfold payload_metadata_for_sync. by rewrite Hd.
Qed.
Lemma version_has_summary here id s r :
  tables_ok s -> version id s = Some r ->
  st_id r = id /\ exists v, version_summary id s = Some v /\ summary_from_version v here =
    {| item_id := st_id r; created_at := st_created_at r; deleted := st_deleted r;
       content_hash := st_hash r; origin_device_id := origin_or (st_origin r) here; pinned := st_pinned r;
       pin_order := st_pin_order r; pin_updated_at := st_pin_at r |}.
Proof.
  intros [Hk Ho _]. unfold version, version_summary. destruct (items s !! id) as [q|] eqn:E.
  - intros [= <-]. split; [exact (Hk _ _ E)|]. by exists (row_version q).
  - destruct (organization s !! id) as [o|] eqn:Eo; intros [= <-]. split; [exact (Ho _ _ Eo)|].
    by exists (organization_version o).
Qed.
Lemma fetch_one c here id s r w :
  ConfigData.sync_enabled c = true -> version id s = Some r -> to_wire here r s = Some w -> fetch c here [id] s = Ok [w].
Proof.
  intros Hc Hv Hw. unfold fetch, settings_if_sync_enabled, versions. rewrite Hc.
  change (remove_dups [id]) with [id]. cbn [mbind result_bind omap list_omap]. rewrite Hv. cbn -[to_wire]. by rewrite Hw.
Qed.
End Serve.

(** ** Payloads of a write *)

Lemma write_row_payloads r s :
  file_payloads s !! r_id r = None ->
  file_payloads (write_row r s) !! r_id r = None /\ shared_payloads (write_row r s) = shared_payloads s.
Proof.
  intros Hf. unfold write_row, after_change.
  assert (Hr : forall o t, file_payloads (release_unused o t) = file_payloads t /\
                           shared_payloads (release_unused o t) = shared_payloads t).
  { intros o t. destruct o; cbn; [case_match|]; done. }
  match goal with |- context [release_unused ?o ?t] => destruct (Hr o t) as [H1 H2] end.
  cbn in H1, H2. case_match; cbn; rewrite ?H1, ?H2; [|done].
  split; [apply lookup_delete_eq|]. by rewrite Hf.
Qed.
(** Every link belongs to a row that is stored as a reference. *)
Definition links_ok (s : Store) : Prop :=
  forall id, is_Some (file_payloads s !! id) ->
    exists q c, items s !! id = Some q /\ r_ciphertext q = Some c /\ is_reference c = true.
(** A write whose bytes are no reference leaves no link under its id, and every
    write leaves a shared payload or releases it. *)
Lemma release_icon_payloads o t :
  file_payloads (release_unused o t) = file_payloads t /\ shared_payloads (release_unused o t) = shared_payloads t.
Proof. destruct o; cbn; [case_match|]; done. Qed.
Lemma write_row_unlinks r q s :
  items s !! r_id r = Some q -> r_ciphertext q <> r_ciphertext r -> file_payloads (write_row r s) !! r_id r = None.
Proof.
  intros Hq Hc. unfold write_row, after_change, payload_changed. rewrite Hq, bool_decide_eq_false_2 by done. cbn.
  apply lookup_delete_eq.
Qed.
Lemma write_row_links r s :
  links_ok s -> (forall c, r_ciphertext r = Some c -> is_reference c = false) ->
  file_payloads (write_row r s) !! r_id r = None.
Proof.
  intros Hl Hr. destruct (file_payloads s !! r_id r) as [h|] eqn:E; [|by apply write_row_payloads].
  destruct (Hl (r_id r) ltac:(by eexists)) as (q & c & Hq & Hc & Href). apply (write_row_unlinks r q); [done|].
  rewrite Hc. intros He. symmetry in He. apply Hr in He. congruence.
Qed.
Lemma write_row_shared r s h :
  shared_payloads (write_row r s) !! h = None \/ shared_payloads (write_row r s) !! h = shared_payloads s !! h.
Proof.
  unfold write_row, after_change.
  match goal with |- context [release_unused ?o ?t] => pose proof (proj2 (release_icon_payloads o t)) as Hs end. cbn in Hs.
  case_match; cbn; rewrite !Hs; [|by right]. case_match; [|by right]. case_match; [by right|].
  rewrite lookup_delete. case_decide; [by left|by right].
Qed.
Lemma write_same_payload r q s :
  items s !! r_id r = Some q -> r_ciphertext q = r_ciphertext r ->
  file_payloads (write_row r s) = file_payloads s /\ shared_payloads (write_row r s) = shared_payloads s.
Proof.
  intros Hq Hc. unfold write_row, after_change, payload_changed. rewrite Hq, Hc, bool_decide_eq_true_2 by done. cbn.
  match goal with |- context [release_unused ?o _] => destruct o end; cbn; [case_match|]; done.
Qed.
Lemma pin_projection_payloads id s :
  keyed (items s) ->
  file_payloads (apply_pin_projection id s) = file_payloads s /\
  shared_payloads (apply_pin_projection id s) = shared_payloads s.
Proof.
  intros Hk. unfold apply_pin_projection. destruct (pin_states s !! id); [|done].
  destruct (items s !! id) as [r|] eqn:E; [|done]. case_match; [|done].
  apply (write_same_payload _ r); cbn; [|done]. by rewrite (Hk _ _ E).
Qed.

Lemma split_parts e pre blob : split e = Some (pre, blob) -> e = pre ++ blob.
Proof.
  unfold split. case_match; [done|]. destruct (from_be <$> get_range e 28 4); [|done]. cbn.
  case_match; [done|]. unfold split_at. case_match; [done|]. intros [= <- <-]. by rewrite take_drop.
Qed.

Section Received.
Context {PC : PayloadCodecs} {MJ : MetadataJson} {DG : Digest} {OC : OrgCodec} {K : ItemKey}
        {CC : CredentialCodecs} {OJ : OfferJson}.

(** A write that was taken is read back with the whole ciphertext; a payload
    that is shared under its hash stands in for its own. *)
Definition stored_form (e : bytes) (o : option bytes) : bytes :=
  match split e with Some (pre, blob) => pre ++ default blob o | None => e end.
Lemma linked_form id hash e t s' r :
  link id hash e t = Ok s' -> (split e = None -> file_payloads t !! id = None) ->
  r_ciphertext r = Some (row_ciphertext e) -> r_id r = id ->
  joined_ciphertext r s' = stored_form e (shared_payloads t !! hash).
Proof.
  intros Hl Hn Hrc Hid. unfold joined_ciphertext, stored_form. rewrite Hrc, Hid. revert Hl Hn. clear.
  unfold row_ciphertext, link. destruct (split e) as [[pre blob]|] eqn:Es.
  - destruct blob as [|x blob]; [discriminate|]. intros [= <-] _. unfold with_payloads. cbn [file_payloads shared_payloads].
    rewrite lookup_insert_eq. cbn [mbind option_bind]. f_equal.
    destruct (shared_payloads t !! hash) as [blob'|] eqn:Eb; cbn [default];
      [exact (f_equal (default []) Eb)|].
    exact (f_equal (default []) (lookup_insert_eq (shared_payloads t) hash (x :: blob))).
  - intros [= <-] Hn. rewrite (Hn eq_refl). cbn [mbind option_bind default]. by rewrite app_nil_r.
Qed.
Lemma accepted_links p s s' r s1 s2 : accepted p s s' r s1 s2 -> links_ok s -> links_ok s2.
Proof.
  intros [(m & icon & Hn & _) Hi _ _ _ _ _ [Hp1 _] _] Hl id. rewrite Hp1, Hi. intros Hid.
  destruct (Hl id Hid) as (q & c & Hq & Hc & Hr). destruct (i_deleted p).
  - injection Hn as _ _ <-. by exists q, c.
  - pose proof (normalise_rows _ _ _ _ _ _ _ _ id Hn) as Hk. rewrite Hq in Hk. destruct Hk as (q' & Hq' & Hsb).
    exists q', c. apply same_but_icon_kept in Hsb as (Hk & _ & _). unfold kept in Hk. split_and!; [done|congruence|done].
Qed.
Lemma upsert_reads_back `{!MetadataLaws} p s s' e :
  store_ok s -> i_type p <> CONTENT_TYPE -> upsert_in_tx p s = Ok (Some s') -> i_deleted p = false ->
  i_ciphertext p = Some e -> links_ok s -> (split e = None -> is_reference e = false) ->
  exists r o, items s' !! i_id p = Some r /\
    joined_ciphertext r s' = stored_form e o /\ (o = None \/ o = shared_payloads s !! i_hash p) /\ r_id r = i_id p /\
    r_nonce r = i_nonce p /\ r_type r = i_type p /\ r_hash r = i_hash p /\ r_deleted r = false /\
    r_origin r = i_origin p /\ r_app_id r = i_app_id p /\ r_app_name r = i_app_name p.
Proof.
  intros Hs Ht Hu Hd He Hf Href. destruct (upsert_in_tx_accepted p s s' Ht Hu) as (Hrec & r & s1 & s2 & Ha).
  destruct (accepted_row p s s' r s1 s2 Hs Ha) as ((r' & Hr' & Hsb & _) & _).
  pose proof (accepted_links _ _ _ _ _ _ Ha Hf) as Hl2.
  pose proof Ha as [(m & icon & Hn & m' & stamp & k & _ & _ & _ & Hrow) Hi _ _ _ _ _ [Hp1 Hp2] Hl].
  assert (Hid : r_id r = i_id p) by by subst r.
  assert (Hfields : r_ciphertext r' = r_ciphertext r /\ r_id r' = r_id r /\ r_nonce r' = r_nonce r /\ r_type r' = r_type r /\
                    r_hash r' = r_hash r /\ r_deleted r' = r_deleted r /\ r_origin r' = r_origin r /\
                    r_app_id r' = r_app_id r /\ r_app_name r' = r_app_name r).
  { unfold same_but_pin, set_pin in Hsb. injection Hsb. clear -Hsb. intros. split_and!; first [assumption|symmetry; assumption]. }
  assert (Hid' : r_id r' = i_id p) by (rewrite <- Hid; apply Hfields).
  destruct Hfields as (Hct & _ & Hf1 & Hf2 & Hf3 & Hf4 & Hf5 & Hf6 & Hf7).
  assert (Hkey : keyed (items (write_row r s2))).
  { rewrite items_write_row, Hi. apply rows_keyed_insert.
    destruct (i_deleted p); [by injection Hn as _ _ <-; apply Hs|]. by eapply normalise_ok in Hn as [[? _ _ _ _] _]. }
  destruct (pin_projection_payloads (i_id p) _ Hkey) as [P1 P2].
  assert (Hrc : r_ciphertext r = Some (row_ciphertext e)) by (rewrite Hrow; unfold incoming_row; cbn [r_ciphertext]; by rewrite He).
  cbn zeta in Hl. rewrite He in Hl.
  exists r', (shared_payloads (apply_pin_projection (i_id p) (write_row r s2)) !! i_hash p). split; [exact Hr'|].
  split; [|split; [rewrite P2, <- Hp2; apply write_row_shared|]].
  - apply (linked_form (i_id p)); [exact Hl| |by rewrite Hct|exact Hid'].
    intros Es. rewrite P1, <- Hid. apply write_row_links; [done|]. rewrite Hrc. intros c [= <-].
    unfold row_ciphertext. rewrite Es. by apply Href.
  - rewrite Hf1, Hf2, Hf3, Hf4, Hf5, Hf6, Hf7, Hid', Hrow. unfold incoming_row.
    cbn [r_nonce r_type r_hash r_deleted r_origin r_app_id r_app_name]. by rewrite Hd.
Qed.

(** ** Opening what was received *)

Context {KL : ItemKeyLaws} {DL : DigestLaws}.

(** What the shared payload of a hash may be: the bytes of that hash, sealed
    once under the id every reference to them names. *)
Definition shared_seal (b : bytes) (s : Store) : Prop :=
  forall blob, shared_payloads s !! plaintext_content_hash b = Some blob ->
    exists stream_nonce, len stream_nonce = STREAM_NONCE_LEN /\
      seal_with_digest stream_nonce b (sha256 b) (plaintext_content_hash b) = Ok blob.

Lemma seal_no_parts stream_nonce b id e :
  len stream_nonce = STREAM_NONCE_LEN -> seal stream_nonce b id = Ok e -> split e = None.
Proof.
  intros Hn He. destruct (open_sealed _ _ _ _ Hn He) as [_ Hm%not_both_magics]. unfold split. by rewrite Hm.
Qed.
(** A reference opens with any seal of its bytes. *)
Lemma reference_shares nonce stream_nonce b id e :
  len nonce = NONCE_LEN -> len stream_nonce = STREAM_NONCE_LEN ->
  reference_seal nonce stream_nonce b (sha256 b) id = Ok e ->
  exists pre blob, split e = Some (pre, blob) /\ open (pre ++ blob) id = Ok b /\
    forall stream_nonce' blob', len stream_nonce' = STREAM_NONCE_LEN ->
      seal_with_digest stream_nonce' b (sha256 b) (plaintext_content_hash b) = Ok blob' ->
      open (pre ++ blob') id = Ok b.
Proof.
  intros Hn Hs He. pose proof He as He'. revert He'. unfold reference_seal.
  intros ([n r] & Henc & (blob & Hb & Hfin%ok_inj)%bind_ok)%bind_ok.
  destruct (aead_open nonce _ id n r Hn Henc) as (-> & _ & Hl).
  rewrite len_as_bytes, hex_length, sha256_length in Hl.
  assert (Hsp : split e = Some (REFERENCE_MAGIC ++ nonce ++ to_be 4 (len r) ++ r, blob)).
  { subst e. apply split_reference; [done|lia]. }
  assert (Happ : forall x, (REFERENCE_MAGIC ++ nonce ++ to_be 4 (len r) ++ r) ++ x
                           = REFERENCE_MAGIC ++ nonce ++ to_be 4 (len r) ++ r ++ x) by (intros; by rewrite <- !app_assoc).
  eexists _, _. split; [exact Hsp|]. rewrite Happ, Hfin. split; [by apply (open_either_envelope nonce stream_nonce); auto|].
  intros sn' blob' Hsn' Hb'. rewrite Happ. apply (open_either_envelope nonce sn'); [done..|]. right.
  unfold reference_seal. rewrite Henc. cbn [mbind result_bind]. unfold plaintext_content_hash in Hb'. by rewrite Hb'.
Qed.

(** The stored form of a live version opens to its bytes. *)
Lemma sealed_reads_back rng i n c s :
  (let '(nonce, stream_nonce) := rng (rv_id i) in len nonce = NONCE_LEN /\ len stream_nonce = STREAM_NONCE_LEN) ->
  rv_deleted i = false -> seal_remote rng i = Ok (n, c) -> shared_seal (rv_bytes i) s ->
  (is_binary (rv_type i) = false -> forall e, c = Some e -> is_reference e = false) ->
  exists e, c = Some e /\ (split e = None -> is_reference e = false) /\
  (forall o, o = None \/ o = shared_payloads s !! plaintext_content_hash (rv_bytes i) ->
   (if is_binary (rv_type i) then open (stored_form e o) (rv_id i)
    else decrypt (stored_form e o) (default [] n) (rv_id i)) = Ok (rv_bytes i) /\ len (stored_form e o) <> 0 /\
   (is_binary (rv_type i) = false -> len (default [] n) <> 0)).
Proof.
  unfold seal_remote. intros Hrng -> Hseal Hsh Href. destruct (rng (rv_id i)) as [nonce sn]. destruct Hrng as [Hn Hs].
  assert (Hne : forall x id, open x id = Ok (rv_bytes i) -> len x <> 0).
  { intros [|? ?] id Ho; [discriminate Ho|]. unfold len. cbn. lia. }
  destruct (is_binary (rv_type i)).
  - apply bind_ok in Hseal as (e & He%map_err_ok & [= <- <-]). exists e. split; [done|].
    assert (Hop : (split e = None -> is_reference e = false) /\
                  forall o, o = None \/ o = shared_payloads s !! plaintext_content_hash (rv_bytes i) ->
                    open (stored_form e o) (rv_id i) = Ok (rv_bytes i)).
    2: { destruct Hop as [H1 Hop]. split; [exact H1|]. intros o Ho. split_and!; [by apply Hop|by eapply Hne, Hop|done]. }
    unfold stored_form. destruct (str_starts_with IMPORT_ID_PREFIX (rv_id i)).
    + destruct (reference_shares _ _ _ _ _ Hn Hs He) as (pre & blob & Hsp & Ho & Hoth). rewrite Hsp. split; [done|].
      intros o [->|Hob]; [done|]. destruct o as [blob'|]; [|done]. symmetry in Hob.
      destruct (Hsh _ Hob) as (sn' & Hsn' & Hb'). exact (Hoth sn' blob' Hsn' Hb').
    + destruct (open_sealed _ _ _ _ Hs He) as [Ho Hm%not_both_magics]. rewrite (seal_no_parts _ _ _ _ Hs He).
      split; [done|]. intros o _. exact (open_either_envelope nonce sn _ _ _ Hn Hs (or_introl He)).
  - apply bind_ok in Hseal as ([n' e] & He%map_err_ok & [= <- <-]). exists e. split; [done|].
    pose proof (Href eq_refl e eq_refl) as Hnr. split; [done|].
    assert (Hsp : split e = None) by (unfold split; by rewrite Hnr).
    destruct (aead_open nonce _ _ n' e Hn He) as (-> & Hd & Hl). unfold stored_form. rewrite Hsp. intros o _.
    split_and!; [done| |exact (fun _ => eq_ind_r (fun z => z <> 0) (ltac:(done) : NONCE_LEN <> 0) Hn)]. pose proof (len_nonneg (rv_bytes i)). unfold TAG_LEN in Hl. lia.
Qed.

(** What travels of the row of a received version. *)
Lemma received_to_wire here i r s :
  st_deleted r = false -> st_type r = rv_type i -> st_id r = rv_id i ->
  len (st_ciphertext r) <> 0 -> (is_binary (rv_type i) = false -> len (st_nonce r) <> 0) ->
  (if is_binary (rv_type i) then open (st_ciphertext r) (rv_id i)
   else decrypt (st_ciphertext r) (st_nonce r) (rv_id i)) = Ok (rv_bytes i) ->
  (is_binary (rv_type i) = false -> rv_binary i = None /\ utf8_valid (as_bytes (rv_content i)) = true) ->
  exists w, to_wire here r s = Some w /\
    (if is_binary (rv_type i) then SyncItem.binary_content w = rv_bytes i
     else SyncItem.content w = rv_content i /\ SyncItem.binary_content w = []).
Proof.
  intros Hd Ht Hid Hc Hn Ho Htext. unfold to_wire, open_version, open_version_bytes. rewrite Hd, Ht, Hid.
  rewrite (proj2 (Z.eqb_neq _ _) Hc). unfold is_binary in *. destruct (is_text (rv_type i)); cbn [negb] in *.
  - destruct (Htext eq_refl) as [Hb Hu]. rewrite (proj2 (Z.eqb_neq _ _) (Hn eq_refl)), Ho.
    cbn [map_err mbind result_bind]. unfold rv_bytes, from_utf8. rewrite Hb. cbn [default].
    change (default (as_bytes (rv_content i)) None) with (as_bytes (rv_content i)). rewrite Hu, of_as_bytes.
    eexists. by split; [reflexivity|].
  - rewrite Ho. eexists. by split; [reflexivity|].
Qed.
End Received.

(** What is prepared of a live version. *)
Lemma prepared_seal {PC : PayloadCodecs} {MJ : MetadataJson} {DG : Digest} {OC : OrgCodec} {K : ItemKey} {CC : CredentialCodecs}
    {OJ : OfferJson} rng here i pin local p :
  rv_deleted i = false -> prepare_remote_version rng here i pin local = Ok (Some p) ->
  seal_remote rng i = Ok (i_nonce p, i_ciphertext p) /\ i_id p = rv_id i /\ i_type p = rv_type i /\
  i_hash p = plaintext_content_hash (rv_bytes i) /\ i_deleted p = false /\ i_origin p = rv_origin i.
Proof.
  intros Hd. unfold prepare_remote_version. destruct (match organization_text i with Some _ => _ | None => _ end);
    cbn [negb]; [|done]. intros (_ & H)%bind_unit_ok. cbn zeta in H.
  destruct (match local with Some l => _ | None => false end); [done|].
  apply bind_ok in H as ([nonce c] & Hseal & H).
  destruct (remote_pin i pin local) as [[q o] at_]. apply ok_inj in H. injection H as <-. cbn.
  split_and!; try done. unfold remote_content_hash. by rewrite Hd.
Qed.

(** ** Retention behind the gate *)

(** What [enforce_retention] leaves. *)
Definition obeys (p : RetentionPolicy) (now : Z) (s : Store) : Prop :=
  (count s <= history_limit p \/ lone s) /\ (unpinned_bytes s <= storage_quota_bytes p \/ lone s) /\
  (0 < retention_days p -> forall k r, items s !! k = Some r -> unpinned r = true ->
     now - retention_days p * DAY_MS <= r_created_at r).
Lemma sweep_obeys {PC : PayloadCodecs} {MJ : MetadataJson} c now s :
  store_ok s -> sizes_ok s -> 0 <= history_limit (policy_of c) -> 0 <= storage_quota_bytes (policy_of c) ->
  obeys (policy_of c) now (sweep c now s) /\ store_ok (sweep c now s) /\ sizes_ok (sweep c now s).
Proof.
  intros Hs Hz Hl Hq. unfold sweep.
  destruct (retention_bounds (S (size (items s))) (policy_of c) now s Hs Hz Hl Hq ltac:(lia))
    as (n & s' & -> & Hsh & _ & _ & H). split; [exact H|].
  split; [exact (sh_ok _ _ Hsh Hs)|exact (proj1 (sizes_shrunk _ _ Hz Hsh))].
Qed.

(** A merge that left the store [s], or a spawned task reaching its gate or its
    sweep. *)
Inductive GateEvent := Merged (t : Clock) (s : Store) | Wakes (t : Clock) | Sweeps (t : Clock).
Definition gate_step (runtime : bool) (c : ConfigData.t) (w : Source) (e : GateEvent) : Source :=
  match e with
  | Merged t s => source_enforce_retention runtime c t (with_store s w)
  | Wakes t => match sleeping (src_tasks w) with O => w | S _ => trailing_wakes t w end
  | Sweeps t => match sweeping (src_tasks w) with O => w | S _ => trailing_sweeps c t w end
  end.
Definition is_merge (e : GateEvent) : bool := match e with Merged _ _ => true | _ => false end.
Definition merge_ok {PC : PayloadCodecs} {MJ : MetadataJson} (e : GateEvent) : Prop :=
  match e with Merged _ s => store_ok s /\ sizes_ok s | _ => True end.
(** The flag says that one task sleeps. *)
Definition one_sleeper (w : Source) : Prop :=
  sleeping (src_tasks w) = if trailing_scheduled (src_gate w) then 1%nat else 0%nat.
(** What the gate owes: nothing, because the history obeys the policy, or a
    sweep that a task will make. *)
Definition settled {PC : PayloadCodecs} {MJ : MetadataJson} (c : ConfigData.t) (w : Source) : Prop :=
  (exists now, obeys (policy_of c) now (src_store w)) \/ (0 < sleeping (src_tasks w) + sweeping (src_tasks w))%nat.

Section Gate.
Context {PC : PayloadCodecs} {MJ : MetadataJson} (runtime : bool) (c : ConfigData.t).
Context (Hl : 0 <= history_limit (policy_of c)) (Hq : 0 <= storage_quota_bytes (policy_of c)).

(** The store is well formed, one task at most sleeps, and once something was
    merged, the gate is settled; before that it has never run. *)
Record gate_ok (merged : bool) (w : Source) : Prop := {
  gate_store : store_ok (src_store w);
  gate_sizes : sizes_ok (src_store w);
  gate_sleeper : one_sleeper w;
  gate_settled : if merged then settled c w
                 else last_run (src_gate w) = None /\ src_tasks w = {| sleeping := 0; sweeping := 0 |};
}.
Lemma swept_settled t s g k : store_ok s -> sizes_ok s ->
  settled c {| src_store := sweep c (wall t) s; src_gate := g; src_tasks := k |}.
Proof. intros Hs Hz. left. exists (wall t). by apply sweep_obeys. Qed.

Lemma merge_step_ok b t s w : store_ok s -> sizes_ok s -> gate_ok b w -> gate_ok true (gate_step runtime c w (Merged t s)).
Proof.
  intros Hs Hz [_ _ H1 _]. destruct (sweep_obeys c (wall t) s Hs Hz Hl Hq) as (_ & Hs' & Hz').
  cbn [gate_step]. unfold source_enforce_retention, claim, schedule_trailing_retention, one_sleeper in *.
  cbn [with_store src_gate src_store src_tasks].
  destruct (match last_run (src_gate w) with Some _ => _ | None => _ end); [split; [done..|exact H1|by apply swept_settled]|].
  destruct (trailing_scheduled (src_gate w)) eqn:Et.
  - split; [done|done| |]; unfold one_sleeper, settled; cbn; rewrite ?Et, H1; [done|right; lia].
  - destruct runtime; (split; [done|done| |]); unfold one_sleeper; cbn [src_gate src_tasks set_trailing stamp trailing_scheduled sleeping].
    + by rewrite H1.
    + right. cbn. lia.
    + done.
    + by apply swept_settled.
Qed.
Lemma gate_step_ok b w e : merge_ok e -> gate_ok b w -> gate_ok (b || is_merge e) (gate_step runtime c w e).
Proof.
  destruct e as [t s|t|t]; cbn [merge_ok is_merge].
  - intros [Hs Hz] Hw. rewrite orb_true_r. by apply (merge_step_ok b).
  - intros _ Hw. rewrite orb_false_r. pose proof Hw as [Hs Hz H1 Hset]. cbn [gate_step].
    unfold one_sleeper in H1. destruct (sleeping (src_tasks w)) as [|n] eqn:En; [done|].
    destruct (trailing_scheduled (src_gate w)); [|done]. injection H1 as ->.
    split; [done|done| |]; [unfold one_sleeper; cbn; by rewrite En|].
    destruct b; [right; cbn; lia|]. destruct Hset as [_ Hk]. by rewrite Hk in En.
  - intros _ Hw. rewrite orb_false_r. pose proof Hw as [Hs Hz H1 Hset]. cbn [gate_step].
    destruct (sweeping (src_tasks w)) as [|n] eqn:En; [done|].
    destruct (sweep_obeys c (wall t) _ Hs Hz Hl Hq) as (_ & Hs' & Hz'). split; [done|done|exact H1|].
    destruct b; [by apply swept_settled|]. destruct Hset as [_ Hk]. by rewrite Hk in En.
Qed.
Lemma gate_run_ok l : forall b w,
  Forall merge_ok l -> gate_ok b w -> gate_ok (b || existsb is_merge l) (foldl (gate_step runtime c) w l).
Proof.
  induction l as [|e l IH]; intros b w Hl' Hw; cbn; [by rewrite orb_false_r|].
  apply Forall_cons in Hl' as [He Hl']. rewrite orb_assoc. by apply IH, gate_step_ok.
Qed.
Lemma fresh_gate_ok s : store_ok s -> sizes_ok s -> gate_ok false (fresh_source s).
Proof. by split. Qed.
End Gate.

(** ** Properties *)

Section Properties.
Context {PC : PayloadCodecs} {MJ : MetadataJson} {DG : Digest} {OC : OrgCodec} {K : ItemKey}
        {CC : CredentialCodecs} {OJ : OfferJson}.

(** C28: whatever a device serves from a well-formed history is a version it was
    asked for, with the summary the same history advertises of it, field by field;
    it serves nothing while sync is switched off, and a deleted item travels without
    content, without payload and without metadata. *)
Theorem served_items_match_their_summaries c here ids s l w :
  tables_ok s -> fetch c here ids s = Ok l -> w ∈ l ->
  ConfigData.sync_enabled c = true /\ SyncItem.item_id w ∈ ids /\
  (exists v, version_summary (SyncItem.item_id w) s = Some v /\ summary_from_version v here = SyncItem.summary w) /\
  (SyncItem.deleted w = true -> SyncItem.content w = ""%string /\ SyncItem.binary_content w = [] /\
                                SyncItem.payload_metadata w = None).
Proof.
  intros Ht. unfold fetch, settings_if_sync_enabled. destruct (ConfigData.sync_enabled c); [|done]. cbn [mbind result_bind].
  intros [= <-] (r & (id & Hid & Hv)%elem_of_versions & Hw)%list_elem_of_omap.
  destruct (version_has_summary here id s r Ht Hv) as (He & v & Hsum & Hfields).
  destruct (to_wire_fields _ _ _ _ Hw) as (Hs & _ & Hdel).
  assert (Hi : SyncItem.item_id w = id) by exact (eq_trans (f_equal item_id Hs) He).
  rewrite Hi, Hs, <- Hfields. split_and!; [done|done|by exists v|].
  intros Hd. apply Hdel. exact (eq_trans (eq_sym (f_equal deleted Hs)) Hd).
Qed.

(** C9: a live clip that a well-formed history takes from a peer, new or an update
    of a stored one, can be opened again and is handed on to the next device with
    the bytes, the id, the type, the origin and the content hash it came with, its
    stamp moved by one at most; also when its payload is already shared by another
    item of the same content, and when the version it replaces was a link to another
    payload. Sync is switched on when it is handed on; the record is no organization
    document; a text is valid UTF-8 and brings no binary payload; the nonces drawn
    have their lengths and a text is sealed into bytes that do not begin with the
    mark of a reference; a shared payload under its hash is a sealing of the same
    bytes, and every link belongs to a row stored as a reference. *)
Theorem received_version_is_handed_on `{!MetadataLaws, !ItemKeyLaws, !DigestLaws} c rng here i s s' :
  ConfigData.sync_enabled c = true -> store_ok s -> tables_split s -> links_ok s ->
  rv_deleted i = false -> rv_type i <> CONTENT_TYPE ->
  (len (rng (rv_id i)).1 = NONCE_LEN /\ len (rng (rv_id i)).2 = STREAM_NONCE_LEN) ->
  (is_binary (rv_type i) = false -> rv_binary i = None /\ utf8_valid (as_bytes (rv_content i)) = true /\
     forall n e, seal_remote rng i = Ok (n, Some e) -> is_reference e = false) ->
  shared_seal (rv_bytes i) s ->
  apply_remote_version rng here i s = Ok (true, s') ->
  exists w, fetch c here [rv_id i] s' = Ok [w] /\
    SyncItem.item_id w = rv_id i /\ SyncItem.content_type w = rv_type i /\ SyncItem.deleted w = false /\
    SyncItem.content_hash w = plaintext_content_hash (rv_bytes i) /\
    SyncItem.origin_device_id w = origin_or (rv_origin i) here /\
    (if is_binary (rv_type i) then SyncItem.binary_content w = rv_bytes i
     else SyncItem.content w = rv_content i /\ SyncItem.binary_content w = []) /\
    (SyncItem.created_at w = rv_created_at i \/ SyncItem.created_at w = i64_saturating_add (rv_created_at i) 1).
Proof.
  intros Hen Hs Ht Hf Hd Hty Hrng Htext Hsh Ha.
  destruct (apply_remote_version_spec _ _ _ _ _ _ Hs Ht Ha) as (_ & _ & (v & Hv & Hland) & _).
  revert Ha. unfold apply_remote_version. destruct (payload_is_refused i); [done|]. unfold apply_with_pin_state.
  intros ([p|] & Hp & Hu)%bind_ok; [|done]. apply map_err_ok in Hu. unfold upsert in Hu.
  apply bind_ok in Hu as ([s1|] & Hu & Heq); [|done]. apply ok_inj in Heq. injection Heq as ->.
  destruct (prepared_seal _ _ _ _ _ _ Hd Hp) as (Hseal & Hid & Hpt & Hh & Hdp & Hop).
  destruct (sealed_reads_back rng i (i_nonce p) (i_ciphertext p) s) as (e & He & Href & Hopen);
    [by destruct (rng (rv_id i))|done..| |].
  { intros Hb e He. apply (Htext Hb) with (n := i_nonce p). by rewrite Hseal, He. }
  destruct (upsert_reads_back p s s' e Hs) as (r & o & Hr & Hj & Hsho & Hrid & Hrn & Hrt & Hrh & Hrd & Hro & _);
    [by rewrite Hpt|done..|].
  rewrite Hh in Hsho. destruct (Hopen o Hsho) as (Ho & Hne & Hnn). rewrite <- Hj in Ho, Hne.
  destruct (received_to_wire here i (row_to_item r s') s') as (w & Hw & Hbytes); cbn [row_to_item st_deleted st_type st_id st_ciphertext st_nonce];
    [congruence|congruence|congruence|done|by rewrite Hrn|by rewrite Hrn|by intros Hb; destruct (Htext Hb) as (? & ? & _)|].
  rewrite Hid in Hr. exists w. split.
  { apply (fetch_one _ _ _ _ (row_to_item r s')); [done| |done]. unfold version. by rewrite Hr. }
  destruct (to_wire_fields _ _ _ _ Hw) as (Hsum & Hct & _).
  unfold version_summary in Hv. rewrite Hr in Hv. injection Hv as <-.
  destruct Hland as (_ & _ & _ & Hstamp). cbn in Hstamp.
  pose proof (f_equal item_id Hsum) as E1. pose proof (f_equal deleted Hsum) as E2.
  pose proof (f_equal content_hash Hsum) as E3. pose proof (f_equal origin_device_id Hsum) as E4.
  pose proof (f_equal created_at Hsum) as E5. cbn in E1, E2, E3, E4, E5.
  rewrite E1, E2, E3, E4, E5, Hct. cbn [row_to_item st_type].
  rewrite Hrid, Hrt, Hrd, Hrh, Hro, Hid, Hpt, Hop, Hh. split_and!; try done. destruct Hstamp as [?|[_ ?]]; auto.
Qed.

(** C33: no merge escapes the retention policy. From a fresh gate over any
    well-formed history, however merges that leave it well formed (and its sizes in
    an i64), the tasks they spawn and the clocks interleave, under one set of
    settings whose limits are not negative: once something was merged, the history
    obeys the policy as of its last sweep or a task that will sweep it is there,
    whose sweep makes it obey; no sweep is scheduled twice, as at most one task
    sleeps, exactly while the gate's flag is up; and where tasks can be spawned a
    merge within 250 ms of a sweep evicts nothing itself but leaves such a task. *)
Theorem no_merge_escapes_retention runtime c s0 l :
  0 <= history_limit (policy_of c) -> 0 <= storage_quota_bytes (policy_of c) ->
  store_ok s0 -> sizes_ok s0 -> Forall merge_ok l ->
  let w := foldl (gate_step runtime c) (fresh_source s0) l in
  (existsb is_merge l = true ->
     (exists now, obeys (policy_of c) now (src_store w)) \/ (0 < sleeping (src_tasks w) + sweeping (src_tasks w))%nat) /\
  (forall t t', (0 < sleeping (src_tasks w))%nat ->
     obeys (policy_of c) (wall t') (src_store (gate_step runtime c (gate_step runtime c w (Wakes t)) (Sweeps t')))) /\
  (forall t, (0 < sweeping (src_tasks w))%nat ->
     obeys (policy_of c) (wall t) (src_store (gate_step runtime c w (Sweeps t)))) /\
  sleeping (src_tasks w) = (if trailing_scheduled (src_gate w) then 1%nat else 0%nat) /\
  (forall t s at_, last_run (src_gate w) = Some at_ -> tick t - at_ < RETENTION_DEBOUNCE -> runtime = true ->
     let d := gate_step runtime c w (Merged t s) in src_store d = s /\ sleeping (src_tasks d) = 1%nat).
Proof.
  intros Hl Hq Hs Hz Hall w. pose proof (gate_run_ok runtime c Hl Hq l false _ Hall (fresh_gate_ok c s0 Hs Hz)) as Hw.
  cbn [orb] in Hw. fold w in Hw. clearbody w. destruct Hw as [Hws Hwz H1 Hset]. split_and!.
  - intros Hm. by rewrite Hm in Hset.
  - intros t t' Hn. cbn [gate_step]. destruct (sleeping (src_tasks w)); [lia|]. by apply sweep_obeys.
  - intros t Hn. cbn [gate_step]. destruct (sweeping (src_tasks w)); [lia|]. by apply sweep_obeys.
  - exact H1.
  - intros t s at_ Hat Hlt ->. cbn [gate_step]. unfold source_enforce_retention, claim. cbn [with_store src_gate src_store].
    rewrite Hat, (proj2 (Z.leb_gt _ _) Hlt). unfold schedule_trailing_retention, one_sleeper in *. cbn [src_gate src_store with_store].
    destruct (trailing_scheduled (src_gate w)); cbn; by rewrite H1.
Qed.

(** What a change of settings sets off is never missed: the new settings are
    the patched ones and valid; the capture epoch moves exactly when what may be
    captured changes, the private-mode epoch exactly when the patch names private
    mode, neither wraps; and a history that obeyed the old retention policy obeys
    the new one unless a sweep is asked for. *)
Theorem settings_change_takes_effect p c private_epoch capture_epoch t :
  valid c -> prepare_transition c private_epoch capture_epoch p = Ok t ->
  config t = overlay p c /\ valid (config t) /\
  private_mode_epoch t = private_epoch + (if ConfigPatch.private_mode p then 1 else 0) /\
  (capture_privacy_epoch t = capture_epoch /\ capture_privacy_changed (config t) c = false \/
   capture_privacy_epoch t = capture_epoch + 1 /\ capture_epoch < u64_max /\
     capture_privacy_changed (config t) c = true) /\
  (should_enforce_retention t = false ->
   forall now s, obeys (policy_of c) now s -> obeys (policy_of (config t)) now s).
Proof.
  intros Hc. unfold prepare_transition.
  intros (n & [-> Hp]%map_err_ok%apply_ok & (pe & Hpe & (ce & Hce & Ht%ok_inj)%bind_ok)%bind_ok)%bind_ok.
  subst t. cbn [config private_mode_epoch capture_privacy_epoch].
  split; [done|]. split; [by apply overlay_valid|].
  assert (Hbump : forall b (e e' : Z), bump_epoch b e = Ok e' -> e' = e + (if b then 1 else 0) /\ (b = true -> e < u64_max)).
  { intros b e e'. unfold bump_epoch. destruct b.
    - intros [He Hlt]%ok_or_ok%u64_checked_succ_some. by split.
    - intros [= <-]. split; [lia|done]. }
  apply Hbump in Hpe as [-> _]. apply Hbump in Hce as [-> Hmax].
  split; [by destruct (ConfigPatch.private_mode p)|]. split.
  - destruct (capture_privacy_changed (overlay p c) c); [right|left]; split_and!; try done; [by apply Hmax|lia].
  - unfold should_enforce_retention, policy_tightened. cbn [before config].
    intros [[Hq Hl]%orb_false_iff Hd]%orb_false_iff. apply Z.ltb_ge in Hq, Hl.
    rewrite andb_false_iff, orb_false_iff, Z.ltb_ge, Z.ltb_ge, Z.eqb_neq in Hd. intros now s (H1 & H2 & H3). unfold obeys, policy_of in *. cbn [history_limit storage_quota_bytes retention_days] in *.
    split_and!; [destruct H1; [left; lia|by right]|destruct H2; [left; lia|by right]|].
    intros Hpos k r Hk Hu. destruct Hd as [Hd|[Hz Hd]]; [lia|].
    pose proof (valid_days c Hc) as [Hge _]. cbn in Hge. specialize (H3 ltac:(lia) k r Hk Hu). unfold DAY_MS in *. lia.
Qed.
End Properties.

(** ** Witnesses *)

Lemma split_tables {PC : PayloadCodecs} {MJ : MetadataJson} s : store_ok s -> tables_split s -> tables_ok s.
Proof.
  intros [[Hk _ _ _ _] _] [Hi Ho]. split; [exact Hk|intros k o Hko; apply (Ho k o Hko)|].
  intros k. destruct (items s !! k) eqn:E; [right|by left].
  destruct (organization s !! k) eqn:Eo; [|done]. apply Hi in E. apply Ho in Eo as [Eo _]. congruence.
Qed.
#[local] Existing Instances HistoryDemo.codecs HistoryDemo.json HistoryDemo.laws
  OrgDemo.codec BinaryDemo.key BinaryDemo.key_laws BinaryDemo.digest BinaryDemo.digest_laws no_codecs MergeDemo.offers.
Module SourceDemo.
Definition settings : ConfigData.t := default_config.
(** An image imported as a file, whose payload is shared. *)
Definition image : RemoteVersion :=
  {| rv_id := "file-import-1"; rv_content := ""; rv_binary := Some (as_bytes "pixels"); rv_metadata := None;
     rv_type := "image/png"; rv_created_at := 9000; rv_deleted := false; rv_hash := None; rv_origin := "peer";
     rv_app_id := None; rv_app_name := None |}.
Definition received := apply_remote_version MergeDemo.rng "here" image empty_store.
Definition history : Store := match received with Ok (_, s) => s | Err _ => empty_store end.
Lemma received_it : received = Ok (true, history).
Proof.
  unfold history. destruct received as [[b s]|e] eqn:E; [|vm_compute in E; discriminate E].
  destruct b; [reflexivity|vm_compute in E; discriminate E].
Qed.
Lemma empty_split : tables_split empty_store.
Proof. split; [by intros k r|by intros k o]. Qed.
Lemma history_ok : store_ok history /\ tables_split history.
Proof.
  destruct (apply_remote_version_spec _ _ _ _ _ _ HistoryDemo.empty_ok empty_split received_it) as (? & ? & _).
  by split.
Qed.
(** A later version of it that is a text. *)
Definition described : RemoteVersion :=
  {| rv_id := "file-import-1"; rv_content := "pixels"; rv_binary := None; rv_metadata := None;
     rv_type := "text/plain"; rv_created_at := 9500; rv_deleted := false; rv_hash := None; rv_origin := "peer";
     rv_app_id := None; rv_app_name := None |}.
Definition updating := apply_remote_version MergeDemo.rng "here" described history.
Definition updated : Store := match updating with Ok (_, s) => s | Err _ => empty_store end.
Lemma updated_it : updating = Ok (true, updated).
Proof.
  unfold updated. destruct updating as [[b s]|e] eqn:E; [|vm_compute in E; discriminate E].
  destruct b; [reflexivity|vm_compute in E; discriminate E].
Qed.
Lemma history_shared : shared_seal (rv_bytes described) history.
Proof.
  intros blob Hb. exists (MergeDemo.rng "file-import-1").2. split; [vm_compute; reflexivity|].
  vm_compute in Hb. injection Hb as <-. vm_compute. reflexivity.
Qed.
Lemma history_links : links_ok history.
Proof.
  intros id [h Hh].
  assert (Hs : exists h', file_payloads history = {["file-import-1"%string := h']}) by (eexists; vm_compute; reflexivity).
  destruct Hs as [h' Hs]. rewrite Hs in Hh. apply lookup_singleton_Some in Hh as [<- _].
  eexists _, _. split_and!; [vm_compute; reflexivity|reflexivity|vm_compute; reflexivity].
Qed.
(** A first merge sweeps, a second soon after it schedules a task. *)
Definition merges : list GateEvent :=
  [Merged {| tick := 0; wall := 0 |} empty_store; Merged {| tick := 100; wall := 100 |} HistoryDemo.three].
Definition clock (t : Z) : Clock := {| tick := t; wall := t |}.
End SourceDemo.

Lemma served_items_match_their_summaries_witness :
  exists w, fetch SourceDemo.settings "here" ["file-import-1"%string] SourceDemo.history = Ok [w] /\
    exists v, version_summary "file-import-1" SourceDemo.history = Some v /\
              summary_from_version v "here" = SyncItem.summary w.
Proof.
  destruct (fetch SourceDemo.settings "here" ["file-import-1"%string] SourceDemo.history) as [l|e] eqn:E;
    [|vm_compute in E; discriminate E].
  assert (Hl : exists w, l = [w] /\ SyncItem.item_id w = "file-import-1"%string).
  { destruct l as [|w [|x l]]; vm_compute in E; [discriminate E| |discriminate E].
    exists w. split; [reflexivity|]. injection E as <-. reflexivity. }
  destruct Hl as (w & -> & Hid). exists w. split; [reflexivity|].
  destruct (served_items_match_their_summaries SourceDemo.settings "here" ["file-import-1"%string] SourceDemo.history [w] w
              (split_tables _ (proj1 SourceDemo.history_ok) (proj2 SourceDemo.history_ok)) E ltac:(by left))
    as (_ & _ & Hs & _). rewrite Hid in Hs. exact Hs.
Defined.
(** An update of the image, whose link must not outlive its bytes. *)
Lemma received_version_is_handed_on_witness :
  is_Some (file_payloads SourceDemo.history !! "file-import-1"%string) /\
  exists w, fetch SourceDemo.settings "here" ["file-import-1"%string] SourceDemo.updated = Ok [w] /\
    SyncItem.content w = "pixels"%string /\ SyncItem.binary_content w = [].
Proof.
  split; [eexists; vm_compute; reflexivity|].
  destruct (received_version_is_handed_on SourceDemo.settings MergeDemo.rng "here" SourceDemo.described SourceDemo.history
              SourceDemo.updated) as (w & Hw & _ & _ & _ & _ & _ & Hb & _);
    [reflexivity|exact (proj1 SourceDemo.history_ok)|exact (proj2 SourceDemo.history_ok)|exact SourceDemo.history_links|
     reflexivity|discriminate|split; reflexivity| |exact SourceDemo.history_shared|exact SourceDemo.updated_it|].
  - intros _. split; [reflexivity|]. split; [vm_compute; reflexivity|]. intros n e He. vm_compute in He.
    injection He as _ <-. vm_compute. reflexivity.
  - exists w. exact (conj Hw Hb).
Defined.
Lemma empty_sizes : sizes_ok empty_store.
Proof. split; [by intros k r Hr|vm_compute; discriminate]. Qed.
Lemma no_merge_escapes_retention_witness :
  let w := foldl (gate_step true SourceDemo.settings) (fresh_source empty_store) SourceDemo.merges in
  sleeping (src_tasks w) = 1%nat /\ src_store w = HistoryDemo.three /\
  obeys (policy_of SourceDemo.settings) 400
    (src_store (gate_step true SourceDemo.settings
       (gate_step true SourceDemo.settings w (Wakes (SourceDemo.clock 350))) (Sweeps (SourceDemo.clock 400)))).
Proof.
  destruct (no_merge_escapes_retention true SourceDemo.settings empty_store [hd (Wakes (SourceDemo.clock 0)) SourceDemo.merges])
    as (_ & _ & _ & _ & H);
    [vm_compute; discriminate..|exact HistoryDemo.empty_ok|apply empty_sizes|constructor; [exact (conj HistoryDemo.empty_ok empty_sizes)|constructor]|].
  destruct (no_merge_escapes_retention true SourceDemo.settings empty_store SourceDemo.merges) as (_ & H2 & _);
    [vm_compute; discriminate..|exact HistoryDemo.empty_ok|apply empty_sizes| |].
  { constructor; [exact (conj HistoryDemo.empty_ok empty_sizes)|].
    constructor; [exact (conj HistoryDemo.three_ok RetentionDemo.three_sizes)|constructor]. }
  destruct (H (SourceDemo.clock 100) HistoryDemo.three 0) as [H3 H4]; [vm_compute; reflexivity..|].
  intros w. split; [exact H4|]. split; [exact H3|]. apply (H2 (SourceDemo.clock 350) (SourceDemo.clock 400)).
  change (sleeping (src_tasks _)) with (sleeping (src_tasks w)). pose proof (H4 : sleeping (src_tasks w) = 1%nat) as H5. rewrite H5. lia.
Defined.
Lemma settings_change_takes_effect_witness :
  exists t, prepare_transition default_config 7 3 (private_patch true) = Ok t /\
    private_mode_epoch t = 8 /\ capture_privacy_epoch t = 4.
Proof.
  destruct (prepare_transition default_config 7 3 (private_patch true)) as [t|e] eqn:E; [|vm_compute in E; discriminate E].
  exists t. split; [reflexivity|].
  destruct (settings_change_takes_effect (private_patch true) default_config 7 3 t default_valid E)
    as (_ & _ & Hp & Hc & _).
  split; [exact Hp|]. destruct Hc as [[_ Hf]|[Hc _]]; [|exact Hc].
  exfalso. vm_compute in E. injection E as <-. vm_compute in Hf. discriminate Hf.
Defined.
