(* ===== verification/Ingest.v ===== *)
(** How every captured item enters the history ([copypaste-core/src/ingest.rs],
    the content ids of [binary.rs], and the batches of [retention.rs]).

    What a call draws from outside — the random id, the nonces, the wall clock when
    the terminal sweep runs — is an argument. *)

From S2P Require Import Prelude Float64 Bytes Text Wire Binary Payload Settings Credentials Table Items ItemSafety Retention Versions Source SourceSafety.

(** [serde_json::to_string] of file metadata alone, and the spelling of a
    [uuid::Uuid] of 16 bytes. *)
Class FileJson := { serde_file_string : FileMetadata -> option string }.
Class Uuids := { uuid_string : bytes -> string }.

Inductive IngestError := Empty | TooLarge | Crypto (e : CryptoError) | InvalidMetadata | Storage (e : StoreError).
Inductive Ingested := Stored (r : Row) | Duplicate (r : Row).
Definition into_item (i : Ingested) : Row := match i with Stored r | Duplicate r => r end.
Definition ingested_of (i : Ingest) : Ingested :=
  match i with Inserted r => Stored r | Bumped r => Duplicate r end.

(** Whether a write pays for its own sweep; [Now] holds the settings its closure
    answers, and the clock the sweep reads. *)
Inductive Sweep := SweepNow (current : ConfigData.t) (wall : Z) | Deferred.
Definition swept (w : Sweep) (s : Store) : Store :=
  match w with SweepNow c wall => sweep c wall s | Deferred => s end.

(** What one capture draws: the id, the nonces of the two envelopes. *)
Record Draw := { dr_id : string; dr_nonce : bytes; dr_stream_nonce : bytes }.

(** ** Ids of binary values *)

Definition CAPTURE_ID_DOMAIN : bytes := as_bytes "copypaste/v2/binary-capture-id|".
Section Ids.
Context {DG : Digest} {UU : Uuids}.
Definition content_digest (b : bytes) : bytes := sha256 b.
Definition content_hash (digest : bytes) : string := hex_encode digest.
Definition item_id_from_digest (digest : bytes) : string := uuid_string (take 16 digest).
Definition item_id (b : bytes) : string := item_id_from_digest (content_digest b).
Definition capture_item_id_from_digest (digest : bytes) (content_type : string) : string :=
  uuid_string (take 16 (sha256 (CAPTURE_ID_DOMAIN ++ to_be 8 (str_len content_type)
                                ++ as_bytes content_type ++ digest))).
End Ids.

Section Ingest.
Context {PC : PayloadCodecs} {MJ : MetadataJson} {FJ : FileJson} {CC : CredentialCodecs}
        {DG : Digest} {K : ItemKey} {UU : Uuids}.

Definition encode_payload_metadata (metadata : option PayloadMetadata) (content_type : string)
    : result IngestError (option string) :=
  match metadata with
  | None => Ok None
  | Some m =>
    match source_app_icon m, file m with
    | None, Some f =>
      ok_or InvalidMetadata
        (json ← serde_file_string f;
         if (str_len json <=? MAX_SYNC_METADATA_BYTES)
            && match from_json json content_type with Some _ => true | None => false end
         then Some (Some json) else None)
    | _, _ => ok_or InvalidMetadata (json ← to_json m content_type; Some (Some json))
    end
  end.

(** ** Text *)

Definition text_item (d : Draw) (content content_type : string) (created_at : Z)
    (app_id app_name metadata : option string) : NewItem :=
  {| n_id := dr_id d; n_type := content_type; n_hash := plaintext_content_hash (as_bytes content);
     n_created_at := created_at; n_app_id := app_id; n_app_name := app_name; n_metadata := metadata |}.
Definition classified (content content_type : string) (metadata : option PayloadMetadata)
    : option PayloadMetadata :=
  match classify_credentials content_type content with
  | Some p => Some (credential_metadata p metadata)
  | None => metadata
  end.
Definition ingest_text (d : Draw) (content content_type : string) (created_at : Z)
    (app_id app_name : option string) (metadata : option PayloadMetadata) (settings : ConfigData.t)
    (w : Sweep) (s : Store) : result IngestError (Ingested * bool * Store) :=
  _ ← refuse_if (is_blank (as_bytes content)) Empty;
  _ ← refuse_if (str_len content >? capture_limit_bytes settings content_type) TooLarge;
  metadata ← encode_payload_metadata (classified content content_type metadata) content_type;
  '(i, changed, s) ← insert_or_bump_late_sealed Storage
     (text_item d content content_type created_at app_id app_name metadata)
     (if is_text content_type then Some content else None)
     (map_err Crypto (encrypt (dr_nonce d) (as_bytes content) (dr_id d))) s;
  Ok (ingested_of i, changed, swept w s).

(** The entry points, each the one below it with something left out. *)
Definition ingest_into_with_capture_source_metadata_with_current_retention (d : Draw)
    (content content_type : string) (created_at : Z) (app_id app_name : option string)
    (metadata : option PayloadMetadata) (settings current : ConfigData.t) (wall : Z) (s : Store)
    : result IngestError (Ingested * Store) :=
  '(i, _, s) ← ingest_text d content content_type created_at app_id app_name metadata settings
                 (SweepNow current wall) s;
  Ok (i, s).
Definition ingest_into_with_capture_source_metadata (d : Draw) (content content_type : string)
    (created_at : Z) (app_id app_name : option string) (metadata : option PayloadMetadata)
    (settings : ConfigData.t) (wall : Z) (s : Store) : result IngestError (Ingested * Store) :=
  ingest_into_with_capture_source_metadata_with_current_retention d content content_type created_at
    app_id app_name metadata settings settings wall s.
Definition ingest_into_with_capture_source (d : Draw) (content content_type : string) (created_at : Z)
    (app_id app_name : option string) (settings : ConfigData.t) (wall : Z) (s : Store)
    : result IngestError (Ingested * Store) :=
  ingest_into_with_capture_source_metadata d content content_type created_at app_id app_name None
    settings wall s.
Definition ingest_into (d : Draw) (content content_type : string) (created_at : Z)
    (settings : ConfigData.t) (wall : Z) (s : Store) : result IngestError (Ingested * Store) :=
  ingest_into_with_capture_source d content content_type created_at None None settings wall s.
Definition ingest_with_current_retention (d : Draw) (content content_type : string) (now : Z)
    (settings current : ConfigData.t) (wall : Z) (s : Store) : result IngestError (Ingested * Store) :=
  ingest_into_with_capture_source_metadata_with_current_retention d content content_type now None None
    None settings current wall s.
Definition ingest (d : Draw) (content content_type : string) (now : Z) (settings : ConfigData.t)
    (wall : Z) (s : Store) : result IngestError (Ingested * Store) :=
  ingest_with_current_retention d content content_type now settings settings wall s.

(** ** Binary values *)

Definition binary_item (content_type : string) (created_at : Z) (digest : bytes)
    (app_id app_name metadata : option string) : NewItem :=
  {| n_id := capture_item_id_from_digest digest content_type; n_type := content_type;
     n_hash := content_hash digest; n_created_at := created_at; n_app_id := app_id;
     n_app_name := app_name; n_metadata := metadata |}.
(** Everything up to the sweep. *)
Definition insert_binary (d : Draw) (b : bytes) (content_type : string) (created_at : Z)
    (app_id app_name : option string) (metadata : option PayloadMetadata) (settings : ConfigData.t)
    (s : Store) : result IngestError (Ingest * Store) :=
  _ ← refuse_if (len b =? 0) Empty;
  _ ← refuse_if (is_text content_type) Empty;
  _ ← refuse_if (len b >? capture_limit_bytes settings content_type) TooLarge;
  metadata ← encode_payload_metadata metadata content_type;
  let digest := content_digest b in
  let item := binary_item content_type created_at digest app_id app_name metadata in
  ciphertext ← map_err Crypto (seal_with_digest (dr_stream_nonce d) b digest (n_id item));
  map_err Storage (insert_or_bump item ciphertext [] None s).
Definition ingest_binary_into_with_capture_source_metadata (d : Draw) (b : bytes) (content_type : string)
    (created_at : Z) (app_id app_name : option string) (metadata : option PayloadMetadata)
    (settings : ConfigData.t) (wall : Z) (s : Store) : result IngestError (Ingested * Store) :=
  '(i, s) ← insert_binary d b content_type created_at app_id app_name metadata settings s;
  Ok (ingested_of i, sweep settings wall s).
Definition ingest_binary_into_with_capture_source (d : Draw) (b : bytes) (content_type : string)
    (created_at : Z) (app_id app_name : option string) (f : option FileMetadata)
    (settings : ConfigData.t) (wall : Z) (s : Store) : result IngestError (Ingested * Store) :=
  ingest_binary_into_with_capture_source_metadata d b content_type created_at app_id app_name
    ((fun f => {| credentials := false; privacy := no_privacy; secret_override := None; file := Some f;
                  source_app_icon := None |}) <$> f) settings wall s.

(** ** Batches *)

Inductive BatchPolicy := Static (c : ConfigData.t) | Dynamic (current : ConfigData.t).
Definition read_policy (p : BatchPolicy) : ConfigData.t := match p with Static c | Dynamic c => c end.
Record BatchScope := { batch_settings : ConfigData.t; batch_policy : BatchPolicy }.
Definition batch (settings : ConfigData.t) : BatchScope :=
  {| batch_settings := settings; batch_policy := Static settings |}.
Definition batch_with_current_policy (settings current : ConfigData.t) : BatchScope :=
  {| batch_settings := settings; batch_policy := Dynamic current |}.
Definition batch_sweep (b : BatchScope) (wall : Z) (s : Store) : Store := sweep (read_policy (batch_policy b)) wall s.
Definition finish (b : BatchScope) (wall : Z) (s : Store) : Store := batch_sweep b wall s.
Definition disarm (b : BatchScope) (s : Store) : Store := s.
(** The guard's drop: not while unwinding. *)
Definition drop_batch (unwinding : bool) (b : BatchScope) (wall : Z) (s : Store) : Store :=
  if unwinding then s else batch_sweep b wall s.

Definition ingest_into_batched (d : Draw) (b : BatchScope) (content content_type : string)
    (created_at : Z) (p : ClipboardPrivacy) (s : Store) : result IngestError (Ingested * bool * Store) :=
  ingest_text d content content_type created_at None None
    (if privacy_is_empty p then None else Some (with_privacy p no_metadata))
    (batch_settings b) Deferred s.
End Ingest.

(** ** The outcome of an insertion *)

Section Insertion.
Context {PC : PayloadCodecs} {MJ : MetadataJson} {DG : Digest}.

Lemma insert_fts_payloads id t ct s :
  file_payloads (insert_fts_in_tx id t ct s).2 = file_payloads s /\
  shared_payloads (insert_fts_in_tx id t ct s).2 = shared_payloads s.
Proof. unfold insert_fts_in_tx. by case_match. Qed.
(** A new row holds what was sealed for it, and nothing else is joined to it. *)
Lemma insert_or_bump_inserted {E} (of_store : StoreError -> E) item text seal s r c s' :
  store_ok s -> insert_or_bump_late_sealed of_store item text seal s = Ok (Inserted r, c, s') ->
  items s' !! r_id r = Some r /\ r_id r = n_id item /\ r_type r = n_type item /\ r_hash r = n_hash item /\
  r_created_at r = n_created_at item /\ r_deleted r = false /\ r_pinned r = false /\ r_origin r = ""%string /\
  (exists nonce ciphertext, seal = Ok (nonce, ciphertext) /\
     r_ciphertext r = Some ciphertext /\ r_nonce r = Some nonce) /\
  (file_payloads s !! n_id item = None -> file_payloads s' !! n_id item = None) /\ c = true.
Proof.
  intros Hs. unfold insert_or_bump_late_sealed. intros ([[m icon] s1] & Hno & H)%bind_ok. rewrite map_err_ok in Hno.
  pose proof (normalise_payloads _ _ _ _ _ _ _ _ Hno) as [Hf _]. revert H.
  destruct (newest_live_with_representation _ _ _ s1) as [ex|] eqn:En.
  { rewrite map_err_ok. unfold fold_into. destruct (bump_in_tx _ _ _ _ _ _) as [b s2].
    intros ([r2 s3] & _ & He)%bind_ok. discriminate He. }
  unfold insert_new. intros ([nonce ct] & Hseal & H)%bind_ok. revert H.
  destruct (match _ with Some t => insert_fts_in_tx _ t _ s1 | None => (None, s1) end) as [k s2] eqn:Ek.
  assert (Hfp : file_payloads s2 = file_payloads s1).
  { revert Ek. case_match; [|by intros [= <- <-]]. intros Ek.
    match type of Ek with insert_fts_in_tx ?i ?t ?ct ?w = _ =>
      pose proof (proj1 (insert_fts_payloads i t ct w)) as Hp end. by rewrite Ek in Hp. }
  destruct (insert_row _ s2) as [s3|] eqn:Ei.
  - intros [= <- <- <-]. apply insert_row_some in Ei as (Ha & _ & ->).
    split; [by rewrite items_write_row, lookup_insert_eq|]. split_and!; try reflexivity.
    + exists nonce, ct. by split_and!.
    + intros Hfree. eapply proj1, write_row_payloads. cbn. by rewrite Hfp, Hf.
  - destruct (find_in_bucket _ _ _ _) as [ex|]; [|done]. rewrite map_err_ok. unfold fold_after_race.
    destruct (bump_in_tx _ _ _ _ _ _) as [b s4]. intros ([r2 s5] & _ & He)%bind_ok. discriminate He.
Qed.

(** ** Insertions that cannot fail *)

Lemma dedup_key_some r h t b o : dedup_key r = Some (h, t, b, o) ->
  r_deleted r = false /\ r_hash r = h /\ r_type r = t /\ Z.quot (r_created_at r) DEDUP_WINDOW_MS = b /\ r_origin r = o.
Proof. unfold dedup_key. destruct (r_deleted r); [done|]. destruct (negb _ && _ && _); [|done]. intros [= <- <- <- <-]. done. Qed.
Lemma bucket_mono a b : a <= b -> Z.quot a DEDUP_WINDOW_MS <= Z.quot b DEDUP_WINDOW_MS.
Proof. apply Z.quot_le_mono. done. Qed.
(** The newest row of a representation moves forward without meeting another. *)
Lemma newest_moves_freely s old r :
  store_ok s -> holds s old -> r_id r = r_id old -> r_deleted r = r_deleted old -> r_hash r = r_hash old ->
  r_type r = r_type old -> r_origin r = r_origin old -> r_created_at old <= r_created_at r ->
  (forall k q, items s !! k = Some q -> r_deleted q = false -> r_hash q = r_hash old -> r_type q = r_type old ->
     r_created_at q <= r_created_at old) ->
  dedup_clash r s = false.
Proof.
  intros Hs Hh Ei Ed Eh Et Eo Hc Hnew. destruct (dedup_clash r s) eqn:E; [|done]. exfalso.
  apply dedup_clash_true in E as (q & k & [[[h t] b] o] & Hq & Hne & Hr & Hk).
  pose proof (dedup_key_some _ _ _ _ _ Hr) as (R1 & R2 & R3 & R4 & R5).
  pose proof (dedup_key_some _ _ _ _ _ Hk) as (Q1 & Q2 & Q3 & Q4 & Q5).
  assert (Hle : r_created_at q <= r_created_at old) by (apply (Hnew k); [done|done|congruence|congruence]).
  assert (Hb : Z.quot (r_created_at old) DEDUP_WINDOW_MS = b).
  { pose proof (bucket_mono _ _ Hle). pose proof (bucket_mono _ _ Hc). lia. }
  assert (Hold : dedup_key old = Some (h, t, b, o)).
  { revert Hr. unfold dedup_key. rewrite Ei, Ed, Eh, Et, Eo, R4, Hb. done. }
  pose proof (ok_dedup _ (ok_indexed _ Hs) _ _ _ _ _ Hq Hh Hk Hold) as ->.
  pose proof (ok_keyed _ (ok_indexed _ Hs) _ _ Hq). congruence.
Qed.
Lemma newest_of_representation s hash ct r k q :
  newest_live_with_representation hash ct i64_min s = Some r -> items s !! k = Some q -> r_deleted q = false ->
  r_hash q = hash -> r_type q = ct -> i64_min <= r_created_at q -> r_created_at q <= r_created_at r.
Proof.
  unfold newest_live_with_representation. destruct (String.eqb hash ""); [done|]. intros Hnew Hq Hl <- <- Hmin.
  assert (Hin : q ∈ List.filter (fun r => String.eqb (r_hash r) (r_hash q) && String.eqb (r_type r) (r_type q)
                                && (i64_min <=? r_created_at r) && is_live r) (rows s)).
  { apply list_elem_of_In, filter_In. split; [by eapply in_rows|]. unfold is_live.
    rewrite Hl, !String.eqb_refl. cbn. rewrite andb_true_r. by apply Z.leb_le. }
  pose proof (newest_is_newest _ _ Hnew q Hin) as Ho. unfold older, key_cmp, row_key, pair_cmp in Ho. cbn in Ho.
  destruct (Z.compare_spec (r_created_at q) (r_created_at r)); [lia|lia|done].
Qed.
Lemma bump_in_tx_others existing at_ a n i s r s' k :
  bump_in_tx existing at_ a n i s = (r, s') -> k <> r_id existing -> items s' !! k = items s !! k.
Proof.
  unfold bump_in_tx. case_match; [by intros [= _ <-]|].
  destruct (upsert_row _ s) as [s1|] eqn:E; intros [= _ <-]; [|done].
  apply upsert_row_some in E as [_ ->]. intros Hne. rewrite items_write_row. cbn. by rewrite lookup_insert_ne.
Qed.
Lemma refreshed_fields item combined creds rep s :
  let r := refreshed item combined creds rep s in
  r_id r = r_id item /\ r_deleted r = r_deleted item /\ r_hash r = r_hash item /\ r_type r = r_type item /\
  r_origin r = r_origin item /\ (r_created_at item <= i64_max -> r_created_at item <= r_created_at r).
Proof.
  unfold refreshed. cbn. split_and!; try reflexivity. intros Hm%i64_saturating_succ_le.
  match goal with |- _ <= (if ?b then _ else _) => destruct b end; lia.
Qed.
Lemma fold_into_succeeds existing item icon p creds text s :
  store_ok s -> in_range64 s -> n_created_at item <= i64_max ->
  newest_live_with_representation (n_hash item) (n_type item) i64_min s = Some existing ->
  (forall k q, items s !! k = Some q -> i64_min <= r_created_at q) ->
  exists o, fold_into existing item icon p creds text s = Ok o.
Proof.
  intros Hs Hr Hn Hnew Hmin. destruct (representation_found _ _ _ _ Hs Hnew) as (Hh & Hl & Hhash & Htype).
  unfold fold_into. destruct (bump_in_tx existing _ _ _ _ s) as [b s1] eqn:Eb.
  destruct (bump_in_tx_ok _ _ _ _ _ _ _ _ Hs Hh Eb) as (Hs1 & Hb & Hid & _ & _ & Hdb).
  destruct (bump_in_tx_kept _ _ _ _ _ _ _ _ Eb) as (Hk & Hc & _).
  assert (Hmax : r_created_at b <= i64_max).
  { revert Eb. unfold bump_in_tx. pose proof (Hr _ _ Hh). case_match; [by intros [= <- _]|].
    destruct (upsert_row _ s); intros [= <- _]; cbn; done. }
  unfold refresh_privacy. case_match; [by eexists|].
  match goal with |- context [upsert_row ?q s1] => set (r := q) end.
  assert (Hclash : dedup_clash r s1 = false).
  { unfold kept in Hk. injection Hk as K1 K2 K3 K4 K5 K6 K7 K8 K9 K10 K11.
    destruct (refreshed_fields b (combined_privacy b p) creds
                (match match r_metadata b, parsed_metadata (r_metadata b) (r_type b) with
                       | Some _, None => text | _, _ => None end with Some _ => true | None => false end) s1)
      as (F1 & F2 & F3 & F4 & F5 & F6).
    apply (newest_moves_freely s1 b); try assumption; [by apply F6|].
    intros k q Hq Q1 Q2 Q3. destruct (decide (k = r_id existing)) as [->|Hne].
    - rewrite <- Hid in Hq. unfold holds in Hb. rewrite Hb in Hq. injection Hq as <-. lia.
    - rewrite (bump_in_tx_others _ _ _ _ _ _ _ _ k Eb Hne) in Hq. transitivity (r_created_at existing); [|exact Hc].
      apply (newest_of_representation s (n_hash item) (n_type item) existing k q Hnew); try assumption; [congruence..|by apply (Hmin k)]. }
  assert (Hup : upsert_row r s1 = Some (write_row r s1)) by by apply upsert_row_some.
  rewrite Hup. cbn [mbind result_bind]. match goal with |- context [reindex ?a ?b ?c ?d] => destruct (reindex a b c d) end.
  by eexists.
Qed.
Lemma normalise_succeeds app ct at_ m s : exists o, normalise app ct at_ m s = Ok o.
Proof.
  unfold normalise. destruct (parsed_metadata m ct) as [p|] eqn:Ep; [|by eexists].
  destruct (source_app_icon p) as [icon|] eqn:Ei; [|by eexists].
  assert (Hpng : exists png, icon_png icon = Some png).
  { unfold parsed_metadata in Ep. destruct m as [j|]; [|done]. cbn in Ep. unfold from_json in Ep.
    case_match; [done|]. destruct (file_from_json j); [case_match; [|done]; by injection Ep as <-|].
    apply bind_Some in Ep as (m & _ & Hm). destruct (is_valid_for m ct) eqn:Ev; [|done]. injection Hm as ->.
    unfold is_valid_for, has_valid_components in Ev. rewrite Ei in Ev.
    destruct (icon_png icon) as [png|]; [by exists png|]. by rewrite andb_false_r in Ev. }
  destruct Hpng as [png ->]. destruct (non_empty app); by eexists.
Qed.
(** What is sealed under a free id is taken, whatever the history holds. *)
Lemma capture_succeeds {E} (of_store : StoreError -> E) item text nc s :
  store_ok s -> in_range64 s -> (forall k q, items s !! k = Some q -> i64_min <= r_created_at q) ->
  n_created_at item <= i64_max -> n_hash item <> ""%string -> items s !! n_id item = None ->
  exists o, insert_or_bump_late_sealed of_store item text (Ok nc) s = Ok o.
Proof.
  intros Hs Hr Hmin Hn Hhash Hfree. unfold insert_or_bump_late_sealed.
  destruct (normalise_succeeds (n_app_id item) (n_type item) (n_created_at item) (n_metadata item) s) as [[[m icon] s1] Hno].
  rewrite Hno. cbn [map_err mbind result_bind].
  pose proof (normalise_ok _ _ _ _ _ _ _ _ Hs Hno) as Hs1.
  assert (Hback : forall k q, items s1 !! k = Some q -> exists q0, items s !! k = Some q0 /\ r_created_at q0 = r_created_at q).
  { intros k q Hq. pose proof (normalise_rows _ _ _ _ _ _ _ _ k Hno) as Hk. destruct (items s !! k) as [q0|]; [|congruence].
    destruct Hk as (q' & Hq' & E0). exists q0. split; [done|]. apply same_but_icon_kept in E0 as (_ & E0 & _). congruence. }
  assert (Hr1 : in_range64 s1) by (intros k q (q0 & Hq0 & <-)%Hback; eauto).
  assert (Hmin1 : forall k q, items s1 !! k = Some q -> i64_min <= r_created_at q) by (intros k q (q0 & Hq0 & <-)%Hback; eauto).
  assert (Hfree1 : items s1 !! n_id item = None).
  { pose proof (normalise_rows _ _ _ _ _ _ _ _ (n_id item) Hno) as Hk. by rewrite Hfree in Hk. }
  destruct (newest_live_with_representation _ _ _ s1) as [ex|] eqn:En.
  - match goal with |- context [fold_into ex ?it ?ic ?p ?cr ?t s1] =>
      destruct (fold_into_succeeds ex it ic p cr t s1 Hs1 Hr1 Hn En Hmin1) as [o Ho]; rewrite Ho end. by eexists.
  - apply representation_absent in En; [|done|done]. unfold insert_new. destruct nc as [nonce ct]. cbn [mbind result_bind].
    destruct (match _ with Some t => insert_fts_in_tx _ t _ s1 | None => (None, s1) end) as [k s2] eqn:Ek.
    assert (Hi : items s2 = items s1).
    { revert Ek. case_match; [|by intros [= <- <-]]. intros Ek.
      match type of Ek with insert_fts_in_tx ?i ?t ?ct ?w = _ =>
        pose proof (proj1 (insert_fts_frame i t ct w)) as Hp end. by rewrite Ek in Hp. }
    match goal with |- context [insert_row ?q s2] => set (r := q) end.
    assert (Hin : insert_row r s2 = Some (write_row r s2)).
    { apply insert_row_some. split; [by rewrite Hi|]. split; [|done]. destruct (dedup_clash r s2) eqn:Ec; [|done]. exfalso.
      apply dedup_clash_true in Ec as (q & j & [[[h t] b] o] & Hq & _ & H1%dedup_key_some & H2%dedup_key_some).
      rewrite Hi in Hq. destruct H1 as (_ & H1 & H3 & _), H2 as (H4 & H5 & H6 & _).
      apply (En j q Hq); [exact H4|transitivity h; [exact H5|symmetry; exact H1]|transitivity t; [exact H6|symmetry; exact H3]]. }
    rewrite Hin. by eexists.
Qed.
End Insertion.

(** ** What a capture promises *)

Section Properties.
Context {PC : PayloadCodecs} {MJ : MetadataJson} {FJ : FileJson} {CC : CredentialCodecs}
        {DG : Digest} {K : ItemKey} {UU : Uuids} {DL : DigestLaws} {KL : ItemKeyLaws}.

Lemma hash_not_empty b : plaintext_content_hash b <> ""%string.
Proof.
  intros H. pose proof (hex_length (sha256 b)) as Hl. rewrite sha256_length in Hl.
  unfold plaintext_content_hash in H. rewrite H in Hl. discriminate Hl.
Qed.
Lemma ok_or_some {A E} (e : E) (o : option A) : match ok_or e o with Ok a => o = Some a | Err e' => o = None /\ e' = e end.
Proof. by destruct o. Qed.
Lemma encode_metadata_error m ct e : encode_payload_metadata m ct = Err e -> e = InvalidMetadata.
Proof.
  unfold encode_payload_metadata. destruct m as [m|]; [|done].
  destruct (source_app_icon m), (file m); cbn; intros H;
    match type of H with ok_or _ ?o = _ => destruct o end; try discriminate H; by injection H as <-.
Qed.

Lemma ingest_text_ok d content ct at_ app name m settings w s i c s' :
  ingest_text d content ct at_ app name m settings w s = Ok (i, c, s') ->
  is_blank (as_bytes content) = false /\ str_len content <= capture_limit_bytes settings ct /\
  exists json i0 s0, encode_payload_metadata (classified content ct m) ct = Ok json /\
    insert_or_bump_late_sealed Storage (text_item d content ct at_ app name json)
      (if is_text ct then Some content else None) (map_err Crypto (encrypt (dr_nonce d) (as_bytes content) (dr_id d))) s
      = Ok (i0, c, s0) /\ i = ingested_of i0 /\ s' = swept w s0.
Proof.
  unfold ingest_text. intros (Hb & (Hl & (json & Hj & ([[i0 c0] s0] & Hi & Hf%ok_inj)%bind_ok)%bind_ok)%bind_unit_ok)%bind_unit_ok.
  apply refuse_if_ok in Hb, Hl. injection Hf as <- <- <-. split_and!; [done|lia|]. exists json, i0, s0. by split_and!.
Qed.
Lemma insert_binary_ok d b ct at_ app name m settings s i s' :
  insert_binary d b ct at_ app name m settings s = Ok (i, s') ->
  len b <> 0 /\ is_text ct = false /\ len b <= capture_limit_bytes settings ct /\
  exists json e, encode_payload_metadata m ct = Ok json /\
    let item := binary_item ct at_ (content_digest b) app name json in
    seal_with_digest (dr_stream_nonce d) b (content_digest b) (n_id item) = Ok e /\
    exists c, insert_or_bump_late_sealed (fun e => e) item None (Ok ([], e)) s = Ok (i, c, s').
Proof.
  unfold insert_binary.
  intros (Hb & (Ht & (Hl & (json & Hj & (e & He & Hi)%bind_ok)%bind_ok)%bind_unit_ok)%bind_unit_ok)%bind_unit_ok.
  apply refuse_if_ok in Hb, Ht, Hl. apply map_err_ok in He, Hi. unfold insert_or_bump in Hi.
  apply bind_ok in Hi as ([[i0 c] s0] & Hi & Hf%ok_inj). injection Hf as <- <-.
  split_and!; [lia|done|lia|]. exists json, e. split_and!; try done. by exists c.
Qed.

Lemma own_payload r e s : r_ciphertext r = Some e -> file_payloads s !! r_id r = None -> joined_ciphertext r s = e.
Proof. intros He Hf. unfold joined_ciphertext. rewrite He, Hf. apply app_nil_r. Qed.
Lemma served_version c here r s w :
  ConfigData.sync_enabled c = true -> items s !! r_id r = Some r -> to_wire here (row_to_item r s) s = Some w ->
  fetch c here [r_id r] s = Ok [w] /\ SyncItem.content_hash w = r_hash r /\ SyncItem.content_type w = r_type r /\
  SyncItem.created_at w = r_created_at r /\ SyncItem.origin_device_id w = origin_or (r_origin r) here /\
  SyncItem.deleted w = r_deleted r.
Proof.
  intros Hc Hr Hw. split; [apply (fetch_one _ _ _ _ (row_to_item r s)); [done| |done]; unfold version; by rewrite Hr|].
  destruct (to_wire_fields _ _ _ _ Hw) as (Hsum & Ht & _).
  pose proof (f_equal deleted Hsum) as E2. pose proof (f_equal Wire.content_hash Hsum) as E3.
  pose proof (f_equal origin_device_id Hsum) as E4. pose proof (f_equal created_at Hsum) as E5. cbn in E2, E3, E4, E5.
  by rewrite E2, E3, E4, E5, Ht.
Qed.
Lemma text_to_wire here r s content nonce e :
  r_deleted r = false -> is_text (r_type r) = true -> joined_ciphertext r s = e -> r_nonce r = Some nonce ->
  len nonce <> 0 -> len e <> 0 -> decrypt e nonce (r_id r) = Ok (as_bytes content) ->
  utf8_valid (as_bytes content) = true ->
  exists w, to_wire here (row_to_item r s) s = Some w /\ SyncItem.content w = content /\ SyncItem.binary_content w = [].
Proof.
  intros Hd Ht Hj Hn Hnl Hel Hdec Hu. unfold to_wire, open_version, open_version_bytes, is_binary. cbn.
  rewrite Hd, Ht, Hj, Hn. cbn. rewrite (proj2 (Z.eqb_neq _ _) Hel), (proj2 (Z.eqb_neq _ _) Hnl), Hdec. cbn.
  unfold from_utf8. rewrite Hu, of_as_bytes. by eexists.
Qed.
Lemma binary_to_wire here r s b e :
  r_deleted r = false -> is_text (r_type r) = false -> joined_ciphertext r s = e -> open e (r_id r) = Ok b ->
  exists w, to_wire here (row_to_item r s) s = Some w /\ SyncItem.content w = ""%string /\ SyncItem.binary_content w = b.
Proof.
  intros Hd Ht Hj Ho. unfold to_wire, open_version_bytes, is_binary. cbn. rewrite Hd, Ht, Hj, Ho. cbn.
  assert (Hl : len e <> 0) by (destruct e; [discriminate Ho|unfold len; cbn; lia]).
  rewrite (proj2 (Z.eqb_neq _ _) Hl). by eexists.
Qed.

(** *** What a sweep leaves *)

(** [s'] has some of the rows of [s], unchanged, and no link [s] does not have. *)
Definition thinned (s s' : Store) : Prop :=
  items s' ⊆ items s /\ forall k, file_payloads s !! k = None -> file_payloads s' !! k = None.
#[export] Instance thinned_preorder : PreOrder thinned.
Proof.
  split; [by intros s; split|]. intros s1 s2 s3 [H1 F1] [H2 F2]. split; [by etrans|]. intros k Hk. by apply F2, F1.
Qed.
Lemma drop_row_thinned id s : thinned s (drop_row id s).
Proof.
  split; [rewrite items_drop_row; apply delete_subseteq|]. intros k Hk. unfold drop_row.
  destruct (items s !! id) as [r|]; [|done]. unfold after_change.
  match goal with |- context [release_unused ?o ?t] => pose proof (proj1 (release_icon_payloads o t)) as Hf end. cbn in Hf.
  cbn [payload_changed]. cbn. rewrite Hf. apply lookup_delete_None. by right.
Qed.
Lemma delete_fts_thinned id s : thinned s (delete_fts_row_in_tx id s).
Proof. unfold delete_fts_row_in_tx. by destruct (r ← items s !! id; r_fts r). Qed.
Lemma delete_batch_thinned ids s : thinned s (delete_batch ids s).2.
Proof.
  unfold delete_batch.
  assert (H1 : forall l t, thinned t (foldl (fun s id => delete_fts_row_in_tx id s) t l)).
  { induction l as [|id l IH]; intros t; cbn; [done|]. etrans; [apply (delete_fts_thinned id)|apply IH]. }
  assert (H2 : forall l n t, thinned t (foldl (fun '(n, s) id =>
            (n + match items s !! id with Some _ => 1 | None => 0 end, drop_row id s)) (n, t) l).2).
  { induction l as [|id l IH]; intros n t; cbn; [done|]. etrans; [apply (drop_row_thinned id)|apply IH]. }
  etrans; [apply H1|apply H2].
Qed.
Lemma hard_delete_thinned ids s : thinned s (hard_delete ids s).2.
Proof.
  unfold hard_delete. generalize (length ids) as fuel. intros fuel. revert ids s.
  induction fuel as [|fuel IH]; intros ids s; [done|]. cbn [hard_delete_in_tx]. destruct ids as [|id ids]; [done|].
  pose proof (delete_batch_thinned (take EVICTION_BATCH (id :: ids)) s) as Hb.
  destruct (delete_batch _ s) as [n s1]. cbn in Hb. pose proof (IH (drop EVICTION_BATCH (id :: ids)) s1) as Hr.
  destruct (hard_delete_in_tx _ _ s1) as [m s2]. by etrans.
Qed.
Lemma evict_batches_thinned cutoff fuel : forall n s m s', evict_batches fuel cutoff n s = Some (m, s') -> thinned s s'.
Proof.
  induction fuel as [|fuel IH]; intros n s m s'; [done|]. cbn [evict_batches].
  destruct (take EVICTION_BATCH _) as [|r l]; [by intros [= _ <-]|].
  pose proof (hard_delete_thinned (r_id <$> (r :: l)) s) as Hd. destruct (hard_delete _ s) as [k s1]. cbn in Hd.
  case_match; [by intros [= _ <-]|]. intros H1%IH. by etrans.
Qed.
Lemma sweep_thinned c wall s : thinned s (sweep c wall s).
Proof.
  unfold sweep. destruct (enforce_retention _ _ _ s) as [[n s']|] eqn:E; [|done]. revert E. unfold enforce_retention.
  assert (H1 : thinned s (evict_over_cap (history_limit (policy_of c)) s).2).
  { unfold evict_over_cap. case_match; [done|apply hard_delete_thinned]. }
  destruct (evict_over_cap _ s) as [a s1]. cbn in H1.
  assert (H2 : thinned s1 (evict_over_byte_cap (storage_quota_bytes (policy_of c)) s1).2).
  { unfold evict_over_byte_cap. case_match; [done|apply hard_delete_thinned]. }
  destruct (evict_over_byte_cap _ s1) as [b s2]. cbn in H2.
  case_match; [|intros [= _ <-]; by etrans]. intros ([k s3] & H3 & [= _ <-])%bind_Some.
  assert (Ht : thinned s2 s3).
  { revert H3. unfold evict_older_than. case_match; [apply evict_batches_thinned|by intros [= _ <-]]. }
  etrans; [exact H1|]. by etrans.
Qed.
Lemma swept_thinned w s : thinned s (swept w s).
Proof. destruct w; [apply sweep_thinned|done]. Qed.

(** C24: What a capture stores is what peers are served. Whichever way a text or
    binary content comes into a well-formed history as a new item, with its sweep or
    with the sweep left to its batch, the retention policy may have removed the item
    at once; if it is there, the item fetched under its id, with sync switched on,
    carries the very text or bytes that were captured, their hash, the type and
    stamp the caller gave, and this device as its origin. The text is valid UTF-8,
    the nonces drawn have their lengths, and the id is one that no shared payload is
    linked to. *)
Theorem capture_is_served_as_captured c here d at_ app name m settings s :
  ConfigData.sync_enabled c = true -> store_ok s -> len (dr_nonce d) = NONCE_LEN ->
  len (dr_stream_nonce d) = STREAM_NONCE_LEN ->
  (forall content ct swp r changed s', is_text ct = true -> utf8_valid (as_bytes content) = true ->
     file_payloads s !! dr_id d = None ->
     ingest_text d content ct at_ app name m settings swp s = Ok (Stored r, changed, s') ->
     r_id r = dr_id d /\
     ((swp <> Deferred /\ items s' !! r_id r = None) \/
      exists w, fetch c here [r_id r] s' = Ok [w] /\
       SyncItem.content w = content /\ SyncItem.binary_content w = [] /\
       SyncItem.content_hash w = plaintext_content_hash (as_bytes content) /\ SyncItem.content_type w = ct /\
       SyncItem.created_at w = at_ /\ SyncItem.origin_device_id w = here /\ SyncItem.deleted w = false)) /\
  (forall b ct wall r s', file_payloads s !! capture_item_id_from_digest (sha256 b) ct = None ->
     ingest_binary_into_with_capture_source_metadata d b ct at_ app name m settings wall s = Ok (Stored r, s') ->
     r_id r = capture_item_id_from_digest (sha256 b) ct /\
     (items s' !! r_id r = None \/
      exists w, fetch c here [r_id r] s' = Ok [w] /\
       SyncItem.content w = ""%string /\ SyncItem.binary_content w = b /\
       SyncItem.content_hash w = plaintext_content_hash b /\ SyncItem.content_type w = ct /\
       SyncItem.created_at w = at_ /\ SyncItem.origin_device_id w = here /\ SyncItem.deleted w = false)).
Proof.
  intros Hc Hs Hn Hsn. split.
  - intros content ct swp r changed s' Ht Hu Hf H.
    apply ingest_text_ok in H as (_ & _ & json & i0 & s0 & _ & Hi & Hst & ->). destruct i0 as [r0|r0]; [|discriminate Hst].
    injection Hst as <-. destruct (insert_or_bump_inserted _ _ _ _ _ _ _ _ Hs Hi)
      as (Hr & Hid & Hrt & Hrh & Hrc & Hrd & _ & Hro & (nonce & e & Henc%map_err_ok & Hre & Hrn) & Hfp & _).
    destruct (aead_open _ _ _ _ _ Hn Henc) as (-> & Hdec & Hl).
    assert (Hel : len e <> 0) by (pose proof (len_nonneg (as_bytes content)); unfold TAG_LEN in Hl; lia).
    split; [done|]. destruct (swept_thinned swp s0) as [Hsub Hfps].
    destruct (items (swept swp s0) !! r_id r) as [r'|] eqn:Er.
    2: { left. split; [|done]. intros ->. cbn in Er. congruence. }
    right. pose proof (lookup_weaken _ _ _ _ Er Hsub) as Hr'. assert (r' = r) as -> by congruence.
    destruct (text_to_wire here r (swept swp s0) content (dr_nonce d) e) as (w & Hw & Hwc & Hwb); try assumption;
      [by rewrite Hrt|apply own_payload; [done|apply Hfps; rewrite Hid; by apply Hfp]|by rewrite Hn|by rewrite Hid|].
    exists w. destruct (served_version c here r _ w Hc Er Hw) as (Hw1 & Hw2 & Hw3 & Hw4 & Hw5 & Hw6).
    rewrite Hw2, Hw3, Hw4, Hw5, Hw6, Hrh, Hrt, Hrc, Hro, Hrd. split_and!; done.
  - intros b ct wall r s' Hf. unfold ingest_binary_into_with_capture_source_metadata.
    intros ([i s0] & H & [= Hst <-])%bind_ok. destruct i as [r0|r0]; [|discriminate Hst]. injection Hst as ->.
    apply insert_binary_ok in H as (_ & Ht & _ & json & e & _ & He & ch & Hi).
    destruct (insert_or_bump_inserted _ _ _ _ _ _ _ _ Hs Hi)
      as (Hr & Hid & Hrt & Hrh & Hrc & Hrd & _ & Hro & (nonce & e' & [= <- <-] & Hre & Hrn) & Hfp & _).
    split; [done|]. destruct (sweep_thinned settings wall s0) as [Hsub Hfps].
    destruct (items (sweep settings wall s0) !! r_id r) as [r'|] eqn:Er; [right|by left].
    pose proof (lookup_weaken _ _ _ _ Er Hsub) as Hr'. assert (r' = r) as -> by congruence.
    destruct (binary_to_wire here r (sweep settings wall s0) b e) as (w & Hw & Hwc & Hwb); try assumption;
      [by rewrite Hrt|apply own_payload; [done|apply Hfps; rewrite Hid; by apply Hfp]| |].
    { rewrite Hid. by apply (open_either_envelope (dr_nonce d) (dr_stream_nonce d)); [..|left]. }
    exists w. destruct (served_version c here r _ w Hc Er Hw) as (Hw1 & Hw2 & Hw3 & Hw4 & Hw5 & Hw6).
    rewrite Hw2, Hw3, Hw4, Hw5, Hw6, Hrh, Hrt, Hrc, Hro, Hrd. split_and!; done.
Qed.

(** No capture is lost without the caller being told why.  Under a free id
    it is taken unless it is blank, over the user's limit for its type, carries
    metadata that cannot be written, or could not be encrypted; in particular
    the history itself never refuses it, whatever it holds already. *)
Theorem capture_fails_only_for_a_reason d at_ app name m settings s :
  store_ok s -> in_range64 s -> (forall k q, items s !! k = Some q -> i64_min <= r_created_at q) -> at_ <= i64_max ->
  (forall content ct w, items s !! dr_id d = None ->
     let limit := capture_limit_bytes settings ct in
     match ingest_text d content ct at_ app name m settings w s with
     | Ok _ => is_blank (as_bytes content) = false /\ str_len content <= limit
     | Err Empty => is_blank (as_bytes content) = true
     | Err TooLarge => is_blank (as_bytes content) = false /\ limit < str_len content
     | Err InvalidMetadata => encode_payload_metadata (classified content ct m) ct = Err InvalidMetadata
     | Err (Crypto e) => encrypt (dr_nonce d) (as_bytes content) (dr_id d) = Err e
     | Err (Storage _) => False
     end) /\
  (forall b ct wall, items s !! capture_item_id_from_digest (sha256 b) ct = None ->
     let limit := capture_limit_bytes settings ct in
     match ingest_binary_into_with_capture_source_metadata d b ct at_ app name m settings wall s with
     | Ok _ => b <> [] /\ is_text ct = false /\ len b <= limit
     | Err Empty => b = [] \/ is_text ct = true
     | Err TooLarge => b <> [] /\ is_text ct = false /\ limit < len b
     | Err InvalidMetadata => encode_payload_metadata m ct = Err InvalidMetadata
     | Err (Crypto e) => seal (dr_stream_nonce d) b (capture_item_id_from_digest (sha256 b) ct) = Err e
     | Err (Storage _) => False
     end).
Proof.
  intros Hs Hr Hmin Hat. split.
  - intros content ct w Hfree limit. unfold ingest_text. destruct (is_blank (as_bytes content)) eqn:Eb; [done|].
    cbn [refuse_if mbind result_bind]. destruct (Z.gtb_spec (str_len content) (capture_limit_bytes settings ct)); [done|].
    cbn [refuse_if mbind result_bind].
    destruct (encode_payload_metadata _ ct) as [json|e] eqn:Ej; cbn [mbind result_bind];
      [|pose proof (encode_metadata_error _ _ _ Ej); by subst e].
    destruct (encrypt _ _ _) as [nc|e] eqn:Ee; cbn [map_err].
    + destruct (capture_succeeds Storage (text_item d content ct at_ app name json) (if is_text ct then Some content else None)
                  nc s Hs Hr Hmin Hat (hash_not_empty _) Hfree) as [[[i c] s0] Ho]. rewrite Ho. done.
    + destruct (insert_or_bump_late_sealed _ _ _ _ _) as [[[i c] s0]|e'] eqn:Ei; [done|].
      destruct (capture_succeeds Storage (text_item d content ct at_ app name json) (if is_text ct then Some content else None)
                  ([], []) s Hs Hr Hmin Hat (hash_not_empty _) Hfree) as [o Ho].
      assert (e' = Crypto e) as ->; [|done]. revert Ei Ho. unfold insert_or_bump_late_sealed.
      destruct (map_err Storage (normalise _ _ _ _ s)) as [[[m1 icon] s1]|] eqn:En; cbn [mbind result_bind]; [|done].
      destruct (newest_live_with_representation _ _ _ s1).
      * intros E1 E2. rewrite E1 in E2. done.
      * unfold insert_new. cbn [mbind result_bind]. by intros [= <-].
  - intros b ct wall Hfree limit. unfold ingest_binary_into_with_capture_source_metadata, insert_binary.
    assert (Hb : (len b =? 0) = bool_decide (b = [])).
    { destruct b as [|x b]; [done|]. rewrite bool_decide_eq_false_2 by done. unfold len. cbn. apply Z.eqb_neq. lia. }
    rewrite Hb. case_bool_decide as Hnil; [by left|]. cbn [refuse_if mbind result_bind].
    destruct (is_text ct) eqn:Et; [by right|]. cbn [refuse_if mbind result_bind].
    destruct (Z.gtb_spec (len b) (capture_limit_bytes settings ct)); [done|]. cbn [refuse_if mbind result_bind].
    destruct (encode_payload_metadata m ct) as [json|e] eqn:Ej; cbn [mbind result_bind];
      [|pose proof (encode_metadata_error _ _ _ Ej); by subst e].
    unfold seal. cbn [n_id binary_item]. unfold content_digest.
    destruct (seal_with_digest _ _ _ _) as [e|e] eqn:Ee; cbn [map_err mbind result_bind]; [|done].
    unfold insert_or_bump.
    match goal with |- context [insert_or_bump_late_sealed ?f ?it ?t (Ok ?nc) s] =>
      destruct (capture_succeeds f it t nc s Hs Hr Hmin Hat (hash_not_empty _) Hfree) as [[[i c] s0] ->] end. done.
Qed.

(** A binary item that was deleted cannot be captured again: its id is made
    from its bytes and type, the tombstone keeps that id, and while no other live
    row has the content every new capture of it is refused as a storage error. *)
Theorem deleted_binary_is_not_captured_again d b ct at_ app name settings wall s tomb :
  items s !! capture_item_id_from_digest (sha256 b) ct = Some tomb -> r_deleted tomb = true ->
  no_representation (plaintext_content_hash b) ct s ->
  b <> [] -> is_text ct = false -> len b <= capture_limit_bytes settings ct ->
  (exists e, seal (dr_stream_nonce d) b (capture_item_id_from_digest (sha256 b) ct) = Ok e) ->
  ingest_binary_into_with_capture_source_metadata d b ct at_ app name None settings wall s
    = Err (Storage (Sqlite ConstraintViolation)).
Proof.
  intros Ht Hd Hno Hb Hct Hlen Hseal. unfold ingest_binary_into_with_capture_source_metadata, insert_binary.
  assert (Hb0 : (len b =? 0) = false) by (destruct b; [done|unfold len; cbn; apply Z.eqb_neq; lia]).
  rewrite Hb0, Hct. cbn [refuse_if mbind result_bind].
  destruct (Z.gtb_spec (len b) (capture_limit_bytes settings ct)); [lia|].
  cbn [refuse_if mbind result_bind encode_payload_metadata]. destruct Hseal as [e Hseal]. unfold seal in Hseal. cbn [n_id binary_item]. unfold content_digest.
  rewrite Hseal. cbn [map_err mbind result_bind]. unfold insert_or_bump.
  match goal with |- context [insert_or_bump_late_sealed ?f ?it ?t (Ok ?nc) s] =>
    rewrite (recopy_under_a_tombstone_fails f it t nc s tomb) end; done.
Qed.
End Properties.

(** ** Witnesses *)

#[local] Existing Instances HistoryDemo.codecs HistoryDemo.json HistoryDemo.laws
  BinaryDemo.key BinaryDemo.key_laws BinaryDemo.digest BinaryDemo.digest_laws no_codecs.
Module IngestDemo.
#[export] Instance files : FileJson := {| serde_file_string := fun _ => None |}.
#[export] Instance uuids : Uuids := {| uuid_string := of_bytes |}.
Definition draw : Draw :=
  {| dr_id := "item-1"; dr_nonce := BinaryDemo.nonce; dr_stream_nonce := BinaryDemo.stream_nonce |}.
Definition settings : ConfigData.t := default_config.
Definition captured := ingest_text draw "alpha beta" TEXT 5000 None None None settings (SweepNow settings 5000) empty_store.
Definition image : bytes := as_bytes "pixels".
Definition image_id : string := capture_item_id_from_digest (sha256 image) IMAGE_PNG.
Definition with_image : Store :=
  match insert_binary draw image IMAGE_PNG 5000 None None None settings empty_store with
  | Ok (_, s) => s | Err _ => empty_store end.
Definition deleted_image : Store := (soft_delete image_id 6000 with_image).2.
Definition row_of (r : result IngestError (Ingested * bool * Store)) : option (Row * Store) :=
  match r with Ok (Stored r, _, s) => Some (r, s) | _ => None end.
End IngestDemo.
Import IngestDemo.
Lemma capture_is_served_as_captured_witness :
  exists r changed s' w, captured = Ok (Stored r, changed, s') /\ fetch settings "here" [r_id r] s' = Ok [w] /\
    SyncItem.content w = "alpha beta"%string /\ SyncItem.origin_device_id w = "here"%string.
Proof.
  destruct captured as [[[i c] s']|e] eqn:E; [|vm_compute in E; discriminate E].
  destruct i as [r|r]; [|vm_compute in E; discriminate E]. exists r, c, s'.
  destruct (capture_is_served_as_captured settings "here" draw 5000 None None None settings empty_store) as [H _];
    [reflexivity|exact HistoryDemo.empty_ok|reflexivity|reflexivity|].
  destruct (H "alpha beta"%string TEXT (SweepNow settings 5000) r c s') as (_ & [[_ Hn]|(w & Hw & Hc & _ & _ & _ & _ & Ho & _)]);
    [reflexivity|reflexivity|reflexivity|exact E|exfalso; vm_compute in E; injection E as <- <- <-; vm_compute in Hn; discriminate Hn|].
  exists w. exact (conj eq_refl (conj Hw (conj Hc Ho))).
Defined.
Lemma capture_fails_only_for_a_reason_witness :
  ingest_text draw "  " TEXT 5000 None None None settings Deferred empty_store = Err Empty /\
  (is_blank (as_bytes "  ") = true) /\
  match ingest_text draw "alpha beta" TEXT 5000 None None None settings Deferred empty_store with
  | Ok _ => str_len "alpha beta" <= capture_limit_bytes settings TEXT | Err _ => False end.
Proof.
  assert (Hr : in_range64 empty_store) by (intros k q Hq; discriminate Hq).
  assert (Hm : forall k q, items empty_store !! k = Some q -> i64_min <= r_created_at q) by (intros k q Hq; discriminate Hq).
  destruct (capture_fails_only_for_a_reason draw 5000 None None None settings empty_store HistoryDemo.empty_ok Hr Hm
              ltac:(vm_compute; discriminate)) as [H _].
  split; [vm_compute; reflexivity|]. split; [exact (H "  "%string TEXT Deferred eq_refl)|].
  pose proof (H "alpha beta"%string TEXT Deferred eq_refl) as Hx. cbv zeta in Hx.
  destruct (ingest_text draw "alpha beta" TEXT 5000 None None None settings Deferred empty_store) as [o|e] eqn:E.
  - exact (proj2 Hx).
  - vm_compute in E. discriminate E.
Defined.
Lemma deleted_binary_is_not_captured_again_witness :
  insert_binary draw image IMAGE_PNG 5000 None None None settings empty_store <> Err Empty /\
  ingest_binary_into_with_capture_source_metadata draw image IMAGE_PNG 7000 None None None settings 7000 deleted_image
    = Err (Storage (Sqlite ConstraintViolation)).
Proof.
  split; [vm_compute; discriminate|].
  assert (Hall : forallb r_deleted (rows deleted_image) = true) by (vm_compute; reflexivity).
  assert (Hin : bool_decide (is_Some (items deleted_image !! capture_item_id_from_digest (sha256 image) IMAGE_PNG)) = true)
    by (vm_compute; reflexivity).
  apply bool_decide_eq_true in Hin as [tomb Et].
  assert (Hd : forall k q, items deleted_image !! k = Some q -> r_deleted q = true)
    by (intros k q Hq; exact (proj1 (forallb_forall _ _) Hall q (in_rows _ _ _ Hq))).
  assert (Hno : no_representation (plaintext_content_hash image) IMAGE_PNG deleted_image).
  { intros k q Hq Hl _ _. rewrite (Hd k q Hq) in Hl. discriminate Hl. }
  assert (Hs : exists e, seal (dr_stream_nonce draw) image (capture_item_id_from_digest (sha256 image) IMAGE_PNG) = Ok e)
    by (eexists; vm_compute; reflexivity).
  assert (Hl : len image <= capture_limit_bytes settings IMAGE_PNG) by (vm_compute; discriminate).
  exact (deleted_binary_is_not_captured_again draw image IMAGE_PNG 7000 None None settings 7000 deleted_image tomb Et
           (Hd _ _ Et) Hno ltac:(discriminate) eq_refl Hl Hs).
Defined.
