(* ===== verification/Backup.v ===== *)
(** Taking the text history out and putting it back
    ([copypaste-core/src/transfer/export.rs], [transfer/import.rs], the frame
    budget of [copypaste-ipc/src/limits/export.rs]). *)

From S2P Require Import Prelude Float64 Bytes Text Wire Binary Payload Settings Credentials Table Items ItemSafety Retention Organization Versions Pinning Source SourceSafety Ingest.

Record ExportItem := {
  ex_privacy : ClipboardPrivacy; ex_content : string; ex_type : string; ex_created_at : Z; ex_pinned : bool;
}.
Record ExportData := { ex_items : list ExportItem; skipped_non_text : Z; skipped_undecryptable : Z }.
Inductive ExportError := ExportStore (e : StoreError) | ContentTooLarge.

(** [serde_json]: how many bytes an item takes, and the largest empty response
    with its newline. *)
Class ExportJson := { item_json_len : ExportItem -> Z; empty_response_bytes : Z }.

(** ** Export *)

Definition MAX_FRAME_BYTES : Z := 32 * 1024 * 1024.
Record ExportFrameBudget := { item_bytes : Z; budget_items : Z }.
Definition budget_new : ExportFrameBudget := {| item_bytes := 0; budget_items := 0 |}.
(** The sums of [try_push] stay below twice a frame, so none of them overflows. *)
Definition try_push `{ExportJson} (item : ExportItem) (b : ExportFrameBudget) : option ExportFrameBudget :=
  let n := item_json_len item in
  if n >? MAX_FRAME_BYTES then None
  else let comma := if 0 <? budget_items b then 1 else 0 in
       if empty_response_bytes + item_bytes b + comma + n >? MAX_FRAME_BYTES then None
       else Some {| item_bytes := item_bytes b + comma + n; budget_items := budget_items b + 1 |}.

(** [LIVE_ITEMS_SQL]: pinned rows first, in their order, then the newest. *)
Definition live_position (r : Row) : Z * (option Z * (Z * string)) :=
  (if r_pinned r then 0 else 1, pin_position r).
Definition live_before (r q : Row) : Prop :=
  pair_cmp Z.compare position_cmp (live_position r) (live_position q) <> Gt.
#[export] Instance live_before_dec r q : Decision (live_before r q).
Proof. unfold live_before. apply _. Defined.
Definition live_items (s : Store) : list Row := merge_sort live_before (List.filter is_live (rows s)).

Section Exporting.
Context {PC : PayloadCodecs} {MJ : MetadataJson} {DG : Digest} {K : ItemKey} {EJ : ExportJson}.
Definition count_skip (n : Z) : Z := Z.min (n + 1) u32_max.
Definition with_item (i : ExportItem) (d : ExportData) : ExportData :=
  {| ex_items := ex_items d ++ [i]; skipped_non_text := skipped_non_text d;
     skipped_undecryptable := skipped_undecryptable d |}.
Definition export_item (r : Row) (content : string) : ExportItem :=
  {| ex_privacy := clipboard_privacy r; ex_content := content; ex_type := r_type r;
     ex_created_at := r_created_at r; ex_pinned := r_pinned r |}.
(** The visitor: what one row adds, and whether it is the last. *)
Definition visit (limit : Z) (s : Store) (r : Row) (b : ExportFrameBudget) (d : ExportData)
    : result ExportError (bool * ExportFrameBudget * ExportData) :=
  if negb (is_text (r_type r))
  then Ok (false, b, {| ex_items := ex_items d; skipped_non_text := count_skip (skipped_non_text d);
                        skipped_undecryptable := skipped_undecryptable d |})
  else match decrypt (joined_ciphertext r s) (default [] (r_nonce r)) (r_id r) with
       | Err _ => Ok (false, b, {| ex_items := ex_items d; skipped_non_text := skipped_non_text d;
                                   skipped_undecryptable := count_skip (skipped_undecryptable d) |})
       | Ok plaintext =>
         _ ← refuse_if (len plaintext >? MAX_CONTENT_BYTES) ContentTooLarge;
         let item := export_item r (from_utf8_lossy plaintext) in
         b ← ok_or ContentTooLarge (try_push item b);
         let d := with_item item d in
         Ok ((0 <? limit) && (limit <=? len (ex_items d)), b, d)
       end.
Fixpoint visit_live_items (limit : Z) (s : Store) (l : list Row) (b : ExportFrameBudget) (d : ExportData)
    : result ExportError ExportData :=
  match l with
  | [] => Ok d
  | r :: l =>
    '(stop, b, d) ← visit limit s r b d;
    if (stop : bool) then Ok d else visit_live_items limit s l b d
  end.
Definition export (limit : Z) (s : Store) : result ExportError ExportData :=
  visit_live_items limit s (live_items s) budget_new
    {| ex_items := []; skipped_non_text := 0; skipped_undecryptable := 0 |}.
End Exporting.

(** ** Import *)

Definition MAX_IMPORT_ITEMS : Z := 10000.
Definition MAX_IMPORT_FUTURE_SKEW_MS : Z := 24 * 60 * 60 * 1000.

Record ImportData := {
  im_inserted : Z; im_skipped : Z; im_duplicate : Z; im_empty : Z; im_too_large : Z; im_pins_failed : Z;
}.
Inductive ImportError :=
| NothingToImport | TooManyItems | UnsupportedContentType | ImportCrypto (e : CryptoError)
| ImportStorage (e : StoreError) | Partial (result : ImportData) (oldest_inserted_at : Z) (source : ImportError).
Record ImportOutcome := { out_data : ImportData; oldest_changed_at : option Z }.

Definition no_imports : ImportData :=
  {| im_inserted := 0; im_skipped := 0; im_duplicate := 0; im_empty := 0; im_too_large := 0; im_pins_failed := 0 |}.
Definition add_inserted (d : ImportData) : ImportData :=
  {| im_inserted := im_inserted d + 1; im_skipped := im_skipped d; im_duplicate := im_duplicate d;
     im_empty := im_empty d; im_too_large := im_too_large d; im_pins_failed := im_pins_failed d |}.
Definition add_skipped (duplicate empty too_large : Z) (d : ImportData) : ImportData :=
  {| im_inserted := im_inserted d; im_skipped := im_skipped d + 1; im_duplicate := im_duplicate d + duplicate;
     im_empty := im_empty d + empty; im_too_large := im_too_large d + too_large;
     im_pins_failed := im_pins_failed d |}.
Definition add_pin_failure (d : ImportData) : ImportData :=
  {| im_inserted := im_inserted d; im_skipped := im_skipped d; im_duplicate := im_duplicate d;
     im_empty := im_empty d; im_too_large := im_too_large d; im_pins_failed := im_pins_failed d + 1 |}.
Definition oldest (o : option Z) (at_ : Z) : option Z :=
  Some (match o with Some old => Z.min old at_ | None => at_ end).

(** What the loop has done so far. *)
Record Progress := { pg_data : ImportData; pg_pins : list (string * Z); pg_oldest : option Z }.
Definition add_pin (wanted : bool) (r : Row) (l : list (string * Z)) : list (string * Z) :=
  if wanted && negb (r_pinned r) then l ++ [(r_id r, r_created_at r)] else l.
(** What the import draws: for the [i]-th item an id, nonces and the clock. *)
Record Draws := { draw_of : nat -> Draw; now_of : nat -> Z }.

Section Importing.
Context {PC : PayloadCodecs} {MJ : MetadataJson} {FJ : FileJson} {CC : CredentialCodecs}
        {DG : Digest} {OC : OrgCodec} {K : ItemKey} {RA : RealArith}.

(** One turn of the loop: a fatal error ends it. *)
Definition import_one (d : Draw) (now : Z) (b : BatchScope) (item : ExportItem) (p : Progress) (s : Store)
    : result ImportError (Progress * Store) :=
  let created_at := Z.min (ex_created_at item) (i64_saturating_add now MAX_IMPORT_FUTURE_SKEW_MS) in
  match ingest_into_batched d b (ex_content item) (ex_type item) created_at (ex_privacy item) s with
  | Ok (Stored r, _, s) =>
    Ok ({| pg_data := add_inserted (pg_data p); pg_pins := add_pin (ex_pinned item) r (pg_pins p);
           pg_oldest := oldest (pg_oldest p) (r_created_at r) |}, s)
  | Ok (Duplicate r, changed, s) =>
    Ok ({| pg_data := add_skipped 1 0 0 (pg_data p); pg_pins := add_pin (ex_pinned item) r (pg_pins p);
           pg_oldest := if changed then oldest (pg_oldest p) (r_created_at r) else pg_oldest p |}, s)
  | Err Empty => Ok ({| pg_data := add_skipped 0 1 0 (pg_data p); pg_pins := pg_pins p; pg_oldest := pg_oldest p |}, s)
  | Err TooLarge =>
    Ok ({| pg_data := add_skipped 0 0 1 (pg_data p); pg_pins := pg_pins p; pg_oldest := pg_oldest p |}, s)
  | Err InvalidMetadata =>
    Ok ({| pg_data := add_skipped 0 0 0 (pg_data p); pg_pins := pg_pins p; pg_oldest := pg_oldest p |}, s)
  | Err (Crypto e) => Err (ImportCrypto e)
  | Err (Storage e) => Err (ImportStorage e)
  end.
Fixpoint import_loop (w : Draws) (b : BatchScope) (i : nat) (l : list ExportItem) (p : Progress) (s : Store)
    : option ImportError * Progress * Store :=
  match l with
  | [] => (None, p, s)
  | item :: l =>
    match import_one (draw_of w i) (now_of w i) b item p s with
    | Ok (p, s) => import_loop w b (S i) l p s
    | Err e => (Some e, p, s)
    end
  end.

(** The pins the file named, whatever happened before; [rng] and the clocks are
    those of [set_pinned_synced]. *)
Fixpoint restore_pins (rng : string -> bytes) (now later : string -> Z) (pins : list (string * Z))
    (d : ImportData) (o : option Z) (s : Store) : ImportData * option Z * Store :=
  match pins with
  | [] => (d, o, s)
  | (id, created_at) :: pins =>
    match set_pinned rng true id true (now id) (later id) s with
    | Ok (true, s) => restore_pins rng now later pins d (oldest o created_at) s
    | Ok (false, s) => restore_pins rng now later pins (add_pin_failure d) o s
    | Err _ => restore_pins rng now later pins (add_pin_failure d) o s
    end
  end.

(** [import_with_current_retention_outcome]; [current] and [wall] are what the
    terminal sweep reads. *)
Definition import_outcome (w : Draws) (rng : string -> bytes) (now later : string -> Z)
    (settings current : ConfigData.t) (wall : Z) (items : list ExportItem) (s : Store)
    : result ImportError ImportOutcome * Store :=
  if len items =? 0 then (Err NothingToImport, s)
  else if len items >? MAX_IMPORT_ITEMS then (Err TooManyItems, s)
  else if existsb (fun i => negb (is_text (ex_type i))) items then (Err UnsupportedContentType, s)
  else
    let b := batch_with_current_policy settings current in
    let '(fatal, p, s) := import_loop w b 0 items {| pg_data := no_imports; pg_pins := []; pg_oldest := None |} s in
    let '(data, o, s) := restore_pins rng now later (pg_pins p) (pg_data p) (pg_oldest p) s in
    let s := if (0 <? im_inserted data) && (im_pins_failed data =? 0) then finish b wall s else disarm b s in
    (match fatal with
     | Some source => match o with
                      | Some at_ => Err (Partial data at_ source)
                      | None => Err source
                      end
     | None => Ok {| out_data := data; oldest_changed_at := o |}
     end, s).
Definition import_with_current_retention (w : Draws) (rng : string -> bytes) (now later : string -> Z)
    (settings current : ConfigData.t) (wall : Z) (items : list ExportItem) (s : Store)
    : result ImportError ImportData * Store :=
  let '(r, s) := import_outcome w rng now later settings current wall items s in
  (match r with Ok o => Ok (out_data o) | Err e => Err e end, s).
Definition import (w : Draws) (rng : string -> bytes) (now later : string -> Z) (settings : ConfigData.t)
    (wall : Z) (items : list ExportItem) (s : Store) : result ImportError ImportData * Store :=
  import_with_current_retention w rng now later settings settings wall items s.
End Importing.

(** ** What a capture leaves alone *)

Section Growth.
Context {PC : PayloadCodecs} {MJ : MetadataJson} {DG : Digest}.

(** A step that writes one row and no payload. *)
Record quiet (id : string) (s s' : Store) : Prop := {
  qt_rows k : k <> id -> items s' !! k = items s !! k;
  qt_files : file_payloads s' = file_payloads s;
  qt_shared : shared_payloads s' = shared_payloads s;
}.
Lemma quiet_refl id s : quiet id s s.
Proof. by split. Qed.
Lemma quiet_trans id s1 s2 s3 : quiet id s1 s2 -> quiet id s2 s3 -> quiet id s1 s3.
Proof.
  intros [A1 A2 A3] [B1 B2 B3]. split; [|congruence|congruence].
  intros k Hk. by rewrite B1, A1.
Qed.
Lemma quiet_frame id s s' : items s' = items s -> file_payloads s' = file_payloads s ->
  shared_payloads s' = shared_payloads s -> quiet id s s'.
Proof. intros H1 H2 H3. split; [by rewrite H1|done|done]. Qed.
Lemma release_unused_quiet id o s : quiet id s (release_unused o s).
Proof. apply quiet_frame; [apply release_unused_frame|by destruct o; cbn; [case_match|]..]. Qed.
Lemma write_row_quiet r s :
  match items s !! r_id r with Some q => r_ciphertext q = r_ciphertext r | None => True end ->
  quiet (r_id r) s (write_row r s).
Proof.
  intros Hq. split; [intros k Hk; rewrite items_write_row; by apply lookup_insert_ne| |];
    unfold write_row, after_change, payload_changed;
    (destruct (items s !! r_id r) as [q|]; [rewrite Hq, bool_decide_eq_true_2 by done|]); cbn [negb];
    match goal with |- context [release_unused ?o ?t] =>
      destruct (release_unused_quiet (r_id r) o t) as [_ H1 H2]; rewrite ?H1, ?H2 end; done.
Qed.
Lemma write_same_quiet r q s : items s !! r_id r = Some q -> r_ciphertext q = r_ciphertext r ->
  quiet (r_id r) s (write_row r s).
Proof. intros Hq Hc. apply write_row_quiet. by rewrite Hq. Qed.
Lemma delete_fts_quiet id k s : quiet id s (delete_fts_row_in_tx k s).
Proof. unfold delete_fts_row_in_tx. destruct (r ← items s !! k; r_fts r); apply quiet_frame; reflexivity. Qed.
Lemma insert_fts_quiet id k t ct s : quiet id s (insert_fts_in_tx k t ct s).2.
Proof. unfold insert_fts_in_tx. case_match; apply quiet_frame; reflexivity. Qed.
Lemma bump_in_tx_quiet existing at_ a n i s r s' :
  holds s existing -> bump_in_tx existing at_ a n i s = (r, s') ->
  quiet (r_id existing) s s' /\ r_created_at r <= Z.max (r_created_at existing) at_.
Proof.
  intros Hh. unfold bump_in_tx. case_match; [intros [= <- <-]; split; [apply quiet_refl|lia]|].
  destruct (upsert_row _ s) as [s1|] eqn:E; intros [= <- <-]; [|split; [apply quiet_refl|lia]].
  apply upsert_row_some in E as [_ ->]. split; [|cbn; lia].
  by apply (write_same_quiet (set_source a n i (set_stamp at_ existing)) existing).
Qed.
Lemma refresh_privacy_quiet item p creds text s r s' :
  holds s item -> refresh_privacy item p creds text s = Ok (r, s') ->
  quiet (r_id item) s s' /\ (r_created_at item <= i64_max -> r_created_at r <= i64_max).
Proof.
  intros Hh. unfold refresh_privacy. case_match; [intros [= <- <-]; split; [apply quiet_refl|done]|].
  match goal with |- context [upsert_row ?x s] => set (q := x) end.
  destruct (upsert_row q s) as [s1|] eqn:E; [|done]. apply upsert_row_some in E as [_ ->]. intros Hr%ok_inj.
  assert (Hq : r_id q = r_id item /\ r_ciphertext q = r_ciphertext item) by done.
  assert (Hmax : r_created_at item <= i64_max -> r_created_at q <= i64_max).
  { subst q. unfold refreshed. cbn. intros Hm.
    match goal with |- (if ?b then _ else _) <= _ => destruct b end; [|done].
    unfold i64_saturating_add, i64_min, i64_max. lia. }
  destruct Hq as [Hid Hc]. unfold holds in Hh. rewrite <- Hid in Hh. rewrite <- Hid.
  assert (Hw : quiet (r_id q) s (write_row q s)) by (apply (write_same_quiet q item); [exact Hh|done]).
  assert (Hself : items (write_row q s) !! r_id q = Some q) by (by rewrite items_write_row, lookup_insert_eq).
  revert Hr. unfold reindex. destruct (secret _); [|case_match].
  - intros [= <- <-]. split; [|exact Hmax]. eapply quiet_trans; [exact Hw|].
    eapply quiet_trans; [apply (delete_fts_quiet _ (r_id q))|].
    change (r_id item) with (r_id q).
    apply (quiet_trans _ _ (write_row (set_fts None q) (delete_fts_row_in_tx (r_id q) (write_row q s)))); [|by apply quiet_frame].
    apply (write_same_quiet (set_fts None q) q); [|done]. cbn [r_id set_fts].
    by rewrite (proj1 (delete_fts_frame _ _)).
  - destruct (insert_fts_in_tx _ _ _ _) as [k s2] eqn:Ek. intros [= <- <-]. split; [|exact Hmax].
    change (r_id item) with (r_id q) in Ek.
    eapply quiet_trans; [exact Hw|]. eapply quiet_trans; [apply (delete_fts_quiet _ (r_id q))|].
    match type of Ek with insert_fts_in_tx ?i ?t ?ct ?w = _ =>
      pose proof (insert_fts_quiet (r_id q) i t ct w) as Hi; pose proof (proj1 (insert_fts_frame i t ct w)) as Hii end.
    rewrite Ek in Hi, Hii. cbn [snd] in Hi, Hii. eapply quiet_trans; [exact Hi|].
    apply (write_same_quiet (set_fts k q) q); [|done]. cbn [r_id set_fts]. rewrite Hii. by rewrite (proj1 (delete_fts_frame _ _)).
  - intros [= <- <-]. by split.
Qed.

Lemma normalise_quiet app ct at_ m s m' i s' k :
  normalise app ct at_ m s = Ok (m', i, s') ->
  (items s !! k = None -> items s' !! k = None) /\ file_payloads s' = file_payloads s /\
  shared_payloads s' = shared_payloads s.
Proof.
  intros Hn. destruct (normalise_payloads _ _ _ _ _ _ _ _ Hn) as [H1 H2]. split_and!; [|done|done].
  intros Hk. pose proof (normalise_rows _ _ _ _ _ _ _ _ k Hn) as H. by rewrite Hk in H.
Qed.
Lemma fold_into_quiet existing item icon p creds text s i c s' :
  store_ok s -> holds s existing -> r_created_at existing <= i64_max -> n_created_at item <= i64_max ->
  fold_into existing item icon p creds text s = Ok (i, c, s') ->
  quiet (r_id existing) s s' /\ r_created_at (ingest_item i) <= i64_max.
Proof.
  intros Hs Hh H1 H2. unfold fold_into. destruct (bump_in_tx existing _ _ _ _ s) as [b s1] eqn:Eb.
  destruct (bump_in_tx_quiet _ _ _ _ _ _ _ _ Hh Eb) as [Hq Hc].
  destruct (bump_in_tx_ok _ _ _ _ _ _ _ _ Hs Hh Eb) as (_ & Hb & Hid & _).
  intros ([r s2] & Hr & [= <- _ <-])%bind_ok.
  destruct (refresh_privacy_quiet _ _ _ _ _ _ _ Hb Hr) as [Hq2 Hc2]. rewrite Hid in Hq2.
  split; [|apply Hc2; lia]. eapply quiet_trans; [exact Hq|]. eapply quiet_trans; [exact Hq2|apply release_unused_quiet].
Qed.
Lemma fold_after_race_quiet existing item icon p creds text s i c s' :
  store_ok s -> holds s existing -> r_created_at existing <= i64_max -> n_created_at item <= i64_max ->
  fold_after_race existing item icon p creds text s = Ok (i, c, s') ->
  quiet (r_id existing) s s' /\ r_created_at (ingest_item i) <= i64_max.
Proof.
  intros Hs Hh H1 H2. unfold fold_after_race. destruct (bump_in_tx existing _ _ _ _ s) as [b s1] eqn:Eb.
  destruct (bump_in_tx_quiet _ _ _ _ _ _ _ _ Hh Eb) as [Hq Hc].
  destruct (bump_in_tx_ok _ _ _ _ _ _ _ _ Hs Hh Eb) as (_ & Hb & Hid & _).
  intros ([r s2] & Hr & [= <- _ <-])%bind_ok.
  assert (Hb' : holds (release_unused icon s1) b) by (unfold holds; by rewrite (proj1 (release_unused_frame _ _))).
  destruct (refresh_privacy_quiet _ _ _ _ _ _ _ Hb' Hr) as [Hq2 Hc2]. rewrite Hid in Hq2.
  split; [|apply Hc2; lia]. eapply quiet_trans; [exact Hq|]. eapply quiet_trans; [apply release_unused_quiet|exact Hq2].
Qed.
Lemma ingest_id_fold existing item icon p creds text s i c s' :
  r_created_at existing <= i64_max -> n_created_at item <= i64_max ->
  fold_into existing item icon p creds text s = Ok (i, c, s') \/
  fold_after_race existing item icon p creds text s = Ok (i, c, s') ->
  r_id (ingest_item i) = r_id existing.
Proof.
  intros H1 H2 [H|H]; [apply fold_into_kept in H as (r & -> & Hk & _)|apply fold_after_race_kept in H as (r & -> & Hk & _)];
    try done; cbn; unfold kept in Hk; congruence.
Qed.
(** A capture writes one row, in range, and no payload of another. *)
Lemma capture_quiet {E} (of_store : StoreError -> E) item text seal s i c s' :
  store_ok s -> in_range64 s -> n_created_at item <= i64_max ->
  insert_or_bump_late_sealed of_store item text seal s = Ok (i, c, s') ->
  (forall k, k <> r_id (ingest_item i) -> items s !! k = None -> items s' !! k = None) /\
  file_payloads s' = file_payloads s /\ shared_payloads s' = shared_payloads s /\
  r_created_at (ingest_item i) <= i64_max.
Proof.
  intros Hs Hr Hn. unfold insert_or_bump_late_sealed. intros ([[m icon] s1] & Hno & H)%bind_ok. rewrite map_err_ok in Hno.
  pose proof (normalise_ok _ _ _ _ _ _ _ _ Hs Hno) as Hs1.
  assert (Hr1 : in_range64 s1).
  { intros k q Hq. pose proof (normalise_rows _ _ _ _ _ _ _ _ k Hno) as Hk. destruct (items s !! k) as [q0|] eqn:E0; [|congruence].
    destruct Hk as (q' & Hq' & Es). apply same_but_icon_kept in Es as (_ & Es & _). pose proof (Hr _ _ E0). by simplify_eq; lia. }
  assert (Hfin : forall id t, quiet id s1 t -> (forall k, k <> id -> items s !! k = None -> items t !! k = None) /\
            file_payloads t = file_payloads s /\ shared_payloads t = shared_payloads s).
  { intros id t [Q1 Q2 Q3]. destruct (normalise_quiet _ _ _ _ _ _ _ _ id Hno) as (_ & N2 & N3).
    split_and!; [|congruence|congruence]. intros k Hk Hz. rewrite Q1 by done.
    by apply (normalise_quiet _ _ _ _ _ _ _ _ k Hno). }
  revert H. destruct (newest_live_with_representation _ _ _ s1) as [ex|] eqn:En.
  - destruct (representation_found _ _ _ _ Hs1 En) as (Hh & _). rewrite map_err_ok. intros Hf.
    pose proof (ingest_id_fold _ _ _ _ _ _ _ _ _ _ (Hr1 _ _ Hh) Hn (or_introl Hf)) as ->.
    destruct (fold_into_quiet _ _ _ _ _ _ _ _ _ _ Hs1 Hh (Hr1 _ _ Hh) Hn Hf) as [Hq Hc].
    destruct (Hfin _ _ Hq) as (? & ? & ?). by split_and!.
  - unfold insert_new. intros ([nonce ct] & _ & H)%bind_ok. revert H.
    destruct (match _ with Some t => insert_fts_in_tx _ t _ s1 | None => (None, s1) end) as [k s2] eqn:Ek.
    assert (Hq2 : forall id, quiet id s1 s2).
    { intros id. revert Ek. case_match; [|intros [= <- <-]; apply quiet_refl]. intros Ek.
      match type of Ek with insert_fts_in_tx ?i ?t ?ct ?w = _ => pose proof (insert_fts_quiet id i t ct w) as Hp end.
      by rewrite Ek in Hp. }
    destruct (insert_row _ s2) as [s3|] eqn:Ei.
    + intros [= <- _ <-]. cbn [ingest_item]. apply insert_row_some in Ei as (Ha & _ & ->).
      match goal with |- context [write_row ?r s2] =>
        assert (Hw : quiet (r_id r) s1 (write_row r s2))
          by (eapply quiet_trans; [apply Hq2|]; apply write_row_quiet; by rewrite Ha) end.
      destruct (Hfin _ _ Hw) as (? & ? & ?). by split_and!.
    + match goal with |- context [find_in_bucket _ _ _ ?t] => set (s3 := t) end.
      assert (Hq3 : forall id, quiet id s1 s3).
      { intros id. eapply quiet_trans; [apply Hq2|]. subst s3. destruct k; by apply quiet_frame. }
      assert (Hi3 : items s3 = items s1).
      { apply map_eq. intros j. apply (qt_rows (if decide (j = ""%string) then "x" else "")%string s1 s3 (Hq3 _)).
        by case_decide; subst. }
      assert (Hs3 : store_ok s3).
      { subst s3. destruct k as [k|].
        - revert Ek. case_match; [|done]. intros Ek. by rewrite (insert_fts_undone _ _ _ _ _ _ Ek).
        - revert Ek. case_match; [|by intros [= <-]]. unfold insert_fts_in_tx. case_match; [done|by intros [= <-]]. }
      destruct (find_in_bucket _ _ _ s3) as [ex|] eqn:Ef; [|done]. rewrite map_err_ok. intros Hf.
      destruct (find_in_bucket_found _ _ _ _ _ Hs3 Ef) as (Hh & _).
      assert (He : r_created_at ex <= i64_max) by (unfold holds in Hh; rewrite Hi3 in Hh; exact (Hr1 _ _ Hh)).
      pose proof (ingest_id_fold _ _ _ _ _ _ _ _ _ _ He Hn (or_intror Hf)) as ->.
      destruct (fold_after_race_quiet _ _ _ _ _ _ _ _ _ _ Hs3 Hh He Hn Hf) as [Hq Hc].
      destruct (Hfin (r_id ex) s') as (? & ? & ?); [eapply quiet_trans; [apply Hq3|exact Hq]|]. by split_and!.
Qed.
End Growth.

(** ** Histories that only grow *)

(** What an import never touches in a row: all but its pin, its stamp, its
    source and its metadata. *)
Definition core (r : Row) :=
  (r_id r, r_ciphertext r, r_nonce r, (r_type r, r_hash r), r_deleted r, r_origin r, r_rowid r).
Record grown (s s' : Store) : Prop := {
  gr_rows k q : items s !! k = Some q -> exists q', items s' !! k = Some q' /\ core q' = core q /\
    r_created_at q <= r_created_at q' /\ (r_pinned q = true -> r_pinned q' = true);
  gr_files : file_payloads s' = file_payloads s;
  gr_shared : shared_payloads s' = shared_payloads s;
}.
Lemma grown_refl s : grown s s.
Proof. split; [|done..]. intros k q Hq. exists q. split_and!; [done..|lia|done]. Qed.
Lemma grown_trans s1 s2 s3 : grown s1 s2 -> grown s2 s3 -> grown s1 s3.
Proof.
  intros [A1 A2 A3] [B1 B2 B3]. split; [|congruence..]. intros k q Hq.
  destruct (A1 k q Hq) as (q1 & Hq1 & C1 & D1 & E1). destruct (B1 k q1 Hq1) as (q2 & Hq2 & C2 & D2 & E2).
  exists q2. split_and!; [done|congruence|lia|auto].
Qed.
(** Stamps fit their column. *)
Definition stamped (s : Store) : Prop :=
  forall k q, items s !! k = Some q -> i64_min <= r_created_at q <= i64_max.
(** Rows whose version a device that saw [s] does not have yet. *)
Definition same_version (q q' : Row) : Prop :=
  r_created_at q' = r_created_at q /\ r_metadata q' = r_metadata q.
Definition announced (s s' : Store) (o : option Z) : Prop :=
  forall k q', items s' !! k = Some q' ->
    (exists q, items s !! k = Some q /\ same_version q q') \/ exists at_, o = Some at_ /\ at_ <= r_created_at q'.
Definition earlier (o o' : option Z) : Prop :=
  forall at_, o = Some at_ -> exists at', o' = Some at' /\ at' <= at_.
Lemma earlier_refl o : earlier o o.
Proof. intros a Ha. exists a. split; [done|lia]. Qed.
Lemma earlier_oldest o a : earlier o (oldest o a).
Proof. intros b ->. eexists. split; [done|lia]. Qed.
Lemma earlier_trans o1 o2 o3 : earlier o1 o2 -> earlier o2 o3 -> earlier o1 o3.
Proof. intros H1 H2 a Ha. destruct (H1 a Ha) as (b & Hb & ?). destruct (H2 b Hb) as (c & Hc & ?). exists c. split; [done|lia]. Qed.
Lemma announced_trans s1 s2 s3 o1 o2 :
  announced s1 s2 o1 -> earlier o1 o2 -> grown s2 s3 -> announced s2 s3 o2 -> announced s1 s3 o2.
Proof.
  intros H1 He Hg H2 k q3 Hq3. destruct (H2 k q3 Hq3) as [(q2 & Hq2 & [E1 E2])|?]; [|by right].
  destruct (H1 k q2 Hq2) as [(q1 & Hq1 & [F1 F2])|(a & Ha & Hle)].
  - left. exists q1. split; [done|]. split; congruence.
  - right. destruct (He a Ha) as (b & Hb & ?). exists b. split; [done|]. rewrite E1. lia.
Qed.

Section Capture.
Context {PC : PayloadCodecs} {MJ : MetadataJson} {DG : Digest}.
Lemma kept_core q r : kept q = kept r -> core q = core r /\ r_pinned q = r_pinned r.
Proof. unfold kept, core. intros [=]. split; congruence. Qed.
Lemma refresh_privacy_id item p creds text s r s' :
  refresh_privacy item p creds text s = Ok (r, s') -> r_id r = r_id item.
Proof.
  unfold refresh_privacy. case_match; [by intros [= <- _]|]. destruct (upsert_row _ s) as [s1|]; [|done].
  intros Hr%ok_inj. revert Hr. unfold reindex. destruct (secret _); [by intros [= <- _]|].
  case_match; [|by intros [= <- _]]. destruct (insert_fts_in_tx _ _ _ _). by intros [= <- _].
Qed.
Lemma fold_unchanged existing item icon p creds text s i s' :
  fold_into existing item icon p creds text s = Ok (i, false, s') \/
  fold_after_race existing item icon p creds text s = Ok (i, false, s') ->
  r_id (ingest_item i) = r_id existing /\ same_version existing (ingest_item i).
Proof.
  assert (Hv : forall b r, r_id b = r_id existing -> r_id r = r_id b -> row_changed existing r = false ->
            r_id r = r_id existing /\ same_version existing r).
  { intros b r H1 H2 [H3 H4]%orb_false_iff. apply negb_false_iff, Z.eqb_eq in H3.
    apply negb_false_iff, bool_decide_eq_true in H4. split; [congruence|]. by split. }
  unfold fold_into, fold_after_race. destruct (bump_in_tx existing _ _ _ _ s) as [b s1] eqn:Eb.
  pose proof (proj1 (bump_in_tx_kept _ _ _ _ _ _ _ _ Eb)) as Hk. unfold kept in Hk.
  intros [([r s2] & Hr & He)%bind_ok|([r s2] & Hr & He)%bind_ok]; injection He as <- Hc _;
    apply (Hv b); [congruence|by apply refresh_privacy_id in Hr|done|congruence|by apply refresh_privacy_id in Hr|done].
Qed.
(** A capture that changed nothing says so. *)
Lemma capture_unchanged {E} (of_store : StoreError -> E) item text seal s i s' :
  store_ok s -> insert_or_bump_late_sealed of_store item text seal s = Ok (i, false, s') ->
  exists q, items s !! r_id (ingest_item i) = Some q /\ same_version q (ingest_item i).
Proof.
  intros Hs. unfold insert_or_bump_late_sealed. intros ([[m icon] s1] & Hno & H)%bind_ok. rewrite map_err_ok in Hno.
  pose proof (normalise_ok _ _ _ _ _ _ _ _ Hs Hno) as Hs1.
  assert (Hback : forall ex, items s1 !! r_id ex = Some ex ->
            r_id (ingest_item i) = r_id ex /\ same_version ex (ingest_item i) ->
            exists q, items s !! r_id (ingest_item i) = Some q /\ same_version q (ingest_item i)).
  { intros ex Hh [-> [H1 H2]]. pose proof (normalise_rows _ _ _ _ _ _ _ _ (r_id ex) Hno) as Hk.
    destruct (items s !! r_id ex) as [q|]; [|congruence]. destruct Hk as (q' & Hq' & Es).
    apply same_but_icon_kept in Es as (_ & Es & Em). exists q. split; [done|]. split; congruence. }
  revert H. destruct (newest_live_with_representation _ _ _ s1) as [ex|] eqn:En.
  - destruct (representation_found _ _ _ _ Hs1 En) as (Hh & _). rewrite map_err_ok. intros Hf.
    apply (Hback ex Hh). by eapply fold_unchanged; left.
  - unfold insert_new. intros ([nonce ct] & _ & H)%bind_ok. revert H.
    destruct (match _ with Some t => insert_fts_in_tx _ t _ s1 | None => (None, s1) end) as [k s2] eqn:Ek.
    assert (Hi : items s2 = items s1).
    { revert Ek. case_match; [|by intros [= <- <-]]. intros Ek.
      match type of Ek with insert_fts_in_tx ?i ?t ?ct ?w = _ =>
        pose proof (proj1 (insert_fts_frame i t ct w)) as Hp end. by rewrite Ek in Hp. }
    destruct (insert_row _ s2) as [s3|] eqn:Ei; [intros H; discriminate H|].
    destruct (find_in_bucket _ _ _ _) as [ex|] eqn:Ef; [|done]. rewrite map_err_ok. intros Hf.
    assert (Hh : items s1 !! r_id ex = Some ex).
    { unfold find_in_bucket in Ef. match type of Ef with (if ?b then _ else _) = _ => destruct b; [done|] end. apply newest_in, list_elem_of_In, filter_In in Ef as [Ef _].
      apply list_elem_of_In, elem_of_rows in Ef as [j Hj].
      assert (Hj1 : items s1 !! j = Some ex) by (rewrite <- Hi; by destruct k).
      by rewrite (ok_keyed _ (ok_indexed _ Hs1) _ _ Hj1). }
    apply (Hback ex Hh). by eapply fold_unchanged; right.
Qed.

(** What one capture of an import does to a history. *)
Lemma capture_grows `{!MetadataLaws} {E} (of_store : StoreError -> E) item text seal s i c s' :
  store_ok s -> stamped s -> i64_min <= n_created_at item <= i64_max -> n_hash item <> ""%string ->
  insert_or_bump_late_sealed of_store item text seal s = Ok (i, c, s') ->
  store_ok s' /\ stamped s' /\ grown s s' /\ items s' !! r_id (ingest_item i) = Some (ingest_item i) /\
  r_deleted (ingest_item i) = false /\ r_hash (ingest_item i) = n_hash item /\ r_type (ingest_item i) = n_type item /\
  announced s s' (if c then Some (r_created_at (ingest_item i)) else None) /\
  (forall k, k <> r_id (ingest_item i) -> items s !! k = None -> items s' !! k = None) /\
  match i with Bumped r => is_Some (items s !! r_id r) | Inserted r => r_id r = n_id item end.
Proof.
  intros Hs Hst [Hn1 Hn2] Hh Hcap. assert (Hr : in_range64 s) by (intros k q Hq; by apply (Hst k)).
  destruct (capture_outcome _ _ _ _ _ _ _ _ Hs Hr (fun k q Hq => proj1 (Hst k q Hq)) Hn2 Hh Hcap)
    as (Hhold & Hl & Hha & Hty & Hoth & Hi).
  destruct (capture_quiet _ _ _ _ _ _ _ _ Hs Hr Hn2 Hcap) as (Hnone & Hf & Hsh & Hmax).
  pose proof (proj1 (capture_ok _ _ _ _ _ _ _ _ Hs Hcap)) as Hs'.
  set (r := ingest_item i) in *. unfold holds in Hhold.
  assert (Hback : forall k q', k <> r_id r -> items s' !! k = Some q' ->
            exists q, items s !! k = Some q /\ core q' = core q /\ same_version q q').
  { intros k q' Hk Hq'. destruct (items s !! k) as [q|] eqn:E0; [|by rewrite Hnone in Hq'].
    destruct (Hoth k q Hk E0) as (q2 & Hq2 & Es). rewrite Hq2 in Hq'. injection Hq' as ->.
    apply same_but_icon_kept in Es as (Ek & Ec & Em). exists q. split_and!; [done| |by split].
    symmetry. by apply kept_core. }
  assert (Hrmin : i64_min <= r_created_at r).
  { destruct i as [x|x]; cbn in r, Hi; subst r.
    - destruct (insert_or_bump_inserted _ _ _ _ _ _ _ _ Hs Hcap) as (_ & _ & _ & _ & -> & _). done.
    - destruct Hi as (q & Hq & _ & _ & Hle). pose proof (Hst _ _ Hq). lia. }
  split_and!; try done.
  - intros k q' Hq'. destruct (decide (k = r_id r)) as [->|Hk]; [rewrite Hhold in Hq'; by injection Hq' as <-|].
    destruct (Hback k q' Hk Hq') as (q & Hq & _ & Ec & _). rewrite Ec. by apply (Hst k).
  - split; [|done|done]. intros k q Hq. destruct (decide (k = r_id r)) as [->|Hk].
    + exists r. destruct i as [x|x]; cbn in r, Hi; subst r.
      * destruct Hi as (Hid & Habs & _). congruence.
      * destruct Hi as (q0 & Hq0 & _ & Ek & Hle). rewrite Hq in Hq0. injection Hq0 as <-.
        apply kept_core in Ek as [Ek Ep]. split_and!; [done..|congruence].
    + destruct (Hoth k q Hk Hq) as (q' & Hq' & Es). exists q'. apply same_but_icon_kept in Es as (Ek & Ec & _).
      apply kept_core in Ek as [Ek Ep]. split_and!; [done..|lia|congruence].
  - intros k q' Hq'. destruct (decide (k = r_id r)) as [->|Hk].
    + rewrite Hhold in Hq'. injection Hq' as <-. destruct c; [right; eexists; split; [done|lia]|left].
      exact (capture_unchanged _ _ _ _ _ _ _ Hs Hcap).
    + left. destruct (Hback k q' Hk Hq') as (q & Hq & _ & Hv). by exists q.
  - destruct i as [x|x]; cbn in Hi |- *; [by destruct Hi|]. destruct Hi as (q & Hq & _). by exists q.
Qed.
End Capture.

(** A capture's row is at least as new as the capture. *)
Lemma capture_forward {PC : PayloadCodecs} {MJ : MetadataJson} {DG : Digest} {ML : MetadataLaws}
    {E} (of_store : StoreError -> E) item text seal s i c s' :
  store_ok s -> stamped s -> i64_min <= n_created_at item <= i64_max -> n_hash item <> ""%string ->
  insert_or_bump_late_sealed of_store item text seal s = Ok (i, c, s') ->
  n_created_at item <= r_created_at (ingest_item i).
Proof.
  intros Hs Hst [Hn1 Hn2] Hh. unfold insert_or_bump_late_sealed. intros ([[m icon] s1] & Hno & H)%bind_ok.
  rewrite map_err_ok in Hno. pose proof (normalise_ok _ _ _ _ _ _ _ _ Hs Hno) as Hs1.
  assert (Hst1 : forall k q, items s1 !! k = Some q -> i64_min <= r_created_at q <= i64_max).
  { intros k q Hq. pose proof (normalise_rows _ _ _ _ _ _ _ _ k Hno) as Hk. destruct (items s !! k) as [q0|] eqn:E0; [|congruence].
    destruct Hk as (q' & Hq' & Es). apply same_but_icon_kept in Es as (_ & Es & _). rewrite Hq' in Hq. injection Hq as <-.
    rewrite <- Es. by apply (Hst k). }
  revert H. destruct (newest_live_with_representation _ _ _ s1) as [ex|] eqn:En.
  - destruct (representation_found _ _ _ _ Hs1 En) as (Hx & Hl & Hha & Hty).
    cbn [n_hash n_type with_n_metadata] in Hha, Hty. rewrite map_err_ok. unfold fold_into.
    destruct (bump_in_tx ex _ _ _ _ s1) as [b s2] eqn:Eb. intros ([r s3] & Hr & He)%bind_ok. injection He as <- _ _.
    destruct (bump_in_tx_quiet _ _ _ _ _ _ _ _ Hx Eb) as [_ Hmax]. cbn [n_created_at with_n_metadata] in Hmax.
    apply refresh_privacy_kept in Hr as (_ & Hr & _); [|pose proof (Hst1 _ _ Hx); lia]. cbn [ingest_item].
    transitivity (r_created_at b); [|done]. revert Eb. unfold bump_in_tx. cbn [n_created_at n_app_id n_app_name with_n_metadata].
    destruct (Z.leb_spec (n_created_at item) (r_created_at ex)); [by intros [= <- _]|].
    match goal with |- context [upsert_row ?q s1] => assert (Hc : dedup_clash q s1 = false) end.
    { apply (newest_moves_freely s1 ex); try done; [cbn; lia|]. intros k q Hq Hlq Hhq Htq.
      apply (newest_of_representation s1 (n_hash item) (n_type item) ex k q En Hq Hlq); [congruence..|by apply (Hst1 k)]. }
    intros Eb. rewrite (proj2 (upsert_row_some _ s1 _) (conj Hc eq_refl)) in Eb. injection Eb as <- _. done.
  - apply representation_absent in En; [|intros k q Hq; by apply (Hst1 k)|done].
    unfold insert_new. intros ([nonce ct] & _ & H)%bind_ok. revert H.
    destruct (match _ with Some t => insert_fts_in_tx _ t _ s1 | None => (None, s1) end) as [k s2] eqn:Ek.
    assert (Hi : items s2 = items s1).
    { revert Ek. case_match; [|by intros [= <- <-]]. intros Ek.
      match type of Ek with insert_fts_in_tx ?i ?t ?ct ?w = _ =>
        pose proof (proj1 (insert_fts_frame i t ct w)) as Hp end. by rewrite Ek in Hp. }
    destruct (insert_row _ s2) as [s3|] eqn:Ei; [by intros [= <- _ _]|].
    destruct (find_in_bucket _ _ _ _) as [ex|] eqn:Ef; [|done]. exfalso.
    unfold find_in_bucket in Ef. match type of Ef with (if ?b then _ else _) = _ => destruct b; [done|] end.
    apply newest_in, list_elem_of_In, filter_In in Ef as [Ef Hf]. apply list_elem_of_In, elem_of_rows in Ef as [j Hj].
    unfold is_live in Hf. rewrite !andb_true_iff, !String.eqb_eq, negb_true_iff in Hf.
    apply (En j ex); [rewrite <- Hi; by destruct k|tauto..].
Qed.

(** ** One item, and the loop *)

Section ImportSafety.
Context {PC : PayloadCodecs} {MJ : MetadataJson} {ML : MetadataLaws} {FJ : FileJson} {CC : CredentialCodecs}
        {DG : Digest} {DL : DigestLaws} {OC : OrgCodec} {OL : OrgCodecLaws} {K : ItemKey} {KL : ItemKeyLaws}
        {RA : RealArith}.

Definition importable (item : ExportItem) : Prop :=
  is_text (ex_type item) = true /\ i64_min <= ex_created_at item <= i64_max.
(** Why an import leaves an item out. *)
Definition refused (settings : ConfigData.t) (item : ExportItem) : Prop :=
  is_blank (as_bytes (ex_content item)) = true \/
  capture_limit_bytes settings (ex_type item) < str_len (ex_content item) \/
  encode_payload_metadata
    (classified (ex_content item) (ex_type item)
       (if privacy_is_empty (ex_privacy item) then None else Some (with_privacy (ex_privacy item) no_metadata)))
    (ex_type item) = Err InvalidMetadata.
Definition import_stamp (now : Z) (item : ExportItem) : Z :=
  Z.min (ex_created_at item) (i64_saturating_add now MAX_IMPORT_FUTURE_SKEW_MS).
(** The history has the item: a live row of its type, content hash and age, that
    is pinned if the item was, or will be. *)
Definition restored (stamp : Z) (item : ExportItem) (s : Store) (pins : list string) : Prop :=
  exists k q, items s !! k = Some q /\ r_deleted q = false /\ r_type q = ex_type item /\
    r_hash q = plaintext_content_hash (as_bytes (ex_content item)) /\ stamp <= r_created_at q /\
    (ex_pinned item = true -> r_pinned q = true \/ k ∈ pins).
Definition opens (s : Store) (q : Row) (content : string) : Prop :=
  decrypt (joined_ciphertext q s) (default [] (r_nonce q)) (r_id q) = Ok (as_bytes content).
Definition readable (s : Store) : Prop :=
  forall k q, items s !! k = Some q -> r_deleted q = false -> is_text (r_type q) = true ->
    exists content, opens s q content /\ r_hash q = plaintext_content_hash (as_bytes content).

Lemma restored_grows stamp item s s' pins pins' :
  restored stamp item s pins -> grown s s' -> pins ⊆ pins' -> restored stamp item s' pins'.
Proof.
  intros (k & q & Hq & Hl & Ht & Hh & Hc & Hp) Hg Hsub. destruct (gr_rows _ _ Hg k q Hq) as (q' & Hq' & Hk & Hle & Hpin).
  unfold core in Hk. exists k, q'. split_and!; [done|congruence..|lia|]. intros H. destruct (Hp H) as [?|?]; auto.
Qed.
Lemma opens_grown s s' q q' content :
  grown s s' -> core q' = core q -> opens s q content -> opens s' q' content.
Proof.
  intros [_ Hf Hsh] Hk. unfold core in Hk. injection Hk as K1 K2 K3 _ _ _ _ _. unfold opens, joined_ciphertext.
  by rewrite K1, K2, K3, Hf, Hsh.
Qed.
Definition i64_ok (z : Z) : Prop := i64_min <= z <= i64_max.
Lemma import_stamp_ok now item : i64_ok now -> importable item -> i64_ok (import_stamp now item).
Proof.
  intros [H1 H2] [_ [H3 H4]]. unfold import_stamp, i64_ok, i64_saturating_add, MAX_IMPORT_FUTURE_SKEW_MS, i64_min, i64_max in *. lia.
Qed.

(** What a turn of the loop leaves. *)
Record turn (settings : ConfigData.t) (now : Z) (item : ExportItem) (p p' : Progress) (s s' : Store) (id : string) : Prop := {
  tn_ok : store_ok s'; tn_stamped : stamped s'; tn_grown : grown s s';
  tn_readable : readable s -> readable s';
  tn_fresh k : k <> id -> items s !! k = None -> items s' !! k = None;
  tn_earlier : earlier (pg_oldest p) (pg_oldest p');
  tn_announced : announced s s' (pg_oldest p');
  tn_counted : im_inserted (pg_data p') + im_skipped (pg_data p') = im_inserted (pg_data p) + im_skipped (pg_data p) + 1;
  tn_inserted : im_inserted (pg_data p) <= im_inserted (pg_data p');
  tn_reasons : 0 <= im_skipped (pg_data p') - im_skipped (pg_data p)
    - (im_duplicate (pg_data p') + im_empty (pg_data p') + im_too_large (pg_data p')
       - im_duplicate (pg_data p) - im_empty (pg_data p) - im_too_large (pg_data p));
  tn_pins_failed : im_pins_failed (pg_data p') = im_pins_failed (pg_data p);
  tn_pins : (pg_pins p).*1 ⊆ (pg_pins p').*1;
  tn_oldest_pins : pg_pins p' = pg_pins p \/ exists k at_, pg_pins p' = pg_pins p ++ [(k, at_)];
  tn_told : pg_oldest p' = None -> im_inserted (pg_data p') = im_inserted (pg_data p);
  tn_item : refused settings item \/ restored (import_stamp now item) item s' (pg_pins p').*1;
}.
Lemma add_pin_sub wanted r l : l.*1 ⊆ (add_pin wanted r l).*1 /\
  (wanted = true -> r_pinned r = true \/ r_id r ∈ (add_pin wanted r l).*1) /\
  (add_pin wanted r l = l \/ exists k at_, add_pin wanted r l = l ++ [(k, at_)]).
Proof.
  unfold add_pin. destruct wanted; cbn; [|by split_and!; [|intros|left]]. destruct (r_pinned r); cbn; [by split_and!; [|left|left]|].
  rewrite fmap_app. split_and!; [set_solver|intros _; right; set_solver|right; by eexists _, _].
Qed.

Lemma late_sealed_error item text nonce b id s e :
  insert_or_bump_late_sealed Storage item text (map_err Crypto (encrypt nonce b id)) s = Err e ->
  match e with Crypto _ | Storage _ => True | _ => False end.
Proof.
  unfold insert_or_bump_late_sealed. destruct (normalise _ _ _ _ s) as [[[m icon] s1]|e0]; cbn [map_err mbind result_bind]; [|by intros [= <-]].
  destruct (newest_live_with_representation _ _ _ s1) as [ex|].
  - destruct (fold_into _ _ _ _ _ _ _); cbn [map_err]; [done|by intros [= <-]].
  - unfold insert_new. destruct (encrypt nonce b id) as [[n ct]|e0]; cbn [map_err mbind result_bind]; [|by intros [= <-]].
    destruct (match _ with Some t => insert_fts_in_tx _ t _ s1 | None => (None, s1) end) as [k s2].
    destruct (insert_row _ s2); [done|]. destruct (find_in_bucket _ _ _ _); [|by intros [= <-]].
    destruct (fold_after_race _ _ _ _ _ _ _); cbn [map_err]; [done|by intros [= <-]].
Qed.
Lemma readable_grown s s' r :
  readable s -> grown s s' -> (forall k, k <> r_id r -> items s !! k = None -> items s' !! k = None) ->
  items s' !! r_id r = Some r ->
  (is_Some (items s !! r_id r) \/ exists content, opens s' r content /\ r_hash r = plaintext_content_hash (as_bytes content)) ->
  readable s'.
Proof.
  intros Hr Hg Hn Hrow Hself k q Hq Hl Ht.
  assert (Hold : forall q0, items s !! k = Some q0 ->
            exists content, opens s' q content /\ r_hash q = plaintext_content_hash (as_bytes content)).
  { intros q0 Hq0. destruct (gr_rows _ _ Hg k q0 Hq0) as (q1 & Hq1 & Hk & _). rewrite Hq in Hq1. injection Hq1 as <-.
    pose proof Hk as Hk'. unfold core in Hk'. injection Hk' as _ _ _ E1 E2 E3 _ _.
    destruct (Hr k q0 Hq0) as (content & Ho & Hh); [congruence..|]. exists content.
    split; [by eapply opens_grown|congruence]. }
  destruct (decide (k = r_id r)) as [->|Hk].
  - rewrite Hrow in Hq. injection Hq as <-. destruct Hself as [[q0 Hq0]|?]; [by apply (Hold q0)|done].
  - destruct (items s !! k) as [q0|] eqn:E0; [by apply (Hold q0)|]. rewrite Hn in Hq by done. discriminate Hq.
Qed.
(** One capture of the loop. *)
Lemma batched_capture d now b item s i c s' :
  store_ok s -> stamped s -> i64_ok now -> importable item -> len (dr_nonce d) = NONCE_LEN ->
  file_payloads s !! dr_id d = None ->
  ingest_into_batched d b (ex_content item) (ex_type item) (import_stamp now item) (ex_privacy item) s = Ok (i, c, s') ->
  let r := into_item i in
  store_ok s' /\ stamped s' /\ grown s s' /\ (readable s -> readable s') /\
  (forall k, k <> dr_id d -> items s !! k = None -> items s' !! k = None) /\
  announced s s' (if c then Some (r_created_at r) else None) /\ (match i with Stored _ => c = true | _ => True end) /\
  items s' !! r_id r = Some r /\ r_deleted r = false /\ r_type r = ex_type item /\
  r_hash r = plaintext_content_hash (as_bytes (ex_content item)) /\ import_stamp now item <= r_created_at r.
Proof.
  intros Hs Hst Hnow Himp Hnonce Hfile H. unfold ingest_into_batched in H.
  apply ingest_text_ok in H as (_ & _ & json & i0 & s0 & _ & Hi & -> & ->). cbn [swept].
  pose proof (import_stamp_ok _ _ Hnow Himp) as Hat. pose proof (hash_not_empty (as_bytes (ex_content item))) as Hne.
  destruct (capture_grows Storage (text_item d (ex_content item) (ex_type item) (import_stamp now item) None None json)
              _ _ _ _ _ _ Hs Hst Hat Hne Hi) as (G1 & G2 & G3 & G4 & G5 & G6 & G7 & G8 & G9 & G10).
  pose proof (capture_forward Storage (text_item d (ex_content item) (ex_type item) (import_stamp now item) None None json)
              _ _ _ _ _ _ Hs Hst Hat Hne Hi) as Hfwd.
  assert (Hr : into_item (ingested_of i0) = ingest_item i0) by by destruct i0.
  rewrite Hr. cbn [n_type n_hash n_id n_created_at text_item] in G6, G7, G10, Hfwd.
  split_and!; try done.
  - intros Hread. apply (readable_grown s s0 (ingest_item i0) Hread G3 G9 G4). destruct i0 as [r|r]; [right|by left].
    destruct (insert_or_bump_inserted _ _ _ _ _ _ _ _ Hs Hi)
      as (_ & Hid & _ & Hrh & _ & _ & _ & _ & (nonce & e & Henc%map_err_ok & Hre & Hrn) & Hfp & _).
    destruct (aead_open _ _ _ _ _ Hnonce Henc) as (-> & Hdec & _). exists (ex_content item). cbn [ingest_item].
    split; [|exact Hrh]. unfold opens. rewrite (own_payload r e), Hrn, Hid; [exact Hdec|done|rewrite Hid; by apply Hfp].
  - intros k Hk Hz. apply G9; [|done]. destruct i0 as [r|r]; cbn in G10 |- *; [congruence|].
    intros ->. destruct G10 as [? G10]. congruence.
  - destruct i0 as [r|r]; [|done].
    by destruct (insert_or_bump_inserted _ _ _ _ _ _ _ _ Hs Hi) as (_ & _ & _ & _ & _ & _ & _ & _ & _ & _ & ->).
Qed.
Lemma import_one_turn d now b item p s p' s' :
  store_ok s -> stamped s -> i64_ok now -> importable item -> len (dr_nonce d) = NONCE_LEN ->
  file_payloads s !! dr_id d = None -> import_one d now b item p s = Ok (p', s') ->
  turn (batch_settings b) now item p p' s s' (dr_id d).
Proof.
  intros Hs Hst Hnow Himp Hnonce Hfile. unfold import_one. fold (import_stamp now item).
  destruct (ingest_into_batched _ _ _ _ _ _ s) as [[[i c] s1]|e] eqn:Ei.
  - destruct (batched_capture _ _ _ _ _ _ _ _ Hs Hst Hnow Himp Hnonce Hfile Ei)
      as (G1 & G2 & G3 & G4 & G5 & G6 & G7 & G8 & G9 & G10 & G11 & G12).
    assert (Hrest : forall pins, (ex_pinned item = true -> r_pinned (into_item i) = true \/ r_id (into_item i) ∈ pins) ->
              restored (import_stamp now item) item s1 pins).
    { intros pins Hp. exists (r_id (into_item i)), (into_item i). by split_and!. }
    destruct (add_pin_sub (ex_pinned item) (into_item i) (pg_pins p)) as (P1 & P2 & P3).
    destruct i as [r|r]; cbn [into_item] in *; intros [= <- <-]; split; cbn [pg_data pg_pins pg_oldest add_inserted add_skipped
      im_inserted im_skipped im_duplicate im_empty im_too_large im_pins_failed]; try assumption; try lia; try (right; by apply Hrest); try (intros Hx; discriminate Hx); try (intros _; reflexivity).
    + apply earlier_oldest.
    + subst c. intros k q Hq. destruct (G6 k q Hq) as [?|(a & [= <-] & Hle)]; [by left|right].
      eexists. split; [done|]. destruct (pg_oldest p); lia.
    + destruct c; [apply earlier_oldest|apply earlier_refl].
    + intros k q Hq. destruct (G6 k q Hq) as [?|(a & Ha & Hle)]; [by left|right]. destruct c; [|done]. injection Ha as <-.
      eexists. split; [done|]. destruct (pg_oldest p); lia.
  - assert (Hsame : announced s s (pg_oldest p)).
    { intros k q Hq. left. exists q. split; [done|]. by split. }
    assert (Hwhy : match e with Empty | TooLarge | InvalidMetadata => refused (batch_settings b) item | _ => True end).
    { revert Ei. unfold ingest_into_batched, ingest_text, refused. destruct (is_blank _) eqn:Eb; [intros [= <-]; by left|].
      cbn [refuse_if mbind result_bind]. destruct (Z.gtb_spec (str_len (ex_content item)) (capture_limit_bytes (batch_settings b) (ex_type item)));
        [intros [= <-]; by right; left|]. cbn [refuse_if mbind result_bind].
      destruct (encode_payload_metadata _ _) as [json|e'] eqn:Ee; cbn [mbind result_bind].
      - destruct (insert_or_bump_late_sealed _ _ _ _ _) as [[[i c] s0]|e'] eqn:Ex; cbn [mbind result_bind]; [done|].
        intros [= <-]. destruct e'; try done; exfalso; revert Ex; by apply late_sealed_error.
      - intros [= <-]. pose proof (encode_metadata_error _ _ _ Ee) as ->. by right; right. }
    destruct e; intros [= <- <-]; (split; cbn [pg_data pg_pins pg_oldest add_inserted add_skipped
      im_inserted im_skipped im_duplicate im_empty im_too_large im_pins_failed]; try assumption; try lia; try done;
      [apply grown_refl|apply earlier_refl|by left|by left]).
Qed.

Record drawable (w : Draws) (s : Store) : Prop := {
  dw_now i : i64_ok (now_of w i);
  dw_nonce i : len (dr_nonce (draw_of w i)) = NONCE_LEN;
  dw_files i : file_payloads s !! dr_id (draw_of w i) = None;
}.
(** Ids nobody has, and ciphers that work. *)
Record fresh_draws (w : Draws) (i : nat) (s : Store) : Prop := {
  fd_ids j : (i <= j)%nat -> items s !! dr_id (draw_of w j) = None;
  fd_distinct j k : dr_id (draw_of w j) = dr_id (draw_of w k) -> j = k;
  fd_encrypt j content : exists nc, encrypt (dr_nonce (draw_of w j)) (as_bytes content) (dr_id (draw_of w j)) = Ok nc;
}.
Lemma drawable_grown w s s' : grown s s' -> drawable w s -> drawable w s'.
Proof. intros Hg [H1 H2 H3]. split; [done|done|]. intros i. by rewrite (gr_files _ _ Hg). Qed.

Definition seen (p : Progress) : Z := im_inserted (pg_data p) + im_skipped (pg_data p).
Definition unexplained (p : Progress) : Z :=
  im_skipped (pg_data p) - (im_duplicate (pg_data p) + im_empty (pg_data p) + im_too_large (pg_data p)).
Record looped (w : Draws) (b : BatchScope) (i : nat) (l : list ExportItem) (fatal : option ImportError)
    (p p' : Progress) (s s' : Store) : Prop := {
  lp_ok : store_ok s'; lp_stamped : stamped s'; lp_grown : grown s s'; lp_readable : readable s -> readable s';
  lp_earlier : earlier (pg_oldest p) (pg_oldest p'); lp_announced : announced s s' (pg_oldest p');
  lp_seen : match fatal with None => seen p' = seen p + len l | Some _ => seen p <= seen p' < seen p + len l end;
  lp_inserted : im_inserted (pg_data p) <= im_inserted (pg_data p');
  lp_unexplained : unexplained p <= unexplained p';
  lp_pins_failed : im_pins_failed (pg_data p') = im_pins_failed (pg_data p);
  lp_pins : (pg_pins p).*1 ⊆ (pg_pins p').*1;
  lp_told : pg_oldest p' = None -> im_inserted (pg_data p') = im_inserted (pg_data p);
  lp_items : fatal = None -> forall j item, l !! j = Some item ->
    refused (batch_settings b) item \/ restored (import_stamp (now_of w (i + j)) item) item s' (pg_pins p').*1;
}.
Lemma import_loop_spec w b l : forall i p s fatal p' s',
  store_ok s -> stamped s -> drawable w s -> Forall importable l ->
  import_loop w b i l p s = (fatal, p', s') -> looped w b i l fatal p p' s s'.
Proof.
  induction l as [|item l IH]; intros i p s fatal p' s' Hs Hst Hd Hall; cbn [import_loop].
  - intros [= <- <- <-]. split; try done; try (unfold len; cbn; lia); [apply grown_refl|apply earlier_refl|].
    intros k q Hq. left. exists q. by split_and!.
  - apply Forall_cons in Hall as [Hitem Hall].
    destruct (import_one _ _ b item p s) as [[p1 s1]|e] eqn:E1.
    + destruct (import_one_turn _ _ _ _ _ _ _ _ Hs Hst (dw_now _ _ Hd i) Hitem (dw_nonce _ _ Hd i) (dw_files _ _ Hd i) E1)
        as [T1 T2 T3 T4 _ T6 T7 T8 T9 T10 T11 T12 _ Ttold T14].
      intros H2. destruct (IH _ _ _ _ _ _ T1 T2 (drawable_grown _ _ _ T3 Hd) Hall H2) as [L1 L2 L3 L4 L5 L6 L7 L8 L9 L10 L11 Ltold L12].
      split; try done; [by eapply grown_trans|by auto|by eapply earlier_trans|by eapply announced_trans| | | | | | |].
      * unfold seen in *. rewrite len_cons. destruct fatal; lia.
      * lia.
      * unfold unexplained in *. lia.
      * congruence.
      * etrans; [exact T12|exact L11].
      * intros Ho. rewrite Ltold by done. apply Ttold. destruct (pg_oldest p1) as [a|] eqn:Ea; [|done].
        destruct (L5 a eq_refl) as (? & ? & _). congruence.
      * intros Hf [|j] it; cbn; [intros [= <-]|].
        -- destruct T14 as [?|Hr]; [by left|right]. rewrite Nat.add_0_r. by eapply restored_grows.
        -- intros Hj. replace (i + S j)%nat with (S i + j)%nat by lia. by apply L12.
    + pose proof (len_nonneg l).
      intros [= <- <- <-]. split; try done; try (rewrite ?len_cons; lia); [apply grown_refl|apply earlier_refl|].
      intros k q Hq. left. exists q. by split_and!.
Qed.
Lemma import_one_succeeds w i b item p s :
  store_ok s -> stamped s -> drawable w s -> fresh_draws w i s -> importable item ->
  exists r, import_one (draw_of w i) (now_of w i) b item p s = Ok r.
Proof.
  intros Hs Hst Hd Hf Himp. unfold import_one. fold (import_stamp (now_of w i) item).
  pose proof (import_stamp_ok _ _ (dw_now _ _ Hd i) Himp) as [Hat1 Hat2].
  destruct (ingest_into_batched _ _ _ _ _ _ s) as [[[[r|r] c] s1]|e] eqn:Ei; [by eexists..|].
  destruct e as [| |e| |e]; try (by eexists); exfalso; revert Ei; unfold ingest_into_batched, ingest_text;
    (destruct (is_blank _); [done|]); cbn [refuse_if mbind result_bind];
    (destruct (_ >? _); [done|]); cbn [refuse_if mbind result_bind];
    (destruct (encode_payload_metadata _ _) as [json|e'] eqn:Ee; cbn [mbind result_bind];
       [|pose proof (encode_metadata_error _ _ _ Ee); subst e'; done]);
    destruct (fd_encrypt _ _ _ Hf i (ex_content item)) as [nc Hnc]; rewrite Hnc; cbn [map_err];
    match goal with |- context [insert_or_bump_late_sealed Storage ?it ?t (Ok nc) s] =>
      destruct (capture_succeeds Storage it t nc s Hs (fun k q Hq => proj2 (Hst k q Hq)) (fun k q Hq => proj1 (Hst k q Hq))
                  Hat2 (hash_not_empty _) (fd_ids _ _ _ Hf i (le_n i))) as [[[i0 c] s0] Ho]; rewrite Ho end; done.
Qed.
Lemma import_loop_succeeds w b l : forall i p s,
  store_ok s -> stamped s -> drawable w s -> fresh_draws w i s -> Forall importable l ->
  (import_loop w b i l p s).1.1 = None.
Proof.
  induction l as [|item l IH]; intros i p s Hs Hst Hd Hf Hall; cbn [import_loop]; [done|].
  apply Forall_cons in Hall as [Hitem Hall].
  destruct (import_one_succeeds w i b item p s Hs Hst Hd Hf Hitem) as [[p1 s1] E1]. rewrite E1.
  destruct (import_one_turn _ _ _ _ _ _ _ _ Hs Hst (dw_now _ _ Hd i) Hitem (dw_nonce _ _ Hd i) (dw_files _ _ Hd i) E1)
    as [T1 T2 T3 _ T5 _ _ _ _ _ _ _ _ _ _].
  apply IH; try done; [by eapply drawable_grown|]. destruct Hf as [F1 F2 F3]. split; [|done|done].
  intros j Hj. apply T5; [|apply F1; lia]. intros He%F2. lia.
Qed.

(** ** Pins *)

(** Only pins moved, and none was lost. *)
Record repinned (s s' : Store) : Prop := {
  rp_rows k : match items s !! k with
    | Some q => exists q', items s' !! k = Some q' /\ core q' = core q /\ same_version q q' /\
                           (r_pinned q = true -> r_pinned q' = true)
    | None => items s' !! k = None
    end;
  rp_files : file_payloads s' = file_payloads s;
  rp_shared : shared_payloads s' = shared_payloads s;
}.
Lemma repinned_refl s : repinned s s.
Proof. split; [|done..]. intros k. destruct (items s !! k) as [q|]; [by exists q|done]. Qed.
Lemma repinned_trans s1 s2 s3 : repinned s1 s2 -> repinned s2 s3 -> repinned s1 s3.
Proof.
  intros [A1 A2 A3] [B1 B2 B3]. split; [|congruence..]. intros k. specialize (A1 k). specialize (B1 k).
  destruct (items s1 !! k) as [q|]; [|by rewrite A1 in B1]. destruct A1 as (q1 & Hq1 & C1 & [D1 E1] & F1).
  rewrite Hq1 in B1. destruct B1 as (q2 & Hq2 & C2 & [D2 E2] & F2).
  exists q2. split_and!; [done|congruence|split; congruence|auto].
Qed.
Lemma repinned_grown s s' : repinned s s' -> grown s s'.
Proof.
  intros [H1 H2 H3]. split; [|done..]. intros k q Hq. specialize (H1 k). rewrite Hq in H1.
  destruct H1 as (q' & Hq' & Hc & [Hv _] & Hp). exists q'. split_and!; [done..|lia|done].
Qed.
Lemma repinned_stamped s s' : repinned s s' -> stamped s -> stamped s'.
Proof.
  intros [H1 _ _] Hst k q' Hq'. specialize (H1 k). destruct (items s !! k) as [q|] eqn:E; [|congruence].
  destruct H1 as (q2 & Hq2 & _ & [Hv _] & _). rewrite Hq' in Hq2. injection Hq2 as <-. rewrite Hv. by apply (Hst k).
Qed.
Lemma repinned_readable s s' : repinned s s' -> readable s -> readable s'.
Proof.
  intros Hr Hread k q' Hq' Hl Ht. pose proof (rp_rows _ _ Hr k) as H1. destruct (items s !! k) as [q|] eqn:E; [|congruence].
  destruct H1 as (q2 & Hq2 & Hc & _). rewrite Hq' in Hq2. injection Hq2 as <-. pose proof Hc as Hc'.
  unfold core in Hc'. injection Hc' as _ _ _ E1 E2 E3 _ _. destruct (Hread k q E) as (content & Ho & Hh); [congruence..|].
  exists content. split; [|congruence]. by apply (opens_grown s s' q q' content); [apply repinned_grown| |].
Qed.
Lemma org_write_payloads rng r now s s' :
  keyed (items s) -> org_write rng r now s = Ok s' ->
  file_payloads s' = file_payloads s /\ shared_payloads s' = shared_payloads s.
Proof.
  intros Hk. unfold org_write. intros (_ & (text & _ & H)%bind_ok)%bind_unit_ok. cbn zeta in H. revert H.
  match goal with |- (if ?b then _ else _) = _ -> _ => destruct b; [by intros [= <-]|] end. intros (bs & _ & (o & Ho & Hfin%ok_inj)%bind_ok)%bind_ok. subst s'. revert Ho.
  unfold org_upsert_in_tx. destruct (negb (valid_wire _ _ _ _)); [by intros <-%ok_inj|]. destruct (serde_record text) as [rec|]; [|done].
  intros <-%ok_inj. cbn [default]. unfold project. destruct rec; [done|done|].
  match goal with |- context [apply_pin_projection ?c ?t] => exact (pin_projection_payloads c t Hk) end.
Qed.
Lemma write_pin_repinned rng id now s s' :
  store_ok s -> write_pin rng id now s = Ok s' -> repinned s s'.
Proof.
  intros Hs Hw. pose proof (write_pin_positions rng id now s s' (ok_keyed _ (ok_indexed _ Hs)) Hw) as Hp.
  assert (Hpay : file_payloads s' = file_payloads s /\ shared_payloads s' = shared_payloads s).
  { revert Hw. unfold write_pin. destruct (items s !! id); [|by intros [= <-]]. case_match; [by intros [= <-]|].
    apply org_write_payloads. apply Hs. }
  destruct Hpay as [P1 P2]. split; [|done|done]. intros k. specialize (Hp k). destruct (items s !! k) as [q|]; [|done].
  destruct Hp as (q' & Hq' & Hsame). exists q'. pose proof (f_equal r_pinned Hsame) as Hpin. cbn in Hpin.
  split_and!; [exact Hq'|exact (eq_sym (f_equal core Hsame))| |by rewrite <- Hpin].
  split; [exact (eq_sym (f_equal r_created_at Hsame))|exact (eq_sym (f_equal r_metadata Hsame))].
Qed.
Lemma set_pinned_repinned rng id now later s b s' :
  store_ok s -> set_pinned rng true id true now later s = Ok (b, s') ->
  repinned s s' /\ (b = true -> exists q, items s' !! id = Some q /\ r_pinned q = true).
Proof.
  intros Hs H. pose proof H as H0. revert H. unfold set_pinned. destruct (get id s) as [r|] eqn:Eg; [|intros [= <- <-]; split; [apply repinned_refl|done]].
  destruct (get_some _ _ _ Hs Eg) as (Hh & <- & Hl).
  set (s1 := if r_pinned r then s else _). intros (s2 & Hw & [= <- <-])%bind_ok.
  assert (Hs1 : store_ok s1 /\ repinned s s1 /\ exists q, items s1 !! r_id r = Some q /\ r_pinned q = true).
  { subst s1. destruct (r_pinned r) eqn:Ep; [split_and!; [done|apply repinned_refl|by exists r]|].
    match goal with |- context [write_row ?q s] => set (x := q) end.
    split_and!; [apply (write_shape_ok s r); [done|exact Hh|split_and!; try done; intros _ Ht; cbn in Ht; congruence]| |].
    - destruct (write_same_quiet x r s Hh eq_refl) as [_ Q2 Q3]. split; [|done|done]. intros k. rewrite items_write_row.
      destruct (decide (k = r_id x)) as [->|Hk].
      + rewrite lookup_insert_eq. unfold holds in Hh. change (r_id x) with (r_id r). rewrite Hh. exists x. by split_and!.
      + rewrite lookup_insert_ne by done. destruct (items s !! k) as [q|]; [by exists q|done].
    - exists x. split; [|done]. rewrite items_write_row. apply lookup_insert_eq. }
  destruct Hs1 as (Hs1 & Hr1 & q & Hq & Hp). pose proof (write_pin_repinned _ _ _ _ _ Hs1 Hw) as Hr2.
  split; [by eapply repinned_trans|]. intros _. pose proof (rp_rows _ _ Hr2 (r_id r)) as H3. rewrite Hq in H3.
  destruct H3 as (q' & Hq' & _ & _ & Hp'). exists q'. auto.
Qed.
Lemma set_pinned_false rng id now later s s' : set_pinned rng true id true now later s = Ok (false, s') -> s' = s.
Proof.
  unfold set_pinned. destruct (get id s); [|by intros [= <-]]. intros (s2 & _ & He)%bind_ok. discriminate He.
Qed.
Lemma restore_pins_spec rng now later pins : forall d o s d' o' s',
  store_ok s -> restore_pins rng now later pins d o s = (d', o', s') ->
  store_ok s' /\ repinned s s' /\ earlier o o' /\ (exists n, 0 <= n /\ d' =
    {| im_inserted := im_inserted d; im_skipped := im_skipped d; im_duplicate := im_duplicate d; im_empty := im_empty d;
       im_too_large := im_too_large d; im_pins_failed := im_pins_failed d + n |} /\
    (n = 0 -> forall id, id ∈ pins.*1 -> exists q, items s' !! id = Some q /\ r_pinned q = true)).
Proof.
  induction pins as [|[id at_] pins IH]; intros d o s d' o' s' Hs; cbn [restore_pins].
  - intros [= <- <- <-]. split_and!; [done|apply repinned_refl|apply earlier_refl|].
    exists 0. split; [lia|]. split; [by destruct d; cbn; rewrite Z.add_0_r|]. intros _ id Hid. by apply elem_of_nil in Hid.
  - assert (Hfail : restore_pins rng now later pins (add_pin_failure d) o s = (d', o', s') ->
              store_ok s' /\ repinned s s' /\ earlier o o' /\ (exists n, 0 <= n /\ d' =
                {| im_inserted := im_inserted d; im_skipped := im_skipped d; im_duplicate := im_duplicate d; im_empty := im_empty d;
                   im_too_large := im_too_large d; im_pins_failed := im_pins_failed d + n |} /\
                (n = 0 -> forall j, j ∈ ((id, at_) :: pins).*1 -> exists q, items s' !! j = Some q /\ r_pinned q = true))).
    { intros H. destruct (IH _ _ _ _ _ _ Hs H) as (I1 & I2 & I3 & n & Hn & -> & _). split_and!; try done.
      exists (n + 1). cbn. split; [lia|]. split; [f_equal; lia|]. intros Hz. lia. }
    destruct (set_pinned _ _ id _ _ _ s) as [[[] s1]|e] eqn:E; [|apply set_pinned_false in E as ->; exact Hfail|exact Hfail].
    intros H. destruct (set_pinned_repinned _ _ _ _ _ _ _ Hs E) as [Hr Hpin].
    destruct (IH _ _ _ _ _ _ (set_pinned_ok _ _ _ _ _ _ _ _ _ Hs E) H) as (I1 & I2 & I3 & n & Hn & -> & I4).
    split_and!; [done|by eapply repinned_trans|eapply earlier_trans; [apply earlier_oldest|exact I3]|].
    exists n. split_and!; [done|done|]. intros Hz j [->|Hj]%elem_of_cons; [|by apply I4].
    destruct (Hpin eq_refl) as (q & Hq & Hp). pose proof (rp_rows _ _ I2 id) as H3. rewrite Hq in H3.
    destruct H3 as (q' & Hq' & _ & _ & Hp'). exists q'. auto.
Qed.

(** ** What an import promises *)

Definition start_progress : Progress := {| pg_data := no_imports; pg_pins := []; pg_oldest := None |}.
(** The oldest changed version a result names. *)
Definition told (r : result ImportError ImportOutcome) : option Z :=
  match r with Ok o => oldest_changed_at o | Err (Partial _ at_ _) => Some at_ | Err _ => None end.
Definition counts (r : result ImportError ImportOutcome) : ImportData :=
  match r with Ok o => out_data o | Err (Partial d _ _) => d | Err _ => no_imports end.
(** An import that got past its bounds; [s1] is the history before the sweep. *)
Definition restored_now (stamp : Z) (item : ExportItem) (pins_failed : Z) (s : Store) : Prop :=
  exists k q, items s !! k = Some q /\ r_deleted q = false /\ r_type q = ex_type item /\
    r_hash q = plaintext_content_hash (as_bytes (ex_content item)) /\ stamp <= r_created_at q /\
    (ex_pinned item = true -> pins_failed = 0 -> r_pinned q = true).
Record imported (w : Draws) (settings current : ConfigData.t) (wall : Z) (l : list ExportItem)
    (r : result ImportError ImportOutcome) (s s1 s' : Store) : Prop := {
  ip_ok : store_ok s1; ip_stamped : stamped s1; ip_grown : grown s s1; ip_readable : readable s -> readable s1;
  ip_announced : announced s s1 (told r);
  ip_seen : match r with
    | Ok o => im_inserted (out_data o) + im_skipped (out_data o) = len l
    | Err (Partial d _ _) => im_inserted d + im_skipped d < len l
    | Err _ => True
    end;
  ip_inserted : 0 <= im_inserted (counts r);
  ip_pins_failed : 0 <= im_pins_failed (counts r);
  ip_explained : im_duplicate (counts r) + im_empty (counts r) + im_too_large (counts r) <= im_skipped (counts r);
  ip_swept : s' = s1 \/ s' = sweep current wall s1 /\ 0 < im_inserted (counts r) /\ im_pins_failed (counts r) = 0;
  ip_items : forall o, r = Ok o -> forall j item, l !! j = Some item ->
    refused settings item \/ restored_now (import_stamp (now_of w j) item) item (im_pins_failed (out_data o)) s1;
  ip_succeeds : fresh_draws w 0 s -> exists o, r = Ok o;
}.
Lemma restored_settles stamp item s s' pins n :
  repinned s s' -> (n = 0 -> forall id, id ∈ pins -> exists q, items s' !! id = Some q /\ r_pinned q = true) ->
  restored stamp item s pins -> restored_now stamp item n s'.
Proof.
  intros Hr Hpins (k & q & Hq & Hl & Ht & Hh & Hc & Hp). pose proof (rp_rows _ _ Hr k) as H. rewrite Hq in H.
  destruct H as (q' & Hq' & Hk & [Hv _] & Hpq). unfold core in Hk. injection Hk as _ _ _ E1 E2 E3 _ _.
  exists k, q'. split_and!; [done|congruence..|lia|]. intros Hex Hn. destruct (Hp Hex) as [?|Hin]; [by apply Hpq|].
  destruct (Hpins Hn k Hin) as (x & Hx & Hxp). congruence.
Qed.
Lemma import_loop_fatal w b l : forall i p s e, (import_loop w b i l p s).1.1 = Some e ->
  match e with ImportCrypto _ | ImportStorage _ => True | _ => False end.
Proof.
  induction l as [|item l IH]; intros i p s e; cbn [import_loop]; [done|].
  destruct (import_one _ _ b item p s) as [[p1 s1]|e1] eqn:E; [apply IH|]. intros [= <-]. revert E. unfold import_one.
  destruct (ingest_into_batched _ _ _ _ _ _ s) as [[[[r|r] c] s1]|[| |e| |e]]; try done; by intros [= <-].
Qed.
Lemma import_outcome_spec w rng now later settings current wall l s r s' :
  store_ok s -> stamped s -> drawable w s -> Forall importable l -> l <> [] -> len l <= MAX_IMPORT_ITEMS ->
  import_outcome w rng now later settings current wall l s = (r, s') ->
  exists s1, imported w settings current wall l r s s1 s'.
Proof.
  intros Hs Hst Hd Hall Hne Hlen. unfold import_outcome.
  assert (Hl0 : (len l =? 0) = false) by (apply Z.eqb_neq; destruct l; [done|rewrite len_cons; pose proof (len_nonneg l); lia]).
  rewrite Hl0. destruct (Z.gtb_spec (len l) MAX_IMPORT_ITEMS); [lia|].
  assert (Htext : existsb (fun i => negb (is_text (ex_type i))) l = false).
  { apply not_true_is_false. intros (i & Hi & Hn)%existsb_exists. apply list_elem_of_In in Hi.
    rewrite Forall_forall in Hall. destruct (Hall i Hi) as [Ht _]. by rewrite Ht in Hn. }
  rewrite Htext. set (b := batch_with_current_policy settings current). fold start_progress.
  pose proof (import_loop_fatal w b l 0 start_progress s) as Hfatal.
  pose proof (fun Hf => import_loop_succeeds w b l 0 start_progress s Hs Hst Hd Hf Hall) as Hsucc.
  destruct (import_loop w b 0 l start_progress s) as [[fatal p] s0] eqn:El.
  destruct (import_loop_spec w b l 0 start_progress s fatal p s0 Hs Hst Hd Hall El) as [L1 L2 L3 L4 L5 L6 L7 L8 L9 L10 L11 Ltold L12].
  destruct (restore_pins rng now later (pg_pins p) (pg_data p) (pg_oldest p) s0) as [[data o] s1] eqn:Er.
  destruct (restore_pins_spec rng now later _ _ _ _ _ _ _ L1 Er) as (R1 & R2 & R3 & n & Hn & Hdata & Hpins).
  intros [= <- <-]. exists s1.
  assert (Hann : announced s s1 o).
  { eapply announced_trans; [exact L6|exact R3|by apply repinned_grown|]. intros k q' Hq'. left.
    pose proof (rp_rows _ _ R2 k) as H3. destruct (items s0 !! k) as [q|]; [|congruence].
    destruct H3 as (q2 & Hq2 & _ & Hv & _). rewrite Hq' in Hq2. injection Hq2 as <-. by exists q. }
  assert (Hz : im_pins_failed (pg_data p) = 0) by exact L10.
  assert (Hcounts : forall d, d = data -> 0 <= im_inserted d /\ 0 <= im_pins_failed d /\
            im_duplicate d + im_empty d + im_too_large d <= im_skipped d).
  { intros d ->. rewrite Hdata. cbn. unfold unexplained in L9. cbn in L8, L9. lia. }
  assert (Hseen : im_inserted data + im_skipped data = seen p) by by rewrite Hdata.
  assert (Hswept : forall r, counts r = data -> (if (0 <? im_inserted data) && (im_pins_failed data =? 0) then finish b wall s1 else disarm b s1) = s1 \/
            (if (0 <? im_inserted data) && (im_pins_failed data =? 0) then finish b wall s1 else disarm b s1) = sweep current wall s1 /\
            0 < im_inserted (counts r) /\ im_pins_failed (counts r) = 0).
  { intros r ->. destruct (Z.ltb_spec 0 (im_inserted data)), (Z.eqb_spec (im_pins_failed data) 0); cbn; [by right|by left..]. }
  assert (Hbase : store_ok s1 /\ stamped s1 /\ grown s s1 /\ (readable s -> readable s1)).
  { split_and!; [done|by eapply repinned_stamped|eapply grown_trans; [exact L3|by apply repinned_grown]|].
    intros Hread. eapply repinned_readable; eauto. }
  destruct Hbase as (B1 & B2 & B3 & B4). destruct (Hcounts data eq_refl) as (C1 & C2 & C3).
  destruct fatal as [e|].
  - specialize (Hfatal e eq_refl). destruct o as [at_|].
    + split; cbn [told counts]; try done; [cbn in L7; change (seen start_progress) with 0 in L7; lia|by apply (Hswept (Err (Partial data at_ e)))|].
      intros Hf. specialize (Hsucc Hf). discriminate Hsucc.
    + assert (Hno : im_inserted data = 0).
      { rewrite Hdata. cbn. rewrite Ltold; [done|]. destruct (pg_oldest p) as [a|] eqn:Ea; [|done].
        destruct (R3 a eq_refl) as (? & ? & _). congruence. }
      rewrite Hno. cbn [Z.ltb andb]. destruct e; try done;
        (split; cbn [told counts]; try done; [by left|intros Hf; specialize (Hsucc Hf); discriminate Hsucc]).
  - cbn in L7. change (seen start_progress) with 0 in L7. split; cbn [told counts out_data oldest_changed_at]; try done.
    + lia.
    + by apply (Hswept (Ok {| out_data := data; oldest_changed_at := o |})).
    + intros o0 [= <-] j item Hj. cbn [out_data]. destruct (L12 eq_refl j item Hj) as [?|Hrest]; [by left|right].
      apply (restored_settles _ _ s0 s1 (pg_pins p).*1); [done| |exact Hrest]. rewrite Hdata. cbn. rewrite Hz.
      intros Hnz. apply Hpins. lia.
    + intros _. by eexists.
Qed.
End ImportSafety.

(** ** What an export holds *)

Section ExportSafety.
Context {PC : PayloadCodecs} {MJ : MetadataJson} {DG : Digest} {K : ItemKey} {EJ : ExportJson}.

(** What one row becomes, if anything. *)
Definition exported (s : Store) (r : Row) : option ExportItem :=
  if is_text (r_type r)
  then match decrypt (joined_ciphertext r s) (default [] (r_nonce r)) (r_id r) with
       | Ok p => Some (export_item r (from_utf8_lossy p))
       | Err _ => None
       end
  else None.
Definition is_undecryptable (s : Store) (r : Row) : bool :=
  is_text (r_type r) && match exported s r with Some _ => false | None => true end.
(** The bytes of the items and the commas between them. *)
Definition frame_bytes (l : list ExportItem) : Z :=
  foldr (fun i n => item_json_len i + n) 0 l + Z.max 0 (len l - 1).
Definition tally (f : Row -> bool) (l : list Row) : Z := len (List.filter f l).

Lemma foldr_json_app l i : foldr (fun i n => item_json_len i + n) 0 (l ++ [i])
  = foldr (fun i n => item_json_len i + n) 0 l + item_json_len i.
Proof. induction l as [|x l IH]; cbn; [lia|rewrite IH; lia]. Qed.
Lemma try_push_spec item b b' l :
  item_bytes b = frame_bytes l -> budget_items b = len l -> try_push item b = Some b' ->
  item_bytes b' = frame_bytes (l ++ [item]) /\ budget_items b' = len (l ++ [item]) /\
  empty_response_bytes + frame_bytes (l ++ [item]) <= MAX_FRAME_BYTES.
Proof.
  intros Hb Hn. unfold try_push. destruct (_ >? _); [done|]. rewrite Hb, Hn.
  match goal with |- context [?a >? ?c] => destruct (Z.gtb_spec a c) as [|Hle] end; [done|]. intros [= <-]. cbn.
  assert (Hf : frame_bytes (l ++ [item]) = frame_bytes l + (if 0 <? len l then 1 else 0) + item_json_len item).
  { unfold frame_bytes. rewrite foldr_json_app, len_app. change (len [item]) with 1. pose proof (len_nonneg l).
    destruct (Z.ltb_spec 0 (len l)); lia. }
  rewrite Hf, len_app. change (len [item]) with 1. split_and!; lia.
Qed.
Definition fits (l : list ExportItem) : Prop := l = [] \/ empty_response_bytes + frame_bytes l <= MAX_FRAME_BYTES.
Record budgeted (b : ExportFrameBudget) (d : ExportData) : Prop := {
  bg_bytes : item_bytes b = frame_bytes (ex_items d); bg_items : budget_items b = len (ex_items d);
  bg_fits : fits (ex_items d);
  bg_skips : 0 <= skipped_non_text d <= u32_max /\ 0 <= skipped_undecryptable d <= u32_max;
}.
(** One row of the export. *)
Definition row_counted (s : Store) (r : Row) (d d' : ExportData) : Prop :=
  ex_items d' = ex_items d ++ match exported s r with Some i => [i] | None => [] end /\
  skipped_non_text d' = (if is_text (r_type r) then skipped_non_text d else count_skip (skipped_non_text d)) /\
  skipped_undecryptable d' = (if is_undecryptable s r then count_skip (skipped_undecryptable d) else skipped_undecryptable d).
Lemma count_skip_bounds n : 0 <= n <= u32_max -> 0 <= count_skip n <= u32_max.
Proof. unfold count_skip, u32_max. lia. Qed.
Lemma visit_spec limit s r b d stop b' d' :
  budgeted b d -> visit limit s r b d = Ok (stop, b', d') ->
  budgeted b' d' /\ row_counted s r d d' /\
  (stop = true <-> is_Some (exported s r) /\ 0 < limit <= len (ex_items d')).
Proof.
  intros [B1 B2 B3 [B4 B5]]. unfold visit, row_counted, is_undecryptable, exported.
  destruct (is_text (r_type r)) eqn:Et; cbn [negb andb].
  2: { intros [= <- <- <-]. cbn. rewrite app_nil_r. split; [split; try done; cbn; by split; [apply count_skip_bounds|]|].
       split; [done|]. split; [done|intros [[? H] _]; discriminate H]. }
  destruct (decrypt _ _ _) as [p|e].
  2: { intros [= <- <- <-]. cbn. rewrite app_nil_r. split; [split; try done; cbn; by split; [|apply count_skip_bounds]|].
       split; [done|]. split; [done|intros [[? H] _]; discriminate H]. }
  intros (_ & (b1 & Hb%ok_or_ok & [= <- <- <-])%bind_ok)%bind_unit_ok.
  destruct (try_push_spec _ _ _ _ B1 B2 Hb) as (P1 & P2 & P3). cbn. split; [split; [done|done|by right|done]|].
  split; [done|]. rewrite andb_true_iff, Z.ltb_lt, Z.leb_le. split; [intros [? ?]; split; [by eexists|lia]|intros [_ ?]; lia].
Qed.
(** The rows an export walked through. *)
Record walked (limit : Z) (s : Store) (l : list Row) (d d' : ExportData) : Prop := {
  wk_items : ex_items d' = ex_items d ++ omap (exported s) l;
  wk_text : skipped_non_text d' = Z.min u32_max (skipped_non_text d + tally (fun r => negb (is_text (r_type r))) l);
  wk_undecryptable : skipped_undecryptable d' = Z.min u32_max (skipped_undecryptable d + tally (is_undecryptable s) l);
}.
Lemma visit_all limit s l : forall b d d',
  budgeted b d -> (0 < limit -> len (ex_items d) < limit) -> visit_live_items limit s l b d = Ok d' ->
  fits (ex_items d') /\ exists l1 l2, l = l1 ++ l2 /\ walked limit s l1 d d' /\
    (0 < limit -> len (ex_items d') <= limit) /\ (l2 <> [] -> 0 < limit /\ len (ex_items d') = limit).
Proof.
  induction l as [|r l IH]; intros b d d' Hb Hlim; cbn [visit_live_items].
  - intros [= <-]. split; [apply Hb|]. exists [], []. destruct Hb as [_ _ _ [B1 B2]].
    split_and!; [done| |intros; specialize (Hlim ltac:(lia)); lia|done].
    split; cbn; [by rewrite app_nil_r|change (tally _ []) with 0; lia..].
  - intros ([[stop b1] d1] & Hv & H)%bind_ok. destruct (visit_spec _ _ _ _ _ _ _ _ Hb Hv) as (Hb1 & (R1 & R2 & R3) & Hstop).
    assert (Hone : walked limit s [r] d d1).
    { destruct Hb as [_ _ _ [B1 B2]]. split; cbn [omap list_omap].
      - rewrite R1. by destruct (exported s r).
      - rewrite R2. unfold tally, count_skip. cbn. destruct (is_text (r_type r)); cbn; unfold len; cbn; lia.
      - rewrite R3. unfold tally, count_skip. cbn. destruct (is_undecryptable s r); unfold len; cbn; lia. }
    assert (Hgrow : len (ex_items d1) <= len (ex_items d) + 1).
    { rewrite R1, len_app. destruct (exported s r); unfold len; cbn; lia. }
    destruct stop.
    + injection H as <-. destruct (proj1 Hstop eq_refl) as (_ & H1 & H2). split; [apply Hb1|]. exists [r], l.
      split_and!; [done|done|intros; specialize (Hlim ltac:(lia)); lia|intros _; specialize (Hlim ltac:(lia)); lia].
    + destruct (IH b1 d1 d' Hb1) as (Hf & l1 & l2 & -> & [W1 W2 W3] & Hle & Hrest); [|done|].
      { intros Hpos. destruct (Z.lt_ge_cases (len (ex_items d1)) limit) as [|Hge]; [done|]. exfalso.
        destruct (exported s r) as [i|] eqn:Ee; [discriminate (proj2 Hstop (conj (ex_intro _ i eq_refl) (conj Hpos Hge)))|].
        rewrite R1, app_nil_r in Hge. specialize (Hlim Hpos). lia. }
      split; [done|]. exists (r :: l1), l2. split_and!; [done| |done|done].
      destruct Hone as [O1 O2 O3]. split.
      * rewrite W1, O1, <- app_assoc. f_equal. cbn [omap list_omap]. by destruct (exported s r).
      * rewrite W2, O2. unfold tally, len. cbn. destruct (is_text (r_type r)); cbn; lia.
      * rewrite W3, O3. unfold tally, len. cbn. destruct (is_undecryptable s r); cbn; lia.
Qed.
Lemma elem_of_live_items s r : r ∈ live_items s <-> (exists k, items s !! k = Some r) /\ r_deleted r = false.
Proof.
  unfold live_items. rewrite merge_sort_Permutation, list_elem_of_In, filter_In, <- list_elem_of_In, elem_of_rows.
  unfold is_live. by rewrite negb_true_iff.
Qed.
Lemma empty_budget : budgeted budget_new {| ex_items := []; skipped_non_text := 0; skipped_undecryptable := 0 |}.
Proof. split; [done|done|by left|cbn; unfold u32_max; lia]. Qed.
End ExportSafety.

Section Backup.
Context {PC : PayloadCodecs} {MJ : MetadataJson} {ML : MetadataLaws} {FJ : FileJson} {CC : CredentialCodecs}
        {DG : Digest} {DL : DigestLaws} {OC : OrgCodec} {OL : OrgCodecLaws} {K : ItemKey} {KL : ItemKeyLaws}
        {RA : RealArith} {EJ : ExportJson}.

(** An export says what it left out.  It holds the live text rows that can
    be decrypted, in the order of the history, up to the limit the caller gave;
    each of the others it passed is in one of the two counts, which stop at the
    top of their type; and the whole response fits a frame. *)
Theorem export_accounts_for_every_row limit s d :
  0 <= limit -> export limit s = Ok d ->
  exists l1 l2, live_items s = l1 ++ l2 /\ ex_items d = omap (exported s) l1 /\
    skipped_non_text d = Z.min u32_max (tally (fun r => negb (is_text (r_type r))) l1) /\
    skipped_undecryptable d = Z.min u32_max (tally (is_undecryptable s) l1) /\
    len l1 = len (ex_items d) + tally (fun r => negb (is_text (r_type r))) l1 + tally (is_undecryptable s) l1 /\
    (limit = 0 -> l2 = []) /\ (0 < limit -> len (ex_items d) <= limit) /\
    (l2 <> [] -> len (ex_items d) = limit) /\
    (ex_items d <> [] -> empty_response_bytes + frame_bytes (ex_items d) <= MAX_FRAME_BYTES).
Proof.
  intros Hlimit He. destruct (visit_all limit s _ _ _ d empty_budget ltac:(done) He) as (Hf & l1 & l2 & Hl & [W1 W2 W3] & Hle & Hrest).
  cbn in W1, W2, W3. exists l1, l2. split_and!; try done.
  - rewrite W1. clear. unfold tally, is_undecryptable, exported, len. induction l1 as [|r l IH]; [done|]. cbn [omap list_omap List.filter].
    destruct (is_text (r_type r)); cbn [negb andb]; [|cbn [length]; lia].
    destruct (decrypt _ _ _); cbn [length]; lia.
  - intros ->. destruct l2 as [|r l2]; [done|]. by destruct (Hrest ltac:(done)) as [? _].
  - intros H2. by apply Hrest.
  - intros Hne. by destruct Hf.
Qed.

(** An import changes only what it reports.  A malformed batch changes
    nothing.  Otherwise every item is counted once, with its reason if it was
    left out; no row that was there is lost, altered in content or unpinned;
    every row with a new version is as new as the oldest the result names, also
    when the import fails half-way; and history is only trimmed by an import
    that added rows and restored every pin. *)
Theorem import_changes_only_what_it_reports w rng now later settings current wall l s r s' :
  store_ok s -> stamped s -> drawable w s -> Forall (fun i => i64_ok (ex_created_at i)) l ->
  import_outcome w rng now later settings current wall l s = (r, s') ->
  (s' = s /\ told r = None /\
   (r = Err NothingToImport /\ l = [] \/ r = Err TooManyItems /\ MAX_IMPORT_ITEMS < len l \/
    r = Err UnsupportedContentType /\ exists i, i ∈ l /\ is_text (ex_type i) = false)) \/
  exists s1, grown s s1 /\ announced s s1 (told r) /\
    (s' = s1 \/ s' = sweep current wall s1 /\ 0 < im_inserted (counts r) /\ im_pins_failed (counts r) = 0) /\
    im_duplicate (counts r) + im_empty (counts r) + im_too_large (counts r) <= im_skipped (counts r) /\
    match r with
    | Ok o => im_inserted (out_data o) + im_skipped (out_data o) = len l
    | Err (Partial d _ _) => im_inserted d + im_skipped d < len l
    | Err _ => True
    end.
Proof.
  intros Hs Hst Hd Hall H. destruct (decide (l = [])) as [->|Hne].
  { left. cbn in H. injection H as <- <-. split_and!; [done|done|by left]. }
  destruct (Z.le_gt_cases (len l) MAX_IMPORT_ITEMS) as [Hle|Hgt].
  - destruct (decide (Forall (fun i => is_text (ex_type i) = true) l)) as [Ht|Ht].
    + right. destruct (import_outcome_spec w rng now later settings current wall l s r s' Hs Hst Hd) as [s1 [I1 I2 I3 I4 I5 I6 I7 I8 I9 I10 I11 I12]];
        [|done..|]; [rewrite Forall_forall in *; intros i Hi; split; [by apply Ht|by apply Hall]|]. by exists s1.
    + left. revert H. unfold import_outcome. rewrite (proj2 (Z.eqb_neq _ _)) by (destruct l; [done|rewrite len_cons; pose proof (len_nonneg l); lia]).
      destruct (Z.gtb_spec (len l) MAX_IMPORT_ITEMS); [lia|].
      apply not_Forall_Exists in Ht; [|apply _]. apply Exists_exists in Ht as (i & Hi & Hn). apply not_true_is_false in Hn.
      rewrite (proj2 (existsb_exists _ l)) by (exists i; split; [by apply list_elem_of_In|by rewrite Hn]).
      intros [= <- <-]. split_and!; [done|done|]. right; right. split; [done|by exists i].
  - left. revert H. unfold import_outcome. rewrite (proj2 (Z.eqb_neq _ _)) by (unfold MAX_IMPORT_ITEMS in Hgt; lia).
    destruct (Z.gtb_spec (len l) MAX_IMPORT_ITEMS); [|lia]. intros [= <- <-]. split_and!; [done|done|by right; left].
Qed.

(** C21: A backup restores the history. What was exported whole from one history, at
    least one item and at most the 10 000 an import takes, and is imported into
    another arrives: before any sweep the other history has, for every live text of
    the first that opens to valid UTF-8, a live row of its type and hash that is at
    least as new as the original or the clock allows, pinned if the original was and
    no pin failed, and that opens to a text of that hash; unless the item is blank,
    over the importer's limit or its privacy cannot be written. Both histories are
    read with the same item key, as on one device, and every stamp is a 64-bit
    integer; the other history is well formed and its own texts open; and the ids,
    nonces and times drawn for the import work: sealing succeeds, and no id is drawn
    twice or is in use there. *)
Theorem backup_restores_history s d w rng now later settings current wall t :
  stamped s -> export 0 s = Ok d -> ex_items d <> [] -> len (ex_items d) <= MAX_IMPORT_ITEMS ->
  store_ok t -> stamped t -> readable t -> drawable w t -> fresh_draws w 0 t ->
  exists o t1 t', import_outcome w rng now later settings current wall (ex_items d) t = (Ok o, t') /\
    (t' = t1 \/ t' = sweep current wall t1) /\
    forall k r content, items s !! k = Some r -> r_deleted r = false -> is_text (r_type r) = true ->
      opens s r content -> utf8_valid (as_bytes content) = true ->
      refused settings (export_item r content) \/
      exists k' q content' i, items t1 !! k' = Some q /\ r_deleted q = false /\ r_type q = r_type r /\
        r_hash q = plaintext_content_hash (as_bytes content) /\
        import_stamp (now_of w i) (export_item r content) <= r_created_at q /\
        (r_pinned r = true -> im_pins_failed (out_data o) = 0 -> r_pinned q = true) /\
        opens t1 q content' /\ plaintext_content_hash (as_bytes content') = plaintext_content_hash (as_bytes content).
Proof.
  intros Hst He Hne Hlen Ht Htst Hread Hd Hf.
  destruct (visit_all 0 s _ _ _ d empty_budget ltac:(done) He) as (_ & l1 & l2 & Hl & [W1 _ _] & _ & Hrest).
  assert (l2 = []) as -> by (destruct l2; [done|]; by destruct (Hrest ltac:(done)) as [? _]). rewrite app_nil_r in Hl. cbn in W1.
  assert (Hall : Forall importable (ex_items d)).
  { rewrite W1, Forall_forall. intros i (r & Hr & Hi)%list_elem_of_omap. rewrite <- Hl in Hr.
    apply elem_of_live_items in Hr as [[k Hk] _]. revert Hi. unfold exported. destruct (is_text (r_type r)) eqn:Et; [|done].
    destruct (decrypt _ _ _); [|done]. intros [= <-]. split; [done|]. exact (Hst k r Hk). }
  destruct (import_outcome w rng now later settings current wall (ex_items d) t) as [res t'] eqn:Ei.
  destruct (import_outcome_spec _ _ _ _ _ _ _ _ _ _ _ Ht Htst Hd Hall Hne Hlen Ei) as [t1 [I1 I2 I3 I4 I5 I6 I7 I8 I9 I10 I11 I12]].
  destruct (I12 Hf) as [o ->]. exists o, t1, t'. split; [done|]. split; [destruct I10 as [?|[? _]]; auto|].
  intros k r content Hr Hlive Htext Hopen Hu.
  assert (Hin : export_item r content ∈ ex_items d).
  { rewrite W1. apply list_elem_of_omap. exists r. rewrite <- Hl, elem_of_live_items. split; [split; [by exists k|done]|].
    unfold exported. rewrite Htext. unfold opens in Hopen. by rewrite Hopen, from_utf8_lossy_valid. }
  apply list_elem_of_lookup in Hin as [j Hj]. destruct (I11 o eq_refl j _ Hj) as [?|(k' & q & Hq & Hql & Hqt & Hqh & Hqc & Hqp)]; [by left|right].
  cbn [export_item ex_type ex_content ex_pinned] in Hqt, Hqh, Hqp.
  destruct (I4 Hread k' q Hq Hql) as (content' & Ho & Hh); [by rewrite Hqt|].
  exists k', q, content', j. split_and!; try done. congruence.
Qed.
End Backup.

(** ** Witnesses *)

#[local] Existing Instances HistoryDemo.codecs HistoryDemo.json HistoryDemo.laws IngestDemo.files no_codecs
  BinaryDemo.key BinaryDemo.key_laws OrgDemo.codec OrgDemo.codec_laws PinDemo.arith BinaryDemo.digest BinaryDemo.digest_laws.
Module BackupDemo.
#[export] Instance json : ExportJson :=
  {| item_json_len := fun i => str_len (ex_content i) + 120; empty_response_bytes := 180 |}.
Definition draws : Draws :=
  {| draw_of := fun i => {| dr_id := of_bytes (repeat (byte_of 97) (S i)); dr_nonce := BinaryDemo.nonce;
                            dr_stream_nonce := BinaryDemo.stream_nonce |};
     now_of := fun _ => 9000 |}.
Definition settings : ConfigData.t := default_config.
(** One pinned text of the history that is exported. *)
Definition history : Store :=
  match ingest_text (draw_of draws 0) "alpha beta" TEXT 5000 None None None settings Deferred empty_store with
  | Ok (_, _, s) => match set_pinned (fun _ => BinaryDemo.nonce) false "a" true 6000 6000 s with
                    | Ok (_, s) => s | Err _ => s end
  | Err _ => empty_store end.
Definition backup : ExportData :=
  match export 0 history with Ok d => d | Err _ => {| ex_items := []; skipped_non_text := 0; skipped_undecryptable := 0 |} end.
Definition restored_into (l : list ExportItem) (t : Store) :=
  import_outcome draws (fun _ => BinaryDemo.nonce) (fun _ => 9000) (fun _ => 9000) settings settings 9000 l t.
Lemma exported_it : export 0 history = Ok backup.
Proof. vm_compute. reflexivity. Qed.
Lemma history_stamped : stamped history.
Proof.
  intros k q Hq. apply (HistoryDemo.stamps_in_range_spec history) with k; [vm_compute; reflexivity|exact Hq].
Qed.
Lemma empty_stamped : stamped empty_store.
Proof. intros k q Hq. discriminate Hq. Qed.
Lemma draws_work : drawable draws empty_store.
Proof. split; [intros i; cbn; unfold i64_ok, i64_min, i64_max; lia|intros i; vm_compute; reflexivity|done]. Qed.
Lemma draws_fresh : fresh_draws draws 0 empty_store.
Proof.
  split; [done| |].
  - intros j k Hjk. apply (f_equal as_bytes) in Hjk. cbn [dr_id draw_of draws] in Hjk. rewrite !as_of_bytes in Hjk.
    apply (f_equal length) in Hjk. rewrite !repeat_length in Hjk. lia.
  - intros j content. eexists. unfold encrypt. cbn. reflexivity.
Qed.
End BackupDemo.
Import BackupDemo.

Lemma export_accounts_for_every_row_witness :
  export 1 history = Ok backup /\ len (ex_items backup) = 1 /\ exists l1 l2, live_items history = l1 ++ l2 /\ ex_items backup = omap (exported history) l1.
Proof.
  assert (He : export 1 history = Ok backup) by (vm_compute; reflexivity).
  destruct (export_accounts_for_every_row 1 history backup ltac:(lia) He) as (l1 & l2 & H1 & H2 & _).
  split; [exact He|]. split; [vm_compute; reflexivity|]. exists l1, l2. exact (conj H1 H2).
Defined.
Lemma import_changes_only_what_it_reports_witness :
  exists d o s' s1, restored_into (ex_items backup ++ ex_items backup) empty_store
      = (Ok {| out_data := d; oldest_changed_at := o |}, s') /\
    im_inserted d = 1 /\ im_duplicate d = 1 /\ grown empty_store s1 /\ (s' = s1 \/ s' = sweep settings 9000 s1).
Proof.
  destruct (restored_into (ex_items backup ++ ex_items backup) empty_store) as [r s'] eqn:E.
  assert (Hr : r = Ok {| out_data := out_data (match r with Ok o => o | Err _ => {| out_data := no_imports; oldest_changed_at := None |} end);
                         oldest_changed_at := Some 5000 |} /\
    match r with Ok o => im_inserted (out_data o) = 1 /\ im_duplicate (out_data o) = 1 | Err _ => False end).
  { change r with (r, s').1. rewrite <- E. split; vm_compute; [reflexivity|split; reflexivity]. }
  destruct Hr as [Hr Hc]. destruct r as [o|e]; [|destruct Hc].
  assert (Hdates : Forall (fun i => i64_ok (ex_created_at i)) (ex_items backup ++ ex_items backup)).
  { assert (Hb : forallb (fun i => (i64_min <=? ex_created_at i) && (ex_created_at i <=? i64_max)) (ex_items backup ++ ex_items backup) = true)
      by (vm_compute; reflexivity).
    rewrite forallb_forall in Hb. rewrite Forall_forall. intros i Hi. apply list_elem_of_In, Hb in Hi. unfold i64_ok. lia. }
  destruct (import_changes_only_what_it_reports draws (fun _ => BinaryDemo.nonce) (fun _ => 9000) (fun _ => 9000) settings settings 9000
              _ _ _ _ HistoryDemo.empty_ok empty_stamped draws_work
              Hdates E) as [(_ & Hn & _)|(s1 & Hg & _ & Hs & _)].
  - rewrite Hr in Hn. discriminate Hn.
  - exists (out_data o), (Some 5000), s', s1. split; [f_equal; exact Hr|]. split; [apply Hc|]. split; [apply Hc|]. split; [exact Hg|].
    destruct Hs as [Hs|[Hs _]]; [left|right]; exact Hs.
Defined.
Lemma backup_restores_history_witness :
  exists o t1 t' k' q, restored_into (ex_items backup) empty_store = (Ok o, t') /\
    im_inserted (out_data o) = 1 /\ im_pins_failed (out_data o) = 0 /\
    items t1 !! k' = Some q /\ r_pinned q = true /\ 5000 <= r_created_at q.
Proof.
  destruct (backup_restores_history history backup draws (fun _ => BinaryDemo.nonce) (fun _ => 9000) (fun _ => 9000)
              settings settings 9000 empty_store history_stamped exported_it) as (o & t1 & t' & Ho & _ & Hall);
    [vm_compute; discriminate|vm_compute; discriminate|exact HistoryDemo.empty_ok|exact empty_stamped| |exact draws_work|exact draws_fresh|].
  { intros k q Hq. discriminate Hq. }
  assert (Hc : match (restored_into (ex_items backup) empty_store).1 with
               | Ok o => im_inserted (out_data o) = 1 /\ im_pins_failed (out_data o) = 0 | Err _ => False end)
    by (vm_compute; split; reflexivity).
  unfold restored_into in Hc. rewrite Ho in Hc. cbn [fst] in Hc. destruct Hc as [Hc1 Hc2].
  assert (Hrow : exists r, items history !! "a"%string = Some r /\
    r_deleted r = false /\ is_text (r_type r) = true /\ opens history r "alpha beta" /\ r_pinned r = true /\
    r_created_at r = 5000 /\ r_type r = TEXT /\ r_metadata r = None).
  { destruct (items history !! "a"%string) as [r|] eqn:Er; [|vm_compute in Er; discriminate Er].
    exists r. assert (Hin := in_rows _ _ _ Er).
    assert (Hb : forallb (fun r => negb (r_deleted r) && is_text (r_type r) && r_pinned r && (r_created_at r =? 5000) && String.eqb (r_type r) TEXT && bool_decide (r_metadata r = None)
                   && match decrypt (joined_ciphertext r history) (default [] (r_nonce r)) (r_id r) with
                      | Ok p => bool_decide (p = as_bytes "alpha beta") | Err _ => false end) (rows history) = true)
      by (vm_compute; reflexivity).
    rewrite forallb_forall in Hb. specialize (Hb r Hin). rewrite !andb_true_iff in Hb.
    destruct Hb as ((((((H1 & H2) & H3) & H4) & H6) & H7) & H5). split; [reflexivity|]. split; [by apply negb_true_iff|]. split; [exact H2|].
    split; [|split; [exact H3|split; [by apply Z.eqb_eq|split; [by apply String.eqb_eq|by apply bool_decide_eq_true in H7]]]]. unfold opens. destruct (decrypt _ _ _); [|discriminate H5].
    apply bool_decide_eq_true in H5. by rewrite H5. }
  destruct Hrow as (r & Hr & Hl & Ht & Ho' & Hp & Hat & Hty & Hmeta).
  destruct (Hall "a"%string r "alpha beta"%string Hr Hl Ht Ho' ltac:(vm_compute; reflexivity)) as [Href|H].
  - exfalso. destruct Href as [H|[H|H]].
    + vm_compute in H. discriminate H.
    + cbn [export_item ex_type ex_content] in H. rewrite Hty in H. vm_compute in H. discriminate H.
    + revert H. cbn [export_item ex_type ex_content ex_privacy]. unfold clipboard_privacy. rewrite Hty, Hmeta. vm_compute. intros H. discriminate H.
  - destruct H as (k' & q & c' & i & Hq & _ & _ & _ & Hst & Hpin & _).
    exists o, t1, t', k', q. split; [exact Ho|]. split; [exact Hc1|]. split; [exact Hc2|]. split; [exact Hq|].
    split; [exact (Hpin Hp Hc2)|]. unfold import_stamp in Hst. cbn [export_item ex_created_at now_of draws] in Hst.
    rewrite Hat in Hst. vm_compute in Hst. revert Hst. clear. intros Hst. exact Hst.
Defined.
