(* ===== verification/CloudRow.v ===== *)
(** One row of the cloud table ([copypaste-cloud/src/rest/item.rs],
    [crypto/row.rs], [crypto/sign.rs]): how it is sealed, what its signature
    covers, and what makes it fit to send. *)

From S2P Require Import Prelude Bytes Text Wire Binary Payload.
From Stdlib Require DecimalString DecimalZ.

(** [format!("{}", n)] of an [i64]. *)
Definition show_z (z : Z) : string := DecimalString.NilZero.string_of_int (Z.to_int z).

Inductive CloudCryptoError := CloudMalformed | CloudAuthFailed | SignatureInvalid | CloudInternal.

(** The two keys a passphrase gives, and the primitives they are used with:
    XChaCha20-Poly1305 and HMAC-SHA256. *)
Class SyncKey := {
  row_aead_encrypt : bytes -> bytes -> bytes -> option bytes;
  row_aead_decrypt : bytes -> bytes -> bytes -> option bytes;
  row_hmac : bytes -> bytes;
}.
Class SyncKeyLaws `{SyncKey} : Prop := {
  row_aead_inverse n a p c : row_aead_encrypt n a p = Some c ->
    row_aead_decrypt n a c = Some p /\ len c = len p + TAG_LEN;
}.
(** [base64]'s standard engine decodes what it encoded, and pads. *)
Class Base64Laws `{PayloadCodecs} : Prop := {
  base64_inverse b : base64_decode (base64_encode b) = Some b;
  base64_length b : str_len (base64_encode b) = (len b + 2) / 3 * 4;
}.

(** ** The row *)

Module CloudItem.
Record t := {
  item_id : string; ciphertext : string; nonce : string; content_type : string;
  payload_metadata : option string; source_app_bundle_id : option string; source_app_name : option string;
  created_at : Z; deleted : bool; origin_device_id : string; signature : string;
}.
Definition with_signature (s : string) (i : t) : t :=
  {| item_id := item_id i; ciphertext := ciphertext i; nonce := nonce i; content_type := content_type i;
     payload_metadata := payload_metadata i; source_app_bundle_id := source_app_bundle_id i;
     source_app_name := source_app_name i; created_at := created_at i; deleted := deleted i;
     origin_device_id := origin_device_id i; signature := s |}.
Definition tombstone (id content_type : string) (created_at : Z) (origin : string) : t :=
  {| item_id := id; ciphertext := ""; nonce := ""; content_type := content_type; payload_metadata := None;
     source_app_bundle_id := None; source_app_name := None; created_at := created_at; deleted := true;
     origin_device_id := origin; signature := "" |}.
(** [sealed], with the two columns already in base64. *)
Definition from_sealed_b64 (id ciphertext nonce content_type : string) (created_at : Z) (origin : string) : t :=
  {| item_id := id; ciphertext := ciphertext; nonce := nonce; content_type := content_type;
     payload_metadata := None; source_app_bundle_id := None; source_app_name := None;
     created_at := created_at; deleted := false; origin_device_id := origin; signature := "" |}.
End CloudItem.

(** ** Sealing *)

Definition CLOUD_AAD_PREFIX : string := "copypaste/v2/cloud-row-aead|".
Definition CLOUD_AAD_SCHEMA_VERSION : nat := 1.
(** [<byte-len>:<bytes>]. *)
Definition framed (s : string) : string := String.append (show_nat (String.length s)) (String ":" s).
Definition cloud_aad (item_id : string) : bytes :=
  as_bytes (String.append CLOUD_AAD_PREFIX
              (String.append (show_nat CLOUD_AAD_SCHEMA_VERSION) (String "|" (framed item_id)))).

Section Row.
Context {PC : PayloadCodecs} {SK : SyncKey}.
Definition sealed (id : string) (ciphertext nonce : bytes) (content_type : string) (created_at : Z)
    (origin : string) : CloudItem.t :=
  CloudItem.from_sealed_b64 id (base64_encode ciphertext) (base64_encode nonce) content_type created_at origin.
(** The drawn nonce is an argument; the pair is nonce and ciphertext. *)
Definition encrypt_row (drawn : bytes) (plaintext : bytes) (item_id : string)
    : result CloudCryptoError (string * string) :=
  c ← ok_or CloudInternal (row_aead_encrypt drawn (cloud_aad item_id) plaintext);
  Ok (base64_encode drawn, base64_encode c).
Definition decrypt_row (ciphertext_b64 nonce_b64 item_id : string) : result CloudCryptoError bytes :=
  nonce ← ok_or CloudMalformed (base64_decode nonce_b64);
  _ ← refuse_if (negb (len nonce =? NONCE_LEN)) CloudMalformed;
  ciphertext ← ok_or CloudMalformed (base64_decode ciphertext_b64);
  _ ← refuse_if (len ciphertext <? TAG_LEN) CloudAuthFailed;
  ok_or CloudAuthFailed (row_aead_decrypt nonce (cloud_aad item_id) ciphertext).

(** ** Signing *)

Definition SIGNATURE_PREFIX : string := "copypaste/v2/cloud-row-sig|".
Definition SIGNATURE_SCHEMA_VERSION : nat := 2.
Record RowMetadata := {
  rm_item_id : string; rm_ciphertext : string; rm_nonce : string; rm_content_type : string;
  rm_payload_metadata : option string; rm_source_app_bundle_id : option string;
  rm_source_app_name : option string; rm_created_at : Z; rm_deleted : bool; rm_origin_device_id : string;
}.
Definition metadata (i : CloudItem.t) : RowMetadata :=
  {| rm_item_id := CloudItem.item_id i; rm_ciphertext := CloudItem.ciphertext i; rm_nonce := CloudItem.nonce i;
     rm_content_type := CloudItem.content_type i; rm_payload_metadata := CloudItem.payload_metadata i;
     rm_source_app_bundle_id := CloudItem.source_app_bundle_id i;
     rm_source_app_name := CloudItem.source_app_name i; rm_created_at := CloudItem.created_at i;
     rm_deleted := CloudItem.deleted i; rm_origin_device_id := CloudItem.origin_device_id i |}.
Definition marker (o : option string) : string := match o with Some _ => "1" | None => "0" end.
Definition signed_fields (m : RowMetadata) : list string :=
  [ rm_item_id m; rm_content_type m;
    marker (rm_payload_metadata m); default ""%string (rm_payload_metadata m);
    marker (rm_source_app_bundle_id m); default ""%string (rm_source_app_bundle_id m);
    marker (rm_source_app_name m); default ""%string (rm_source_app_name m);
    rm_origin_device_id m; show_z (rm_created_at m); if rm_deleted m then "1" else "0";
    rm_nonce m; rm_ciphertext m ]%string.
Definition frames (l : list string) : string := foldr (fun f s => String "|" (String.append (framed f) s)) ""%string l.
Definition signing_input (m : RowMetadata) : bytes :=
  as_bytes (String.append SIGNATURE_PREFIX
              (String.append (show_nat SIGNATURE_SCHEMA_VERSION) (frames (signed_fields m)))).
Definition sign_metadata (m : RowMetadata) : string := base64_encode (row_hmac (signing_input m)).
Definition verify_metadata (m : RowMetadata) (signature : string) : result CloudCryptoError unit :=
  offered ← ok_or SignatureInvalid (base64_decode signature);
  refuse_if (negb (bool_decide (offered = row_hmac (signing_input m)))) SignatureInvalid.
Definition sign (i : CloudItem.t) : CloudItem.t := CloudItem.with_signature (sign_metadata (metadata i)) i.
Definition verify (i : CloudItem.t) : result CloudCryptoError unit :=
  verify_metadata (metadata i) (CloudItem.signature i).

(** ** Preconditions of sending *)

Definition MAX_SYNC_METADATA_BYTES : Z := 48 * 1024.
Inductive RestError :=
  | RestUnauthorized
  | RestForbidden
  | RestRateLimited (retry_after_secs : option Z)
  | RestNetwork
  | RestServer (status : Z)
  | RestRejected (status : Z)
  | RestMalformed
  | InvalidItem (reason : string).
Definition validate_item_id (id : string) : result RestError unit :=
  _ ← refuse_if (String.eqb id "") (InvalidItem "item_id must not be empty");
  refuse_if (negb (forallb (fun b => is_ascii_alphanumeric b || (byte_val b =? 45) || (byte_val b =? 95)) (as_bytes id)))
    (InvalidItem "item_id must be [A-Za-z0-9_-]").
Definition is_empty_string (s : string) : bool := String.eqb s "".
Definition row_validate (i : CloudItem.t) : result RestError unit :=
  _ ← validate_item_id (CloudItem.item_id i);
  _ ← refuse_if (is_empty_string (CloudItem.signature i)) (InvalidItem "the row's metadata was never signed");
  _ ← refuse_if (CloudItem.deleted i && negb (is_empty_string (CloudItem.ciphertext i)))
        (InvalidItem "a tombstone must not carry ciphertext");
  _ ← refuse_if (CloudItem.deleted i && bool_decide (is_Some (CloudItem.payload_metadata i)))
        (InvalidItem "a tombstone must not carry payload metadata");
  _ ← refuse_if (CloudItem.deleted i && (bool_decide (is_Some (CloudItem.source_app_bundle_id i))
                                         || bool_decide (is_Some (CloudItem.source_app_name i))))
        (InvalidItem "a tombstone must not carry source app metadata");
  _ ← refuse_if (String.eqb (CloudItem.content_type i) "file" && negb (CloudItem.deleted i)
                 && bool_decide (CloudItem.payload_metadata i = None))
        (InvalidItem "a file item must carry payload metadata");
  _ ← match CloudItem.payload_metadata i with
      | Some m => refuse_if ((str_len m >? MAX_SYNC_METADATA_BYTES)
                             || match from_json m (CloudItem.content_type i) with None => true | Some _ => false end)
                    (InvalidItem "payload metadata must be a bounded valid envelope")
      | None => Ok tt
      end;
  _ ← refuse_if (negb (CloudItem.deleted i) && is_empty_string (CloudItem.ciphertext i))
        (InvalidItem "a live item must carry ciphertext");
  refuse_if (is_empty_string (CloudItem.content_type i) || is_empty_string (CloudItem.origin_device_id i))
    (InvalidItem "content_type and origin_device_id are required").
End Row.

(** ** What the encodings determine *)

Lemma show_z_inj x y : show_z x = show_z y -> x = y.
Proof.
  unfold show_z. intros H. apply (f_equal DecimalString.NilZero.int_of_string) in H.
  assert (Hn : forall z, Z.to_int z <> Decimal.Pos Decimal.Nil /\ Z.to_int z <> Decimal.Neg Decimal.Nil).
  { intros z. pose proof (DecimalZ.of_to z) as Ho. split; intros E; rewrite E in Ho; cbn in Ho; subst z; discriminate E. }
  rewrite !DecimalString.NilZero.isi in H by apply Hn. injection H as H.
  by rewrite <- (DecimalZ.of_to x), <- (DecimalZ.of_to y), H.
Qed.
Lemma append_assoc a b c : String.append (String.append a b) c = String.append a (String.append b c).
Proof. induction a as [|x a IH]; [done|]. exact (f_equal (String x) IH). Qed.
Lemma append_inv_head a b c : String.append a b = String.append a c -> b = c.
Proof. by induction a as [|x a IH]; cbn; [|intros [= ?]; apply IH]. Qed.
Lemma as_bytes_inj a b : as_bytes a = as_bytes b -> a = b.
Proof. intros H. rewrite <- (of_as_bytes a), <- (of_as_bytes b). by rewrite H. Qed.
Lemma framed_inj a b s t : String.append (framed a) s = String.append (framed b) t -> a = b /\ s = t.
Proof.
  unfold framed. intros H. rewrite !append_assoc in H. cbn in H.
  apply colon_split in H as [Hl H]; [|apply show_nat_no_colon..]. apply show_nat_inj in Hl.
  by apply append_same_length.
Qed.
Lemma frames_inj l m : length l = length m -> frames l = frames m -> l = m.
Proof.
  revert m; induction l as [|a l IH]; intros [|b m]; cbn; try done. intros [= Hl] [= H].
  apply framed_inj in H as [-> H]. f_equal. by apply IH.
Qed.

Section RowSafety.
Context {PC : PayloadCodecs} {SK : SyncKey} {SL : SyncKeyLaws} {BL : Base64Laws}.

Lemma marked_inj (a b : option string) :
  marker a = marker b -> default ""%string a = default ""%string b -> a = b.
Proof. destruct a, b; cbn; congruence. Qed.
Lemma signing_input_inj m n : signing_input m = signing_input n -> m = n.
Proof.
  intros H. apply as_bytes_inj, append_inv_head, append_inv_head in H.
  apply frames_inj in H; [|done]. unfold signed_fields in H.
  injection H as H1 H2 H3 H4 H5 H6 H7 H8 H9 H10 H11 H12 H13. apply show_z_inj in H10.
  destruct m, n; cbn in *. f_equal; try done; try by apply marked_inj.
  repeat match goal with b : bool |- _ => destruct b end; done.
Qed.
Lemma cloud_aad_inj a b : cloud_aad a = cloud_aad b -> a = b.
Proof.
  intros H. apply as_bytes_inj, append_inv_head, append_inv_head in H. injection H as H.
  apply (framed_inj a b "" ""). by rewrite H.
Qed.
Lemma sealed_row_opens drawn plaintext id nonce ciphertext :
  len drawn = NONCE_LEN -> encrypt_row drawn plaintext id = Ok (nonce, ciphertext) ->
  decrypt_row ciphertext nonce id = Ok plaintext /\ str_len ciphertext = (len plaintext + TAG_LEN + 2) / 3 * 4.
Proof.
  intros Hn. unfold encrypt_row. intros (c & Hc%ok_or_ok & [= <- <-])%bind_ok.
  apply row_aead_inverse in Hc as [Hc Hl]. unfold decrypt_row. rewrite (base64_inverse drawn). cbn [ok_or mbind result_bind].
  rewrite Hn, Z.eqb_refl, (base64_inverse c). cbn [negb refuse_if ok_or mbind result_bind].
  destruct (Z.ltb_spec (len c) TAG_LEN); [pose proof (len_nonneg plaintext); lia|].
  cbn [refuse_if mbind result_bind]. rewrite Hc, base64_length, Hl. done.
Qed.
Lemma verify_sign i : verify (sign i) = Ok tt.
Proof.
  unfold verify, sign, verify_metadata. cbn. unfold sign_metadata. rewrite base64_inverse. cbn.
  by rewrite bool_decide_eq_true_2.
Qed.
Lemma verify_ok i : verify i = Ok tt -> base64_decode (CloudItem.signature i) = Some (row_hmac (signing_input (metadata i))).
Proof.
  unfold verify, verify_metadata. intros (o & Ho%ok_or_ok & Hr%refuse_if_ok)%bind_ok.
  apply negb_false_iff, bool_decide_eq_true in Hr. by rewrite Ho, Hr.
Qed.

(** C18: A signature binds the row it was made for.  A signed row verifies; a
    row that carries the signature of another and verifies is that very row, in
    every column, unless the two rows collide under HMAC-SHA256.  So nobody
    without the key can restamp a version, move it to another item, relabel it
    or turn it into a deletion. *)
Theorem signature_binds_the_row i :
  verify (sign i) = Ok tt /\
  forall j, CloudItem.signature j = CloudItem.signature (sign i) -> verify j = Ok tt ->
    j = sign i \/
    (signing_input (metadata j) <> signing_input (metadata i) /\
     row_hmac (signing_input (metadata j)) = row_hmac (signing_input (metadata i))).
Proof.
  split; [apply verify_sign|]. intros j Hs Hv%verify_ok. pose proof (verify_ok _ (verify_sign i)) as Hi.
  rewrite Hs, Hi in Hv. injection Hv as Hv. change (metadata (sign i)) with (metadata i) in Hv.
  destruct (decide (signing_input (metadata j) = signing_input (metadata i))) as [He|Hne]; [left|by right].
  apply signing_input_inj in He. destruct j; unfold metadata in He; cbn in *. injection He as -> -> -> -> -> -> -> -> -> ->.
  unfold sign, CloudItem.with_signature in *. cbn in *. by subst.
Qed.
End RowSafety.
