(* ===== verification/Upload.v ===== *)
(** The upload side of cloud synchronisation
    ([copypaste-sync/src/source.rs], [scan.rs], [unreadable.rs], [store.rs]):
    which local versions a round is offered, and how the ones this device cannot
    open are revisited. *)

From S2P Require Import Prelude Float64 Bytes Text Wire Binary Merge Payload Settings Credentials Workspace Table Items ItemSafety Retention Organization Versions Scan LocalMerge Source.

(** ** Data *)

Module LocalItem.
Record t := {
  item_id : string; content : bytes; content_type : string; payload_metadata : option string;
  created_at : Z; deleted : bool; origin_device_id : string;
  source_app_bundle_id : option string; source_app_name : option string;
}.
End LocalItem.
Inductive Applied := Merged | Declined (i : LocalItem.t).
Definition too_large_to_sync (content_type : string) (byte_len : Z) : bool := byte_len >? MAX_CONTENT_BYTES.

(** A keyset position, ordered as the derived [Ord] does. *)
Record UploadFloor := { fl_at : Z; fl_item : option string }.
#[export] Instance UploadFloor_eq_dec : EqDecision UploadFloor.
Proof. solve_decision. Defined.
Definition floor_cmp (f g : UploadFloor) : Datatypes.comparison :=
  pair_cmp Z.compare (option_cmp str_cmp) (fl_at f, fl_item f) (fl_at g, fl_item g).
Definition floor_le (f g : UploadFloor) : bool := match floor_cmp f g with Gt => false | _ => true end.
Definition floor_gt (f g : UploadFloor) : bool := match floor_cmp f g with Gt => true | _ => false end.
(** [Ord::max]: the second on a tie. *)
Definition floor_max (f g : UploadFloor) : UploadFloor := match floor_cmp f g with Gt => f | _ => g end.
Definition floor_zero : UploadFloor := {| fl_at := 0; fl_item := None |}.

Record Sweep := { sw_from : UploadFloor; sw_next : UploadFloor; sw_seen : Z; sw_settled : Z }.
#[export] Instance Sweep_eq_dec : EqDecision Sweep.
Proof. solve_decision. Defined.
Record UnreadableUploads := { un_ids : gset string; un_total : Z; un_sweep : option Sweep; reset_floor : bool }.
Definition no_unreadable : UnreadableUploads :=
  {| un_ids := ∅; un_total := 0; un_sweep := None; reset_floor := false |}.
Definition with_ids (m : gset string) (u : UnreadableUploads) : UnreadableUploads :=
  {| un_ids := m; un_total := un_total u; un_sweep := un_sweep u; reset_floor := reset_floor u |}.
Definition with_sweep (w : option Sweep) (u : UnreadableUploads) : UnreadableUploads :=
  {| un_ids := un_ids u; un_total := un_total u; un_sweep := w; reset_floor := reset_floor u |}.
Definition with_next (f : UploadFloor) (w : Sweep) : Sweep :=
  {| sw_from := sw_from w; sw_next := f; sw_seen := sw_seen w; sw_settled := sw_settled w |}.

Record Offer := { of_truncated : bool; of_last : UploadFloor; of_started : UploadFloor; of_epoch : Z }.
Record ScanResult := { sc_items : list LocalItem.t; sc_offer : Offer; sc_unreadable : UnreadableUploads }.

(** ** [unreadable.rs] *)

Definition MAX_UNREADABLE_TRACKED : Z := 256.
(** [serde_json]: the persisted record, [ids] in their order. *)
Record Persisted := { ps_ids : list string; ps_total : Z; ps_sweep : option Sweep }.
Class UploadJson := {
  serde_persisted : string -> option Persisted;
  serde_persisted_string : Persisted -> option string;
}.
Definition btree_ids (m : gset string) : list string := merge_sort str_le (elements m).
Definition decode_unreadable `{UploadJson} (raw : option string) : UnreadableUploads :=
  match raw with
  | None => no_unreadable
  | Some t =>
    if String.eqb t "" then no_unreadable
    else match serde_persisted t with
         | None => {| un_ids := ∅; un_total := 0; un_sweep := None; reset_floor := true |}
         | Some p => {| un_ids := list_to_set (ps_ids p); un_total := ps_total p; un_sweep := ps_sweep p;
                        reset_floor := false |}
         end
  end.
Definition encode_unreadable `{UploadJson} (u : UnreadableUploads) : string :=
  default ""%string (serde_persisted_string
    {| ps_ids := btree_ids (un_ids u); ps_total := un_total u; ps_sweep := un_sweep u |}).

Definition proven (w : Sweep) : Z := if decide (sw_next w = sw_from w) then sw_settled w else sw_seen w.
Definition track (id : string) (u : UnreadableUploads) : bool * UnreadableUploads :=
  if Z.of_nat (size (un_ids u)) >=? MAX_UNREADABLE_TRACKED then (false, u)
  else (true, with_ids ({[id]} ∪ un_ids u) u).
Definition sweep_from (behind : UploadFloor) (u : UnreadableUploads) : UnreadableUploads :=
  match un_sweep u with
  | Some w =>
    if floor_le (sw_from w) behind then u
    else with_sweep (Some {| sw_from := behind; sw_next := behind; sw_seen := sw_seen w;
                             sw_settled := sw_settled w |}) u
  | None => with_sweep (Some {| sw_from := behind; sw_next := behind; sw_seen := 0; sw_settled := 0 |}) u
  end.
Definition record_walked (id : string) (u : UnreadableUploads) (w : Sweep) : UnreadableUploads * Sweep :=
  let '(tracked, u) := track id u in
  (u, if (tracked : bool) then w
      else {| sw_from := sw_from w; sw_next := sw_next w; sw_seen := Z.min (sw_seen w + 1) u32_max;
              sw_settled := sw_settled w |}).
Definition settle_total (u : UnreadableUploads) : UnreadableUploads :=
  let backlog := match un_sweep u with Some w => proven w | None => 0 end in
  {| un_ids := un_ids u;
     un_total := Z.min (Z.min (Z.of_nat (size (un_ids u))) u32_max + backlog) u32_max;
     un_sweep := un_sweep u; reset_floor := reset_floor u |}.

(** ** [store.rs]: the scan *)

Definition UPLOAD_SCAN_LIMIT : nat := 500.
Definition keyset_of (r : StoredItem) : UploadFloor := {| fl_at := st_created_at r; fl_item := Some (st_id r) |}.
(** [Store::versions_after], with the rows behind the versions. *)
Definition stored_after (since : Z) (after_id : option string) (limit : nat) (s : Store) : list StoredItem :=
  omap (fun v => version (v_id v) s) (versions_after since after_id limit s).
Definition bytes_of (l : list LocalItem.t) : Z := foldr (fun i n => len (LocalItem.content i) + n) 0 l.

Section ScanBounded.
Context {PC : PayloadCodecs} {MJ : MetadataJson} {DG : Digest} {K : ItemKey}.
Context (device_id : string) (s : Store).

Definition to_local (r : StoredItem) : option LocalItem.t :=
  content ← (if st_deleted r then Some []
             else match open_version_bytes r with Ok b => Some b | Err _ => None end);
  Some {| LocalItem.item_id := st_id r; LocalItem.content := content; LocalItem.content_type := st_type r;
          LocalItem.payload_metadata := payload_metadata_for_sync r s;
          LocalItem.created_at := st_created_at r; LocalItem.deleted := st_deleted r;
          LocalItem.origin_device_id := origin_or (st_origin r) device_id;
          LocalItem.source_app_bundle_id := st_app_id r; LocalItem.source_app_name := st_app_name r |}.

(** The ids of the last scan, by direct lookup. *)
Definition retry_one (max_bytes : Z) (r : StoredItem) (p : list LocalItem.t * UnreadableUploads)
    : list LocalItem.t * UnreadableUploads :=
  let '(items, u) := p in
  match to_local r with
  | Some i => if bytes_of items + len (LocalItem.content i) <=? max_bytes then (items ++ [i], u)
              else (items, (track (st_id r) u).2)
  | None => (items, (track (st_id r) u).2)
  end.
Definition retry_ids (max_bytes : Z) (retried : list string) : list LocalItem.t * UnreadableUploads :=
  foldl (fun p r => retry_one max_bytes r p) ([], no_unreadable) (versions retried s).

(** One page of the walk: [WalkStopped] when the bytes ran out, [WalkCycled]
    when a row past the floor was met. *)
Inductive WalkEnd := WalkStopped | WalkCycled | WalkRan.
Fixpoint walk_page (floor : UploadFloor) (previous : gset string) (max_bytes : Z) (page : list StoredItem)
    (w : Sweep) (found : UnreadableUploads) (items : list LocalItem.t)
    : WalkEnd * Sweep * UnreadableUploads * list LocalItem.t :=
  match page with
  | [] => (WalkRan, w, found, items)
  | r :: page =>
    let at_ := keyset_of r in
    if floor_gt at_ floor then (WalkCycled, w, found, items)
    else if bool_decide (st_id r ∈ previous) then walk_page floor previous max_bytes page (with_next at_ w) found items
    else match to_local r with
         | Some i =>
           if bytes_of items + len (LocalItem.content i) >? max_bytes then (WalkStopped, w, found, items)
           else walk_page floor previous max_bytes page (with_next at_ w) found (items ++ [i])
         | None => let '(found, w) := record_walked (st_id r) found w in
                   walk_page floor previous max_bytes page (with_next at_ w) found items
         end
  end.
Definition walk_left_behind (w : Sweep) (floor : UploadFloor) (previous : gset string) (max_bytes : Z)
    (found : UnreadableUploads) (items : list LocalItem.t)
    : option Sweep * UnreadableUploads * list LocalItem.t :=
  let page := stored_after (fl_at (sw_next w)) (fl_item (sw_next w)) UPLOAD_SCAN_LIMIT s in
  let short := (length page <? UPLOAD_SCAN_LIMIT)%nat in
  match walk_page floor previous max_bytes page w found items with
  | (WalkStopped, w, found, items) => (Some w, found, items)
  | (WalkRan, w, found, items) =>
    if short then
      let w := {| sw_from := sw_from w; sw_next := sw_from w; sw_seen := 0; sw_settled := sw_seen w |} in
      (if 0 <? sw_settled w then Some w else None, found, items)
    else (Some w, found, items)
  | (WalkCycled, w, found, items) =>
    let w := {| sw_from := sw_from w; sw_next := sw_from w; sw_seen := 0; sw_settled := sw_seen w |} in
    (if 0 <? sw_settled w then Some w else None, found, items)
  end.

(** The rows after the floor. *)
Definition cut_offer (behind : UploadFloor) (o : Offer) : Offer :=
  {| of_truncated := true; of_last := behind; of_started := of_started o; of_epoch := of_epoch o |}.
Fixpoint offer_rows (previous : gset string) (max_bytes : Z) (rows : list StoredItem) (behind : UploadFloor)
    (bytes : Z) (items : list LocalItem.t) (u : UnreadableUploads) (o : Offer)
    : list LocalItem.t * UnreadableUploads * Offer :=
  match rows with
  | [] => (items, u, o)
  | r :: rows =>
    if bool_decide (st_id r ∈ previous) then offer_rows previous max_bytes rows (keyset_of r) bytes items u o
    else match to_local r with
         | Some i =>
           if bytes + len (LocalItem.content i) >? max_bytes then (items, u, cut_offer behind o)
           else offer_rows previous max_bytes rows (keyset_of r) (bytes + len (LocalItem.content i)) (items ++ [i]) u o
         | None =>
           let '(tracked, u) := track (st_id r) u in
           let u := if (tracked : bool) then u else sweep_from behind u in
           offer_rows previous max_bytes rows (keyset_of r) bytes items u o
         end
  end.

(** The walk of a scan, if the last one left a region. *)
Definition walk_again (floor : UploadFloor) (previously : UnreadableUploads) (max_bytes : Z)
    (u : UnreadableUploads) (items : list LocalItem.t) : UnreadableUploads * list LocalItem.t :=
  match (if reset_floor previously then None else un_sweep previously) with
  | Some w => let '(walked, u, items) := walk_left_behind w floor (un_ids previously) max_bytes u items in
              (with_sweep walked u, items)
  | None => (u, items)
  end.
Definition scan_floor (since_ms : Z) (after_item_id : option string) (previously : UnreadableUploads) : UploadFloor :=
  if reset_floor previously then floor_zero else {| fl_at := since_ms; fl_item := after_item_id |}.
(** [scan_bounded]; [scan] has no bound on the bytes. *)
Definition scan_bounded (since_ms : Z) (after_item_id : option string) (started_epoch : Z)
    (previously : UnreadableUploads) (max_bytes : Z) : ScanResult :=
  let floor := scan_floor since_ms after_item_id previously in
  let '(items, u) := retry_ids max_bytes (btree_ids (un_ids previously)) in
  let '(u, items) := walk_again floor previously max_bytes u items in
  let rows := stored_after (fl_at floor) (fl_item floor) UPLOAD_SCAN_LIMIT s in
  let o := {| of_truncated := (UPLOAD_SCAN_LIMIT <=? length rows)%nat;
              of_last := match last rows with Some r => keyset_of r | None => floor end;
              of_started := floor; of_epoch := started_epoch |} in
  let '(items, u, o) := offer_rows (un_ids previously) max_bytes rows floor (bytes_of items) items u o in
  {| sc_items := items; sc_offer := o; sc_unreadable := settle_total u |}.
Definition floor_after_round (o : Offer) (round_started_ms : Z) : UploadFloor :=
  if of_truncated o && (fl_at (of_last o) <=? round_started_ms) then of_last o
  else {| fl_at := round_started_ms; fl_item := None |}.

(** [remote_version]; the text is the lossy decode. *)
Definition remote_version (i : LocalItem.t) : RemoteVersion :=
  {| rv_id := LocalItem.item_id i;
     rv_content := if is_text (LocalItem.content_type i) then from_utf8_lossy (LocalItem.content i) else ""%string;
     rv_binary := if negb (LocalItem.deleted i) && negb (is_text (LocalItem.content_type i))
                  then Some (LocalItem.content i) else None;
     rv_metadata := LocalItem.payload_metadata i; rv_type := LocalItem.content_type i;
     rv_created_at := LocalItem.created_at i; rv_deleted := LocalItem.deleted i; rv_hash := None;
     rv_origin := LocalItem.origin_device_id i; rv_app_id := LocalItem.source_app_bundle_id i;
     rv_app_name := LocalItem.source_app_name i |}.
Definition requeue_stamp {OC : OrgCodec} {CC : CredentialCodecs} {OJ : OfferJson} (incoming : LocalItem.t) : option Z :=
  local_winner_stamp device_id (remote_version incoming) s.
End ScanBounded.

(** [StoreView::apply_page]: one call into the store, answered in order. *)
Section ApplyPage.
Context {PC : PayloadCodecs} {MJ : MetadataJson} {DG : Digest} {OC : OrgCodec} {K : ItemKey}
        {CC : CredentialCodecs} {OJ : OfferJson}.
Definition view_apply_page (c : ConfigData.t) (h : Hooks) (device_id : string) (runtime : bool)
    (rng : string -> bytes * bytes) (items : list LocalItem.t) (t : Clock)
    (interference : nat -> Store -> Store) (w : Source.Source)
    : result MergeError (list Applied * Effects * Source.Source) :=
  match items with
  | [] => Ok ([], no_effects, w)
  | _ =>
    '(applied, e, w) ← apply_versions c h device_id runtime rng (remote_version <$> items) t interference w;
    _ ← refuse_if (negb (length applied =? length items)%nat) MergeStore;
    Ok (zip_with (fun i (stored : bool) => if stored then Merged else Declined i) items applied, e, w)
  end.
End ApplyPage.
