(* ===== verification/UploadSafety.v ===== *)
(** What an upload scan promises: every version after the floor, on the list of
    unreadable ids or in the region of the sweep is offered, or still owed after
    the scan. *)

From S2P Require Import Prelude Float64 Bytes Text Wire Binary Merge Payload Settings Credentials Workspace Table Items ItemSafety Retention Organization Versions Scan LocalMerge Source Upload.

(** ** Positions *)

Definition floor_lt (f g : UploadFloor) : Prop := floor_cmp f g = Lt.
#[export] Instance floor_lt_dec f g : Decision (floor_lt f g).
Proof. unfold floor_lt. apply _. Defined.
Notation floor_order := (pair_cmp Z.compare (option_cmp str_cmp)).
Lemma floor_eq_iff f g : floor_cmp f g = Eq <-> f = g.
Proof.
  unfold floor_cmp. rewrite (cmp_eq_iff (cmp:=floor_order)). destruct f, g; cbn. split; [by intros [= -> ->]|by intros [= -> ->]].
Qed.
Lemma floor_lt_trans f g h : floor_lt f g -> floor_lt g h -> floor_lt f h.
Proof. apply (cmp_trans (cmp:=floor_order)). Qed.
Lemma floor_cmp_antisym f g : floor_cmp g f = CompOpp (floor_cmp f g).
Proof. apply (cmp_antisym (cmp:=floor_order)). Qed.
Lemma floor_lt_irrefl f : ~ floor_lt f f.
Proof. unfold floor_lt. by rewrite (proj2 (floor_eq_iff f f)). Qed.
Lemma floor_cases f g : floor_lt f g \/ f = g \/ floor_lt g f.
Proof.
  unfold floor_lt. rewrite (floor_cmp_antisym f g). destruct (floor_cmp f g) eqn:E; cbn; auto.
  apply floor_eq_iff in E. auto.
Qed.
Lemma floor_lt_asym f g : floor_lt f g -> ~ floor_lt g f.
Proof. intros H1 H2. by apply (floor_lt_irrefl f), (floor_lt_trans _ g). Qed.
Lemma floor_gt_true f g : floor_gt f g = true <-> floor_lt g f.
Proof. unfold floor_gt, floor_lt. rewrite (floor_cmp_antisym f g). by destruct (floor_cmp f g). Qed.
Lemma floor_gt_false f g : floor_gt f g = false <-> ~ floor_lt g f.
Proof. rewrite <- floor_gt_true. by destruct (floor_gt f g). Qed.
Lemma floor_le_true f g : floor_le f g = true <-> ~ floor_lt g f.
Proof. unfold floor_le, floor_lt. rewrite (floor_cmp_antisym f g). by destruct (floor_cmp f g). Qed.
Lemma floor_le_lt f g h : ~ floor_lt g f -> floor_lt g h -> floor_lt f h.
Proof. intros H1 H2. destruct (floor_cases f g) as [H|[->|H]]; [by apply (floor_lt_trans _ g)|done|done]. Qed.
Lemma floor_lt_le f g h : floor_lt f g -> ~ floor_lt h g -> floor_lt f h.
Proof. intros H1 H2. destruct (floor_cases g h) as [H|[->|H]]; [by apply (floor_lt_trans _ g)|done|done]. Qed.
Lemma floor_max_spec f g h : floor_lt (floor_max f g) h <-> floor_lt f h /\ floor_lt g h.
Proof.
  unfold floor_max. destruct (floor_cmp f g) eqn:E.
  - apply floor_eq_iff in E as ->. naive_solver.
  - split; [|naive_solver]. intros H. split; [by apply (floor_lt_trans _ g)|done].
  - split; [|naive_solver]. intros H. split; [done|]. apply (floor_lt_trans _ f); [|done].
    unfold floor_lt. by rewrite (floor_cmp_antisym f g), E.
Qed.

(** ** The rows of a scan *)

Definition stored (s : Store) (r : StoredItem) : Prop := version (st_id r) s = Some r.
Definition before (a b : StoredItem) : Prop := floor_lt (keyset_of a) (keyset_of b).
Notation scan_from := (fun f v => after_keyset v_created_at (fl_at f) (fl_item f) v).

Lemma version_id id s r : tables_ok s -> version id s = Some r -> st_id r = id.
Proof.
  intros [Hk Ho _]. unfold version. destruct (items s !! id) as [q|] eqn:E.
  - intros [= <-]. by apply Hk.
  - destruct (organization s !! id) as [o|] eqn:Eo; [|done]. intros [= <-]. by apply Ho.
Qed.
(** Every version has a row, in the same place. *)
Lemma version_row s v : tables_ok s -> v ∈ all_versions s ->
  exists r, version (v_id v) s = Some r /\ keyset_of r = {| fl_at := v_created_at v; fl_item := Some (v_id v) |}.
Proof.
  intros [Hk Ho Hd] [(k & r & Hr & ->)|(k & o & Hr & ->)]%elem_of_all_versions.
  - exists (row_to_item r s). split; [|done]. cbn. unfold version. rewrite (Hk _ _ Hr). by rewrite Hr.
  - exists (organization_item o). split; [|done]. cbn. unfold version. rewrite (Ho _ _ Hr).
    destruct (Hd k) as [->|]; [by rewrite Hr|congruence].
Qed.
Lemma row_version_of s r : tables_ok s -> stored s r ->
  exists v, v ∈ all_versions s /\ v_id v = st_id r /\ v_created_at v = st_created_at r.
Proof.
  intros [Hk Ho _]. unfold stored, version. destruct (items s !! st_id r) as [q|] eqn:E.
  - intros [= Hr]. exists (row_version q). split; [apply elem_of_all_versions; eauto|]. rewrite <- Hr. done.
  - destruct (organization s !! st_id r) as [o|] eqn:Eo; [|done]. intros [= Hr].
    exists (organization_version o). split; [apply elem_of_all_versions; eauto|]. rewrite <- Hr. done.
Qed.
Lemma after_keyset_floor f v :
  scan_from f v = true <-> floor_lt f {| fl_at := v_created_at v; fl_item := Some (v_id v) |}.
Proof.
  destruct f as [t a]. unfold after_keyset, floor_lt, floor_cmp, pair_cmp. cbn [fst snd fl_at fl_item].
  rewrite orb_true_iff, andb_true_iff, Z.ltb_lt, Z.eqb_eq.
  destruct (Z.compare_spec t (v_created_at v)) as [He|Hl|Hg]; cbn [then_with option_cmp].
  - destruct a as [a|]; cbn [option_cmp].
    + rewrite bool_decide_eq_true, (cmp_gt_lt str_cmp). naive_solver lia.
    + naive_solver lia.
  - naive_solver lia.
  - split; [lia|done].
Qed.

Record page_of (f : UploadFloor) (limit : nat) (s : Store) (page : list StoredItem) : Prop := {
  pg_stored r : r ∈ page -> stored s r /\ floor_lt f (keyset_of r);
  pg_sorted : StronglySorted before page;
  pg_complete r : stored s r -> floor_lt f (keyset_of r) ->
    r ∈ page \/ ((limit <= length page)%nat /\ forall q, q ∈ page -> before q r);
}.
Lemma omap_total {A B} (f : A -> option B) l :
  (forall x, x ∈ l -> is_Some (f x)) -> length (omap f l) = length l.
Proof.
  induction l as [|x l IH]; intros H; [done|]. cbn. destruct (H x) as [y ->]; [by left|]. cbn. f_equal.
  apply IH. intros z Hz. apply H. by right.
Qed.
Lemma sorted_omap {A B} (f : A -> option B) (R : relation A) (T : relation B) l :
  StronglySorted R l -> NoDup l ->
  (forall x y a b, x ∈ l -> y ∈ l -> x <> y -> R x y -> f x = Some a -> f y = Some b -> T a b) ->
  StronglySorted T (omap f l).
Proof.
  induction 1 as [|x l Hs IH Hx]; intros Hnd H; [constructor|].
  apply NoDup_cons in Hnd as [Hnin Hnd]. cbn. assert (IH' : StronglySorted T (omap f l)).
  { apply IH; [done|]. intros y z a b Hy Hz. apply H; by right. }
  destruct (f x) as [a|] eqn:Ea; [|done]. constructor; [done|]. apply Forall_forall. intros b (y & Hy & Hb)%list_elem_of_omap.
  rewrite Forall_forall in Hx. apply (H x y); [by left|by right| |by apply Hx|done|done]. by intros ->.
Qed.
Lemma stored_after_page f limit s :
  tables_ok s -> page_of f limit s (stored_after (fl_at f) (fl_item f) limit s).
Proof.
  intros Ht. unfold stored_after, versions_after. rewrite bounded_versions_selected by done.
  set (S := selected v_created_at (fl_at f) (fl_item f) s).
  assert (Hrow : forall v, v ∈ S -> exists r, version (v_id v) s = Some r /\
            keyset_of r = {| fl_at := v_created_at v; fl_item := Some (v_id v) |} /\ v ∈ all_versions s /\ floor_lt f (keyset_of r)).
  { intros v [Hv Ha]%elem_of_selected. destruct (version_row s v Ht Hv) as (r & Hr & Hk). exists r.
    split_and!; [done..|]. rewrite Hk. by apply after_keyset_floor. }
  assert (Hsorted : StronglySorted before (omap (fun v => version (v_id v) s) S)).
  { apply sorted_omap with (R := by_stamp v_created_at); [apply selected_sorted|by apply selected_nodup|].
    intros v w a b Hv Hw Hne Hvw Ha Hb. destruct (Hrow v Hv) as (a' & Ha' & Ka & Va & _), (Hrow w Hw) as (b' & Hb' & Kb & Vb & _).
    simplify_eq. unfold before. rewrite Ka, Kb. apply after_keyset_floor. cbn. apply after_keyset_key. unfold by_stamp in Hvw.
    destruct (pair_cmp _ _ _ _) eqn:E; [|done|done]. apply (cmp_eq_iff (cmp:=pair_cmp Z.compare str_cmp)) in E.
    destruct Hne. apply (versions_by_id s); [done..|]. by injection E. }
  assert (Hdrop : omap (fun v => version (v_id v) s) S
            = omap (fun v => version (v_id v) s) (take limit S) ++ omap (fun v => version (v_id v) s) (drop limit S)).
  { rewrite <- (take_drop limit S) at 1. apply omap_app. }
  split.
  - intros r (v & Hv & Hr)%list_elem_of_omap. apply elem_take in Hv. destruct (Hrow v Hv) as (r' & Hr' & _ & _ & Hf).
    simplify_eq. split; [|done]. unfold stored. by rewrite (version_id _ _ _ Ht Hr).
  - rewrite Hdrop in Hsorted. by apply StronglySorted_app_1_l in Hsorted.
  - intros r Hr Hf. destruct (row_version_of s r Ht Hr) as (v & Hv & Hid & Hat).
    assert (HvS : v ∈ S).
    { apply elem_of_selected. split; [done|]. apply after_keyset_floor. by rewrite Hid, Hat. }
    assert (Hg : version (v_id v) s = Some r) by (by rewrite Hid).
    rewrite <- (take_drop limit S) in HvS. apply elem_of_app in HvS as [H|H].
    + left. apply list_elem_of_omap. eauto.
    + right. split.
      * rewrite omap_total; [|intros x Hx; apply elem_take in Hx; destruct (Hrow x Hx) as (? & -> & _); eauto].
        rewrite length_take. apply list_elem_of_lookup in H as [i Hi]. apply lookup_lt_Some in Hi. rewrite length_drop in Hi. lia.
      * intros q Hq. rewrite Hdrop in Hsorted. eapply StronglySorted_app_1_elem_of; [exact Hsorted|done|].
        apply list_elem_of_omap. eauto.
Qed.

(** ** What a scan leaves owed *)

Definition swept (w : Sweep) (r : StoredItem) : Prop :=
  floor_lt (sw_from w) (keyset_of r) /\ (floor_lt (sw_next w) (keyset_of r) \/ 0 < sw_seen w).
Definition owed (u : UnreadableUploads) (r : StoredItem) : Prop :=
  st_id r ∈ un_ids u \/ exists w, un_sweep u = Some w /\ swept w r.
Definition offered (l : list LocalItem.t) (r : StoredItem) : Prop :=
  exists i, i ∈ l /\ LocalItem.item_id i = st_id r /\ LocalItem.created_at i = st_created_at r.
Lemma offered_to_app l k r : offered l r -> offered (l ++ k) r.
Proof. intros (i & Hi & H). exists i. split; [apply elem_of_app; by left|done]. Qed.
Lemma offered_last l i r : LocalItem.item_id i = st_id r -> LocalItem.created_at i = st_created_at r -> offered (l ++ [i]) r.
Proof. intros H1 H2. exists i. split; [apply elem_of_app; right; by left|done]. Qed.

Definition in_i64 (z : Z) : Prop := i64_min <= z <= i64_max.
Definition in_u32 (z : Z) : Prop := 0 <= z <= u32_max.
Record sweep_ok (w : Sweep) : Prop := {
  so_order : ~ floor_lt (sw_next w) (sw_from w);
  so_seen : in_u32 (sw_seen w);
  so_settled : in_u32 (sw_settled w);
  so_from : in_i64 (fl_at (sw_from w));
  so_next : in_i64 (fl_at (sw_next w));
}.
(** What a scan relies on of the history. *)
Record history_ok (s : Store) : Prop := {
  hi_tables : tables_ok s;
  hi_stamps r : stored s r -> in_i64 (st_created_at r);
}.
Definition small (u : UnreadableUploads) : Prop := Z.of_nat (size (un_ids u)) <= MAX_UNREADABLE_TRACKED.

Lemma size_insert_bound (X : gset string) (x : string) :
  (size ({[x]} ∪ X) <= S (size X))%nat.
Proof. pose proof (size_union_alt ({[x]} : gset string) X) as H. rewrite H, size_singleton. pose proof (subseteq_size (X ∖ {[x]}) X). set_solver by lia. Qed.
Lemma track_spec id u t u' : track id u = (t, u') -> small u ->
  small u' /\ un_sweep u' = un_sweep u /\ un_ids u ⊆ un_ids u' /\ (t = true -> id ∈ un_ids u') /\ (t = false -> u' = u).
Proof.
  unfold track, small. destruct (Z.geb_spec (Z.of_nat (size (un_ids u))) MAX_UNREADABLE_TRACKED); intros [= <- <-] Hs.
  - split_and!; try done.
  - cbn. split_and!; try done; [|set_solver|set_solver]. pose proof (size_insert_bound (un_ids u) id). lia.
Qed.
Lemma owed_ids u v r : un_sweep v = un_sweep u -> un_ids u ⊆ un_ids v -> owed u r -> owed v r.
Proof. intros Hs Hi [H|H]; [left; set_solver|right; by rewrite Hs]. Qed.

Section ScanSafety.
Context {PC : PayloadCodecs} {MJ : MetadataJson} {DG : Digest} {K : ItemKey}.
Context (here : string) (s : Store).

Lemma to_local_offers r i : to_local here s r = Some i ->
  LocalItem.item_id i = st_id r /\ LocalItem.created_at i = st_created_at r.
Proof. unfold to_local. intros (c & _ & H)%bind_Some. by injection H as <-. Qed.

(** The retried ids stay on the list or are offered. *)
Lemma retry_spec max_bytes (P : gset string) l : forall items u items' u',
  Z.of_nat (size P) <= MAX_UNREADABLE_TRACKED -> un_ids u ⊆ P -> (forall r, r ∈ l -> st_id r ∈ P) ->
  foldl (fun p r => retry_one here s max_bytes r p) (items, u) l = (items', u') ->
  un_ids u' ⊆ P /\ un_sweep u' = un_sweep u /\ un_ids u ⊆ un_ids u' /\
  (forall r, offered items r -> offered items' r) /\
  (forall r, r ∈ l -> offered items' r \/ st_id r ∈ un_ids u').
Proof.
  induction l as [|r l IH]; intros items u items' u' HP Hu Hl; cbn [foldl].
  { intros [= <- <-]. split_and!; try done. intros r Hr. by apply elem_of_nil in Hr. }
  assert (Htrack : forall t v, track (st_id r) u = (t, v) -> un_ids v ⊆ P /\ un_sweep v = un_sweep u /\ un_ids u ⊆ un_ids v /\ st_id r ∈ un_ids v).
  { intros t v Hv. assert (Hsm : small u) by (unfold small; apply subseteq_size in Hu; lia).
    destruct (track_spec _ _ _ _ Hv Hsm) as (_ & Hs & Hsub & Ht & Hf). destruct t.
    - revert Hv. unfold track. case_match; [done|]. intros [= <-]. cbn in *. split_and!; try done; [|by apply Ht].
      assert (st_id r ∈ P) by (apply Hl; by left). set_solver.
    - rewrite (Hf eq_refl) in *. split_and!; try done. revert Hv. unfold track.
      destruct (Z.geb_spec (Z.of_nat (size (un_ids u))) MAX_UNREADABLE_TRACKED) as [Hge|]; [|done]. intros _.
      assert (HuP : un_ids u = P). { apply leibniz_equiv. apply set_subseteq_size_equiv; [done|]. lia. }
      rewrite HuP. apply Hl. by left. }
  assert (Hrest : forall i2 u2, un_ids u2 ⊆ P -> un_sweep u2 = un_sweep u -> un_ids u ⊆ un_ids u2 ->
            (forall q, offered items q -> offered i2 q) -> (offered i2 r \/ st_id r ∈ un_ids u2) ->
            foldl (fun p r => retry_one here s max_bytes r p) (i2, u2) l = (items', u') ->
            un_ids u' ⊆ P /\ un_sweep u' = un_sweep u /\ un_ids u ⊆ un_ids u' /\
            (forall r, offered items r -> offered items' r) /\
            (forall q, q ∈ r :: l -> offered items' q \/ st_id q ∈ un_ids u')).
  { intros i2 u2 H1 H2 H3 H4 H5 H. destruct (IH _ _ _ _ HP H1 (fun q Hq => Hl q (proj2 (elem_of_cons _ _ _) (or_intror Hq))) H)
      as (J1 & J2 & J3 & J4 & J5).
    split_and!; [done|congruence|set_solver|auto|]. intros q [->|Hq]%elem_of_cons; [|auto].
    destruct H5 as [H5|H5]; [left; auto|right; set_solver]. }
  unfold retry_one at 2. destruct (to_local here s r) as [i|] eqn:Ei.
  - destruct (to_local_offers _ _ Ei) as [Hi1 Hi2]. destruct (_ <=? _).
    + apply Hrest; try done; [intros q; apply offered_to_app|left; by apply offered_last].
    + destruct (track (st_id r) u) as [t v] eqn:Et. destruct (Htrack t v eq_refl) as (T1 & T2 & T3 & T4). cbn [snd].
      apply Hrest; auto.
  - destruct (track (st_id r) u) as [t v] eqn:Et. destruct (Htrack t v eq_refl) as (T1 & T2 & T3 & T4). cbn [snd].
    apply Hrest; auto.
Qed.
Lemma retry_ids_spec max_bytes prev items u :
  Z.of_nat (size prev) <= MAX_UNREADABLE_TRACKED -> tables_ok s ->
  retry_ids here s max_bytes (btree_ids prev) = (items, u) ->
  small u /\ un_sweep u = None /\
  (forall r, stored s r -> st_id r ∈ prev -> offered items r \/ st_id r ∈ un_ids u).
Proof.
  intros Hp Ht H.
  assert (Hids : forall id, id ∈ btree_ids prev <-> id ∈ prev).
  { intros id. unfold btree_ids. by rewrite merge_sort_Permutation, elem_of_elements. }
  destruct (retry_spec max_bytes prev (versions (btree_ids prev) s) [] no_unreadable items u) as (H1 & H2 & _ & _ & H4);
    [done|done| |exact H|].
  { intros r (id & Hid & Hr)%list_elem_of_omap. rewrite (version_id _ _ _ Ht Hr). apply Hids. rewrite elem_of_remove_dups in Hid. exact Hid. }
  split_and!; [|done|].
  - unfold small. apply subseteq_size in H1. lia.
  - intros r Hr Hin. apply H4. apply list_elem_of_omap. exists (st_id r). split; [rewrite elem_of_remove_dups; by apply Hids|exact Hr].
Qed.

(** The walk reaches, in order, every row up to the floor. *)
Record walked (floor : UploadFloor) (prev : gset string) (page : list StoredItem) (e : WalkEnd) (w w' : Sweep)
    (u u' : UnreadableUploads) (items items' : list LocalItem.t) : Prop := {
  wd_from : sw_from w' = sw_from w;
  wd_seen : in_u32 (sw_seen w') /\ (0 < sw_seen w -> 0 < sw_seen w');
  wd_settled : sw_settled w' = sw_settled w;
  wd_next : sw_next w' = sw_next w \/ exists q, q ∈ page /\ sw_next w' = keyset_of q /\ ~ floor_lt floor (keyset_of q);
  wd_stop : e = WalkCycled \/ page = [] \/ ~ floor_lt floor (sw_next w');
  wd_small : small u';
  wd_sweep : un_sweep u' = un_sweep u;
  wd_ids : un_ids u ⊆ un_ids u';
  wd_items r : offered items r -> offered items' r;
  wd_page r : r ∈ page -> ~ floor_lt floor (keyset_of r) ->
    offered items' r \/ st_id r ∈ prev \/ st_id r ∈ un_ids u' \/ 0 < sw_seen w' \/
    (e = WalkStopped /\ floor_lt (sw_next w') (keyset_of r));
}.
Lemma walk_page_owes floor prev max_bytes page : forall w u items e w' u' items',
  StronglySorted before page -> (forall r, r ∈ page -> floor_lt (sw_next w) (keyset_of r)) ->
  in_u32 (sw_seen w) -> small u ->
  walk_page here s floor prev max_bytes page w u items = (e, w', u', items') ->
  walked floor prev page e w w' u u' items items'.
Proof.
  induction page as [|r page IH]; intros w u items e w' u' items' Hsort Hnext Hseen Hsm; cbn [walk_page].
  { intros [= <- <- <- <-]. split; [done|done|done|by left|by right; left|done..|]. intros r Hr. by apply elem_of_nil in Hr. }
  apply StronglySorted_inv in Hsort as [Hsort Hr]. rewrite Forall_forall in Hr.
  destruct (floor_gt (keyset_of r) floor) eqn:Eg.
  { intros [= <- <- <- <-]. apply floor_gt_true in Eg. split; [done|done|done|by left|by left|done..|].
    intros q [->|Hq]%elem_of_cons Hle; [done|]. destruct Hle. apply (floor_lt_trans _ (keyset_of r)); [done|by apply Hr]. }
  apply floor_gt_false in Eg.
  assert (Hgo : forall u2 w2 items2, sw_from w2 = sw_from w -> sw_settled w2 = sw_settled w -> in_u32 (sw_seen w2) /\ (0 < sw_seen w -> 0 < sw_seen w2) ->
            small u2 -> un_sweep u2 = un_sweep u -> un_ids u ⊆ un_ids u2 -> (forall q, offered items q -> offered items2 q) ->
            (offered items2 r \/ st_id r ∈ prev \/ st_id r ∈ un_ids u2 \/ 0 < sw_seen w2) ->
            walk_page here s floor prev max_bytes page (with_next (keyset_of r) w2) u2 items2 = (e, w', u', items') ->
            walked floor prev (r :: page) e w w' u u' items items').
  { intros u2 w2 items2 A1 As [A2 A2'] A3 A4 A5 A6 A7 H. apply IH in H; [|exact Hsort|exact Hr|exact A2|exact A3].
    destruct H as [B1 B2 Bs B3 _ B4 B5 B6 B7 B8]. cbn in B1, B2, Bs, B3. destruct B2 as [B2 B2']. split.
    - by rewrite B1.
    - auto.
    - by rewrite Bs.
    - right. destruct B3 as [B3|(q & Hq & B3 & B9)]; [exists r; split_and!; [by left|done|done]|].
      exists q. split_and!; [by right|done|done].
    - right; right. by destruct B3 as [->|(q & _ & -> & ?)].
    - done.
    - by rewrite B5.
    - by etransitivity.
    - auto.
    - intros q [->|Hq]%elem_of_cons Hle; [|by apply B8]. destruct A7 as [A7|[A7|[A7|A7]]].
      + left. by apply B7.
      + right; by left.
      + right; right; left. exact (elem_of_weaken _ _ _ A7 B6).
      + right; right; right; left. by apply B2'. }
  case_bool_decide as Hp.
  { apply Hgo; auto. }
  destruct (to_local here s r) as [i|] eqn:Ei.
  - destruct (to_local_offers _ _ Ei) as [Hi1 Hi2]. destruct (_ >? _).
    + intros [= <- <- <- <-]. assert (Hlt : floor_lt (sw_next w) (keyset_of r)) by (apply Hnext; by left).
      split; [done|done|done|by left|right; right|done..|]; [intros Hf; apply Eg; by apply (floor_lt_trans _ (sw_next w))|].
      intros q Hq Hle. do 4 right. split; [done|by apply Hnext].
    + apply Hgo; auto; [intros q; apply offered_to_app|left; by apply offered_last].
  - unfold record_walked. destruct (track (st_id r) u) as [t v] eqn:Et.
    destruct (track_spec _ _ _ _ Et Hsm) as (T1 & T2 & T3 & T4 & T5). destruct t.
    + apply Hgo; auto.
    + assert (Hpos : 0 < Z.min (sw_seen w + 1) u32_max) by (assert (0 < u32_max) by done; destruct Hseen; lia).
      apply Hgo; auto. cbn. unfold in_u32. split; [destruct Hseen; lia|done].
Qed.
(** A walk that ends its cycle met a row past the floor. *)
Lemma walk_page_cycles floor prev max_bytes page : forall w u items w' u' items',
  walk_page here s floor prev max_bytes page w u items = (WalkCycled, w', u', items') ->
  exists q, q ∈ page /\ floor_lt floor (keyset_of q).
Proof.
  induction page as [|q l IH]; intros w u items w' u' items'; cbn [walk_page]; [done|].
  destruct (floor_gt (keyset_of q) floor) eqn:Eg.
  { intros _. exists q. split; [by left|by apply floor_gt_true]. }
  intros H. assert (Hl : exists q', q' ∈ l /\ floor_lt floor (keyset_of q')).
  { revert H. case_bool_decide; [apply IH|]. destruct (to_local here s q); [destruct (_ >? _); [done|apply IH]|].
    unfold record_walked. destruct (track _ _). apply IH. }
  destruct Hl as (q' & Hq' & ?). exists q'. split; [by right|done].
Qed.

(** A walk rests at its start or at a row that is not past the floor. *)
Definition next_below (floor : UploadFloor) (w' : Sweep) : Prop :=
  sw_next w' = sw_from w' \/ ~ floor_lt floor (sw_next w').
(** What is left of the walk, and that it forgets no version of its region. *)
Record rewalked (floor : UploadFloor) (prev : gset string) (w : Sweep) (u u' : UnreadableUploads)
    (items items' : list LocalItem.t) (res : option Sweep) : Prop := {
  rw_small : small u';
  rw_sweep : un_sweep u' = un_sweep u;
  rw_ids : un_ids u ⊆ un_ids u';
  rw_items r : offered items r -> offered items' r;
  rw_res w' : res = Some w' -> sweep_ok w' /\ sw_from w' = sw_from w /\ next_below floor w';
  rw_kept r : stored s r -> swept w r -> ~ floor_lt floor (keyset_of r) ->
    offered items' r \/ st_id r ∈ prev \/ st_id r ∈ un_ids u' \/ exists w', res = Some w' /\ swept w' r;
}.
Definition cycled (w : Sweep) : option Sweep :=
  if 0 <? sw_seen w
  then Some {| sw_from := sw_from w; sw_next := sw_from w; sw_seen := 0; sw_settled := sw_seen w |} else None.
Lemma cycled_keeps w w1 r : sw_from w1 = sw_from w -> swept w r -> 0 < sw_seen w1 ->
  exists w', cycled w1 = Some w' /\ swept w' r.
Proof.
  intros Hf [Hr _] Hpos. unfold cycled. rewrite (proj2 (Z.ltb_lt _ _) Hpos). eexists. split; [done|].
  unfold swept. cbn. rewrite Hf. split; [done|by left].
Qed.
Lemma cycled_ok floor w w1 w' : sweep_ok w1 -> sw_from w1 = sw_from w -> cycled w1 = Some w' ->
  sweep_ok w' /\ sw_from w' = sw_from w /\ next_below floor w'.
Proof.
  intros [_ H1 H2 H3 H4] Hf. unfold cycled. destruct (0 <? sw_seen w1); [|done]. intros [= <-]. cbn.
  split; [split; cbn; [apply floor_lt_irrefl|done|done|done|done]|]. split; [done|by left].
Qed.
Lemma swept_on w w1 r : sw_from w1 = sw_from w -> swept w r ->
  0 < sw_seen w1 \/ floor_lt (sw_next w1) (keyset_of r) -> swept w1 r.
Proof. intros Hf [Hr _] H. split; [by rewrite Hf|]. tauto. Qed.

Lemma walk_left_behind_spec floor prev max_bytes w u items res u' items' :
  history_ok s -> sweep_ok w -> small u ->
  walk_left_behind here s w floor prev max_bytes u items = (res, u', items') ->
  rewalked floor prev w u u' items items' res.
Proof.
  intros [Ht Hst] [Hord Hseen Hset Hfr Hnx] Hsm. unfold walk_left_behind.
  pose proof (stored_after_page (sw_next w) UPLOAD_SCAN_LIMIT s Ht) as [P1 P2 P3].
  revert P1 P2 P3. generalize (stored_after (fl_at (sw_next w)) (fl_item (sw_next w)) UPLOAD_SCAN_LIMIT s). intros page P1 P2 P3.
  destruct (walk_page here s floor prev max_bytes page w u items) as [[[e w1] u1] items1] eqn:Ew.
  destruct (walk_page_owes _ _ _ _ _ _ _ _ _ _ _ P2 (fun r Hr => proj2 (P1 r Hr)) Hseen Hsm Ew)
    as [B1 [B2 B2'] Bset B3 Bs B4 B5 B6 B7 B8].
  assert (Hok1 : sweep_ok w1 /\ sw_from w1 = sw_from w).
  { split; [|done]. split; [|done|by rewrite Bset|by rewrite B1|].
    2:{ destruct B3 as [->|(q & Hq & -> & _)]; [done|]. apply Hst. by apply P1. }
    rewrite B1. destruct B3 as [->|(q & Hq & -> & _)]; [done|]. destruct (P1 q Hq) as [_ Hlt].
    apply floor_lt_asym. by apply (floor_le_lt _ (sw_next w)). }
  assert (Hafter : forall r, (forall q, q ∈ page -> before q r) -> floor_lt (sw_next w) (keyset_of r) -> floor_lt (sw_next w1) (keyset_of r)).
  { intros r Hall Hn. destruct B3 as [->|(q & Hq & -> & _)]; [done|by apply Hall]. }
  assert (Hgo : forall res0, (forall w', res0 = Some w' -> sweep_ok w' /\ sw_from w' = sw_from w /\ next_below floor w') ->
     (forall r, swept w r -> 0 < sw_seen w1 -> exists w', res0 = Some w' /\ swept w' r) ->
     (forall r, swept w r -> ~ floor_lt floor (keyset_of r) -> e = WalkStopped \/ ((UPLOAD_SCAN_LIMIT <= length page)%nat /\ forall q, q ∈ page -> before q r) ->
        floor_lt (sw_next w1) (keyset_of r) -> exists w', res0 = Some w' /\ swept w' r) ->
     (res0, u1, items1) = (res, u', items') -> rewalked floor prev w u u' items items' res).
  { intros res0 H1 H2 H3 [= <- <- <-]. split; try done. intros r Hr Hs Hle.
    pose proof Hs as [_ [Hn|Hn]]; [|right; right; right; auto].
    destruct (P3 r Hr Hn) as [Hin|[Hfull Hall]]; [|right; right; right; apply H3; auto].
    destruct (B8 r Hin Hle) as [?|[?|[?|[?|[? ?]]]]]; [by auto|by auto|by auto|right; right; right; apply H2; auto|right; right; right; apply H3; auto]. }
  destruct e.
  - assert (Hnb : next_below floor w1).
    { destruct Bs as [?|[->|?]]; [done|by cbn in Ew|by right]. }
    apply Hgo; [intros w' [= <-]; destruct Hok1; auto|intros r Hs Hp; exists w1|intros r Hs _ _ Hn; exists w1]; (split; [done|]); apply (swept_on w); auto.
  - apply (Hgo (cycled w1)); [intros w'; apply cycled_ok; apply Hok1|intros r Hs; by apply (cycled_keeps w)|].
    intros r Hs Hle [?|[_ Hall]] _; [done|]. destruct (walk_page_cycles _ _ _ _ _ _ _ _ _ _ Ew) as (q & Hq & Hlt).
    destruct Hle. apply (floor_lt_trans _ (keyset_of q)); [done|by apply Hall].
  - destruct (Nat.ltb_spec (length page) UPLOAD_SCAN_LIMIT) as [Hshort|Hlong].
    + apply (Hgo (cycled w1)); [intros w'; apply cycled_ok; apply Hok1|intros r Hs; by apply (cycled_keeps w)|].
      intros r Hs Hle [?|[? _]] _; [done|lia].
    + assert (Hnb : next_below floor w1).
      { destruct Bs as [?|[->|?]]; [done|cbn in Hlong; unfold UPLOAD_SCAN_LIMIT in Hlong; lia|by right]. }
      apply Hgo; [intros w' [= <-]; destruct Hok1; auto|intros r Hs Hp; exists w1|intros r Hs _ _ Hn; exists w1]; (split; [done|]); apply (swept_on w); auto.
Qed.

(** The sweep is not in the middle of a cycle that has counted nothing and has
    passed [f]. *)
Definition ready (f : UploadFloor) (u : UnreadableUploads) : Prop :=
  forall w, un_sweep u = Some w -> sweep_ok w /\ next_below f w.
(** The record as a scan leaves it. *)
Definition tame (u : UnreadableUploads) : Prop := small u /\ forall w, un_sweep u = Some w -> sweep_ok w.
Lemma sweep_from_spec f behind u : in_i64 (fl_at behind) -> ready f u -> ~ floor_lt behind f ->
  ready f (sweep_from behind u) /\ un_ids (sweep_from behind u) = un_ids u /\
  (forall r, owed u r -> owed (sweep_from behind u) r) /\
  (forall r, floor_lt behind (keyset_of r) -> owed (sweep_from behind u) r).
Proof.
  intros Hb Hr Hf. unfold sweep_from. destruct (un_sweep u) as [w|] eqn:Ew.
  - destruct (Hr w Ew) as [Hok Hn]. destruct (floor_le (sw_from w) behind) eqn:Ele.
    + apply floor_le_true in Ele. split_and!; [done|done|done|]. intros r Hlt. right. exists w. split; [done|].
      split; [by apply (floor_le_lt _ behind)|]. left. destruct Hn as [Hn|Hn]; [rewrite Hn; by apply (floor_le_lt _ behind)|].
      apply (floor_le_lt _ f); [done|]. by apply (floor_le_lt _ behind).
    + assert (Hlt : floor_lt behind (sw_from w)).
      { destruct (floor_cases behind (sw_from w)) as [?|[He|?]]; [done| |].
        - exfalso. apply (not_false_iff_true (floor_le (sw_from w) behind)); [|done]. apply floor_le_true. rewrite He. apply floor_lt_irrefl.
        - exfalso. apply (not_false_iff_true (floor_le (sw_from w) behind)); [|done]. apply floor_le_true. by apply floor_lt_asym. }
      split_and!; [|done| |].
      * intros w' [= <-]. cbn. split; [split; cbn; [apply floor_lt_irrefl|apply Hok|apply Hok|done|done]|by left].
      * intros r [Hi|(w' & Hw' & Hs & _)]; [by left|right]. assert (w' = w) as -> by congruence. eexists. split; [done|].
        split; cbn; [|left]; by apply (floor_lt_trans _ (sw_from w)).
      * intros r Hlt'. right. eexists. split; [done|]. split; cbn; auto.
  - split_and!; [|done| |].
    + intros w' [= <-]. cbn. split; [split; cbn; [apply floor_lt_irrefl|done|done|done|done]|by left].
    + intros r [Hi|(w' & Hw' & _)]; [by left|congruence].
    + intros r Hlt'. right. eexists. split; [done|]. split; cbn; auto.
Qed.
Record offering (f : UploadFloor) (prev : gset string) (rows : list StoredItem) (behind : UploadFloor) (o o' : Offer)
    (u u' : UnreadableUploads) (items items' : list LocalItem.t) : Prop := {
  og_small : small u';
  og_ready : ready f u';
  og_owed r : owed u r -> owed u' r;
  og_items r : offered items r -> offered items' r;
  og_started : of_started o' = of_started o /\ of_epoch o' = of_epoch o;
  og_rows r : r ∈ rows -> offered items' r \/ st_id r ∈ prev \/ owed u' r \/
    (of_truncated o' = true /\ floor_lt (of_last o') (keyset_of r));
  og_last : in_i64 (fl_at (of_last o)) -> in_i64 (fl_at (of_last o'));
  og_cut : o' = o \/ of_truncated o' = true /\
    forall r, (forall q, q ∈ rows -> before q r) -> floor_lt behind (keyset_of r) -> floor_lt (of_last o') (keyset_of r);
}.
Lemma offer_rows_spec f prev max_bytes rows : forall behind bytes items u o items' u' o',
  StronglySorted before rows -> (forall r, r ∈ rows -> floor_lt behind (keyset_of r)) ->
  (forall r, r ∈ rows -> in_i64 (st_created_at r)) -> in_i64 (fl_at behind) ->
  ~ floor_lt behind f -> small u -> ready f u ->
  offer_rows here s prev max_bytes rows behind bytes items u o = (items', u', o') ->
  offering f prev rows behind o o' u u' items items'.
Proof.
  induction rows as [|r rows IH]; intros behind bytes items u o items' u' o' Hsort Hb Hst Hbi Hf Hsm Hr; cbn [offer_rows].
  { intros [= <- <- <-]. split; try done; [|by left]. intros q Hq. by apply elem_of_nil in Hq. }
  apply StronglySorted_inv in Hsort as [Hsort Hall]. rewrite Forall_forall in Hall.
  assert (Hbr : floor_lt behind (keyset_of r)) by (apply Hb; by left).
  assert (Hgo : forall u2 items2 bytes2, small u2 -> ready f u2 -> (forall q, owed u q -> owed u2 q) ->
            (forall q, offered items q -> offered items2 q) -> offered items2 r \/ st_id r ∈ prev \/ owed u2 r ->
            offer_rows here s prev max_bytes rows (keyset_of r) bytes2 items2 u2 o = (items', u', o') ->
            offering f prev (r :: rows) behind o o' u u' items items').
  { intros u2 items2 bytes2 A1 A2 A3 A4 A5 H.
    apply IH in H; [|done|done|intros q Hq; apply Hst; by right|apply Hst; by left|intros Hlt; apply Hf; by apply (floor_lt_trans _ (keyset_of r))|done|done].
    destruct H as [B1 B2 B3 B4 B5 B6 B9 B7]. split; auto.
    - intros q [->|Hq]%elem_of_cons; [|by apply B6]. destruct A5 as [?|[?|?]]; auto.
    - destruct B7 as [->|[Ht Hlast]]; [by left|right]. split; [done|]. intros q Hq Hbq.
      apply Hlast; [intros q' Hq'; apply Hq; by right|apply Hq; by left]. }
  case_bool_decide as Hp.
  { apply Hgo; auto. }
  destruct (to_local here s r) as [i|] eqn:Ei.
  - destruct (to_local_offers _ _ Ei) as [Hi1 Hi2]. destruct (_ >? _).
    + intros [= <- <- <-]. split; auto. intros q Hq. right; right; right. split; [done|]. by apply Hb.
    + apply Hgo; auto; [intros q; apply offered_to_app|left; by apply offered_last].
  - destruct (track (st_id r) u) as [t v] eqn:Et. destruct (track_spec _ _ _ _ Et Hsm) as (T1 & T2 & T3 & T4 & T5).
    destruct t.
    + apply Hgo; auto; [intros w; rewrite T2; apply Hr|intros q; by apply owed_ids|right; right; left; auto].
    + rewrite (T5 eq_refl). destruct (sweep_from_spec f behind u Hbi Hr Hf) as (S1 & S2 & S3 & S4).
      apply Hgo; auto. unfold small. by rewrite S2.
Qed.

Lemma walk_again_spec f prev max_bytes u items u' items' :
  history_ok s -> tame prev -> small u -> un_sweep u = None ->
  walk_again here s f prev max_bytes u items = (u', items') ->
  small u' /\ ready f u' /\ un_ids u ⊆ un_ids u' /\ (forall r, offered items r -> offered items' r) /\
  (forall r w, stored s r -> reset_floor prev = false -> un_sweep prev = Some w -> swept w r ->
     ~ floor_lt f (keyset_of r) -> offered items' r \/ st_id r ∈ un_ids prev \/ owed u' r).
Proof.
  intros Ht [_ Hr] Hsm Hno. unfold walk_again.
  assert (Hnone : (u, items) = (u', items') -> (reset_floor prev = true \/ un_sweep prev = None) ->
    small u' /\ ready f u' /\ un_ids u ⊆ un_ids u' /\ (forall r, offered items r -> offered items' r) /\
    (forall r w, stored s r -> reset_floor prev = false -> un_sweep prev = Some w -> swept w r ->
     ~ floor_lt f (keyset_of r) -> offered items' r \/ st_id r ∈ un_ids prev \/ owed u' r)).
  { intros [= <- <-] Hcase. split_and!; try done; [intros w Hw; congruence|]. intros r w _ H1 H2. destruct Hcase; congruence. }
  destruct (reset_floor prev) eqn:Er; [intros H; apply Hnone; auto|].
  destruct (un_sweep prev) as [w|] eqn:Ew; [|intros H; apply Hnone; auto]. clear Hnone.
  pose proof (Hr w eq_refl) as Hok. destruct (walk_left_behind here s w f (un_ids prev) max_bytes u items) as [[res u1] i1] eqn:E.
  intros [= <- <-]. destruct (walk_left_behind_spec _ _ _ _ _ _ _ _ _ Ht Hok Hsm E) as [L1 L2 L3 L4 L5 L6].
  split_and!; try done.
  - intros w' Hw'. cbn in Hw'. by destruct (L5 w' Hw') as (Hok' & _ & Hnb).
  - intros r w' Hst _ [= <-] Hs Hle. destruct (L6 r Hst Hs Hle) as [?|[?|[?|(w' & -> & ?)]]];
      [by auto|by auto|right; right; by left|right; right; right; by exists w'].
Qed.

(** What a scan was given: the floor it starts from and the record of before. *)
Record scanned (f : UploadFloor) (epoch : Z) (prev : UnreadableUploads) (sc : ScanResult) : Prop := {
  sn_tame : tame (sc_unreadable sc);
  sn_total : in_u32 (un_total (sc_unreadable sc));
  sn_last : in_i64 (fl_at (of_last (sc_offer sc)));
  sn_started : of_started (sc_offer sc) = f /\ of_epoch (sc_offer sc) = epoch;
  (** what was owed up to the floor is offered, or still owed *)
  sn_kept r : stored s r -> reset_floor prev = false -> owed prev r -> ~ floor_lt f (keyset_of r) ->
    offered (sc_items sc) r \/ owed (sc_unreadable sc) r;
  (** what is past the floor is offered, owed, or past the end of the offer *)
  sn_after r : stored s r -> floor_lt f (keyset_of r) ->
    offered (sc_items sc) r \/ owed (sc_unreadable sc) r \/
    (of_truncated (sc_offer sc) = true /\ floor_lt (of_last (sc_offer sc)) (keyset_of r));
}.
Lemma before_last rows r f : (forall q, q ∈ rows -> before q r) -> floor_lt f (keyset_of r) ->
  floor_lt (match last rows with Some q => keyset_of q | None => f end) (keyset_of r).
Proof. intros Hall Hf. destruct (last rows) as [q|] eqn:E; [|done]. apply Hall. by apply last_Some_elem_of. Qed.
Lemma scan_bounded_spec since after_id epoch prev max_bytes :
  history_ok s -> let f := scan_floor since after_id prev in in_i64 (fl_at f) -> tame prev ->
  scanned f epoch prev (scan_bounded here s since after_id epoch prev max_bytes).
Proof.
  intros Hh f Hfi Htame. pose proof (hi_tables s Hh) as Ht. pose proof Htame as [Hsm _]. unfold scan_bounded. fold f.
  destruct (retry_ids here s max_bytes (btree_ids (un_ids prev))) as [items0 u0] eqn:Er.
  destruct (retry_ids_spec _ _ _ _ Hsm Ht Er) as (R1 & R2 & R3).
  destruct (walk_again here s f prev max_bytes u0 items0) as [u1 items1] eqn:Ew.
  destruct (walk_again_spec _ _ _ _ _ _ _ Hh Htame R1 R2 Ew) as (W1 & W2 & W3 & W4 & W5).
  assert (Hids : forall r, stored s r -> st_id r ∈ un_ids prev -> offered items1 r \/ owed u1 r).
  { intros r Hr Hin. destruct (R3 r Hr Hin) as [?|Hi]; [auto|]. right; left. exact (elem_of_weaken _ _ _ Hi W3). }
  pose proof (stored_after_page f UPLOAD_SCAN_LIMIT s Ht) as [P1 P2 P3].
  set (rows := stored_after (fl_at f) (fl_item f) UPLOAD_SCAN_LIMIT s) in *. clearbody rows.
  match goal with |- context [offer_rows _ _ _ _ _ _ _ _ _ ?o0] => set (o := o0) end.
  destruct (offer_rows here s (un_ids prev) max_bytes rows f (bytes_of items1) items1 u1 o) as [[items2 u2] o2] eqn:Eo.
  destruct (offer_rows_spec f _ _ _ _ _ _ _ _ _ _ _ P2 (fun r Hr => proj2 (P1 r Hr))
              (fun r Hr => hi_stamps s Hh r (proj1 (P1 r Hr))) Hfi (floor_lt_irrefl f) W1 W2 Eo)
    as [O1 O2 O3 O4 [O5 O8] O6 O9 O7].
  assert (Hprev : forall r, stored s r -> st_id r ∈ un_ids prev -> offered items2 r \/ owed (settle_total u2) r).
  { intros r Hr Hin. destruct (Hids r Hr Hin); [left; auto|right; by apply O3]. }
  assert (Hset : forall r, owed u2 r -> owed (settle_total u2) r) by done.
  split; cbn [sc_items sc_offer sc_unreadable].
  - split; [exact O1|]. intros w Hw. by destruct (O2 w Hw).
  - cbn. assert (0 <= match un_sweep u2 with Some w => proven w | None => 0 end).
    { destruct (un_sweep u2) as [w|] eqn:E; [|done]. destruct (O2 w E) as [[_ [? _] [? _]] _]. unfold proven. by case_decide. }
    unfold in_u32. assert (0 < u32_max) by done. lia.
  - apply O9. subst o. cbn [of_last]. destruct (last rows) as [q|] eqn:El; [|done].
    apply (hi_stamps s Hh q). apply P1. by apply last_Some_elem_of.
  - by rewrite O5, O8.
  - intros r Hr Hreset [Hin|(w & Hw & Hs)] Hle; [auto|]. destruct (W5 r w Hr Hreset Hw Hs Hle) as [?|[?|?]]; [left; auto|auto|right; auto].
  - intros r Hr Hlt. destruct (P3 r Hr Hlt) as [Hin|[Hfull Hall]].
    + destruct (O6 r Hin) as [?|[?|[?|?]]]; [auto| |right; left; auto|auto]. destruct (Hprev r Hr); auto.
    + right; right. destruct O7 as [->|[Htr Hlast]]; [|split; [exact Htr|by apply Hlast]].
      subst o. cbn [of_truncated of_last]. split; [exact (proj2 (Nat.leb_le _ _) Hfull)|by apply before_last].
Qed.
End ScanSafety.
