(* ===== verification/Services.v ===== *)
(** What an installed synchronisation module may ask of the application
    ([copypaste-modules/src/sync.rs], [copypaste-sync/src/host.rs]) over the
    key/value table [sync_device_state] ([copypaste-core/src/storage/state.rs]):
    the state under the module's own keys, the upload floor and its revisions. *)

From S2P Require Import Prelude Float64 Bytes Text Wire Binary Merge Payload Settings Credentials Workspace Table Items ItemSafety Retention Organization Versions Scan LocalMerge Source CloudRow Upload.

(** ** [sync_device_state] *)

Notation State := (gmap string string).
Definition lookup_state (key : string) (kv : State) : option string :=
  v ← kv !! key; if String.eqb v "" then None else Some v.
Definition set_state (key value : string) (kv : State) : State := <[key := value]> kv.
Definition set_one (kv : State) (e : string * string) : State :=
  if String.eqb e.2 "" then delete e.1 kv else <[e.1 := e.2]> kv.
Definition set_state_all (entries : list (string * string)) (kv : State) : State := foldl set_one kv entries.
Definition clear_state (keys : list string) (kv : State) : State := foldl (fun kv k => delete k kv) kv keys.
(** [str::parse::<i64>]. *)
Definition parse_int (t : string) : option Z :=
  if String.prefix "+" t then Z.of_uint <$> DecimalString.NilZero.uint_of_string (String.substring 1 (String.length t) t)
  else Z.of_int <$> DecimalString.NilZero.int_of_string t.
Definition parse_i64 (t : string) : option Z :=
  z ← parse_int t; if (i64_min <=? z) && (z <=? i64_max) then Some z else None.
Definition state_ms (key : string) (kv : State) : Z :=
  Z.max (default 0 (raw ← lookup_state key kv; parse_i64 raw)) 0.
Definition set_state_ms (key : string) (ms : Z) (kv : State) : State := set_state key (show_z (Z.max ms 0)) kv.
(** [LIKE]-free prefix and suffix of a key. *)
Fixpoint strip_prefix (p t : string) : option string :=
  match p, t with
  | EmptyString, t => Some t
  | String a p, String b t => if Ascii.eqb a b then strip_prefix p t else None
  | _, EmptyString => None
  end.
Fixpoint strip_suffix (p t : string) : option string :=
  if String.eqb t p then Some ""%string
  else match t with EmptyString => None | String a t => String a <$> strip_suffix p t end.
Definition provider_of (key : string) : option string :=
  t ← strip_prefix "module:" key; strip_suffix ":cloud_upload_floor_ms" t.
Definition sync_provider_ids (kv : State) : list string := omap (fun e => provider_of e.1) (map_to_list kv).
Definition module_prefix (id : string) : string := String.append "module:" (String.append id ":").
Definition clear_module_state (id : string) (kv : State) : State :=
  filter (fun e => strip_prefix (module_prefix id) e.1 = None) kv.

(** ** [SyncServices] *)

(** [valid_id] of the module manifest. *)
Definition id_byte (a : ascii) : bool :=
  let b := byte_val a in
  ((97 <=? b) && (b <=? 122)) || ((48 <=? b) && (b <=? 57)) || (b =? 45) || (b =? 46) || (b =? 95).
Fixpoint has_dots (l : bytes) : bool :=
  match l with
  | a :: ((b :: _) as l) => ((byte_val a =? 46) && (byte_val b =? 46)) || has_dots l
  | _ => false
  end.
Definition valid_id (value : string) : bool :=
  match as_bytes value with
  | [] => false
  | first :: _ =>
    (len (as_bytes value) <=? 96) && ((97 <=? byte_val first) && (byte_val first <=? 122))
    && forallb id_byte (as_bytes value) && negb (has_dots (as_bytes value))
    && negb (match last (as_bytes value) with Some b => byte_val b =? 46 | None => false end)
  end.

Inductive ModuleError := InvalidModule (message : string) | ModuleDisabled | ModuleState.
Definition UPLOAD_FLOOR : string := "cloud_upload_floor_ms".
Definition UPLOAD_FLOOR_ITEM : string := "cloud_upload_floor_item_id".
Definition UNREADABLE_UPLOADS : string := "cloud_unreadable_uploads".
Definition SIGN_OUT_KEYS : list string :=
  ["cloud_email"; "cloud_user_id"; "cloud_access_token"; "cloud_refresh_token"; "cloud_expires_at_ms";
   "cloud_sync_key"; "cloud_session_user_id"; "cloud_sync_key_user_id"; "cloud_last_sync_ms"; UNREADABLE_UPLOADS].

Record Progress := { epoch : Z; offer : option Offer }.
Definition no_progress : Progress := {| epoch := 0; offer := None |}.
Definition bump (p : Progress) : Progress := {| epoch := u64_wrapping_succ (epoch p); offer := offer p |}.
(** [sync_source]: the history behind the view. *)
Record Services := { state_of : State; progress : gmap string Progress; sync_source : Source.Source }.
Definition with_state (kv : State) (w : Services) : Services :=
  {| state_of := kv; progress := progress w; sync_source := sync_source w |}.
Definition set_progress (id : string) (p : Progress) (w : Services) : Services :=
  {| state_of := state_of w; progress := <[id := p]> (progress w); sync_source := sync_source w |}.
Definition set_source (s : Source.Source) (w : Services) : Services :=
  {| state_of := state_of w; progress := progress w; sync_source := s |}.
Definition progress_of (id : string) (w : Services) : Progress := default no_progress (progress w !! id).

Definition key_byte (a : ascii) : bool :=
  let b := byte_val a in
  ((48 <=? b) && (b <=? 57)) || ((65 <=? b) && (b <=? 90)) || ((97 <=? b) && (b <=? 122)) || (b =? 95).
Definition key (id k : string) : result ModuleError string :=
  if String.eqb k "" || (96 <? len (as_bytes k)) || negb (forallb key_byte (as_bytes k))
  then Err (InvalidModule "Invalid sync state key.")
  else Ok (String.append (module_prefix id) k).
Fixpoint keys (id : string) (l : list string) : result ModuleError (list string) :=
  match l with
  | [] => Ok []
  | k :: l => k ← key id k; l ← keys id l; Ok (k :: l)
  end.

Definition floor (id : string) (kv : State) : result ModuleError UploadFloor :=
  at_ ← key id UPLOAD_FLOOR; item ← key id UPLOAD_FLOOR_ITEM;
  Ok {| fl_at := state_ms at_ kv; fl_item := lookup_state item kv |}.
Definition set_floor (id : string) (f : UploadFloor) (kv : State) : result ModuleError State :=
  at_ ← key id UPLOAD_FLOOR; item ← key id UPLOAD_FLOOR_ITEM;
  Ok (set_state_all [(at_, show_z (fl_at f)); (item, default ""%string (fl_item f))] kv).
Definition note_version (id : string) (stamp : Z) (w : Services) : result ModuleError Services :=
  let w := set_progress id (bump (progress_of id w)) w in
  f ← floor id (state_of w);
  if Z.max stamp 0 <=? fl_at f
  then kv ← set_floor id {| fl_at := Z.max stamp 0; fl_item := None |} (state_of w); Ok (with_state kv w)
  else Ok w.
Fixpoint note_each (ids : list string) (stamp : Z) (w : Services) : result ModuleError Services :=
  match ids with [] => Ok w | id :: ids => w ← note_version id stamp w; note_each ids stamp w end.
Definition note_versions (stamp : Z) (w : Services) : result ModuleError Services :=
  note_each (sync_provider_ids (state_of w)) stamp w.
Definition clear (id : string) (w : Services) : Services :=
  {| state_of := clear_module_state id (state_of w); progress := delete id (progress w); sync_source := sync_source w |}.
Definition clear_cloud_credentials (id : string) (w : Services) : result ModuleError Services :=
  ks ← keys id SIGN_OUT_KEYS; Ok (with_state (clear_state ks (state_of w)) w).

(** ** Requests *)

Inductive SyncHostRequest :=
  | GroupSnapshot
  | GroupApply (device_id snapshot : string)
  | Active
  | DeviceId
  | SyncEnabled
  | Revision
  | ReadState (ks : list string)
  | WriteState (values : gmap string string)
  | ClearState (ks : list string)
  | ScanUploads (since_ms : Z) (after_item_id : option string)
  | ApplyItems (items : list LocalItem.t)
  | Requeue (incoming : LocalItem.t)
  | CommitUpload (started_ms : Z).
Inductive Reply :=
  | ReplyNull
  | ReplyText (t : option string)
  | ReplyBool (b : bool)
  | ReplyRevision (n : Z)
  | ReplyValues (values : gmap string (option string))
  | ReplyScan (s : ScanResult)
  (** with the stamp of the change that is announced *)
  | ReplyApplied (applied : list Applied) (changed : option Z).
(** The group, by what its callbacks answer. *)
Record GroupServices := {
  gs_revision : Z; gs_snapshot : option (option string); gs_apply : string -> string -> bool;
}.
(** What the handler of one call reads of the application. *)
Record Host := {
  ho_enabled : bool; ho_group : option GroupServices; ho_device : string; ho_config : ConfigData.t;
  ho_hooks : Hooks; ho_runtime : bool; ho_rng : string -> bytes * bytes; ho_clock : Clock;
  ho_interference : nat -> Store -> Store;
}.
Definition MAX_STATE_KEYS : nat := 64.
Definition MAX_STATE_VALUE : Z := 128 * 1024.
Definition MAX_GROUP_SNAPSHOT : Z := 768 * 1024.
Definition SCAN_BYTES : Z := 8 * 1024 * 1024.
Definition MAX_APPLY_ITEMS : nat := 500.
Definition require_enabled (h : Host) : result ModuleError unit := refuse_if (negb (ho_enabled h)) ModuleDisabled.

Section Requests.
Context {PC : PayloadCodecs} {MJ : MetadataJson} {DG : Digest} {OC : OrgCodec} {K : ItemKey}
        {CC : CredentialCodecs} {OJ : OfferJson} {UJ : UploadJson}.

Definition group_snapshot (h : Host) : result ModuleError Reply :=
  _ ← require_enabled h;
  match ho_group h with
  | None => Ok (ReplyText None)
  | Some g => match gs_snapshot g with Some t => Ok (ReplyText t) | None => Err ModuleState end
  end.
Definition group_apply (h : Host) (device_id snapshot : string) : result ModuleError Reply :=
  _ ← require_enabled h;
  _ ← refuse_if ((128 <? len (as_bytes device_id)) || (MAX_GROUP_SNAPSHOT <? len (as_bytes snapshot))) ModuleState;
  g ← ok_or ModuleState (ho_group h);
  if gs_apply g device_id snapshot then Ok ReplyNull else Err ModuleState.
Definition revision (h : Host) (id : string) (w : Services) : Z :=
  (epoch (progress_of id w) + default 0 (gs_revision <$> ho_group h)) mod 2^64.
Fixpoint read_keys (id : string) (ks : list string) (kv : State) (values : gmap string (option string))
    : result ModuleError (gmap string (option string)) :=
  match ks with
  | [] => Ok values
  | k :: ks => full ← key id k; read_keys id ks kv (<[k := lookup_state full kv]> values)
  end.
Definition read_state (id : string) (ks : list string) (w : Services) : result ModuleError Reply :=
  _ ← refuse_if (MAX_STATE_KEYS <? length ks)%nat ModuleState;
  values ← read_keys id ks (state_of w) ∅; Ok (ReplyValues values).
Fixpoint key_values (id : string) (l : list (string * string)) : result ModuleError (list (string * string)) :=
  match l with
  | [] => Ok []
  | (k, v) :: l => k ← key id k; l ← key_values id l; Ok ((k, v) :: l)
  end.
Definition write_state (id : string) (values : gmap string string) (w : Services) : result ModuleError (Reply * Services) :=
  _ ← refuse_if ((MAX_STATE_KEYS <? size values)%nat
                 || existsb (fun e => MAX_STATE_VALUE <? len (as_bytes e.2)) (map_to_list values)) ModuleState;
  l ← key_values id (map_to_list values);
  Ok (ReplyNull, with_state (set_state_all l (state_of w)) w).
Definition clear_keys (id : string) (ks : list string) (w : Services) : result ModuleError (Reply * Services) :=
  _ ← refuse_if (MAX_STATE_KEYS <? length ks)%nat ModuleState;
  ks ← keys id ks;
  Ok (ReplyNull, with_state (clear_state ks (state_of w)) w).

(** A scan: the record of the last one is read, a record that is lost sends the
    floor back, and the new record is kept before the page is answered. *)
Definition scan_uploads (h : Host) (id : string) (since_ms : Z) (after_item_id : option string) (w : Services)
    : result ModuleError (Reply * Services) :=
  _ ← require_enabled h;
  k ← key id UNREADABLE_UPLOADS;
  let unreadable := decode_unreadable (lookup_state k (state_of w)) in
  w ← (if reset_floor unreadable
       then kv ← set_floor id floor_zero (state_of w);
            Ok (set_progress id (bump (progress_of id w)) (with_state kv w))
       else Ok w);
  let entry := progress_of id w in
  let scan := scan_bounded (ho_device h) (src_store (sync_source w)) since_ms after_item_id (epoch entry) unreadable
                SCAN_BYTES in
  let w := with_state (set_state k (encode_unreadable (sc_unreadable scan)) (state_of w)) w in
  Ok (ReplyScan scan, set_progress id {| epoch := epoch entry; offer := Some (sc_offer scan) |} w).
Definition min_stamp (l : list LocalItem.t) : Z :=
  match l with
  | [] => 0
  | i :: l => foldl (fun m j => Z.min m (LocalItem.created_at j)) (LocalItem.created_at i) l
  end.
Definition is_merged (a : Applied) : bool := match a with Merged => true | Declined _ => false end.
Definition apply_items (h : Host) (items : list LocalItem.t) (w : Services) : result ModuleError (Reply * Services) :=
  _ ← require_enabled h;
  _ ← refuse_if ((MAX_APPLY_ITEMS <? length items)%nat
                 || existsb (fun i => MAX_CONTENT_BYTES <? len (LocalItem.content i)) items) ModuleState;
  '(applied, _, src) ← map_err (fun _ => ModuleState)
    (view_apply_page (ho_config h) (ho_hooks h) (ho_device h) (ho_runtime h) (ho_rng h) items (ho_clock h)
       (ho_interference h) (sync_source w));
  Ok (ReplyApplied applied (if existsb is_merged applied then Some (min_stamp items) else None), set_source src w).
Definition requeue (h : Host) (id : string) (incoming : LocalItem.t) (w : Services) : result ModuleError (Reply * Services) :=
  _ ← require_enabled h;
  let stamp := requeue_stamp (ho_device h) (src_store (sync_source w)) incoming in
  w ← match stamp with Some stamp => note_version id stamp w | None => Ok w end;
  Ok (ReplyBool (bool_decide (is_Some stamp)), w).
Definition commit_upload (h : Host) (id : string) (started_ms : Z) (w : Services) : result ModuleError (Reply * Services) :=
  _ ← require_enabled h;
  entry ← ok_or ModuleState (progress w !! id);
  o ← ok_or ModuleState (offer entry);
  current ← floor id (state_of w);
  if (of_epoch o =? epoch entry) && floor_le (of_started o) current
  then kv ← set_floor id (floor_max current (floor_after_round o started_ms)) (state_of w);
       Ok (ReplyNull, with_state kv w)
  else Ok (ReplyNull, w).

Definition request (h : Host) (id : string) (r : SyncHostRequest) (w : Services) : result ModuleError (Reply * Services) :=
  match r with
  | GroupSnapshot => t ← group_snapshot h; Ok (t, w)
  | GroupApply d t => r ← group_apply h d t; Ok (r, w)
  | Active => Ok (ReplyNull, w)
  | DeviceId => Ok (ReplyText (Some (ho_device h)), w)
  | SyncEnabled => Ok (ReplyBool (ho_enabled h), w)
  | Revision => Ok (ReplyRevision (revision h id w), w)
  | ReadState ks => r ← read_state id ks w; Ok (r, w)
  | WriteState values => write_state id values w
  | ClearState ks => clear_keys id ks w
  | ScanUploads since after => scan_uploads h id since after w
  | ApplyItems items => apply_items h items w
  | Requeue incoming => requeue h id incoming w
  | CommitUpload started_ms => commit_upload h id started_ms w
  end.
End Requests.
