(* ===== verification/ServicesSafety.v ===== *)
(** What the services of the installed modules promise: a module reaches its own
    state only, and whatever rounds, notes and lost records come between, a version
    that waits for the cloud is forgotten only by a round that fails. *)

From S2P Require Import Prelude Float64 Bytes Text Wire Binary Merge Payload Settings Credentials Workspace Prog Table Items ItemSafety Retention Organization Versions Scan LocalMerge LocalMergeSafety History Source SourceSafety CloudRow Upload UploadSafety Services.

(** ** Text *)

Lemma parse_show z : in_i64 z -> parse_i64 (show_z z) = Some z.
Proof.
  intros [H1 H2]. assert (Hi : DecimalString.NilZero.int_of_string (show_z z) = Some (Z.to_int z)).
  { unfold show_z. pose proof (DecimalZ.of_to z) as Ho.
    apply DecimalString.NilZero.isi; intros E; rewrite E in Ho; cbn in Ho; subst z; discriminate E. }
  assert (Hm : parse_int (show_z z) = Some z).
  { unfold parse_int. destruct (String.prefix "+" (show_z z)) eqn:E; [exfalso|by rewrite Hi; cbn; rewrite DecimalZ.of_to].
    revert Hi. destruct (show_z z) as [|a t]; [done|]. revert E. cbn [String.prefix].
    destruct (Ascii.ascii_dec _ _) as [<-|]; [|done]. intros _. cbn. by destruct (DecimalString.NilEmpty.uint_of_string t). }
  unfold parse_i64. rewrite Hm. cbn. by rewrite (proj2 (Z.leb_le _ _) H1), (proj2 (Z.leb_le _ _) H2).
Qed.
Lemma show_z_some z : String.eqb (show_z z) "" = false.
Proof.
  destruct (String.eqb_spec (show_z z) "") as [E|]; [|done]. unfold show_z in E.
  destruct (Z.to_int z) as [d|d]; destruct d; cbn in E; congruence.
Qed.
Lemma strip_prefix_spec p t r : strip_prefix p t = Some r <-> t = String.append p r.
Proof.
  revert t. induction p as [|a p IH]; intros t; cbn.
  { split; [by intros [= ->]|by intros ->]. }
  destruct t as [|b t]; [by split|]. destruct (Ascii.eqb_spec a b) as [->|Hne].
  - rewrite IH. split; [by intros ->|by intros [= ->]].
  - split; [done|]. intros E. injection E as E _. by destruct Hne.
Qed.
Lemma append_length a b : String.length (String.append a b) = (String.length a + String.length b)%nat.
Proof. induction a as [|x a IH]; [done|]. exact (f_equal S IH). Qed.
Lemma strip_suffix_spec p t r : strip_suffix p t = Some r <-> t = String.append r p.
Proof.
  revert r. induction t as [|a t IH]; intros r.
  - cbn [strip_suffix]. destruct (String.eqb_spec "" p) as [<-|Hne].
    + split; [by intros [= <-]|]. destruct r; [done|]. intros H. discriminate H.
    + split; [done|]. destruct r; [done|]. intros H. discriminate H.
  - cbn [strip_suffix]. destruct (String.eqb_spec (String a t) p) as [<-|Hne].
    + split; [by intros [= <-]|]. destruct r as [|b r]; [done|]. intros H. apply (f_equal String.length) in H.
      change (S (String.length t) = S (String.length (String.append r (String a t)))) in H.
      rewrite append_length in H. cbn in H. lia.
    + destruct r as [|b r].
      * split; [|by intros]. intros (x & Hx & Hy)%fmap_Some. discriminate Hy.
      * rewrite fmap_Some. cbn. split; [by intros (x & Hx%IH & [= <- <-]); subst t|]. intros [= <- Ht]. exists r. by rewrite IH.
Qed.

(** ** Keys *)

Definition colon : ascii := ":"%char.
Lemma pivot (c : ascii) l1 k1 l2 k2 : c ∉ k1 -> c ∉ k2 -> l1 ++ c :: k1 = l2 ++ c :: k2 -> l1 = l2 /\ k1 = k2.
Proof.
  intros H1 H2. revert l2. induction l1 as [|a l1 IH]; intros [|b l2] E; cbn in E.
  - by injection E as ->.
  - injection E as _ E. destruct H1. rewrite E. apply elem_of_app. right; by left.
  - injection E as _ E. destruct H2. rewrite <- E. apply elem_of_app. right; by left.
  - injection E as -> E. destruct (IH _ E) as [-> ->]. done.
Qed.
Lemma as_bytes_append a b : as_bytes (String.append a b) = as_bytes a ++ as_bytes b.
Proof. induction a as [|x a IH]; [done|]. exact (f_equal (cons x) IH). Qed.
Lemma key_spec id k s : key id k = Ok s -> s = String.append (module_prefix id) k /\ colon ∉ as_bytes k.
Proof.
  unfold key. destruct (String.eqb k "" || (96 <? len (as_bytes k))); [done|]. cbn [orb].
  destruct (forallb key_byte (as_bytes k)) eqn:E; [|done]. intros [= <-]. split; [done|].
  rewrite forallb_forall in E. intros Hin%list_elem_of_In%E. discriminate Hin.
Qed.
(** A key tells the module and the name apart. *)
Lemma key_inj id k id' k' s : key id k = Ok s -> key id' k' = Ok s -> id = id' /\ k = k'.
Proof.
  intros [-> H]%key_spec [E H']%key_spec. unfold module_prefix in E. rewrite !append_assoc in E. apply append_inv_head in E.
  apply (f_equal as_bytes) in E. rewrite !as_bytes_append in E. destruct (pivot colon _ _ _ _ H H' E) as [H1 H2].
  split; by apply as_bytes_inj.
Qed.
Definition floor_key (id : string) : string := String.append (module_prefix id) UPLOAD_FLOOR.
Definition item_key (id : string) : string := String.append (module_prefix id) UPLOAD_FLOOR_ITEM.
Definition record_key (id : string) : string := String.append (module_prefix id) UNREADABLE_UPLOADS.
Lemma key_floor id : key id UPLOAD_FLOOR = Ok (floor_key id).
Proof. done. Qed.
Lemma key_item id : key id UPLOAD_FLOOR_ITEM = Ok (item_key id).
Proof. done. Qed.
Lemma key_record id : key id UNREADABLE_UPLOADS = Ok (record_key id).
Proof. done. Qed.
Lemma keys_apart id : floor_key id <> item_key id /\ floor_key id <> record_key id /\ item_key id <> record_key id.
Proof. split_and!; intros H; unfold floor_key, item_key, record_key in H; apply append_inv_head in H; vm_compute in H; congruence. Qed.

Lemma set_one_other kv e k : k <> e.1 -> set_one kv e !! k = kv !! k.
Proof. intros H. unfold set_one. destruct (String.eqb e.2 ""); [by rewrite lookup_delete_ne|by rewrite lookup_insert_ne]. Qed.
Lemma set_state_all_other l k : forall kv, (forall e, e ∈ l -> k <> e.1) -> set_state_all l kv !! k = kv !! k.
Proof.
  unfold set_state_all. induction l as [|e l IH]; intros kv H; [done|]. cbn. rewrite IH; [|intros; apply H; by right].
  apply set_one_other, H. by left.
Qed.
Lemma clear_state_other l k : forall kv, k ∉ l -> clear_state l kv !! k = kv !! k.
Proof.
  unfold clear_state. induction l as [|e l IH]; intros kv H; [done|]. apply not_elem_of_cons in H as [H1 H2]. cbn. rewrite IH by done.
  by rewrite lookup_delete_ne.
Qed.
Lemma lookup_one_same kv k v : lookup_state k (set_one kv (k, v)) = if String.eqb v "" then None else Some v.
Proof. unfold lookup_state, set_one. cbn. destruct (String.eqb v "") eqn:E; simplify_map_eq; [done|]. cbn. by rewrite E. Qed.
Lemma lookup_state_eq k kv kv' : kv !! k = kv' !! k -> lookup_state k kv = lookup_state k kv'.
Proof. unfold lookup_state. by intros ->. Qed.

(** ** The state of one provider *)

Definition the_floor (id : string) (kv : State) : UploadFloor :=
  {| fl_at := state_ms (floor_key id) kv; fl_item := lookup_state (item_key id) kv |}.
Lemma floor_is id kv : floor id kv = Ok (the_floor id kv).
Proof. done. Qed.
Lemma the_floor_eq id kv kv' : kv !! floor_key id = kv' !! floor_key id -> kv !! item_key id = kv' !! item_key id ->
  the_floor id kv = the_floor id kv'.
Proof.
  intros H1 H2. unfold the_floor, state_ms. by rewrite (lookup_state_eq _ _ _ H1), (lookup_state_eq _ _ _ H2).
Qed.
Lemma the_floor_range id kv : 0 <= fl_at (the_floor id kv) <= i64_max.
Proof.
  cbn. unfold state_ms. destruct (lookup_state (floor_key id) kv) as [t|]; [|cbn; unfold i64_max; lia]. cbn.
  unfold parse_i64. destruct (parse_int t) as [z|]; [|cbn; unfold i64_max; lia]. cbn.
  destruct (Z.leb_spec i64_min z), (Z.leb_spec z i64_max); cbn; unfold i64_max in *; lia.
Qed.
(** An empty id is read back as none. *)
Definition norm_floor (f : UploadFloor) : UploadFloor :=
  {| fl_at := fl_at f; fl_item := i ← fl_item f; if String.eqb i "" then None else Some i |}.
Lemma norm_floor_lt f g : floor_lt f g -> floor_lt (norm_floor f) g.
Proof.
  apply floor_le_lt. destruct f as [t [i|]]; [|apply floor_lt_irrefl]. unfold norm_floor. cbn.
  destruct (String.eqb_spec i "") as [->|]; [|apply floor_lt_irrefl].
  unfold floor_lt, floor_cmp, pair_cmp. cbn. rewrite Z.compare_refl. cbn. done.
Qed.
Lemma set_floor_spec id f kv kv' : 0 <= fl_at f <= i64_max -> set_floor id f kv = Ok kv' ->
  the_floor id kv' = norm_floor f /\ is_Some (kv' !! floor_key id) /\
  forall k, k <> floor_key id -> k <> item_key id -> kv' !! k = kv !! k.
Proof.
  intros Hr. unfold set_floor. rewrite key_floor, key_item. cbn [mbind result_bind]. intros [= <-].
  unfold set_state_all. cbn [foldl]. destruct (keys_apart id) as (K1 & K2 & K3).
  assert (Hf : forall kv v, set_one kv (item_key id, v) !! floor_key id = kv !! floor_key id).
  { intros kv0 v. by apply set_one_other. }
  split_and!.
  - unfold the_floor, norm_floor. f_equal.
    + unfold state_ms. rewrite (lookup_state_eq _ _ _ (Hf _ _)), lookup_one_same, show_z_some. cbn [mbind option_bind default].
      rewrite parse_show by (unfold in_i64, i64_min; lia). cbn. lia.
    + rewrite lookup_one_same. destruct (fl_item f) as [i|]; [|done]. cbn. by destruct (String.eqb i "").
  - rewrite (Hf _ _). unfold set_one. cbn [fst snd]. rewrite show_z_some. simplify_map_eq. by eexists.
  - intros k H1 H2. by rewrite !set_one_other.
Qed.
Lemma provider_of_spec k id : provider_of k = Some id <-> k = floor_key id.
Proof.
  unfold provider_of, floor_key, module_prefix. rewrite append_assoc, bind_Some. split.
  - intros (t & ->%strip_prefix_spec & ->%strip_suffix_spec). by rewrite append_assoc.
  - intros ->. eexists. split; [by apply strip_prefix_spec|]. apply strip_suffix_spec. by rewrite append_assoc.
Qed.
Lemma provider_ids id kv : id ∈ sync_provider_ids kv <-> is_Some (kv !! floor_key id).
Proof.
  unfold sync_provider_ids. rewrite list_elem_of_omap. split.
  - intros ([k v] & Hin & Hk). cbn [fst] in Hk. apply provider_of_spec in Hk as ->. apply elem_of_map_to_list in Hin. eauto.
  - intros [v Hv]. exists (floor_key id, v). split; [by apply elem_of_map_to_list|by apply provider_of_spec].
Qed.
Lemma NoDup_omap {A B} (f : A -> option B) (l : list A) :
  (forall x y z, x ∈ l -> y ∈ l -> f x = Some z -> f y = Some z -> x = y) -> NoDup l -> NoDup (omap f l).
Proof.
  intros H. induction 1 as [|x l Hx Hl IH]; [constructor|]. cbn.
  assert (IH' : NoDup (omap f l)) by (apply IH; intros; eapply H; eauto; by right).
  destruct (f x) as [z|] eqn:E; [|done]. constructor; [|done]. intros (y & Hy & Hz)%list_elem_of_omap.
  assert (x = y) as -> by (apply (H x y z); auto; [by left|by right]). done.
Qed.
Lemma provider_ids_nodup kv : NoDup (sync_provider_ids kv).
Proof.
  apply NoDup_omap; [|apply NoDup_map_to_list].
  intros [k v] [k' v'] id Hx%elem_of_map_to_list Hy%elem_of_map_to_list. cbn [fst].
  intros ->%provider_of_spec ->%provider_of_spec. by simplify_eq.
Qed.

(** ** Notes *)

(** Nothing of a provider has changed. *)
Record same_for (id : string) (w w' : Services) : Prop := {
  sf_floor : state_of w' !! floor_key id = state_of w !! floor_key id;
  sf_item : state_of w' !! item_key id = state_of w !! item_key id;
  sf_record : state_of w' !! record_key id = state_of w !! record_key id;
  sf_progress : progress w' !! id = progress w !! id;
  sf_source : sync_source w' = sync_source w;
}.
Lemma same_for_refl id w : same_for id w w.
Proof. done. Qed.
Lemma same_for_trans id w1 w2 w3 : same_for id w1 w2 -> same_for id w2 w3 -> same_for id w1 w3.
Proof. intros [] []. split; congruence. Qed.
Lemma keys_differ id id' k k' s s' : key id k = Ok s -> key id' k' = Ok s' -> id' <> id -> s <> s'.
Proof. intros H1 H2 Hne ->. by destruct (key_inj _ _ _ _ _ H1 H2). Qed.
Lemma other_keys id id' : id' <> id ->
  (floor_key id <> floor_key id' /\ floor_key id <> item_key id') /\ (item_key id <> floor_key id' /\ item_key id <> item_key id') /\
  record_key id <> floor_key id' /\ record_key id <> item_key id'.
Proof. intros Hne. split_and!; eapply keys_differ; try exact Hne; (apply key_floor || apply key_item || apply key_record). Qed.

Definition lowered (stamp : Z) (f : UploadFloor) : UploadFloor :=
  if Z.max stamp 0 <=? fl_at f then {| fl_at := Z.max stamp 0; fl_item := None |} else f.
Record noted (id : string) (stamp : Z) (w w' : Services) : Prop := {
  nd_floor : the_floor id (state_of w') = lowered stamp (the_floor id (state_of w));
  nd_registered : is_Some (state_of w !! floor_key id) -> is_Some (state_of w' !! floor_key id);
  nd_record : state_of w' !! record_key id = state_of w !! record_key id;
  nd_progress : progress w' !! id = Some (bump (progress_of id w));
  nd_source : sync_source w' = sync_source w;
}.
Lemma note_version_spec id stamp w : exists w', note_version id stamp w = Ok w' /\
  noted id stamp w w' /\ forall id', id' <> id -> same_for id' w w'.
Proof.
  unfold note_version. rewrite floor_is. cbn [mbind result_bind state_of set_progress].
  destruct (Z.leb_spec (Z.max stamp 0) (fl_at (the_floor id (state_of w)))) as [Hle|Hgt].
  - pose proof (the_floor_range id (state_of w)) as Hr.
    assert (Hr' : 0 <= fl_at {| fl_at := Z.max stamp 0; fl_item := None |} <= i64_max) by (cbn [fl_at]; lia).
    destruct (set_floor id {| fl_at := Z.max stamp 0; fl_item := None |} (state_of w)) as [kv|] eqn:E; [|done].
    destruct (set_floor_spec _ _ _ _ Hr' E) as (H1 & H2 & H3). destruct (keys_apart id) as (K1 & K2 & K3).
    eexists. split; [done|]. split; [split|]; cbn [with_state set_progress state_of progress sync_source];
      [|done|by apply H3|by rewrite lookup_insert_eq|done|].
    + unfold lowered. by rewrite (proj2 (Z.leb_le _ _) Hle), H1.
    + intros id' Hne. destruct (other_keys id' id) as ((? & ?) & (? & ?) & ? & ?); [done|].
      split; cbn; [by apply H3..| |done]. by rewrite lookup_insert_ne.
  - eexists. split; [done|]. split; [split|]; cbn [set_progress state_of progress sync_source]; [|done|done|by rewrite lookup_insert_eq|done|].
    + unfold lowered. by rewrite (proj2 (Z.leb_gt _ _) Hgt).
    + intros id' Hne. split; cbn; try done. by rewrite lookup_insert_ne.
Qed.
Lemma noted_same id stamp w0 w w' w1 : same_for id w0 w -> noted id stamp w w' -> same_for id w' w1 -> noted id stamp w0 w1.
Proof.
  intros [S1 S2 S3 S4 S5] [N1 N2 N3 N4 N5] [T1 T2 T3 T4 T5]. split; [|rewrite T1, <- S1; done|congruence| |congruence].
  - by rewrite (the_floor_eq id (state_of w1) (state_of w')), N1, (the_floor_eq id (state_of w) (state_of w0)).
  - rewrite T4, N4. f_equal. unfold progress_of. by rewrite S4.
Qed.
(** A note reaches each listed provider once. *)
Lemma note_each_spec ids stamp : NoDup ids -> forall w, exists w', note_each ids stamp w = Ok w' /\
  forall id, if bool_decide (id ∈ ids) then noted id stamp w w' else same_for id w w'.
Proof.
  induction 1 as [|id ids Hid Hnd IH]; intros w.
  { exists w. split; [done|]. intros id. by rewrite bool_decide_eq_false_2 by apply not_elem_of_nil. }
  cbn [note_each]. destruct (note_version_spec id stamp w) as (w1 & E1 & N & Hso). rewrite E1. cbn [mbind result_bind].
  destruct (IH w1) as (w2 & E2 & H). exists w2. split; [done|].
  intros id'. destruct (decide (id' = id)) as [->|Hne].
  - rewrite bool_decide_eq_true_2 by (by left). specialize (H id). rewrite bool_decide_eq_false_2 in H by done.
    by apply (noted_same _ _ w w w1).
  - specialize (H id'). specialize (Hso id' Hne). case_bool_decide as Hin.
    + rewrite bool_decide_eq_true_2 by (by right). by apply (noted_same _ _ w w1 w2).
    + rewrite bool_decide_eq_false_2; [by apply (same_for_trans _ _ w1)|]. by intros [?|?]%elem_of_cons.
Qed.
Lemma note_versions_spec id stamp w w' : is_Some (state_of w !! floor_key id) ->
  note_versions stamp w = Ok w' -> noted id stamp w w'.
Proof.
  intros Hreg. destruct (note_each_spec (sync_provider_ids (state_of w)) stamp (provider_ids_nodup _) w) as (w2 & E & H).
  unfold note_versions. rewrite E. intros [= <-]. specialize (H id). by rewrite bool_decide_eq_true_2 in H by (by apply provider_ids).
Qed.

(** ** The record of unreadable versions, across a write and a read *)

Record persisted_ok (p : Persisted) : Prop := {
  po_total : in_u32 (ps_total p);
  po_sweep w : ps_sweep p = Some w ->
    in_u32 (sw_seen w) /\ in_u32 (sw_settled w) /\ in_i64 (fl_at (sw_from w)) /\ in_i64 (fl_at (sw_next w));
}.
(** [serde_json] on this record: what was written is read back, and nothing is
    written as no text. *)
Class UploadJsonLaws `{UploadJson} : Prop := {
  persisted_round p : persisted_ok p ->
    exists t, serde_persisted_string p = Some t /\ t <> ""%string /\ serde_persisted t = Some p;
}.
Section Backlog.
Context {PC : PayloadCodecs} {MJ : MetadataJson} {DG : Digest} {OC : OrgCodec} {K : ItemKey}
        {CC : CredentialCodecs} {OJ : OfferJson} {UJ : UploadJson} {UL : UploadJsonLaws}.

Definition reread (u : UnreadableUploads) : UnreadableUploads :=
  {| un_ids := un_ids u; un_total := un_total u; un_sweep := un_sweep u; reset_floor := false |}.
Lemma record_reread u k kv : tame u -> in_u32 (un_total u) ->
  decode_unreadable (lookup_state k (set_state k (encode_unreadable u) kv)) = reread u.
Proof.
  intros [_ Hw] Ht.
  destruct (persisted_round {| ps_ids := btree_ids (un_ids u); ps_total := un_total u; ps_sweep := un_sweep u |})
    as (t & E & Hne & D).
  { split; [done|]. cbn. intros w E. destruct (Hw w E). done. }
  unfold encode_unreadable. rewrite E. cbn [default]. unfold set_state, lookup_state. rewrite lookup_insert_eq. cbn.
  rewrite (proj2 (String.eqb_neq t "") Hne). unfold decode_unreadable. rewrite (proj2 (String.eqb_neq t "") Hne), D. cbn.
  unfold reread. f_equal. apply leibniz_equiv. intros x. unfold btree_ids.
  by rewrite elem_of_list_to_set, merge_sort_Permutation, elem_of_elements.
Qed.

(** ** The steps of a device, for one provider *)

(** [pending]: stamps of changes whose note is on its way.  [given]: what the
    rounds that committed were offered, and what the provider delivered itself.
    [last_items]: the page of the last scan.  [reopened]: the versions on that page
    that its scan took off the record of unreadable versions, from behind the
    floor, until the round commits; [lost]: those of earlier rounds that never
    did.  [fresh] bounds the notes since. *)
Record Sys := { sy : Services; pending : list Z; given : list LocalItem.t; last_items : list LocalItem.t;
                reopened : list LocalItem.t; lost : list LocalItem.t; fresh : Z }.
Definition covers (l : list Z) (r : StoredItem) : Prop := exists t, t ∈ l /\ t <= st_created_at r.
Definition store_of (w : Services) : Store := src_store (sync_source w).
Definition record_of (id : string) (w : Services) : UnreadableUploads :=
  decode_unreadable (lookup_state (record_key id) (state_of w)).
Definition item_floor (i : LocalItem.t) : UploadFloor :=
  {| fl_at := LocalItem.created_at i; fl_item := Some (LocalItem.item_id i) |}.
(** An item that the record owed ([owed], of an item). *)
Definition owes (u : UnreadableUploads) (i : LocalItem.t) : Prop :=
  LocalItem.item_id i ∈ un_ids u \/
  match un_sweep u with
  | Some w => floor_lt (sw_from w) (item_floor i) /\ (floor_lt (sw_next w) (item_floor i) \/ 0 < sw_seen w)
  | None => False
  end.
#[export] Instance owes_dec u i : Decision (owes u i).
Proof. unfold owes. destruct (un_sweep u); apply _. Defined.
Definition behind (u : UnreadableUploads) (f : UploadFloor) (l : list LocalItem.t) : list LocalItem.t :=
  filter (fun i => owes u i /\ ~ floor_lt f (item_floor i)) l.
Definition upload_keys : list string := [UPLOAD_FLOOR; UPLOAD_FLOOR_ITEM; UNREADABLE_UPLOADS].

Inductive step (id : string) : Sys -> Sys -> Prop :=
  (** the history changes, at the stamps that are announced, or by what the
      provider itself delivered *)
  | Wrote x src stamps got :
      history_ok (src_store src) ->
      (forall r, stored (src_store src) r ->
         (exists q, stored (store_of (sy x)) q /\ st_id q = st_id r /\ st_created_at q = st_created_at r) \/
         covers stamps r \/ offered got r) ->
      step id x {| sy := set_source src (sy x); pending := stamps ++ pending x; given := got ++ given x;
                   last_items := last_items x; reopened := reopened x; lost := lost x; fresh := fresh x |}
  (** a note arrives *)
  | Noted x l1 t l2 w :
      pending x = l1 ++ t :: l2 -> note_versions t (sy x) = Ok w -> fresh x + 1 < 2^64 ->
      step id x {| sy := w; pending := l1 ++ l2; given := given x; last_items := last_items x;
                   reopened := reopened x; lost := lost x; fresh := fresh x + 1 |}
  | Requeued x h i r w :
      request h id (Requeue i) (sy x) = Ok (r, w) -> fresh x + 1 < 2^64 ->
      step id x {| sy := w; pending := pending x; given := given x; last_items := last_items x;
                   reopened := reopened x; lost := lost x; fresh := fresh x + 1 |}
  (** a scan from the floor, or from where the floor was before a note *)
  | Scanned x h since after sc w :
      request h id (ScanUploads since after) (sy x) = Ok (ReplyScan sc, w) -> in_i64 since ->
      floor_le (the_floor id (state_of (sy x))) {| fl_at := since; fl_item := after |} = true ->
      step id x {| sy := w; pending := pending x; given := given x; last_items := sc_items sc;
                   reopened := behind (record_of id (sy x)) (of_started (sc_offer sc)) (sc_items sc);
                   lost := reopened x ++ lost x; fresh := 0 |}
  | Committed x h t r w :
      request h id (CommitUpload t) (sy x) = Ok (r, w) -> in_i64 t ->
      step id x {| sy := w; pending := pending x; given := last_items x ++ given x; last_items := last_items x;
                   reopened := []; lost := lost x; fresh := fresh x |}
  (** the module keeps or forgets other state *)
  | Kept x h values r w :
      request h id (WriteState values) (sy x) = Ok (r, w) -> (forall k, k ∈ upload_keys -> values !! k = None) ->
      step id x {| sy := w; pending := pending x; given := given x; last_items := last_items x;
                   reopened := reopened x; lost := lost x; fresh := fresh x |}
  | Forgot x h ks r w :
      request h id (ClearState ks) (sy x) = Ok (r, w) -> (forall k, k ∈ upload_keys -> k ∉ ks) ->
      step id x {| sy := w; pending := pending x; given := given x; last_items := last_items x;
                   reopened := reopened x; lost := lost x; fresh := fresh x |}
  (** the record can no longer be read *)
  | Spoiled x raw :
      raw <> ""%string -> serde_persisted raw = None ->
      step id x {| sy := with_state (set_state (record_key id) raw (state_of (sy x))) (sy x); pending := pending x;
                   given := given x; last_items := last_items x;
                   reopened := reopened x; lost := lost x; fresh := fresh x |}.

(** ** The invariant *)

Definition waits (id : string) (x : Sys) (r : StoredItem) : Prop :=
  owed (record_of id (sy x)) r \/ reset_floor (record_of id (sy x)) = true \/ covers (pending x) r \/ offered (given x) r \/
  offered (reopened x ++ lost x) r.
Definition in_u64 (z : Z) : Prop := 0 <= z < 2^64.
(** What the last offer will account for, if no note came since. *)
Definition offer_ok (id : string) (x : Sys) (o : Offer) : Prop :=
  forall r, stored (store_of (sy x)) r -> 0 <= st_created_at r -> floor_lt (of_started o) (keyset_of r) ->
    offered (last_items x) r \/ (of_truncated o = true /\ floor_lt (of_last o) (keyset_of r)) \/ waits id x r.
Record inv (id : string) (x : Sys) : Prop := {
  iv_history : history_ok (store_of (sy x));
  iv_registered : is_Some (state_of (sy x) !! floor_key id);
  iv_record : tame (record_of id (sy x));
  iv_epoch : in_u64 (epoch (progress_of id (sy x)));
  iv_fresh : in_u64 (fresh x);
  iv_kept r : stored (store_of (sy x)) r -> 0 <= st_created_at r ->
    floor_lt (the_floor id (state_of (sy x))) (keyset_of r) \/ waits id x r;
  iv_offer o : offer (progress_of id (sy x)) = Some o ->
    in_i64 (fl_at (of_last o)) /\ in_u64 (of_epoch o) /\
    exists n, 0 <= n <= fresh x /\ epoch (progress_of id (sy x)) = (of_epoch o + n) mod 2^64 /\
      (n = 0 -> offer_ok id x o);
  iv_reopened : reopened x ⊆ last_items x;
}.

Lemma owed_key u q r : st_id q = st_id r -> st_created_at q = st_created_at r -> owed u q -> owed u r.
Proof. intros H1 H2. unfold owed, swept, keyset_of. by rewrite H1, H2. Qed.
Lemma waits_key id x q r : st_id q = st_id r -> st_created_at q = st_created_at r -> waits id x q -> waits id x r.
Proof.
  intros H1 H2 [H|[H|[H|[H|H]]]]; [left; by apply (owed_key _ q)|by right; left| | |];
    [right; right; left|right; right; right; left|right; right; right; right];
    revert H; unfold covers, offered; by rewrite ?H1, H2.
Qed.
Lemma keyset_eq q r : st_id q = st_id r -> st_created_at q = st_created_at r -> keyset_of q = keyset_of r.
Proof. intros H1 H2. unfold keyset_of. by rewrite H1, H2. Qed.
Lemma covers_mono l k r : l ⊆ k -> covers l r -> covers k r.
Proof. intros H (t & Ht & ?). exists t. split; [by apply H|done]. Qed.
Lemma offered_mono l k r : l ⊆ k -> offered l r -> offered k r.
Proof. intros H (i & Hi & ?). exists i. split; [by apply H|done]. Qed.
Lemma waits_mono id x y r : record_of id (sy y) = record_of id (sy x) -> pending x ⊆ pending y -> given x ⊆ given y ->
  reopened x ++ lost x ⊆ given y ++ reopened y ++ lost y -> waits id x r -> waits id y r.
Proof.
  intros Hr Hp Hg Hl. unfold waits. rewrite Hr. intros [H|[H|[H|[H|H]]]]; auto.
  - right; right; left. by apply (covers_mono (pending x)).
  - right; right; right; left. by apply (offered_mono (given x)).
  - apply (offered_mono _ _ _ Hl) in H as (i & [Hi|Hi]%elem_of_app & He).
    + right; right; right; left. by exists i.
    + right; right; right; right. by exists i.
Qed.
Lemma waits_same id x y r : record_of id (sy y) = record_of id (sy x) -> pending x ⊆ pending y -> given x ⊆ given y ->
  reopened y = reopened x -> lost y = lost x -> waits id x r -> waits id y r.
Proof. intros Hr Hp Hg H1 H2. apply waits_mono; [done..|]. rewrite H1, H2. apply list_subseteq_app_r. done. Qed.

Lemma wrote_inv id x src stamps got :
  inv id x -> history_ok (src_store src) ->
  (forall r, stored (src_store src) r ->
     (exists q, stored (store_of (sy x)) q /\ st_id q = st_id r /\ st_created_at q = st_created_at r) \/
     covers stamps r \/ offered got r) ->
  inv id {| sy := set_source src (sy x); pending := stamps ++ pending x; given := got ++ given x;
            last_items := last_items x; reopened := reopened x; lost := lost x; fresh := fresh x |}.
Proof.
  intros [I1 I2 I3 I4 I5 I6 I7 I8] Hh Hnew. set (y := {| sy := _ |}).
  assert (Hm : forall r, waits id x r -> waits id y r).
  { intros r. apply waits_same; [done|apply list_subseteq_app_r|apply list_subseteq_app_r|..]; done. }
  assert (Hr : forall r, stored (src_store src) r ->
            (exists q, stored (store_of (sy x)) q /\ st_id q = st_id r /\ st_created_at q = st_created_at r) \/ waits id y r).
  { intros r [?|[Hc|Ho]]%Hnew; [by left| |]; right; right; right; [left|right; left].
    - revert Hc. apply covers_mono, list_subseteq_app_l. done.
    - revert Ho. apply offered_mono, list_subseteq_app_l. done. }
  split; try done.
  - intros r Hs H0. destruct (Hr r Hs) as [(q & Hq & Hid & Hat)|?]; [|by right]. rewrite <- Hat in H0.
    destruct (I6 q Hq H0) as [Hf|Hw]; [left; by rewrite <- (keyset_eq q r)|right; by apply (waits_key _ _ q), Hm].
  - intros o Ho. destruct (I7 o Ho) as (O1 & O2 & n & On & Oe & Oall). split; [done|]. split; [done|].
    exists n. split; [done|]. split; [done|].
    intros Hn r Hs H0 Hlt. destruct (Hr r Hs) as [(q & Hq & Hid & Hat)|?]; [|auto]. rewrite <- Hat in H0.
    rewrite <- (keyset_eq q r Hid Hat) in Hlt |- *. destruct (Oall Hn q Hq H0 Hlt) as [Hi|[?|Hw]]; [left|auto|].
    + revert Hi. unfold offered. cbn. by rewrite Hid, Hat.
    + right; right. by apply (waits_key _ _ q), Hm.
Qed.

(** ** Notes *)

Lemma floor_lt_at f g : floor_lt f g -> fl_at f <= fl_at g.
Proof. unfold floor_lt, floor_cmp, pair_cmp. cbn. destruct (Z.compare_spec (fl_at f) (fl_at g)); [lia|lia|done]. Qed.
Lemma floor_none_lt t r : t <= st_created_at r -> floor_lt {| fl_at := t; fl_item := None |} (keyset_of r).
Proof.
  intros H. unfold floor_lt, floor_cmp, pair_cmp. cbn. destruct (Z.compare_spec t (st_created_at r)); [done|done|lia].
Qed.
Lemma lowered_lt t f r : floor_lt f (keyset_of r) -> floor_lt (lowered t f) (keyset_of r).
Proof.
  intros H. unfold lowered. destruct (Z.leb_spec (Z.max t 0) (fl_at f)) as [Hle|]; [|done].
  apply floor_none_lt. apply floor_lt_at in H. cbn in H. lia.
Qed.
Lemma lowered_covers t f r : t <= st_created_at r -> 0 <= st_created_at r -> floor_lt (lowered t f) (keyset_of r).
Proof.
  intros H H0. unfold lowered. destruct (Z.leb_spec (Z.max t 0) (fl_at f)) as [Hle|Hgt]; [apply floor_none_lt; lia|].
  unfold floor_lt, floor_cmp, pair_cmp. cbn. destruct (Z.compare_spec (fl_at f) (st_created_at r)); [lia|done|lia].
Qed.
Lemma record_of_eq id w w' : state_of w' !! record_key id = state_of w !! record_key id -> record_of id w' = record_of id w.
Proof. intros H. unfold record_of. by rewrite (lookup_state_eq _ _ _ H). Qed.

Lemma noted_inv id t x y :
  inv id x -> noted id t (sy x) (sy y) -> fresh x + 1 < 2^64 ->
  (forall r, covers (pending x) r -> covers (pending y) r \/ t <= st_created_at r) ->
  given y = given x -> last_items y = last_items x -> reopened y = reopened x -> lost y = lost x ->
  fresh y = fresh x + 1 -> inv id y.
Proof.
  intros [I1 I2 I3 I4 I5 I6 I7 I8] [N1 N2 N3 N4 N5] Hfr Hp Hg Hl Hro Hlo Hfy.
  pose proof (record_of_eq _ _ _ N3) as Hrec.
  assert (Hprog : progress_of id (sy y) = bump (progress_of id (sy x))) by (unfold progress_of at 1; by rewrite N4).
  assert (Hst : store_of (sy y) = store_of (sy x)) by (unfold store_of; by rewrite N5).
  unfold in_u64 in *. split.
  - by rewrite Hst.
  - by apply N2.
  - by rewrite Hrec.
  - rewrite Hprog. apply Z.mod_pos_bound. done.
  - rewrite Hfy. unfold in_u64. lia.
  - intros r Hs H0. rewrite Hst in Hs. rewrite N1. destruct (I6 r Hs H0) as [Hf|[Hw|[Hw|[Hw|[Hw|Hw]]]]].
    + left. by apply lowered_lt.
    + right; left. by rewrite Hrec.
    + right; right; left. by rewrite Hrec.
    + destruct (Hp r Hw) as [?|?]; [by right; right; right; left|left]. by apply lowered_covers.
    + right; right; right; right; left. by rewrite Hg.
    + right; right; right; right; right. by rewrite Hro, Hlo.
  - intros o. rewrite Hprog. cbn. intros Ho. destruct (I7 o Ho) as (O1 & O2 & n & On & Oe & _).
    split; [done|]. split; [done|]. exists (n + 1). split; [lia|]. split; [|lia].
    rewrite Oe. unfold u64_wrapping_succ. rewrite Zplus_mod_idemp_l. f_equal. lia.
  - by rewrite Hro, Hl.
Qed.

(** ** Scans *)

Record scan_answer (h : Host) (id : string) (since : Z) (after : option string) (w w' : Services) (sc : ScanResult) : Prop := {
  sa_scan : sc = scan_bounded (ho_device h) (store_of w) since after (epoch (progress_of id w')) (record_of id w) SCAN_BYTES;
  sa_record : state_of w' !! record_key id = Some (encode_unreadable (sc_unreadable sc));
  sa_floor : the_floor id (state_of w') = if reset_floor (record_of id w) then floor_zero else the_floor id (state_of w);
  sa_registered : is_Some (state_of w !! floor_key id) -> is_Some (state_of w' !! floor_key id);
  sa_progress : offer (progress_of id w') = Some (sc_offer sc) /\
    (in_u64 (epoch (progress_of id w)) -> in_u64 (epoch (progress_of id w')));
  sa_source : sync_source w' = sync_source w;
}.
Lemma scan_request h id since after w sc w' :
  request h id (ScanUploads since after) w = Ok (ReplyScan sc, w') -> scan_answer h id since after w w' sc.
Proof.
  cbn [request]. unfold scan_uploads. destruct (require_enabled h); [|done]. cbn [mbind result_bind].
  rewrite key_record. cbn [mbind result_bind]. change (decode_unreadable _) with (record_of id w).
  destruct (keys_apart id) as (K1 & K2 & K3).
  assert (Hset : forall kv v, the_floor id (set_state (record_key id) v kv) = the_floor id kv /\
            set_state (record_key id) v kv !! floor_key id = kv !! floor_key id).
  { intros kv v. unfold set_state. split; [apply the_floor_eq|]; by rewrite lookup_insert_ne. }
  destruct (reset_floor (record_of id w)) eqn:Er.
  - destruct (set_floor id floor_zero (state_of w)) as [kv|] eqn:E; [|done]. cbn [mbind result_bind]. intros [= <- <-].
    destruct (set_floor_spec id floor_zero _ _ ltac:(done) E) as (F1 & F2 & F3).
    assert (Hp : forall p w0, progress_of id (set_progress id p w0) = p).
    { intros p w0. unfold progress_of, set_progress. cbn [progress]. by rewrite lookup_insert_eq. }
    split; rewrite ?Hp; cbn [with_state set_progress state_of progress sync_source epoch offer].
    + done.
    + unfold set_state. by rewrite lookup_insert_eq.
    + rewrite Er. by rewrite (proj1 (Hset _ _)), F1.
    + by rewrite (proj2 (Hset _ _)).
    + split; [done|]. intros _. apply Z.mod_pos_bound. done.
    + done.
  - cbn [mbind result_bind]. intros [= <- <-].
    assert (Hp : forall p w0, progress_of id (set_progress id p w0) = p).
    { intros p w0. unfold progress_of, set_progress. cbn [progress]. by rewrite lookup_insert_eq. }
    split; rewrite ?Hp; cbn [with_state set_progress state_of progress sync_source epoch offer].
    + done.
    + unfold set_state. by rewrite lookup_insert_eq.
    + rewrite Er. by rewrite (proj1 (Hset _ _)).
    + by rewrite (proj2 (Hset _ _)).
    + done.
    + done.
Qed.

Lemma behind_page u f l : behind u f l ⊆ l.
Proof. intros i. unfold behind. rewrite list_elem_of_filter. tauto. Qed.
Lemma offered_behind u f l r : offered l r -> owed u r -> ~ floor_lt f (keyset_of r) -> offered (behind u f l) r.
Proof.
  intros (i & Hi & H1 & H2) Ho Hf. exists i. split; [|done].
  assert (Hk : item_floor i = keyset_of r) by (unfold item_floor, keyset_of; by rewrite H1, H2).
  apply list_elem_of_filter. rewrite Hk. split; [split; [|done]|done].
  destruct Ho as [Hin|(w & Hw & Hs)]; [left; by rewrite H1|right]. rewrite Hw, Hk. exact Hs.
Qed.
Lemma offered_app_l l k r : offered l r -> offered (l ++ k) r.
Proof. apply offered_mono, list_subseteq_app_l. done. Qed.
Lemma floor_zero_lt r : 0 <= st_created_at r -> floor_lt floor_zero (keyset_of r).
Proof. apply floor_none_lt. Qed.

Lemma scanned_inv id x h since after sc w :
  inv id x -> request h id (ScanUploads since after) (sy x) = Ok (ReplyScan sc, w) -> in_i64 since ->
  floor_le (the_floor id (state_of (sy x))) {| fl_at := since; fl_item := after |} = true ->
  inv id {| sy := w; pending := pending x; given := given x; last_items := sc_items sc;
            reopened := behind (record_of id (sy x)) (of_started (sc_offer sc)) (sc_items sc);
            lost := reopened x ++ lost x; fresh := 0 |}.
Proof.
  intros [I1 I2 I3 I4 I5 I6 _ _] Hreq Hsi Hle. destruct (scan_request _ _ _ _ _ _ _ Hreq) as [A1 A2 A3 A4 [A5 A5'] A6].
  set (prev := record_of id (sy x)) in *. set (F := scan_floor since after prev).
  assert (HF : in_i64 (fl_at F)) by (unfold F, scan_floor; by destruct (reset_floor prev)).
  pose proof (scan_bounded_spec (ho_device h) (store_of (sy x)) since after (epoch (progress_of id w)) prev SCAN_BYTES I1 HF I3) as S.
  rewrite <- A1 in S. fold F in S. destruct S as [S1 S2 S3 [S4 S5] S6 S7].
  assert (Hst : store_of w = store_of (sy x)) by (unfold store_of; by rewrite A6).
  assert (Hrec : record_of id w = reread (sc_unreadable sc)).
  { unfold record_of. erewrite lookup_state_eq; [by apply (record_reread _ _ ∅)|]. rewrite A2. unfold set_state. by rewrite lookup_insert_eq. }
  set (y := {| sy := w |}).
  assert (Howed : forall r, owed (sc_unreadable sc) r -> waits id y r).
  { intros r Ho. left. change (owed (record_of id w) r). by rewrite Hrec. }
  split; unfold y; cbn [sy fresh pending given last_items].
  - by rewrite Hst.
  - by apply A4.
  - rewrite Hrec. destruct S1. done.
  - by apply A5'.
  - done.
  - intros r Hs H0. rewrite Hst in Hs. rewrite A3. destruct (reset_floor prev) eqn:Er; [left; by apply floor_zero_lt|].
    destruct (I6 r Hs H0) as [?|[Ho|[?|[?|[Hg|Hg]]]]]; [by left| |unfold prev in Er; congruence|by right; right; right; left|by right; right; right; right; left|].
    + destruct (decide (floor_lt F (keyset_of r))) as [Hlt|Hnl].
      * left. unfold F, scan_floor in Hlt. rewrite Er in Hlt. revert Hlt. apply floor_le_lt. by apply floor_le_true.
      * right. destruct (S6 r Hs eq_refl Ho Hnl) as [Hoff|?]; [|auto]. right; right; right; right. cbn.
        apply offered_app_l, offered_behind; [done|exact Ho|by rewrite S4].
    + right; right; right; right; right. cbn. revert Hg. apply offered_mono, list_subseteq_app_r. done.
  - intros o. rewrite A5. intros [= <-]. split; [done|]. split; [rewrite S5; by apply A5'|].
    exists 0. split; [done|]. split.
    { rewrite S5, Z.add_0_r. symmetry. apply Z.mod_small. by apply A5'. }
    intros _ r Hs H0 Hlt. cbn [sy] in Hs. rewrite Hst in Hs. rewrite S4 in Hlt.
    destruct (S7 r Hs Hlt) as [?|[?|?]]; auto.
  - apply behind_page.
Qed.

(** ** Commits *)

Record commit_answer (id : string) (t : Z) (w w' : Services) : Prop := {
  ca_record : state_of w' !! record_key id = state_of w !! record_key id;
  ca_registered : is_Some (state_of w !! floor_key id) -> is_Some (state_of w' !! floor_key id);
  ca_progress : progress w' = progress w;
  ca_source : sync_source w' = sync_source w;
  ca_floor : the_floor id (state_of w') = the_floor id (state_of w) \/
    exists o, offer (progress_of id w) = Some o /\ of_epoch o = epoch (progress_of id w) /\
      ~ floor_lt (the_floor id (state_of w)) (of_started o) /\
      the_floor id (state_of w') = norm_floor (floor_max (the_floor id (state_of w)) (floor_after_round o t));
}.
Lemma floor_max_at f g : fl_at f <= fl_at (floor_max f g) <= Z.max (fl_at f) (fl_at g).
Proof.
  unfold floor_max, floor_cmp, pair_cmp. cbn. destruct (Z.compare_spec (fl_at f) (fl_at g)) as [E|E|E]; cbn [then_with].
  - destruct (option_cmp str_cmp (fl_item f) (fl_item g)); lia.
  - lia.
  - lia.
Qed.
Lemma commit_request h id t w r w' :
  request h id (CommitUpload t) w = Ok (r, w') -> in_i64 t ->
  (forall o, offer (progress_of id w) = Some o -> in_i64 (fl_at (of_last o))) -> commit_answer id t w w'.
Proof.
  cbn [request]. unfold commit_upload. destruct (require_enabled h); [|done]. cbn [mbind result_bind].
  unfold progress_of. destruct (progress w !! id) as [e|] eqn:Ee; [|done]. cbn [ok_or mbind result_bind default].
  destruct (offer e) as [o|] eqn:Eo; [|done]. cbn [ok_or mbind result_bind]. rewrite floor_is. cbn [mbind result_bind].
  intros Hc Ht Hlast. specialize (Hlast o Eo).
  destruct (Z.eqb_spec (of_epoch o) (epoch e)) as [Hep|]; [|injection Hc as _ <-; split; auto].
  destruct (floor_le (of_started o) (the_floor id (state_of w))) eqn:Ele; [|injection Hc as _ <-; split; auto].
  cbn [andb] in Hc. revert Hc. set (f := floor_max _ _).
  assert (Hf : 0 <= fl_at f <= i64_max).
  { pose proof (the_floor_range id (state_of w)). pose proof (floor_max_at (the_floor id (state_of w)) (floor_after_round o t)) as Hm.
    fold f in Hm. assert (fl_at (floor_after_round o t) <= i64_max); [|lia].
    unfold floor_after_round. destruct (_ && _); cbn; [apply Hlast|apply Ht]. }
  destruct (set_floor id f (state_of w)) as [kv|] eqn:E; [|done]. intros [= _ <-].
  destruct (set_floor_spec _ _ _ _ Hf E) as (H1 & H2 & H3). destruct (keys_apart id) as (K1 & K2 & K3).
  split; cbn [with_state state_of progress sync_source]; [by apply H3|done|done|done|].
  right. exists o. unfold progress_of. rewrite Ee. split_and!; try done. by apply floor_le_true.
Qed.
(** What the floor of a full round passes was on its page. *)
Lemma round_floor o t r : of_truncated o = true -> floor_lt (of_last o) (keyset_of r) ->
  floor_lt (floor_after_round o t) (keyset_of r).
Proof.
  intros Htr Hl. unfold floor_after_round. rewrite Htr. cbn [andb].
  destruct (Z.leb_spec (fl_at (of_last o)) t) as [|Hgt]; [done|]. apply floor_none_lt. apply floor_lt_at in Hl. cbn in Hl. lia.
Qed.
Lemma committed_inv id x h t r w :
  inv id x -> request h id (CommitUpload t) (sy x) = Ok (r, w) -> in_i64 t ->
  inv id {| sy := w; pending := pending x; given := last_items x ++ given x; last_items := last_items x;
            reopened := []; lost := lost x; fresh := fresh x |}.
Proof.
  intros [I1 I2 I3 I4 I5 I6 I7 I8] Hreq Ht.
  destruct (commit_request _ _ _ _ _ _ Hreq Ht (fun o Ho => proj1 (I7 o Ho))) as [C1 C2 C3 C4 C5].
  set (y := {| sy := w |}).
  assert (Hst : store_of w = store_of (sy x)) by (unfold store_of; by rewrite C4).
  assert (Hp : progress_of id w = progress_of id (sy x)) by (unfold progress_of; by rewrite C3).
  assert (Hm : forall q, waits id x q -> waits id y q).
  { intros q. apply waits_mono; [by apply record_of_eq|done|apply list_subseteq_app_r; done|]. unfold y. cbn.
    intros i [Hi|Hi]%elem_of_app; apply elem_of_app; [left; apply elem_of_app; left; by apply I8|by right]. }
  split; unfold y; cbn [sy fresh].
  - by rewrite Hst.
  - by apply C2.
  - by rewrite (record_of_eq _ _ _ C1).
  - by rewrite Hp.
  - done.
  - intros q Hs H0. rewrite Hst in Hs. destruct (I6 q Hs H0) as [Hf|?]; [|right; by apply Hm].
    destruct C5 as [->|(o & Ho & Hep & Hge & Hfl)]; [by left|].
    destruct (I7 o Ho) as (_ & O2 & n & On & Oe & Oall).
    assert (Hn : n = 0).
    { rewrite <- Hep in Oe. unfold in_u64 in *. rewrite <- (Z.mod_small (of_epoch o) (2^64)) in Oe at 1 by done.
      destruct (Z.lt_ge_cases (of_epoch o + n) (2^64)) as [Hlt|Hge'].
      - rewrite !Z.mod_small in Oe by lia. lia.
      - rewrite (Z.mod_small (of_epoch o)) in Oe by lia.
        rewrite <- (Z.mod_unique (of_epoch o + n) (2^64) 1 (of_epoch o + n - 2^64)) in Oe by lia. lia. }
    destruct (Oall Hn q Hs H0 (floor_le_lt _ _ _ Hge Hf)) as [Hi|[[Htr Hl]|?]]; [| |right; by apply Hm].
    + right; right; right; right; left. cbn. by apply offered_app_l.
    + left. rewrite Hfl. apply norm_floor_lt, floor_max_spec. split; [done|by apply round_floor].
  - intros o. rewrite Hp. intros Ho. destruct (I7 o Ho) as (O1 & O2 & n & On & Oe & Oall). split; [done|]. split; [done|].
    exists n. split; [done|]. split; [done|]. intros Hn q Hs H0 Hlt. cbn [sy] in Hs. rewrite Hst in Hs.
    destruct (Oall Hn q Hs H0 Hlt) as [?|[?|?]]; auto.
  - intros i Hi. by apply elem_of_nil in Hi.
Qed.

(** ** The module's own state *)

Lemma key_values_spec id l : forall out, key_values id l = Ok out ->
  forall e, e ∈ out -> exists k, k ∈ l.*1 /\ key id k = Ok e.1.
Proof.
  induction l as [|[k v] l IH]; intros out; cbn [key_values].
  { intros [= <-] e He. by apply elem_of_nil in He. }
  destruct (key id k) as [s|] eqn:Ek; [|done]. cbn [mbind result_bind].
  destruct (key_values id l) as [out'|] eqn:El; [|done]. intros [= <-] e [->|He]%elem_of_cons.
  - exists k. split; [by left|done].
  - destruct (IH out' eq_refl e He) as (k' & ? & ?). exists k'. split; [by right|done].
Qed.
Lemma keys_spec id l : forall out, keys id l = Ok out -> forall s, s ∈ out -> exists k, k ∈ l /\ key id k = Ok s.
Proof.
  induction l as [|k l IH]; intros out; cbn [keys].
  { intros [= <-] e He. by apply elem_of_nil in He. }
  destruct (key id k) as [s|] eqn:Ek; [|done]. cbn [mbind result_bind].
  destruct (keys id l) as [out'|] eqn:El; [|done]. intros [= <-] e [->|He]%elem_of_cons.
  - exists k. split; [by left|done].
  - destruct (IH out' eq_refl e He) as (k' & ? & ?). exists k'. split; [by right|done].
Qed.
Lemma write_request h id values w r w' : request h id (WriteState values) w = Ok (r, w') ->
  progress w' = progress w /\ sync_source w' = sync_source w /\
  forall k s, (forall id' k', key id' k' = Ok s -> id' = id -> values !! k' = None) -> k = s -> state_of w' !! k = state_of w !! k.
Proof.
  cbn [request]. unfold write_state. destruct (refuse_if _ _); [|done]. cbn [mbind result_bind].
  destruct (key_values id (map_to_list values)) as [l|] eqn:E; [|done]. intros [= _ <-]. cbn. split_and!; [done|done|].
  intros k s Hk ->. apply set_state_all_other. intros e He ->.
  destruct (key_values_spec _ _ _ E e He) as (k & Hin & Hkey). specialize (Hk id k Hkey eq_refl).
  apply list_elem_of_fmap in Hin as ([k' v] & -> & Hin%elem_of_map_to_list). cbn in Hk. congruence.
Qed.
Lemma clear_request h id ks w r w' : request h id (ClearState ks) w = Ok (r, w') ->
  progress w' = progress w /\ sync_source w' = sync_source w /\
  forall s, (forall id' k', key id' k' = Ok s -> id' = id -> k' ∉ ks) -> state_of w' !! s = state_of w !! s.
Proof.
  cbn [request]. unfold clear_keys. destruct (refuse_if _ _); [|done]. cbn [mbind result_bind].
  destruct (keys id ks) as [l|] eqn:E; [|done]. intros [= _ <-]. cbn. split_and!; [done|done|].
  intros s Hk. apply clear_state_other. intros Hin. destruct (keys_spec _ _ _ E s Hin) as (k & Hin' & Hkey).
  by apply (Hk id k Hkey eq_refl).
Qed.
Lemma same_inv id x w : inv id x -> same_for id (sy x) w ->
  inv id {| sy := w; pending := pending x; given := given x; last_items := last_items x;
            reopened := reopened x; lost := lost x; fresh := fresh x |}.
Proof.
  intros [I1 I2 I3 I4 I5 I6 I7 I8] [S1 S2 S3 S4 S5].
  assert (Hst : store_of w = store_of (sy x)) by (unfold store_of; by rewrite S5).
  assert (Hp : progress_of id w = progress_of id (sy x)) by (unfold progress_of; by rewrite S4).
  assert (Hf : the_floor id (state_of w) = the_floor id (state_of (sy x))) by (by apply the_floor_eq).
  assert (Hr : record_of id w = record_of id (sy x)) by (by apply record_of_eq).
  split; cbn [sy fresh]; rewrite ?Hst, ?Hp, ?Hr, ?Hf; [done|by rewrite S1|done..| | |done].
  - intros r Hs H0. destruct (I6 r Hs H0); [by left|right]. by apply (waits_same _ x).
  - intros o Ho. destruct (I7 o Ho) as (O1 & O2 & n & On & Oe & Oall). split; [done|]. split; [done|]. exists n.
    split; [done|]. split; [done|]. intros Hn r Hs H0 Hlt. cbn [sy] in Hs. rewrite Hst in Hs.
    destruct (Oall Hn r Hs H0 Hlt) as [?|[?|?]]; [by left|by right; left|right; right]. by apply (waits_same _ x).
Qed.
Lemma upload_key_of id k s : key id k = Ok s -> s = floor_key id \/ s = item_key id \/ s = record_key id -> k ∈ upload_keys.
Proof.
  intros Hk H. assert (forall k', key id k' = Ok s -> k = k').
  { intros k' Hk'. by destruct (key_inj _ _ _ _ _ Hk Hk'). }
  destruct H as [->|[->| ->]].
  - rewrite (H0 UPLOAD_FLOOR) by apply key_floor. by left.
  - rewrite (H0 UPLOAD_FLOOR_ITEM) by apply key_item. by right; left.
  - rewrite (H0 UNREADABLE_UPLOADS) by apply key_record. by right; right; left.
Qed.
Lemma spoiled_inv id x raw :
  inv id x -> raw <> ""%string -> serde_persisted raw = None ->
  inv id {| sy := with_state (set_state (record_key id) raw (state_of (sy x))) (sy x); pending := pending x;
            given := given x; last_items := last_items x; reopened := reopened x; lost := lost x; fresh := fresh x |}.
Proof.
  intros [I1 I2 I3 I4 I5 I6 I7 I8] Hne Hraw. set (w := with_state _ _). destruct (keys_apart id) as (K1 & K2 & K3).
  assert (Hr : record_of id w = {| un_ids := ∅; un_total := 0; un_sweep := None; reset_floor := true |}).
  { unfold record_of, w. cbn. unfold lookup_state, set_state. rewrite lookup_insert_eq. cbn.
    rewrite (proj2 (String.eqb_neq raw "") Hne). unfold decode_unreadable.
    by rewrite (proj2 (String.eqb_neq raw "") Hne), Hraw. }
  assert (Hall : forall r, waits id {| sy := w; pending := pending x; given := given x; last_items := last_items x;
    reopened := reopened x; lost := lost x; fresh := fresh x |} r).
  { intros r. right; left. cbn [sy]. by rewrite Hr. }
  split; cbn [sy fresh]; try done.
  - unfold w, set_state. cbn. by rewrite lookup_insert_ne.
  - rewrite Hr. split; [done|]. by intros w' [=].
  - intros r _ _. right. apply Hall.
  - intros o Ho. destruct (I7 o Ho) as (O1 & O2 & n & On & Oe & _). split; [done|]. split; [done|]. exists n.
    split; [done|]. split; [done|]. intros _ r _ _ _. auto.
Qed.

Lemma step_inv id x y : step id x y -> inv id x -> inv id y.
Proof.
  intros Hstep I. destruct Hstep as [x src stamps got Hh Hnew|x l1 t l2 w Hp Hn Hf|x h i r w Hreq Hf|x h since after sc w Hreq Hs Hle
    |x h t r w Hreq Ht|x h values r w Hreq Hk|x h ks r w Hreq Hk|x raw Hne Hraw].
  - by apply wrote_inv.
  - apply (noted_inv id t x); try done; [apply note_versions_spec; [apply I|done]|].
    intros r (u & Hu & Hle). rewrite Hp in Hu. apply elem_of_app in Hu as [Hu|[->|Hu]%elem_of_cons]; [left|by right|left];
      exists u; (split; [|done]); apply elem_of_app; auto.
  - revert Hreq. cbn [request]. unfold requeue. destruct (require_enabled h); [|done]. cbn [mbind result_bind].
    destruct (requeue_stamp _ _ _) as [t|].
    + destruct (note_version_spec id t (sy x)) as (w' & -> & N & _). cbn [mbind result_bind]. intros [= _ <-].
      apply (noted_inv id t x); try done. auto.
    + cbn [mbind result_bind]. intros [= _ <-]. destruct I as [I1 I2 I3 I4 I5 I6 I7 I8]. unfold in_u64 in *.
      split; try done; [cbn; unfold in_u64; lia|]. intros o Ho. destruct (I7 o Ho) as (O1 & O2 & n & On & O).
      split; [done|]. split; [done|]. exists n. split; [cbn; lia|done].
  - by apply (scanned_inv id x h since after).
  - by apply (committed_inv id x h t r).
  - destruct (write_request _ _ _ _ _ _ Hreq) as (H1 & H2 & H3). apply same_inv; [done|].
    assert (Hs : forall s, s = floor_key id \/ s = item_key id \/ s = record_key id -> state_of w !! s = state_of (sy x) !! s).
    { intros s Hin. apply (H3 s s); [|done]. intros id' k Hkey ->. apply Hk. by apply (upload_key_of id k s). }
    split; [apply Hs; auto..|by rewrite H1|done].
  - destruct (clear_request _ _ _ _ _ _ Hreq) as (H1 & H2 & H3). apply same_inv; [done|].
    assert (Hs : forall s, s = floor_key id \/ s = item_key id \/ s = record_key id -> state_of w !! s = state_of (sy x) !! s).
    { intros s Hin. apply H3. intros id' k Hkey ->. apply Hk. by apply (upload_key_of id k s). }
    split; [apply Hs; auto..|by rewrite H1|done].
  - by apply spoiled_inv.
Qed.

(** A device after sign-in: the floor at the beginning, no record. *)
Definition signed_in (id : string) (s : Source.Source) : Sys :=
  {| sy := {| state_of := {[floor_key id := "0"%string]}; progress := ∅; sync_source := s |};
     pending := []; given := []; last_items := []; reopened := []; lost := []; fresh := 0 |}.
Lemma signed_in_inv id s : history_ok (src_store s) -> inv id (signed_in id s).
Proof.
  intros Hh. destruct (keys_apart id) as (K1 & K2 & K3).
  assert (Hr : record_of id (sy (signed_in id s)) = no_unreadable).
  { unfold record_of, lookup_state. cbn. by rewrite lookup_singleton_ne. }
  split; try done.
  - cbn. rewrite lookup_singleton_eq. eauto.
  - rewrite Hr. split; [done|]. by intros w [=].
  - intros r Hs H0. left. assert (Hz : the_floor id (state_of (sy (signed_in id s))) = floor_zero); [|rewrite Hz; by apply floor_zero_lt].
    unfold the_floor, floor_zero, state_ms, lookup_state. cbn. by rewrite lookup_singleton_eq, lookup_singleton_ne.
Qed.

(** C11: only a round that fails can make the upload forget a version, and only
    one that was on the record of unreadable versions.  Whatever sequence of
    writes, notes, scans, commits, failed rounds and damaged records follows a
    sign-in, every version stored with a stamp from 0 on is still ahead of the
    upload floor, on that record (or the record is lost, which restarts the upload
    from the beginning), due to be noted, was offered to a round that committed,
    or came from the provider; except that a scan takes a version off the record
    once it opens again, and that version is owed by nothing else until the round
    it was offered to commits, and by nothing at all when that round fails (the
    code promises more of it). *)
Theorem only_failed_rounds_forget id src x r :
  history_ok (src_store src) -> rtc (step id) (signed_in id src) x ->
  stored (store_of (sy x)) r -> 0 <= st_created_at r ->
  floor_lt (the_floor id (state_of (sy x))) (keyset_of r) \/
  owed (record_of id (sy x)) r \/ reset_floor (record_of id (sy x)) = true \/
  covers (pending x) r \/ offered (given x) r \/
  offered (reopened x ++ lost x) r.
Proof.
  intros Hh Hsteps. apply iv_kept. assert (I : inv id (signed_in id src)) by (by apply signed_in_inv).
  revert I. induction Hsteps as [|x y z Hxy _ IH]; [done|]. intros I. apply IH. by apply (step_inv id x).
Qed.

(** ** A module's own state *)

(** A key that is not one of the module's. *)
Definition foreign (id s : string) : Prop := forall k, key id k <> Ok s.
Definition kept_apart (id : string) (w w' : Services) : Prop :=
  (forall s, foreign id s -> state_of w' !! s = state_of w !! s) /\
  (forall id', id' <> id -> progress w' !! id' = progress w !! id').
Lemma kept_apart_refl id w : kept_apart id w w.
Proof. done. Qed.
Lemma set_floor_apart id f kv kv' s : set_floor id f kv = Ok kv' -> foreign id s -> kv' !! s = kv !! s.
Proof.
  unfold set_floor. rewrite key_floor, key_item. cbn [mbind result_bind]. intros [= <-] Hs.
  rewrite !set_one_other; [done| |]; cbn; intros ->; [by apply (Hs UPLOAD_FLOOR)|by apply (Hs UPLOAD_FLOOR_ITEM)].
Qed.
Lemma set_progress_apart id p w : kept_apart id w (set_progress id p w).
Proof. split; [done|]. intros id' Hne. cbn. by rewrite lookup_insert_ne. Qed.
Lemma note_apart id t w w' : note_version id t w = Ok w' -> kept_apart id w w'.
Proof.
  unfold note_version. rewrite floor_is. cbn [mbind result_bind state_of set_progress].
  destruct (_ <=? _); [|intros [= <-]; apply set_progress_apart].
  destruct (set_floor id _ (state_of w)) as [kv|] eqn:E; [|done]. intros [= <-]. split.
  - intros s. by apply (set_floor_apart id _ _ _ _ E).
  - intros id' Hne. cbn. by rewrite lookup_insert_ne.
Qed.
Lemma scan_apart h id since after w r w' : scan_uploads h id since after w = Ok (r, w') -> kept_apart id w w'.
Proof.
  unfold scan_uploads. destruct (require_enabled h); [|done]. cbn [mbind result_bind].
  rewrite key_record. cbn [mbind result_bind]. destruct (reset_floor _).
  - destruct (set_floor id floor_zero (state_of w)) as [kv|] eqn:E; [|done]. cbn [mbind result_bind]. intros [= _ <-]. split.
    + intros s Hs. cbn. unfold set_state. rewrite lookup_insert_ne; [by apply (set_floor_apart id _ _ _ _ E)|].
      intros <-. by apply (Hs UNREADABLE_UPLOADS).
    + intros id' Hne. cbn. by rewrite !lookup_insert_ne.
  - cbn [mbind result_bind]. intros [= _ <-]. split.
    + intros s Hs. cbn. unfold set_state. rewrite lookup_insert_ne; [done|]. intros <-. by apply (Hs UNREADABLE_UPLOADS).
    + intros id' Hne. cbn. by rewrite !lookup_insert_ne.
Qed.
Lemma commit_apart h id t w r w' : commit_upload h id t w = Ok (r, w') -> kept_apart id w w'.
Proof.
  unfold commit_upload. destruct (require_enabled h); [|done]. cbn [mbind result_bind].
  destruct (progress w !! id) as [e|]; [|done]. cbn [ok_or mbind result_bind].
  destruct (offer e) as [o|]; [|done]. cbn [ok_or mbind result_bind]. rewrite floor_is. cbn [mbind result_bind].
  destruct (_ && _); [|by intros [= _ <-]].
  destruct (set_floor id _ (state_of w)) as [kv|] eqn:E; [|done]. intros [= _ <-]. split; [|done].
  intros s. by apply (set_floor_apart id _ _ _ _ E).
Qed.

Lemma pivot_first (c : ascii) l1 k1 l2 k2 : c ∉ l1 -> c ∉ l2 -> l1 ++ c :: k1 = l2 ++ c :: k2 -> l1 = l2 /\ k1 = k2.
Proof.
  revert l2. induction l1 as [|a l1 IH]; intros [|b l2] H1 H2 E; cbn in E.
  - by injection E as ->.
  - injection E as <- _. destruct H2. by left.
  - injection E as -> _. destruct H1. by left.
  - injection E as -> E. apply not_elem_of_cons in H1 as [_ H1], H2 as [_ H2]. by destruct (IH _ H1 H2 E) as [-> ->].
Qed.
Lemma valid_id_colon id : valid_id id = true -> colon ∉ as_bytes id.
Proof.
  unfold valid_id. destruct (as_bytes id) as [|a l] eqn:E; [done|]. rewrite <- E.
  intros [[[_ H]%andb_prop _]%andb_prop _]%andb_prop Hin. rewrite forallb_forall in H.
  apply list_elem_of_In, H in Hin. discriminate Hin.
Qed.

(** C31: No request of a module reaches beyond its own state: the keys of the
    other modules and of the application keep their values, and so do the other
    modules' upload offers.  Removing a module takes its own keys away and leaves
    those of every other module. *)
Theorem requests_stay_in_their_module id :
  (forall h r w a w', request h id r w = Ok (a, w') -> kept_apart id w w') /\
  (valid_id id = true -> forall w id' k s, valid_id id' = true -> key id' k = Ok s ->
     state_of (clear id w) !! s = if decide (id' = id) then None else state_of w !! s).
Proof.
  split.
  - intros h r w a w' Hreq. destruct r; cbn [request] in Hreq.
    + destruct (group_snapshot h); [|done]. by injection Hreq as _ <-.
    + destruct (group_apply h device_id snapshot); [|done]. by injection Hreq as _ <-.
    + by injection Hreq as _ <-.
    + by injection Hreq as _ <-.
    + by injection Hreq as _ <-.
    + by injection Hreq as _ <-.
    + destruct (read_state id ks w); [|done]. by injection Hreq as _ <-.
    + destruct (write_request h id _ w a w' Hreq) as (H1 & _ & H2). split; [|by rewrite H1].
      intros s Hs. apply (H2 s s); [|done]. intros id' k Hk ->. by destruct (Hs k).
    + destruct (clear_request h id _ w a w' Hreq) as (H1 & _ & H2). split; [|by rewrite H1].
      intros s Hs. apply H2. intros id' k Hk ->. by destruct (Hs k).
    + by apply scan_apart in Hreq.
    + revert Hreq. unfold apply_items. destruct (require_enabled h); [|done]. cbn [mbind result_bind].
      destruct (refuse_if _ _); [|done]. cbn [mbind result_bind].
      destruct (view_apply_page _ _ _ _ _ _ _ _ _) as [[[ap ef] src]|]; [|done]. by intros [= _ <-].
    + revert Hreq. unfold requeue. destruct (require_enabled h); [|done]. cbn [mbind result_bind].
      destruct (requeue_stamp _ _ _) as [t|]; [|by intros [= _ <-]].
      destruct (note_version id t w) as [w1|] eqn:E; [|done]. intros [= _ <-]. by apply (note_apart id t).
    + by apply commit_apart in Hreq.
  - intros Hid w id' k s Hid' [-> _]%key_spec. cbn. unfold clear_module_state.
    assert (Hp : strip_prefix (module_prefix id) (String.append (module_prefix id') k) = None <-> id' <> id).
    { split.
      - intros H ->. pose proof (proj2 (strip_prefix_spec (module_prefix id) (String.append (module_prefix id) k) k) eq_refl). congruence.
      - intros Hne. destruct (strip_prefix _ _) as [t|] eqn:E; [|done]. destruct Hne. apply strip_prefix_spec in E.
        unfold module_prefix in E. rewrite !append_assoc in E. apply append_inv_head, (f_equal as_bytes) in E.
        rewrite !as_bytes_append in E. apply as_bytes_inj.
        by destruct (pivot_first colon _ _ _ _ (valid_id_colon _ Hid') (valid_id_colon _ Hid) E). }
    case_decide as Hd.
    + apply map_lookup_filter_None. right. intros v _ Hn. by apply Hp in Hn.
    + destruct (state_of w !! String.append (module_prefix id') k) as [v|] eqn:E.
      * apply map_lookup_filter_Some. split; [done|by apply Hp].
      * apply map_lookup_filter_None. by left.
Qed.
End Backlog.

(** ** A device, a failed round and a committed one *)

#[local] Existing Instances HistoryDemo.codecs HistoryDemo.json HistoryDemo.laws
  OrgDemo.codec BinaryDemo.key BinaryDemo.key_laws BinaryDemo.digest BinaryDemo.digest_laws no_codecs MergeDemo.offers.
Module ServicesDemo.
(** A text form of the record: its number, in binary. *)
Fixpoint bits (p : positive) : string :=
  match p with xH => "."%string | xO p => String "0" (bits p) | xI p => String "1" (bits p) end.
Fixpoint of_bits (t : string) : option positive :=
  match t with
  | String a t => if Ascii.eqb a "0" then xO <$> of_bits t
                  else if Ascii.eqb a "1" then xI <$> of_bits t else if String.eqb t "" then Some xH else None
  | EmptyString => None
  end.
Lemma of_bits_bits p : of_bits (bits p) = Some p.
Proof. induction p as [p IH|p IH|]; cbn; [by rewrite IH|by rewrite IH|done]. Qed.
Definition raw_floor := (Z * option string)%type.
Definition raw_sweep := (raw_floor * raw_floor * Z * Z)%type.
Definition raw_record := (list string * Z * option raw_sweep)%type.
Definition to_raw (p : Persisted) : raw_record :=
  (ps_ids p, ps_total p,
   (fun w => ((fl_at (sw_from w), fl_item (sw_from w)), (fl_at (sw_next w), fl_item (sw_next w)), sw_seen w, sw_settled w))
     <$> ps_sweep p).
Definition from_raw (p : raw_record) : Persisted :=
  let '(ids, total, sweep) := p in
  {| ps_ids := ids; ps_total := total;
     ps_sweep := (fun w : raw_sweep => let '(f, n, seen, settled) := w in
                    {| sw_from := {| fl_at := f.1; fl_item := f.2 |}; sw_next := {| fl_at := n.1; fl_item := n.2 |};
                       sw_seen := seen; sw_settled := settled |}) <$> sweep |}.
Lemma from_to_raw p : from_raw (to_raw p) = p.
Proof. by destruct p as [ids total [[[] [] ? ?]|]]. Qed.
#[export] Instance upload_json : UploadJson := {|
  serde_persisted := fun t => n ← of_bits t; from_raw <$> decode n;
  serde_persisted_string := fun p => Some (bits (encode (to_raw p))) |}.
#[export] Instance upload_laws : UploadJsonLaws.
Proof.
  split. intros p _. exists (bits (encode (to_raw p))). split; [done|]. split; [by destruct (encode (to_raw p))|].
  change ((n ← of_bits (bits (encode (to_raw p))); from_raw <$> decode n) = Some p).
  rewrite of_bits_bits. change (from_raw <$> decode (encode (to_raw p)) = Some p). rewrite decode_encode.
  change (Some (from_raw (to_raw p)) = Some p). by rewrite from_to_raw.
Qed.
(** A note of [a], stamped 1000. *)
Definition written := apply_remote_version MergeDemo.rng "here" (MergeDemo.version "a" "alpha" 1000) empty_store.
Definition history : Store := match written with Ok (_, s) => s | Err _ => empty_store end.
Definition source : Source.Source := fresh_source history.
Definition host : Host :=
  {| ho_enabled := true; ho_group := None; ho_device := "here"; ho_config := default_config;
     ho_hooks := {| on_applied := false; on_clip_received := false |}; ho_runtime := true; ho_rng := MergeDemo.rng;
     ho_clock := {| tick := 0; wall := 0 |}; ho_interference := fun _ s => s |}.
Definition module : string := "copypaste.supabase".
Definition ask (r : SyncHostRequest) (w : Services) : option (Reply * Services) :=
  match request host module r w with Ok p => Some p | Err _ => None end.
Definition scan_at (at_ : Z) (w : Services) : option (ScanResult * Services) :=
  match ask (ScanUploads at_ None) w with Some (ReplyScan sc, w) => Some (sc, w) | _ => None end.
Definition start : Services := sy (signed_in module source).
Definition no_offer : Offer := {| of_truncated := false; of_last := floor_zero; of_started := floor_zero; of_epoch := 0 |}.
Definition first : ScanResult * Services :=
  default ({| sc_items := []; sc_offer := no_offer; sc_unreadable := no_unreadable |}, start) (scan_at 0 start).
Definition committed : Services := default start (snd <$> ask (CommitUpload 5000) first.2).
Definition is_a (r : StoredItem) : Prop := st_id r = "a"%string /\ st_created_at r = 1000.
Lemma history_tables : tables_ok history.
Proof.
  assert (Hw : written = Ok (true, history)).
  { unfold history. destruct written as [[b s]|e] eqn:E; [|vm_compute in E; discriminate E].
    destruct b; [reflexivity|vm_compute in E; discriminate E]. }
  destruct (apply_remote_version_spec _ _ _ _ _ _ HistoryDemo.empty_ok SourceDemo.empty_split Hw) as (? & ? & _).
  by apply split_tables.
Qed.
Lemma history_fits : history_ok history.
Proof.
  split; [exact history_tables|]. intros r Hr. destruct (row_version_of _ _ history_tables Hr) as (v & Hv & _ & <-).
  assert (Hall : forallb (fun v => (i64_min <=? v_created_at v) && (v_created_at v <=? i64_max)) (all_versions history) = true)
    by (vm_compute; reflexivity).
  rewrite forallb_forall in Hall. apply list_elem_of_In, Hall, andb_prop in Hv as [?%Z.leb_le ?%Z.leb_le]. by split.
Qed.
(** A round over that history. *)
Definition after_scan : Sys :=
  {| sy := first.2; pending := []; given := []; last_items := sc_items first.1;
     reopened := behind (record_of module start) (of_started (sc_offer first.1)) (sc_items first.1); lost := []; fresh := 0 |}.
Definition after_round : Sys :=
  {| sy := committed; pending := []; given := sc_items first.1; last_items := sc_items first.1;
     reopened := []; lost := []; fresh := 0 |}.
Lemma round_runs : rtc (step module) (signed_in module source) after_round.
Proof.
  assert (H1 : request host module (ScanUploads 0 None) start = Ok (ReplyScan first.1, first.2)) by (vm_compute; reflexivity).
  assert (H2 : request host module (CommitUpload 5000) first.2 = Ok (ReplyNull, committed)) by (vm_compute; reflexivity).
  apply (rtc_l _ _ after_scan); [|apply rtc_once].
  - apply (Scanned module (signed_in module source) host 0 None _ _ H1); [split; discriminate|vm_compute; reflexivity].
  - apply (Committed module after_scan host 5000 ReplyNull committed H2). split; discriminate.
Qed.
(** The record lists [a], which opens again; the floor is past it. *)
Definition listed : UnreadableUploads := {| un_ids := {["a"%string]}; un_total := 1; un_sweep := None; reset_floor := false |}.
Definition recovering : Services :=
  with_state (set_state (record_key module) (encode_unreadable listed) (state_of committed)) committed.
Definition failed_round : ScanResult * Services := default first (scan_at 5000 recovering).
Definition next_round : ScanResult * Services := default first (scan_at 5000 failed_round.2).
End ServicesDemo.
#[local] Existing Instances ServicesDemo.upload_json ServicesDemo.upload_laws.

(** A version of the record that opens again is offered to one round.  The scan
    keeps the new record at once, so when that round fails the version is behind
    the floor, off the record, and the next round is offered nothing. *)
Example failed_round_loses_a_recovered_version :
  un_ids (record_of ServicesDemo.module ServicesDemo.recovering) = {["a"%string]} /\
  LocalItem.item_id <$> sc_items ServicesDemo.failed_round.1 = ["a"%string] /\
  the_floor ServicesDemo.module (state_of ServicesDemo.failed_round.2) = {| fl_at := 5000; fl_item := None |} /\
  un_ids (record_of ServicesDemo.module ServicesDemo.failed_round.2) = ∅ /\
  sc_items ServicesDemo.next_round.1 = [].
Proof. split_and!; vm_compute; reflexivity. Qed.

Lemma only_failed_rounds_forget_witness :
  exists r, stored ServicesDemo.history r /\ 0 <= st_created_at r /\
    (floor_lt {| fl_at := 5000; fl_item := None |} (keyset_of r) \/ waits ServicesDemo.module ServicesDemo.after_round r).
Proof.
  assert (Hv : st_created_at <$> version "a" ServicesDemo.history = Some 1000) by (vm_compute; reflexivity).
  destruct (version "a" ServicesDemo.history) as [r|] eqn:E; [|discriminate]. injection Hv as Hv.
  assert (Hr : stored ServicesDemo.history r) by (unfold stored; by rewrite (version_id _ _ _ ServicesDemo.history_tables E)).
  exists r. split; [exact Hr|]. split; [rewrite Hv; lia|].
  apply (only_failed_rounds_forget ServicesDemo.module ServicesDemo.source ServicesDemo.after_round r);
    [exact ServicesDemo.history_fits|exact ServicesDemo.round_runs|exact Hr|rewrite Hv; lia].
Defined.
Lemma requests_stay_in_their_module_witness :
  state_of (clear ServicesDemo.module ServicesDemo.committed) !! floor_key ServicesDemo.module = None.
Proof.
  rewrite (proj2 (requests_stay_in_their_module ServicesDemo.module) eq_refl ServicesDemo.committed ServicesDemo.module UPLOAD_FLOOR
             (floor_key ServicesDemo.module) eq_refl (key_floor _)).
  by rewrite decide_True.
Defined.
