(* ===== verification/CloudClient.v ===== *)
(** The cloud client ([copypaste-cloud/src/rest/client.rs], [rest/group.rs],
    [rest/error.rs], [auth/session.rs], [auth/error.rs], [auth/http.rs],
    [sync/transport.rs], [sync/adapters.rs]): what is checked before a request,
    how often it is tried, and what its failure means to the driver. *)

From S2P Require Import Prelude Bytes Text Wire Binary Payload CloudRow.

(** ** Sessions *)

Definition REFRESH_MARGIN_MS : Z := 60000.
Record Session := { access_token : string; refresh_token : string; user_id : string; expires_at_ms : Z }.
Definition is_expired (now_ms : Z) (s : Session) : bool := expires_at_ms s <=? now_ms.
(** [i64::saturating_sub]. *)
Definition i64_saturating_sub (a b : Z) : Z := Z.max i64_min (Z.min i64_max (a - b)).
Definition needs_refresh (now_ms : Z) (s : Session) : bool :=
  i64_saturating_sub (expires_at_ms s) now_ms <=? REFRESH_MARGIN_MS.

Definition i64_saturating_add (a b : Z) : Z := Z.max i64_min (Z.min i64_max (a + b)).
Definition i64_saturating_mul (a b : Z) : Z := Z.max i64_min (Z.min i64_max (a * b)).

(** ** Faults *)

Inductive AuthError :=
  | AuthInvalidCredentials
  | AuthSessionExpired
  | AuthRateLimited (retry_after_secs : option Z)
  | AuthNetwork
  | AuthServer (status : Z)
  | AuthRejected (status : Z)
  | EmailConfirmationRequired
  | AuthMalformed.
(** A delay is in milliseconds. *)
Inductive TransportFault :=
  | Unauthorized
  | RateLimited (retry_after : option Z)
  | Transient (reason : string)
  | Permanent (reason : string).
Inductive AuthFault :=
  | InvalidCredentials
  | SessionExpired
  | AuthThrottled (retry_after : option Z)
  | Unavailable (reason : string).
Definition from_secs (s : Z) : Z := s * 1000.

(** The token response, as it is read. *)
Record TokenBody := {
  tb_access_token : option string; tb_refresh_token : option string; tb_expires_in : option Z;
  tb_expires_at : option Z; tb_user : option (option string); tb_id : option string;
}.
Definition nonempty (o : option string) : option string := t ← o; if String.eqb t "" then None else Some t.
Definition into_session (now_ms : Z) (b : TokenBody) : result AuthError Session :=
  match nonempty (tb_access_token b) with
  | None => Err (match tb_id b with Some _ => EmailConfirmationRequired | None => AuthMalformed end)
  | Some access =>
    refresh ← ok_or AuthMalformed (nonempty (tb_refresh_token b));
    user ← ok_or AuthMalformed (nonempty (match mjoin (tb_user b) with Some id => Some id | None => tb_id b end));
    expires ← match tb_expires_in b with
              | Some secs => Ok (i64_saturating_add now_ms (i64_saturating_mul (Z.max secs 0) 1000))
              | None => at_ ← ok_or AuthMalformed (tb_expires_at b); Ok (i64_saturating_mul (Z.max at_ 0) 1000)
              end;
    Ok {| access_token := access; refresh_token := refresh; user_id := user; expires_at_ms := expires |}
  end.

(** What a status means; the body is logged, not read. *)
Definition is_success (status : Z) : bool := (200 <=? status) && (status <=? 299).
Definition is_server_error (status : Z) : bool := (500 <=? status) && (status <=? 599).
Definition classify (status : Z) (retry_after : option Z) (body : option string) : result RestError string :=
  if is_success status then ok_or RestMalformed body
  else if status =? 401 then Err RestUnauthorized
  else if status =? 403 then Err RestForbidden
  else if status =? 429 then Err (RestRateLimited retry_after)
  else if status =? 409 then Err (RestRejected status)
  else if is_server_error status then Err (RestServer status)
  else Err (RestRejected status).
Inductive GrantKind := SignUp | Password | Refresh | Bearer.
Definition auth_classify (grant : GrantKind) (status : Z) (retry_after : option Z) (body : option string)
    : result AuthError string :=
  if is_success status
  then text ← ok_or AuthMalformed body; Ok (if String.eqb text "" then "{}"%string else text)
  else if status =? 429 then Err (AuthRateLimited retry_after)
  else if is_server_error status then Err (AuthServer status)
  else if (status =? 400) || (status =? 422) || (status =? 401)
       then match grant with
            | Password => Err AuthInvalidCredentials
            | Refresh => Err AuthSessionExpired
            | SignUp | Bearer => Err (AuthRejected status)
            end
       else Err (AuthRejected status).

Definition is_transient (e : RestError) : bool := match e with RestNetwork | RestServer _ => true | _ => false end.
Definition auth_is_transient (e : AuthError) : bool := match e with AuthNetwork | AuthServer _ => true | _ => false end.
Definition classify_rest (e : RestError) : TransportFault :=
  match e with
  | RestUnauthorized => Unauthorized
  | RestRateLimited s => RateLimited (from_secs <$> s)
  | RestNetwork => Transient "could not reach the sync backend"
  | RestServer _ => Transient "the sync backend faulted"
  | RestForbidden => Permanent "the account may not touch these rows"
  | RestRejected _ => Permanent "the sync backend rejected the request"
  | RestMalformed => Permanent "the sync backend returned an unexpected response"
  | InvalidItem reason => Permanent reason
  end.
Definition classify_auth (e : AuthError) : AuthFault :=
  match e with
  | AuthInvalidCredentials => InvalidCredentials
  | AuthSessionExpired | EmailConfirmationRequired => SessionExpired
  | AuthRejected _ | AuthMalformed => SessionExpired
  | AuthRateLimited s => AuthThrottled (from_secs <$> s)
  | AuthNetwork => Unavailable "could not reach the account service"
  | AuthServer _ => Unavailable "the account service faulted"
  end.

(** ** Group rows *)

Definition GROUP_PAGE_SIZE : nat := 8.
Definition GROUP_CATALOG_PAGE_SIZE : nat := 64.
Definition MAX_GROUP_BYTES : Z := 768 * 1024.
Definition MAX_GROUP_ROWS : nat := 4096.
Module GroupRow.
Record t := { device_id : string; ciphertext : string; nonce : string }.
End GroupRow.
Record GroupVersion := { gv_device_id : string; gv_digest : string }.
Definition id_char (b : byte) : bool := is_ascii_alphanumeric b || (byte_val b =? 45) || (byte_val b =? 95).
Definition validate_id (id : string) : result RestError unit :=
  refuse_if (String.eqb id "" || (str_len id >? 128) || negb (forallb id_char (as_bytes id))) RestMalformed.
Definition is_lower_hex (b : byte) : bool :=
  let c := byte_val b in ((48 <=? c) && (c <=? 57)) || ((97 <=? c) && (c <=? 102)).
Definition version_validate (v : GroupVersion) : result RestError unit :=
  _ ← validate_id (gv_device_id v);
  refuse_if (negb (str_len (gv_digest v) =? 64) || negb (forallb is_lower_hex (as_bytes (gv_digest v)))) RestMalformed.
Definition group_validate (r : GroupRow.t) : result RestError unit :=
  _ ← validate_id (GroupRow.device_id r);
  refuse_if (String.eqb (GroupRow.ciphertext r) ""
             || (str_len (GroupRow.ciphertext r) >? (MAX_GROUP_BYTES + 16 + 2) / 3 * 4)
             || negb (str_len (GroupRow.nonce r) =? 32)) RestMalformed.
Definition aad_id (r : GroupRow.t) : string := String.append "copypaste-group-" (GroupRow.device_id r).
Definition ciphertext_digest `{Digest} (r : GroupRow.t) : string :=
  hex_encode (sha256 (as_bytes (GroupRow.nonce r) ++ as_bytes (GroupRow.ciphertext r))).

(** ** Requests

    [Backend]: one attempt of each request, with the answer already read as
    rows; what a service of this kind does is in no file of the client. *)
Class Backend (W : Type) := {
  be_select : string -> Z -> option string -> Z -> W -> result RestError (list CloudItem.t) * W;
  be_insert : string -> list CloudItem.t -> W -> result RestError unit * W;
  be_catalog : string -> option string -> W -> result RestError (list GroupVersion) * W;
  be_groups : string -> list string -> W -> result RestError (list GroupRow.t) * W;
  be_insert_group : string -> GroupRow.t -> W -> result RestError unit * W;
  be_refresh : string -> W -> result AuthError Session * W;
  be_now : W -> Z;
}.
Definition MAX_PAGE_LIMIT : Z := 200.
Definition UPSERT_CHUNK : nat := 100.
Definition RETRY_MAX_RETRIES : nat := 3.

(** [slice::chunks], [n] at a time; the fuel is the length. *)
Fixpoint chunks_fuel {A} (fuel n : nat) (l : list A) : list (list A) :=
  match fuel, l with
  | S fuel, _ :: _ => take n l :: chunks_fuel fuel n (drop n l)
  | _, _ => []
  end.
Definition chunks {A} (n : nat) (l : list A) : list (list A) := chunks_fuel (length l) n l.

Section Client.
Context {PC : PayloadCodecs} {W : Type} {BE : Backend W}.
(** [send]: a transient fault is tried again, [retries] times at most. *)
Fixpoint send {E A} (transient : E -> bool) (retries : nat) (attempt : W -> result E A * W) (w : W) : result E A * W :=
  match attempt w, retries with
  | (Err e, w), S retries => if transient e then send transient retries attempt w else (Err e, w)
  | r, _ => r
  end.
Definition rest_send {A} (attempt : W -> result RestError A * W) : W -> result RestError A * W :=
  send is_transient RETRY_MAX_RETRIES attempt.
(** Nothing is sent when a precondition fails. *)
Definition checked {A} (r : result RestError unit) (k : W -> result RestError A * W) (w : W) : result RestError A * W :=
  match r with Ok _ => k w | Err e => (Err e, w) end.
Definition fetch_since (token : string) (since_ms : Z) (after_item_id : option string) (limit : Z)
    : W -> result RestError (list CloudItem.t) * W :=
  let limit := Z.max 1 (Z.min MAX_PAGE_LIMIT limit) in
  checked (match after_item_id with Some id => validate_item_id id | None => Ok tt end)
    (rest_send (be_select token (Z.max since_ms 0) after_item_id limit)).
Fixpoint validate_each (l : list CloudItem.t) : result RestError unit :=
  match l with [] => Ok tt | i :: l => _ ← row_validate i; validate_each l end.
Fixpoint insert_chunks (token : string) (l : list (list CloudItem.t)) (w : W) : result RestError unit * W :=
  match l with
  | [] => (Ok tt, w)
  | chunk :: l => match rest_send (be_insert token chunk) w with
                  | (Ok _, w) => insert_chunks token l w
                  | r => r
                  end
  end.
Definition upsert (token : string) (rows : list CloudItem.t) : W -> result RestError unit * W :=
  checked (validate_each rows) (insert_chunks token (chunks UPSERT_CHUNK rows)).
Definition fetch_group_catalog (token : string) (after_device : option string) (w : W)
    : result RestError (list GroupVersion) * W :=
  checked (match after_device with Some id => validate_id id | None => Ok tt end)
    (fun w => match rest_send (be_catalog token after_device) w with
              | (Ok rows, w) => (if (GROUP_CATALOG_PAGE_SIZE <? length rows)%nat then Err RestMalformed else Ok rows, w)
              | r => r
              end) w.
Fixpoint validate_ids (l : list string) : result RestError unit :=
  match l with [] => Ok tt | i :: l => _ ← validate_id i; validate_ids l end.
Definition not_asked (ids : list string) (rows : list GroupRow.t) : bool :=
  (GROUP_PAGE_SIZE <? length rows)%nat || existsb (fun r => negb (bool_decide (GroupRow.device_id r ∈ ids))) rows.
Definition fetch_groups (token : string) (ids : list string) (w : W) : result RestError (list GroupRow.t) * W :=
  checked (_ ← refuse_if (bool_decide (ids = []) || (GROUP_PAGE_SIZE <? length ids)%nat) RestMalformed; validate_ids ids)
    (fun w => match rest_send (be_groups token ids) w with
              | (Ok rows, w) => (if not_asked ids rows then Err RestMalformed else Ok rows, w)
              | r => r
              end) w.
Definition upsert_group (token : string) (r : GroupRow.t) : W -> result RestError unit * W :=
  checked (group_validate r) (rest_send (be_insert_group token r)).
Definition auth_refresh (token : string) : W -> result AuthError Session * W :=
  send auth_is_transient RETRY_MAX_RETRIES (be_refresh token).
End Client.
