(* ===== verification/CloudSync.v ===== *)
(** The driver of cloud synchronisation ([copypaste-cloud/src/sync]): session
    recovery ([retry.rs], [driver.rs]), the upload ([push.rs]), the download
    ([pull.rs]), the group exchange ([group.rs]) and the cadence
    ([copypaste-sync/src/cadence.rs], [outcome.rs]). *)

From S2P Require Import Prelude Float64 Bytes Text Wire Binary Merge Payload Settings Credentials Workspace Table Items ItemSafety Retention Organization Versions Scan LocalMerge Source CloudRow CloudClient Upload.

(** ** What a round reports *)

Record SyncStats := {
  uploaded : Z; tombstoned : Z; downloaded : Z; applied : Z; skipped_undecryptable : Z; skipped_forged : Z;
  skipped_future : Z; skipped_too_large : Z;
}.
Definition no_stats : SyncStats :=
  {| uploaded := 0; tombstoned := 0; downloaded := 0; applied := 0; skipped_undecryptable := 0; skipped_forged := 0;
     skipped_future := 0; skipped_too_large := 0 |}.
Definition stats_changed (s : SyncStats) : bool := (0 <? uploaded s) || (0 <? tombstoned s) || (0 <? applied s).
Definition stats_merge (s t : SyncStats) : SyncStats :=
  {| uploaded := uploaded s + uploaded t; tombstoned := tombstoned s + tombstoned t;
     downloaded := downloaded s + downloaded t; applied := applied s + applied t;
     skipped_undecryptable := skipped_undecryptable s + skipped_undecryptable t;
     skipped_forged := skipped_forged s + skipped_forged t; skipped_future := skipped_future s + skipped_future t;
     skipped_too_large := skipped_too_large s + skipped_too_large t |}.
Inductive CloudError :=
  | SourceFailed (reason : string)
  | EncryptFailed
  | SessionUnauthorized
  | BadCredentials
  | SessionEnded
  | TooManyRequests
  | TransportFailed (reason : string).

(** ** Cadence, in milliseconds *)

Definition MIN_POLL_INTERVAL : Z := 5000.
Definition MAX_POLL_INTERVAL : Z := 300000.
Definition MAX_POLL_INTERVAL_WITHOUT_PUSH : Z := 10000.
Record AdaptiveCadence := { ac_floor : Z; ac_ceiling : Z; ac_current : Z }.
Definition cadence_new (floor ceiling : Z) : AdaptiveCadence :=
  {| ac_floor := floor; ac_ceiling := ceiling; ac_current := floor |}.
Definition default_cadence : AdaptiveCadence := cadence_new MIN_POLL_INTERVAL MAX_POLL_INTERVAL.
Definition interval_with_ceiling (ceiling : Z) (c : AdaptiveCadence) : Z := Z.min (ac_current c) ceiling.
Definition note_activity_with_ceiling (changed : bool) (ceiling : Z) (c : AdaptiveCadence) : AdaptiveCadence :=
  {| ac_floor := ac_floor c; ac_ceiling := ac_ceiling c;
     ac_current := if changed then ac_floor c else Z.min (Z.min (ac_current c * 2) (ac_ceiling c)) ceiling |}.
Definition cadence_reset (c : AdaptiveCadence) : AdaptiveCadence :=
  {| ac_floor := ac_floor c; ac_ceiling := ac_ceiling c; ac_current := ac_floor c |}.

(** ** The local side *)

Class CloudSource (W : Type) := {
  so_group_snapshot : W -> result CloudError (option string) * W;
  so_apply_group : string -> string -> W -> result CloudError unit * W;
  so_group_sync_allowed : W -> bool * W;
  so_device_id : W -> string * W;
  so_local_changes_after : Z -> option string -> W -> result CloudError (list LocalItem.t) * W;
  so_apply_remote_batch : list LocalItem.t -> W -> result CloudError (list Applied) * W;
  so_watermark : W -> result CloudError Z * W;
  so_watermark_item_id : W -> result CloudError (option string) * W;
  so_upload_floor : W -> result CloudError Z * W;
  so_upload_floor_item_id : W -> result CloudError (option string) * W;
  so_requeue_local_winner : LocalItem.t -> W -> result CloudError bool * W;
  so_set_watermark_keyset : Z -> string -> W -> result CloudError unit * W;
}.

(** ** The driver *)

Record SessionState := { ss_session : Session; ss_revision : Z; ss_fenced : bool }.
Inductive SessionRevision := Current | Superseded | Fenced.
Record GroupUpload := { gu_digest : bytes; gu_ciphertext_digest : string }.
(** What the driver has done, for the reader of the model. *)
Inductive Call := Tried (token : string) | Refreshed (token : string) | Waited (delay : Z).
Record Driver (W : Type) := {
  dr_session : SessionState; dr_events : Z; dr_cadence : AdaptiveCadence; dr_push_channel : bool;
  dr_downloaded : gmap string string; dr_uploaded : option GroupUpload;
  dr_world : W; dr_awaits : nat; dr_calls : list Call;
}.
Arguments dr_session {W}. Arguments dr_events {W}. Arguments dr_cadence {W}. Arguments dr_push_channel {W}.
Arguments dr_downloaded {W}. Arguments dr_uploaded {W}. Arguments dr_world {W}. Arguments dr_awaits {W}.
Arguments dr_calls {W}.

(** A computation of the driver: what it changed stays when it fails. *)
Definition Cloud (W A : Type) : Type := Driver W -> result CloudError A * Driver W.
#[export] Instance cloud_ret W : MRet (Cloud W) := fun A a d => (Ok a, d).
#[export] Instance cloud_bind W : MBind (Cloud W) :=
  fun A B k m d => match m d with (Ok a, d) => k a d | (Err e, d) => (Err e, d) end.
Definition fail {W A} (e : CloudError) : Cloud W A := fun d => (Err e, d).
Definition lift {W A} (r : result CloudError A) : Cloud W A := fun d => (r, d).
Definition gets {W A} (f : Driver W -> A) : Cloud W A := fun d => (Ok (f d), d).
Definition with_world {W} (w : W) (d : Driver W) : Driver W :=
  {| dr_session := dr_session d; dr_events := dr_events d; dr_cadence := dr_cadence d;
     dr_push_channel := dr_push_channel d; dr_downloaded := dr_downloaded d; dr_uploaded := dr_uploaded d;
     dr_world := w; dr_awaits := dr_awaits d; dr_calls := dr_calls d |}.
Definition with_session {W} (s : SessionState) (d : Driver W) : Driver W :=
  {| dr_session := s; dr_events := dr_events d; dr_cadence := dr_cadence d;
     dr_push_channel := dr_push_channel d; dr_downloaded := dr_downloaded d; dr_uploaded := dr_uploaded d;
     dr_world := dr_world d; dr_awaits := dr_awaits d; dr_calls := dr_calls d |}.
Definition with_events {W} (n : Z) (d : Driver W) : Driver W :=
  {| dr_session := dr_session d; dr_events := n; dr_cadence := dr_cadence d;
     dr_push_channel := dr_push_channel d; dr_downloaded := dr_downloaded d; dr_uploaded := dr_uploaded d;
     dr_world := dr_world d; dr_awaits := dr_awaits d; dr_calls := dr_calls d |}.
Definition with_cadence {W} (c : AdaptiveCadence) (d : Driver W) : Driver W :=
  {| dr_session := dr_session d; dr_events := dr_events d; dr_cadence := c;
     dr_push_channel := dr_push_channel d; dr_downloaded := dr_downloaded d; dr_uploaded := dr_uploaded d;
     dr_world := dr_world d; dr_awaits := dr_awaits d; dr_calls := dr_calls d |}.
Definition with_groups {W} (l : gmap string string) (u : option GroupUpload) (d : Driver W) : Driver W :=
  {| dr_session := dr_session d; dr_events := dr_events d; dr_cadence := dr_cadence d;
     dr_push_channel := dr_push_channel d; dr_downloaded := l; dr_uploaded := u;
     dr_world := dr_world d; dr_awaits := dr_awaits d; dr_calls := dr_calls d |}.
Definition log {W} (c : Call) (d : Driver W) : Driver W :=
  {| dr_session := dr_session d; dr_events := dr_events d; dr_cadence := dr_cadence d;
     dr_push_channel := dr_push_channel d; dr_downloaded := dr_downloaded d; dr_uploaded := dr_uploaded d;
     dr_world := dr_world d; dr_awaits := dr_awaits d; dr_calls := dr_calls d ++ [c] |}.
Definition modify {W} (f : Driver W -> Driver W) : Cloud W unit := fun d => (Ok tt, f d).
Definition note_call {W} (c : Call) : Cloud W unit := fun d => (Ok tt, log c d).
Definition source_call {W A} (f : W -> result CloudError A * W) : Cloud W A :=
  fun d => let '(r, w) := f (dr_world d) in (r, with_world w d).
Definition source_value {W A} (f : W -> A * W) : Cloud W A :=
  fun d => let '(a, w) := f (dr_world d) in (Ok a, with_world w d).

Definition set_fenced (s : SessionState) : SessionState :=
  {| ss_session := ss_session s; ss_revision := ss_revision s; ss_fenced := true |}.
Definition fence_session {W} (expected : option Z) (d : Driver W) : bool * Driver W :=
  let s := dr_session d in
  if match expected with Some e => negb (ss_revision s =? e) | None => false end then (false, d)
  else let d' := with_session (set_fenced s) d in
       (true, if negb (ss_fenced s) then with_events (u64_wrapping_succ (dr_events d)) d' else d').
Definition refresh_snapshot {W} (d : Driver W) : option (Z * string) :=
  let s := dr_session d in
  if negb (ss_fenced s) then Some (ss_revision s, refresh_token (ss_session s)) else None.
Definition revision_state {W} (expected : Z) (d : Driver W) : SessionRevision :=
  let s := dr_session d in
  if ss_fenced s then Fenced else if ss_revision s =? expected then Current else Superseded.
Definition install_refreshed_session {W} (expected : Z) (session : Session) (d : Driver W) : SessionRevision * Driver W :=
  let s := dr_session d in
  if ss_fenced s then (Fenced, d)
  else if negb (ss_revision s =? expected) then (Superseded, d)
  else (Current, with_events (u64_wrapping_succ (dr_events d))
                   (with_session {| ss_session := session; ss_revision := u64_wrapping_succ (ss_revision s);
                                    ss_fenced := false |} d)).

(** [poll_interval] and [note_activity]. *)
Definition idle_ceiling {W} (d : Driver W) : Z :=
  if dr_push_channel d then MAX_POLL_INTERVAL else MAX_POLL_INTERVAL_WITHOUT_PUSH.
Definition poll_interval {W} (d : Driver W) : Z := interval_with_ceiling (idle_ceiling d) (dr_cadence d).
Definition wake {W} (d : Driver W) : Driver W := with_cadence (cadence_reset (dr_cadence d)) d.
Definition note_activity {W} (changed : bool) (d : Driver W) : Driver W :=
  with_cadence (note_activity_with_ceiling changed (idle_ceiling d) (dr_cadence d)) d.
Definition note_push_channel {W} (live : bool) (d : Driver W) : Driver W :=
  {| dr_session := dr_session d; dr_events := dr_events d; dr_cadence := dr_cadence d;
     dr_push_channel := live; dr_downloaded := dr_downloaded d; dr_uploaded := dr_uploaded d;
     dr_world := dr_world d; dr_awaits := dr_awaits d; dr_calls := dr_calls d |}.

Definition RETRY_AFTER_FALLBACK : Z := 1000.
Definition MAX_RETRY_AFTER : Z := 30000.
Definition rate_limit_delay (retry_after : option Z) : Z := Z.min (default RETRY_AFTER_FALLBACK retry_after) MAX_RETRY_AFTER.
Definition UPLOAD_BATCH : nat := 50.
Definition PULL_PAGE_LIMIT : Z := 100.
Definition MAX_PAGES_PER_PULL : nat := 50.
Definition MAX_FUTURE_SKEW_MS : Z := 24 * 60 * 60 * 1000.
Definition MSG_BATCH_ARITY : string := "the history database did not answer for every row of a page".
Definition MSG_REMOVED : string := "this device was removed from the group".

(** ** Rows on the way in *)

Definition clamp_stamp (raw : Z) : Z := Z.max raw 0.
Definition clamped (r : CloudItem.t) : CloudItem.t :=
  {| CloudItem.item_id := CloudItem.item_id r; CloudItem.ciphertext := CloudItem.ciphertext r;
     CloudItem.nonce := CloudItem.nonce r; CloudItem.content_type := CloudItem.content_type r;
     CloudItem.payload_metadata := CloudItem.payload_metadata r;
     CloudItem.source_app_bundle_id := CloudItem.source_app_bundle_id r;
     CloudItem.source_app_name := CloudItem.source_app_name r;
     CloudItem.created_at := clamp_stamp (CloudItem.created_at r); CloudItem.deleted := CloudItem.deleted r;
     CloudItem.origin_device_id := CloudItem.origin_device_id r; CloudItem.signature := CloudItem.signature r |}.
Definition row_key (r : CloudItem.t) : Z * string := (CloudItem.created_at r, CloudItem.item_id r).
Definition row_le (a b : CloudItem.t) : Prop := pair_cmp Z.compare str_cmp (row_key a) (row_key b) <> Gt.
#[export] Instance row_le_dec a b : Decision (row_le a b).
Proof. unfold row_le. apply _. Defined.
Definition sort_page (rows : list CloudItem.t) : list CloudItem.t := merge_sort row_le rows.
(** [base64::encoded_len], with padding. *)
Definition encoded_len (n : Z) : Z := (n + 2) / 3 * 4.
Definition ciphertext_exceeds_content_limit (ciphertext : string) : bool :=
  str_len ciphertext >? encoded_len (MAX_CONTENT_BYTES + TAG_LEN).

(** The cursor has the shape of an upload floor. *)
Definition row_floor (r : CloudItem.t) : UploadFloor :=
  {| fl_at := CloudItem.created_at r; fl_item := Some (CloudItem.item_id r) |}.
Definition advance_past (f : UploadFloor) (cursor : UploadFloor) : UploadFloor :=
  if floor_gt f cursor then f else cursor.
Definition advance_after_refusal (f : UploadFloor) (now : Z) (cursor : UploadFloor) : UploadFloor :=
  if fl_at f <=? now then advance_past f cursor else cursor.

Definition add_uploaded (s : SyncStats) : SyncStats :=
  stats_merge s {| uploaded := 1; tombstoned := 0; downloaded := 0; applied := 0; skipped_undecryptable := 0;
                   skipped_forged := 0; skipped_future := 0; skipped_too_large := 0 |}.
Definition add_tombstoned (s : SyncStats) : SyncStats :=
  stats_merge s {| uploaded := 0; tombstoned := 1; downloaded := 0; applied := 0; skipped_undecryptable := 0;
                   skipped_forged := 0; skipped_future := 0; skipped_too_large := 0 |}.
Definition add_downloaded (n : Z) (s : SyncStats) : SyncStats :=
  stats_merge s {| uploaded := 0; tombstoned := 0; downloaded := n; applied := 0; skipped_undecryptable := 0;
                   skipped_forged := 0; skipped_future := 0; skipped_too_large := 0 |}.
Definition add_applied (s : SyncStats) : SyncStats :=
  stats_merge s {| uploaded := 0; tombstoned := 0; downloaded := 0; applied := 1; skipped_undecryptable := 0;
                   skipped_forged := 0; skipped_future := 0; skipped_too_large := 0 |}.
Definition add_undecryptable (s : SyncStats) : SyncStats :=
  stats_merge s {| uploaded := 0; tombstoned := 0; downloaded := 0; applied := 0; skipped_undecryptable := 1;
                   skipped_forged := 0; skipped_future := 0; skipped_too_large := 0 |}.
Definition add_forged (s : SyncStats) : SyncStats :=
  stats_merge s {| uploaded := 0; tombstoned := 0; downloaded := 0; applied := 0; skipped_undecryptable := 0;
                   skipped_forged := 1; skipped_future := 0; skipped_too_large := 0 |}.
Definition add_future (s : SyncStats) : SyncStats :=
  stats_merge s {| uploaded := 0; tombstoned := 0; downloaded := 0; applied := 0; skipped_undecryptable := 0;
                   skipped_forged := 0; skipped_future := 1; skipped_too_large := 0 |}.
Definition add_too_large (s : SyncStats) : SyncStats :=
  stats_merge s {| uploaded := 0; tombstoned := 0; downloaded := 0; applied := 0; skipped_undecryptable := 0;
                   skipped_forged := 0; skipped_future := 0; skipped_too_large := 1 |}.

Section Rows.
Context {PC : PayloadCodecs} {SK : SyncKey}.
Inductive Verdict := Accepted (i : LocalItem.t) | Future | Forged | TooLarge | Undecryptable.
(** One row of a page, in the order its tests come. *)
Definition verdict (now : Z) (r : CloudItem.t) : Verdict :=
  if CloudItem.created_at r >? i64_saturating_add now MAX_FUTURE_SKEW_MS then Future
  else match verify r with
  | Err _ => Forged
  | Ok _ =>
    if negb (CloudItem.deleted r) && ciphertext_exceeds_content_limit (CloudItem.ciphertext r) then TooLarge
    else match (if CloudItem.deleted r then Ok []
                else decrypt_row (CloudItem.ciphertext r) (CloudItem.nonce r) (CloudItem.item_id r)) with
    | Err _ => Undecryptable
    | Ok content =>
      if negb (CloudItem.deleted r) && too_large_to_sync (CloudItem.content_type r) (len content) then TooLarge
      else Accepted {| LocalItem.item_id := CloudItem.item_id r; LocalItem.content := content;
                       LocalItem.content_type := CloudItem.content_type r;
                       LocalItem.payload_metadata := CloudItem.payload_metadata r;
                       LocalItem.created_at := CloudItem.created_at r; LocalItem.deleted := CloudItem.deleted r;
                       LocalItem.origin_device_id := CloudItem.origin_device_id r;
                       LocalItem.source_app_bundle_id := CloudItem.source_app_bundle_id r;
                       LocalItem.source_app_name := CloudItem.source_app_name r |}
    end
  end.
(** The page: the batch, where refusals have taken the cursor, the counts. *)
Fixpoint sift (now : Z) (rows : list CloudItem.t) (batch : list LocalItem.t) (advanced : UploadFloor) (s : SyncStats)
    : list LocalItem.t * UploadFloor * SyncStats :=
  match rows with
  | [] => (batch, advanced, s)
  | r :: rows =>
    match verdict now r with
    | Accepted i => sift now rows (batch ++ [i]) advanced s
    | Future => sift now rows batch advanced (add_future s)
    | Forged => sift now rows batch (advance_after_refusal (row_floor r) now advanced) (add_forged s)
    | TooLarge => sift now rows batch (advance_after_refusal (row_floor r) now advanced) (add_too_large s)
    | Undecryptable => sift now rows batch (advance_after_refusal (row_floor r) now advanced) (add_undecryptable s)
    end
  end.
Definition batch_floor (i : LocalItem.t) : UploadFloor :=
  {| fl_at := LocalItem.created_at i; fl_item := Some (LocalItem.item_id i) |}.

(** ** Rows on the way out *)

(** One local version: a row, nothing when it is too large, or a failure. *)
Definition seal_item (device_id : string) (drawn : bytes) (i : LocalItem.t) (s : SyncStats)
    : result CloudError (option CloudItem.t * SyncStats) :=
  let origin := if String.eqb (LocalItem.origin_device_id i) "" then device_id else LocalItem.origin_device_id i in
  if LocalItem.deleted i
  then Ok (Some (sign (CloudItem.tombstone (LocalItem.item_id i) (LocalItem.content_type i) (LocalItem.created_at i) origin)),
           add_tombstoned s)
  else if too_large_to_sync (LocalItem.content_type i) (len (LocalItem.content i)) then Ok (None, add_too_large s)
  else '(nonce, ciphertext) ← map_err (fun _ => EncryptFailed) (encrypt_row drawn (LocalItem.content i) (LocalItem.item_id i));
       Ok (Some (sign {| CloudItem.item_id := LocalItem.item_id i; CloudItem.ciphertext := ciphertext;
                         CloudItem.nonce := nonce; CloudItem.content_type := LocalItem.content_type i;
                         CloudItem.payload_metadata := LocalItem.payload_metadata i;
                         CloudItem.source_app_bundle_id := LocalItem.source_app_bundle_id i;
                         CloudItem.source_app_name := LocalItem.source_app_name i;
                         CloudItem.created_at := LocalItem.created_at i; CloudItem.deleted := false;
                         CloudItem.origin_device_id := origin; CloudItem.signature := "" |}),
           add_uploaded s).
End Rows.

Section Driver.
Context {PC : PayloadCodecs} {SK : SyncKey} {DG : Digest} {W : Type} {BE : Backend W} {SO : CloudSource W}.
(** [persist]: the callback that saves a rotated session.  [others]: what other
    tasks do to the session while the driver awaits, the n-th time it does.
    [random]: the system's generator. *)
Context (persist : option (Session -> W -> result CloudError unit * W))
        (others : nat -> SessionState -> SessionState) (random : W -> bytes * W).

Definition await {A} (a : A) : Cloud W A := fun d =>
  (Ok a, {| dr_session := others (dr_awaits d) (dr_session d); dr_events := dr_events d; dr_cadence := dr_cadence d;
            dr_push_channel := dr_push_channel d; dr_downloaded := dr_downloaded d; dr_uploaded := dr_uploaded d;
            dr_world := dr_world d; dr_awaits := S (dr_awaits d); dr_calls := dr_calls d |}).
Definition wait (delay : Z) : Cloud W unit := _ ← (note_call (Waited delay) : Cloud W unit); await tt.

(** ** Session recovery *)

Definition persist_current_session : Cloud W unit := fun d =>
  match persist with
  | Some p => source_call (p (ss_session (dr_session d))) d
  | None => (Ok tt, d)
  end.
Definition ask_refresh (token : string) : Cloud W (result AuthFault Session) := fun d =>
  let '(r, w) := auth_refresh token (dr_world d) in
  await (map_err classify_auth r) (log (Refreshed token) (with_world w d)).
Definition refresh_failure (e : AuthFault) : CloudError :=
  match e with
  | InvalidCredentials => BadCredentials
  | SessionExpired => SessionEnded
  | AuthThrottled _ => TooManyRequests
  | Unavailable reason => TransportFailed reason
  end.
Definition ends_session (e : CloudError) : bool := match e with BadCredentials | SessionEnded => true | _ => false end.
Definition install (revision : Z) (s : Session) : Cloud W unit := fun d =>
  match install_refreshed_session revision s d with
  | (Current, d) => persist_current_session d
  | (Superseded, d) => (Ok tt, d)
  | (Fenced, d) => (Err SessionEnded, d)
  end.
Definition refused_refresh (revision : Z) (e : AuthFault) : Cloud W unit := fun d =>
  match revision_state revision d with
  | Superseded => (Ok tt, d)
  | Fenced => (Err SessionEnded, d)
  | Current => let e := refresh_failure e in
               (Err e, if ends_session e then (fence_session (Some revision) d).2 else d)
  end.
Definition refresh_session : Cloud W unit :=
  snapshot ← (gets refresh_snapshot : Cloud W (option (Z * string)));
  match snapshot with
  | None => fail SessionEnded
  | Some (revision, token) =>
    _ ← await tt;
    state ← (gets (revision_state revision) : Cloud W SessionRevision);
    match state with
    | Superseded => mret tt
    | Fenced => fail SessionEnded
    | Current =>
      r ← ask_refresh token;
      match r with Ok s => install revision s | Err e => refused_refresh revision e end
    end
  end.

(** The loop of [execute]; three turns are enough ([execute_is_bounded]). *)
Definition try_once {A} (op : string -> W -> result TransportFault A * W) : Cloud W (result TransportFault A) := fun d =>
  let token := access_token (ss_session (dr_session d)) in
  let '(r, w) := op token (dr_world d) in await r (log (Tried token) (with_world w d)).
Fixpoint execute_loop {A} (fuel : nat) (op : string -> W -> result TransportFault A * W) (refreshed waited : bool)
    (d : Driver W) : option (result CloudError A * Driver W) :=
  match fuel with
  | O => None
  | S fuel =>
    match try_once op d with
    | (Err e, d) => Some (Err e, d)
    | (Ok (Ok a), d) => Some (Ok a, d)
    | (Ok (Err Unauthorized), d) =>
      if refreshed then Some (Err SessionUnauthorized, d)
      else match refresh_session d with
           | (Ok _, d) => execute_loop fuel op true waited d
           | (Err e, d) => Some (Err e, d)
           end
    | (Ok (Err (RateLimited retry_after)), d) =>
      if waited then Some (Err TooManyRequests, d)
      else match wait (rate_limit_delay retry_after) d with
           | (Ok _, d) => execute_loop fuel op refreshed true d
           | (Err e, d) => Some (Err e, d)
           end
    | (Ok (Err (Transient reason | Permanent reason)), d) => Some (Err (TransportFailed reason), d)
    end
  end.
Definition EXECUTE_FUEL : nat := 3.
Definition execute {A} (op : string -> W -> result TransportFault A * W) : Cloud W A := fun d =>
  default (Err (TransportFailed "out of turns"), d) (execute_loop EXECUTE_FUEL op false false d).
Definition rest {A} (op : string -> W -> result RestError A * W) (token : string) (w : W) : result TransportFault A * W :=
  let '(r, w) := op token w in (map_err classify_rest r, w).

(** ** Upload *)

Definition draw_random : Cloud W bytes := fun d => let '(b, w) := random (dr_world d) in (Ok b, with_world w d).
Fixpoint seal_items (device_id : string) (items : list LocalItem.t) (rows : list CloudItem.t) (s : SyncStats)
    : Cloud W (list CloudItem.t * SyncStats) :=
  match items with
  | [] => mret (rows, s)
  | i :: items =>
    drawn ← (if LocalItem.deleted i || too_large_to_sync (LocalItem.content_type i) (len (LocalItem.content i))
             then mret [] else draw_random : Cloud W bytes);
    '(row, s) ← (lift (seal_item device_id drawn i s) : Cloud W (option CloudItem.t * SyncStats));
    seal_items device_id items (match row with Some r => rows ++ [r] | None => rows end) s
  end.
Fixpoint upsert_batches (batches : list (list CloudItem.t)) : Cloud W unit :=
  match batches with
  | [] => mret tt
  | batch :: batches => _ ← execute (rest (fun token => upsert token batch)); upsert_batches batches
  end.
Definition push : Cloud W SyncStats :=
  since ← (source_call so_upload_floor : Cloud W Z);
  after ← (source_call so_upload_floor_item_id : Cloud W (option string));
  device_id ← (source_value so_device_id : Cloud W string);
  items ← (source_call (so_local_changes_after since after) : Cloud W (list LocalItem.t));
  '(rows, s) ← seal_items device_id items [] no_stats;
  _ ← upsert_batches (chunks UPLOAD_BATCH rows);
  mret s.

(** ** Download *)

Fixpoint settle (outcomes : list Applied) (s : SyncStats) (republish : bool) : Cloud W (SyncStats * bool) :=
  match outcomes with
  | [] => mret (s, republish)
  | Merged :: outcomes => settle outcomes (add_applied s) republish
  | Declined i :: outcomes =>
    again ← (source_call (so_requeue_local_winner i) : Cloud W bool); settle outcomes s (republish || again)
  end.
Definition apply_batch (batch : list LocalItem.t) (advanced : UploadFloor) (s : SyncStats) (republish : bool)
    : Cloud W (UploadFloor * SyncStats * bool) :=
  match batch with
  | [] => mret (advanced, s, republish)
  | _ =>
    outcomes ← (source_call (so_apply_remote_batch batch) : Cloud W (list Applied));
    if negb (length outcomes =? length batch)%nat then fail (SourceFailed MSG_BATCH_ARITY)
    else '(s, republish) ← settle outcomes s republish;
         mret (match last batch with Some i => advance_past (batch_floor i) advanced | None => advanced end, s, republish)
  end.
Definition save_cursor (advanced cursor : UploadFloor) : Cloud W unit :=
  if decide (advanced = cursor) then mret tt
  else match fl_item advanced with
       | Some id => source_call (so_set_watermark_keyset (fl_at advanced) id)
       | None => mret tt
       end.
Definition fetch_page (cursor : UploadFloor) : Cloud W (list CloudItem.t) :=
  execute (rest (fun token => fetch_since token (fl_at cursor) (fl_item cursor) PULL_PAGE_LIMIT)).
(** One page: what it left of the cursor, and whether the drain is over. *)
Definition pull_page (cursor : UploadFloor) (s : SyncStats) (republish : bool) : Cloud W (UploadFloor * SyncStats * bool * bool) :=
  rows ← fetch_page cursor;
  now ← (gets (fun d => be_now (dr_world d)) : Cloud W Z);
  let '(batch, advanced, s) := sift now (sort_page (clamped <$> rows)) [] cursor (add_downloaded (Z.of_nat (length rows)) s) in
  '(advanced, s, republish) ← apply_batch batch advanced s republish;
  _ ← save_cursor advanced cursor;
  mret (advanced, s, republish, (Z.of_nat (length rows) <? PULL_PAGE_LIMIT) || bool_decide (advanced = cursor)).
Fixpoint pull_pages (pages : nat) (cursor : UploadFloor) (s : SyncStats) (republish : bool) : Cloud W (SyncStats * bool) :=
  match pages with
  | O => mret (s, republish)
  | S pages =>
    '(cursor, s, republish, over) ← pull_page cursor s republish;
    if (over : bool) then mret (s, republish) else pull_pages pages cursor s republish
  end.
Definition pull_with_republish : Cloud W (SyncStats * bool) :=
  at_ ← (source_call so_watermark : Cloud W Z);
  item ← (source_call so_watermark_item_id : Cloud W (option string));
  pull_pages MAX_PAGES_PER_PULL {| fl_at := at_; fl_item := item |} no_stats false.
Definition pull : Cloud W SyncStats := '(s, _) ← pull_with_republish; mret s.

(** ** The group *)

Definition MSG_GROUP_PAGE : string := "invalid device group page".
Definition MSG_GROUP_STUCK : string := "device group page did not advance".
(** One version of the catalog: the cursor, the count, this device's digest and
    the devices to download. *)
Record Catalog := { ca_after : option string; ca_count : nat; ca_local : option string; ca_changed : list string }.
Fixpoint catalog_rows (local_id : string) (downloaded : gmap string string) (versions : list GroupVersion) (c : Catalog)
    : result CloudError Catalog :=
  match versions with
  | [] => Ok c
  | v :: versions =>
    let count := S (ca_count c) in
    _ ← refuse_if ((MAX_GROUP_ROWS <? count)%nat
                   || match ca_after c with
                      | Some id => match str_cmp (gv_device_id v) id with Gt => false | _ => true end
                      | None => false
                      end
                   || match version_validate v with Ok _ => false | Err _ => true end) (SourceFailed MSG_GROUP_STUCK);
    let c := {| ca_after := Some (gv_device_id v); ca_count := count; ca_local := ca_local c; ca_changed := ca_changed c |} in
    catalog_rows local_id downloaded versions
      (if String.eqb (gv_device_id v) local_id
       then {| ca_after := ca_after c; ca_count := count; ca_local := Some (gv_digest v); ca_changed := ca_changed c |}
       else if bool_decide (downloaded !! gv_device_id v = Some (gv_digest v)) then c
       else {| ca_after := ca_after c; ca_count := count; ca_local := ca_local c;
               ca_changed := ca_changed c ++ [gv_device_id v] |})
  end.
(** [BTreeMap::pop_first]. *)
Definition pop_first (m : gmap string string) : gmap string string :=
  match merge_sort str_le (fst <$> map_to_list m) with k :: _ => delete k m | [] => m end.
Definition remember (r : GroupRow.t) (m : gmap string string) : gmap string string :=
  <[GroupRow.device_id r := ciphertext_digest r]>
    (if (MAX_GROUP_ROWS <=? size m)%nat && negb (bool_decide (is_Some (m !! GroupRow.device_id r))) then pop_first m else m).
Definition group_text (r : GroupRow.t) : option string :=
  match decrypt_row (GroupRow.ciphertext r) (GroupRow.nonce r) (aad_id r) with
  | Ok plaintext => if len plaintext <=? MAX_GROUP_BYTES then from_utf8 plaintext else None
  | Err _ => None
  end.
Definition removed_check : Cloud W unit :=
  allowed ← (source_value so_group_sync_allowed : Cloud W bool);
  if (allowed : bool) then mret tt else fail (SourceFailed MSG_REMOVED).
Definition apply_group_row (r : GroupRow.t) : Cloud W unit :=
  match group_validate r with
  | Err _ => mret tt
  | Ok _ =>
    _ ← (match group_text r with
         | Some json => _ ← (source_call (so_apply_group (GroupRow.device_id r) json) : Cloud W unit); removed_check
         | None => mret tt
         end : Cloud W unit);
    modify (fun d => with_groups (remember r (dr_downloaded d)) (dr_uploaded d) d)
  end.
Fixpoint apply_group_rows (rows : list GroupRow.t) : Cloud W unit :=
  match rows with [] => mret tt | r :: rows => _ ← apply_group_row r; apply_group_rows rows end.
Fixpoint download_chunks (l : list (list string)) : Cloud W unit :=
  match l with
  | [] => mret tt
  | ids :: l =>
    rows ← execute (rest (fun token => fetch_groups token ids));
    if not_asked ids rows then fail (SourceFailed MSG_GROUP_PAGE)
    else _ ← apply_group_rows rows; download_chunks l
  end.
Definition download_groups (changed : list string) : Cloud W unit := download_chunks (chunks GROUP_PAGE_SIZE changed).
(** The catalog, page by page; the fuel covers [MAX_GROUP_ROWS] rows
    ([catalog_ends]). *)
Fixpoint catalog_loop (fuel : nat) (local_id : string) (c : Catalog) : Cloud W Catalog :=
  match fuel with
  | O => fail (SourceFailed MSG_GROUP_STUCK)
  | S fuel =>
    versions ← execute (rest (fun token => fetch_group_catalog token (ca_after c)));
    if (GROUP_CATALOG_PAGE_SIZE <? length versions)%nat then fail (SourceFailed MSG_GROUP_PAGE)
    else
      downloaded ← (gets dr_downloaded : Cloud W (gmap string string));
      c ← (lift (catalog_rows local_id downloaded versions
                   {| ca_after := ca_after c; ca_count := ca_count c; ca_local := ca_local c; ca_changed := [] |}) : Cloud W Catalog);
      _ ← download_groups (ca_changed c);
      if (length versions =? GROUP_CATALOG_PAGE_SIZE)%nat then catalog_loop fuel local_id c else mret c
  end.
Definition CATALOG_FUEL : nat := 65.
Definition publish_group (local_id : string) (local_digest : option string) (snapshot : string) : Cloud W unit :=
  if str_len snapshot >? MAX_GROUP_BYTES then fail (SourceFailed "device group is too large")
  else
    let digest := sha256 (as_bytes snapshot) in
    done ← (gets dr_uploaded : Cloud W (option GroupUpload));
    if match done with
       | Some u => bool_decide (gu_digest u = digest) && bool_decide (local_digest = Some (gu_ciphertext_digest u))
       | None => false
       end then mret tt
    else
      drawn ← draw_random;
      let aad := aad_id {| GroupRow.device_id := local_id; GroupRow.ciphertext := ""; GroupRow.nonce := "" |} in
      '(nonce, ciphertext) ← (lift (map_err (fun _ => SourceFailed "device group could not be encrypted")
                                     (encrypt_row drawn (as_bytes snapshot) aad)) : Cloud W (string * string));
      let row := {| GroupRow.device_id := local_id; GroupRow.ciphertext := ciphertext; GroupRow.nonce := nonce |} in
      _ ← execute (rest (fun token => upsert_group token row));
      modify (fun d => with_groups (dr_downloaded d)
                         (Some {| gu_digest := digest; gu_ciphertext_digest := ciphertext_digest row |}) d).
Definition no_catalog : Catalog := {| ca_after := None; ca_count := 0; ca_local := None; ca_changed := [] |}.
Definition sync_group : Cloud W unit :=
  first ← (source_call so_group_snapshot : Cloud W (option string));
  match first with
  | None => mret tt
  | Some _ =>
    local_id ← (source_value so_device_id : Cloud W string);
    c ← catalog_loop CATALOG_FUEL local_id no_catalog;
    _ ← removed_check;
    snapshot ← (source_call so_group_snapshot : Cloud W (option string));
    match snapshot with
    | None => mret tt
    | Some snapshot => publish_group local_id (ca_local c) snapshot
    end
  end.

(** ** A round *)

Definition sync : Cloud W SyncStats :=
  _ ← sync_group;
  _ ← removed_check;
  pushed ← push;
  '(pulled, republish) ← pull_with_republish;
  s ← (if (republish : bool) then again ← push; mret (stats_merge (stats_merge pushed pulled) again)
       else mret (stats_merge pushed pulled) : Cloud W SyncStats);
  _ ← modify (note_activity (stats_changed s));
  mret s.
End Driver.
