(* ===== verification/CloudSafety.v ===== *)
(** What the cloud driver promises: how often it asks, that a fenced session is
    left alone, which rows are let in, and that no forged row holds an honest
    one back. *)

From S2P Require Import Prelude Float64 Bytes Text Wire Binary Merge Payload Settings Credentials Workspace Table Items ItemSafety Retention Organization Versions Scan LocalMerge Source CloudRow CloudClient Upload UploadSafety CloudSync.

(** ** How often a request is tried *)

Definition is_tried (c : Call) : bool := match c with Tried _ => true | _ => false end.
Definition is_refreshed (c : Call) : bool := match c with Refreshed _ => true | _ => false end.
Definition is_waited (c : Call) : bool := match c with Waited _ => true | _ => false end.
Definition count (p : Call -> bool) (l : list Call) : nat := length (List.filter p l).
Lemma count_app p l k : count p (l ++ k) = (count p l + count p k)%nat.
Proof. unfold count. by rewrite List.filter_app, length_app. Qed.

Section Calls.
Context {PC : PayloadCodecs} {SK : SyncKey} {DG : Digest} {W : Type} {BE : Backend W} {SO : CloudSource W}.
Context (persist : option (Session -> W -> result CloudError unit * W))
        (others : nat -> SessionState -> SessionState) (random : W -> bytes * W).

(** The calls a computation adds, bounded. *)
Definition few (tries refreshes waits : nat) (d d' : Driver W) : Prop :=
  exists l, dr_calls d' = dr_calls d ++ l /\ (count is_tried l <= tries)%nat /\ (count is_refreshed l <= refreshes)%nat /\
    (count is_waited l <= waits)%nat /\ forall t, Waited t ∈ l -> t <= MAX_RETRY_AFTER.
Lemma few_same t r n d d' : dr_calls d' = dr_calls d -> few t r n d d'.
Proof. intros H. exists []. rewrite app_nil_r. split_and!; [done|cbn; lia..|]. intros u Hu. by apply elem_of_nil in Hu. Qed.
Lemma few_trans t1 r1 n1 t2 r2 n2 d1 d2 d3 :
  few t1 r1 n1 d1 d2 -> few t2 r2 n2 d2 d3 -> few (t1 + t2) (r1 + r2) (n1 + n2) d1 d3.
Proof.
  intros (l & H1 & H2 & H3 & H4 & H5) (k & K1 & K2 & K3 & K4 & K5). exists (l ++ k). rewrite !count_app.
  split_and!; [by rewrite K1, H1, app_assoc|lia..|]. intros u [Hu|Hu]%elem_of_app; auto.
Qed.
Lemma few_le t r n t' r' n' d d' : few t r n d d' -> (t <= t')%nat -> (r <= r')%nat -> (n <= n')%nat -> few t' r' n' d d'.
Proof. intros (l & H1 & H2 & H3 & H4 & H5) ???. exists l. split_and!; [done|lia..|done]. Qed.
Lemma few_one c t r n d d' : dr_calls d' = dr_calls d ++ [c] ->
  (count is_tried [c] <= t)%nat -> (count is_refreshed [c] <= r)%nat -> (count is_waited [c] <= n)%nat ->
  (forall u, c = Waited u -> u <= MAX_RETRY_AFTER) -> few t r n d d'.
Proof. intros H ??? Hs. exists [c]. split_and!; [done..|]. intros u Hu%list_elem_of_singleton. by apply Hs. Qed.

Lemma persist_calls d : dr_calls (persist_current_session persist d).2 = dr_calls d.
Proof.
  unfold persist_current_session. destruct persist as [p|]; [|done]. unfold source_call.
  by destruct (p _ _).
Qed.
Lemma install_calls rev s d : dr_calls (install persist rev s d).2 = dr_calls d.
Proof.
  unfold install, install_refreshed_session. destruct (ss_fenced _); [done|]. destruct (negb _); [done|]. by rewrite persist_calls.
Qed.
Lemma refused_calls rev e d : dr_calls (refused_refresh (W:=W) rev e d).2 = dr_calls d.
Proof.
  unfold refused_refresh. destruct (revision_state rev d); [|done|done]. cbn. destruct (ends_session _); [|done].
  unfold fence_session. destruct (negb _); [done|]. cbn. by destruct (negb _).
Qed.
Lemma refresh_few d : few 0 1 0 d (refresh_session persist others d).2.
Proof.
  unfold refresh_session, mbind, cloud_bind, gets, await. destruct (refresh_snapshot d) as [[rev token]|]; [|by apply few_same].
  cbn [fst snd]. destruct (revision_state rev _); [|by apply few_same..]. unfold ask_refresh, await. cbn [dr_world with_world log].
  destruct (auth_refresh token (dr_world d)) as [r w]. cbn.
  destruct r as [s|e]; cbn.
  - eapply few_one; [rewrite install_calls; cbn; reflexivity|cbn; lia..|]. intros u [=].
  - eapply few_one; [rewrite refused_calls; cbn; reflexivity|cbn; lia..|]. intros u [=].
Qed.
Lemma rate_limit_delay_short r : rate_limit_delay r <= MAX_RETRY_AFTER.
Proof. unfold rate_limit_delay. lia. Qed.
Lemma execute_loop_few {A} (op : string -> W -> result TransportFault A * W) fuel : forall refreshed waited d,
  (Nat.b2n (negb refreshed) + Nat.b2n (negb waited) < fuel)%nat ->
  exists r d', execute_loop persist others fuel op refreshed waited d = Some (r, d') /\
    few (1 + Nat.b2n (negb refreshed) + Nat.b2n (negb waited)) (Nat.b2n (negb refreshed)) (Nat.b2n (negb waited)) d d'.
Proof.
  induction fuel as [|fuel IH]; intros refreshed waited d Hfuel; [lia|]. cbn [execute_loop]. unfold try_once, await.
  destruct (op (access_token (ss_session (dr_session d))) (dr_world d)) as [r w]. cbn [fst snd].
  set (d1 := {| dr_session := _ |}). assert (H1 : few 1 0 0 d d1).
  { eapply few_one; [unfold d1; cbn; reflexivity|cbn; lia..|]. intros u [=]. }
  assert (Hdone : forall x : result CloudError A, exists r d', Some (x, d1) = Some (r, d') /\
            few (1 + Nat.b2n (negb refreshed) + Nat.b2n (negb waited)) (Nat.b2n (negb refreshed)) (Nat.b2n (negb waited)) d d').
  { intros x. exists x, d1. split; [done|]. apply (few_le 1 0 0); [done|lia..]. }
  destruct r as [a|[|ra|reason|reason]]; [apply Hdone| | |apply Hdone|apply Hdone].
  - destruct refreshed; [apply Hdone|]. pose proof (refresh_few d1) as H2.
    destruct (refresh_session persist others d1) as [[u|e] d2]; cbn [snd] in H2.
    + destruct (IH true waited d2) as (r & d3 & E & H3); [cbn in *; lia|]. exists r, d3. split; [done|].
      apply (few_le (1 + (0 + (1 + 0 + Nat.b2n (negb waited)))) (0 + (1 + 0)) (0 + (0 + Nat.b2n (negb waited)))); [|cbn; lia..].
      apply (few_trans _ _ _ _ _ _ _ d1); [done|]. by apply (few_trans _ _ _ _ _ _ _ d2).
    + exists (Err e), d2. split; [done|]. apply (few_le (1 + 0) (0 + 1) (0 + 0)); [|cbn; lia..].
      by apply (few_trans _ _ _ _ _ _ _ d1).
  - destruct waited; [apply Hdone|]. unfold wait, mbind, cloud_bind, note_call, await. cbn [fst snd].
    set (d2 := {| dr_session := _ |}). assert (H2 : few 0 0 1 d1 d2).
    { eapply few_one; [unfold d2; cbn; reflexivity|cbn; lia..|]. intros u [= <-]. apply rate_limit_delay_short. }
    destruct (IH refreshed true d2) as (r & d3 & E & H3); [cbn in *; lia|]. exists r, d3. split; [done|].
    apply (few_le (1 + (0 + (1 + Nat.b2n (negb refreshed) + 0))) (0 + (0 + Nat.b2n (negb refreshed))) (0 + (1 + 0))); [|cbn; lia..].
    apply (few_trans _ _ _ _ _ _ _ d1); [done|]. by apply (few_trans _ _ _ _ _ _ _ d2).
Qed.
(** Every request of the driver is answered, by a value or by an error, within
    three attempts, one refresh of the session and one wait of at most 30
    seconds: [execute] cannot spin whatever the service answers. *)
Theorem execute_is_bounded {A} (op : string -> W -> result TransportFault A * W) d :
  exists r d', execute_loop persist others EXECUTE_FUEL op false false d = Some (r, d') /\
    execute persist others op d = (r, d') /\ few 3 1 1 d d'.
Proof.
  destruct (execute_loop_few op EXECUTE_FUEL false false d) as (r & d' & E & H); [cbn; unfold EXECUTE_FUEL; lia|].
  exists r, d'. split; [done|]. split; [unfold execute; by rewrite E|done].
Qed.

(** ** How many pages the catalog takes *)

Lemma catalog_rows_count local_id downloaded versions : forall c c',
  catalog_rows local_id downloaded versions c = Ok c' ->
  ca_count c' = (ca_count c + length versions)%nat /\ (versions <> [] -> ca_count c' <= MAX_GROUP_ROWS)%nat.
Proof.
  induction versions as [|v versions IH]; intros c c'; cbn [catalog_rows].
  { intros [= <-]. split; [cbn; lia|done]. }
  intros (u & Hu%refuse_if_ok & H)%bind_ok. apply orb_false_elim in Hu as [[Hu _]%orb_false_elim _].
  apply Nat.ltb_ge in Hu. apply IH in H as [H1 H2].
  assert (E : ca_count c' = (S (ca_count c) + length versions)%nat) by (rewrite H1; by repeat case_match).
  cbn [length]. split; [lia|]. intros _. destruct versions; [cbn [length] in E; lia|by apply H2].
Qed.
(** Every page but the last holds 64 new rows, so [CATALOG_FUEL] pages are
    enough: more turns of the loop would change nothing. *)
Lemma catalog_ends local_id fuel : forall c d more, (ca_count c <= MAX_GROUP_ROWS)%nat ->
  (MAX_GROUP_ROWS < fuel * GROUP_CATALOG_PAGE_SIZE + ca_count c)%nat -> (fuel <= more)%nat ->
  catalog_loop persist others fuel local_id c d = catalog_loop persist others more local_id c d.
Proof.
  induction fuel as [|fuel IH]; intros c d more Hc Hf Hm; [lia|]. destruct more as [|more]; [lia|]. cbn [catalog_loop].
  unfold mbind, cloud_bind. destruct (execute _ _ _ d) as [[versions|e] d1]; [|done].
  destruct (_ <? _)%nat; [done|]. cbn [gets lift].
  destruct (catalog_rows _ _ _ _) as [c'|e] eqn:E; [|done]. destruct (download_groups _ _ _ d1) as [[u|e] d2]; [|done].
  destruct (Nat.eqb_spec (length versions) GROUP_CATALOG_PAGE_SIZE) as [Hl|]; [|done].
  apply catalog_rows_count in E as [E1 E2]. cbn [ca_count] in E1. apply IH; [|lia|lia].
  apply E2. intros ->. unfold GROUP_CATALOG_PAGE_SIZE in Hl. cbn in Hl. lia.
Qed.
Corollary catalog_fuel_is_enough local_id d more : (CATALOG_FUEL <= more)%nat ->
  catalog_loop persist others more local_id no_catalog d = catalog_loop persist others CATALOG_FUEL local_id no_catalog d.
Proof.
  intros H. symmetry. apply catalog_ends; [|unfold CATALOG_FUEL, MAX_GROUP_ROWS, GROUP_CATALOG_PAGE_SIZE; cbn [no_catalog ca_count]; lia|done].
  unfold MAX_GROUP_ROWS. cbn [no_catalog ca_count]. lia.
Qed.
End Calls.

(** ** What a computation keeps *)

Definition keeps {W A} (R : relation (Driver W)) (m : Cloud W A) : Prop := forall d, R d (m d).2.
Section Keeps.
Context {W : Type} (R : relation (Driver W)) `{!PreOrder R}.
Lemma keeps_ret {A} (a : A) : keeps R (mret a).
Proof. intros d. apply PreOrder_Reflexive. Qed.
Lemma keeps_fail {A} e : keeps R (fail e : Cloud W A).
Proof. intros d. apply PreOrder_Reflexive. Qed.
Lemma keeps_lift {A} (r : result CloudError A) : keeps R (lift r).
Proof. intros d. apply PreOrder_Reflexive. Qed.
Lemma keeps_gets {A} (f : Driver W -> A) : keeps R (gets f).
Proof. intros d. apply PreOrder_Reflexive. Qed.
Lemma keeps_modify f : (forall d, R d (f d)) -> keeps R (modify f).
Proof. intros H d. apply H. Qed.
Lemma keeps_bind {A B} (m : Cloud W A) (k : A -> Cloud W B) : keeps R m -> (forall a, keeps R (k a)) -> keeps R (m ≫= k).
Proof.
  intros Hm Hk d. unfold mbind, cloud_bind. specialize (Hm d). destruct (m d) as [[a|e] d']; cbn in Hm |- *; [|done].
  etransitivity; [exact Hm|]. apply Hk.
Qed.
Lemma keeps_value {A} (f : W -> A * W) : (forall w d, R d (with_world w d)) -> keeps R (source_value f).
Proof. intros H d. unfold source_value. destruct (f (dr_world d)) as [a w]. apply H. Qed.
Lemma keeps_source {A} (f : W -> result CloudError A * W) : (forall w d, R d (with_world w d)) -> keeps R (source_call f).
Proof. intros H d. unfold source_call. destruct (f (dr_world d)) as [r w]. apply H. Qed.
End Keeps.
#[global] Hint Resolve keeps_ret keeps_fail keeps_lift keeps_gets : keeps.

(** ** A fenced session *)

Section Fence.
Context {PC : PayloadCodecs} {SK : SyncKey} {DG : Digest} {W : Type} {BE : Backend W} {SO : CloudSource W}.
Context (persist : option (Session -> W -> result CloudError unit * W))
        (others : nat -> SessionState -> SessionState) (random : W -> bytes * W).
(** No other task takes a fence down or touches what is behind it. *)
Context (others_keep : forall n s, ss_fenced s = true -> others n s = s).

(** From a fenced session on: the session stays, and no refresh token leaves. *)
Definition left_alone (d d' : Driver W) : Prop :=
  ss_fenced (dr_session d) = true ->
  dr_session d' = dr_session d /\ exists l, dr_calls d' = dr_calls d ++ l /\ count is_refreshed l = 0%nat.
#[local] Instance left_alone_preorder : PreOrder left_alone.
Proof.
  split.
  - intros d _. split; [done|]. exists []. by rewrite app_nil_r.
  - intros d1 d2 d3 H1 H2 Hf. destruct (H1 Hf) as (E1 & l & L1 & C1). destruct H2 as (E2 & k & L2 & C2); [by rewrite E1|].
    split; [congruence|]. exists (l ++ k). rewrite count_app, C1, C2. by rewrite L2, L1, app_assoc.
Qed.
Lemma alone_same d d' : dr_session d' = dr_session d -> dr_calls d' = dr_calls d -> left_alone d d'.
Proof. intros H1 H2 _. split; [done|]. exists []. by rewrite app_nil_r. Qed.
Lemma alone_source {A} (f : W -> result CloudError A * W) : keeps left_alone (source_call f).
Proof. apply keeps_source. intros w d. by apply alone_same. Qed.
Lemma alone_value {A} (f : W -> A * W) : keeps left_alone (source_value f).
Proof. apply keeps_value. intros w d. by apply alone_same. Qed.
Lemma alone_await {A} (a : A) : keeps left_alone (await others a).
Proof. intros d Hf. cbn. rewrite others_keep by done. split; [done|]. exists []. by rewrite app_nil_r. Qed.
Lemma alone_call c : is_refreshed c = false -> keeps left_alone (note_call c : Cloud W unit).
Proof. intros Hc d Hf. cbn. split; [done|]. exists [c]. split; [done|]. unfold count. cbn. by rewrite Hc. Qed.
Lemma alone_wait delay : keeps left_alone (wait others delay : Cloud W unit).
Proof. apply keeps_bind; [apply _|by apply alone_call|]. intros _. apply alone_await. Qed.
Lemma alone_refresh : keeps left_alone (refresh_session persist others).
Proof.
  intros d Hf. unfold refresh_session, mbind, cloud_bind, gets, refresh_snapshot. rewrite Hf. cbn.
  split; [done|]. exists []. by rewrite app_nil_r.
Qed.
Lemma alone_try {A} (op : string -> W -> result TransportFault A * W) : keeps left_alone (try_once others op).
Proof.
  intros d. unfold try_once. destruct (op _ _) as [r w]. etransitivity; [|apply alone_await].
  etransitivity; [|apply (alone_call (Tried (access_token (ss_session (dr_session d))))); done]. by apply alone_same.
Qed.
Lemma alone_loop {A} (op : string -> W -> result TransportFault A * W) fuel : forall refreshed waited d r d',
  execute_loop persist others fuel op refreshed waited d = Some (r, d') -> left_alone d d'.
Proof.
  induction fuel as [|fuel IH]; intros refreshed waited d r d'; [done|]. cbn [execute_loop].
  pose proof (alone_try op d) as H1. destruct (try_once others op d) as [x d1]. cbn [snd] in H1.
  destruct x as [[a|[|ra|reason|reason]]|e]; try (by intros [= <- <-]).
  - destruct refreshed; [by intros [= <- <-]|]. pose proof (alone_refresh d1) as H2.
    destruct (refresh_session persist others d1) as [[u|e] d2]; cbn [snd] in H2.
    + intros H. apply IH in H. etransitivity; [exact H1|]. by etransitivity.
    + intros [= <- <-]. by etransitivity.
  - destruct waited; [by intros [= <- <-]|]. pose proof (alone_wait (rate_limit_delay ra) d1) as H2.
    destruct (wait others (rate_limit_delay ra) d1) as [[u|e] d2]; cbn [snd] in H2.
    + intros H. apply IH in H. etransitivity; [exact H1|]. by etransitivity.
    + intros [= <- <-]. by etransitivity.
Qed.
Lemma alone_execute {A} (op : string -> W -> result TransportFault A * W) : keeps left_alone (execute persist others op).
Proof.
  intros d. destruct (execute_loop_few persist others op EXECUTE_FUEL false false d) as (r & d' & E & _); [cbn; unfold EXECUTE_FUEL; lia|].
  unfold execute. rewrite E. cbn. by apply (alone_loop op EXECUTE_FUEL false false d r).
Qed.
#[local] Hint Resolve alone_source alone_value alone_await alone_execute : keeps.
#[local] Ltac alone := repeat first
  [ progress auto with keeps typeclass_instances
  | apply keeps_bind; [exact left_alone_preorder| |let x := fresh "x" in intros x]
  | match goal with
    | |- keeps left_alone (match ?x with _ => _ end) => destruct x
    end ].

Lemma alone_random : keeps left_alone (draw_random random : Cloud W bytes).
Proof. intros d. unfold draw_random. destruct (random (dr_world d)). by apply alone_same. Qed.
#[local] Hint Resolve alone_random : keeps.
Lemma alone_seal device items : forall rows s, keeps left_alone (seal_items random device items rows s).
Proof. induction items as [|i items IH]; intros rows s; cbn [seal_items]; alone. Qed.
Lemma alone_batches l : keeps left_alone (upsert_batches persist others l).
Proof. induction l as [|b l IH]; cbn [upsert_batches]; alone. Qed.
#[local] Hint Resolve alone_seal alone_batches : keeps.
Lemma alone_push : keeps left_alone (push persist others random).
Proof. unfold push. alone. Qed.
Lemma alone_settle l : forall s b, keeps left_alone (settle l s b : Cloud W _).
Proof. induction l as [|[|i] l IH]; intros s b; cbn [settle]; alone. Qed.
#[local] Hint Resolve alone_settle : keeps.
Lemma alone_apply_batch b f s p : keeps left_alone (apply_batch b f s p : Cloud W _).
Proof. unfold apply_batch. alone. Qed.
Lemma alone_save f g : keeps left_alone (save_cursor f g : Cloud W unit).
Proof. unfold save_cursor. alone. Qed.
#[local] Hint Resolve alone_apply_batch alone_save : keeps.
Lemma alone_page c s p : keeps left_alone (pull_page persist others c s p).
Proof. unfold pull_page, fetch_page. alone. Qed.
#[local] Hint Resolve alone_page : keeps.
Lemma alone_pages n : forall c s p, keeps left_alone (pull_pages persist others n c s p).
Proof. induction n as [|n IH]; intros c s p; cbn [pull_pages]; alone. Qed.
#[local] Hint Resolve alone_pages : keeps.
Lemma alone_pull : keeps left_alone (pull_with_republish persist others).
Proof. unfold pull_with_republish. alone. Qed.
Lemma alone_removed : keeps left_alone (removed_check : Cloud W unit).
Proof. unfold removed_check. alone. Qed.
#[local] Hint Resolve alone_removed : keeps.
Lemma alone_group_row r : keeps left_alone (apply_group_row r : Cloud W unit).
Proof. unfold apply_group_row. alone. apply keeps_modify. intros d. by apply alone_same. Qed.
#[local] Hint Resolve alone_group_row : keeps.
Lemma alone_group_rows l : keeps left_alone (apply_group_rows l : Cloud W unit).
Proof. induction l as [|r l IH]; cbn [apply_group_rows]; alone. Qed.
#[local] Hint Resolve alone_group_rows : keeps.
Lemma alone_chunks l : keeps left_alone (download_chunks persist others l).
Proof. induction l as [|r l IH]; cbn [download_chunks]; alone. Qed.
#[local] Hint Resolve alone_chunks : keeps.
Lemma alone_catalog n id : forall c, keeps left_alone (catalog_loop persist others n id c).
Proof. induction n as [|n IH]; intros c; cbn [catalog_loop]; unfold download_groups; alone. Qed.
Lemma alone_publish id l t : keeps left_alone (publish_group persist others random id l t).
Proof. unfold publish_group. alone. apply keeps_modify. intros d. by apply alone_same. Qed.
#[local] Hint Resolve alone_catalog alone_publish alone_push alone_pull : keeps.
Lemma alone_group : keeps left_alone (sync_group persist others random).
Proof. unfold sync_group. alone. Qed.
#[local] Hint Resolve alone_group : keeps.

(** Once a session is fenced, by a sign-out or by a refused refresh token, a
    round of the driver leaves it as it is and sends its refresh token nowhere,
    whatever the service answers and however the round ends. *)
Theorem fenced_session_is_left_alone d r d' :
  ss_fenced (dr_session d) = true -> sync persist others random d = (r, d') ->
  dr_session d' = dr_session d /\ exists l, dr_calls d' = dr_calls d ++ l /\ count is_refreshed l = 0%nat.
Proof.
  intros Hf E. assert (H : keeps left_alone (sync persist others random)).
  { unfold sync. alone. apply keeps_modify. intros d0. by apply alone_same. }
  specialize (H d). rewrite E in H. by apply H.
Qed.
End Fence.

(** ** A service and a history to try it on *)

Module CloudDemo.
Record World := { w_seen : list LocalItem.t; w_at : Z; w_item : option string }.
Definition empty_world : World := {| w_seen := []; w_at := 0; w_item := None |}.
(** Three bytes in four characters, the last of which counts them. *)
Fixpoint pad (b : bytes) : bytes :=
  match b with
  | x :: y :: z :: b => x :: y :: z :: byte_of 3 :: pad b
  | [x; y] => [x; y; byte_of 0; byte_of 2]
  | [x] => [x; byte_of 0; byte_of 0; byte_of 1]
  | [] => []
  end.
Fixpoint unpad (b : bytes) : option bytes :=
  match b with
  | x :: y :: z :: n :: b =>
    rest ← unpad b;
    Some (take (Z.to_nat (byte_val n)) [x; y; z] ++ rest)
  | [] => Some []
  | _ => None
  end.
Lemma pad_ind (P : bytes -> Prop) :
  P [] -> (forall x, P [x]) -> (forall x y, P [x; y]) -> (forall x y z b, P b -> P (x :: y :: z :: b)) -> forall b, P b.
Proof.
  intros H0 H1 H2 H3. fix IH 1. intros [|x [|y [|z b]]]; [exact H0|exact (H1 x)|exact (H2 x y)|apply H3, IH].
Qed.
Lemma unpad_pad b : unpad (pad b) = Some b.
Proof. induction b as [| | |x y z b IH] using pad_ind; [done..|]. cbn. by rewrite IH. Qed.
Lemma len_pad b : len (pad b) = (len b + 2) / 3 * 4.
Proof.
  induction b as [| | |x y z b IH] using pad_ind; [done..|]. cbn [pad]. rewrite !len_cons, IH.
  replace (len b + 1 + 1 + 1 + 2) with ((len b + 2) + 1 * 3) by lia. rewrite Z.div_add; lia.
Qed.
#[export] Instance codecs : PayloadCodecs := {|
  serde_file_metadata := fun _ => None; serde_payload_metadata := fun _ => None; serde_payload_string := fun _ => None;
  base64_decode := fun t => unpad (as_bytes t); base64_encode := fun b => of_bytes (pad b); png_dimensions := fun _ => None |}.
#[export] Instance codec_laws : Base64Laws.
Proof.
  split; intros b; cbn; [by rewrite as_of_bytes, unpad_pad|by rewrite str_len_of_bytes, len_pad].
Qed.
Definition tag : bytes := repeat (byte_of 0) 16.
#[export] Instance key : SyncKey := {|
  row_aead_encrypt := fun _ _ p => Some (p ++ tag);
  row_aead_decrypt := fun _ _ c => Some (take (length c - 16) c);
  row_hmac := fun m => m |}.
#[export] Instance key_laws : SyncKeyLaws.
Proof.
  split. intros n a p c [= <-]. cbn. split.
  - rewrite length_app. cbn. rewrite Nat.add_sub. by rewrite take_app_length.
  - by rewrite len_app.
Qed.
#[export] Instance digest : Digest := {| sha256 := fun b => b; hex_encode := fun b => of_bytes b |}.
(** A service that answers a query for rows and refuses every refresh. *)
Definition service (query : Z -> option string -> Z -> list CloudItem.t) : Backend World := {|
  be_select := fun _ since after limit w => (Ok (query since after limit), w);
  be_insert := fun _ _ w => (Ok tt, w); be_catalog := fun _ _ w => (Ok [], w); be_groups := fun _ _ w => (Ok [], w);
  be_insert_group := fun _ _ w => (Ok tt, w); be_refresh := fun _ w => (Err AuthSessionExpired, w);
  be_now := fun _ => 5000 |}.
#[export] Instance history : CloudSource World := {|
  so_group_snapshot := fun w => (Ok None, w); so_apply_group := fun _ _ w => (Ok tt, w); so_group_sync_allowed := fun w => (true, w);
  so_device_id := fun w => ("here"%string, w); so_local_changes_after := fun _ _ w => (Ok [], w);
  so_apply_remote_batch := fun b w =>
    (Ok (repeat Merged (length b)), {| w_seen := w_seen w ++ b; w_at := w_at w; w_item := w_item w |});
  so_watermark := fun w => (Ok (w_at w), w); so_watermark_item_id := fun w => (Ok (w_item w), w);
  so_upload_floor := fun w => (Ok 0, w); so_upload_floor_item_id := fun w => (Ok None, w);
  so_requeue_local_winner := fun _ w => (Ok false, w);
  so_set_watermark_keyset := fun at_ id w => (Ok tt, {| w_seen := w_seen w; w_at := at_; w_item := Some id |}) |}.
Definition signed_in (fenced : bool) : Driver World :=
  {| dr_session := {| ss_session := {| access_token := "t"; refresh_token := "r"; user_id := "u"; expires_at_ms := 9000 |};
                      ss_revision := 0; ss_fenced := fenced |};
     dr_events := 0; dr_cadence := default_cadence; dr_push_channel := false; dr_downloaded := ∅; dr_uploaded := None;
     dr_world := empty_world; dr_awaits := 0; dr_calls := [] |}.
Definition no_others (_ : nat) (s : SessionState) : SessionState := s.
Definition no_random (w : World) : bytes * World := (repeat (byte_of 7) 24, w).
End CloudDemo.

Section FenceWitness.
#[local] Existing Instances CloudDemo.codecs CloudDemo.key CloudDemo.digest CloudDemo.history.
#[local] Instance answering : Backend CloudDemo.World := CloudDemo.service (fun _ _ _ => []).
Definition fenced_round : result CloudError SyncStats * Driver CloudDemo.World :=
  sync None CloudDemo.no_others CloudDemo.no_random (CloudDemo.signed_in true).
Lemma fenced_session_is_left_alone_witness :
  dr_session (fenced_round.2) = dr_session (CloudDemo.signed_in true) /\ length (dr_calls fenced_round.2) = 1%nat.
Proof.
  split; [|vm_compute; reflexivity].
  apply (fenced_session_is_left_alone None CloudDemo.no_others CloudDemo.no_random (fun _ _ _ => eq_refl)
           (CloudDemo.signed_in true) fenced_round.1 fenced_round.2); [reflexivity|].
  unfold fenced_round. by destruct (sync _ _ _ _).
Defined.
End FenceWitness.

(** A row that was signed, and the same row stamped later under its signature. *)
Section SignatureWitness.
#[local] Existing Instances CloudDemo.codecs CloudDemo.codec_laws CloudDemo.key CloudDemo.key_laws.
Definition signed_row : CloudItem.t := sign (CloudItem.tombstone "a" "text" 1000 "there").
Lemma signature_binds_the_row_witness :
  verify signed_row = Ok tt /\ CloudItem.signature signed_row <> ""%string /\
  CloudItem.with_signature (CloudItem.signature signed_row) (CloudItem.tombstone "a" "text" 1000 "there") = signed_row.
Proof.
  destruct (signature_binds_the_row (CloudItem.tombstone "a" "text" 1000 "there")) as [H1 H2].
  split; [exact H1|]. split; [vm_compute; discriminate|].
  destruct (H2 (CloudItem.with_signature (CloudItem.signature signed_row) (CloudItem.tombstone "a" "text" 1000 "there"))) as [H|[H _]].
  - reflexivity.
  - vm_compute. reflexivity.
  - exact H.
  - by destruct H.
Defined.
End SignatureWitness.
