(* ===== verification/CloudPull.v ===== *)
(** What a pull delivers and what a push seals: while the service answers and stands
    still, a pull gets past whatever is in its table to every row that is due, and a
    sealed version is read back as it was. *)

From S2P Require Import Prelude Float64 Bytes Text Wire Binary Merge Payload Settings Credentials Workspace Table Items ItemSafety Retention Organization Versions Scan LocalMerge Source CloudRow CloudClient Upload UploadSafety CloudSync CloudSafety.

(** ** The table of the service *)

(** A row the service's constraints let in: a stamp that is not negative and an
    id that can stand in a filter. *)
Definition admitted (r : CloudItem.t) : Prop :=
  0 <= CloudItem.created_at r /\ validate_item_id (CloudItem.item_id r) = Ok tt.
Definition row_before (a b : CloudItem.t) : Prop := floor_lt (row_floor a) (row_floor b).
(** The rows of an account, as [order=created_at.asc,item_id.asc] lists them. *)
Record table_ok (table : list CloudItem.t) : Prop := {
  table_admitted : Forall admitted table;
  table_sorted : StronglySorted row_before table;
}.
Definition rows_after (table : list CloudItem.t) (cursor : UploadFloor) : list CloudItem.t :=
  filter (fun r => floor_lt cursor (row_floor r)) table.
Definition page_of (table : list CloudItem.t) (since : Z) (after : option string) (limit : Z) : list CloudItem.t :=
  take (Z.to_nat limit) (rows_after table {| fl_at := since; fl_item := after |}).

Section Sorted.
Context (table : list CloudItem.t) (Ht : table_ok table).
Lemma after_elem cursor r : r ∈ rows_after table cursor -> admitted r /\ floor_lt cursor (row_floor r).
Proof.
  intros [Hr Hin]%list_elem_of_filter. split; [|done]. destruct Ht as [Ha _]. rewrite Forall_forall in Ha. by apply Ha.
Qed.
Lemma after_sorted cursor : StronglySorted row_before (rows_after table cursor).
Proof.
  destruct Ht as [_ Hs]. clear Ht. unfold rows_after. induction Hs as [|a l Hs IH Ha]; [constructor|]. rewrite filter_cons.
  case_decide; [|exact IH]. constructor; [exact IH|]. rewrite Forall_forall in Ha |- *.
  intros x [_ Hx]%list_elem_of_filter. by apply Ha.
Qed.
Lemma sorted_before l j k a b : StronglySorted row_before l -> l !! j = Some a -> l !! k = Some b -> (j < k)%nat -> row_before a b.
Proof.
  intros Hs; revert j k. induction Hs as [|x l Hs IH Hx]; intros [|j] [|k]; cbn; intros Ha Hb Hjk; try done; try lia.
  - injection Ha as ->. rewrite Forall_forall in Hx. by apply Hx, (list_elem_of_lookup_2 l k).
  - apply (IH j k); [done|done|lia].
Qed.
Lemma filter_all (P : CloudItem.t -> Prop) `{!forall x, Decision (P x)} l : Forall P l -> filter P l = l.
Proof. induction 1 as [|x l Hx _ IH]; [done|]. rewrite filter_cons, decide_True by done. by rewrite IH. Qed.
Lemma filter_none (P : CloudItem.t -> Prop) `{!forall x, Decision (P x)} l : Forall (fun x => ~ P x) l -> filter P l = [].
Proof. induction 1 as [|x l Hx _ IH]; [done|]. by rewrite filter_cons, decide_False. Qed.
(** The rows after a row of the list are the rest of the list. *)
Lemma after_row cursor l1 r l2 : rows_after table cursor = l1 ++ r :: l2 -> rows_after table (row_floor r) = l2.
Proof.
  intros E. pose proof (after_sorted cursor) as Hs. rewrite E in Hs.
  assert (Hr : floor_lt cursor (row_floor r)) by (apply after_elem; rewrite E; set_solver).
  assert (H : rows_after table (row_floor r) = filter (fun q => floor_lt (row_floor r) (row_floor q)) (rows_after table cursor)).
  { unfold rows_after. rewrite list_filter_filter. apply list_filter_iff. intros q. split; [|naive_solver].
    intros Hq. split; [done|]. by apply (floor_lt_trans _ (row_floor r)). }
  rewrite H, E, filter_app, filter_cons, decide_False by apply floor_lt_irrefl.
  rewrite filter_none, filter_all; [done| |].
  - apply StronglySorted_app_1_r in Hs. by inversion_clear Hs.
  - rewrite Forall_forall. intros q Hq Hlt. apply (floor_lt_irrefl (row_floor r)), (floor_lt_trans _ (row_floor q)); [done|].
    apply (StronglySorted_app_1_elem_of row_before _ _ q r Hs); set_solver.
Qed.
Lemma before_stamp a b : row_before a b -> CloudItem.created_at a <= CloudItem.created_at b.
Proof.
  unfold row_before, floor_lt, floor_cmp, row_floor, pair_cmp. cbn [fl_at fl_item fst snd].
  destruct (Z.compare_spec (CloudItem.created_at a) (CloudItem.created_at b)); cbn; [lia|lia|done].
Qed.
(** The client's own sorting changes nothing. *)
Lemma row_le_before a b : row_before a b -> row_le a b.
Proof.
  unfold row_before, row_le, floor_lt, floor_cmp, row_floor, row_key, pair_cmp. cbn.
  destruct (CloudItem.created_at a ?= CloudItem.created_at b); cbn; [|done|done]. by intros ->.
Qed.
#[export] Instance row_le_total : Total row_le.
Proof.
  intros a b. unfold row_le. rewrite (cmp_antisym (cmp:=key_order) (row_key a) (row_key b)).
  destruct (key_order (row_key a) (row_key b)); cbn; auto.
Qed.
#[export] Instance row_le_trans : Transitive row_le.
Proof.
  intros u v w. unfold row_le. rewrite !(cmp_gt_lt key_order). intros H1 H2 H3.
  destruct (key_order (row_key u) (row_key v)) eqn:E.
  - apply (cmp_eq_iff (cmp:=key_order)) in E. congruence.
  - apply H2. by eapply (cmp_trans (cmp:=key_order) _ (row_key u)).
  - apply (cmp_gt_lt key_order) in E. congruence.
Qed.
Lemma row_not_le a b : row_before a b -> ~ row_le b a.
Proof.
  unfold row_before, row_le, floor_lt, floor_cmp, row_floor, row_key, pair_cmp. cbn.
  rewrite (Z.compare_antisym (CloudItem.created_at a)), (cmp_antisym (cmp:=str_cmp) (CloudItem.item_id a)).
  destruct (CloudItem.created_at a ?= CloudItem.created_at b); cbn; [|by auto|done]. intros ->. by auto.
Qed.
Lemma sort_page_sorted l : StronglySorted row_before l -> sort_page l = l.
Proof.
  intros Hs. apply merge_sort_sorted.
  - apply _.
  - apply _.
  - intros x y (j & Hj)%list_elem_of_lookup (k & Hk)%list_elem_of_lookup Hxy Hyx.
    destruct (Nat.lt_trichotomy j k) as [H|[->|H]]; [|congruence|].
    + by destruct (row_not_le x y); [eapply sorted_before|].
    + by destruct (row_not_le y x); [eapply sorted_before|].
  - induction Hs as [|a l Hs IH Ha]; constructor; [done|]. eapply Forall_impl; [exact Ha|]. apply row_le_before.
Qed.
Lemma clamped_admitted r : admitted r -> clamped r = r.
Proof. intros [H _]. destruct r as [i c n t m b a at_ d o g]. cbn in H. unfold clamped, clamp_stamp. cbn. by rewrite Z.max_l. Qed.
Lemma arranged l : Forall admitted l -> StronglySorted row_before l -> sort_page (clamped <$> l) = l.
Proof.
  intros Ha Hs. assert (E : clamped <$> l = l).
  { clear Hs. induction Ha as [|r l Hr _ IH]; [done|]. cbn. by rewrite clamped_admitted, IH. }
  rewrite E. by apply sort_page_sorted.
Qed.
End Sorted.

(** ** One page *)

Section Sift.
Context {PC : PayloadCodecs} {SK : SyncKey} (now : Z).
Definition accepted (r : CloudItem.t) : option LocalItem.t :=
  match verdict now r with Accepted i => Some i | _ => None end.
(** The rows the cursor may stop at: those let in, and those refused whose stamp
    is not ahead of the clock. *)
Definition passable (r : CloudItem.t) : Prop :=
  match verdict now r with Accepted _ => True | Future => False | _ => CloudItem.created_at r <= now end.
Lemma decide_pass r : passable r \/ ~ passable r.
Proof. unfold passable. destruct (verdict now r); auto; lia. Qed.
Lemma accepted_floor r i : accepted r = Some i -> batch_floor i = row_floor r.
Proof.
  unfold accepted, verdict. intros H. repeat (case_match; try done); simplify_eq; done.
Qed.
Lemma not_passable_ahead r : ~ passable r -> in_i64 now -> now < CloudItem.created_at r.
Proof.
  unfold passable, verdict, i64_saturating_add, MAX_FUTURE_SKEW_MS, in_i64. intros H Hn.
  destruct (Z.gtb_spec (CloudItem.created_at r) (Z.max i64_min (Z.min i64_max (now + 24 * 60 * 60 * 1000)))); [unfold i64_max, i64_min in *; lia|].
  repeat (case_match; try lia); try done.
Qed.
Lemma passable_accepted r i : accepted r = Some i -> passable r.
Proof. unfold accepted, passable. by destruct (verdict now r). Qed.

(** What a page does to the cursor before and after its batch is handed over. *)
Definition refuse_step (f : UploadFloor) (r : CloudItem.t) : UploadFloor :=
  match verdict now r with
  | Accepted _ | Future => f
  | _ => advance_after_refusal (row_floor r) now f
  end.
Lemma sift_spec rows : forall batch f s, exists s',
  sift now rows batch f s = (batch ++ omap accepted rows, foldl refuse_step f rows, s').
Proof.
  induction rows as [|r rows IH]; intros batch f s; cbn [sift]; [exists s; by rewrite app_nil_r|].
  cbn [omap list_omap foldl]. unfold accepted at 1, refuse_step at 2.
  destruct (verdict now r) as [i| | | |]; cbn; try apply IH.
  destruct (IH (batch ++ [i]) f s) as (s' & E). exists s'. by rewrite E, <- app_assoc.
Qed.
Definition reached (f : UploadFloor) (rows : list CloudItem.t) : UploadFloor :=
  match last (omap accepted rows) with
  | Some i => advance_past (batch_floor i) (foldl refuse_step f rows)
  | None => foldl refuse_step f rows
  end.
Lemma advance_past_lt f g : floor_lt f g -> advance_past g f = g.
Proof. intros H. unfold advance_past. by rewrite (proj2 (floor_gt_true g f)). Qed.
Lemma advance_past_gt f g : floor_lt g f -> advance_past g f = f.
Proof. intros H. unfold advance_past. by rewrite (proj2 (floor_gt_false g f)) by (by apply floor_lt_asym). Qed.

(** A page stops at its last passable row. *)
Definition stop (f : UploadFloor) (rows : list CloudItem.t) : UploadFloor := default f (row_floor <$> last rows).
Lemma step_accepted f r i : accepted r = Some i -> refuse_step f r = f.
Proof. unfold accepted, refuse_step. by destruct (verdict now r). Qed.
Lemma step_blocked f r : ~ passable r -> refuse_step f r = f.
Proof.
  unfold passable, refuse_step, advance_after_refusal. intros H.
  destruct (verdict now r); try done; by rewrite (proj2 (Z.leb_gt _ _)) by (apply Z.nle_gt; exact H).
Qed.
Lemma step_refused f r : accepted r = None -> passable r -> floor_lt f (row_floor r) -> refuse_step f r = row_floor r.
Proof.
  unfold accepted, passable, refuse_step, advance_after_refusal. intros Hn Hp Hlt.
  destruct (verdict now r); try done; (rewrite (proj2 (Z.leb_le _ _)) by exact Hp; by apply advance_past_lt).
Qed.
Lemma steps_bounded rows g : forall f, floor_lt f g -> (forall r, r ∈ rows -> floor_lt (row_floor r) g) ->
  floor_lt (foldl refuse_step f rows) g.
Proof.
  induction rows as [|r rows IH]; intros f Hf Hr; [done|]. cbn. apply IH; [|set_solver].
  assert (Hg : floor_lt (row_floor r) g) by (apply Hr; set_solver).
  unfold refuse_step, advance_after_refusal, advance_past. by repeat case_match.
Qed.
Lemma reached_split f rows :
  StronglySorted row_before rows -> (forall r, r ∈ rows -> floor_lt f (row_floor r)) ->
  exists l1 l2, rows = l1 ++ l2 /\ reached f rows = stop f l1 /\ Forall (fun r => ~ passable r) l2.
Proof.
  induction rows as [|r rows IH] using rev_ind; intros Hs Hf.
  { by exists [], []. }
  destruct IH as (l1 & l2 & -> & Hreach & Hl2); [by apply StronglySorted_app_1_l in Hs|set_solver|].
  assert (Hb : forall q, q ∈ l1 ++ l2 -> floor_lt (row_floor q) (row_floor r)).
  { intros q Hq. apply (StronglySorted_app_1_elem_of row_before _ _ q r Hs Hq). set_solver. }
  assert (Hlt : floor_lt (foldl refuse_step f (l1 ++ l2)) (row_floor r)) by (apply steps_bounded; [apply Hf; set_solver|exact Hb]).
  assert (Hall : exists l, (l1 ++ l2) ++ [r] = l ++ [] /\ stop f l = row_floor r).
  { exists ((l1 ++ l2) ++ [r]). unfold stop. rewrite app_nil_r, last_snoc. done. }
  unfold reached. rewrite omap_app, foldl_app. cbn [omap list_omap foldl].
  destruct (accepted r) as [i|] eqn:Hacc.
  - destruct Hall as (l & El & Hl). exists l, []. split_and!; [done| |done].
    by rewrite last_snoc, (step_accepted _ _ _ Hacc), (accepted_floor _ _ Hacc), Hl, advance_past_lt.
  - rewrite app_nil_r. destruct (decide_pass r) as [Hp|Hp].
    + destruct Hall as (l & El & Hl). exists l, []. split_and!; [done| |done]. rewrite step_refused, Hl by done.
      destruct (last (omap accepted (l1 ++ l2))) as [i|] eqn:Hi; [|done]. apply advance_past_gt.
      apply last_Some_elem_of, list_elem_of_omap in Hi as (q & Hq & Hqi). rewrite (accepted_floor _ _ Hqi). by apply Hb.
    + exists l1, (l2 ++ [r]). rewrite (step_blocked _ _ Hp). split_and!; [by rewrite app_assoc|exact Hreach|].
      apply Forall_app. by split; [|constructor].
Qed.
End Sift.

(** ** A pull *)

Section Pull.
Context {PC : PayloadCodecs} {SK : SyncKey} {DG : Digest} {W : Type} {BE : Backend W} {SO : CloudSource W}.
Context (persist : option (Session -> W -> result CloudError unit * W))
        (others : nat -> SessionState -> SessionState) (random : W -> bytes * W).
(** The rows of the account, what the history was handed, and the time: the
    service answers the query it is asked, the history takes its pages, and the
    cursor that is stored is the one that is read. *)
Context (table : list CloudItem.t) (delivered : W -> list LocalItem.t) (cursor : W -> UploadFloor) (now : Z).
Record healthy : Prop := {
  he_table : table_ok table;
  he_now : in_i64 now;
  he_clock w : be_now w = now;
  he_select token since after limit w : be_select token since after limit w = (Ok (page_of table since after limit), w);
  he_at w : so_watermark w = (Ok (fl_at (cursor w)), w);
  he_item w : so_watermark_item_id w = (Ok (fl_item (cursor w)), w);
  he_apply batch w : exists outcomes w', so_apply_remote_batch batch w = (Ok outcomes, w') /\
    length outcomes = length batch /\ delivered w' = delivered w ++ batch /\ cursor w' = cursor w;
  he_requeue i w : exists again w', so_requeue_local_winner i w = (Ok again, w') /\ delivered w' = delivered w /\
    cursor w' = cursor w;
  he_move at_ id w : exists w', so_set_watermark_keyset at_ id w = (Ok tt, w') /\ delivered w' = delivered w /\
    cursor w' = {| fl_at := at_; fl_item := Some id |};
}.
Context (He : healthy).
Definition cursor_ok (c : UploadFloor) : Prop :=
  0 <= fl_at c /\ forall id, fl_item c = Some id -> validate_item_id id = Ok tt.

Lemma execute_ok {A} (op : string -> W -> result TransportFault A * W) a d w :
  op (access_token (ss_session (dr_session d))) (dr_world d) = (Ok a, w) ->
  exists d', execute persist others op d = (Ok a, d') /\ dr_world d' = w.
Proof.
  intros E. unfold execute, EXECUTE_FUEL. cbn [execute_loop]. unfold try_once. rewrite E. cbn. eexists. by split.
Qed.
Lemma fetch_page_ok c d : cursor_ok c ->
  exists d', fetch_page persist others c d = (Ok (page_of table (fl_at c) (fl_item c) PULL_PAGE_LIMIT), d') /\
    dr_world d' = dr_world d.
Proof.
  intros [Hc Hid]. apply execute_ok. unfold rest, fetch_since, checked.
  assert (E : match fl_item c with Some id => validate_item_id id | None => Ok tt end = Ok tt) by (destruct (fl_item c); auto).
  rewrite E. unfold rest_send. rewrite Z.max_l by done. unfold RETRY_MAX_RETRIES. cbn [send]. by rewrite (he_select He).
Qed.
Lemma settle_ok outcomes : forall s again d, exists s' again' d',
  settle outcomes s again d = (Ok (s', again'), d') /\ delivered (dr_world d') = delivered (dr_world d) /\
  cursor (dr_world d') = cursor (dr_world d).
Proof.
  induction outcomes as [|[|i] outcomes IH]; intros s again d; cbn [settle].
  - by exists s, again, d.
  - apply IH.
  - unfold mbind, cloud_bind, source_call. destruct (he_requeue He i (dr_world d)) as (b & w & E & H1 & H2). rewrite E.
    destruct (IH s (again || b) (with_world w d)) as (s' & a' & d' & E' & K1 & K2). exists s', a', d'. rewrite E'.
    cbn in K1, K2. split_and!; congruence.
Qed.
Lemma apply_batch_ok batch f s again d : exists s' again' d',
  apply_batch batch f s again d
  = (Ok (match last batch with Some i => advance_past (batch_floor i) f | None => f end, s', again'), d') /\
  delivered (dr_world d') = delivered (dr_world d) ++ batch /\
  cursor (dr_world d') = cursor (dr_world d).
Proof.
  destruct batch as [|i batch]; [exists s, again, d; by rewrite app_nil_r|]. set (b := i :: batch). unfold apply_batch.
  change (match b with [] => mret (f, s, again) | _ :: _ => _ end) with
    (outcomes ← (source_call (so_apply_remote_batch b) : Cloud W (list Applied));
     if negb (length outcomes =? length b)%nat then fail (SourceFailed MSG_BATCH_ARITY)
     else '(s, again) ← settle outcomes s again;
          mret (match last b with Some i => advance_past (batch_floor i) f | None => f end, s, again) : Cloud W _).
  unfold mbind, cloud_bind, source_call. destruct (he_apply He b (dr_world d)) as (o & w & E & Hl & H1 & H2). rewrite E.
  rewrite (proj2 (Nat.eqb_eq _ _) Hl). cbn [negb].
  destruct (settle_ok o s again (with_world w d)) as (s' & a' & d' & E' & K1 & K2). rewrite E'.
  exists s', a', d'. cbn in K1, K2. split_and!; [done|congruence..].
Qed.
Lemma blocked_delivers l : Forall (fun r => ~ passable now r) l -> omap (accepted now) l = [].
Proof.
  induction 1 as [|r l Hr _ IH]; [done|]. cbn. destruct (accepted now r) as [i|] eqn:E; [|done].
  by destruct Hr; apply (passable_accepted now r i).
Qed.
Lemma save_cursor_ok c l d : (forall r, r ∈ l -> floor_lt c (row_floor r)) -> cursor (dr_world d) = c ->
  exists d', save_cursor (stop c l) c d = (Ok tt, d') /\ cursor (dr_world d') = stop c l /\
    delivered (dr_world d') = delivered (dr_world d).
Proof.
  intros Hl Hc. unfold save_cursor. case_decide as E; [rewrite E; by exists d|].
  unfold stop in *. destruct (last l) as [r|] eqn:Hr; [|done]. cbn in *. unfold source_call.
  destruct (he_move He (CloudItem.created_at r) (CloudItem.item_id r) (dr_world d)) as (w & E' & H1 & H2). rewrite E'.
  eexists. split; [done|]. by split.
Qed.
Definition page_over (c : UploadFloor) (l : list CloudItem.t) : bool :=
  (Z.of_nat (length (take 100 (rows_after table c))) <? PULL_PAGE_LIMIT) || bool_decide (l = []).
Lemma pull_page_ok c s again d : cursor_ok c -> cursor (dr_world d) = c -> exists l1 l2 s' again' d',
  take 100 (rows_after table c) = l1 ++ l2 /\ Forall (fun r => ~ passable now r) l2 /\
  pull_page persist others c s again d = (Ok (stop c l1, s', again', page_over c l1), d') /\
  cursor (dr_world d') = stop c l1 /\ delivered (dr_world d') = delivered (dr_world d) ++ omap (accepted now) l1.
Proof.
  intros Hok Hc. unfold pull_page, mbind, cloud_bind. destruct (fetch_page_ok c d Hok) as (d1 & -> & Hd1). cbn [gets].
  assert (Ep : page_of table (fl_at c) (fl_item c) PULL_PAGE_LIMIT = take 100 (rows_after table c)) by (by destruct c).
  rewrite Ep. unfold page_over. set (rows := take 100 (rows_after table c)) in *. rewrite (he_clock He).
  assert (Hrows : forall r, r ∈ rows -> admitted r /\ floor_lt c (row_floor r)).
  { intros r Hr%elem_take. by apply (after_elem table (he_table He)). }
  assert (Hs : StronglySorted row_before rows) by (by apply take_sorted, after_sorted, (he_table He)).
  rewrite arranged by (done || (rewrite Forall_forall; intros r Hr; by apply Hrows)).
  destruct (sift_spec now rows [] c (add_downloaded (Z.of_nat (length rows)) s)) as (s1 & ->). cbn [app].
  destruct (apply_batch_ok (omap (accepted now) rows) (foldl (refuse_step now) c rows) s1 again d1)
    as (s2 & a2 & d2 & -> & Hd & Hw).
  change (match last (omap (accepted now) rows) with Some i => _ | None => _ end) with (reached now c rows).
  destruct (reached_split now c rows Hs) as (l1 & l2 & El & Hreach & Hl2); [intros r Hr; by apply Hrows|]. rewrite Hreach.
  destruct (save_cursor_ok c l1 d2) as (d3 & -> & Hc3 & Hd3).
  { intros r Hr. apply Hrows. rewrite El. set_solver. }
  { congruence. }
  assert (Eb : bool_decide (stop c l1 = c) = bool_decide (l1 = [])).
  { apply bool_decide_ext. unfold stop. destruct (last l1) as [r|] eqn:Hr.
    - split; [|by intros ->]. cbn. intros E. destruct (floor_lt_irrefl c). rewrite <- E at 2. apply Hrows. rewrite El.
      apply last_Some_elem_of in Hr. set_solver.
    - split; [|done]. by apply last_None in Hr. }
  exists l1, l2, s2, a2, d3. rewrite Eb. split_and!; [done|done|done|done|].
  rewrite Hd3, Hd, Hd1, El, omap_app, (blocked_delivers l2), app_nil_r by done. done.
Qed.
Lemma stop_ok c l k : cursor_ok c -> rows_after table c = l ++ k -> cursor_ok (stop c l).
Proof.
  intros Hc E. unfold stop. destruct (last l) as [r|] eqn:Hr; [|done].
  destruct (after_elem table (he_table He) c r) as [[H1 H2] _]; [rewrite E; apply last_Some_elem_of in Hr; set_solver|].
  split; [done|]. by intros id [= <-].
Qed.
Lemma stop_rest c l k : rows_after table c = l ++ k -> rows_after table (stop c l) = k.
Proof.
  intros E. unfold stop. destruct (last l) as [r|] eqn:Hr; [|apply last_None in Hr as ->; done].
  apply last_Some in Hr as (l' & ->). apply (after_row table (he_table He) c l'). by rewrite E, <- app_assoc.
Qed.
Lemma stop_app c l k : stop (stop c l) k = stop c (l ++ k).
Proof. unfold stop. destruct k as [|r k _] using rev_ind; [by rewrite app_nil_r|]. by rewrite app_assoc, !last_snoc. Qed.
(** From a blocked row on, every row is ahead of the clock. *)
Lemma ahead_from c l q k j r : rows_after table c = l ++ q :: k -> ~ passable now q ->
  rows_after table c !! j = Some r -> (length l <= j)%nat -> now < CloudItem.created_at r.
Proof.
  intros E Hq Hj Hle. apply (not_passable_ahead now) in Hq; [|exact (he_now He)].
  pose proof (after_sorted table (he_table He) c) as Hs. rewrite E in Hj, Hs. rewrite lookup_app_r in Hj by done.
  destruct (j - length l)%nat as [|m]; [by injection Hj as <-|]. apply StronglySorted_app_1_r in Hs. inversion_clear Hs as [|? ? _ Hb].
  cbn in Hj. rewrite Forall_forall in Hb. apply list_elem_of_lookup_2, Hb, before_stamp in Hj. lia.
Qed.
Lemma drain n : forall c s again d, cursor_ok c -> cursor (dr_world d) = c -> exists k s' again' d',
  pull_pages persist others n c s again d = (Ok (s', again'), d') /\
  cursor (dr_world d') = stop c (take k (rows_after table c)) /\
  delivered (dr_world d') = delivered (dr_world d) ++ omap (accepted now) (take k (rows_after table c)) /\
  forall j r, rows_after table c !! j = Some r -> (j < n * 100)%nat -> CloudItem.created_at r <= now -> (j < k)%nat.
Proof.
  induction n as [|n IH]; intros c s again d Hok Hc; cbn [pull_pages].
  { exists 0%nat, s, again, d. rewrite take_0, app_nil_r. split_and!; [done|done|done|]. intros. lia. }
  unfold mbind, cloud_bind. destruct (pull_page_ok c s again d Hok Hc) as (l1 & l2 & s1 & a1 & d1 & El & Hl2 & -> & Hc1 & Hd1).
  set (L := rows_after table c) in *. set (rest := drop 100 L).
  assert (EL : L = l1 ++ l2 ++ rest) by (rewrite app_assoc, <- El; symmetry; apply take_drop).
  assert (Et : take (length l1) L = l1) by (by rewrite EL, take_app_length).
  assert (Hahead : forall j r, L !! j = Some r -> (length l1 <= j)%nat -> l2 <> [] -> now < CloudItem.created_at r).
  { intros j r Hj Hle Hne. destruct l2 as [|q l2]; [done|]. apply Forall_cons in Hl2 as [Hq _]. by apply (ahead_from c l1 q (l2 ++ rest) j). }
  assert (Hlen : (length l1 + length l2 = Nat.min 100 (length L))%nat).
  { by rewrite <- length_app, <- El, length_take. }
  unfold page_over. destruct (_ || _) eqn:Ho.
  - exists (length l1), s1, a1, d1. rewrite Et. split_and!; [done..|]. intros j r Hj Hlt Hr.
    destruct (decide (length l1 <= j)%nat) as [Hle|]; [|lia]. pose proof (Hahead j r Hj Hle) as Ha.
    destruct l2 as [|q l2]; [|specialize (Ha ltac:(done)); lia]. apply orb_prop in Ho as [Ho%Z.ltb_lt|Ho%bool_decide_eq_true].
    + fold L in Ho. rewrite length_take in Ho. apply lookup_lt_Some in Hj. unfold PULL_PAGE_LIMIT in Ho. cbn [length] in Hlen. lia.
    + subst l1. apply lookup_lt_Some in Hj. cbn [length] in Hlen. lia.
  - pose proof (stop_rest c l1 (l2 ++ rest) EL) as Er.
    destruct (IH (stop c l1) s1 a1 d1) as (k & s2 & a2 & d2 & -> & Hc2 & Hd2 & Hk); [by eapply stop_ok|done|].
    rewrite Er in *. exists (length l1 + k)%nat, s2, a2, d2.
    assert (Ek : take (length l1 + k) L = l1 ++ take k (l2 ++ rest)) by (by rewrite EL, take_app_add).
    rewrite Ek, <- stop_app, omap_app. split_and!; [done|done|by rewrite Hd2, Hd1, app_assoc|].
    intros j r Hj Hlt Hr. destruct (decide (length l1 <= j)%nat) as [Hle|]; [|lia].
    destruct l2 as [|q l2]; [|specialize (Hahead j r Hj Hle ltac:(done)); lia].
    apply orb_false_elim in Ho as [Ho%Z.ltb_ge _]. fold L in Ho. rewrite length_take in Ho. unfold PULL_PAGE_LIMIT in Ho. cbn [length] in Hlen.
    assert (Hjk : (j - length l1 < k)%nat); [|lia]. apply (Hk _ r); [|lia|done].
    rewrite EL, lookup_app_r in Hj by done. done.
Qed.
(** C13: What is ahead of a row in the table does not keep a pull from it. While the
    service and the history answer, the service's table and the clock stand still,
    its rows pass the constraints of the schema and it orders ids of one stamp byte
    by byte as the client does, a pull from a cursor that can stand in a filter
    ends; it hands the history exactly the rows after its cursor that are signed,
    open, fit and are at most a day ahead of the clock, in order and each once, up
    to some row; that row is past every row stamped up to now among the first 5000,
    whatever else an attacker who can write to the account put between them, however
    it is stamped; and the cursor that is kept is where the next pull goes on. A row
    that is uploaded later with a stamp behind the cursor is not after it, and so is
    not delivered by any pull ([late_upload_is_never_pulled]). *)
Theorem pull_delivers_what_is_due c d : cursor_ok c -> cursor (dr_world d) = c ->
  exists k s again d' c', pull_with_republish persist others d = (Ok (s, again), d') /\
    delivered (dr_world d') = delivered (dr_world d) ++ omap (accepted now) (take k (rows_after table c)) /\
    (forall j r, rows_after table c !! j = Some r -> (j < 5000)%nat -> CloudItem.created_at r <= now -> (j < k)%nat) /\
    cursor (dr_world d') = c' /\ rows_after table c' = drop k (rows_after table c).
Proof.
  intros Hok Hc. unfold pull_with_republish, source_call, mbind, cloud_bind. rewrite (he_at He). cbn [dr_world with_world].
  rewrite (he_item He), Hc. cbn [dr_world with_world].
  assert (E : {| fl_at := fl_at c; fl_item := fl_item c |} = c) by (by destruct c). rewrite E.
  assert (Ed : forall w, with_world w (with_world w d) = with_world w d) by done. rewrite Ed.
  destruct (drain MAX_PAGES_PER_PULL c no_stats false (with_world (dr_world d) d) Hok Hc) as (k & s & a & d' & -> & Hc' & Hd & Hk).
  exists k, s, a, d', (stop c (take k (rows_after table c))). split_and!; [done|done|exact Hk|done|].
  apply stop_rest. symmetry. apply take_drop.
Qed.
End Pull.

(** ** Round trip *)

Section Seal.
Context {PC : PayloadCodecs} {SK : SyncKey} {SL : SyncKeyLaws} {BL : Base64Laws}.
(** A version as another device reads it. *)
Definition as_read (device_id : string) (i : LocalItem.t) : LocalItem.t :=
  {| LocalItem.item_id := LocalItem.item_id i;
     LocalItem.content := if LocalItem.deleted i then [] else LocalItem.content i;
     LocalItem.content_type := LocalItem.content_type i;
     LocalItem.payload_metadata := if LocalItem.deleted i then None else LocalItem.payload_metadata i;
     LocalItem.created_at := LocalItem.created_at i; LocalItem.deleted := LocalItem.deleted i;
     LocalItem.origin_device_id :=
       if String.eqb (LocalItem.origin_device_id i) "" then device_id else LocalItem.origin_device_id i;
     LocalItem.source_app_bundle_id := if LocalItem.deleted i then None else LocalItem.source_app_bundle_id i;
     LocalItem.source_app_name := if LocalItem.deleted i then None else LocalItem.source_app_name i |}.
Lemma clamped_id r : 0 <= CloudItem.created_at r -> clamped r = r.
Proof. intros H. destruct r. unfold clamped, clamp_stamp. cbn in *. by rewrite Z.max_l. Qed.
Lemma too_large_bytes t n : too_large_to_sync t n = false -> n <= MAX_CONTENT_BYTES.
Proof. unfold too_large_to_sync. lia. Qed.
Lemma gtb_le a b : a <= b -> (a >? b) = false.
Proof. lia. Qed.

Lemma seal_item_read device_id drawn now i s :
  LocalItem.deleted i = true \/ len drawn = NONCE_LEN -> 0 <= LocalItem.created_at i ->
  LocalItem.created_at i <= i64_saturating_add now MAX_FUTURE_SKEW_MS ->
  match seal_item device_id drawn i s with
  | Ok (Some r, _) => verdict now (clamped r) = Accepted (as_read device_id i)
  | Ok (None, s') => LocalItem.deleted i = false /\ MAX_CONTENT_BYTES < len (LocalItem.content i) /\ s' = add_too_large s
  | Err e => e = EncryptFailed /\
      row_aead_encrypt drawn (cloud_aad (LocalItem.item_id i)) (LocalItem.content i) = None
  end.
Proof.
  intros Hdrawn Hpos Hnow. unfold seal_item. set (origin := if String.eqb _ _ then _ else _). destruct (LocalItem.deleted i) eqn:Hdel.
  - rewrite clamped_id by done. unfold verdict. rewrite verify_sign. cbn.
    rewrite gtb_le by done. unfold as_read. by rewrite Hdel.
  - destruct (too_large_to_sync _ _) eqn:Hbig; [split_and!; [done| |done]; unfold too_large_to_sync in Hbig; lia|].
    destruct (encrypt_row _ _ _) as [[nonce c]|e] eqn:Henc; cbn; [|split; [done|]].
    + destruct Hdrawn as [|Hdrawn]; [congruence|]. apply sealed_row_opens in Henc as [Hopen Hlen]; [|done]. rewrite clamped_id by done. unfold verdict. rewrite verify_sign. cbn.
      rewrite Hopen, Hbig. unfold as_read. rewrite Hdel.
      pose proof (too_large_bytes _ _ Hbig) as Hle.
      assert (Hc : ciphertext_exceeds_content_limit c = false).
      { unfold ciphertext_exceeds_content_limit, encoded_len. rewrite Hlen. apply gtb_le.
        apply Z.mul_le_mono_nonneg_r; [lia|]. apply Z.div_le_mono; lia. }
      by rewrite Hc, gtb_le.
    + unfold encrypt_row in Henc. by destruct (row_aead_encrypt _ _ _).
Qed.
(** C14: What a device uploads another reads as it was.  Sealing a version fails
    only when the cipher does, and withholds only a live version over the content
    cap; the row it gives, taken from a page by a device with the same passphrase
    whose clock is at most a day behind the stamp, is that version in every field,
    with this device as the origin of what was captured here, and a deletion
    carries nothing but itself. *)
Theorem sealed_version_is_read_back device_id drawn now i s :
  len drawn = NONCE_LEN -> 0 <= LocalItem.created_at i ->
  LocalItem.created_at i <= i64_saturating_add now MAX_FUTURE_SKEW_MS ->
  match seal_item device_id drawn i s with
  | Ok (Some r, _) => verdict now (clamped r) = Accepted (as_read device_id i)
  | Ok (None, s') => LocalItem.deleted i = false /\ MAX_CONTENT_BYTES < len (LocalItem.content i) /\ s' = add_too_large s
  | Err e => e = EncryptFailed /\
      row_aead_encrypt drawn (cloud_aad (LocalItem.item_id i)) (LocalItem.content i) = None
  end.
Proof. intros H. apply seal_item_read. by right. Qed.
End Seal.

(** ** An account *)

#[local] Existing Instances CloudDemo.codecs CloudDemo.codec_laws CloudDemo.key CloudDemo.key_laws CloudDemo.digest CloudDemo.history.
Module PullDemo.
Definition note (id text : string) (at_ : Z) : LocalItem.t :=
  {| LocalItem.item_id := id; LocalItem.content := as_bytes text; LocalItem.content_type := "text";
     LocalItem.payload_metadata := None; LocalItem.created_at := at_; LocalItem.deleted := false;
     LocalItem.origin_device_id := ""; LocalItem.source_app_bundle_id := None; LocalItem.source_app_name := Some "Notes"%string |}.
Definition drawn : bytes := repeat (byte_of 7) 24.
Definition no_row : CloudItem.t := CloudItem.tombstone "x" "text" 0 "".
Definition row (i : LocalItem.t) : CloudItem.t :=
  match seal_item "there" drawn i no_stats with Ok (Some r, _) => r | _ => no_row end.
Definition forged (id : string) (at_ : Z) : CloudItem.t := CloudItem.tombstone id "text" at_ "there".
(** A forged deletion before a note, one after it, and one ahead of the clock. *)
Definition table : list CloudItem.t :=
  [forged "a" 1000; row (note "b" "hello" 2000); forged "c" 2000; forged "d" 6000].
(** The same, with a note that was written before the first and came later. *)
Definition later : list CloudItem.t :=
  [forged "a" 1000; row (note "e" "late" 1500); row (note "b" "hello" 2000); forged "c" 2000; forged "d" 6000].
Definition pull_of (t : list CloudItem.t) (d : Driver CloudDemo.World) : Driver CloudDemo.World :=
  (pull_with_republish (BE := CloudDemo.service (page_of t)) None CloudDemo.no_others d).2.
Definition once : Driver CloudDemo.World := pull_of table (CloudDemo.signed_in false).
Definition twice : Driver CloudDemo.World := pull_of later once.
Lemma sorted_by_computation l :
  (fix go (l : list CloudItem.t) : bool :=
     match l with [] => true | a :: l => forallb (fun b => bool_decide (row_before a b)) l && go l end) l = true ->
  StronglySorted row_before l.
Proof.
  induction l as [|a l IH]; [constructor|]. intros [H1 H2]%andb_prop. constructor; [by apply IH|].
  rewrite Forall_forall. rewrite forallb_forall in H1. intros b Hb%list_elem_of_In. specialize (H1 b Hb). by apply bool_decide_eq_true in H1.
Qed.
Lemma table_is_ok : table_ok table.
Proof.
  split; [|apply sorted_by_computation; vm_compute; reflexivity].
  repeat (constructor; [split; [vm_compute; discriminate|vm_compute; reflexivity]|]). constructor.
Qed.
Definition kept (w : CloudDemo.World) : UploadFloor := {| fl_at := CloudDemo.w_at w; fl_item := CloudDemo.w_item w |}.
Lemma is_healthy : healthy (BE := CloudDemo.service (page_of table)) table CloudDemo.w_seen kept 5000.
Proof.
  split; try done.
  - exact table_is_ok.
  - intros b w. eexists _, _. split; [reflexivity|]. by rewrite repeat_length.
  - intros i w. eexists _, _. split; [reflexivity|done].
  - intros at_ id w. eexists. split; [reflexivity|done].
Qed.
Lemma start_cursor : cursor_ok floor_zero.
Proof. by split. Qed.
End PullDemo.

Lemma pull_delivers_what_is_due_witness :
  exists k s again d', pull_with_republish (BE := CloudDemo.service (page_of PullDemo.table)) None CloudDemo.no_others
    (CloudDemo.signed_in false) = (Ok (s, again), d') /\
    CloudDemo.w_seen (dr_world d') = omap (accepted 5000) (take k PullDemo.table) /\ (1 < k)%nat.
Proof.
  destruct (pull_delivers_what_is_due (BE := CloudDemo.service (page_of PullDemo.table)) None CloudDemo.no_others
    PullDemo.table CloudDemo.w_seen PullDemo.kept 5000 PullDemo.is_healthy floor_zero (CloudDemo.signed_in false) PullDemo.start_cursor
    eq_refl) as (k & s & a & d' & c' & E & Hd & Hk & _).
  assert (Hall : rows_after PullDemo.table floor_zero = PullDemo.table) by (vm_compute; reflexivity).
  rewrite Hall in Hd, Hk. exists k, s, a, d'. split; [exact E|]. split; [exact Hd|].
  apply (Hk 1%nat (PullDemo.row (PullDemo.note "b" "hello" 2000))); [reflexivity|lia|vm_compute; discriminate].
Defined.
Lemma sealed_version_is_read_back_witness :
  verdict 5000 (clamped (PullDemo.row (PullDemo.note "b" "hello" 2000)))
  = Accepted (as_read "there" (PullDemo.note "b" "hello" 2000)).
Proof.
  assert (H : len PullDemo.drawn = NONCE_LEN) by (vm_compute; reflexivity).
  pose proof (sealed_version_is_read_back "there" PullDemo.drawn 5000 (PullDemo.note "b" "hello" 2000) no_stats H
    ltac:(vm_compute; discriminate) ltac:(vm_compute; discriminate)) as Hs.
  unfold PullDemo.row. destruct (seal_item _ _ _ _) as [[[r|] s]|e] eqn:E; [exact Hs|destruct Hs as (_ & Hs & _)|destruct Hs as (_ & Hs)].
  - vm_compute in Hs. discriminate.
  - vm_compute in Hs. discriminate.
Defined.
(** A note that was written before the cursor and uploaded after it moved is in
    the account and is never pulled. *)
Example late_upload_is_never_pulled :
  LocalItem.item_id <$> CloudDemo.w_seen (dr_world PullDemo.once) = ["b"%string] /\
  accepted 5000 (PullDemo.row (PullDemo.note "e" "late" 1500)) <> None /\
  dr_world PullDemo.twice = dr_world PullDemo.once.
Proof. split_and!; [vm_compute; reflexivity|vm_compute; discriminate|vm_compute; reflexivity]. Qed.
