(* ===== verification/CloudPush.v ===== *)
(** What a successful upload has done: every version it was offered is in a row
    the service accepted, and another device reads that row as the version. *)

From S2P Require Import Prelude Float64 Bytes Text Wire Binary Merge Payload Settings Credentials Workspace Table Items ItemSafety Retention Organization Versions Scan LocalMerge Source CloudRow CloudClient Upload UploadSafety CloudSync CloudSafety CloudPull.

(** ** Chunks *)

Lemma chunks_fuel_concat {A} n fuel : forall l : list A, (0 < n)%nat -> (length l <= fuel)%nat -> concat (chunks_fuel fuel n l) = l.
Proof.
  induction fuel as [|fuel IH]; intros [|x l] Hn Hl; cbn [chunks_fuel]; try done; [cbn in Hl; lia|]. cbn [concat].
  rewrite IH; [apply take_drop|done|]. rewrite length_drop. cbn [length] in *. lia.
Qed.
Lemma chunks_concat {A} n (l : list A) : (0 < n)%nat -> concat (chunks n l) = l.
Proof. intros Hn. by apply chunks_fuel_concat. Qed.

Section Push.
Context {PC : PayloadCodecs} {SK : SyncKey} {SL : SyncKeyLaws} {BL : Base64Laws} {DG : Digest} {W : Type}
        {BE : Backend W} {SO : CloudSource W}.
Context (persist : option (Session -> W -> result CloudError unit * W))
        (others : nat -> SessionState -> SessionState) (random : W -> bytes * W).
(** The rows the service has accepted: an insert it answers adds its rows, and
    nothing the driver calls takes one away. *)
Context (rows_of : W -> list CloudItem.t).
Notation grows w w' := (rows_of w ⊆ rows_of w').
Record keeping : Prop := {
  ke_insert token rows w w' : be_insert token rows w = (Ok tt, w') -> rows ⊆ rows_of w';
  ke_inserted token rows w : grows w (be_insert token rows w).2;
  ke_refresh token w : grows w (be_refresh token w).2;
  ke_persist p s w : persist = Some p -> grows w (p s w).2;
  ke_random w : grows w (random w).2;
  ke_nonce w : len (random w).1 = NONCE_LEN;
  ke_floor w : grows w (so_upload_floor w).2;
  ke_floor_item w : grows w (so_upload_floor_item_id w).2;
  ke_device w : grows w (so_device_id w).2;
  ke_changes since after w : grows w (so_local_changes_after since after w).2;
}.
Context (Hk : keeping).
Definition growing (d d' : Driver W) : Prop := grows (dr_world d) (dr_world d').
#[local] Instance growing_preorder : PreOrder growing.
Proof. unfold growing. split; [by intros d|]. intros d1 d2 d3 H1 H2. by etransitivity. Qed.
Lemma growing_same d d' : dr_world d' = dr_world d -> growing d d'.
Proof. unfold growing. by intros ->. Qed.
Local Ltac still := by apply growing_same.

(** What an answered request has done. *)
Lemma send_answered {E A} transient (attempt : W -> result E A * W) retries : forall w a w',
  (forall w, grows w (attempt w).2) -> send transient retries attempt w = (Ok a, w') ->
  exists w0, grows w w0 /\ attempt w0 = (Ok a, w').
Proof.
  induction retries as [|retries IH]; intros w a w' Hg; cbn [send].
  - intros E0. exists w. split; [done|]. by repeat case_match; simplify_eq.
  - pose proof (Hg w) as Hw. destruct (attempt w) as [[b|e] w1] eqn:E0; [intros [= -> ->]; by exists w|].
    destruct (transient e); [|done]. intros (w0 & H1 & H2)%IH; [|done]. exists w0. split; [|done]. by etransitivity.
Qed.
Lemma send_grows {E A} transient (attempt : W -> result E A * W) retries : forall w,
  (forall w, grows w (attempt w).2) -> grows w (send transient retries attempt w).2.
Proof.
  induction retries as [|retries IH]; intros w Hg; cbn [send]; pose proof (Hg w) as Hw; destruct (attempt w) as [[b|e] w1]; try done.
  destruct (transient e); [|done]. etransitivity; [exact Hw|]. by apply IH.
Qed.
Lemma insert_chunks_answered token l : forall w w', insert_chunks token l w = (Ok tt, w') -> concat l ⊆ rows_of w' /\ grows w w'.
Proof.
  induction l as [|chunk l IH]; intros w w'; cbn [insert_chunks].
  - intros [= ->]. split; [set_solver|done].
  - destruct (rest_send (be_insert token chunk) w) as [[u|e] w1] eqn:E1; [|done]. intros H.
    apply send_answered in E1 as (w0 & Hg & E1); [|apply (ke_inserted Hk)]. destruct u.
    pose proof (ke_inserted Hk token chunk w0) as Hg'. rewrite E1 in Hg'. cbn in Hg'.
    apply (ke_insert Hk) in E1. apply IH in H as [H1 H2]. split; [|set_solver]. cbn [concat]. set_solver.
Qed.
Lemma insert_chunks_grows token l : forall w, grows w (insert_chunks token l w).2.
Proof.
  induction l as [|chunk l IH]; intros w; cbn [insert_chunks]; [done|].
  pose proof (send_grows is_transient (be_insert token chunk) RETRY_MAX_RETRIES w (ke_inserted Hk token chunk)) as Hg.
  unfold rest_send. destruct (send _ _ _ w) as [[u|e] w1]; [|done]. etransitivity; [exact Hg|]. apply IH.
Qed.
Lemma upsert_answered token rows w w' : upsert token rows w = (Ok tt, w') -> rows ⊆ rows_of w' /\ grows w w'.
Proof.
  unfold upsert, checked. destruct (validate_each rows); [|done]. intros H%insert_chunks_answered.
  by rewrite chunks_concat in H by (unfold UPSERT_CHUNK; lia).
Qed.
Lemma upsert_grows token rows w : grows w (upsert token rows w).2.
Proof. unfold upsert, checked. destruct (validate_each rows); [|done]. apply insert_chunks_grows. Qed.

(** The driver between requests. *)
Lemma growing_refresh : keeps growing (refresh_session persist others).
Proof.
  intros d. unfold refresh_session, mbind, cloud_bind, gets, await. destruct (refresh_snapshot d) as [[rev token]|]; [|still].
  cbn [fst snd]. destruct (revision_state rev _); [|still..]. unfold ask_refresh, await. cbn [dr_world with_world log].
  unfold auth_refresh. pose proof (send_grows auth_is_transient (be_refresh token) RETRY_MAX_RETRIES (dr_world d) (ke_refresh Hk token)) as Hg.
  destruct (send _ _ _ _) as [r w]. cbn in Hg |- *. destruct r as [s|e]; cbn.
  - unfold install, install_refreshed_session. destruct (ss_fenced _); [exact Hg|]. destruct (negb _); [exact Hg|].
    unfold persist_current_session. destruct persist as [p|] eqn:Ep; [|exact Hg]. unfold source_call. cbn.
    pose proof (ke_persist Hk p s w Ep) as Hp. destruct (p s w) as [x w']. cbn in *. unfold growing. cbn. by etransitivity.
  - unfold refused_refresh. destruct (revision_state rev _); [|exact Hg|exact Hg]. cbn. destruct (ends_session _); [|exact Hg].
    unfold fence_session. destruct (negb _); [exact Hg|]. cbn. destruct (negb _); exact Hg.
Qed.
Lemma execute_loop_answered {A} (op : string -> W -> result TransportFault A * W) fuel :
  (forall t w, grows w (op t w).2) -> forall refreshed waited d r d',
  execute_loop persist others fuel op refreshed waited d = Some (r, d') ->
  growing d d' /\ forall a, r = Ok a -> exists t w, op t w = (Ok a, dr_world d') /\ grows (dr_world d) w.
Proof.
  intros Hg. induction fuel as [|fuel IH]; intros refreshed waited d r d'; [done|]. cbn [execute_loop]. unfold try_once, await.
  set (token := access_token _). pose proof (Hg token (dr_world d)) as Hw.
  destruct (op token (dr_world d)) as [x w] eqn:E. cbn [fst snd] in *. set (d1 := {| dr_session := _ |}).
  assert (H1 : growing d d1) by exact Hw.
  assert (Hrec : forall refreshed waited d2, growing d1 d2 -> execute_loop persist others fuel op refreshed waited d2 = Some (r, d') ->
    growing d d' /\ forall a, r = Ok a -> exists t w, op t w = (Ok a, dr_world d') /\ grows (dr_world d) w).
  { intros b1 b2 d2 H2 H3%IH. destruct H3 as [H3 H4]. assert (Hd : growing d d2) by (by etransitivity).
    split; [by etransitivity|]. intros a Ha. destruct (H4 a Ha) as (t & w0 & E1 & E2). exists t, w0. split; [done|].
    unfold growing in Hd. by etransitivity. }
  destruct x as [a|[|ra|reason|reason]].
  - intros [= <- <-]. split; [exact H1|]. intros ? [= <-]. by exists token, (dr_world d).
  - destruct refreshed; [by intros [= <- <-]|]. pose proof (growing_refresh d1) as H2.
    destruct (refresh_session persist others d1) as [[u|e] d2]; [by apply Hrec|]. intros [= <- <-].
    split; [by etransitivity|done].
  - destruct waited; [by intros [= <- <-]|]. unfold wait, mbind, cloud_bind, note_call, await. cbn [fst snd].
    apply Hrec. still.
  - by intros [= <- <-].
  - by intros [= <- <-].
Qed.
Lemma execute_answered {A} (op : string -> W -> result TransportFault A * W) d r d' :
  (forall t w, grows w (op t w).2) -> execute persist others op d = (r, d') ->
  growing d d' /\ forall a, r = Ok a -> exists t w, op t w = (Ok a, dr_world d') /\ grows (dr_world d) w.
Proof.
  intros Hg. destruct (execute_loop_few persist others op EXECUTE_FUEL false false d) as (x & d1 & E & _); [cbn; unfold EXECUTE_FUEL; lia|].
  unfold execute. rewrite E. intros [= <- <-]. by apply (execute_loop_answered op EXECUTE_FUEL Hg false false).
Qed.
Lemma rest_grows {A} (op : string -> W -> result RestError A * W) :
  (forall t w, grows w (op t w).2) -> forall t w, grows w (rest op t w).2.
Proof. intros Hg t w. unfold rest. specialize (Hg t w). by destruct (op t w). Qed.
Lemma upsert_batches_answered l : forall d r d', upsert_batches persist others l d = (r, d') ->
  growing d d' /\ (r = Ok tt -> concat l ⊆ rows_of (dr_world d')).
Proof.
  induction l as [|batch l IH]; intros d r d'; cbn [upsert_batches].
  { intros [= <- <-]. split; [still|]. intros _. cbn. set_solver. }
  unfold mbind, cloud_bind. destruct (execute persist others _ d) as [x d1] eqn:E.
  apply execute_answered in E as [H1 H2]; [|apply rest_grows; intros t w; apply upsert_grows]. destruct x as [[]|e].
  - intros H3%IH. destruct H3 as [H3 H4]. split; [by etransitivity|]. intros Hr. specialize (H4 Hr). cbn [concat].
    destruct (H2 tt eq_refl) as (t & w & E & _). unfold rest in E.
    destruct (upsert t batch w) as [y w'] eqn:Eu. destruct y as [u|e]; [|done]. destruct u. injection E as ->.
    apply upsert_answered in Eu as [Eu _]. unfold growing in H3. set_solver.
  - by intros [= <- <-].
Qed.

(** The rows of the versions. *)
Definition withheld (i : LocalItem.t) : Prop := LocalItem.deleted i = false /\ MAX_CONTENT_BYTES < len (LocalItem.content i).
Definition row_reads (device : string) (i : LocalItem.t) (r : CloudItem.t) : Prop :=
  forall now, LocalItem.created_at i <= i64_saturating_add now MAX_FUTURE_SKEW_MS ->
    verdict now (clamped r) = Accepted (as_read device i).
Lemma seal_item_sealed device drawn i s r s' : LocalItem.deleted i = true \/ len drawn = NONCE_LEN -> 0 <= LocalItem.created_at i ->
  seal_item device drawn i s = Ok (Some r, s') -> row_reads device i r.
Proof. intros Hd Hp E now Hnow. pose proof (seal_item_read device drawn now i s Hd Hp Hnow) as H. by rewrite E in H. Qed.
Lemma seal_item_withheld device drawn i s s' : seal_item device drawn i s = Ok (None, s') -> withheld i.
Proof.
  unfold seal_item, withheld, too_large_to_sync. destruct (LocalItem.deleted i); [done|].
  destruct (Z.gtb_spec (len (LocalItem.content i)) MAX_CONTENT_BYTES); [done|]. by destruct (encrypt_row _ _ _) as [[]|].
Qed.
Lemma seal_items_sealed device items : forall rows s d rows' s' d',
  seal_items random device items rows s d = (Ok (rows', s'), d') ->
  growing d d' /\ rows ⊆ rows' /\
  forall i, i ∈ items -> 0 <= LocalItem.created_at i -> withheld i \/ exists r, r ∈ rows' /\ row_reads device i r.
Proof.
  induction items as [|i items IH]; intros rows s d rows' s' d'; cbn [seal_items].
  { intros [= -> -> ->]. split_and!; [done|done|]. intros i Hi. by apply elem_of_nil in Hi. }
  unfold mbind, cloud_bind. set (draw := if _ || _ then _ else _).
  assert (Hdraw : exists drawn d1, draw d = (Ok drawn, d1) /\ growing d d1 /\
            (LocalItem.deleted i = true \/ len drawn = NONCE_LEN \/ seal_item device drawn i s = Ok (None, add_too_large s))).
  { unfold draw. destruct (LocalItem.deleted i) eqn:Hdel; cbn [orb]; [exists [], d; split_and!; [done|still|by left]|].
    destruct (too_large_to_sync _ _) eqn:Hbig.
    - exists [], d. split_and!; [done|still|]. right; right. unfold seal_item. by rewrite Hdel, Hbig.
    - unfold draw_random. pose proof (ke_random Hk (dr_world d)) as Hr. pose proof (ke_nonce Hk (dr_world d)) as Hn.
      destruct (random (dr_world d)) as [b w]. exists b, (with_world w d). split_and!; [done|exact Hr|]. by right; left. }
  destruct Hdraw as (drawn & d1 & -> & Hg1 & Hd1). cbn [lift].
  destruct (seal_item device drawn i s) as [[row s1]|e] eqn:Es; [|done]. intros (Hg & Hsub & Hall)%IH.
  split; [by etransitivity|]. split; [destruct row; [set_solver|done]|].
  intros j [->|Hj]%elem_of_cons Hpos; [|by apply Hall]. destruct row as [r|]; [right|left; by eapply seal_item_withheld].
  exists r. split; [set_solver|]. eapply seal_item_sealed; [|done|exact Es]. destruct Hd1 as [|[|]]; [by left|by right|done].
Qed.

End Push.

(** ** An upload *)

#[local] Existing Instances CloudDemo.codecs CloudDemo.codec_laws CloudDemo.key CloudDemo.key_laws CloudDemo.digest.
Module PushDemo.
(** The world is the rows the service has accepted. *)
Definition World : Type := list CloudItem.t.
#[export] Instance service : Backend World := {|
  be_select := fun _ _ _ _ w => (Ok [], w); be_insert := fun _ rows w => (Ok tt, w ++ rows);
  be_catalog := fun _ _ w => (Ok [], w); be_groups := fun _ _ w => (Ok [], w);
  be_insert_group := fun _ _ w => (Ok tt, w); be_refresh := fun _ w => (Err AuthSessionExpired, w); be_now := fun _ => 5000 |}.
#[export] Instance history : CloudSource World := {|
  so_group_snapshot := fun w => (Ok None, w); so_apply_group := fun _ _ w => (Ok tt, w);
  so_group_sync_allowed := fun w => (true, w); so_device_id := fun w => ("here"%string, w);
  so_local_changes_after := fun _ _ w => (Ok [PullDemo.note "b" "hello" 2000; PullDemo.note "e" "late" 1500], w);
  so_apply_remote_batch := fun b w => (Ok (repeat Merged (length b)), w);
  so_watermark := fun w => (Ok 0, w); so_watermark_item_id := fun w => (Ok None, w);
  so_upload_floor := fun w => (Ok 0, w); so_upload_floor_item_id := fun w => (Ok None, w);
  so_requeue_local_winner := fun _ w => (Ok false, w); so_set_watermark_keyset := fun _ _ w => (Ok tt, w) |}.
Definition signed_in : Driver World :=
  {| dr_session := dr_session (CloudDemo.signed_in false); dr_events := 0; dr_cadence := default_cadence;
     dr_push_channel := false; dr_downloaded := ∅; dr_uploaded := None; dr_world := []; dr_awaits := 0; dr_calls := [] |}.
Definition random (w : World) : bytes * World := (PullDemo.drawn, w).
Lemma is_keeping : keeping None random id.
Proof.
  split; try done.
  - intros token rows w w' [= <-] r Hr. apply elem_of_app. by right.
  - intros token rows w r Hr. apply elem_of_app. by left.
Qed.
Definition uploaded : result CloudError SyncStats * Driver World := push None CloudDemo.no_others random signed_in.
End PushDemo.
#[local] Existing Instances PushDemo.service PushDemo.history.

