(* ===== verification/Semantic.v ===== *)
(** Kinds of text clips ([copypaste-core/src/semantic.rs],
    [copypaste-ipc/src/semantic_kind.rs]): what the history can be filtered by. *)

From S2P Require Import Prelude Bytes Text Wire Payload Credentials.

Inductive SemanticKind := PlainText | Link | Email | Color | Phone | Code | Json | Path | KindCredentials.
#[export] Instance SemanticKind_eq_dec : EqDecision SemanticKind.
Proof. solve_decision. Defined.
Definition kind_str (k : SemanticKind) : string :=
  match k with
  | PlainText => "plain_text" | Link => "link" | Email => "email" | Color => "color" | Phone => "phone"
  | Code => "code" | Json => "json" | Path => "path" | KindCredentials => "credentials"
  end.
Record SemanticClassification := { kind : SemanticKind; color_rgba : option Z }.

(** Library code: [csscolorparser] with its [to_rgba8], the [url] crate, and
    whether a text is a JSON object or array. *)
Record Url := { url_scheme : string; url_path : bytes; url_host : option string }.
Class SemanticParsers := {
  parse_color : bytes -> option (byte * byte * byte * byte);
  parse_url : bytes -> option Url;
  json_container : bytes -> bool;
}.

(** ** Text *)

Definition lower (l : bytes) : bytes := ascii_lower <$> l.
(** [value.get(..n)] and [eq_ignore_ascii_case]. *)
Definition nocase_prefix (p : string) (l : bytes) : bool := starts_with (as_bytes p) (lower (take (String.length p) l)).
Definition prefixed (p : string) (l : bytes) : bool := starts_with (as_bytes p) l.
Definition has (c : Z) (l : bytes) : bool := existsb (byte_is c) l.
Definition count (c : Z) (l : bytes) : Z := len (List.filter (byte_is c) l).
Definition has_text (needle : string) (l : bytes) : bool := contains (as_bytes needle) l.
(** [chars().any(char::is_whitespace)]. *)
Fixpoint has_blank (l : bytes) : bool :=
  match blank_head l with Some _ => true | None => match l with _ :: k => has_blank k | [] => false end end.
Definition is_ascii_hexdigit (b : byte) : bool := is_ascii_digit b || in_range 97 102 b || in_range 65 70 b.
Definition is_ascii (b : byte) : bool := byte_val b <? 128.
Definition is_ascii_alphabetic (b : byte) : bool := is_ascii_upper b || is_ascii_lower b.
(** [str::split_once]. *)
Fixpoint split_once (c : Z) (l : bytes) : option (bytes * bytes) :=
  match l with
  | [] => None
  | a :: l => if byte_is c a then Some ([], l) else '(x, y) ← split_once c l; Some (a :: x, y)
  end.
Definition head_is (f : byte -> bool) (l : bytes) : bool := match l with a :: _ => f a | [] => false end.
Definition last_is (f : byte -> bool) (l : bytes) : bool := head_is f (List.rev l).
Definition decimal (l : bytes) : Z := fold_left (fun n b => 10 * n + (byte_val b - 48)) l 0.
(** [parse::<IpAddr>] of a text without a colon, which only an IPv4 address can
    be. *)
Definition ipv4_octet (l : bytes) : bool :=
  (1 <=? len l) && (len l <=? 3) && forallb is_ascii_digit l
  && negb (head_is (byte_is 48) l && (1 <? len l)) && (decimal l <=? 255).
Definition is_ip (l : bytes) : bool :=
  let pieces := split_by (byte_is 46) [] l in (length pieces =? 4)%nat && forallb ipv4_octet pieces.

(** ** Recognition *)

Definition is_plain_text_representation (content_type : string) : bool :=
  String.eqb content_type TEXT || nocase_eqb content_type "text/plain" || nocase_prefix "text/plain;" (as_bytes content_type).
Definition color_functions : list string :=
  ["rgb("; "rgba("; "hsl("; "hsla("; "hwb("; "lab("; "lch("; "oklab("; "oklch("]%string.
Definition email_punctuation : bytes := as_bytes ".!#$%&'*+-/=?^_`{|}~".
Definition local_char (b : byte) : bool := is_ascii_alphanumeric b || existsb (Ascii.eqb b) email_punctuation.
Definition domain_label (l : bytes) : bool :=
  negb (len l =? 0) && (len l <=? 63) && forallb (fun b => is_ascii_alphanumeric b || byte_is 45 b) l
  && head_is is_ascii_alphanumeric l && last_is is_ascii_alphanumeric l.
Definition is_address (address : bytes) : bool :=
  if (254 <? len address) || negb (forallb is_ascii address) || has_blank address then false
  else match split_once 64 address with
       | None => false
       | Some (local, domain) =>
         if (len local =? 0) || (64 <? len local) || head_is (byte_is 46) local || last_is (byte_is 46) local
            || has_text ".." local || (253 <? len domain) || negb (has 46 domain)
         then false
         else if negb (forallb local_char local) then false
         else forallb domain_label (split_by (byte_is 46) [] domain)
       end.
Definition is_phone (value : bytes) : bool :=
  if (40 <? len value)
     || negb (forallb (fun b => is_ascii_digit b || byte_is 43 b || byte_is 45 b || byte_is 46 b || byte_is 40 b || byte_is 41 b || byte_is 32 b) value)
     || (1 <? count 43 value) || (has 43 value && negb (head_is (byte_is 43) value)) || negb (count 40 value =? count 41 value)
  then false
  else
    let digits := len (List.filter is_ascii_digit value) in
    if negb ((7 <=? digits) && (digits <=? 15)) then false
    else if is_ip value then false
    else
      let groups := len <$> List.filter (fun g => negb (len g =? 0)) (split_by (fun b => negb (is_ascii_digit b)) [] value) in
      if bool_decide (groups = [4; 2; 2]) then false
      else head_is (byte_is 43) value || (has 40 value || has 41 value) || (has 32 value || has 45 value || has 46 value).

Definition code_markers : list string := ["=>"; "::"; "();"; "</"; "/>"; ":="; "&&"; "||"; "#!/"]%string.
Definition code_commands : list string :=
  ["git "; "npm "; "pnpm "; "yarn "; "cargo "; "docker "; "kubectl "; "flutter "; "dart "; "python "; "pip "; "brew ";
   "sudo "; "print("; "console.log("]%string.
Definition code_keywords : list string :=
  ["fn"; "class"; "struct"; "enum"; "impl"; "def"; "function"; "const"; "var"; "return"; "import"; "export"; "package";
   "use"; "pub"; "async"; "await"; "select"; "from"; "where"; "insert"; "update"; "delete"; "create"; "table"]%string.
Definition code_openers : list string := ["let "; "const "; "var "; "fn "; "def "; "class "; "struct "; "enum "]%string.
(** [u8::saturating_add]. *)
Definition u8_add (a b : Z) : Z := Z.min 255 (a + b).
Definition add_each {A} (n : Z) (f : A -> bool) (l : list A) (score : Z) : Z :=
  fold_left (fun s x => if f x then u8_add s n else s) l score.
Definition indented_or_comment (line : bytes) : bool :=
  let trimmed := trim_start line in
  negb (len line =? len trimmed) || prefixed "//" trimmed || prefixed "/*" trimmed.
Definition is_code (value : bytes) : bool :=
  if prefixed "```" value || prefixed "#!" value || prefixed "<?xml" value || prefixed "<!DOCTYPE" value then true
  else if head_is (byte_is 60) value && last_is (byte_is 62) value && has_text "</" value then true
  else
    let lowered := lower value in
    if existsb (fun p => prefixed p lowered) code_commands then true
    else
      let score := add_each 2 (fun t => has_text t value) code_markers 0 in
      let score := add_each 1 (fun c => has c value) [123; 125; 59] score in
      let score := if has 61 value && negb (has_text " = " value) then u8_add score 1 else score in
      let score := if existsb indented_or_comment (lines value) then u8_add score 1 else score in
      let words := List.filter (fun w => negb (len w =? 0))
                     (split_by (fun b => negb (is_ascii_alphanumeric b || byte_is 95 b)) [] lowered) in
      let score := add_each 1 (fun k => existsb (fun w => bool_decide (w = as_bytes k)) words) code_keywords score in
      let score := if existsb (fun p => prefixed p lowered) code_openers then u8_add score 2 else score in
      (if has 10 value then 2 else 3) <=? score.

Section Recognition.
Context {CC : CredentialCodecs} {SP : SemanticParsers}.
Definition color (value : bytes) : option Z :=
  let lowered := lower value in
  let accepted := match strip_prefix (as_bytes "#") lowered with
                  | Some hex => existsb (Z.eqb (len hex)) [3; 4; 6; 8] && forallb is_ascii_hexdigit hex
                  | None => existsb (fun p => prefixed p lowered) color_functions && last_is (byte_is 41) lowered
                  end in
  if negb accepted then None
  else '(r, g, b, a) ← parse_color value; Some (from_be [r; g; b; a]).
Definition is_email (value : bytes) : bool :=
  if nocase_prefix "mailto:" value
  then match parse_url value with
       | Some url => if negb (String.eqb (url_scheme url) "mailto") || has 44 (url_path url) then false
                     else is_address (url_path url)
       | None => false
       end
  else is_address value.
Definition is_link (value : bytes) : bool :=
  if has_blank value then false
  else let candidate := if nocase_prefix "www." value then as_bytes "https://" ++ value else value in
       match parse_url candidate with
       | Some url => (String.eqb (url_scheme url) "http" || String.eqb (url_scheme url) "https")
                     && match url_host url with Some _ => true | None => false end
       | None => false
       end.
Definition is_path (value : bytes) : bool :=
  if has 10 value || has 13 value || has 0 value then false
  else if nocase_prefix "file://" value
  then match parse_url value with Some url => String.eqb (url_scheme url) "file" | None => false end
  else if prefixed "~/" value || prefixed "/Volumes/" value || prefixed "/Users/" value then 2 <? len value
  else match strip_prefix (as_bytes "/") value with
       | Some path => (1 <? len value) && (has 47 path || negb (has_blank path))
       | None =>
         match strip_prefix [byte_of 92; byte_of 92] value with
         | Some path => has 92 path
         | None => match value with
                   | a :: b :: c :: _ :: _ => is_ascii_alphabetic a && byte_is 58 b && (byte_is 92 c || byte_is 47 c)
                   | _ => false
                   end
         end
       end.
Definition classification (k : SemanticKind) : SemanticClassification := {| kind := k; color_rgba := None |}.
Definition classify_semantic (content_type content : string) : option SemanticClassification :=
  if negb (is_text content_type) then None
  else
    let value := as_bytes (trim content) in
    Some
      (if is_some (classify_credentials content_type (trim content)) then classification KindCredentials
       else if negb (is_plain_text_representation content_type) || (len value =? 0) then classification PlainText
       else match color value with
            | Some rgba => {| kind := Color; color_rgba := Some rgba |}
            | None =>
              if is_email value then classification Email
              else if is_link value then classification Link
              else if is_phone value then classification Phone
              else if json_container value then classification Json
              else if is_path value then classification Path
              else if is_code value then classification Code
              else classification PlainText
            end).
End Recognition.

(** ** What a kind says *)

Lemma split_once_spec c l x y : split_once c l = Some (x, y) ->
  exists b, byte_is c b = true /\ l = x ++ b :: y /\ has c x = false.
Proof.
  revert x. induction l as [|a l IH]; intros x H; cbn in H; [done|]. destruct (byte_is c a) eqn:E.
  - injection H as <- <-. by exists a.
  - destruct (split_once c l) as [[u v]|]; [|done]. cbn in H. injection H as <- ->.
    destruct (IH u eq_refl) as (b & Hb & -> & Hu). exists b. split_and!; [done|done|]. cbn. by rewrite E.
Qed.
Lemma count_across c a b : count c (a ++ b) = count c a + count c b.
Proof. unfold count. by rewrite List.filter_app, len_app. Qed.
Lemma count_none c l : (forall b, b ∈ l -> byte_is c b = false) -> count c l = 0.
Proof.
  unfold count. induction l as [|a l IH]; intros H; cbn; [done|]. rewrite (H a) by (by left). apply IH. intros b Hb. apply H. by right.
Qed.
Lemma split_by_pieces f l : forall piece b, b ∈ l -> f b = false -> exists p, p ∈ split_by f piece l /\ b ∈ p.
Proof.
  induction l as [|a l IH]; intros piece b Hb Hf; [by apply elem_of_nil in Hb|]. cbn.
  assert (Hkeep : forall piece l, b ∈ piece -> exists p, p ∈ split_by f piece l /\ b ∈ p).
  { clear. intros piece l. revert piece. induction l as [|a l IH]; intros piece Hin; cbn.
    - exists (List.rev piece). split; [by left|]. rewrite list_elem_of_In, <- in_rev. by apply list_elem_of_In.
    - destruct (f a); [|apply IH; by right]. exists (List.rev piece). split; [by left|].
      rewrite list_elem_of_In, <- in_rev. by apply list_elem_of_In. }
  apply elem_of_cons in Hb as [->|Hb].
  - rewrite Hf. apply Hkeep. by left.
  - destruct (f a); [|by apply IH]. destruct (IH [] b Hb Hf) as (p & Hp & Hbp). exists p. split; [by right|done].
Qed.
(** An address has one at-sign. *)
Lemma is_address_at l : is_address l = true -> count 64 l = 1.
Proof.
  unfold is_address. destruct (_ || _); [done|]. destruct (split_once 64 l) as [[local domain]|] eqn:E; [|done].
  destruct (_ || _); [done|]. destruct (negb _) eqn:El; [done|]. intros Hd.
  apply split_once_spec in E as (b & Hb & -> & _). rewrite count_across. unfold count at 2. cbn. rewrite Hb. cbn.
  change (count 64 local + len (b :: List.filter (byte_is 64) domain) = 1).
  assert (H1 : count 64 local = 0).
  { apply count_none. intros a Ha. apply negb_false_iff in El. rewrite forallb_forall in El.
    apply list_elem_of_In, El in Ha. destruct (byte_is 64 a) eqn:E; [|done]. unfold byte_is in E. apply Z.eqb_eq in E.
    rewrite <- (byte_of_val a), E in Ha. vm_compute in Ha. done. }
  assert (H2 : count 64 domain = 0).
  { apply count_none. intros a Ha. destruct (byte_is 64 a) eqn:E; [|done]. unfold byte_is in E. apply Z.eqb_eq in E.
    destruct (split_by_pieces (byte_is 46) domain [] a Ha) as (p & Hp & Hap).
    { unfold byte_is. rewrite E. done. }
    rewrite forallb_forall in Hd. apply list_elem_of_In, Hd in Hp. unfold domain_label in Hp. rewrite !andb_true_iff in Hp.
    destruct Hp as [[[_ Hp] _] _]. rewrite forallb_forall in Hp. apply list_elem_of_In, Hp in Hap.
    rewrite <- (byte_of_val a), E in Hap. vm_compute in Hap. done. }
  unfold count, len in *. cbn [length]. lia.
Qed.
Lemma is_phone_digits l : is_phone l = true -> 7 <= len (List.filter is_ascii_digit l) <= 15 /\ len l <= 40.
Proof.
  unfold is_phone. destruct (_ || _) eqn:E; [done|]. rewrite !orb_false_iff in E. destruct E as [[[[E _] _] _] _].
  destruct (negb _) eqn:Ed; [done|]. intros _. apply negb_false_iff, andb_prop in Ed as [H1%Z.leb_le H2%Z.leb_le].
  apply Z.ltb_ge in E. done.
Qed.
Section Kinds.
Context {CC : CredentialCodecs} {SP : SemanticParsers}.
Lemma color_bounds value v : color value = Some v -> 0 <= v < 2^32.
Proof.
  unfold color. destruct (negb _); [done|]. destruct (parse_color value) as [[[[r g] b] a]|]; [|done]. intros [= <-].
  pose proof (from_be_range [r; g; b; a]) as H. exact H.
Qed.
(** A secret is always called one; only a color has a swatch, of 32 bits; a phone
    number has 7 to 15 digits, and an address one at-sign. *)
Theorem kinds_say_what_is_there content_type content k : classify_semantic content_type content = Some k ->
  (kind k = KindCredentials <-> classify_credentials content_type (trim content) <> None) /\
  (color_rgba k <> None <-> kind k = Color) /\ (forall v, color_rgba k = Some v -> 0 <= v < 2^32) /\
  (kind k = Phone -> 7 <= len (List.filter is_ascii_digit (as_bytes (trim content))) <= 15) /\
  (kind k = Email -> nocase_prefix "mailto:" (as_bytes (trim content)) = false -> count 64 (as_bytes (trim content)) = 1).
Proof.
  unfold classify_semantic. destruct (negb _); [done|]. intros [= <-].
  destruct (classify_credentials _ _) as [p|]; cbn [is_some]; [unfold classification; cbn [kind color_rgba]; naive_solver|].
  destruct (negb _ || _); [unfold classification; cbn [kind color_rgba]; naive_solver|]. destruct (color _) as [v|] eqn:Ec.
  { apply color_bounds in Ec. unfold classification; cbn [kind color_rgba]. split_and!; try naive_solver. }
  destruct (is_email _) eqn:Ee.
  { unfold classification; cbn [kind color_rgba]. split_and!; try naive_solver. intros _ Hm. apply is_address_at. unfold is_email in Ee. by rewrite Hm in Ee. }
  destruct (is_link _); [unfold classification; cbn [kind color_rgba]; naive_solver|]. destruct (is_phone _) eqn:Ep.
  { unfold classification; cbn [kind color_rgba]. split_and!; try naive_solver. intros _. by apply is_phone_digits. }
  destruct (json_container _); [unfold classification; cbn [kind color_rgba]; naive_solver|].
  destruct (is_path _); [unfold classification; cbn [kind color_rgba]; naive_solver|].
  destruct (is_code _); unfold classification; cbn [kind color_rgba]; naive_solver.
Qed.
End Kinds.

(** ** Texts *)

Module SemanticDemo.
#[export] Instance no_codecs : CredentialCodecs :=
  {| url_safe_decode _ := None; standard_decode _ := None; json_alg _ := None; json_valid _ := false |}.
(** Parsers that only know what the examples need. *)
#[export] Instance parsers : SemanticParsers :=
  {| parse_color l := if starts_with (as_bytes "#") l then Some (byte_of 170, byte_of 187, byte_of 204, byte_of 255) else None;
     parse_url l := if starts_with (as_bytes "https://") l then Some {| url_scheme := "https"; url_path := []; url_host := Some ""%string |} else None;
     json_container l := head_is (byte_is 123) l |}.
Definition kind_of (s : string) : option string := (fun c => kind_str (kind c)) <$> classify_semantic TEXT s.
Lemma kinds_of_the_tests :
  kind_of <$> ["www.example.com/path"; "person@example.com"; "+1 (202) 555-0101"; "/Users/example/report.txt"; " #aabbcc ";
               "SELECT name FROM people WHERE active = 1"; "git status"; "2026-10-03"; "192.168.1.1"; "1700000000"; "let me know";
               "See https://example.com for details"]%string =
  Some <$> ["link"; "email"; "phone"; "path"; "color"; "code"; "code"; "plain_text"; "plain_text"; "plain_text"; "plain_text";
            "plain_text"]%string.
Proof. vm_compute. reflexivity. Qed.
End SemanticDemo.
