(* ===== verification/Search.v ===== *)
(** Searching the history ([copypaste-core/src/storage/fuzzy_search.rs],
    [storage/search.rs]): how a query is made into a MATCH expression, and which
    words of the index are taken for misspellings of its words. *)

From S2P Require Import Prelude.

(** Text is a list of its characters, a character its code point. *)
Notation text := (list Z).

(** ** Spelling ([fuzzy_search.rs]) *)

Definition MAX_WORD_CHARS : nat := 64.
Definition MAX_EXPANDED_TERMS : nat := 16.
Definition MAX_ALTERNATIVES : nat := 16.

(** The rows of the table are arrays of this length. *)
Definition ROW_CELLS : nat := MAX_WORD_CHARS + 3.
Definition cell (row : list Z) (j : nat) : Z := nth j row 0.
Definition char_at (t : text) (i : nat) : Z := nth i t 0.

(** [current[j]], from the two rows above. *)
Definition cell_step (query word : text) (i : nat) (previous_previous previous : list Z) (current : list Z) (j : nat)
    : list Z :=
  let left := char_at query (i - 1) in
  let current :=
    <[j := Z.min (Z.min (cell previous j + 1) (cell current (j - 1) + 1))
             (cell previous (j - 1) + (if left =? char_at word (j - 1) then 0 else 1))]> current in
  if (1 <? i)%nat && (1 <? j)%nat && (left =? char_at word (j - 2)) && (char_at query (i - 2) =? char_at word (j - 1))
  then <[j := Z.min (cell current j) (cell previous_previous (j - 2) + 1)]> current
  else current.
Definition band_from (edits i : nat) : nat := Nat.max (i - edits) 1.
Definition band_to (edits i : nat) (word : text) : nat := Nat.min (i + edits) (length word).
(** [from..=to]. *)
Definition range_incl (from to : nat) : list nat := seq from (S to - from).
Definition start_row (infinity : Z) (i : nat) : list Z :=
  <[0%nat := Z.min (Z.of_nat i) infinity]> (repeat infinity ROW_CELLS).
Definition next_row (query word : text) (edits i : nat) (previous_previous previous : list Z) : list Z :=
  foldl (cell_step query word i previous_previous previous) (start_row (Z.of_nat edits + 1) i)
    (range_incl (band_from edits i) (band_to edits i word)).
(** The rows for the characters [i..] of the query; [None] when a whole band is
    past the bound. *)
Fixpoint next_rows (query word : text) (edits : nat) (todo : list nat) (previous_previous previous : list Z)
    : option (list Z) :=
  match todo with
  | [] => Some previous
  | i :: todo =>
    let current := next_row query word edits i previous_previous previous in
    if forallb (fun j => Z.of_nat edits <? cell current j) (range_incl (band_from edits i) (band_to edits i word))
    then None else next_rows query word edits todo previous current
  end.
Definition first_row (infinity : Z) (edits : nat) : list Z :=
  (Z.of_nat <$> seq 0 (S edits)) ++ repeat infinity (ROW_CELLS - S edits).
Definition min_of (l : list Z) : option Z :=
  match l with [] => None | x :: l => Some (foldl Z.min x l) end.
Definition prefix_distance (query word : text) (edits : nat) : option Z :=
  let word := take (Nat.min (length word) (length query + edits)) word in
  if (length word + edits <? length query)%nat then None
  else
    let infinity := Z.of_nat edits + 1 in
    row ← next_rows query word edits (seq 1 (length query)) (repeat infinity ROW_CELLS) (first_row infinity edits);
    d ← min_of (cell row <$> range_incl (length query - edits) (length word));
    if d <=? Z.of_nat edits then Some d else None.

(** [[char]::starts_with] and [windows(n).any(|part| part == query)]. *)
Fixpoint starts_with (p l : text) : bool :=
  match p, l with
  | [], _ => true
  | a :: p, b :: l => (a =? b) && starts_with p l
  | _, [] => false
  end.
Fixpoint contains (p l : text) : bool := starts_with p l || match l with [] => false | _ :: l => contains p l end.

(** The character tables of the standard library, and the tokenizer of the
    index: the terms it makes of a word. *)
Class CharTables := { is_alphabetic : Z -> bool; is_alphanumeric : Z -> bool }.
Class Tokenizer := { fts_terms : text -> list text }.

Section Spelling.
Context {CT : CharTables}.
Definition match_cost (query word : text) : option Z :=
  if starts_with query word then None
  else if contains query word then Some 1
  else if negb (forallb is_alphabetic query) then None
  else prefix_distance query word (if (8 <=? length query)%nat then 2 else 1).
End Spelling.

(** ** The expression ([search.rs]) *)

Definition QUOTE : Z := 34.
Definition STAR : Z := 42.
Definition SPACE : Z := 32.
Definition TAB : Z := 9.
Definition UNDERSCORE : Z := 95.
Definition DASH : Z := 45.
Definition AND : text := [32; 65; 78; 68; 32].
Definition OR : text := [32; 79; 82; 32].
Definition is_whitespace (c : Z) : bool :=
  ((9 <=? c) && (c <=? 13)) || (c =? 32) || (c =? 133) || (c =? 160) || (c =? 5760) || ((8192 <=? c) && (c <=? 8202))
  || (c =? 8232) || (c =? 8233) || (c =? 8239) || (c =? 8287) || (c =? 12288).
Fixpoint trim_left (t : text) : text := match t with c :: l => if is_whitespace c then trim_left l else t | [] => [] end.
Definition trim_text (t : text) : text := List.rev (trim_left (List.rev (trim_left t))).
(** [str::split]: the pieces between the characters that separate. *)
Fixpoint split_on (sep : Z -> bool) (t : text) : list text :=
  match t with
  | [] => [[]]
  | c :: l => if sep c then [] :: split_on sep l
              else match split_on sep l with w :: ws => (c :: w) :: ws | [] => [[c]] end
  end.
Definition ascii_lower (c : Z) : Z := if (65 <=? c) && (c <=? 90) then c + 32 else c.
Definition eq_ignore_ascii_case (a b : text) : bool := bool_decide (ascii_lower <$> a = ascii_lower <$> b).
(** NOT, OR, AND, NEAR. *)
Definition RESERVED : list text := [[78; 79; 84]; [79; 82]; [65; 78; 68]; [78; 69; 65; 82]].
Definition DIACRITICS_1 : Z := 134389727.
Definition DIACRITICS_2 : Z := 221688.
Definition is_unicode61_diacritic (c : Z) : bool :=
  if (768 <=? c) && (c <=? 799) then Z.testbit DIACRITICS_1 (c - 768)
  else if (800 <=? c) && (c <=? 817) then Z.testbit DIACRITICS_2 (c - 800) else false.
Fixpoint join (sep : text) (l : list text) : text :=
  match l with [] => [] | [t] => t | t :: l => t ++ sep ++ join sep l end.
(** [chars.by_ref().take_while(..)] up to the next quote, which it takes too. *)
Fixpoint until_quote (t : text) : text * text :=
  match t with
  | [] => ([], [])
  | c :: l => if c =? QUOTE then ([], l) else let '(a, b) := until_quote l in (c :: a, b)
  end.

Section Sanitize.
Context {CT : CharTables}.
Definition is_unicode61_token_char (c : Z) : bool :=
  is_alphanumeric c || ((57344 <=? c) && (c <=? 63743)) || ((983040 <=? c) && (c <=? 1048573)).
Definition clean_char (c : Z) : Z :=
  if c =? DASH then SPACE
  else if is_unicode61_token_char c || is_unicode61_diacritic c
          || ((c =? UNDERSCORE) || (c =? QUOTE) || (c =? STAR) || (c =? SPACE) || (c =? TAB)) then c
  else SPACE.
Definition unquoted_tokens (raw : text) : list text :=
  (fun t => t ++ [STAR]) <$>
    List.filter (fun t => negb (existsb (fun w => eq_ignore_ascii_case w t) RESERVED))
      (List.filter (existsb is_unicode61_token_char)
        (split_on (fun c => is_whitespace c || (c =? UNDERSCORE) || (c =? STAR)) raw)).
(** The fuel is the length of the text. *)
Fixpoint tokens_of (fuel : nat) (t outside : text) : list text :=
  match fuel, t with
  | S fuel, c :: l =>
    if c =? QUOTE
    then unquoted_tokens outside ++
         (let '(phrase, rest) := until_quote l in
          let phrase := trim_text phrase in
          if existsb is_unicode61_token_char phrase
          then let quoted := QUOTE :: phrase ++ [QUOTE] in
               match rest with
               | c :: rest' => if c =? STAR then (quoted ++ [STAR]) :: tokens_of fuel rest' [] else quoted :: tokens_of fuel rest []
               | [] => quoted :: tokens_of fuel rest []
               end
          else tokens_of fuel rest [])
    else tokens_of fuel l (outside ++ [c])
  | _, _ => unquoted_tokens outside
  end.
Definition quotes (t : text) : nat := length (List.filter (fun c => c =? QUOTE) t).
Definition query_tokens (raw : text) : list text :=
  let cleaned := trim_text (clean_char <$> raw) in
  let cleaned := if Nat.odd (quotes cleaned) then trim_text (List.filter (fun c => negb (c =? QUOTE)) cleaned) else cleaned in
  tokens_of (length cleaned) cleaned [].
Definition sanitize_fts5_query (raw : text) : option text :=
  match query_tokens raw with [] => None | tokens => Some (join AND tokens) end.
End Sanitize.

(** [query_parts]: the pieces between the ANDs that stand outside quotes.  The
    characters of an AND are walked over one by one; a second AND among them
    would be a slice that ends before it starts, which panics. *)
Fixpoint parts (t : text) (quoted : bool) (skip : nat) (part : text) : option (list text) :=
  match t with
  | [] => Some [part]
  | c :: l =>
    let quoted' := if c =? QUOTE then negb quoted else quoted in
    if negb (c =? QUOTE) && negb quoted && starts_with AND t
    then match skip with O => ps ← parts l quoted 4 []; Some (part :: ps) | S _ => None end
    else match skip with
         | O => parts l quoted' 0 (part ++ [c])
         | S skip => parts l quoted' skip part
         end
  end.
Definition query_parts (expression : text) : option (list text) := parts expression false 0 [].

(** ** Expansion *)

Record SearchExpression := { exact : text; expanded : text }.
Record Choice := { ch_cost : Z; ch_popularity : Z; ch_word : text }.
(** [(u8, i64, String)], ordered as tuples are; a string by its bytes, which for
    characters is the order of the code points. *)
Fixpoint text_cmp (a b : text) : comparison :=
  match a, b with
  | [], [] => Eq
  | [], _ :: _ => Lt
  | _ :: _, [] => Gt
  | x :: a, y :: b => then_with (Z.compare x y) (text_cmp a b)
  end.
Definition choice_cmp (a b : Choice) : comparison :=
  pair_cmp Z.compare (pair_cmp Z.compare text_cmp) (ch_cost a, (ch_popularity a, ch_word a)) (ch_cost b, (ch_popularity b, ch_word b)).
Definition choice_le (a b : Choice) : Prop := choice_cmp a b <> Gt.
#[export] Instance choice_le_dec a b : Decision (choice_le a b).
Proof. unfold choice_le. apply _. Defined.

Section Expand.
Context {CT : CharTables} {TK : Tokenizer}.
(** The words of the index with the number of items each is in. *)
Context (vocabulary : list (text * Z)).
Definition strip_star (part : text) : option text :=
  match List.rev part with c :: w => if c =? STAR then Some (List.rev w) else None | [] => None end.
Definition eligible_word (part : text) : option text :=
  word ← strip_star part;
  if negb (existsb (fun c => c =? QUOTE) word) && (4 <=? length word)%nat && (length word <=? MAX_WORD_CHARS)%nat
  then Some word else None.
(** The one term the index would make of a word, if it is not too short or long. *)
Definition normalize (word : text) : option text :=
  match fts_terms word with
  | [term] => if (4 <=? length term)%nat && (length term <=? MAX_WORD_CHARS)%nat then Some term else None
  | _ => None
  end.
Definition choices_step (query : text) (choices : list Choice) (entry : text * Z) : list Choice :=
  match match_cost query entry.1 with
  | Some cost => take MAX_ALTERNATIVES
                   (merge_sort choice_le (choices ++ [{| ch_cost := cost; ch_popularity := - entry.2; ch_word := entry.1 |}]))
  | None => choices
  end.
Definition indexed_words : list (text * Z) :=
  List.filter (fun v => (3 <=? length v.1)%nat && (length v.1 <=? 66)%nat) vocabulary.
Definition choices_for (query : text) : list Choice := foldl (choices_step query) [] indexed_words.
Definition double_quotes (word : text) : text := List.flat_map (fun c => if c =? QUOTE then [QUOTE; QUOTE] else [c]) word.
Definition expand_part (part : text) (choices : list Choice) : text :=
  match choices with
  | [] => part
  | _ => [40] ++ part ++ List.flat_map (fun ch => OR ++ [QUOTE] ++ double_quotes (ch_word ch) ++ [QUOTE]) choices ++ [41]
  end.
(** The alternatives of each part: of the first sixteen that are words. *)
Fixpoint part_choices (room : nat) (ps : list text) : list (list Choice) :=
  match ps with
  | [] => []
  | part :: ps =>
    match eligible_word part, room with
    | Some word, S room => match normalize word with Some query => choices_for query | None => [] end :: part_choices room ps
    | _, _ => [] :: part_choices room ps
    end
  end.
Definition compile (raw : text) : option SearchExpression :=
  e ← sanitize_fts5_query raw;
  ps ← query_parts e;
  if forallb (fun part => bool_decide (eligible_word part = None)) ps then Some {| exact := e; expanded := e |} else
  Some {| exact := e; expanded := join AND (zip_with expand_part ps (part_choices MAX_EXPANDED_TERMS ps)) |}.
End Expand.

(** ** What a distance is

    [align query word i j c]: [c] edits make the first [i] characters of the
    query into the first [j] of the word: a character left out, put in or
    replaced, or two neighbours swapped, each counting one. *)
Inductive align (query word : text) : nat -> nat -> Z -> Prop :=
  | align_nil : align query word 0 0 0
  | align_omit i j c : align query word i j c -> (i < length query)%nat -> align query word (S i) j (c + 1)
  | align_insert i j c : align query word i j c -> (j < length word)%nat -> align query word i (S j) (c + 1)
  | align_keep i j c x y : align query word i j c -> query !! i = Some x -> word !! j = Some y ->
      align query word (S i) (S j) (c + (if x =? y then 0 else 1))
  | align_swap i j c x y : align query word i j c -> query !! i = Some x -> query !! S i = Some y ->
      word !! j = Some y -> word !! S j = Some x -> align query word (S (S i)) (S (S j)) (c + 1).

Section Align.
Context (query word : text).
Notation align := (align query word).
Lemma align_bounds i j c : align i j c -> (i <= length query)%nat /\ (j <= length word)%nat /\ 0 <= c.
Proof.
  induction 1 as [|i j c _ IH Hi|i j c _ IH Hj|i j c x y _ IH Hx Hy|i j c x y _ IH Hx Hx' Hy Hy']; [lia|lia|lia| |].
  - apply lookup_lt_Some in Hx, Hy. destruct (x =? y); lia.
  - apply lookup_lt_Some in Hx', Hy'. lia.
Qed.
Lemma align_gap i j c : align i j c -> Z.abs (Z.of_nat i - Z.of_nat j) <= c.
Proof.
  induction 1 as [|i j c _ IH Hi|i j c _ IH Hj|i j c x y _ IH Hx Hy|i j c x y _ IH Hx Hx' Hy Hy']; try lia.
  destruct (x =? y); lia.
Qed.
Lemma align_column i : (i <= length query)%nat -> align i 0 (Z.of_nat i).
Proof.
  induction i as [|i IH]; intros Hi; [constructor|]. replace (Z.of_nat (S i)) with (Z.of_nat i + 1) by lia.
  apply align_omit; [apply IH; lia|lia].
Qed.
Lemma align_row j : (j <= length word)%nat -> align 0 j (Z.of_nat j).
Proof.
  induction j as [|j IH]; intros Hj; [constructor|]. replace (Z.of_nat (S j)) with (Z.of_nat j + 1) by lia.
  apply align_insert; [apply IH; lia|lia].
Qed.
(** Whatever goes past a row of the table went through it at no greater cost. *)
Lemma align_through i j c : align i j c -> forall k, (k <= i)%nat -> exists j' c', align k j' c' /\ c' <= c.
Proof.
  induction 1 as [|i j c H IH Hi|i j c H IH Hj|i j c x y H IH Hx Hy|i j c x y H IH Hx Hx' Hy Hy']; intros k Hk.
  - assert (k = 0)%nat as -> by lia. exists 0%nat, 0. split; [constructor|lia].
  - destruct (decide (k = S i)) as [->|]; [exists j, (c + 1); split; [by constructor|lia]|].
    destruct (IH k ltac:(lia)) as (j' & c' & ? & ?). exists j', c'. split; [done|lia].
  - destruct (IH k Hk) as (j' & c' & ? & ?). exists j', c'. split; [done|lia].
  - destruct (decide (k = S i)) as [->|]; [exists (S j), (c + (if x =? y then 0 else 1)); split; [by apply align_keep|lia]|].
    destruct (IH k ltac:(lia)) as (j' & c' & ? & ?). exists j', c'. split; [done|]. destruct (x =? y); lia.
  - destruct (decide (k = S (S i))) as [->|]; [exists (S (S j)), (c + 1); split; [by eapply align_swap|lia]|].
    destruct (decide (k = S i)) as [->|].
    + eexists (S j), _. split; [by apply (align_keep _ _ i j c x y)|]. destruct (x =? y); lia.
    + destruct (IH k ltac:(lia)) as (j' & c' & ? & ?). exists j', c'. split; [done|lia].
Qed.
End Align.

(** ** The table holds the distances up to the bound *)

Section Table.
Context (query word : text) (edits : nat).
Notation align := (align query word).
Notation e := (Z.of_nat edits).
Context (Hq : (length query <= MAX_WORD_CHARS)%nat) (Hw : (length word <= length query + edits)%nat) (He : (edits <= 2)%nat).

(** A value that is right as far as the bound reaches. *)
Definition right (i j : nat) (v : Z) : Prop := (v <= e -> align i j v) /\ forall c, align i j c -> c <= e -> v <= c.
Definition row_right (i : nat) (row : list Z) : Prop :=
  length row = ROW_CELLS /\ forall j, (j <= length word)%nat -> right i j (cell row j).
Lemma right_far i j : (edits < i - j \/ edits < j - i)%nat -> right i j (e + 1).
Proof. intros H. split; [lia|]. intros c Hc%align_gap Hle. lia. Qed.
Lemma cell_lookup (row : list Z) j : cell row j = default 0 (row !! j).
Proof. apply nth_lookup. Qed.
Lemma cell_insert_eq (row : list Z) j v : (j < length row)%nat -> cell (<[j := v]> row) j = v.
Proof. intros H. by rewrite cell_lookup, list_lookup_insert_eq. Qed.
Lemma cell_insert_ne (row : list Z) j k v : j <> k -> cell (<[j := v]> row) k = cell row k.
Proof. intros H. by rewrite !cell_lookup, list_lookup_insert_ne. Qed.
Lemma cell_repeat v n j : (j < n)%nat -> cell (repeat v n) j = v.
Proof. intros H. unfold cell. apply nth_repeat_lt. done. Qed.
Lemma char_lookup (t : text) i : (i < length t)%nat -> t !! i = Some (char_at t i).
Proof. intros [x Hx]%lookup_lt_is_Some. unfold char_at. by rewrite nth_lookup, Hx. Qed.

(** One cell. *)
Definition swapped (i j : nat) : bool :=
  (1 <? i)%nat && (1 <? j)%nat && (char_at query (i - 1) =? char_at word (j - 2)) && (char_at query (i - 2) =? char_at word (j - 1)).
Definition cell_value (previous_previous previous current : list Z) (i j : nat) : Z :=
  let v := Z.min (Z.min (cell previous j + 1) (cell current (j - 1) + 1))
             (cell previous (j - 1) + (if char_at query (i - 1) =? char_at word (j - 1) then 0 else 1)) in
  if swapped i j then Z.min v (cell previous_previous (j - 2) + 1) else v.
Lemma cell_step_value pp p current i j : (j < length current)%nat ->
  cell_step query word i pp p current j = <[j := cell_value pp p current i j]> current.
Proof.
  intros Hj. unfold cell_step, cell_value. fold (swapped i j). destruct (swapped i j); [|done].
  by rewrite list_insert_insert_eq, cell_insert_eq.
Qed.
Lemma min_upper a b c : a <= b -> Z.min a c <= b. Proof. lia. Qed.
Lemma cell_right pp p current i j :
  (i < length query)%nat -> (j < length word)%nat -> row_right i p -> ((1 <= i)%nat -> row_right (i - 1) pp) ->
  right (S i) j (cell current j) -> right (S i) (S j) (cell_value pp p current (S i) (S j)).
Proof.
  intros Hi Hj [_ Hp] Hpp Hc. unfold cell_value. cbn [Nat.sub]. rewrite !Nat.sub_0_r.
  pose proof (Hp (S j) ltac:(lia)) as [P1 P2]. pose proof (Hp j ltac:(lia)) as [Q1 Q2]. destruct Hc as [C1 C2].
  pose proof (char_lookup query i Hi) as Hx. pose proof (char_lookup word j Hj) as Hy.
  set (k := if _ =? _ then 0 else 1). assert (Hk : 0 <= k <= 1) by (unfold k; case_match; lia).
  set (v := Z.min (Z.min (cell p (S j) + 1) (cell current j + 1)) (cell p j + k)).
  assert (Hv : v <= e -> align (S i) (S j) v).
  { intros Hv. assert (Hor : v = cell p (S j) + 1 \/ v = cell current j + 1 \/ v = cell p j + k) by (unfold v; lia).
    destruct Hor as [E|[E|E]]; rewrite E in *.
    - apply align_omit; [apply P1; lia|done].
    - apply align_insert; [apply C1; lia|done].
    - apply (align_keep query word); [apply Q1; lia|done|done]. }
  assert (Hs : swapped (S i) (S j) = true -> exists i0 j0, i = S i0 /\ j = S j0 /\
            query !! i0 = word !! S j0 /\ query !! S i0 = word !! j0).
  { unfold swapped. intros [[[H1%Nat.ltb_lt H2%Nat.ltb_lt]%andb_prop H3%Z.eqb_eq]%andb_prop H4%Z.eqb_eq]%andb_prop.
    destruct i as [|i0]; [lia|]. destruct j as [|j0]; [lia|]. exists i0, j0. cbn [Nat.sub] in *. rewrite !Nat.sub_0_r in *.
    split_and!; [done|done| |]; rewrite !char_lookup by lia; by f_equal. }
  split.
  - destruct (swapped (S i) (S j)) eqn:E; [|exact Hv]. destruct (Hs eq_refl) as (i0 & j0 & -> & -> & E1 & E2).
    cbn [Nat.sub]. rewrite Nat.sub_0_r. intros Hle. destruct (Z.min_spec v (cell pp j0 + 1)) as [[? ->]|[? Em]]; [apply Hv; lia|].
    rewrite Em in *. destruct (Hpp ltac:(lia)) as [_ Hpp']. cbn [Nat.sub] in Hpp'. rewrite Nat.sub_0_r in Hpp'.
    apply (align_swap query word i0 j0 _ (char_at query i0) (char_at query (S i0))); [apply Hpp'; lia| | | |].
    + apply char_lookup. lia.
    + apply char_lookup. lia.
    + rewrite <- E2. apply char_lookup. lia.
    + rewrite <- E1. apply char_lookup. lia.
  - intros c Hc Hle.
    assert (Hmin : v <= c -> (if swapped (S i) (S j) then Z.min v (cell pp (S j - 2) + 1) else v) <= c) by (intros; case_match; lia).
    inversion Hc as [|i1 j1 c1 H1|i1 j1 c1 H1|i1 j1 c1 x y H1 Hx1 Hy1|i1 j1 c1 x y H1 Hx1 Hx2 Hy1 Hy2]; subst.
    + apply P2 in H1; [|lia]. apply Hmin. unfold v. lia.
    + apply C2 in H1; [|lia]. apply Hmin. unfold v. lia.
    + rewrite Hx in Hx1. rewrite Hy in Hy1. injection Hx1 as <-. injection Hy1 as <-. fold k in Hle, Hmin |- *.
      apply Q2 in H1; [|lia]. apply Hmin. unfold v. lia.
    + assert (E : swapped (S (S i1)) (S (S j1)) = true).
      { unfold swapped. cbn [Nat.sub]. rewrite !Nat.sub_0_r.
        unfold char_at. rewrite !nth_lookup, Hx1, Hx2, Hy1, Hy2. cbn. by rewrite !Z.eqb_refl. }
      rewrite E. cbn [Nat.sub]. rewrite Nat.sub_0_r. destruct (Hpp ltac:(lia)) as [_ Hpp']. cbn [Nat.sub] in Hpp'.
      rewrite Nat.sub_0_r in Hpp'. apply Hpp' in H1; [|lia|lia]. lia.
Qed.

(** One row. *)
Lemma row_loop i pp p : (i < length query)%nat -> row_right i p -> ((1 <= i)%nat -> row_right (i - 1) pp) ->
  forall n j current, length current = ROW_CELLS -> (1 <= j)%nat -> (j + n <= S (length word))%nat ->
  (forall k, (k < j)%nat -> right (S i) k (cell current k)) ->
  let row := foldl (cell_step query word (S i) pp p) current (seq j n) in
  length row = ROW_CELLS /\ (forall k, (k < j + n)%nat -> right (S i) k (cell row k)) /\
  forall k, (j + n <= k)%nat -> cell row k = cell current k.
Proof.
  intros Hi Hp Hpp. induction n as [|n IH]; intros j current Hl Hj Hn Hr; cbn [seq foldl].
  { split_and!; [done| |done]. intros k Hk. apply Hr. lia. }
  assert (Hlen : (j < length current)%nat) by (rewrite Hl; unfold ROW_CELLS, MAX_WORD_CHARS in *; lia).
  rewrite cell_step_value by done. destruct j as [|j]; [lia|].
  destruct (IH (S (S j)) (<[S j := cell_value pp p current (S i) (S j)]> current)) as (H1 & H2 & H3);
    [by rewrite length_insert|lia|lia| |].
  { intros k Hk. destruct (decide (k = S j)) as [->|].
    - rewrite cell_insert_eq by done. apply cell_right; [done|lia|done|done|]. apply Hr. lia.
    - rewrite cell_insert_ne by done. apply Hr. lia. }
  split_and!; [done|intros k Hk; apply H2; lia|]. intros k Hk. rewrite H3 by lia. apply cell_insert_ne. lia.
Qed.
Lemma start_row_cell infinity i k : (k < ROW_CELLS)%nat ->
  cell (start_row infinity i) k = if decide (k = 0%nat) then Z.min (Z.of_nat i) infinity else infinity.
Proof.
  intros Hk. unfold start_row. destruct (decide (k = 0%nat)) as [->|].
  - rewrite cell_insert_eq; [done|]. rewrite repeat_length. unfold ROW_CELLS. lia.
  - rewrite cell_insert_ne by done. by apply cell_repeat.
Qed.
Lemma start_right i k : (i <= length query)%nat -> (k < ROW_CELLS)%nat -> (k < band_from edits i)%nat ->
  right i k (cell (start_row (e + 1) i) k).
Proof.
  intros Hi Hk Hb. rewrite start_row_cell by done. unfold band_from in Hb. case_decide as E.
  - subst k. split; [|intros c Hc%align_gap ?; lia]. intros Hle. rewrite Z.min_l by lia. by apply align_column.
  - apply right_far. lia.
Qed.
Lemma next_row_right i pp p : (i < length query)%nat -> row_right i p -> ((1 <= i)%nat -> row_right (i - 1) pp) ->
  row_right (S i) (next_row query word edits (S i) pp p).
Proof.
  intros Hi Hp Hpp. unfold next_row, range_incl. set (from := band_from edits (S i)). set (to := band_to edits (S i) word).
  assert (Hcells : (length word < ROW_CELLS)%nat) by (unfold ROW_CELLS, MAX_WORD_CHARS in *; lia).
  assert (Hft : (from <= S to \/ length word < from)%nat) by (unfold from, to, band_from, band_to; lia).
  destruct Hft as [Hft|Hft].
  - assert (Hto : (to <= length word)%nat) by (unfold to, band_to; lia).
    destruct (row_loop i pp p Hi Hp Hpp (S to - from) from (start_row (e + 1) (S i))) as (H1 & H2 & H3).
    + unfold start_row. by rewrite length_insert, repeat_length.
    + unfold from, band_from. lia.
    + lia.
    + intros k Hk. apply start_right; [lia|lia|done].
    + split; [done|]. intros j Hj. destruct (decide (j < from + (S to - from))%nat) as [Hlt|Hge]; [by apply H2|].
      rewrite H3, start_row_cell by lia. rewrite decide_False by (unfold from, band_from in *; lia).
      apply right_far. unfold to, band_to in *. lia.
  - replace (S to - from)%nat with 0%nat by (unfold to, band_to; lia). cbn [seq foldl].
    split; [unfold start_row; by rewrite length_insert, repeat_length|]. intros j Hj. apply start_right; lia.
Qed.
Lemma first_row_right : row_right 0 (first_row (e + 1) edits).
Proof.
  assert (Hl : length (first_row (e + 1) edits) = ROW_CELLS).
  { unfold first_row. rewrite length_app, length_fmap, length_seq, repeat_length. unfold ROW_CELLS, MAX_WORD_CHARS. lia. }
  split; [done|]. intros j Hj. rewrite cell_lookup. unfold first_row. destruct (decide (j < S edits)%nat) as [H|H].
  - rewrite lookup_app_l by (rewrite length_fmap, length_seq; done). rewrite list_lookup_fmap, lookup_seq_lt by done. cbn.
    split; [intros _; by apply align_row|]. intros c Hc%align_gap ?. lia.
  - rewrite lookup_app_r by (rewrite length_fmap, length_seq; lia). rewrite length_fmap, length_seq.
    rewrite <- nth_lookup, nth_repeat_lt by (unfold ROW_CELLS, MAX_WORD_CHARS in *; lia). apply right_far. lia.
Qed.

(** All rows, or a bound that no alignment keeps. *)
Lemma blocked_row i row : (1 <= i <= length query)%nat -> (edits < length query)%nat -> (length query <= length word + edits)%nat ->
  row_right i row ->
  forallb (fun j => e <? cell row j) (range_incl (band_from edits i) (band_to edits i word)) = true ->
  forall j c, align (length query) j c -> e < c.
Proof.
  intros Hi Heq Hlen [_ Hrow] Hall j c Hc. destruct (Z.lt_ge_cases e c) as [|Hle]; [done|exfalso].
  rewrite forallb_forall in Hall.
  assert (Hcell : forall k c', align i k c' -> c' <= e -> (1 <= k)%nat -> False).
  { intros k c' Hk Hle' Hk1. pose proof (align_gap _ _ _ _ _ Hk) as Hgap. pose proof (align_bounds _ _ _ _ _ Hk) as (_ & Hkw & _).
    destruct (Hrow k Hkw) as [_ H2]. specialize (H2 _ Hk Hle').
    assert (Hin : List.In k (range_incl (band_from edits i) (band_to edits i word))).
    { unfold range_incl, band_from, band_to. apply in_seq. lia. }
    apply Hall, Z.ltb_lt in Hin. lia. }
  destruct (align_through _ _ _ _ _ Hc i) as (k & c' & Hk & Hle'); [lia|].
  destruct k as [|k]; [|apply (Hcell _ _ Hk); lia].
  pose proof (align_gap _ _ _ _ _ Hk) as Hgap.
  destruct i as [|i]; [lia|]. destruct (lookup_lt_is_Some_2 query i) as [x Hx]; [lia|].
  destruct (lookup_lt_is_Some_2 word 0) as [y Hy]; [lia|].
  apply (Hcell 1%nat (Z.of_nat i + (if x =? y then 0 else 1))); [|case_match; lia|lia].
  apply align_keep; [apply align_column; lia|done|done].
Qed.
Lemma next_rows_right : (edits < length query)%nat -> (length query <= length word + edits)%nat ->
  forall n i pp p, (i + n = length query)%nat -> row_right i p -> ((1 <= i)%nat -> row_right (i - 1) pp) ->
  match next_rows query word edits (seq (S i) n) pp p with
  | Some row => row_right (length query) row
  | None => forall j c, align (length query) j c -> e < c
  end.
Proof.
  intros Heq Hlen. induction n as [|n IH]; intros i pp p Hn Hp Hpp; cbn [seq next_rows].
  { by replace (length query) with i by lia. }
  pose proof (next_row_right i pp p ltac:(lia) Hp Hpp) as Hrow.
  destruct (forallb _ _) eqn:Hall.
  - by apply (blocked_row (S i) _ ltac:(lia) Heq Hlen Hrow Hall).
  - apply IH; [lia|done|]. intros _. cbn [Nat.sub]. by rewrite Nat.sub_0_r.
Qed.
End Table.

(** ** The distance *)

Lemma min_of_spec l : match min_of l with
  | None => l = []
  | Some m => m ∈ l /\ forall x, x ∈ l -> m <= x
  end.
Proof.
  destruct l as [|x l]; [done|]. cbn. revert x. induction l as [|y l IH]; intros x; cbn.
  - split; [set_solver|]. intros z Hz%list_elem_of_singleton. lia.
  - destruct (IH (Z.min x y)) as [H1 H2]. split.
    + apply elem_of_cons in H1 as [H1|H1]; [|set_solver]. rewrite H1. destruct (Z.min_spec x y) as [[_ ->]|[_ ->]]; set_solver.
    + intros z Hz. pose proof (H2 (Z.min x y) ltac:(set_solver)). apply elem_of_cons in Hz as [->|Hz]; [lia|].
      apply elem_of_cons in Hz as [->|Hz]; [lia|]. apply H2. set_solver.
Qed.
(** Cutting the word where no alignment within the bound can end. *)
Lemma align_take query word n i j c : align query (take n word) i j c -> align query word i j c.
Proof.
  induction 1 as [|i j c _ IH Hi|i j c _ IH Hj|i j c x y _ IH Hx Hy|i j c x y _ IH Hx Hx' Hy Hy'].
  - constructor.
  - by constructor.
  - constructor; [done|]. rewrite length_take in Hj. lia.
  - apply align_keep; [done|done|]. by apply lookup_take_Some in Hy as [? _].
  - apply (align_swap _ _ _ _ _ x y); [done|done|done| |].
    + by apply lookup_take_Some in Hy as [? _].
    + by apply lookup_take_Some in Hy' as [? _].
Qed.
Lemma align_to_take query word n i j c : align query word i j c -> (j <= n)%nat -> align query (take n word) i j c.
Proof.
  induction 1 as [|i j c _ IH Hi|i j c _ IH Hj|i j c x y _ IH Hx Hy|i j c x y _ IH Hx Hx' Hy Hy']; intros Hn.
  - constructor.
  - constructor; [by apply IH|done].
  - constructor; [apply IH; lia|]. rewrite length_take. lia.
  - apply align_keep; [apply IH; lia|done|]. apply lookup_take_Some. split; [done|lia].
  - apply (align_swap _ _ _ _ _ x y); [apply IH; lia|done|done| |]; apply lookup_take_Some; (split; [done|lia]).
Qed.

Lemma last_row_distance query word w edits row d : (length query <= length w + edits)%nat ->
  (forall j c, align query word (length query) j c -> c <= Z.of_nat edits -> align query w (length query) j c) ->
  (forall j c, align query w (length query) j c -> align query word (length query) j c) ->
  row_right query w edits (length query) row ->
  (d ← min_of (cell row <$> range_incl (length query - edits) (length w)); if d <=? Z.of_nat edits then Some d else None) = Some d <->
  (exists j, align query word (length query) j d) /\ d <= Z.of_nat edits /\
  forall j c, align query word (length query) j c -> d <= c.
Proof.
  intros Hlen Hcut Hback [_ Hrow]. pose proof (min_of_spec (cell row <$> range_incl (length query - edits) (length w))) as Hm.
  assert (Hin : forall j, (length query - edits <= j <= length w)%nat -> cell row j ∈ cell row <$> range_incl (length query - edits) (length w)).
  { intros j Hj. apply list_elem_of_fmap_2. unfold range_incl. apply elem_of_seq. lia. }
  destruct (min_of _) as [m|].
  2:{ specialize (Hin (length w) ltac:(lia)). rewrite Hm in Hin. by apply elem_of_nil in Hin. }
  destruct Hm as [(j & Ej & Hj)%list_elem_of_fmap Hmin]. unfold range_incl in Hj. apply elem_of_seq in Hj.
  destruct (Hrow j ltac:(lia)) as [R1 R2].
  assert (Hlow : forall k c, align query w (length query) k c -> c <= Z.of_nat edits -> m <= c).
  { intros k c Hc Hle. pose proof (align_gap _ _ _ _ _ Hc). pose proof (align_bounds _ _ _ _ _ Hc) as (_ & Hk & _).
    destruct (Hrow k Hk) as [_ H2]. specialize (H2 c Hc Hle). specialize (Hmin _ (Hin k ltac:(lia))). lia. }
  cbn. rewrite <- Ej in *. split.
  - destruct (Z.leb_spec m (Z.of_nat edits)) as [Hle|]; [|done]. intros [= <-]. split; [exists j; by apply Hback, R1|].
    split; [done|]. intros k c Hc. destruct (Z.le_gt_cases c (Z.of_nat edits)); [|lia]. apply (Hlow k); [by apply Hcut|done].
  - intros ((k & Hk) & Hd & Hbest). apply Hcut in Hk; [|done]. pose proof (Hlow _ _ Hk Hd) as Hmd.
    rewrite (proj2 (Z.leb_le _ _)) by lia. f_equal. apply Z.le_antisymm; [done|].
    apply (Hbest j). apply Hback, R1. lia.
Qed.
(** The spelling distance that decides which words of the index answer for a
    word of the query is the distance.  The table with its band, its bound, its
    early exit and its three rolling rows gives a number exactly when that many
    edits (a character left out, put in or replaced, or two neighbours swapped)
    turn the query into a prefix of the word, fewer do not, and they are within
    the bound. *)
Lemma prefix_distance_spec query word edits d :
  (length query <= MAX_WORD_CHARS)%nat -> (edits < length query)%nat -> (edits <= 2)%nat ->
  prefix_distance query word edits = Some d <->
  (exists j, align query word (length query) j d) /\ d <= Z.of_nat edits /\
  forall j c, align query word (length query) j c -> d <= c.
Proof.
  intros Hq Heq He. unfold prefix_distance. rewrite Nat.min_comm.
  set (w := take (Nat.min (length query + edits) (length word)) word).
  assert (Hw : length w = Nat.min (length query + edits) (length word)) by (unfold w; rewrite length_take; lia).
  assert (Hcut : forall j c, align query word (length query) j c -> c <= Z.of_nat edits -> align query w (length query) j c).
  { intros j c Hc Hle. apply align_to_take; [done|]. pose proof (align_gap _ _ _ _ _ Hc).
    pose proof (align_bounds _ _ _ _ _ Hc). lia. }
  assert (Hback : forall j c, align query w (length query) j c -> align query word (length query) j c) by (intros; by eapply align_take).
  clearbody w. destruct (length w + edits <? length query)%nat eqn:Hlen.
  { apply Nat.ltb_lt in Hlen. split; [done|]. intros ((j & Hj) & Hd & _). apply Hcut in Hj; [|done].
    pose proof (align_gap _ _ _ _ _ Hj). pose proof (align_bounds _ _ _ _ _ Hj). lia. }
  apply Nat.ltb_ge in Hlen.
  pose proof (next_rows_right query w edits Hq ltac:(lia) He Heq Hlen (length query) 0 (repeat (Z.of_nat edits + 1) ROW_CELLS)
    (first_row (Z.of_nat edits + 1) edits) eq_refl (first_row_right query w edits Hq ltac:(lia) He) ltac:(lia)) as Hrows.
  destruct (next_rows _ _ _ _ _ _) as [row|]; cbn [mbind option_bind].
  - by apply last_row_distance.
  - split; [done|]. intros ((j & Hj) & Hd & _). apply Hcut in Hj; [|done]. apply Hrows in Hj. lia.
Qed.

(** ** The tokens of a query *)

Section Tokens.
Context {CT : CharTables}.

(** A prefix is a word and one star; a phrase stands between two quotes. *)
Definition plain (t : text) : bool := forallb (fun c => negb (is_whitespace c) && negb (c =? QUOTE)) t.
Definition unquoted (t : text) : bool := forallb (fun c => negb (c =? QUOTE)) t.
Definition is_token (t : text) : Prop :=
  (exists w, t = w ++ [STAR] /\ plain w = true) \/
  (exists p, (t = QUOTE :: p ++ [QUOTE] \/ t = (QUOTE :: p ++ [QUOTE]) ++ [STAR]) /\ unquoted p = true).

Lemma split_on_plain sep t : (forall c, sep c = false -> is_whitespace c = false) -> unquoted t = true ->
  Forall (fun w => plain w = true) (split_on sep t).
Proof.
  intros Hsep. induction t as [|c t IH]; [by repeat constructor|]. cbn. intros [Hc Ht]%andb_prop. specialize (IH Ht).
  destruct (sep c) eqn:E; [by constructor|]. destruct (split_on sep t) as [|w ws].
  - repeat constructor. cbn. by rewrite (Hsep _ E), Hc.
  - inversion IH. constructor; [|done]. cbn. by rewrite (Hsep _ E), Hc.
Qed.
Lemma unquoted_tokens_are raw : unquoted raw = true -> Forall is_token (unquoted_tokens raw).
Proof.
  intros H. unfold unquoted_tokens. apply Forall_fmap, Forall_forall. intros w Hw%list_elem_of_In.
  apply filter_In in Hw as [[Hw _]%filter_In _]. left. exists w. split; [done|].
  apply list_elem_of_In in Hw. revert w Hw.
  apply (proj1 (Forall_forall (fun w => plain w = true) _)), split_on_plain; [|done].
  intros c. by destruct (is_whitespace c).
Qed.
Lemma until_quote_unquoted t : unquoted (until_quote t).1 = true.
Proof.
  induction t as [|c t IH]; [done|]. cbn. destruct (c =? QUOTE) eqn:E; [done|].
  destruct (until_quote t) as [a b]. cbn in *. by rewrite E.
Qed.
Lemma unquoted_rev t : unquoted (List.rev t) = unquoted t.
Proof.
  unfold unquoted. induction t as [|c t IH]; [done|]. cbn. rewrite forallb_app. cbn. rewrite IH. by destruct (c =? QUOTE), (forallb _ t).
Qed.
Lemma unquoted_trim_left t : unquoted t = true -> unquoted (trim_left t) = true.
Proof. induction t as [|c t IH]; [done|]. cbn. intros H. destruct (is_whitespace c); [apply IH; by apply andb_prop in H as [_ H]|done]. Qed.
Lemma unquoted_trim t : unquoted t = true -> unquoted (trim_text t) = true.
Proof.
  intros H. unfold trim_text. rewrite unquoted_rev. apply unquoted_trim_left. rewrite unquoted_rev. by apply unquoted_trim_left.
Qed.
Lemma tokens_of_are fuel : forall t outside, unquoted outside = true -> Forall is_token (tokens_of fuel t outside).
Proof.
  induction fuel as [|fuel IH]; intros t outside Ho; cbn; [by apply unquoted_tokens_are|].
  destruct t as [|c l]; [by apply unquoted_tokens_are|]. destruct (c =? QUOTE) eqn:E.
  2:{ apply IH. unfold unquoted in *. rewrite forallb_app, Ho. cbn. by rewrite E. }
  apply Forall_app. split; [by apply unquoted_tokens_are|].
  pose proof (until_quote_unquoted l) as Hp. destruct (until_quote l) as [p rest]. cbn in Hp.
  destruct (existsb _ (trim_text p)); [|by apply IH]. apply unquoted_trim in Hp.
  assert (Hq : is_token (QUOTE :: trim_text p ++ [QUOTE])) by (right; exists (trim_text p); auto).
  assert (Hqs : is_token ((QUOTE :: trim_text p ++ [QUOTE]) ++ [STAR])) by (right; exists (trim_text p); auto).
  destruct rest as [|c' rest]; [by constructor; [|apply IH]|]. destruct (c' =? STAR); by constructor; [|apply IH].
Qed.
Lemma query_tokens_are raw : Forall is_token (query_tokens raw).
Proof. by apply tokens_of_are. Qed.

(** Fuel never runs out before the text does. *)
Lemma until_quote_length t : (length (until_quote t).2 <= length t)%nat.
Proof. induction t as [|c t IH]; [done|]. cbn. destruct (c =? QUOTE); [cbn; lia|]. destruct (until_quote t); cbn in *; lia. Qed.
Lemma tokens_fuel f1 : forall f2 t outside, (length t <= f1)%nat -> (length t <= f2)%nat -> tokens_of f1 t outside = tokens_of f2 t outside.
Proof.
  induction f1 as [|f1 IH]; intros [|f2] [|c l] outside; cbn; try done; try lia. intros H1 H2.
  destruct (c =? QUOTE); [|apply IH; lia]. f_equal.
  pose proof (until_quote_length l) as Hl. destruct (until_quote l) as [p rest]. cbn in Hl.
  destruct (existsb _ _); [|apply IH; lia]. destruct rest as [|c' rest]; [by rewrite (IH f2) by (cbn; lia)|].
  destruct (c' =? STAR); [rewrite (IH f2) by (cbn in *; lia)|rewrite (IH f2) by lia]; done.
Qed.
End Tokens.

(** ** Taking the expression apart *)

Lemma parts_quoted p : forall rest part, unquoted p = true ->
  parts (p ++ QUOTE :: rest) true 0 part = parts rest false 0 ((part ++ p) ++ [QUOTE]).
Proof.
  induction p as [|c p IH]; intros rest part H; cbn [app parts].
  - rewrite Z.eqb_refl. cbn. by rewrite app_nil_r.
  - cbn in H. apply andb_prop in H as [Hc H]. rewrite Hc. apply negb_true_iff in Hc. rewrite Hc. cbn [negb andb].
    rewrite IH by done. by rewrite <- (assoc_L (++) part).
Qed.
Lemma starts_with_and_head c l : c <> SPACE -> starts_with AND (c :: l) = false.
Proof. intros H. unfold AND, starts_with. destruct (32 =? c) eqn:E; [|done]. by apply Z.eqb_eq in E as <-. Qed.
Lemma parts_plain w : forall rest part, forallb (fun c => negb (c =? SPACE) && negb (c =? QUOTE)) w = true ->
  parts (w ++ rest) false 0 part = parts rest false 0 (part ++ w).
Proof.
  induction w as [|c w IH]; intros rest part H; cbn [app parts]; [by rewrite app_nil_r|].
  cbn in H. apply andb_prop in H as [[Hs Hq]%andb_prop H]. rewrite Hq. apply negb_true_iff in Hq, Hs. rewrite Hq.
  rewrite starts_with_and_head by (intros ->; done). cbn [negb andb]. rewrite IH by done. by rewrite <- (assoc_L (++) part).
Qed.
Lemma plain_outside w : plain w = true -> forallb (fun c => negb (c =? SPACE) && negb (c =? QUOTE)) (w ++ [STAR]) = true.
Proof.
  unfold plain. rewrite !forallb_forall. intros H c [Hc|[<-|[]]]%in_app_iff; [|done]. apply H, andb_prop in Hc as [Hw Hq].
  rewrite Hq, andb_true_r. apply negb_true_iff in Hw. apply negb_true_iff, Z.eqb_neq. by intros ->.
Qed.
Lemma parts_token t rest part : is_token t -> parts (t ++ rest) false 0 part = parts rest false 0 (part ++ t).
Proof.
  intros [(w & -> & H)|(p & H & Hp)]; [by apply parts_plain, plain_outside|].
  assert (E : forall rest part, parts ((QUOTE :: p ++ [QUOTE]) ++ rest) false 0 part = parts rest false 0 (part ++ QUOTE :: p ++ [QUOTE])).
  { intros rest' part'. cbn [app]. rewrite <- (assoc_L (++)). cbn [app]. cbn [parts]. rewrite Z.eqb_refl. cbn [negb andb].
    rewrite parts_quoted by done. by rewrite <- !(assoc_L (++)). }
  destruct H as [->| ->]; [apply E|]. rewrite <- (assoc_L (++)), E.
  rewrite (parts_plain [STAR]) by done. by rewrite <- (assoc_L (++)).
Qed.
(** A token does not begin with the rest of an AND. *)
Lemma token_no_and t rest : is_token t -> starts_with [65; 78; 68; 32] (t ++ rest) = false.
Proof.
  intros [(w & -> & H)|(p & [->| ->] & _)]; [|done|done].
  destruct w as [|a [|b [|c [|d w]]]]; cbn [app starts_with]; [done| | | |].
  - by destruct (65 =? a).
  - by destruct (65 =? a), (78 =? b).
  - by destruct (65 =? a), (78 =? b), (68 =? c).
  - destruct (32 =? d) eqn:E; [|by rewrite !andb_false_r]. apply Z.eqb_eq in E as <-. cbn in H. by rewrite !andb_false_r in H.
Qed.
Lemma parts_and rest part : starts_with [65; 78; 68; 32] rest = false ->
  parts (AND ++ rest) false 0 part = (ps ← parts rest false 0 []; Some (part :: ps)).
Proof.
  intros H. cbn [app parts AND]. cbn.
  destruct rest as [|c rest]; [done|]. cbn in H. rewrite H. by destruct (parts _ _ _ _).
Qed.
Lemma join_cons sep t u ts : join sep (t :: u :: ts) = t ++ sep ++ join sep (u :: ts).
Proof. done. Qed.
Lemma parts_join ts : forall t part, Forall is_token (t :: ts) ->
  parts (join AND (t :: ts)) false 0 part = Some ((part ++ t) :: ts).
Proof.
  induction ts as [|u ts IH]; intros t part H.
  - cbn [join]. rewrite <- (app_nil_r t) at 1. rewrite parts_token by (by inversion H). done.
  - inversion H as [|? ? Ht Hts]; subst. rewrite join_cons, parts_token, parts_and; [| |done].
    + by rewrite IH.
    + assert (Hu : is_token u) by (by inversion Hts). destruct ts as [|v ts]; [|rewrite join_cons; by apply token_no_and].
      cbn [join]. rewrite <- (app_nil_r u). by apply token_no_and.
Qed.
Lemma query_parts_join ts : ts <> [] -> Forall is_token ts -> query_parts (join AND ts) = Some ts.
Proof. intros Hne H. destruct ts as [|t ts]; [done|]. unfold query_parts. by rewrite parts_join. Qed.

(** ** The best alternatives *)

#[export] Instance text_ord : OrdLaws text_cmp.
Proof.
  split.
  - intros a. induction a as [|x a IH]; intros [|y b]; cbn; try done.
    destruct (Z.compare_spec x y) as [->|H|H]; cbn; [rewrite IH; naive_solver|split; [done|intros [= -> ->]; lia]..].
  - intros a. induction a as [|x a IH]; intros [|y b]; cbn; try done.
    rewrite (Z.compare_antisym x y), IH. by destruct (x ?= y).
  - intros a. induction a as [|x a IH]; intros [|y b] [|z c]; cbn; try done.
    destruct (x ?= y) eqn:E1, (y ?= z) eqn:E2; cbn; try done; intros H1 H2; rewrite ?Z.compare_eq_iff, ?Z.compare_lt_iff in *.
    + rewrite (proj2 (Z.compare_eq_iff x z)) by lia. by apply (IH b).
    + by rewrite (proj2 (Z.compare_lt_iff x z)) by lia.
    + by rewrite (proj2 (Z.compare_lt_iff x z)) by lia.
    + by rewrite (proj2 (Z.compare_lt_iff x z)) by lia.
Qed.
#[export] Instance choice_le_po : PartialOrder choice_le.
Proof.
  set (k := fun ch => (ch_cost ch, (ch_popularity ch, ch_word ch))).
  change choice_le with (fun a b => pair_cmp Z.compare (pair_cmp Z.compare text_cmp) (k a) (k b) <> Gt).
  assert (Hk : forall a b, k a = k b -> a = b) by (intros [] [] [= -> -> ->]; done). clearbody k.
  set (c := pair_cmp _ _). assert (OrdLaws c) by apply _. clearbody c. repeat split.
  - intros a. by rewrite cmp_refl.
  - intros x y z Hxy Hyz Hxz%cmp_gt_lt; [|done]. destruct (c (k x) (k y)) eqn:E; [|clear Hxy|done].
    + apply cmp_eq_iff in E. rewrite E in Hxz. apply cmp_gt_lt in Hxz; done.
    + pose proof (cmp_trans _ _ _ Hxz E) as H1. apply cmp_gt_lt in H1; done.
  - intros x y Hxy Hyx. destruct (c (k x) (k y)) eqn:E; [by apply Hk, (cmp_eq_iff (cmp:=c))| |done].
    exfalso. apply Hyx. by apply cmp_gt_lt.
Qed.
#[export] Instance choice_le_total : Total choice_le.
Proof.
  intros a b. unfold choice_le, choice_cmp. set (c := pair_cmp _ _). assert (OrdLaws c) by apply _.
  destruct (c (_, _) _) eqn:E; [left; done|left; done|right]. by apply cmp_gt_lt in E as ->.
Qed.

(** Putting one more into a sorted list of which only the first few are kept. *)
Fixpoint put (x : Choice) (l : list Choice) : list Choice :=
  match l with [] => [x] | y :: l => if decide (choice_le x y) then x :: y :: l else y :: put x l end.
Lemma put_perm x l : put x l ≡ₚ x :: l.
Proof. induction l as [|y l IH]; cbn; [done|]. case_decide; [done|]. by rewrite IH, Permutation_swap. Qed.
Lemma put_sorted x l : StronglySorted choice_le l -> StronglySorted choice_le (put x l).
Proof.
  induction 1 as [|y l Hs IH Hy]; cbn; [by repeat constructor|]. case_decide as H.
  - constructor; [by constructor|]. constructor; [done|]. eapply Forall_impl; [exact Hy|]. intros z. by transitivity y.
  - constructor; [done|]. rewrite put_perm. constructor; [|done]. by destruct (total choice_le x y).
Qed.
Lemma sort_put x l : merge_sort choice_le (l ++ [x]) = put x (merge_sort choice_le l).
Proof.
  apply (StronglySorted_unique choice_le).
  - apply (StronglySorted_merge_sort choice_le).
  - apply put_sorted, (StronglySorted_merge_sort choice_le).
  - rewrite put_perm, !merge_sort_Permutation. by rewrite Permutation_app_comm.
Qed.
Lemma sort_sorted_id l : StronglySorted choice_le l -> merge_sort choice_le l = l.
Proof.
  intros H. apply (StronglySorted_unique choice_le); [apply (StronglySorted_merge_sort choice_le)|done|apply merge_sort_Permutation].
Qed.
Lemma sorted_take n l : StronglySorted choice_le l -> StronglySorted choice_le (take n l).
Proof.
  intros H. revert n. induction H as [|y l Hs IH Hy]; intros [|n]; cbn; [constructor..|]. constructor; [apply IH|].
  by apply Forall_take.
Qed.
Lemma take_put x n : forall l, take n (put x (take n l)) = take n (put x l).
Proof.
  induction n as [|n IH]; intros [|y l]; [done..|]. cbn. case_decide; cbn; f_equal; [|apply IH].
  destruct n as [|n]; [done|]. cbn. f_equal. by rewrite take_take, Nat.min_l by lia.
Qed.
Lemma keep_best n x l : take n (merge_sort choice_le (take n (merge_sort choice_le l) ++ [x])) = take n (merge_sort choice_le (l ++ [x])).
Proof.
  rewrite !sort_put. rewrite (sort_sorted_id (take n _)); [apply take_put|].
  apply sorted_take, (StronglySorted_merge_sort choice_le).
Qed.
Section Alternatives.
Context {CT : CharTables} {TK : Tokenizer}.
Definition alternative (query : text) (entry : text * Z) : option Choice :=
  cost ← match_cost query entry.1;
  Some {| ch_cost := cost; ch_popularity := - entry.2; ch_word := entry.1 |}.
Lemma choices_fold query es : forall l,
  foldl (choices_step query) (take MAX_ALTERNATIVES (merge_sort choice_le l)) es =
  take MAX_ALTERNATIVES (merge_sort choice_le (l ++ omap (alternative query) es)).
Proof.
  induction es as [|entry es IH]; intros l; cbn [foldl omap list_omap]; [by rewrite app_nil_r|].
  assert (Ha : alternative query entry = cost ← match_cost query entry.1;
            Some {| ch_cost := cost; ch_popularity := - entry.2; ch_word := entry.1 |}) by done.
  rewrite Ha. unfold choices_step at 2. destruct (match_cost query entry.1) as [cost|]; cbn [mbind option_bind]; [|apply IH].
  by rewrite keep_best, IH, <- (assoc_L (++)).
Qed.
Lemma choices_are_best vocabulary query :
  choices_for vocabulary query = take MAX_ALTERNATIVES (merge_sort choice_le (omap (alternative query) (indexed_words vocabulary))).
Proof. apply (choices_fold query _ []). Qed.

(** Characters of a query that stand together in a word. *)
Lemma text_starts_with p l : starts_with p l = true <-> exists b, l = p ++ b.
Proof.
  revert l. induction p as [|a p IH]; intros l; cbn [starts_with app].
  { split; [by exists l|done]. }
  destruct l as [|c l]; [split; [done|by intros (? & ?)]|]. rewrite andb_true_iff, Z.eqb_eq, IH. split.
  - intros [-> [b ->]]. by exists b.
  - intros [b [= -> ->]]. split; [done|by exists b].
Qed.
Lemma contains_spec p l : contains p l = true <-> exists a b, l = a ++ p ++ b.
Proof.
  induction l as [|c l IH]; cbn [contains]; rewrite orb_true_iff, text_starts_with.
  - split; [intros [[b ->]|[=]]; by exists [], b|]. intros ([|x a] & b & E); [left; by exists b|done].
  - rewrite IH. split.
    + intros [[b ->]|(a & b & ->)]; [by exists [], b|by exists (c :: a), b].
    + intros ([|x a] & b & E); [left; by exists b|]. injection E as -> E. right. by exists a, b.
Qed.

Lemma part_choices_none vocabulary n ps : forallb (fun part => bool_decide (eligible_word part = None)) ps = true ->
  zip_with expand_part ps (part_choices vocabulary n ps) = ps.
Proof.
  induction ps as [|part ps IH]; [done|]. cbn. intros [H%bool_decide_eq_true_1 Hps]%andb_prop.
  rewrite H. cbn. by rewrite IH.
Qed.

(** A query is never lost on its way to the index, and never trips the code
    that takes it apart.  Whatever was typed, the expression is the tokens that
    the sanitizer found, each a word with a star or a phrase between quotes,
    with AND between them; splitting it at the ANDs outside quotes gives back
    these tokens, and the expanded expression is token for token the same or
    the same with alternatives.  Only a query with no token at all has no
    expression. *)
Theorem every_token_is_searched_for vocabulary raw :
  Forall is_token (query_tokens raw) /\
  match query_tokens raw with
  | [] => compile vocabulary raw = None
  | ts => sanitize_fts5_query raw = Some (join AND ts) /\ query_parts (join AND ts) = Some ts /\
      compile vocabulary raw = Some {| exact := join AND ts;
        expanded := join AND (zip_with expand_part ts (part_choices vocabulary MAX_EXPANDED_TERMS ts)) |}
  end.
Proof.
  split; [apply query_tokens_are|]. pose proof (query_tokens_are raw) as Ht. unfold compile, sanitize_fts5_query.
  destruct (query_tokens raw) as [|t ts]; [done|]. split; [done|]. pose proof (query_parts_join (t :: ts) ltac:(done) Ht) as Hp.
  split; [done|]. cbn [mbind option_bind]. rewrite Hp. cbn [mbind option_bind].
  destruct (forallb _ (t :: ts)) eqn:E; [|done]. by rewrite part_choices_none.
Qed.

(** C16: The alternatives a word of the query gets are the right ones.  They are
    the sixteen best of all the words of the index that qualify, though the code
    keeps only sixteen at any time; every one of them has the query inside it, or
    is spelled within one edit of it (two from eight letters on), where the cost
    is the number of edits that turn the query into a beginning of the word and
    no fewer do. *)
Theorem alternatives_are_the_closest_words vocabulary query :
  (2 < length query <= MAX_WORD_CHARS)%nat ->
  choices_for vocabulary query = take MAX_ALTERNATIVES (merge_sort choice_le (omap (alternative query) (indexed_words vocabulary))) /\
  forall ch, ch ∈ choices_for vocabulary query ->
    (ch_word ch, - ch_popularity ch) ∈ vocabulary /\
    ((exists a b, ch_word ch = a ++ query ++ b) /\ ch_cost ch = 1 \/
     (exists j, align query (ch_word ch) (length query) j (ch_cost ch)) /\
     ch_cost ch <= (if (8 <=? length query)%nat then 2 else 1) /\
     forall j c, align query (ch_word ch) (length query) j c -> ch_cost ch <= c).
Proof.
  intros Hq. pose proof (choices_are_best vocabulary query) as E. split; [done|]. intros ch Hch.
  rewrite E in Hch. apply elem_of_take in Hch as (i & Hch & _). apply list_elem_of_lookup_2 in Hch.
  rewrite merge_sort_Permutation in Hch. apply list_elem_of_omap in Hch as ((word & popularity) & Hin & Halt).
  unfold alternative in Halt. cbn in Halt. destruct (match_cost query word) as [cost|] eqn:Hcost; [|done].
  injection Halt as <-. cbn [ch_cost ch_popularity ch_word]. split.
  { rewrite Z.opp_involutive. apply list_elem_of_In, filter_In in Hin as [Hin _]. by apply list_elem_of_In. }
  unfold match_cost in Hcost. destruct (starts_with query word); [done|]. destruct (contains query word) eqn:Hcon.
  { injection Hcost as <-. left. split; [by apply contains_spec|done]. }
  destruct (negb _); [done|]. right.
  apply prefix_distance_spec in Hcost as (Hex & Hle & Hbest); [|lia|destruct (Nat.leb_spec 8 (length query)); lia|case_match; lia].
  split; [done|]. split; [|done]. revert Hle. case_match; lia.
Qed.
End Alternatives.


(** ** An index *)

Module SearchDemo.
(** The characters of a string, an apostrophe standing for the quote. *)
Definition chars (s : string) : text :=
  (fun a => let c := Z.of_N (Ascii.N_of_ascii a) in if c =? 39 then QUOTE else c) <$> String.list_ascii_of_string s.
Definition is_letter (c : Z) : bool := (97 <=? ascii_lower c) && (ascii_lower c <=? 122).
#[export] Instance tables : CharTables :=
  {| is_alphabetic := is_letter; is_alphanumeric c := is_letter c || ((48 <=? c) && (c <=? 57)) |}.
#[export] Instance tokenizer : Tokenizer := {| fts_terms word := [ascii_lower <$> word] |}.
Definition vocabulary : list (text * Z) :=
  [(chars "meat", 1); (chars "meeting", 3); (chars "greeting", 2); (chars "metering", 7); (chars "lameetignore", 1); (chars "me", 9)].
Definition expanded_of (s : string) : option text := expanded <$> compile vocabulary (chars s).
Lemma splits_tokens : query_tokens (chars "foo-bar 'AND x'* not _") = [chars "foo*"; chars "bar*"; chars "'AND x'*"].
Proof. vm_compute. reflexivity. Qed.
Lemma corrects_a_swap : expanded_of "meetign" = Some (chars "(meetign* OR 'meeting' OR 'lameetignore')").
Proof. vm_compute. reflexivity. Qed.
Lemma drops_an_open_quote : expanded_of "Xeat 'notes" = Some (chars "(Xeat* OR 'meat') AND notes*").
Proof. vm_compute. reflexivity. Qed.
Definition found : Choice := {| ch_cost := 1; ch_popularity := - 3; ch_word := chars "meeting" |}.
End SearchDemo.
Import SearchDemo.

Lemma alternatives_are_the_closest_words_witness :
  found ∈ choices_for vocabulary (chars "meetign") /\
  (chars "meeting", 3) ∈ vocabulary.
Proof.
  assert (Hch : found ∈ choices_for vocabulary (chars "meetign")).
  { vm_compute. by apply list_elem_of_here. }
  split; [exact Hch|].
  destruct (alternatives_are_the_closest_words vocabulary (chars "meetign")) as [_ H];
    [vm_compute; lia|]. exact (proj1 (H _ Hch)).
Defined.
