(* ===== verification/Pages.v ===== *)
(** Reading the history list page by page ([copypaste-core/src/storage/page.rs],
    [list] of [storage/items.rs]).

    The first part is what any keyset paging owes its reader, whatever the order:
    it is shared with the filtered queries of [HistoryQuery.v]. *)

From S2P Require Import Prelude Float64 Bytes Text Wire Binary Payload Table Items ItemSafety Organization Versions Scan Retention Source Pinning Backup.

(** ** Paging through a changing list *)

Section Paging.
Context {Item Pos Cursor : Type} (cmp : Pos -> Pos -> comparison) `{!OrdLaws cmp}.
Context (place : Item -> Pos) (mark : Cursor -> Pos).

Definition listed_before (x y : Item) : Prop := cmp (place x) (place y) = Lt.
Definition past (c : option Cursor) (x : Item) : bool :=
  match c with Some c => match cmp (mark c) (place x) with Lt => true | _ => false end | None => true end.
(** A page of the list [l] from a cursor: the first of what is past the cursor,
    and all of it when there is no cursor to go on from. *)
Definition page_of (l : list Item) (c : option Cursor) (items : list Item) (next : option Cursor) : Prop :=
  exists k, items = take k (List.filter (past c) l) /\
    match next with
    | None => items = List.filter (past c) l
    | Some c' => exists x, last items = Some x /\ mark c' = place x
    end.
(** Pages read one after the other, each from where the one before stopped,
    while the list may change from one to the next; the last has no cursor. *)
Inductive walk : option Cursor -> list (list Item) -> list Item -> Prop :=
  | walk_end c l items : page_of l c items None -> walk c [l] items
  | walk_page c l ls items c' rest :
      page_of l c items (Some c') -> walk (Some c') ls rest -> walk c (l :: ls) (items ++ rest).

Lemma in_filter (f : Item -> bool) l x : x ∈ List.filter f l <-> x ∈ l /\ f x = true.
Proof. by rewrite !list_elem_of_In, filter_In. Qed.
Lemma filter_keeps (f : Item -> bool) l : (forall x, x ∈ l -> f x = true) -> List.filter f l = l.
Proof. induction l as [|x l IH]; cbn; [done|]. intros H. rewrite (H x), IH; [done|intros; apply H; by right|by left]. Qed.
Lemma filter_drops (f : Item -> bool) l : (forall x, x ∈ l -> f x = false) -> List.filter f l = [].
Proof. induction l as [|x l IH]; cbn; [done|]. intros H. rewrite (H x), IH; [done|intros; apply H; by right|by left]. Qed.
Lemma past_none l : List.filter (past None) l = l.
Proof. induction l as [|x l IH]; [done|]. cbn. by rewrite IH. Qed.
Lemma sorted_filter (f : Item -> bool) l : StronglySorted listed_before l -> StronglySorted listed_before (List.filter f l).
Proof.
  induction 1 as [|x l Hs IH Hx]; cbn; [constructor|]. destruct (f x); [|done]. constructor; [done|].
  rewrite Forall_forall in *. intros y [Hy _]%in_filter. by apply Hx.
Qed.
Lemma sorted_take_of n l : StronglySorted listed_before l -> StronglySorted listed_before (take n l).
Proof. intros Hl. rewrite <- (take_drop n l) in Hl. by apply StronglySorted_app_1_l in Hl. Qed.
(** The last of a sorted list comes after the others. *)
Lemma last_is_last l x y : StronglySorted listed_before l -> last l = Some x -> y ∈ l -> y = x \/ listed_before y x.
Proof.
  intros Hs Hl Hy. apply last_Some in Hl as [l' ->]. apply elem_of_app in Hy as [Hy|Hy%list_elem_of_singleton]; [|by left].
  right. eapply StronglySorted_app_1_elem_of; [exact Hs|done|by apply list_elem_of_singleton].
Qed.
Lemma listed_trans x y z : listed_before x y -> listed_before y z -> listed_before x z.
Proof. apply cmp_trans. Qed.
Lemma past_spec c x : past (Some c) x = true <-> cmp (mark c) (place x) = Lt.
Proof. cbn. by destruct (cmp (mark c) (place x)). Qed.

(** What one page leaves to the next is what is past its cursor. *)
Lemma page_split l c items c' : StronglySorted listed_before l -> page_of l c items (Some c') ->
  List.filter (past c) l = items ++ List.filter (past (Some c')) l.
Proof.
  intros Hs (k & -> & x & Hlast & Hx). set (F := List.filter (past c) l) in *.
  assert (HF : StronglySorted listed_before F) by by apply sorted_filter.
  rewrite <- (take_drop k F) at 1. f_equal.
  assert (Hin : x ∈ F). { apply (elem_take k). apply last_Some in Hlast as [l' ->]. set_solver. }
  assert (E : List.filter (past (Some c')) F = List.filter (past (Some c')) l).
  { assert (Hsub : forall y, past (Some c') y = true -> past c y = true).
    { intros y Hy. apply past_spec in Hy. rewrite Hx in Hy. destruct c as [c|]; [|done]. apply past_spec.
      apply in_filter in Hin as [_ Hin]. apply past_spec in Hin. by eapply cmp_trans. }
    unfold F. clear -Hsub. induction l as [|y l IH]; [done|]. cbn [List.filter]. destruct (past c y) eqn:E1; cbn [List.filter].
    - destruct (past (Some c') y); [by rewrite IH|done].
    - destruct (past (Some c') y) eqn:E2; [|done]. apply Hsub in E2. congruence. }
  rewrite <- E. rewrite <- (take_drop k F) at 2. rewrite List.filter_app.
  rewrite (filter_drops _ (take k F)), (filter_keeps _ (drop k F)); [done| |].
  - intros y Hy. apply past_spec. rewrite Hx. rewrite <- (take_drop k F) in HF.
    change (listed_before x y). eapply StronglySorted_app_1_elem_of; [exact HF| |done]. apply last_Some in Hlast as [l' ->]. set_solver.
  - intros y Hy. apply not_true_iff_false. intros Hp%past_spec. rewrite Hx in Hp.
    destruct (last_is_last (take k F) x y) as [->|Hb]; [by apply sorted_take_of|done|done| |].
    + rewrite cmp_refl in Hp; done.
    + unfold listed_before in Hb. rewrite (cmp_antisym (cmp:=cmp) (place y) (place x)), Hb in Hp. done.
Qed.
Lemma page_past l c items next x : page_of l c items next -> x ∈ items -> x ∈ l /\ past c x = true.
Proof. intros (k & -> & _) Hx%elem_take. by apply in_filter. Qed.

(** Whatever happens to the list, what was read stands in order, each once. *)
Lemma walk_sorted c ls rows : walk c ls rows -> Forall (StronglySorted listed_before) ls ->
  StronglySorted listed_before rows /\ forall x, x ∈ rows -> past c x = true.
Proof.
  induction 1 as [c l items H|c l ls items c' rest H Hw IH]; intros Hs; inversion Hs as [|? ? Hl Hls]; subst.
  - split; [|intros x Hx; by eapply page_past]. destruct H as (k & -> & _). by apply sorted_take_of, sorted_filter.
  - destruct (IH Hls) as [Hr Hp]. assert (Hi : StronglySorted listed_before items).
    { destruct H as (k & -> & _). by apply sorted_take_of, sorted_filter. }
    pose proof H as (k & _ & x & Hlast & Hx).
    assert (Hafter : forall y z, y ∈ items -> z ∈ rest -> listed_before y z).
    { intros y z Hy Hz%Hp. apply past_spec in Hz. rewrite Hx in Hz.
      destruct (last_is_last items x y) as [->|Hb]; [done|done|done|exact Hz|by eapply cmp_trans]. }
    split; [by apply StronglySorted_app|]. intros z [Hz|Hz]%elem_of_app; [by eapply page_past|].
    assert (Hin : x ∈ items) by (apply last_Some in Hlast as [l' ->]; set_solver).
    destruct c as [c|]; [|done]. apply past_spec. destruct (page_past _ _ _ _ _ H Hin) as [_ Hxc%past_spec].
    eapply cmp_trans; [exact Hxc|]. by apply Hafter.
Qed.
(** What keeps its place while the pages are read is read. *)
Lemma walk_complete c ls rows p : walk c ls rows -> Forall (StronglySorted listed_before) ls ->
  (forall c0, c = Some c0 -> cmp (mark c0) p = Lt) -> Forall (fun l => exists x, x ∈ l /\ place x = p) ls ->
  exists x, x ∈ rows /\ place x = p.
Proof.
  induction 1 as [c l items H|c l ls items c' rest H Hw IH]; intros Hs Hp Hin; inversion Hs as [|? ? Hl Hls]; subst;
    inversion Hin as [|? ? (x & Hx & <-) Hrest]; subst.
  all: assert (Hxp : past c x = true) by (destruct c as [c|]; [by apply past_spec, Hp|done]).
  all: assert (Hf : x ∈ List.filter (past c) l) by by apply in_filter.
  - destruct H as (k & _ & ->). by exists x.
  - rewrite (page_split l c items c') in Hf by done. apply elem_of_app in Hf as [Hf|Hf].
    + exists x. split; [|done]. apply elem_of_app. by left.
    + destruct IH as (y & Hy & E); [done| |done|exists y; split; [|done]; apply elem_of_app; by right].
      intros c0 [= <-]. apply in_filter in Hf as [_ Hf]. by apply past_spec.
Qed.

(** Reading on until there is no cursor. *)
Fixpoint read_all (page : option Cursor -> list Item * option Cursor) (fuel : nat) (c : option Cursor) : option (list Item) :=
  match fuel with
  | O => None
  | S fuel => match page c with
              | (items, Some c') => rest ← read_all page fuel (Some c'); Some (items ++ rest)
              | (items, None) => Some items
              end
  end.
Lemma read_all_spec page l : StronglySorted listed_before l -> (forall c, page_of l c (page c).1 (page c).2) ->
  forall fuel c, (length (List.filter (past c) l) < fuel)%nat -> read_all page fuel c = Some (List.filter (past c) l).
Proof.
  intros Hs Hpage. induction fuel as [|fuel IH]; intros c Hf; cbn [read_all]; [lia|].
  specialize (Hpage c). destruct (page c) as [items [c'|]]; cbn in Hpage.
  - rewrite (page_split l c items c') in Hf |- * by done. rewrite length_app in Hf.
    destruct Hpage as (k & _ & x & Hlast & _). destruct items as [|y items]; [done|]. cbn in Hf.
    rewrite IH by lia. done.
  - destruct Hpage as (k & _ & ->). done.
Qed.
End Paging.

(** ** The history list *)

Record ItemCursor := { cur_pinned : bool; cur_pin_order : option f64; cur_created_at : Z; cur_id : string }.
Record Page := { pg_items : list StoredItem; pg_next : option ItemCursor }.
Inductive BoundedFetch := Exhausted | CountReached | BudgetReached.
Definition cursor_of (i : StoredItem) : ItemCursor :=
  {| cur_pinned := st_pinned i; cur_pin_order := st_pin_order i; cur_created_at := st_created_at i; cur_id := st_id i |}.

(** [ORDER BY created_at DESC, id DESC]. *)
Definition newer (r q : Row) : Prop := key_cmp (row_key r) (row_key q) <> Lt.
#[export] Instance newer_dec r q : Decision (newer r q).
Proof. unfold newer. apply _. Defined.
Definition is_unpinned (r : Row) : bool := is_live r && negb (r_pinned r).
Definition real_gt (x y : f64) : bool := real_key y <? real_key x.
Definition same_order (a b : option f64) : bool := bool_decide (real_key <$> a = real_key <$> b).
(** The expansion of "after this row" in [PINNED_SEEK_SQL]; [IS] takes two NULLs
    for the same. *)
Definition after_pinned (c : ItemCursor) (r : Row) : bool :=
  match r_pin_order r with
  | Some o => match cur_pin_order c with None => true | Some p => real_gt o p end
  | None => false
  end
  || (same_order (r_pin_order r) (cur_pin_order c) && (r_created_at r <? cur_created_at c))
  || (same_order (r_pin_order r) (cur_pin_order c) && (r_created_at r =? cur_created_at c)
      && match str_cmp (r_id r) (cur_id c) with Lt => true | _ => false end).
Definition after_unpinned (c : ItemCursor) (r : Row) : bool :=
  (r_created_at r <=? cur_created_at c)
  && ((r_created_at r <? cur_created_at c) || match str_cmp (r_id r) (cur_id c) with Lt => true | _ => false end).

(** The four statements, before their LIMIT. *)
Definition PINNED_HEAD_SQL (s : Store) : list Row := merge_sort before (List.filter is_pinned (rows s)).
Definition PINNED_SEEK_SQL (c : ItemCursor) (s : Store) : list Row :=
  merge_sort before (List.filter (fun r => is_pinned r && after_pinned c r) (rows s)).
Definition UNPINNED_HEAD_SQL (s : Store) : list Row := merge_sort newer (List.filter is_unpinned (rows s)).
Definition UNPINNED_SEEK_SQL (c : ItemCursor) (s : Store) : list Row :=
  merge_sort newer (List.filter (fun r => is_unpinned r && after_unpinned c r) (rows s)).

Section Reading.
Context (s : Store).
Definition fetch (selected : list Row) (limit : nat) (out : list StoredItem) : list StoredItem :=
  out ++ ((fun r => row_to_item r s) <$> take limit selected).
Definition in_pinned_run (after : option ItemCursor) : bool :=
  match after with None => true | Some c => cur_pinned c end.
Definition first_run (after : option ItemCursor) : list Row :=
  match after with
  | None => PINNED_HEAD_SQL s
  | Some c => if cur_pinned c then PINNED_SEEK_SQL c s else UNPINNED_SEEK_SQL c s
  end.
Definition list_from (after : option ItemCursor) (limit : nat) : Page :=
  let out := fetch (first_run after) limit [] in
  let short := (limit - Nat.min (length out) limit)%nat in
  let out := if (0 <? short)%nat && in_pinned_run after then fetch (UNPINNED_HEAD_SQL s) short out else out in
  {| pg_items := out;
     pg_next := if (length out =? limit)%nat && (0 <? limit)%nat then cursor_of <$> last out else None |}.

Definition next_bytes (bytes : Z) (i : StoredItem) : Z :=
  usize_saturating_add (usize_saturating_add bytes (len (st_ciphertext i)))
    (match st_metadata i with Some m => str_len m | None => 0 end).
Fixpoint fetch_bounded (selected : list Row) (limit : nat) (budget bytes : Z) (out : list StoredItem)
    : BoundedFetch * Z * list StoredItem :=
  match selected with
  | [] => (Exhausted, bytes, out)
  | r :: selected =>
    let i := row_to_item r s in
    if (length out =? limit)%nat then (CountReached, bytes, out)
    else let n := next_bytes bytes i in
         if negb (bool_decide (out = [])) && (budget <? n) then (BudgetReached, bytes, out)
         else fetch_bounded selected limit budget n (out ++ [i])
  end.
Definition list_from_bounded (after : option ItemCursor) (limit : nat) (budget : Z) : Page :=
  if (limit =? 0)%nat then {| pg_items := []; pg_next := None |}
  else
    let '(result, bytes, out) := fetch_bounded (take (limit + 1) (first_run after)) limit budget 0 [] in
    let '(result, bytes, out) :=
      match result, in_pinned_run after with
      | Exhausted, true => fetch_bounded (take (limit - length out + 1) (UNPINNED_HEAD_SQL s)) limit budget bytes out
      | _, _ => (result, bytes, out)
      end in
    {| pg_items := out;
       pg_next := match result with Exhausted => None | _ => cursor_of <$> last out end |}.

(** [list], with its window. *)
Definition list_window (limit offset : nat) : list StoredItem :=
  (fun r => row_to_item r s) <$> take limit (drop offset (live_items s)).
Definition cursor_for (id : string) : result StoreError ItemCursor :=
  match items s !! id with
  | Some r => if r_deleted r then Err NotFound else Ok (cursor_of (row_to_item r s))
  | None => Err NotFound
  end.
End Reading.

(** ** The order of the list *)

(** Pinned items by their place among the pins, then the others by their age. *)
Definition list_place (pinned : bool) (order : option f64) (created_at : Z) (id : string) : Z * (option Z * (Z * string)) :=
  (if pinned then 0 else 1, (if pinned then real_key <$> order else None, (created_at, id))).
Definition item_place (i : StoredItem) := list_place (st_pinned i) (st_pin_order i) (st_created_at i) (st_id i).
Definition cursor_place (c : ItemCursor) := list_place (cur_pinned c) (cur_pin_order c) (cur_created_at c) (cur_id c).
Definition row_place (r : Row) := list_place (r_pinned r) (r_pin_order r) (r_created_at r) (r_id r).
Definition place_cmp : Z * (option Z * (Z * string)) -> Z * (option Z * (Z * string)) -> comparison :=
  pair_cmp Z.compare position_cmp.
(** The whole list, as it stands in one state of the history. *)
Definition history_rows (s : Store) : list Row := PINNED_HEAD_SQL s ++ UNPINNED_HEAD_SQL s.
Definition history_list (s : Store) : list StoredItem := (fun r => row_to_item r s) <$> history_rows s.

#[export] Instance place_ord : OrdLaws place_cmp.
Proof. unfold place_cmp. apply _. Qed.
#[export] Instance newer_total : Total newer.
Proof.
  intros r q. unfold newer. rewrite (cmp_antisym (cmp:=key_cmp) (row_key r) (row_key q)).
  destruct (key_cmp (row_key r) (row_key q)); cbn; auto.
Qed.
#[export] Instance newer_trans : Transitive newer.
Proof.
  intros r q t. unfold newer. intros H1 H2 H3. destruct (key_cmp (row_key q) (row_key t)) eqn:E.
  - apply (cmp_eq_iff (cmp:=key_cmp)) in E. congruence.
  - done.
  - apply (cmp_gt_lt key_cmp) in E. apply H1. by eapply (cmp_trans (cmp:=key_cmp) _ (row_key t)).
Qed.

(** Filtering what is sorted, or sorting what is filtered. *)
Lemma filter_sort {A} (R : relation A) `{!forall x y, Decision (R x y)} `{!Total R, !Transitive R} (f : A -> bool) l :
  antisym_on R l -> merge_sort R (List.filter f l) = List.filter f (merge_sort R l).
Proof.
  intros Ha. apply (sorted_unique R).
  - intros x y. rewrite !merge_sort_Permutation, !list_elem_of_In, !filter_In, <- !list_elem_of_In. intros [Hx _] [Hy _]. by apply Ha.
  - apply (StronglySorted_merge_sort R).
  - assert (Hss : StronglySorted R (merge_sort R l)) by apply (StronglySorted_merge_sort R).
    induction Hss as [|x k Hs IH Hx]; cbn; [constructor|]. destruct (f x); [|done]. constructor; [done|].
    rewrite Forall_forall in *. intros y. rewrite list_elem_of_In, filter_In, <- list_elem_of_In. intros [Hy _]. by apply Hx.
  - assert (Hf : forall a b : list A, a ≡ₚ b -> List.filter f a ≡ₚ List.filter f b).
    { induction 1 as [|x a b _ IH|x y a|a b c _ IH1 _ IH2]; cbn; [done| | |by etransitivity].
      - destruct (f x); by rewrite IH.
      - destruct (f x), (f y); by constructor || done. }
    rewrite merge_sort_Permutation. apply Hf. by rewrite merge_sort_Permutation.
Qed.
Lemma rows_by_id s r q : keyed (items s) -> r ∈ rows s -> q ∈ rows s -> r_id r = r_id q -> r = q.
Proof.
  intros Hk [k Hr]%elem_of_rows [j Hq]%elem_of_rows E. pose proof (Hk _ _ Hr). pose proof (Hk _ _ Hq). congruence.
Qed.
Lemma before_antisym s : keyed (items s) -> antisym_on before (rows s).
Proof.
  intros Hk r q Hr Hq H1 H2. apply (rows_by_id s); [done..|]. unfold before in *.
  destruct (position_cmp (pin_position r) (pin_position q)) eqn:E; [|apply (cmp_gt_lt position_cmp) in E; done|done].
  apply (cmp_eq_iff (cmp:=position_cmp)) in E. injection E. done.
Qed.
Lemma newer_antisym s : keyed (items s) -> antisym_on newer (rows s).
Proof.
  intros Hk r q Hr Hq H1 H2. apply (rows_by_id s); [done..|]. unfold newer in *.
  destruct (key_cmp (row_key r) (row_key q)) eqn:E; [|done|apply (cmp_gt_lt key_cmp) in E; done].
  apply (cmp_eq_iff (cmp:=key_cmp)) in E. injection E. done.
Qed.
Lemma antisym_filter {A} (R : relation A) f l : antisym_on R l -> antisym_on R (List.filter f l).
Proof. intros Ha x y. rewrite !list_elem_of_In, !filter_In, <- !list_elem_of_In. intros [Hx _] [Hy _]. by apply Ha. Qed.
Lemma filter_both {A} (f g : A -> bool) l : List.filter (fun x => f x && g x) l = List.filter g (List.filter f l).
Proof. induction l as [|x l IH]; [done|]. cbn. destruct (f x); cbn; [|done]. destruct (g x); by rewrite IH. Qed.
Lemma filter_agree {A} (f g : A -> bool) l : (forall x, x ∈ l -> f x = g x) -> List.filter f l = List.filter g l.
Proof. induction l as [|x l IH]; [done|]. cbn. intros H. rewrite (H x), IH; [done|intros; apply H; by right|by left]. Qed.

(** Selecting what is past a cursor is what the statements do. *)
Definition row_past (c : ItemCursor) (r : Row) : bool :=
  match place_cmp (cursor_place c) (row_place r) with Lt => true | _ => false end.
Lemma after_pinned_past c r : cur_pinned c = true -> r_pinned r = true -> after_pinned c r = row_past c r.
Proof.
  intros Hc Hr. unfold row_past, cursor_place, row_place, list_place, place_cmp. rewrite Hc, Hr.
  unfold after_pinned, same_order, real_gt, position_cmp, key_cmp, pair_cmp. cbn.
  rewrite (cmp_antisym (cmp:=str_cmp) (cur_id c) (r_id r)).
  destruct (r_pin_order r) as [o|], (cur_pin_order c) as [p|]; cbn.
  - destruct (Z.compare_spec (real_key p) (real_key o)) as [E|E|E]; cbn.
    + rewrite E, bool_decide_eq_true_2, Z.ltb_irrefl by done. cbn.
      destruct (Z.compare_spec (r_created_at r) (cur_created_at c)) as [F|F|F]; cbn.
      * rewrite F, Z.ltb_irrefl, Z.eqb_refl. cbn. by destruct (str_cmp _ _).
      * by rewrite (proj2 (Z.ltb_lt _ _) F).
      * rewrite (proj2 (Z.ltb_ge _ _)), (proj2 (Z.eqb_neq _ _)) by lia. done.
    + by rewrite (proj2 (Z.ltb_lt _ _) E).
    + rewrite (proj2 (Z.ltb_ge _ _)), bool_decide_eq_false_2; [done|intros [= ?]; lia|lia].
  - done.
  - done.
  - destruct (Z.compare_spec (r_created_at r) (cur_created_at c)) as [F|F|F]; cbn.
    + rewrite F, Z.ltb_irrefl, Z.eqb_refl. cbn. by destruct (str_cmp _ _).
    + by rewrite (proj2 (Z.ltb_lt _ _) F).
    + rewrite (proj2 (Z.ltb_ge _ _)), (proj2 (Z.eqb_neq _ _)) by lia. done.
Qed.
Lemma after_unpinned_past c r : cur_pinned c = false -> r_pinned r = false -> after_unpinned c r = row_past c r.
Proof.
  intros Hc Hr. unfold row_past, cursor_place, row_place, list_place, place_cmp. rewrite Hc, Hr.
  unfold after_unpinned, position_cmp, key_cmp, pair_cmp. cbn.
  rewrite (cmp_antisym (cmp:=str_cmp) (cur_id c) (r_id r)).
  destruct (Z.compare_spec (r_created_at r) (cur_created_at c)) as [F|F|F]; cbn.
  - rewrite F, Z.ltb_irrefl, Z.leb_refl. cbn. by destruct (str_cmp _ _).
  - by rewrite (proj2 (Z.leb_le _ _)), (proj2 (Z.ltb_lt _ _)) by lia.
  - by rewrite (proj2 (Z.leb_gt _ _)) by lia.
Qed.

Lemma elem_head s r : r ∈ PINNED_HEAD_SQL s -> r ∈ rows s /\ is_pinned r = true.
Proof. unfold PINNED_HEAD_SQL. rewrite merge_sort_Permutation. apply in_filter. Qed.
Lemma elem_unpinned_head s r : r ∈ UNPINNED_HEAD_SQL s -> r ∈ rows s /\ is_unpinned r = true.
Proof. unfold UNPINNED_HEAD_SQL. rewrite merge_sort_Permutation. apply in_filter. Qed.
Lemma is_pinned_pinned r : is_pinned r = true -> r_pinned r = true.
Proof. unfold is_pinned. by intros [? _]%andb_prop. Qed.
Lemma is_unpinned_not r : is_unpinned r = true -> r_pinned r = false.
Proof. unfold is_unpinned. by intros [_ ?%negb_true_iff]%andb_prop. Qed.

Definition row_before (r q : Row) : Prop := place_cmp (row_place r) (row_place q) = Lt.
Lemma sorted_strictly {A} (R S : relation A) l : StronglySorted R l -> NoDup l ->
  (forall x y, x ∈ l -> y ∈ l -> x <> y -> R x y -> S x y) -> StronglySorted S l.
Proof.
  induction 1 as [|x l Hs IH Hx]; intros Hnd H; [constructor|]. apply NoDup_cons in Hnd as [Hn Hnd]. constructor.
  - apply IH; [done|]. intros; apply H; [by right..|done|done].
  - rewrite Forall_forall in Hx |- *. intros y Hy. apply H; [by left|by right|by intros ->|by apply Hx].
Qed.
Lemma rows_nodup s : keyed (items s) -> NoDup (rows s).
Proof. intros Hk. eapply NoDup_fmap_1. by apply rows_ids_nodup. Qed.
Lemma nodup_filter {A} (f : A -> bool) l : NoDup l -> NoDup (List.filter f l).
Proof.
  induction 1 as [|x l Hx Hl IH]; cbn; [constructor|]. destruct (f x); [|done]. constructor; [|done].
  rewrite list_elem_of_In, filter_In, <- list_elem_of_In. by intros [? _].
Qed.
Lemma history_sorted s : keyed (items s) -> StronglySorted row_before (history_rows s).
Proof.
  intros Hk. pose proof (rows_nodup s Hk) as Hnd. apply StronglySorted_app. split_and!.
  - intros r q Hr Hq. apply elem_head in Hr as [_ Hr%is_pinned_pinned]. apply elem_unpinned_head in Hq as [_ Hq%is_unpinned_not].
    unfold row_before, row_place, list_place, place_cmp, pair_cmp. by rewrite Hr, Hq.
  - apply (sorted_strictly before); [apply (StronglySorted_merge_sort before)| |].
    { unfold PINNED_HEAD_SQL. rewrite merge_sort_Permutation. by apply nodup_filter. }
    intros r q Hr Hq Hne Hb. apply elem_head in Hr as [Hr Hpr%is_pinned_pinned]. apply elem_head in Hq as [Hq Hpq%is_pinned_pinned].
    unfold row_before, row_place, list_place. rewrite Hpr, Hpq. unfold place_cmp, pair_cmp at 1. cbn [fst snd then_with Z.compare].
    unfold before, pin_position in Hb. fold (pin_position r) (pin_position q) in *. change (position_cmp (pin_position r) (pin_position q) = Lt).
    destruct (position_cmp (pin_position r) (pin_position q)) eqn:E; [|done|done]. destruct Hne. apply (before_antisym s); [done..| |].
    + unfold before. by rewrite E.
    + unfold before. apply (cmp_eq_iff (cmp:=position_cmp)) in E. rewrite E. by rewrite (cmp_refl position_cmp).
  - apply (sorted_strictly newer); [apply (StronglySorted_merge_sort newer)| |].
    { unfold UNPINNED_HEAD_SQL. rewrite merge_sort_Permutation. by apply nodup_filter. }
    intros r q Hr Hq Hne Hb. apply elem_unpinned_head in Hr as [Hr Hpr%is_unpinned_not]. apply elem_unpinned_head in Hq as [Hq Hpq%is_unpinned_not].
    unfold row_before, row_place, list_place. rewrite Hpr, Hpq. change (key_cmp (row_key q) (row_key r) = Lt).
    rewrite (cmp_antisym (cmp:=key_cmp) (row_key r) (row_key q)). unfold newer in Hb.
    destruct (key_cmp (row_key r) (row_key q)) eqn:E; [|done|done]. destruct Hne. apply (newer_antisym s); [done..| |].
    + unfold newer. by rewrite E.
    + unfold newer. apply (cmp_eq_iff (cmp:=key_cmp)) in E. rewrite E. by rewrite (cmp_refl key_cmp).
Qed.

(** What a page can show is what is past its cursor. *)
Definition past_rows (s : Store) (after : option ItemCursor) : list Row :=
  List.filter (fun r => match after with None => true | Some c => row_past c r end) (history_rows s).
Lemma runs_past s after : keyed (items s) ->
  first_run s after ++ (if in_pinned_run after then UNPINNED_HEAD_SQL s else []) = past_rows s after.
Proof.
  intros Hk. unfold past_rows, history_rows. destruct after as [c|]; cbn [first_run in_pinned_run].
  2:{ symmetry. apply filter_keeps. done. }
  rewrite List.filter_app. destruct (cur_pinned c) eqn:Hc.
  - f_equal.
    + unfold PINNED_SEEK_SQL, PINNED_HEAD_SQL. rewrite filter_both, (filter_sort before) by by apply antisym_filter, before_antisym.
      apply filter_agree. intros r [_ Hr%is_pinned_pinned]%elem_head. by apply after_pinned_past.
    + symmetry. apply filter_keeps. intros r [_ Hr%is_unpinned_not]%elem_unpinned_head.
      unfold row_past, cursor_place, row_place, list_place, place_cmp, pair_cmp. by rewrite Hc, Hr.
  - rewrite app_nil_r, (filter_drops _ (PINNED_HEAD_SQL s)).
    + unfold UNPINNED_SEEK_SQL, UNPINNED_HEAD_SQL. rewrite filter_both, (filter_sort newer) by by apply antisym_filter, newer_antisym.
      apply filter_agree. intros r [_ Hr%is_unpinned_not]%elem_unpinned_head. by apply after_unpinned_past.
    + intros r [_ Hr%is_pinned_pinned]%elem_head. unfold row_past, cursor_place, row_place, list_place, place_cmp, pair_cmp.
      by rewrite Hc, Hr.
Qed.

(** ** Pages of the list *)

Lemma fetch_bounded_spec s limit budget l : (0 < limit)%nat -> forall bytes out, (length out <= limit)%nat ->
  let '(result, _, out') := fetch_bounded s l limit budget bytes out in
  exists k, out' = out ++ ((fun r => row_to_item r s) <$> take k l) /\ (length out' <= limit)%nat /\
    match result with Exhausted => (length l <= k)%nat | _ => (k < length l)%nat /\ out' <> [] end.
Proof.
  intros Hlim. induction l as [|r l IH]; intros bytes out Hout; cbn [fetch_bounded].
  { exists 0%nat. cbn. rewrite app_nil_r. split_and!; [done|done|lia]. }
  assert (Hstop : forall res, res <> Exhausted -> out <> [] -> exists k, out = out ++ ((fun r => row_to_item r s) <$> take k (r :: l)) /\
            (length out <= limit)%nat /\ match res with Exhausted => (length (r :: l) <= k)%nat | _ => (k < length (r :: l))%nat /\ out <> [] end).
  { intros res Hres Hne. exists 0%nat. cbn. rewrite app_nil_r. split_and!; [done|done|]. destruct res; [done|split; [lia|done]..]. }
  destruct (Nat.eqb_spec (length out) limit) as [E|E].
  { apply (Hstop CountReached); [done|]. intros ->. cbn in E. lia. }
  destruct (negb _ && _) eqn:Eb.
  { apply (Hstop BudgetReached); [done|]. apply andb_prop in Eb as [Eb _]. by apply negb_true_iff, bool_decide_eq_false in Eb. }
  specialize (IH (next_bytes bytes (row_to_item r s)) (out ++ [row_to_item r s])).
  rewrite length_app in IH. cbn [length] in IH. specialize (IH ltac:(lia)).
  destruct (fetch_bounded s l limit budget _ _) as [[res n] out']. destruct IH as (k & -> & Hl & Hk). exists (S k).
  rewrite <- (assoc_L (++)) in *. split_and!; [done|done|]. destruct res; cbn [length]; [lia|split; [lia|by destruct Hk]..].
Qed.

Notation history_page := (page_of place_cmp item_place cursor_place).
Lemma past_list s after : List.filter (past place_cmp item_place cursor_place after) (history_list s) =
  (fun r => row_to_item r s) <$> past_rows s after.
Proof.
  unfold history_list, past_rows. induction (history_rows s) as [|r l IH]; [done|]. cbn.
  assert (E : past place_cmp item_place cursor_place after (row_to_item r s) =
            match after with None => true | Some c => row_past c r end) by (by destruct after).
  rewrite E, IH. by destruct after as [c|]; [destruct (row_past c r)|].
Qed.
(** A first stretch of what is past the cursor, with the place of its last item
    or nothing when it is all of it. *)
Lemma stretch_is_page s after k out next :
  out = (fun r => row_to_item r s) <$> take k (past_rows s after) ->
  match next with
  | None => (length (past_rows s after) <= k)%nat
  | Some c => cursor_of <$> last out = Some c
  end -> history_page (history_list s) after out next.
Proof.
  intros E H. exists k. rewrite past_list, <- fmap_take. split; [done|]. destruct next as [c|].
  - destruct (last out) as [i|]; [|done]. injection H as <-. by exists i.
  - by rewrite E, take_ge.
Qed.
Lemma list_from_page s after limit : keyed (items s) -> (0 < limit)%nat ->
  history_page (history_list s) after (pg_items (list_from s after limit)) (pg_next (list_from s after limit)).
Proof.
  intros Hk Hlim. set (U := if in_pinned_run after then UNPINNED_HEAD_SQL s else []).
  assert (Hout : pg_items (list_from s after limit) = (fun r => row_to_item r s) <$> take limit (past_rows s after)).
  { rewrite <- runs_past by done. fold U. unfold list_from, fetch. cbn [pg_items app]. rewrite take_app, length_fmap, length_take.
    destruct (0 <? _)%nat eqn:Es; cbn [andb].
    - apply Nat.ltb_lt in Es. unfold U. destruct (in_pinned_run after); rewrite fmap_app.
      + do 3 f_equal. lia.
      + by rewrite take_nil, app_nil_r.
    - apply Nat.ltb_ge in Es. replace (limit - length (first_run s after))%nat with 0%nat by lia. by rewrite app_nil_r. }
  apply (stretch_is_page s after limit); [done|].
  unfold list_from in Hout |- *. cbn [pg_items pg_next] in *. rewrite Hout. rewrite length_fmap, length_take.
  destruct (Nat.eqb_spec (Nat.min limit (length (past_rows s after))) limit) as [E|E]; [|cbn; lia].
  rewrite (proj2 (Nat.ltb_lt 0 limit)) by done. cbn [andb].
  destruct (last _) as [i|] eqn:El; cbn; [done|]. apply last_None in El. apply (f_equal length) in El.
  rewrite length_fmap, length_take in El. cbn in El. lia.
Qed.
Lemma list_from_bounded_page s after limit budget : keyed (items s) -> (0 < limit)%nat ->
  let p := list_from_bounded s after limit budget in history_page (history_list s) after (pg_items p) (pg_next p).
Proof.
  intros Hk Hlim. cbn zeta. pose proof (runs_past s after Hk) as Hrun. unfold list_from_bounded.
  rewrite (proj2 (Nat.eqb_neq limit 0)) by lia.
  pose proof (fetch_bounded_spec s limit budget (take (limit + 1) (first_run s after)) Hlim 0 [] ltac:(cbn; lia)) as H1.
  destruct (fetch_bounded s (take (limit + 1) (first_run s after)) limit budget 0 []) as [[res n] out].
  destruct H1 as (k & Hout & Hl & Hk1). cbn [app] in Hout. rewrite take_take in Hout. rewrite length_take in Hk1.
  assert (Hlast : forall o : list StoredItem, o <> [] -> exists c, cursor_of <$> last o = Some c).
  { intros o Ho. destruct (last o) as [i|] eqn:E; [by exists (cursor_of i)|]. by apply last_None in E. }
  (* the first statement stopped *)
  assert (Hstop : res <> Exhausted -> history_page (history_list s) after out (cursor_of <$> last out)).
  { intros Hres. assert (Hk2 : (k < Nat.min (limit + 1) (length (first_run s after)))%nat /\ out <> []) by by destruct res.
    destruct Hk2 as [Hk2 Hne]. destruct (Hlast out Hne) as [c Hc]. rewrite Hc. apply (stretch_is_page s after k); [|done].
    rewrite <- Hrun, take_app_le by lia. rewrite Hout. do 2 f_equal. lia. }
  destruct res; [|by destruct (in_pinned_run after); apply Hstop..].
  (* it did not: everything it could select was read *)
  assert (Hall : out = (fun r => row_to_item r s) <$> first_run s after).
  { rewrite Hout in Hl |- *. rewrite length_fmap, length_take in Hl. f_equal. apply take_ge. lia. }
  destruct (in_pinned_run after) eqn:Hin.
  2:{ rewrite app_nil_r in Hrun. apply (stretch_is_page s after (length (past_rows s after))); [|cbn; lia].
      by rewrite take_ge, <- Hrun by lia. }
  pose proof (fetch_bounded_spec s limit budget (take (limit - length out + 1) (UNPINNED_HEAD_SQL s)) Hlim n out Hl) as H2.
  destruct (fetch_bounded s (take (limit - length out + 1) (UNPINNED_HEAD_SQL s)) limit budget n out) as [[res m] out'].
  destruct H2 as (j & Hout' & Hl' & Hj). rewrite take_take in Hout'. rewrite length_take in Hj.
  assert (Hlen : length out = length (first_run s after)) by (rewrite Hall; apply length_fmap).
  assert (Hstretch : out' = (fun r => row_to_item r s) <$> take (length (first_run s after) + Nat.min j (limit - length out + 1)) (past_rows s after)).
  { rewrite <- Hrun, take_app_add, fmap_app, <- Hall. done. }
  cbn [pg_items pg_next]. destruct res.
  - apply (stretch_is_page s after _ _ None Hstretch). rewrite <- Hrun, length_app.
    rewrite Hout', length_app, length_fmap, length_take in Hl'. lia.
  - destruct Hj as [_ Hne]. destruct (Hlast out' Hne) as [c Hc]. rewrite Hc. by apply (stretch_is_page s after _ _ (Some c) Hstretch).
  - destruct Hj as [_ Hne]. destruct (Hlast out' Hne) as [c Hc]. rewrite Hc. by apply (stretch_is_page s after _ _ (Some c) Hstretch).
Qed.

(** A page as it is asked for: how many items, and within how many bytes when
    that is bounded. *)
Definition read_page (how : nat * option Z) (s : Store) (after : option ItemCursor) : list StoredItem * option ItemCursor :=
  let p := match how.2 with Some budget => list_from_bounded s after how.1 budget | None => list_from s after how.1 end in
  (pg_items p, pg_next p).
(** Pages of the list read one after the other, in whatever state the history is
    at each. *)
Inductive reading : option ItemCursor -> list Store -> list StoredItem -> Prop :=
  | reading_end after s how items : (0 < how.1)%nat -> read_page how s after = (items, None) -> reading after [s] items
  | reading_on after s ss how items next rest : (0 < how.1)%nat -> read_page how s after = (items, Some next) ->
      reading (Some next) ss rest -> reading after (s :: ss) (items ++ rest).

Lemma read_page_ok how s after : keyed (items s) -> (0 < how.1)%nat ->
  history_page (history_list s) after (read_page how s after).1 (read_page how s after).2.
Proof.
  intros Hk Hn. unfold read_page. destruct how.2; [by apply list_from_bounded_page|by apply list_from_page].
Qed.
Lemma reading_walk after ss items : reading after ss items -> Forall (fun s => keyed (Table.items s)) ss ->
  walk place_cmp item_place cursor_place after (history_list <$> ss) items.
Proof.
  induction 1 as [after s how items Hn E|after s ss how items next rest Hn E _ IH]; intros Hk; inversion Hk; subst; cbn.
  all: pose proof (read_page_ok how s after ltac:(done) Hn) as Hp; rewrite E in Hp.
  - by apply walk_end.
  - eapply walk_page; [exact Hp|by apply IH].
Qed.
Lemma history_list_sorted s : keyed (items s) -> StronglySorted (listed_before place_cmp item_place) (history_list s).
Proof.
  intros Hk. pose proof (history_sorted s Hk) as H. unfold history_list.
  induction H as [|r l Hs IH Hr]; cbn; [constructor|]. constructor; [done|]. by apply Forall_fmap.
Qed.
Lemma live_split (l : list Row) :
  List.filter is_pinned l ++ List.filter is_unpinned l ≡ₚ List.filter is_live l.
Proof.
  induction l as [|r l IH]; [done|]. cbn. unfold is_pinned at 1, is_unpinned at 1.
  destruct (is_live r), (r_pinned r); cbn [andb negb app]; [by rewrite IH|by rewrite <- IH, Permutation_middle|done|done].
Qed.
Lemma history_rows_live s : history_rows s ≡ₚ List.filter is_live (rows s).
Proof. unfold history_rows, PINNED_HEAD_SQL, UNPINNED_HEAD_SQL. rewrite !merge_sort_Permutation. apply live_split. Qed.

#[export] Instance live_before_total : Total live_before.
Proof.
  intros r q. unfold live_before. fold place_cmp. rewrite (cmp_antisym (cmp:=place_cmp) (live_position r) (live_position q)).
  destruct (place_cmp (live_position r) (live_position q)); cbn; auto.
Qed.
#[export] Instance live_before_trans : Transitive live_before.
Proof.
  intros r q t. unfold live_before. fold place_cmp. intros H1 H2 H3%(cmp_gt_lt place_cmp).
  destruct (place_cmp (live_position r) (live_position q)) eqn:E; [| |done].
  - apply (cmp_eq_iff (cmp:=place_cmp)) in E. rewrite E in H3. apply H2. by apply (cmp_gt_lt place_cmp).
  - apply H2. apply (cmp_gt_lt place_cmp). by eapply (cmp_trans (cmp:=place_cmp)).
Qed.
(** The pages and the export agree on the order. *)
Lemma history_is_live_items s : keyed (items s) ->
  (forall r, r ∈ rows s -> is_unpinned r = true -> r_pin_order r = None) -> history_rows s = live_items s.
Proof.
  intros Hk Hstray.
  assert (Hplace : forall r, r ∈ history_rows s -> live_position r = row_place r).
  { intros r Hr. rewrite history_rows_live in Hr. apply in_filter in Hr as [Hr Hl].
    unfold live_position, row_place, list_place, pin_position. destruct (r_pinned r) eqn:Hp; [done|].
    rewrite (Hstray r Hr); [done|]. unfold is_unpinned. by rewrite Hl, Hp. }
  unfold live_items. apply (sorted_unique live_before).
  + intros r q Hr Hq H1 H2. assert (E : row_place r = row_place q).
    { rewrite <- !Hplace by done. unfold live_before in *. fold place_cmp in *.
      destruct (place_cmp (live_position r) (live_position q)) eqn:E; [by apply (cmp_eq_iff (cmp:=place_cmp))| |done].
      apply (cmp_gt_lt place_cmp) in E. done. }
    rewrite history_rows_live in Hr, Hq. apply in_filter in Hr as [Hr _]. apply in_filter in Hq as [Hq _].
    apply (rows_by_id s); [done..|]. unfold row_place, list_place in E. by injection E.
  + pose proof (history_sorted s Hk) as Hs. revert Hs Hplace. generalize (history_rows s). clear.
    induction 1 as [|r l Hs IH Hr]; intros Hplace; [constructor|]. constructor; [apply IH; intros; apply Hplace; by right|].
    rewrite Forall_forall in *. intros q Hq. unfold live_before. fold place_cmp. rewrite !Hplace by (by left || by right).
    by rewrite (Hr q Hq).
  + apply (StronglySorted_merge_sort live_before).
  + by rewrite merge_sort_Permutation, history_rows_live.
Qed.

(** C7: Scrolling through the history never loses an item and never shows one
    twice, whatever is captured, deleted or pinned between two pages, whatever
    the sizes of the pages, and also when the item a page stopped at is gone.
    What is read stands in the order of the list, each place once; and every
    item that keeps its place in the list from the first page to the last is
    among it. *)
Theorem history_pages_lose_nothing ss items :
  reading None ss items -> Forall (fun s => keyed (Table.items s)) ss ->
  StronglySorted (listed_before place_cmp item_place) items /\
  forall i, (forall s, s ∈ ss -> exists j, j ∈ history_list s /\ item_place j = item_place i) ->
    exists j, j ∈ items /\ item_place j = item_place i.
Proof.
  intros Hr Hk. pose proof (reading_walk _ _ _ Hr Hk) as Hw.
  assert (Hs : Forall (StronglySorted (listed_before place_cmp item_place)) (history_list <$> ss)).
  { apply Forall_fmap. eapply Forall_impl; [exact Hk|]. apply history_list_sorted. }
  split; [by apply (walk_sorted _ _ _ _ _ _ Hw Hs)|]. intros i Hi. apply (walk_complete _ _ _ _ _ _ _ Hw Hs); [done|].
  apply Forall_fmap, Forall_forall. intros s Hin. by apply Hi.
Qed.

(** C25: The pages of the list end, and together they are the list: whatever the
    size of the pages and their budget of bytes, reading on until there is no
    cursor gives every live item exactly once, the pinned ones in their order
    and then the others from the newest on; which is also what the list read by
    offset gives, unless an item that is not pinned still has a place among the
    pins. *)
Theorem history_is_read_to_the_end s how :
  keyed (items s) -> (0 < how.1)%nat ->
  read_all (read_page how s) (S (length (history_rows s))) None = Some (history_list s) /\
  history_list s ≡ₚ (fun r => row_to_item r s) <$> List.filter is_live (rows s) /\
  ((forall r, r ∈ rows s -> is_unpinned r = true -> r_pin_order r = None) ->
   history_list s = list_window s (length (history_rows s)) 0).
Proof.
  intros Hk Hn. split_and!.
  - rewrite (read_all_spec place_cmp item_place cursor_place (read_page how s) (history_list s)).
    + by rewrite past_none.
    + by apply history_list_sorted.
    + intros c. by apply read_page_ok.
    + rewrite past_none. unfold history_list. rewrite length_fmap. lia.
  - unfold history_list. by rewrite history_rows_live.
  - intros Hstray. unfold list_window, history_list. f_equal. rewrite drop_0, (history_is_live_items s Hk Hstray).
    by rewrite take_ge.
Qed.

(** ** A history *)

Module PagesDemo.
Definition row (id : string) (pinned : bool) (order : option f64) (created_at : Z) : Row :=
  {| r_id := id; r_ciphertext := Some (as_bytes id); r_nonce := Some []; r_type := "text"; r_hash := id;
     r_pinned := pinned; r_pin_order := order; r_pin_at := 0; r_created_at := created_at; r_deleted := false;
     r_origin := ""; r_app_id := None; r_app_name := None; r_metadata := None; r_fts := None; r_icon := None;
     r_bytes := 1; r_rowid := created_at |}.
Definition store_of (l : list Row) : Store := with_items (list_to_map ((fun r => (r_id r, r)) <$> l)) empty_store.
Definition first : Store := store_of [row "a" false None 100; row "b" false None 200; row "c" true (Some (f64_of_int 1)) 50].
(** Since then, "d" was captured and "b" removed. *)
Definition second : Store := store_of [row "a" false None 100; row "d" false None 300; row "c" true (Some (f64_of_int 1)) 50].
Lemma demo_keyed (l : list Row) : keyed (items (store_of l)).
Proof.
  intros k r H. cbn in H. apply elem_of_list_to_map_2 in H. apply list_elem_of_fmap in H as (q & [= -> ->] & _). done.
Qed.
Lemma reads_on : reading None [first; second] [row_to_item (row "c" true (Some (f64_of_int 1)) 50) first;
  row_to_item (row "b" false None 200) first; row_to_item (row "a" false None 100) second].
Proof.
  apply (reading_on None first [second] (2%nat, None) [_; _] (cursor_of (row_to_item (row "b" false None 200) first)) [_]);
    [apply Nat.lt_0_succ|vm_compute; reflexivity|].
  apply (reading_end _ second (5%nat, Some 0) [_]); [apply Nat.lt_0_succ|vm_compute; reflexivity].
Qed.
End PagesDemo.

Lemma history_pages_lose_nothing_witness :
  exists j, j ∈ [row_to_item (PagesDemo.row "c" true (Some (f64_of_int 1)) 50) PagesDemo.first;
    row_to_item (PagesDemo.row "b" false None 200) PagesDemo.first; row_to_item (PagesDemo.row "a" false None 100) PagesDemo.second] /\
    item_place j = list_place false None 100 "a".
Proof.
  apply (proj2 (history_pages_lose_nothing [PagesDemo.first; PagesDemo.second] _ PagesDemo.reads_on
    ltac:(repeat constructor; apply PagesDemo.demo_keyed)) (row_to_item (PagesDemo.row "a" false None 100) PagesDemo.second)).
  intros s Hs. exists (row_to_item (PagesDemo.row "a" false None 100) s).
  apply elem_of_cons in Hs as [->|Hs]; [|apply list_elem_of_singleton in Hs as ->]; split.
  - vm_compute. right. right. left.
  - vm_compute. reflexivity.
  - vm_compute. right. right. left.
  - vm_compute. reflexivity.
Defined.
Lemma history_is_read_to_the_end_witness :
  read_all (read_page (2%nat, Some 0) PagesDemo.first) 4 None = Some (history_list PagesDemo.first) /\
  st_id <$> history_list PagesDemo.first = ["c"; "b"; "a"]%string.
Proof.
  split; [|vm_compute; reflexivity].
  exact (proj1 (history_is_read_to_the_end PagesDemo.first (2%nat, Some 0) (PagesDemo.demo_keyed _) ltac:(cbn; lia))).
Defined.
