(* ===== verification/HistoryQuery.v ===== *)
(** Filtered reads of the history ([copypaste-core/src/storage/history.rs]):
    [query_history_bounded_for_device], which finds, filters, sorts and pages in
    one statement.  Matches of an optional model and previews are left out. *)

From S2P Require Import Prelude Search Credentials Semantic Float64 Bytes Text Wire Binary Payload Table Items ItemSafety Organization Versions Scan Retention Source Pinning LocalMerge LocalMergeSafety History PinPlaces Backup Pages.

(** ** Queries *)

Inductive HistorySort := Newest | Oldest | Relevance.
Record HistoryQuery := {
  q_search : option text;
  q_classes : list ContentClass;
  q_kinds : list SemanticKind;
  q_pinned_only : bool;
  q_origin : option string;
  q_source_app : option string;
  q_from : option Z;
  q_before : option Z;
  q_tag_ids : list string;
  q_untagged_only : bool;
  q_sort : HistorySort;
}.
#[export] Instance SearchExpression_eq_dec : EqDecision SearchExpression.
Proof. solve_decision. Defined.
#[export] Instance HistorySort_eq_dec : EqDecision HistorySort.
Proof. solve_decision. Defined.

Record HistoryCursor := {
  hc_fingerprint : string; hc_sort : HistorySort; hc_pinned : bool; hc_pin_order : option f64;
  hc_created_at : Z; hc_id : string; hc_relevance : option f64; hc_semantic_scope : option string;
}.
(** [FingerprintQuery], the normalized form a cursor is bound to. *)
Record FingerprintQuery := {
  fp_search : option text; fp_search_version : option Z; fp_classes : list string; fp_kinds : list string;
  fp_pinned_only : bool; fp_origin : option string; fp_source_app : option string; fp_from : option Z;
  fp_before : option Z; fp_tag_ids : list string; fp_untagged_only : bool; fp_sort : HistorySort;
}.
(** Its JSON; the full-text index: whether a text matches an expression, the
    relevance the query computes from [bm25], and the words of the index with
    the number of items each is in; and whether metadata is JSON that marks
    credentials. *)
Class QueryJson := { serde_fingerprint : FingerprintQuery -> bytes }.
Class FullText := {
  fts_match : text -> string -> bool;
  fts_relevance : SearchExpression -> gmap Z (string * string) -> Z -> f64;
  fts_vocabulary : gmap Z (string * string) -> list (text * Z);
}.
Class SqlJson := { json_credentials : string -> bool }.

Definition class_key (c : ContentClass) : string :=
  match c with ClassText => "text" | ClassImage => "image" | ClassFile => "file" | ClassOther => "other" end.
(** [dedup]: one of each run of equal neighbours. *)
Fixpoint dedup_runs (l : list string) : list string :=
  match l with
  | [] => []
  | x :: l => match dedup_runs l with
              | y :: k => if String.eqb x y then y :: k else x :: y :: k
              | [] => [x]
              end
  end.
Definition sorted_once (l : list string) : list string := dedup_runs (merge_sort str_le l).
Definition normalized_classes (q : HistoryQuery) : list string := sorted_once (class_key <$> q_classes q).
Definition normalized_semantic_kinds (q : HistoryQuery) : list string := sorted_once (kind_str <$> q_kinds q).
Definition blank (raw : text) : bool := bool_decide (trim_text raw = []).

(** [column LIKE 'text/%']; [LIKE] ignores the case of ASCII letters. *)
Definition sql_like (prefix column : string) : bool :=
  Bytes.starts_with (as_bytes prefix) (Text.ascii_lower <$> as_bytes column).
Definition sql_text (column : string) : bool := String.eqb column "text" || sql_like "text/" column.
Definition class_column (class column : string) : bool :=
  if String.eqb class "text" then sql_text column
  else if String.eqb class "image" then sql_like "image/" column
  else if String.eqb class "file" then String.eqb column "file"
  else negb (sql_text column || sql_like "image/" column || String.eqb column "file").
Definition class_clause (classes : list string) (column : string) : bool :=
  match classes with [] => true | _ => existsb (fun class => class_column class column) classes end.

Section Query.
Context {DG : Digest} {QJ : QueryJson} {CT : CharTables} {TK : Tokenizer} {FT : FullText} {SJ : SqlJson} {CC : CredentialCodecs} {SP : SemanticParsers}.

Definition normalized_search (q : HistoryQuery) : option text :=
  raw ← q_search q;
  match sanitize_fts5_query raw with
  | Some expression => Some expression
  | None => if blank raw then None else Some []
  end.
Definition query_fingerprint (q : HistoryQuery) : string :=
  let search := normalized_search q in
  hex_encode (sha256 (serde_fingerprint
    {| fp_search := search; fp_search_version := (fun _ => 1) <$> search; fp_classes := normalized_classes q;
       fp_kinds := normalized_semantic_kinds q; fp_pinned_only := q_pinned_only q; fp_origin := q_origin q;
       fp_source_app := q_source_app q; fp_from := q_from q; fp_before := q_before q;
       fp_tag_ids := sorted_once (q_tag_ids q); fp_untagged_only := q_untagged_only q; fp_sort := q_sort q |})).

(** A row as the query joins it: with its entry of the index, if it has one. *)
Definition Joined : Type := Row * option (Z * string).
Definition entries (r : Row) (s : Store) : list (Z * string) :=
  omap (fun e : Z * (string * string) => if String.eqb e.2.1 (r_id r) then Some (e.1, e.2.2) else None) (map_to_list (fts s)).
Definition joined (search : option SearchExpression) (q : HistoryQuery) (s : Store) : list Joined :=
  match search with
  | Some _ => List.flat_map (fun r => (fun e => (r, Some e)) <$> entries r s) (rows s)
  | None => match normalized_semantic_kinds q with
            | [] => (fun r => (r, None)) <$> rows s
            | _ => List.flat_map (fun r => match entries r s with [] => [(r, None)] | l => (fun e => (r, Some e)) <$> l end) (rows s)
            end
  end.

(** The tags a clip has, as far as they still exist. *)
Definition has_tag (r : Row) (s : Store) (wanted : string -> bool) : bool :=
  existsb (fun e : (string * string) * bool =>
    String.eqb e.1.1 (r_id r) && e.2 && bool_decide (is_Some (live_tag e.1.2 s)) && wanted e.1.2) (map_to_list (clip_tags s)).
(** [CASE WHEN ... THEN 'credentials' ELSE copypaste_semantic_kind(..) END]. *)
Definition kind_column (j : Joined) : option string :=
  if match r_metadata j.1 with Some m => json_credentials m | None => false end then Some "credentials"%string
  else e ← j.2; (fun c => kind_str (kind c)) <$> classify_semantic (r_type j.1) e.2.
Definition filters (search : option SearchExpression) (q : HistoryQuery) (local : option string) (s : Store) (j : Joined) : bool :=
  let r := j.1 in
  is_live r
  && match search with
     | Some x => sql_text (r_type r) && match j.2 with Some e => fts_match (expanded x) e.2 | None => false end
     | None => true
     end
  && class_clause (normalized_classes q) (r_type r)
  && match normalized_semantic_kinds q with
     | [] => true
     | kinds => match kind_column j with Some k => existsb (String.eqb k) kinds | None => false end
     end
  && match q_from q with Some from => from <=? r_created_at r | None => true end
  && match q_before q with Some before => r_created_at r <? before | None => true end
  && (if q_untagged_only q then r_pinned r && negb (has_tag r s (fun _ => true))
      else match q_tag_ids q with
           | [] => true
           | ids => r_pinned r && has_tag r s (fun t => existsb (String.eqb t) ids)
           end)
  && (negb (q_pinned_only q) || r_pinned r)
  && match q_origin q with
     | Some origin => String.eqb (r_origin r) origin || (bool_decide (local = Some origin) && String.eqb (r_origin r) "")
     | None => true
     end
  && match q_source_app q with Some app => bool_decide (r_app_id r = Some app) | None => true end.

(** ** Order *)

(** A row's relevance; only a relevance order computes it. *)
Definition relevance_of (search : option SearchExpression) (sort : HistorySort) (s : Store) (j : Joined) : option f64 :=
  match sort, search, j.2 with
  | Relevance, Some x, Some e => Some (fts_relevance x (fts s) e.1)
  | _, _, _ => None
  end.
(** By age, from the newest on or from the oldest on. *)
Definition Aged : Type := bool * (Z * string).
Definition aged_cmp (a b : Aged) : comparison :=
  then_with (bool_cmp a.1 b.1) (if a.1 then key_cmp a.2 b.2 else key_cmp b.2 a.2).
Definition SqlPlace : Type := Z * (option Z * (option Z * Aged)).
Definition sql_cmp : SqlPlace -> SqlPlace -> comparison :=
  pair_cmp Z.compare (pair_cmp (option_cmp Z.compare) (pair_cmp (option_cmp Z.compare) aged_cmp)).
(** [ORDER BY pinned DESC, pin_order ASC, ..]: relevance and the direction of
    age are those of rows that are not pinned. *)
Definition sql_place (sort : HistorySort) (pinned : bool) (order : option f64) (relevance : option f64) (created_at : Z) (id : string) : SqlPlace :=
  (if pinned then 0 else 1, (real_key <$> order, (if pinned then None else real_key <$> relevance,
    (negb pinned && bool_decide (sort = Oldest), (created_at, id))))).
Definition Ranked : Type := Row * option f64.
Definition ranked_place (sort : HistorySort) (x : Ranked) : SqlPlace :=
  sql_place sort (r_pinned x.1) (r_pin_order x.1) x.2 (r_created_at x.1) (r_id x.1).
Definition ranked_before (sort : HistorySort) (x y : Ranked) : Prop := sql_cmp (ranked_place sort x) (ranked_place sort y) <> Gt.
#[export] Instance ranked_before_dec sort x y : Decision (ranked_before sort x y).
Proof. unfold ranked_before. apply _. Defined.

(** What is after the cursor ([push_after_pinned] and the clauses beside it). *)
Definition cursor_item (c : HistoryCursor) : ItemCursor :=
  {| cur_pinned := hc_pinned c; cur_pin_order := hc_pin_order c; cur_created_at := hc_created_at c; cur_id := hc_id c |}.
Definition id_lt (a b : string) : bool := match str_cmp a b with Lt => true | _ => false end.
Definition after_cursor (sort : HistorySort) (c : HistoryCursor) (x : Ranked) : bool :=
  let r := x.1 in
  if hc_pinned c then negb (r_pinned r) || (r_pinned r && after_pinned (cursor_item c) r)
  else negb (r_pinned r)
       && match sort with
          | Newest => (r_created_at r <? hc_created_at c) || ((r_created_at r =? hc_created_at c) && id_lt (r_id r) (hc_id c))
          | Oldest => (hc_created_at c <? r_created_at r) || ((r_created_at r =? hc_created_at c) && id_lt (hc_id c) (r_id r))
          | Relevance =>
            match x.2, hc_relevance c with
            | Some a, Some b =>
              real_gt a b
              || ((real_key a =? real_key b)
                  && ((r_created_at r <? hc_created_at c) || ((r_created_at r =? hc_created_at c) && id_lt (r_id r) (hc_id c))))
            | _, _ => false
            end
          end.

(** ** The page *)

Definition query_cursor_of (i : StoredItem) (fingerprint : string) (sort : HistorySort) (relevance : option f64) : HistoryCursor :=
  {| hc_fingerprint := fingerprint; hc_sort := sort; hc_pinned := st_pinned i; hc_pin_order := st_pin_order i;
     hc_created_at := st_created_at i; hc_id := st_id i; hc_relevance := relevance; hc_semantic_scope := None |}.
(** The loop over the rows: what is kept, the relevance of the last of it, and
    whether there is more. *)
Fixpoint read_rows (s : Store) (selected : list Ranked) (limit : nat) (budget bytes : Z) (kept : list StoredItem) (last_relevance : option f64)
    : list StoredItem * option f64 * bool :=
  match selected with
  | [] => (kept, last_relevance, false)
  | x :: selected =>
    if (length kept =? limit)%nat then (kept, last_relevance, true)
    else
      let i := row_to_item x.1 s in
      let item_bytes := usize_saturating_add (len (st_ciphertext i)) (match st_metadata i with Some m => str_len m | None => 0 end) in
      if negb (bool_decide (kept = [])) && (budget <? usize_saturating_add bytes item_bytes) then (kept, last_relevance, true)
      else read_rows s selected limit budget (usize_saturating_add bytes item_bytes) (kept ++ [i])
             (match x.2 with Some v => Some v | None => last_relevance end)
  end.
Definition selected_rows (search : option SearchExpression) (q : HistoryQuery) (after : option HistoryCursor) (local : option string) (s : Store)
    : list Ranked :=
  merge_sort (ranked_before (q_sort q))
    (List.filter (fun x => match after with Some c => after_cursor (q_sort q) c x | None => true end)
      ((fun j => (j.1, relevance_of search (q_sort q) s j)) <$> List.filter (filters search q local s) (joined search q s))).
Definition search_of (q : HistoryQuery) (s : Store) : option SearchExpression :=
  raw ← q_search q; compile (fts_vocabulary (fts s)) raw.
Definition query_rows (s : Store) (q : HistoryQuery) (search : option SearchExpression) (after : option HistoryCursor) (limit : nat) (budget : Z)
    (local : option string) : result StoreError (list StoredItem * option HistoryCursor) :=
  _ ← refuse_if (match after with
                 | Some c => bool_decide (q_sort q = Relevance) && negb (hc_pinned c) && bool_decide (hc_relevance c = None)
                 | None => false
                 end) InvalidCursor;
  let '(kept, last_relevance, more) := read_rows s (take (limit + 1) (selected_rows search q after local s)) limit budget 0 [] None in
  Ok (kept, if more then (fun i => query_cursor_of i (query_fingerprint q) (q_sort q) last_relevance) <$> last kept else None).
Definition malformed (q : HistoryQuery) : bool :=
  match q_from q, q_before q with Some from, Some before => before <=? from | _, _ => false end
  || (MAX_HISTORY_TAGS <? len (q_tag_ids q))
  || (q_untagged_only q && negb (bool_decide (q_tag_ids q = []))).
Definition foreign_cursor (q : HistoryQuery) (c : HistoryCursor) : bool :=
  negb (String.eqb (hc_fingerprint c) (query_fingerprint q)) || negb (bool_decide (hc_sort c = q_sort q))
  || negb (bool_decide (hc_semantic_scope c = None)).
Definition query_history_bounded_for_device (s : Store) (q : HistoryQuery) (after : option HistoryCursor) (limit : nat) (budget : Z)
    (local : option string) : result StoreError (list StoredItem * option HistoryCursor) :=
  if malformed q then Err InvalidHistoryQuery
  else if (limit =? 0)%nat then Ok ([], None)
  else if match after with Some c => foreign_cursor q c | None => false end then Err InvalidCursor
  else
    let search := search_of q s in
    if bool_decide (search = None) && match q_search q with Some raw => negb (blank raw) | None => false end then Ok ([], None)
    else if bool_decide (q_sort q = Relevance) && bool_decide (search = None) then Err InvalidHistoryQuery
    else query_rows s q search after limit budget local.
End Query.

(** ** The order is one *)

#[export] Instance aged_ord : OrdLaws aged_cmp.
Proof.
  unfold aged_cmp. split.
  - intros [[] x] [[] y]; cbn; try (split; [done|by intros [=]]); rewrite (cmp_eq_iff (cmp:=key_cmp)); naive_solver.
  - intros [[] x] [[] y]; cbn; [|done|done|]; apply (cmp_antisym (cmp:=key_cmp)).
  - intros [[] x] [[] y] [[] z]; cbn; try done; intros H1 H2; by eapply (cmp_trans (cmp:=key_cmp)).
Qed.
#[export] Instance sql_ord : OrdLaws sql_cmp.
Proof. unfold sql_cmp. apply _. Qed.
#[export] Instance ranked_before_total sort : Total (ranked_before sort).
Proof.
  intros x y. unfold ranked_before. rewrite (cmp_antisym (cmp:=sql_cmp) (ranked_place sort x) (ranked_place sort y)).
  destruct (sql_cmp (ranked_place sort x) (ranked_place sort y)); cbn; auto.
Qed.
#[export] Instance ranked_before_trans sort : Transitive (ranked_before sort).
Proof.
  intros x y z. unfold ranked_before. intros H1 H2 H3%(cmp_gt_lt sql_cmp).
  destruct (sql_cmp (ranked_place sort x) (ranked_place sort y)) eqn:E; [| |done].
  - apply (cmp_eq_iff (cmp:=sql_cmp)) in E. rewrite E in H3. apply H2. by apply (cmp_gt_lt sql_cmp).
  - apply H2. apply (cmp_gt_lt sql_cmp). by eapply (cmp_trans (cmp:=sql_cmp)).
Qed.

(** Where a cursor stands.  It knows the place of an unpinned row among the pins
    too, but the statement does not look at it. *)
Definition cursor_sql_place (c : HistoryCursor) : SqlPlace :=
  sql_place (hc_sort c) (hc_pinned c) (if hc_pinned c then hc_pin_order c else None) (hc_relevance c) (hc_created_at c) (hc_id c).
Definition tidy (x : Ranked) : Prop := r_pinned x.1 = false -> r_pin_order x.1 = None.
Definition usable (sort : HistorySort) (c : HistoryCursor) : Prop :=
  hc_sort c = sort /\ (sort = Relevance -> is_Some (hc_relevance c)) /\ (sort <> Relevance -> hc_relevance c = None).
Definition rated (sort : HistorySort) (x : Ranked) : Prop :=
  (sort = Relevance -> is_Some x.2) /\ (sort <> Relevance -> x.2 = None).

Lemma cmp_lt_bool (a b : Z) (i j : string) :
  match pair_cmp Z.compare str_cmp (a, i) (b, j) with Lt => true | _ => false end =
  (a <? b) || ((b =? a) && id_lt i j).
Proof.
  unfold pair_cmp, id_lt. cbn. destruct (Z.compare_spec a b) as [E|E|E]; cbn.
  - rewrite E, Z.ltb_irrefl, Z.eqb_refl. done.
  - by rewrite (proj2 (Z.ltb_lt a b) E).
  - rewrite (proj2 (Z.ltb_ge a b)), (proj2 (Z.eqb_neq b a)) by lia. done.
Qed.
Lemma after_cursor_past sort c x : usable sort c -> rated sort x -> tidy x ->
  after_cursor sort c x = past sql_cmp (ranked_place sort) cursor_sql_place (Some c) x.
Proof.
  intros (Hs & Hc1 & Hc2) [Hx1 Hx2] Ht. destruct x as [r v]. cbn [fst snd] in *.
  unfold after_cursor, past, cursor_sql_place, ranked_place. cbn [fst snd]. rewrite Hs.
  destruct (hc_pinned c) eqn:Hp, (r_pinned r) eqn:Hr; cbn [negb orb andb].
  - rewrite (after_pinned_past (cursor_item c) r Hp Hr). unfold row_past, cursor_place, row_place, list_place. cbn [cur_pinned cursor_item].
    rewrite Hp, Hr. cbn [cur_pin_order cur_created_at cur_id]. unfold place_cmp, position_cmp, sql_cmp, sql_place, pair_cmp, aged_cmp. cbn.
    destruct (option_cmp _ _ _); done.
  - done.
  - done.
  - unfold tidy in Ht; cbn [fst] in Ht. rewrite (Ht Hr). unfold sql_cmp, sql_place, pair_cmp at 1 2 3. cbn [fst snd negb andb then_with option_cmp fmap option_fmap option_map]. change (1 ?= 1) with Eq. cbn [then_with].
    destruct sort.
    + rewrite Hc2, (Hx2 ltac:(done)) by done. cbn [fmap option_fmap option_map option_cmp then_with].
      unfold aged_cmp. cbn [fst snd bool_cmp then_with bool_decide]. rewrite (bool_decide_eq_false_2 (Newest = Oldest)) by done. cbn [bool_cmp then_with].
      unfold key_cmp. rewrite cmp_lt_bool, (Z.eqb_sym (hc_created_at c)). done.
    + rewrite Hc2, (Hx2 ltac:(done)) by done. cbn [fmap option_fmap option_map option_cmp then_with].
      unfold aged_cmp. rewrite (bool_decide_eq_true_2 (Oldest = Oldest)) by done. cbn [fst snd bool_cmp then_with].
      unfold key_cmp. rewrite cmp_lt_bool. done.
    + destruct (Hc1 eq_refl) as [b ->], (Hx1 eq_refl) as [a ->]. cbn [fmap option_fmap option_map option_cmp].
      unfold aged_cmp. rewrite (bool_decide_eq_false_2 (Relevance = Oldest)) by done. cbn [fst snd bool_cmp then_with].
      unfold real_gt. destruct (Z.compare_spec (real_key b) (real_key a)) as [E|E|E]; cbn [then_with].
      * rewrite E, Z.ltb_irrefl, Z.eqb_refl. cbn [orb andb]. unfold key_cmp. rewrite cmp_lt_bool, (Z.eqb_sym (hc_created_at c)). done.
      * by rewrite (proj2 (Z.ltb_lt _ _) E).
      * rewrite (proj2 (Z.ltb_ge _ _)), (proj2 (Z.eqb_neq _ _)) by lia. done.
Qed.

(** ** What a query selects *)

Section Selecting.
Context {DG : Digest} {QJ : QueryJson} {CT : CharTables} {TK : Tokenizer} {FT : FullText} {SJ : SqlJson} {CC : CredentialCodecs} {SP : SemanticParsers}.
Implicit Types (s : Store) (q : HistoryQuery).

Lemma elem_entries r s k t : (k, t) ∈ entries r s <-> fts s !! k = Some (r_id r, t).
Proof.
  unfold entries. rewrite list_elem_of_omap. split.
  - intros ((k' & id & t') & Hin & H). cbn in H. destruct (String.eqb_spec id (r_id r)) as [->|]; [|done].
    injection H as -> ->. by apply elem_of_map_to_list in Hin.
  - intros H. exists (k, (r_id r, t)). cbn. rewrite String.eqb_refl. split; [by apply elem_of_map_to_list|done].
Qed.
Lemma entries_nodup r s : NoDup (entries r s).
Proof.
  unfold entries. pose proof (NoDup_map_to_list (fts s)) as H. induction H as [|[k [id t]] m Hn Hm IH]; cbn; [constructor|].
  destruct (String.eqb_spec id (r_id r)) as [->|]; [|done]. constructor; [|done].
  rewrite list_elem_of_omap. intros ((k' & id' & t') & Hin & H). cbn in H. destruct (String.eqb_spec id' (r_id r)) as [->|]; [|done].
  injection H as -> ->. done.
Qed.
(** An item is indexed once. *)
Lemma entries_once r s : fts_ok (items s) (fts s) -> (length (entries r s) <= 1)%nat.
Proof.
  intros [Hok _]. assert (H : forall e e', e ∈ entries r s -> e' ∈ entries r s -> e = e').
  { intros [k t] [k' t'] H1%elem_entries H2%elem_entries. destruct (Hok _ _ _ H1) as (x & Hx & E1), (Hok _ _ _ H2) as (y & Hy & E2). congruence. }
  pose proof (entries_nodup r s) as Hnd. destruct (entries r s) as [|e [|e' l]]; cbn; [lia|lia|].
  exfalso. rewrite (H e e') in Hnd by set_solver. apply NoDup_cons in Hnd as [Hn _]. set_solver.
Qed.
Lemma flat_map_once {A B} (f : A -> list B) (g : B -> A) l : NoDup l -> (forall x, x ∈ l -> (length (f x) <= 1)%nat) ->
  (forall x y, y ∈ f x -> g y = x) -> NoDup (g <$> List.flat_map f l).
Proof.
  intros Hnd Hone Hg. induction Hnd as [|x l Hx Hnd IH]; cbn; [constructor|]. rewrite fmap_app. apply NoDup_app.
  assert (Hf : forall y, y ∈ g <$> f x -> y = x) by (intros y (z & -> & Hz)%list_elem_of_fmap; by apply Hg).
  split_and!.
  - specialize (Hone x ltac:(by left)). destruct (f x) as [|y [|z k]]; cbn in *; [constructor|repeat constructor; set_solver|lia].
  - intros y Hy%Hf Hin. subst y. apply list_elem_of_fmap in Hin as (z & E & Hz). apply list_elem_of_In, List.in_flat_map in Hz as (w & Hw & Hz).
    apply list_elem_of_In in Hw, Hz. apply Hg in Hz. congruence.
  - apply IH. intros y Hy. apply Hone. by right.
Qed.
Lemma joined_nodup search q s : keyed (items s) -> fts_ok (items s) (fts s) -> NoDup (fst <$> joined search q s).
Proof.
  intros Hk Hf. pose proof (rows_nodup s Hk) as Hnd. unfold joined.
  assert (Hplain : NoDup (fst <$> ((fun r => (r, None)) <$> rows s : list Joined))).
  { rewrite <- list_fmap_compose. by rewrite list_fmap_id. }
  destruct search; [|destruct (normalized_semantic_kinds q); [done|]].
  - apply (flat_map_once _ fst); [done| |].
    + intros r _. rewrite length_fmap. by apply entries_once.
    + intros r j (e & -> & _)%list_elem_of_fmap. done.
  - apply (flat_map_once _ fst); [done| |].
    + intros r _. pose proof (entries_once r s Hf). destruct (entries r s); [done|by rewrite length_fmap].
    + intros r j Hj. destruct (entries r s) as [|e k]; [by apply list_elem_of_singleton in Hj as ->|].
      apply list_elem_of_fmap in Hj as (e' & -> & _). done.
Qed.
Lemma joined_rows search q s j : j ∈ joined search q s -> j.1 ∈ rows s.
Proof.
  unfold joined. destruct search; [|destruct (normalized_semantic_kinds q)]; intros Hj.
  - apply list_elem_of_In, List.in_flat_map in Hj as (r & Hr & Hj). apply list_elem_of_In in Hr, Hj.
    by apply list_elem_of_fmap in Hj as (e & -> & _).
  - by apply list_elem_of_fmap in Hj as (r & -> & Hr).
  - apply list_elem_of_In, List.in_flat_map in Hj as (r & Hr & Hj). apply list_elem_of_In in Hr, Hj.
    destruct (entries r s); [by apply list_elem_of_singleton in Hj as ->|]. by apply list_elem_of_fmap in Hj as (e' & -> & _).
Qed.

(** The rows that match, with their relevance, before they are sorted. *)
Definition matches search q local s : list Ranked :=
  (fun j => (j.1, relevance_of search (q_sort q) s j)) <$> List.filter (filters search q local s) (joined search q s).
Lemma matches_nodup search q local s : keyed (items s) -> fts_ok (items s) (fts s) -> NoDup (fst <$> matches search q local s).
Proof.
  intros Hk Hf. unfold matches. rewrite <- list_fmap_compose. cbn. pose proof (joined_nodup search q s Hk Hf) as H.
  change (NoDup (fst <$> List.filter (filters search q local s) (joined search q s))).
  induction (joined search q s) as [|j l IH]; [constructor|]. cbn in *. apply NoDup_cons in H as [Hn H].
  destruct (filters _ _ _ _ j); [|by apply IH]. cbn. constructor; [|by apply IH].
  intros (x & E & Hx%in_filter)%list_elem_of_fmap. apply Hn, list_elem_of_fmap. exists x. naive_solver.
Qed.
Lemma elem_matches search q local s x : x ∈ matches search q local s -> x.1 ∈ rows s /\ is_live x.1 = true /\
  (q_sort q = Relevance -> search <> None -> is_Some x.2) /\ (q_sort q <> Relevance -> x.2 = None).
Proof.
  intros (j & -> & Hj)%list_elem_of_fmap. apply in_filter in Hj as [Hj Hf]. cbn. split_and!.
  - by eapply joined_rows.
  - unfold filters in Hf. rewrite !andb_true_iff in Hf. naive_solver.
  - intros -> Hs. unfold relevance_of. destruct search as [x|]; [|done]. unfold joined in Hj.
    apply list_elem_of_In, List.in_flat_map in Hj as (r & _ & Hj). apply list_elem_of_In, list_elem_of_fmap in Hj as (e & -> & _). done.
  - intros Hs. unfold relevance_of. by destruct (q_sort q).
Qed.
Lemma nodup_fst {A B} (l : list (A * B)) x y : NoDup (fst <$> l) -> x ∈ l -> y ∈ l -> x.1 = y.1 -> x = y.
Proof.
  induction l as [|z l IH]; intros Hnd Hx Hy E; [by apply elem_of_nil in Hx|]. cbn in Hnd. apply NoDup_cons in Hnd as [Hn Hnd].
  apply elem_of_cons in Hx as [->|Hx]; apply elem_of_cons in Hy as [->|Hy]; [done| | |by apply IH].
  - destruct Hn. rewrite E. by apply list_elem_of_fmap_2.
  - destruct Hn. rewrite <- E. by apply list_elem_of_fmap_2.
Qed.
Lemma ranked_same search q local s x y : keyed (items s) -> fts_ok (items s) (fts s) ->
  x ∈ matches search q local s -> y ∈ matches search q local s ->
  ranked_place (q_sort q) x = ranked_place (q_sort q) y -> x = y.
Proof.
  intros Hk Hf Hx Hy E. apply (nodup_fst (matches search q local s)); [by apply matches_nodup|done|done|].
  apply elem_matches in Hx as [Hx _], Hy as [Hy _]. apply (rows_by_id s); [done..|].
  unfold ranked_place, sql_place in E. by injection E.
Qed.
Lemma matches_antisym search q local s : keyed (items s) -> fts_ok (items s) (fts s) ->
  antisym_on (ranked_before (q_sort q)) (matches search q local s).
Proof.
  intros Hk Hf x y Hx Hy H1 H2. apply (ranked_same search q local s); [done..|]. unfold ranked_before in *.
  destruct (sql_cmp (ranked_place (q_sort q) x) (ranked_place (q_sort q) y)) eqn:E; [by apply (cmp_eq_iff (cmp:=sql_cmp))| |done].
  apply (cmp_gt_lt sql_cmp) in E. done.
Qed.

(** Everything that matches, in order: what there is to page through. *)
Definition ranked_matches search q local s : list Ranked := merge_sort (ranked_before (q_sort q)) (matches search q local s).
Notation past_cursor q := (past sql_cmp (ranked_place (q_sort q)) cursor_sql_place).
Lemma ranked_sorted search q local s : keyed (items s) -> fts_ok (items s) (fts s) ->
  StronglySorted (listed_before sql_cmp (ranked_place (q_sort q))) (ranked_matches search q local s).
Proof.
  intros Hk Hf. apply (sorted_strictly (ranked_before (q_sort q))).
  - apply (StronglySorted_merge_sort (ranked_before (q_sort q))).
  - unfold ranked_matches. rewrite merge_sort_Permutation. eapply NoDup_fmap_1. by apply matches_nodup.
  - intros x y Hx Hy Hne Hb. unfold ranked_matches in Hx, Hy. rewrite merge_sort_Permutation in Hx, Hy. unfold ranked_before, listed_before in *.
    destruct (sql_cmp (ranked_place (q_sort q) x) (ranked_place (q_sort q) y)) eqn:E; [|done|done].
    apply (cmp_eq_iff (cmp:=sql_cmp)) in E. destruct Hne. by apply (ranked_same search q local s).
Qed.
Lemma selected_past search q after local s : keyed (items s) -> fts_ok (items s) (fts s) ->
  (forall r, r ∈ rows s -> is_unpinned r = true -> r_pin_order r = None) ->
  (q_sort q = Relevance -> search <> None) -> (forall c, after = Some c -> usable (q_sort q) c) ->
  selected_rows search q after local s = List.filter (past_cursor q after) (ranked_matches search q local s).
Proof.
  intros Hk Hf Ht Hs Hc. unfold selected_rows, ranked_matches. fold (matches search q local s).
  rewrite <- (filter_sort (ranked_before (q_sort q))) by by apply matches_antisym. f_equal. apply filter_agree.
  intros x Hx. destruct after as [c|]; [|done]. apply elem_matches in Hx as (Hr & Hl & Hx1 & Hx2).
  apply after_cursor_past; [by apply Hc| |].
  - split; [|done]. intros E. auto.
  - intros Hp. apply (Ht _ Hr). unfold is_unpinned. by rewrite Hl, Hp.
Qed.

(** ** Pages of a query *)

Definition later_relevance (v : option f64) (x : Ranked) : option f64 := match x.2 with Some w => Some w | None => v end.
Lemma read_rows_spec s limit budget l : (0 < limit)%nat -> forall bytes kept v, (length kept <= limit)%nat ->
  let '(out, v', more) := read_rows s l limit budget bytes kept v in
  exists k, out = kept ++ ((fun x : Ranked => row_to_item x.1 s) <$> take k l) /\ v' = foldl later_relevance v (take k l) /\
    (length out <= limit)%nat /\ if more : bool then (k < length l)%nat /\ out <> [] else (length l <= k)%nat.
Proof.
  intros Hlim. induction l as [|x l IH]; intros bytes kept v Hkept; cbn [read_rows].
  { exists 0%nat. cbn. rewrite app_nil_r. split_and!; [done|done|done|lia]. }
  assert (Hstop : kept <> [] -> exists k, kept = kept ++ ((fun x : Ranked => row_to_item x.1 s) <$> take k (x :: l)) /\
            v = foldl later_relevance v (take k (x :: l)) /\ (length kept <= limit)%nat /\ (k < length (x :: l))%nat /\ kept <> []).
  { intros Hne. exists 0%nat. cbn. rewrite app_nil_r. split_and!; [done|done|done|lia|done]. }
  destruct (Nat.eqb_spec (length kept) limit) as [E|E].
  { apply Hstop. intros ->. cbn in E. lia. }
  destruct (negb _ && _) eqn:Eb.
  { apply Hstop. apply andb_prop in Eb as [Eb _]. by apply negb_true_iff, bool_decide_eq_false in Eb. }
  match goal with |- context [read_rows s l limit budget ?b ?o ?w] => specialize (IH b o w) end.
  rewrite length_app in IH. cbn [length] in IH. specialize (IH ltac:(lia)).
  destruct (read_rows s l limit budget _ _ _) as [[out v'] more]. destruct IH as (k & -> & -> & Hl & Hk). exists (S k).
  rewrite <- (assoc_L (++)) in *. split_and!; [done|done|done|]. destruct more; cbn [length]; [split; [lia|by destruct Hk]|lia].
Qed.
Lemma later_none v l : (forall x : Ranked, x ∈ l -> x.2 = None) -> foldl later_relevance v l = v.
Proof.
  revert v. induction l as [|x l IH]; intros v H; [done|]. cbn. unfold later_relevance at 2. rewrite (H x) by (by left).
  apply IH. intros y Hy. apply H. by right.
Qed.
Lemma later_last v l x : last l = Some x -> is_Some x.2 -> foldl later_relevance v l = x.2.
Proof. intros [k ->]%last_Some [w Hw]. rewrite foldl_app. cbn. unfold later_relevance at 1. by rewrite Hw. Qed.

(** A query the code answers, and the cursors it gives out for it. *)
Definition answered q s : Prop :=
  malformed q = false /\
  (search_of q s = None -> q_sort q <> Relevance /\ forall raw, q_search q = Some raw -> blank raw = true).
Definition own_cursor q (c : HistoryCursor) : Prop := foreign_cursor q c = false /\ usable (q_sort q) c.
Notation query_page q := (page_of sql_cmp (ranked_place (q_sort q)) cursor_sql_place).
Lemma query_answered s q after limit budget local : answered q s -> (0 < limit)%nat ->
  (forall c, after = Some c -> foreign_cursor q c = false) ->
  query_history_bounded_for_device s q after limit budget local = query_rows s q (search_of q s) after limit budget local.
Proof.
  intros [Hm Ha] Hl Hc. unfold query_history_bounded_for_device. rewrite Hm, (proj2 (Nat.eqb_neq limit 0)) by lia.
  assert (E : match after with Some c => foreign_cursor q c | None => false end = false) by (destruct after; [by apply Hc|done]).
  rewrite E. cbn zeta. case_bool_decide as Hs; cbn [andb]; [|by rewrite andb_false_r].
  destruct (Ha Hs) as [Hsort Hraw]. rewrite (bool_decide_eq_false_2 (q_sort q = Relevance)) by done. cbn [andb].
  destruct (q_search q) as [raw|]; [|done]. by rewrite (Hraw raw).
Qed.
Lemma query_rows_page s q after limit budget local : keyed (items s) -> fts_ok (items s) (fts s) ->
  (forall r, r ∈ rows s -> is_unpinned r = true -> r_pin_order r = None) -> answered q s -> (0 < limit)%nat ->
  (forall c, after = Some c -> own_cursor q c) ->
  exists stretch next,
    query_rows s q (search_of q s) after limit budget local = Ok ((fun x : Ranked => row_to_item x.1 s) <$> stretch, next) /\
    query_page q (ranked_matches (search_of q s) q local s) after stretch next /\
    forall c, next = Some c -> own_cursor q c.
Proof.
  intros Hk Hf Ht Ha Hl Hc. set (search := search_of q s). set (L := ranked_matches search q local s).
  assert (Hsearch : q_sort q = Relevance -> search <> None) by (intros E Hn; by destruct (proj2 Ha Hn)).
  assert (Hsel : selected_rows search q after local s = List.filter (past_cursor q after) L).
  { apply selected_past; [done..|]. intros c E. by apply Hc. }
  assert (Hin : forall x, x ∈ selected_rows search q after local s -> x ∈ matches search q local s).
  { intros x. rewrite Hsel. intros [Hx _]%in_filter. unfold L, ranked_matches in Hx. by rewrite merge_sort_Permutation in Hx. }
  unfold query_rows.
  assert (Hok : match after with
                | Some c => bool_decide (q_sort q = Relevance) && negb (hc_pinned c) && bool_decide (hc_relevance c = None)
                | None => false
                end = false).
  { destruct after as [c|]; [|done]. destruct (Hc c eq_refl) as [_ (_ & Hr & _)]. case_bool_decide as Es; [|done].
    destruct (Hr Es) as [v ->]. cbn. apply andb_false_r. }
  rewrite Hok. cbn [refuse_if mbind].
  pose proof (read_rows_spec s limit budget (take (limit + 1) (selected_rows search q after local s)) Hl 0 [] None ltac:(cbn; lia)) as H.
  destruct (read_rows _ _ _ _ _ _ _) as [[out v] more]. destruct H as (k & Hout & Hv & Hlen & Hmore). cbn [app] in Hout.
  rewrite take_take in Hout, Hv. rewrite length_take in Hmore. set (k' := Nat.min k (limit + 1)) in *.
  exists (take k' (selected_rows search q after local s)). destruct more.
  - destruct Hmore as [_ Hne]. destruct (last (take k' (selected_rows search q after local s))) as [x|] eqn:Hx.
    2:{ apply last_None in Hx. by rewrite Hx in Hout. }
    assert (Hlast : last out = Some (row_to_item x.1 s)) by (rewrite Hout, fmap_last, Hx; done).
    rewrite Hlast. cbn [fmap option_fmap option_map]. eexists. split; [by rewrite Hout|].
    assert (Hxm : x ∈ matches search q local s).
    { apply Hin, (elem_take k'). apply last_Some in Hx as [w ->]. set_solver. }
    apply elem_matches in Hxm as (Hr & Hlive & Hx1 & Hx2).
    assert (Hrel : v = x.2).
    { destruct (decide (q_sort q = Relevance)) as [E|E].
      - rewrite Hv. apply later_last; auto.
      - rewrite Hv, Hx2 by done. apply later_none. intros y Hy%elem_take. apply Hin, elem_matches in Hy as (_ & _ & _ & Hy). auto. }
    split.
    + exists k'. rewrite <- Hsel. split; [done|]. exists x. split; [done|]. rewrite Hrel.
      unfold cursor_sql_place, ranked_place, query_cursor_of. cbn. destruct (r_pinned x.1) eqn:Hp; [done|].
      rewrite (Ht x.1 Hr); [done|]. unfold is_unpinned. by rewrite Hlive, Hp.
    + intros c [= <-]. rewrite Hrel. split.
      * unfold foreign_cursor. cbn. by rewrite String.eqb_refl, !bool_decide_eq_true_2.
      * split; [done|]. cbn. auto.
  - eexists None. split; [by rewrite Hout|]. split; [|done]. exists k'. rewrite <- Hsel. split; [done|].
    apply take_ge. rewrite Hout, length_fmap, length_take in Hlen. lia.
Qed.

(** Reading on until there is no cursor. *)
Fixpoint read_query s q (limit : nat) (budget : Z) (local : option string) (fuel : nat) (after : option HistoryCursor)
    : option (result StoreError (list StoredItem)) :=
  match fuel with
  | O => None
  | S fuel =>
    match query_history_bounded_for_device s q after limit budget local with
    | Err e => Some (Err e)
    | Ok (items, None) => Some (Ok items)
    | Ok (items, Some c) =>
      match read_query s q limit budget local fuel (Some c) with
      | Some (Ok rest) => Some (Ok (items ++ rest))
      | other => other
      end
    end
  end.
Lemma read_query_spec s q limit budget local : keyed (items s) -> fts_ok (items s) (fts s) ->
  (forall r, r ∈ rows s -> is_unpinned r = true -> r_pin_order r = None) -> answered q s -> (0 < limit)%nat ->
  forall fuel after, (forall c, after = Some c -> own_cursor q c) ->
  let rest := List.filter (past_cursor q after) (ranked_matches (search_of q s) q local s) in
  (length rest < fuel)%nat ->
  read_query s q limit budget local fuel after = Some (Ok ((fun x : Ranked => row_to_item x.1 s) <$> rest)).
Proof.
  intros Hk Hf Ht Ha Hl. induction fuel as [|fuel IH]; intros after Hc rest Hlen; [lia|]. cbn [read_query].
  rewrite query_answered; [|done|done|intros c E; by apply Hc].
  destruct (query_rows_page s q after limit budget local Hk Hf Ht Ha Hl Hc) as (stretch & next & -> & Hp & Hnext).
  destruct next as [c|].
  - assert (E : rest = stretch ++ List.filter (past_cursor q (Some c)) (ranked_matches (search_of q s) q local s)).
    { apply page_split; [apply _|by apply ranked_sorted|done]. }
    assert (Hne : stretch <> []) by (destruct Hp as (k & _ & x & Hx & _); by intros ->).
    rewrite E, length_app in Hlen. destruct stretch as [|y stretch]; [done|]. cbn [length] in Hlen.
    rewrite IH; [|by intros c' [= <-]; apply Hnext|lia]. by rewrite E, fmap_app.
  - destruct Hp as (k & _ & ->). done.
Qed.
Lemma matches_length search q local s : keyed (items s) -> fts_ok (items s) (fts s) ->
  (length (matches search q local s) <= length (rows s))%nat.
Proof.
  intros Hk Hf. etransitivity; [apply Nat.eq_le_incl; symmetry; exact (length_map fst (matches search q local s))|].
  apply submseteq_length, NoDup_submseteq; [by apply matches_nodup|].
  intros r (x & -> & Hx)%list_elem_of_fmap. by apply elem_matches in Hx as [Hx _].
Qed.

Lemma filtered_rows_read s q limit budget local :
  keyed (items s) -> fts_ok (items s) (fts s) ->
  (forall r, r ∈ rows s -> is_unpinned r = true -> r_pin_order r = None) -> answered q s -> (0 < limit)%nat ->
  exists found : list Ranked,
    read_query s q limit budget local (S (length (rows s))) None = Some (Ok ((fun x : Ranked => row_to_item x.1 s) <$> found)) /\
    StronglySorted (listed_before sql_cmp (ranked_place (q_sort q))) found /\ NoDup (fst <$> found) /\
    forall r, r ∈ fst <$> found <->
      exists j, j ∈ joined (search_of q s) q s /\ j.1 = r /\ filters (search_of q s) q local s j = true.
Proof.
  intros Hk Hf Ht Ha Hl. exists (ranked_matches (search_of q s) q local s). split_and!.
  - rewrite (read_query_spec s q limit budget local); [|done..|].
    + by rewrite past_none.
    + rewrite past_none. unfold ranked_matches. rewrite merge_sort_Permutation.
      pose proof (matches_length (search_of q s) q local s Hk Hf). lia.
  - by apply ranked_sorted.
  - unfold ranked_matches. rewrite merge_sort_Permutation. by apply matches_nodup.
  - intros r. unfold ranked_matches. rewrite merge_sort_Permutation. unfold matches. rewrite <- list_fmap_compose. split.
    + intros (j & -> & Hj%in_filter)%list_elem_of_fmap. exists j. naive_solver.
    + intros (j & Hj & <- & Hm). apply list_elem_of_fmap. exists j. split; [done|]. by apply in_filter.
Qed.
End Selecting.

Section Reachable.
Context {PC : PayloadCodecs} {MJ : MetadataJson} {ML : MetadataLaws} {DG : Digest} {OC : OrgCodec} {K : ItemKey}
        {RA : RealArith} {OJ : OfferJson}.
Context {QJ : QueryJson} {CT : CharTables} {TK : Tokenizer} {FT : FullText} {SJ : SqlJson} {CC : CredentialCodecs} {SP : SemanticParsers}.

End Reachable.

(** ** A history *)

Module QueryDemo.
#[export] Existing Instances HistoryDemo.codecs HistoryDemo.json HistoryDemo.laws HistoryDemo.digest OrgDemo.codec BinaryDemo.key PinDemo.arith MergeDemo.offers.
#[export] Instance json : QueryJson := {| serde_fingerprint f := if fp_pinned_only f then [Ascii.one] else [] |}.
(** An index that finds what has "meat" in it, the later entry the better match. *)
#[export] Instance index : FullText :=
  {| fts_match _ t := negb (String.eqb t "bread"); fts_relevance _ _ k := f64_of_int (100 - k); fts_vocabulary _ := [] |}.
#[export] Instance sql_json : SqlJson := {| json_credentials _ := false |}.
Definition pin (id : string) (s : Store) : Store :=
  match set_pinned (fun _ => []) false id true 5000 5000 s with Ok (_, s') => s' | Err _ => s end.
(** Four captures, of which the third is pinned. *)
Definition capture (id content : string) (at_ : Z) (s : Store) : Store := HistoryDemo.after (HistoryDemo.put id content at_ None s) s.
Definition meats : Store :=
  pin "c" (capture "d" "more meat" 90 (capture "c" "minced meat" 50 (capture "b" "bread" 200 (capture "a" "meat" 100 empty_store)))).
Definition all_of (sort : HistorySort) (raw : option text) : HistoryQuery :=
  {| q_search := raw; q_classes := []; q_kinds := []; q_pinned_only := false; q_origin := None; q_source_app := None;
     q_from := None; q_before := None; q_tag_ids := []; q_untagged_only := false; q_sort := sort |}.
Definition meat : HistoryQuery := all_of Relevance (Some (SearchDemo.chars "meat")).
#[local] Existing Instance SearchDemo.tables.
#[local] Existing Instance SearchDemo.tokenizer.
#[local] Existing Instance SemanticDemo.no_codecs.
#[local] Existing Instance SemanticDemo.parsers.
Definition ids (o : option (result StoreError (list StoredItem))) : option (list string) :=
  match o with Some (Ok l) => Some (st_id <$> l) | _ => None end.
Lemma best_first : ids (read_query meats meat 1 0 None 5 None) = Some ["c"; "d"; "a"]%string.
Proof. vm_compute. reflexivity. Qed.
Lemma oldest_first : ids (read_query meats (all_of Oldest None) 2 0 None 5 None) = Some ["c"; "d"; "a"; "b"]%string.
Proof. vm_compute. reflexivity. Qed.
(** A row that is not pinned but kept a place among the pins is sorted behind the
    rows without one, and passed over by the page after theirs. *)
Definition stray : Store :=
  PagesDemo.store_of [PagesDemo.row "a" false (Some (f64_of_int 5)) 200; PagesDemo.row "b" false None 100].
Lemma stray_row_is_passed_over :
  ids (read_query stray (all_of Newest None) 1 0 None 5 None) = Some ["b"]%string /\
  ids (Ok <$> read_all (read_page (1%nat, Some 0) stray) 5 None) = Some ["a"; "b"]%string.
Proof. vm_compute. by split. Qed.
Lemma capture_checked id content at_ s s0 : is_record_id id = false -> rtc checked_step s0 s -> rtc checked_step s0 (capture id content at_ s).
Proof.
  intros Hid Hs. unfold capture. destruct (HistoryDemo.put id content at_ None s) as [[[i c] s']|e] eqn:E; [|done].
  eapply rtc_r; [exact Hs|]. eapply checked_own, step_capture; [|exact E]. exact Hid.
Qed.
Lemma meats_checked : rtc checked_step empty_store meats.
Proof.
  unfold meats. assert (H : rtc checked_step empty_store (capture "d" "more meat" 90 (capture "c" "minced meat" 50 (capture "b" "bread" 200 (capture "a" "meat" 100 empty_store))))).
  { repeat (apply capture_checked; [reflexivity|]). apply rtc_refl. }
  revert H. generalize (capture "d" "more meat" 90 (capture "c" "minced meat" 50 (capture "b" "bread" 200 (capture "a" "meat" 100 empty_store)))).
  intros s H. unfold pin. destruct (set_pinned _ false "c" true 5000 5000 s) as [[b s']|e] eqn:E; [|exact H].
  eapply rtc_r; [exact H|]. eapply checked_own, step_pin. exact E.
Qed.
Lemma meat_is_answered : answered meat meats.
Proof. split; [reflexivity|]. intros H. vm_compute in H. discriminate H. Qed.
End QueryDemo.
Import QueryDemo.
#[local] Existing Instance SearchDemo.tables.
#[local] Existing Instance SearchDemo.tokenizer.
#[local] Existing Instance SemanticDemo.no_codecs.
#[local] Existing Instance SemanticDemo.parsers.
