(* ===== verification/Authority.v ===== *)
(** The settings of a running application and the authority over them
    ([copypaste-runtime/src/settings.rs]): one value in memory, on disk and in the
    capture gate; changes and captures take turns.

    A function of the source that takes a lock is one atomic step; whoever waits
    for the authority takes its step when the authority is free.  Each caller that
    holds the authority is a thread of its own: a capture or a native write between
    [with_capture_authority]'s snapshot and its end, a change at one of the points
    of [apply_with_effects] where others may run.  Every other caller of the gate
    takes the steps of [Admission.v]. *)

From S2P Require Import Prelude Float64 Bytes Text Wire Payload Settings Items Admission.

Create HintDb authority.

(** ** The value in force *)

Record SettingsState := {
  cf_config : ConfigData.t; cf_private_epoch : Z; cf_capture_epoch : Z; cf_health : option SettingsHealth;
}.
Definition unreadable_record : SettingsHealth := {| record_unreadable := true; unreadable_fields := [] |}.
Definition closed_state : SettingsState :=
  {| cf_config := all_closed; cf_private_epoch := u64_max; cf_capture_epoch := u64_max;
     cf_health := Some unreadable_record |}.

(** [Settings]: the row [settings] of [sync_device_state], the state behind the
    read-write lock, the flag behind the mutex, and the two locks' poison. *)
Record Service := {
  sv_record : option string; sv_current : SettingsState; sv_poisoned : bool;
  sv_applying : bool; sv_applying_poisoned : bool; sv_abandoned : bool;
}.
Definition set_record (r : option string) (s : Service) : Service :=
  {| sv_record := r; sv_current := sv_current s; sv_poisoned := sv_poisoned s;
     sv_applying := sv_applying s; sv_applying_poisoned := sv_applying_poisoned s; sv_abandoned := sv_abandoned s |}.
Definition set_current (c : SettingsState) (s : Service) : Service :=
  {| sv_record := sv_record s; sv_current := c; sv_poisoned := sv_poisoned s;
     sv_applying := sv_applying s; sv_applying_poisoned := sv_applying_poisoned s; sv_abandoned := sv_abandoned s |}.
Definition set_applying (b : bool) (s : Service) : Service :=
  {| sv_record := sv_record s; sv_current := sv_current s; sv_poisoned := sv_poisoned s;
     sv_applying := b; sv_applying_poisoned := sv_applying_poisoned s; sv_abandoned := sv_abandoned s |}.
Definition set_abandoned (s : Service) : Service :=
  {| sv_record := sv_record s; sv_current := sv_current s; sv_poisoned := sv_poisoned s;
     sv_applying := sv_applying s; sv_applying_poisoned := sv_applying_poisoned s; sv_abandoned := true |}.
Definition poison_locks (current applying : bool) (s : Service) : Service :=
  {| sv_record := sv_record s; sv_current := sv_current s; sv_poisoned := sv_poisoned s || current;
     sv_applying := sv_applying s; sv_applying_poisoned := sv_applying_poisoned s || applying;
     sv_abandoned := sv_abandoned s |}.

Inductive SettingsError := InvalidSetting (e : ConfigError) | SettingsStore.
Definition settings_error (e : TransitionError) : SettingsError :=
  match e with InvalidConfig e => InvalidSetting e | EpochExhausted => SettingsStore end.

Section Service.
Context {SJ : SettingsJson}.

(** [Settings::load]: what the store answers for the key. *)
Definition load_config (stored : result StoreError (option string)) : ConfigData.t * SettingsHealth :=
  match stored with
  | Ok (Some raw) => read raw
  | Ok None => (default_config, {| record_unreadable := false; unreadable_fields := [] |})
  | Err _ => (all_closed, unreadable_record)
  end.
Definition load (stored : result StoreError (option string)) : Service * State :=
  let '(c, health) := load_config stored in
  ({| sv_record := match stored with Ok r => r | Err _ => None end;
      sv_current := {| cf_config := c; cf_private_epoch := 0; cf_capture_epoch := 0;
                       cf_health := if is_degraded health then Some health else None |};
      sv_poisoned := false; sv_applying := false; sv_applying_poisoned := false; sv_abandoned := false |},
   Admission.new c).
End Service.

Definition shut_gate (g : Sys) : Sys := with_state (Admission.fail_closed (sy_state g)).1 g.
(** [Settings::get] and [Settings::config]. *)
Definition get (s : Service) (g : Sys) : SettingsState * Sys :=
  if sv_poisoned s then (closed_state, shut_gate g) else (sv_current s, g).
Definition config_of (s : Service) (g : Sys) : ConfigData.t * Sys := let '(c, g) := get s g in (cf_config c, g).

(** ** The authority *)

(** [enter_apply]: nothing while another holds it. *)
Definition enter_apply (s : Service) (g : Sys) : option (result SettingsError Service * Sys) :=
  if sv_applying_poisoned s || sv_abandoned s then Some (Err SettingsStore, shut_gate g)
  else if sv_applying s then None
  else Some (Ok (set_applying true s), g).
(** The drop of [Applying]. *)
Definition leave_apply (panicking : bool) (s : Service) (g : Sys) : Service * Sys :=
  (set_applying false (if panicking then set_abandoned s else s), if panicking then shut_gate g else g).
(** What [with_capture_authority] hands on, and [transition_is_in_progress]. *)
Definition authority_snapshot (s : Service) : option (ConfigData.t * Z) :=
  if sv_poisoned s || (cf_capture_epoch (sv_current s) =? u64_max) then None
  else Some (cf_config (sv_current s), cf_capture_epoch (sv_current s)).
Definition transition_is_in_progress (s : Service) : bool := negb (sv_applying_poisoned s) && sv_applying s.

(** ** A change: [apply_with_effects] between the points where others run *)

(** Up to the gate's transition. *)
Definition change_prepare (p : ConfigPatch.t) (s : Service) (g : Sys) : result SettingsError SettingsTransition * Sys :=
  if sv_poisoned s then (Err SettingsStore, shut_gate g)
  else (map_err settings_error (prepare_transition (cf_config (sv_current s)) (cf_private_epoch (sv_current s))
                                  (cf_capture_epoch (sv_current s)) p), g).
(** The write of the record; [fault] is a store that refuses it. *)
Definition change_persist {SJ : SettingsJson} (t : SettingsTransition) (fault : option StoreError) (s : Service)
    : result SettingsError Service :=
  map_err (fun _ => SettingsStore)
    (persist t (fun encoded => match fault with Some e => Err e | None => Ok (set_record (Some encoded) s) end)).
(** The value in force replaced. *)
Definition change_install (t : SettingsTransition) (s : Service) (g : Sys) : result SettingsError Service * Sys :=
  if sv_poisoned s then (Err SettingsStore, shut_gate g)
  else (Ok (set_current {| cf_config := config t; cf_private_epoch := private_mode_epoch t;
                           cf_capture_epoch := capture_privacy_epoch t; cf_health := None |} s), g).

Inductive Stage := Waiting | Alone | Written | Live.
Inductive Holder := Attempt (c : ConfigData.t) (epoch : Z) | Change (t : SettingsTransition) (at_ : Stage).
Record World := { w_service : Service; w_gate : Sys; w_holders : gmap Z Holder }.

Inductive notice :=
| Attempting (i : Z) (c : ConfigData.t) (epoch : Z)
| Ended (i : Z) (panicked : bool)
| Installed (t : SettingsTransition)
| Applied (t : SettingsTransition)
| Refused (i : Z)
| Quiet.

(** A caller that leaves: the guard of its transition, then the authority. *)
Definition without (i : Z) (panicking : bool) (s : Service) (g : Sys) (w : World) : World :=
  let '(s, g) := leave_apply panicking s g in
  {| w_service := s; w_gate := g; w_holders := delete i (w_holders w) |}.
Definition holding (i : Z) (h : Holder) (s : Service) (g : Sys) (w : World) : World :=
  {| w_service := s; w_gate := g; w_holders := <[i := h]> (w_holders w) |}.
Definition gone (w : World) (s : Service) (g : Sys) : World :=
  {| w_service := s; w_gate := g; w_holders := w_holders w |}.
Definition started (s : State) (g : Sys) : Sys := {| sy_state := s; sy_permits := sy_permits g; sy_guard := Some Draining |}.
Definition guarded (o : option Phase) (g : Sys) : Sys := {| sy_state := sy_state g; sy_permits := sy_permits g; sy_guard := o |}.
Definition released (g : Sys) : Sys :=
  {| sy_state := transition_drop (sy_state g); sy_permits := sy_permits g; sy_guard := None |}.

Section Moves.
Context {SJ : SettingsJson}.
Inductive move : World -> notice -> World -> Prop :=
(* Any caller of the gate but a change of settings; locks poisoned; a read. *)
| move_gate g e w : Admission.step (w_gate w) e g -> sy_guard g = sy_guard (w_gate w) ->
    (forall c, e <> Published c) -> move w Quiet (gone w (w_service w) g)
| move_poison current applying w : move w Quiet (gone w (poison_locks current applying (w_service w)) (w_gate w))
| move_read c g w : get (w_service w) (w_gate w) = (c, g) -> move w Quiet (gone w (w_service w) g)
(* [with_capture_authority]. *)
| move_attempt i s g c epoch w : w_holders w !! i = None ->
    enter_apply (w_service w) (w_gate w) = Some (Ok s, g) -> authority_snapshot s = Some (c, epoch) ->
    move w (Attempting i c epoch) (holding i (Attempt c epoch) s g w)
| move_no_snapshot i s g w : w_holders w !! i = None ->
    enter_apply (w_service w) (w_gate w) = Some (Ok s, g) -> authority_snapshot s = None ->
    move w (Refused i) (without i false s g w)
| move_refused i e g w : w_holders w !! i = None ->
    enter_apply (w_service w) (w_gate w) = Some (Err e, g) -> move w (Refused i) (gone w (w_service w) g)
| move_end i c epoch panicking w : w_holders w !! i = Some (Attempt c epoch) ->
    move w (Ended i panicking) (without i panicking (w_service w) (w_gate w) w)
(* [apply_with_effects]. *)
| move_rejected i p s g e g' w : w_holders w !! i = None ->
    enter_apply (w_service w) (w_gate w) = Some (Ok s, g) -> change_prepare p s g = (Err e, g') ->
    move w (Refused i) (without i false s g' w)
| move_no_start i p s g t g' st l w : w_holders w !! i = None ->
    enter_apply (w_service w) (w_gate w) = Some (Ok s, g) -> change_prepare p s g = (Ok t, g') ->
    transition_start (sy_state g') = (Err st, l) ->
    move w (Refused i) (without i false s (with_state st g') w)
| move_start i p s g t g' st l w : w_holders w !! i = None ->
    enter_apply (w_service w) (w_gate w) = Some (Ok s, g) -> change_prepare p s g = (Ok t, g') ->
    transition_start (sy_state g') = (Ok st, l) ->
    move w Quiet (holding i (Change t Waiting) s (started st g') w)
| move_alone i t w : w_holders w !! i = Some (Change t Waiting) ->
    transition_drained (sy_state (w_gate w)) = Some (Ok tt) ->
    move w Quiet (holding i (Change t Alone) (w_service w) (guarded (Some Owned) (w_gate w)) w)
| move_not_alone i t w : w_holders w !! i = Some (Change t Waiting) ->
    transition_drained (sy_state (w_gate w)) = Some (Err tt) ->
    move w (Refused i) (without i false (w_service w) (guarded None (w_gate w)) w)
| move_written i t fault s w : w_holders w !! i = Some (Change t Alone) ->
    change_persist t fault (w_service w) = Ok s ->
    move w Quiet (holding i (Change t Written) s (w_gate w) w)
| move_not_written i t fault e w : w_holders w !! i = Some (Change t Alone) ->
    change_persist t fault (w_service w) = Err e ->
    move w (Refused i) (without i false (w_service w) (released (w_gate w)) w)
| move_installed i t s g w : w_holders w !! i = Some (Change t Written) ->
    change_install t (w_service w) (w_gate w) = (Ok s, g) ->
    move w (Installed t) (holding i (Change t Live) s g w)
| move_not_installed i t e g w : w_holders w !! i = Some (Change t Written) ->
    change_install t (w_service w) (w_gate w) = (Err e, g) ->
    move w (Refused i) (without i false (w_service w) (released g) w)
(* The publication, the effects, and the return; either may not come. *)
| move_applied i t st panicking w : w_holders w !! i = Some (Change t Live) ->
    publish (config t) (sy_state (w_gate w)) = Ok st ->
    move w (Applied t) (without i panicking (w_service w) (released (with_state st (w_gate w))) w)
| move_not_published i t w : w_holders w !! i = Some (Change t Live) ->
    publish (config t) (sy_state (w_gate w)) = Err tt ->
    move w (Refused i) (without i false (w_service w) (released (shut_gate (w_gate w))) w).
End Moves.

Section Runs.
Context {SJ : SettingsJson}.
(** Runs, the latest notice first, from what the store held when the application began. *)
Inductive moves (w : World) : list notice -> World -> Prop :=
| moves_nil : moves w [] w
| moves_cons l w1 n w2 : moves w l w1 -> move w1 n w2 -> moves w (n :: l) w2.
Definition begin_world (stored : result StoreError (option string)) : World :=
  {| w_service := (load stored).1; w_gate := Admission.start (load_config stored).1; w_holders := ∅ |}.
End Runs.

(** ** What a step of the gate leaves alone *)

Lemma step_config g e g' : Admission.step g e g' -> (forall c, e <> Published c) ->
  st_config (sy_state g') = st_config (sy_state g).
Proof.
  intros Hs Hp.
  inversion Hs as [busy kind o s l w0 H|busy host o s l w0 H|busy token p b s l w0 H|busy token scope p s l w0 H
    |busy token scope s l w0 H|token p p' s w0 Hpm H|token p s l w0 Hpm H|token s l w0 H|host s l w0 H|s l w0 H
    |s l w0 Hgd H|s l w0 H|w0 Hgd H|w0 Hgd H|c s w0 Hgd H|w0 Hgd|w0]; subst; cbn [sy_state with_state]; try done.
  - pose proof (open_host_spec _ _ _ _ _ _ H) as Hsp. destruct o as [h|]; [by destruct Hsp as (_ & _ & _ & ->)|].
    by apply cm_config in Hsp.
  - pose proof (begin_spec _ _ _ _ _ _ H) as Hsp. destruct o as [t|]; [by destruct Hsp as (_ & _ & _ & _ & ->)|].
    by apply cm_config in Hsp.
  - by apply classify_calm, cm_config in H.
  - apply acquire_spec in H as (_ & x & _ & _ & _ & _ & _ & _ & _ & ->). unfold after_acquire. by destruct (is_completion scope).
  - by apply acquire_spec, cm_config in H.
  - revert H. unfold committed. repeat case_match; by intros [= _ <-].
  - revert H. unfold drop_permit. cbn zeta. case_match; by intros [= <- _].
  - by apply abandon_calm, cm_config in H.
  - by apply revoke_spec in H as [H%cm_config _].
  - by injection H as <- _.
  - by apply transition_start_spec in H as (_ & g1 & _ & ->).
  - by apply transition_start_spec, cm_config in H.
  - by destruct (Hp c).
  - unfold transition_drop. by destruct (st_poisoned _).
Qed.
Lemma step_no_permits g e g' : Admission.step g e g' -> ~ admitting (sy_state g) -> sy_permits g = ∅ -> sy_permits g' = ∅.
Proof.
  intros Hs Hsh He. inversion Hs as [| | |busy token scope p s l w0 H| |token p p' s w0 Hpm H|token p s l w0 Hpm H| | | | | | | | | |];
    subst; cbn [sy_permits with_state]; try done.
  - by apply acquire_spec in H as [H _].
  - by rewrite He, lookup_empty in Hpm.
  - by rewrite He, lookup_empty in Hpm.
Qed.
Lemma step_shut g e g' : Admission.step g e g' -> shut (sy_state g) -> shut (sy_state g').
Proof. intros Hs%step_moved [H|H]; [left; by apply (mv_closed _ _ Hs)|right; by apply (mv_poisoned _ _ Hs)]. Qed.
Lemma shut_gate_step g : Admission.step g Closed (shut_gate g).
Proof. apply (step_close _ (Admission.fail_closed (sy_state g)).2). by destruct (Admission.fail_closed (sy_state g)). Qed.
Lemma shut_gate_shut g : shut (sy_state (shut_gate g)).
Proof. by left. Qed.
Lemma shut_not_admitting s : shut s -> ~ admitting s.
Proof. intros [H|H] (H1 & H2 & _); congruence. Qed.

(** ** One caller at a time *)

Definition sole (o : option (Z * Holder)) (w : World) : Prop :=
  w_holders w = match o with Some (i, h) => {[i := h]} | None => ∅ end /\
  sv_applying (w_service w) = match o with Some _ => true | None => false end.
Definition guard_for (o : option (Z * Holder)) : option Phase :=
  match o with
  | Some (_, Change _ Waiting) => Some Draining
  | Some (_, Change _ _) => Some Owned
  | _ => None
  end.
Definition live (o : option (Z * Holder)) : Prop := exists i t, o = Some (i, Change t Live).

Lemma sole_here o w i h : sole o w -> w_holders w !! i = Some h -> o = Some (i, h).
Proof.
  intros [Hh _] Hi. rewrite Hh in Hi. destruct o as [[j k]|]; [|by rewrite lookup_empty in Hi].
  apply lookup_singleton_Some in Hi as [-> ->]. done.
Qed.
Lemma enter_ok s g s' g' : enter_apply s g = Some (Ok s', g') ->
  sv_applying_poisoned s = false /\ sv_abandoned s = false /\ sv_applying s = false /\ s' = set_applying true s /\ g' = g.
Proof.
  unfold enter_apply. destruct (sv_applying_poisoned s), (sv_abandoned s); try done. cbn.
  destruct (sv_applying s); [done|]. by intros [= <- <-].
Qed.
Lemma enter_err s g e g' : enter_apply s g = Some (Err e, g') -> g' = shut_gate g.
Proof.
  unfold enter_apply. destruct (_ || _); [by intros [= _ <-]|]. destruct (sv_applying s); [done|]. intros [=].
Qed.
Lemma sole_free o w s g : sole o w -> enter_apply (w_service w) (w_gate w) = Some (Ok s, g) -> o = None.
Proof. intros [_ Ha] (_ & _ & Hf & _)%enter_ok. destruct o; [congruence|done]. Qed.
Lemma sole_gone o w s g : sole o w -> sv_applying s = sv_applying (w_service w) -> sole o (gone w s g).
Proof. intros [H1 H2] H. split; cbn; [done|congruence]. Qed.
Lemma sole_holding o w i h s g : sole o w -> (o = None \/ exists k, o = Some (i, k)) -> sv_applying s = true ->
  sole (Some (i, h)) (holding i h s g w).
Proof.
  intros [H1 H2] Ho Ha. split; cbn; [|done]. rewrite H1. destruct Ho as [->|[k ->]]; [done|apply insert_singleton_eq].
Qed.
Lemma sole_without o w i p s g : sole o w -> (o = None \/ exists k, o = Some (i, k)) -> sole None (without i p s g w).
Proof.
  intros [H1 H2] Ho. unfold without, leave_apply. split; cbn; [|done]. rewrite H1.
  destruct Ho as [->|[k ->]]; [apply delete_empty|apply delete_singleton_eq].
Qed.
#[export] Hint Resolve sole_gone sole_holding sole_without : authority.

(** ** The gate beside it *)

(** The gate's copy of the settings is the value in force, except while the change that
    replaced that value has yet to be published, or when the gate is shut for good; no permit is
    out then. *)
Record gate_ok (o : option (Z * Holder)) (g : Sys) (c : ConfigData.t) : Prop := {
  gt_wf : exists evs, wf evs g;
  gt_guard : sy_guard g = guard_for o;
  gt_config : st_config (sy_state g) = c \/ sy_permits g = ∅ /\ (shut (sy_state g) \/ live o);
}.
Lemma live_guard o : live o -> guard_for o = Some Owned.
Proof. by intros (i & t & ->). Qed.
Lemma gate_step o o' g e g' c : gate_ok o g c -> Admission.step g e g' -> (forall c, e <> Published c) ->
  sy_guard g' = guard_for o' -> (live o -> live o' \/ shut (sy_state g')) -> gate_ok o' g' c.
Proof.
  intros [[evs Hw] Hg Hc] Hs Hp Hg' Hl. split; [exists (e :: evs); by eapply step_wf|done|].
  destruct Hc as [Hc|[He Hc]]; [left; by rewrite (step_config _ _ _ Hs Hp)|right].
  assert (Hna : ~ admitting (sy_state g)).
  { destruct Hc as [Hc|Hc]; [by apply shut_not_admitting|]. intros (_ & _ & Ht). apply live_guard in Hc.
    rewrite Hc in Hg. destruct (wf_guard _ _ Hw _ Hg). congruence. }
  split; [by eapply step_no_permits|]. destruct Hc as [Hc|Hc]; [left; by eapply step_shut|].
  destruct (Hl Hc); [by right|by left].
Qed.
Lemma gate_same o o' g c : gate_ok o g c -> guard_for o' = guard_for o -> (live o -> live o') -> gate_ok o' g c.
Proof. intros [H1 H2 H3] Hg Hl. split; [done|congruence|]. destruct H3 as [H3|[H3 [H4|H4]]]; [by left|right; by auto..]. Qed.
Lemma not_live i h : (forall t, h <> Change t Live) -> ~ live (Some (i, h)).
Proof. intros H (j & t & [= _ ->]). by destruct (H t). Qed.
Lemma gate_shut o g c : gate_ok o g c -> gate_ok o (shut_gate g) c.
Proof.
  intros H. apply (gate_step o o _ _ _ _ H (shut_gate_step g)); [done|by apply gt_guard in H|by left].
Qed.
Lemma gate_released o g c : gate_ok o g c -> sy_guard g = Some Owned -> (live o -> shut (sy_state g)) -> gate_ok None (released g) c.
Proof.
  intros H Hg Hl. apply (gate_step o None _ _ _ _ H (step_release g Hg)); [done|done|].
  intros Hs%Hl. right. exact (step_shut _ _ _ (step_release g Hg) Hs).
Qed.
Lemma gate_published o g c t st : gate_ok o g c -> guard_for o = Some Owned -> publish t (sy_state g) = Ok st ->
  gate_ok None (released (with_state st g)) t.
Proof.
  intros [[evs Hw] Hg _] Ho Hp. rewrite Ho in Hg.
  pose proof (step_publish t st g Hg Hp) as H1. pose proof (step_release (with_state st g) Hg) as H2.
  split; [|done|left].
  - exists (Released :: Published t :: evs). eapply step_wf; [by eapply step_wf|exact H2].
  - unfold publish in Hp. destruct (_ || negb _); [done|]. injection Hp as <-. cbn. unfold transition_drop. cbn.
    by destruct (st_poisoned _).
Qed.

(** ** The value, and its record *)

Definition installed (t : SettingsTransition) : SettingsState :=
  {| cf_config := config t; cf_private_epoch := private_mode_epoch t;
     cf_capture_epoch := capture_privacy_epoch t; cf_health := None |}.
Definition prepared (t : SettingsTransition) (c : SettingsState) : Prop :=
  exists p, prepare_transition (cf_config c) (cf_private_epoch c) (cf_capture_epoch c) p = Ok t.

Lemma prepare_ok c pe ce p t : prepare_transition c pe ce p = Ok t ->
  before t = c /\ config t = overlay p c /\ patch_ok p /\
  capture_privacy_epoch t = (if capture_privacy_changed (config t) c then ce + 1 else ce).
Proof.
  unfold prepare_transition. intros (n & [-> Hp]%map_err_ok%apply_ok & (a & _ & (b & Hb & [= <-])%bind_ok)%bind_ok)%bind_ok.
  cbn. split_and!; try done. revert Hb. unfold bump_epoch. destruct (capture_privacy_changed _ _); cbn; [|by intros [= <-]].
  rewrite ok_or_ok. unfold u64_checked_succ. destruct (_ <=? _); [|done]. by intros [= <-].
Qed.
Lemma change_prepare_ok p s g t g' : change_prepare p s g = (Ok t, g') ->
  g' = g /\ prepare_transition (cf_config (sv_current s)) (cf_private_epoch (sv_current s)) (cf_capture_epoch (sv_current s)) p = Ok t.
Proof.
  unfold change_prepare. destruct (sv_poisoned s); [done|]. intros [= H <-]. by apply map_err_ok in H.
Qed.
Lemma change_prepare_gate p s g r g' o c : change_prepare p s g = (r, g') -> gate_ok o g c -> gate_ok o g' c.
Proof.
  unfold change_prepare. destruct (sv_poisoned s); intros [= _ <-]; [apply gate_shut|done].
Qed.
Lemma change_install_ok t s g s' g' : change_install t s g = (Ok s', g') -> s' = set_current (installed t) s /\ g' = g.
Proof. unfold change_install. destruct (sv_poisoned s); [done|]. by intros [= <- <-]. Qed.
Lemma change_install_err t s g e g' : change_install t s g = (Err e, g') -> sv_poisoned s = true /\ g' = shut_gate g.
Proof. unfold change_install. destruct (sv_poisoned s); [by intros [= _ <-]|done]. Qed.
Lemma snapshot_ok s c e : authority_snapshot s = Some (c, e) ->
  sv_poisoned s = false /\ c = cf_config (sv_current s) /\ e = cf_capture_epoch (sv_current s).
Proof.
  unfold authority_snapshot. destruct (sv_poisoned s); [done|]. destruct (_ =? _) eqn:E; [done|]. by intros [= <- <-].
Qed.

(** ** Settings that are written and read again *)

(** Settings within their bounds, with the exclusions as a patch leaves them. *)
Definition sound (c : ConfigData.t) : Prop :=
  valid c /\ trim <$> ConfigData.excluded_app_bundle_ids c = ConfigData.excluded_app_bundle_ids c.
Lemma overlay_sound p c : patch_ok p -> sound c -> sound (overlay p c).
Proof.
  intros Hp [Hv Ht]. split; [by apply overlay_valid|]. cbn.
  destruct (ConfigPatch.excluded_app_bundle_ids p) as [l|]; cbn; [|done].
  rewrite <- list_fmap_compose. apply list_fmap_ext. intros _ x _. apply trim_idem.
Qed.
Lemma default_sound : sound default_config.
Proof. split; [apply default_valid|done]. Qed.
Lemma closed_sound : sound all_closed.
Proof. split; [apply all_closed_valid|done]. Qed.

Section Reading.
Context {SJ : SettingsJson}.
Lemma read_foldl_sound record l c : sound c -> sound (foldl (fun c f => (read_field record c f).1) c l).
Proof.
  revert c; induction l as [|f l IH]; intros c Hc; cbn [foldl]; [done|]. apply IH.
  destruct (read_field_cases record c f) as [[_ ->]|[(v & p & _ & _ & Hp & ->)|[_ ->]]]; cbn [fst]; [done|..];
    apply overlay_sound; try done. apply fail_closed_ok.
Qed.
Lemma read_sound raw : sound (read raw).1.
Proof.
  unfold read. destruct (parse_object raw) as [record|]; [|exact closed_sound].
  rewrite read_fields_foldl. apply (read_foldl_sound record field_liveness.*1 default_config), default_sound.
Qed.
Lemma load_sound stored : sound (load_config stored).1.
Proof.
  destruct stored as [[raw|]|e]; cbn; [apply read_sound|apply default_sound|apply closed_sound].
Qed.
End Reading.

(** The patch of one field. *)
Definition only (f : string) (p : ConfigPatch.t) : ConfigPatch.t :=
  let k {A} (g : string) (o : option A) := if String.eqb f g then o else None in {|
  ConfigPatch.private_mode := k "private_mode"%string (ConfigPatch.private_mode p);
  ConfigPatch.skip_secret := k "skip_secret"%string (ConfigPatch.skip_secret p);
  ConfigPatch.skip_transient := k "skip_transient"%string (ConfigPatch.skip_transient p);
  ConfigPatch.poll_interval_ms := k "poll_interval_ms"%string (ConfigPatch.poll_interval_ms p);
  ConfigPatch.history_limit := k "history_limit"%string (ConfigPatch.history_limit p);
  ConfigPatch.storage_quota_bytes := k "storage_quota_bytes"%string (ConfigPatch.storage_quota_bytes p);
  ConfigPatch.retention_days := k "retention_days"%string (ConfigPatch.retention_days p);
  ConfigPatch.dedup_window_secs := k "dedup_window_secs"%string (ConfigPatch.dedup_window_secs p);
  ConfigPatch.max_text_size_bytes := k "max_text_size_bytes"%string (ConfigPatch.max_text_size_bytes p);
  ConfigPatch.max_image_size_bytes := k "max_image_size_bytes"%string (ConfigPatch.max_image_size_bytes p);
  ConfigPatch.max_file_size_bytes := k "max_file_size_bytes"%string (ConfigPatch.max_file_size_bytes p);
  ConfigPatch.max_decoded_image_mb := k "max_decoded_image_mb"%string (ConfigPatch.max_decoded_image_mb p);
  ConfigPatch.excluded_app_bundle_ids := k "excluded_app_bundle_ids"%string (ConfigPatch.excluded_app_bundle_ids p);
  ConfigPatch.lan_visibility := k "lan_visibility"%string (ConfigPatch.lan_visibility p);
  ConfigPatch.sync_enabled := k "sync_enabled"%string (ConfigPatch.sync_enabled p);
  ConfigPatch.instant_clipboard := k "instant_clipboard"%string (ConfigPatch.instant_clipboard p);
  ConfigPatch.notify_on_copy := k "notify_on_copy"%string (ConfigPatch.notify_on_copy p);
  ConfigPatch.notification_preview := k "notification_preview"%string (ConfigPatch.notification_preview p);
  ConfigPatch.sound_on_copy := k "sound_on_copy"%string (ConfigPatch.sound_on_copy p) |}.
(** Serde writes an object of every field, and each is decoded as what was encoded. *)
Class SettingsCodec `{SettingsJson} : Prop := {
  encoded_object c j : encode_config c = Some j -> exists record, parse_object j = Some record /\
    forall f, f ∈ field_liveness.*1 ->
      exists v, record !! f = Some v /\ is_null v = false /\ patch_from f v = Some (only f (patch_of c));
}.
Lemma only_ok f c : valid c -> patch_ok (only f (patch_of c)).
Proof.
  intros []. split; cbn; unfold named_within; case_match; try done; try (by intros ? [= <-]).
Qed.
Lemma overlay_fields c : sound c ->
  foldl (fun b f => overlay (only f (patch_of c)) b) default_config field_liveness.*1 = c.
Proof.
  intros [_ Ht]. destruct c. cbn [ConfigData.excluded_app_bundle_ids] in Ht.
  lazy -[trim fmap]. cbn [fmap] in *. unfold list_fmap in *. by rewrite Ht.
Qed.
Section Codec.
Context `{SettingsCodec}.
Lemma read_encoded c j : sound c -> encode_config c = Some j ->
  read j = (c, {| record_unreadable := false; unreadable_fields := [] |}).
Proof.
  intros Hc Hj. apply encoded_object in Hj as (record & Hr & Hf). unfold read. rewrite Hr.
  assert (Hall : forall l b, l ⊆ field_liveness.*1 ->
    read_fields record l b = (foldl (fun b f => overlay (only f (patch_of c)) b) b l, [])).
  { induction l as [|f l IH]; intros b Hl; [done|]. cbn [read_fields foldl].
    destruct (Hf f ltac:(set_solver)) as (v & Hv & Hn & Hp).
    assert (Hrf : read_field record b f = (overlay (only f (patch_of c)) b, false)).
    { unfold read_field, decode_field. rewrite Hv, Hn, Hp. cbn [mbind option_bind].
      assert (Ha : apply (only f (patch_of c)) b = Ok (overlay (only f (patch_of c)) b)) by (apply apply_ok; split; [done|apply only_ok, Hc]).
      by rewrite Ha. }
    rewrite Hrf. rewrite IH by set_solver. done. }
  rewrite Hall by done. rewrite (overlay_fields c Hc). done.
Qed.
End Codec.

Section Invariant.
Context {SJ : SettingsJson}.
Lemma change_persist_ok t fault s s' : change_persist t fault s = Ok s' ->
  exists j, encode_config (config t) = Some j /\ s' = set_record (Some j) s.
Proof.
  unfold change_persist, persist. intros (j & Hj%ok_or_ok & Hw%map_err_ok)%map_err_ok%bind_ok.
  exists j. split; [done|]. destruct fault; [done|]. by injection Hw as <-.
Qed.

(** What a holder knows of the value in force. *)
Definition holder_ok (o : option (Z * Holder)) (c : SettingsState) : Prop :=
  match o with
  | Some (_, Attempt k e) => k = cf_config c /\ e = cf_capture_epoch c
  | Some (_, Change t Live) => c = installed t
  | Some (_, Change t _) => prepared t c
  | None => True
  end.
(** The row on disk is the record the application started from, or the value in force; the
    change that is to replace that value has already replaced the row. *)
Definition encoded (c : ConfigData.t) (r : option string) : Prop := exists j, encode_config c = Some j /\ r = Some j.
Definition record_ok (stored : result StoreError (option string)) (o : option (Z * Holder)) (s : Service) : Prop :=
  sv_poisoned s = true \/
  match o with
  | Some (_, Change t Written) => encoded (config t) (sv_record s)
  | _ => encoded (cf_config (sv_current s)) (sv_record s) \/
         sv_record s = sv_record (load stored).1 /\ cf_config (sv_current s) = (load_config stored).1
  end.
Record ok (stored : result StoreError (option string)) (o : option (Z * Holder)) (w : World) : Prop := {
  ok_sole : sole o w;
  ok_gate : gate_ok o (w_gate w) (cf_config (sv_current (w_service w)));
  ok_holder : holder_ok o (sv_current (w_service w));
  ok_record : record_ok stored o (w_service w);
  ok_sound : sound (cf_config (sv_current (w_service w)));
}.

Lemma begin_current stored : cf_config (sv_current (w_service (begin_world stored))) = (load_config stored).1.
Proof. unfold begin_world, load. cbn. by destruct (load_config stored). Qed.
Lemma begin_ok stored : ok stored None (begin_world stored).
Proof.
  split.
  - split; [done|]. cbn. unfold load. by destruct (load_config stored).
  - rewrite begin_current. split; [|done|by left]. exists []. apply start_wf.
  - done.
  - right. right. split; [done|]. apply begin_current.
  - rewrite begin_current. apply load_sound.
Qed.

Lemma record_ok_current stored o s : sv_poisoned s = true \/
  encoded (cf_config (sv_current s)) (sv_record s) \/
  sv_record s = sv_record (load stored).1 /\ cf_config (sv_current s) = (load_config stored).1 ->
  (forall i t, o <> Some (i, Change t Written)) -> record_ok stored o s.
Proof. intros H Ho. unfold record_ok. destruct o as [[i [|t []]]|]; try done. by destruct (Ho i t). Qed.
Lemma record_ok_settled stored o s : record_ok stored o s -> (forall i t, o <> Some (i, Change t Written)) ->
  sv_poisoned s = true \/ encoded (cf_config (sv_current s)) (sv_record s) \/
  sv_record s = sv_record (load stored).1 /\ cf_config (sv_current s) = (load_config stored).1.
Proof. intros H Ho. unfold record_ok in H. destruct o as [[i [|t []]]|]; try done. by destruct (Ho i t). Qed.
Lemma record_ok_poison stored o a b s : record_ok stored o s -> record_ok stored o (poison_locks a b s).
Proof. intros [H|H]; [left; cbn; by rewrite H|by right]. Qed.

(** One caller leaves, or none was there: nobody holds the authority, and the service is as it was. *)
Lemma ok_without stored o i p s g w :
  ok stored o w -> (o = None \/ exists k, o = Some (i, k)) ->
  sv_current s = sv_current (w_service w) -> record_ok stored None s ->
  gate_ok None g (cf_config (sv_current s)) -> ok stored None (without i p s g w).
Proof.
  intros [Hs Hg Hh Hr Hv] Ho Hc Hr' Hg'. pose proof (sole_without _ _ i p s g Hs Ho) as Hs'.
  unfold without, leave_apply in *. destruct p; (split; cbn in *; [done| |done| |by rewrite Hc]); try exact Hr'.
  - by apply gate_shut.
  - done.
Qed.
Lemma ok_holding stored o i h s g w :
  ok stored o w -> (o = None \/ exists k, o = Some (i, k)) -> sv_applying s = true ->
  gate_ok (Some (i, h)) g (cf_config (sv_current s)) -> holder_ok (Some (i, h)) (sv_current s) ->
  record_ok stored (Some (i, h)) s -> sound (cf_config (sv_current s)) -> ok stored (Some (i, h)) (holding i h s g w).
Proof. intros [Hs Hg Hh Hr Hv] Ho Ha Hg' Hh' Hr' Hv'. split; cbn; try done. by eapply sole_holding. Qed.
Lemma ok_gone stored o s g w :
  ok stored o w -> sv_current s = sv_current (w_service w) -> sv_applying s = sv_applying (w_service w) ->
  record_ok stored o s -> gate_ok o g (cf_config (sv_current s)) -> ok stored o (gone w s g).
Proof.
  intros [Hs Hg Hh Hr Hv] Hc Ha Hr' Hg'. split; cbn; try done; [by apply sole_gone|by rewrite Hc|by rewrite Hc].
Qed.
Lemma move_ok stored o w n w' : ok stored o w -> move w n w' -> exists o', ok stored o' w'.
Proof.
  intros Hok Hm. pose proof Hok as [Hs Hg Hh Hr Hv].
  assert (Hrec : forall o', (forall i t, o' <> Some (i, Change t Written)) -> (forall i t, o <> Some (i, Change t Written)) ->
    record_ok stored o' (w_service w)) by (intros o' H1 H2; apply record_ok_current; [by eapply record_ok_settled|done]).
  inversion Hm as [g e w0 Hst Hgd Hp|a b w0|c g w0 Hget|i s g c epoch w0 Hi He Hsn|i s g w0 Hi He Hsn|i e g w0 Hi He
    |i c epoch p w0 Hi|i p s g e g' w0 Hi He Hpr|i p s g t g' st l w0 Hi He Hpr Hst|i p s g t g' st l w0 Hi He Hpr Hst
    |i t w0 Hi Hd|i t w0 Hi Hd|i t fault s w0 Hi Hpe|i t fault e w0 Hi Hpe|i t s g w0 Hi Hin|i t e g w0 Hi Hin
    |i t st p w0 Hi Hpu|i t w0 Hi Hpu]; subst w0.
  all: try (pose proof (sole_here _ _ _ _ Hs Hi) as Ho; subst o).
  all: try (pose proof (sole_free _ _ _ _ Hs He) as Ho; subst o; apply enter_ok in He as (_ & _ & _ & -> & ->)).
  (* the gate, the locks, a read *)
  - exists o. apply ok_gone; try done. apply (gate_step o o _ _ _ _ Hg Hst Hp); [by rewrite Hgd; apply gt_guard in Hg|by left].
  - exists o. apply ok_gone; try done. by apply record_ok_poison.
  - exists o. unfold get in Hget. destruct (sv_poisoned _); injection Hget as _ <-; apply ok_gone; try done. by apply gate_shut.
  (* a capture begins, is refused, ends *)
  - exists (Some (i, Attempt c epoch)). apply snapshot_ok in Hsn as (_ & -> & ->). apply (ok_holding _ _ _ _ _ _ _ Hok); try solve [done|by left].
    apply (gate_same None); [done|done|by intros (? & ? & [=])].
  - exists None. apply (ok_without _ _ _ _ _ _ _ Hok); try solve [done|by left].
  - exists o. apply enter_err in He as ->. apply ok_gone; try done. by apply gate_shut.
  - exists None. apply (ok_without _ _ _ _ _ _ _ Hok); try solve [done|by right; eexists|by apply Hrec].
    apply (gate_same _ _ _ _ Hg); [done|by intros []%not_live].
  (* a change is refused before it starts, or starts *)
  - exists None. apply (ok_without _ _ _ _ _ _ _ Hok); try solve [done|by left]. cbn. by eapply change_prepare_gate.
  - exists None. apply change_prepare_ok in Hpr as [-> _]. apply (ok_without _ _ _ _ _ _ _ Hok); try solve [done|by left]. cbn.
    apply (gate_step _ None _ _ _ _ Hg (step_no_start _ _ _ Hst)); [done|by apply gt_guard in Hg|by intros (? & ? & [=])].
  - exists (Some (i, Change t Waiting)). apply change_prepare_ok in Hpr as [-> Hpr]. apply (ok_holding _ _ _ _ _ _ _ Hok); try solve [done|by left|by exists p].
    apply (gate_step _ _ _ _ _ _ Hg (step_start _ _ _ (gt_guard _ _ _ Hg) Hst)); [done|done|by intros (? & ? & [=])].
  (* the wait *)
  - exists (Some (i, Change t Alone)). apply (ok_holding _ _ _ _ _ _ _ Hok); try solve [done|by right; eexists|by apply Hs|by apply Hrec].
    apply (gate_step _ _ _ _ _ _ Hg (step_drained _ (gt_guard _ _ _ Hg) Hd)); try done. by intros []%not_live.
  - exists None. apply (ok_without _ _ _ _ _ _ _ Hok); try solve [done|by right; eexists|by apply Hrec].
    apply (gate_step _ _ _ _ _ _ Hg (step_not_drained _ (gt_guard _ _ _ Hg) Hd)); try done. by intros []%not_live.
  (* the record, and the value *)
  - exists (Some (i, Change t Written)). apply change_persist_ok in Hpe as (j & Hj & ->).
    apply (ok_holding _ _ _ _ _ _ _ Hok); try solve [done|by right; eexists|by apply Hs|by right; exists j].
    apply (gate_same _ _ _ _ Hg); [done|by intros []%not_live].
  - exists None. apply (ok_without _ _ _ _ _ _ _ Hok); try solve [done|by right; eexists|by apply Hrec].
    apply (gate_released _ _ _ Hg); [by apply gt_guard in Hg|by intros []%not_live].
  - exists (Some (i, Change t Live)). apply change_install_ok in Hin as [-> ->]. destruct Hh as [p Hp].
    apply prepare_ok in Hp as (_ & Ec & Hp & _). destruct Hg as [[evs Hw] Hg _].
    apply (ok_holding _ _ _ _ _ _ _ Hok); try solve [done|by right; eexists|by apply Hs].
    + split; [by exists evs|done|right]. split; [|right; by do 2 eexists]. destruct (wf_guard _ _ Hw _ Hg) as [_ H]. by apply H.
    + destruct Hr as [Hr|Hr]; [by left|right; by left].
    + cbn. rewrite Ec. by apply overlay_sound.
  - exists None. apply change_install_err in Hin as [Hp ->]. apply (ok_without _ _ _ _ _ _ _ Hok); try solve [done|by right; eexists|by left].
    apply (gate_released (Some (i, Change t Written))); [by apply gate_shut|by apply gt_guard in Hg|by intros []%not_live].
  (* the publication *)
  - exists None. apply (ok_without _ _ _ _ _ _ _ Hok); try solve [done|by right; eexists|by apply Hrec].
    rewrite (Hh : sv_current (w_service w) = installed t). exact (gate_published _ _ _ _ _ Hg eq_refl Hpu).
  - exists None. apply (ok_without _ _ _ _ _ _ _ Hok); try solve [done|by right; eexists|by apply Hrec].
    apply (gate_released (Some (i, Change t Live))); [by apply gate_shut|by apply gt_guard in Hg|intros _; apply shut_gate_shut].
Qed.
Lemma run_ok stored l w : moves (begin_world stored) l w -> exists o, ok stored o w.
Proof.
  induction 1 as [|l w1 n w2 _ [o Ho] Hm]; [exists None; apply begin_ok|]. by eapply move_ok.
Qed.
Lemma moves_app w0 l2 l1 w : moves w0 (l2 ++ l1) w <-> exists w1, moves w0 l1 w1 /\ moves w1 l2 w.
Proof.
  split.
  - revert w; induction l2 as [|n l2 IH]; intros w H; cbn in H; [exists w; by split; [|constructor]|].
    inversion H as [|? w1 ? ? H1 H2]; subst. destruct (IH w1 H1) as (w2 & H3 & H4). exists w2. split; [done|by econstructor].
  - intros (w1 & H1 & H2). induction H2; cbn; [done|by econstructor].
Qed.
Lemma moves_cons_inv w0 n l w : moves w0 (n :: l) w -> exists w1, moves w0 l w1 /\ move w1 n w.
Proof. inversion 1; subst. by eexists. Qed.

(** ** What moves the value in force *)

Lemma move_current stored o w n w' : ok stored o w -> move w n w' ->
  (forall t, n <> Installed t) /\ sv_current (w_service w') = sv_current (w_service w) \/
  exists i t, o = Some (i, Change t Written) /\ n = Installed t /\ sv_current (w_service w') = installed t /\
    prepared t (sv_current (w_service w)).
Proof.
  intros Hok Hm. destruct Hok as [Hs _ Hh _ _].
  inversion Hm as [| | | | | | | | | | | | | |i t s g w0 Hi Hin| | |]; subst.
  15: { right. exists i, t. apply change_install_ok in Hin as [-> _]. pose proof (sole_here _ _ _ _ Hs Hi) as ->. by split_and!. }
  13: { left. match goal with H : change_persist _ _ _ = Ok _ |- _ => apply change_persist_ok in H as (? & _ & ->) end. done. }
  all: left; split; [done|].
  all: repeat match goal with H : enter_apply _ _ = Some (Ok _, _) |- _ => apply enter_ok in H as (_ & _ & _ & -> & ->) end.
  all: unfold without, leave_apply; repeat case_match; simplify_eq; done.
Qed.
(** What decides whether a capture may be taken. *)
Definition same_privacy (a b : ConfigData.t) : Prop :=
  ConfigData.private_mode a = ConfigData.private_mode b /\
  ConfigData.excluded_app_bundle_ids a = ConfigData.excluded_app_bundle_ids b /\
  ConfigData.skip_secret a = ConfigData.skip_secret b /\ ConfigData.skip_transient a = ConfigData.skip_transient b.
Lemma same_privacy_spec a b : capture_privacy_changed a b = false <-> same_privacy a b.
Proof.
  unfold capture_privacy_changed, same_privacy.
  rewrite !orb_false_iff, !negb_false_iff, !Bool.eqb_true_iff, bool_decide_eq_true. tauto.
Qed.
#[export] Instance same_privacy_equiv : Equivalence same_privacy.
Proof.
  split; [by intros ?|by intros ?? (? & ? & ? & ?)|].
  intros ??? (? & ? & ? & ?) (? & ? & ? & ?). split_and!; congruence.
Qed.
Lemma epochs_grow stored o w l w' : ok stored o w -> moves w l w' ->
  cf_capture_epoch (sv_current (w_service w)) <= cf_capture_epoch (sv_current (w_service w')) /\
  (cf_capture_epoch (sv_current (w_service w)) = cf_capture_epoch (sv_current (w_service w')) ->
   same_privacy (cf_config (sv_current (w_service w'))) (cf_config (sv_current (w_service w))) /\
   forall t, Installed t ∈ l -> same_privacy (config t) (cf_config (sv_current (w_service w)))).
Proof.
  intros Hok. induction 1 as [|l w1 n w2 Hl IH Hm].
  - split; [lia|]. intros _. split; [reflexivity|]. by intros t ?%elem_of_nil.
  - destruct IH as [H1 H2]. assert (Hok1 : exists o1, ok stored o1 w1).
    { clear -Hok Hl SJ. revert Hok. generalize o. induction Hl as [|l w1 n w2 _ IH Hm]; intros o' H; [by exists o'|].
      destruct (IH _ H) as [o1 H1]. by eapply move_ok. }
    destruct Hok1 as [o1 Hok1]. destruct (move_current _ _ _ _ _ Hok1 Hm) as [[Hn ->]|(i & t & _ & -> & -> & p & Hp)].
    + split; [done|]. intros He. destruct (H2 He) as [H3 H4]. split; [done|]. intros t [Ht|Ht]%elem_of_cons; [by destruct (Hn t)|by apply H4].
    + apply prepare_ok in Hp as (_ & _ & _ & Hep). cbn [installed cf_capture_epoch cf_config].
      destruct (capture_privacy_changed (config t) _) eqn:Ec; [split; lia|]. rewrite Hep.
      split; [done|]. intros He. destruct (H2 He) as [H3 H4]. apply same_privacy_spec in Ec.
      assert (Hs : same_privacy (config t) (cf_config (sv_current (w_service w)))) by by rewrite Ec.
      split; [done|]. intros t' [[= ->]|Ht]%elem_of_cons; [done|by apply H4].
Qed.
End Invariant.

Section Promises.
Context {SJ : SettingsJson}.
Lemma attempt_snapshot w i c e w' : move w (Attempting i c e) w' ->
  sv_poisoned (w_service w) = false /\ c = cf_config (sv_current (w_service w)) /\
  e = cf_capture_epoch (sv_current (w_service w)) /\ w_holders w' !! i = Some (Attempt c e).
Proof.
  inversion 1 as [| | |? s g ? ? ? Hi He Hsn| | | | | | | | | | | | | |]; subst.
  apply enter_ok in He as (_ & _ & _ & -> & ->). apply snapshot_ok in Hsn as (Hp & -> & ->). split_and!; try done.
  cbn. by rewrite lookup_insert_eq.
Qed.
(** While the epoch is the one a capture saw, nothing that decides about captures has changed,
    not even back and forth. *)
Lemma unchanged_since stored n i c0 e m w :
  moves (begin_world stored) (n ++ Attempting i c0 e :: m) w -> cf_capture_epoch (sv_current (w_service w)) = e ->
  same_privacy (cf_config (sv_current (w_service w))) c0 /\
  forall t, Installed t ∈ n -> same_privacy (config t) c0.
Proof.
  intros (w2 & (w1 & H1 & Hi)%moves_cons_inv & H2)%moves_app He. destruct (run_ok _ _ _ H1) as [o Ho].
  pose proof (attempt_snapshot _ _ _ _ _ Hi) as (_ & -> & He1 & _).
  assert (H : moves w1 (n ++ [Attempting i (cf_config (sv_current (w_service w1))) e]) w).
  { apply moves_app. exists w2. split; [|done]. exact (moves_cons _ _ _ _ _ (moves_nil w1) Hi). }
  destruct (epochs_grow _ _ _ _ _ Ho H) as [_ Hs]. destruct Hs as [Hs Ht]; [congruence|].
  split; [done|]. intros t Hin. apply Ht, elem_of_app. by left.
Qed.

(** C10: there is one value of the settings.  However captures, changes, failed and interrupted
    writes and the other users of the capture gate interleave: at most one capture or change
    holds the authority; a capture in progress was given the very settings and epoch in force,
    and these stay in force while it lasts; every permit the gate has out carries the settings in
    force; and a restart, at any point but between a change's write and its taking effect, reads
    exactly the settings in force. *)
Theorem settings_have_one_value {SC : SettingsCodec} r l w :
  moves (begin_world (Ok r)) l w ->
  let s := w_service w in let c := cf_config (sv_current s) in
  (forall i j h k, w_holders w !! i = Some h -> w_holders w !! j = Some k -> i = j) /\
  (forall i c' e, w_holders w !! i = Some (Attempt c' e) ->
     c' = c /\ e = cf_capture_epoch (sv_current s) /\ forall n w', move w n w' -> sv_current (w_service w') = sv_current s) /\
  (forall t p, sy_permits (w_gate w) !! t = Some p -> pm_config p = c) /\
  (sv_poisoned s = false -> (forall i t, w_holders w !! i <> Some (Change t Written)) ->
     (load_config (Ok (sv_record s))).1 = c).
Proof.
  intros Hm s c. destruct (run_ok _ _ _ Hm) as [o Hok]. pose proof Hok as [Hs [[evs Hw] Hg Hc] Hh Hr Hso].
  split_and!.
  - intros i j h k Hi Hj. pose proof (sole_here _ _ _ _ Hs Hi) as ->. by pose proof (sole_here _ _ _ _ Hs Hj) as [= ->].
  - intros i c' e Hi. pose proof (sole_here _ _ _ _ Hs Hi) as ->. destruct Hh as [-> ->]. split_and!; [done..|].
    intros n w' Hn. destruct (move_current _ _ _ _ _ Hok Hn) as [[_ ->]|(? & ? & [=] & _)]; done.
  - intros t p Hp. apply (wf_permits _ _ Hw) in Hp as Hp'. destruct Hp' as (_ & -> & _).
    destruct Hc as [Hc|[He _]]; [done|]. by rewrite He, lookup_empty in Hp.
  - intros Hp Hn. apply record_ok_settled in Hr as [Hr|[(j & Hj & Hr)|[Hr He]]]; [fold s in Hr; congruence| | |].
    + cbn [load_config]. fold s in Hr. rewrite Hr. by rewrite (read_encoded c j Hso Hj).
    + assert (Hl : sv_record (load (Ok r)).1 = r) by (unfold load; by destruct (load_config (Ok r))).
      unfold c, s. by rewrite Hr, He, Hl.
    + intros i t ->. destruct Hs as [Hs _]. apply (Hn i t). by rewrite Hs, lookup_singleton_eq.
Qed.
(** What panics while it holds the authority closes it for good: nothing begins or changes any
    more, and the gate admits nobody. *)
Definition idle_notice (n : notice) : Prop := match n with Quiet | Refused _ => True | _ => False end.
Definition closed_down (w : World) : Prop :=
  sv_abandoned (w_service w) = true /\ w_holders w = ∅ /\ shut (sy_state (w_gate w)).
Lemma closed_down_move w n w' : closed_down w -> move w n w' -> closed_down w' /\ idle_notice n.
Proof.
  intros (Ha & Hh & Hs) Hm.
  assert (Hno : forall i h, w_holders w !! i <> Some h) by (intros i h; by rewrite Hh, lookup_empty).
  assert (Hen : forall s g, enter_apply (w_service w) (w_gate w) <> Some (Ok s, g)) by (intros s g He; apply enter_ok in He as (_ & ? & _); congruence).
  inversion Hm as [g e w0 Hst Hgd Hp|a b w0|c g w0 Hget| | |i e g w0 Hi He| | | | | | | | | | | |]; subst;
    try (exfalso; (by eapply Hen) || (by eapply Hno)).
  - split; [|done]. split_and!; try done. by eapply step_shut.
  - by split.
  - split; [|done]. split_and!; try done. unfold get in Hget. destruct (sv_poisoned _); injection Hget as _ <-; [apply shut_gate_shut|done].
  - split; [|done]. apply enter_err in He as ->. split_and!; try done. apply shut_gate_shut.
Qed.
Lemma panic_closes stored l2 i l1 w :
  moves (begin_world stored) (l2 ++ Ended i true :: l1) w -> closed_down w /\ Forall idle_notice l2.
Proof.
  intros (w2 & (w1 & H1 & Hi)%moves_cons_inv & H2)%moves_app.
  destruct (run_ok _ _ _ H1) as [o [Hs _ _ _ _]].
  assert (Hd : closed_down w2).
  { inversion Hi as [| | | | | |? c e ? ? Hin| | | | | | | | | | |]; subst. pose proof (sole_here _ _ _ _ Hs Hin) as ->.
    split_and!; [done| |apply shut_gate_shut]. destruct Hs as [Hs _]. cbn. rewrite Hs. apply delete_singleton_eq. }
  clear -H2 Hd. induction H2 as [|l w1 n w3 _ IH Hm]; [by split|]. destruct IH as [IH1 IH2].
  destruct (closed_down_move _ _ _ IH1 Hm). split; [done|by constructor].
Qed.
End Promises.

(** ** Witnesses *)

Module AuthorityDemo.
#[export] Instance config_eq_dec : EqDecision ConfigData.t.
Proof. solve_decision. Defined.
Definition private : ConfigData.t := overlay (private_patch true) default_config.
#[export] Instance json : SettingsJson := {|
  json := ConfigPatch.t;
  parse_object raw := if String.eqb raw "private"
    then Some (list_to_map ((fun f => (f, only f (patch_of private))) <$> field_liveness.*1)) else None;
  is_null _ := false;
  patch_from _ v := Some v;
  encode_config c := if decide (c = private) then Some "private"%string else None |}.
#[export] Instance codec : SettingsCodec.
Proof.
  split. intros c j Hc. cbn in Hc. destruct (decide (c = private)) as [->|]; [|done]. injection Hc as <-.
  eexists. split; [reflexivity|]. intros f Hf. exists (only f (patch_of private)). split; [|done].
  apply elem_of_list_to_map.
  - rewrite <- list_fmap_compose. change (NoDup ((fun f => f) <$> field_liveness.*1)). rewrite list_fmap_id. apply fields_nodup.
  - apply list_elem_of_fmap. by exists f.
Qed.
(** Private mode is switched on by one caller, then a capture begins. *)
Definition notices (t : SettingsTransition) : list notice :=
  [Attempting 2 private 1; Applied t; Installed t; Quiet; Quiet; Quiet].
Lemma switched_on : exists t w, moves (begin_world (Ok None)) (notices t) w /\
  w_holders w !! 2 = Some (Attempt private 1) /\ sv_record (w_service w) = Some "private"%string /\
  sv_poisoned (w_service w) = false.
Proof.
  destruct (prepare_transition default_config 0 0 (private_patch true)) as [t|] eqn:Et; [|vm_compute in Et; discriminate Et].
  exists t. eexists. split; [|split; [|split]].
  - repeat eapply moves_cons; [apply moves_nil| | | | | |].
    + eapply (move_start 1 (private_patch true)); [reflexivity..| |].
      * unfold change_prepare. cbn -[prepare_transition]. rewrite Et. reflexivity.
      * reflexivity.
    + eapply move_alone; [apply lookup_insert_eq|reflexivity].
    + eapply (move_written _ _ None); [apply lookup_insert_eq|].
      vm_compute in Et. injection Et as <-. vm_compute. reflexivity.
    + eapply move_installed; [apply lookup_insert_eq|reflexivity].
    + eapply (move_applied _ _ _ false); [apply lookup_insert_eq|reflexivity].
    + vm_compute in Et. injection Et as <-. eapply move_attempt; [reflexivity..|]. vm_compute. reflexivity.
  - reflexivity.
  - reflexivity.
  - reflexivity.
Qed.
End AuthorityDemo.
Lemma settings_have_one_value_witness :
  exists w, w_holders w !! 2 = Some (Attempt AuthorityDemo.private 1) /\
    (load_config (SJ := AuthorityDemo.json) (Ok (sv_record (w_service w)))).1 = cf_config (sv_current (w_service w)) /\
    cf_config (sv_current (w_service w)) = AuthorityDemo.private.
Proof.
  destruct AuthorityDemo.switched_on as (t & w & Hm & Hh & Hr & Hp).
  destruct (settings_have_one_value (SC := AuthorityDemo.codec) None _ w Hm) as (Hone & Hat & _ & Hd).
  exists w. split; [exact Hh|]. destruct (Hat _ _ _ Hh) as (He & _). split.
  - apply Hd; [exact Hp|]. intros i t' Hi. pose proof (Hone _ _ _ _ Hh Hi) as <-. rewrite Hh in Hi. discriminate Hi.
  - symmetry. exact He.
Defined.
