(* ===== verification/Clipboard.v ===== *)
(** The daemon's end of the system clipboard
    ([copypaste-daemon/src/clipboard/change.rs], and the policy, the captured value
    and the formats of [clipboard/mod.rs], [clipboard/format.rs] and
    [clipboard/source_coverage.rs]): when the clipboard is read, and what may be
    taken from it; and the macOS backend's own write of text ([clipboard/macos.rs]).

    The clipboard counts its changes; a backend remembers the count it read last and
    the count its own write was given, so that it never captures what it wrote. *)

From S2P Require Import Prelude Float64 Bytes Text Wire Payload Settings Credentials.

(** ** Changes *)

Definition BURST_THRESHOLD : Z := 3.
Definition COUNT_NONE : Z := -1.
Definition SELF_WRITE_DELTA : Z := 1.
Definition clear_sentinel_on_delta_mismatch : bool := false.
Inductive Change := Unchanged | SelfWrite | Fresh (lost_intermediates : Z).
Record ChangeTracker := { ct_cursor : Z; ct_sentinel : Z; ct_lost : Z }.
Definition new_tracker : ChangeTracker := {| ct_cursor := COUNT_NONE; ct_sentinel := COUNT_NONE; ct_lost := 0 |}.
(** [SelfWriteSentinel::arm], [clear] and [consume_if]. *)
Definition arm (count : Z) (t : ChangeTracker) : ChangeTracker :=
  {| ct_cursor := ct_cursor t; ct_sentinel := count; ct_lost := ct_lost t |}.
Definition clear (t : ChangeTracker) : ChangeTracker := arm COUNT_NONE t.
Definition consume_if (count : Z) (t : ChangeTracker) : bool * ChangeTracker :=
  if (0 <=? count) && (ct_sentinel t =? count) then (true, clear t) else (false, t).
Definition is_current (count : Z) (t : ChangeTracker) : bool := count =? ct_cursor t.
Definition observe (count : Z) (t : ChangeTracker) : Change * ChangeTracker :=
  if count =? ct_cursor t then (Unchanged, t)
  else
    let '(ours, t) := consume_if count t in
    if ours then (SelfWrite, {| ct_cursor := count; ct_sentinel := ct_sentinel t; ct_lost := ct_lost t |})
    else
      let t := if clear_sentinel_on_delta_mismatch then clear t else t in
      let lost := if ct_cursor t <? 0 then 0
                  else let delta := count - ct_cursor t in
                       if BURST_THRESHOLD <=? delta then delta - 1 else 0 in
      (Fresh lost, {| ct_cursor := count; ct_sentinel := ct_sentinel t; ct_lost := ct_lost t + lost |}).

(** The pasteboard, its count, and the macOS backend beside it.  Another program
    writes; the backend writes text ([set_contents]: the count [clearContents] returns
    is armed, [between] others write before the text is set, the pasteboard accepts it
    or not); the backend polls.  The backend is one value, so none of its polls falls
    within one of its writes. *)
Record Board := { bd_count : Z; bd_tracker : ChangeTracker }.
Inductive happening := Foreign | Own (between : nat) (accepted : bool) | Poll.
Definition set_contents (between : nat) (accepted : bool) (b : Board) : Board :=
  let pre := bd_count b in
  let cleared := pre + 1 in
  let t := arm cleared (bd_tracker b) in
  let actual := cleared + Z.of_nat between in
  {| bd_count := actual;
     bd_tracker := if negb accepted then clear t
                   else if negb (actual =? pre + SELF_WRITE_DELTA) && clear_sentinel_on_delta_mismatch then clear t
                   else t |}.
Definition happens (h : happening) (b : Board) : option Change * Board :=
  match h with
  | Foreign => (None, {| bd_count := bd_count b + 1; bd_tracker := bd_tracker b |})
  | Own between accepted => (None, set_contents between accepted b)
  | Poll => let '(c, t) := observe (bd_count b) (bd_tracker b) in
            (Some c, {| bd_count := bd_count b; bd_tracker := t |})
  end.
(** What the polls answer. *)
Fixpoint polls (l : list happening) (b : Board) : list Change :=
  match l with
  | [] => []
  | h :: l => let '(o, b) := happens h b in option_list o ++ polls l b
  end.
(** What they should: nothing without a change since the last poll; our own write for our own
    content; and the content of anybody else, with the changes it covered if they are many. *)
Fixpoint due (l : list happening) (since : option nat) (ours : bool) : list Change :=
  match l with
  | [] => []
  | Foreign :: l => due l (S <$> since) false
  | Own between accepted :: l => due l ((fun n => S (n + between)) <$> since) (accepted && (between =? 0)%nat)
  | Poll :: l =>
    match since with
    | Some O => Unchanged
    | _ => if ours then SelfWrite
           else Fresh (match since with Some n => if (3 <=? n)%nat then Z.of_nat n - 1 else 0 | None => 0 end)
    end :: due l (Some O) ours
  end.

(** ** Formats *)

Definition preferred (available : list string) : option string :=
  List.find (fun c => existsb (String.eqb c) available) [FILE; TEXT; RICH_TEXT; HTML; IMAGE_PNG; IMAGE_TIFF].
Definition text_from_utf8 (b : bytes) : string :=
  match from_utf8 b with Some s => s | None => from_utf8_lossy b end.
Definition supports (content_type : string) : bool :=
  existsb (String.eqb content_type) [TEXT; RICH_TEXT; HTML; IMAGE_PNG; IMAGE_TIFF; FILE].

(** ** What was captured, and from whom *)

Record Observation := { ob_service : Z; ob_epoch : Z; ob_real_epoch : Z; ob_active_known : bool }.
Inductive Incomplete := MissingBoundary | ServiceChanged | NonmonotonicGeneration | Evicted | Unknown | Exhausted.
Record Coverage := {
  cv_start : option Observation; cv_end : Observation; cv_incomplete : option Incomplete; cv_candidates : list string;
}.
Definition excluded_by (excluded : list string) (id : string) : bool := existsb (String.eqb id) excluded.
Definition coverage_allows (v : Coverage) (excluded : list string) : bool :=
  match excluded with
  | [] => true
  | _ => match cv_incomplete v, cv_candidates v with
         | None, _ :: _ => forallb (fun id => negb (excluded_by excluded id)) (cv_candidates v)
         | _, _ => false
         end
  end.
Inductive SourceConfidence := SingleObservedApplication | AmbiguousObservedApplications | Unavailable.
Definition confidence (v : Coverage) : SourceConfidence :=
  match cv_incomplete v, cv_candidates v with
  | Some _, _ | _, [] => Unavailable
  | None, [_] => SingleObservedApplication
  | None, _ => AmbiguousObservedApplications
  end.
Inductive SourcePolicyEvidence := Legacy | MacOs (coverage : Coverage).
Definition evidence_allows (e : SourcePolicyEvidence) (excluded : list string) (owner : option string) : bool :=
  match e with
  | MacOs v => coverage_allows v excluded && negb match owner with Some id => excluded_by excluded id | None => false end
  | Legacy => match excluded with [] => true | _ => match owner with Some id => negb (excluded_by excluded id) | None => false end end
  end.

(** A path is known by its UTF-8 spelling, if it has one. *)
Record Capture := {
  cp_privacy : ClipboardPrivacy; cp_content : string; cp_binary : option bytes; cp_path : option (option string);
  cp_file : option FileMetadata; cp_type : string; cp_app_id : option string; cp_app_name : option string;
  cp_source : SourcePolicyEvidence;
}.
Definition text_capture (content : string) : Capture :=
  {| cp_privacy := no_privacy; cp_content := content; cp_binary := None; cp_path := None; cp_file := None;
     cp_type := TEXT; cp_app_id := None; cp_app_name := None; cp_source := Legacy |}.

Definition limit_bytes (settings : ConfigData.t) (content_type : string) : Z := capture_limit_bytes settings content_type.
Definition no_content (c : Capture) : bool := String.eqb (cp_content c) "".
Definition is_image (content_type : string) : bool := match classify content_type with ClassImage => true | _ => false end.
(** The four shapes a capture can have, and whether it is within its limit. *)
Definition within_limit (settings : ConfigData.t) (c : Capture) : option bool :=
  match cp_binary c, cp_path c, cp_file c with
  | None, None, None =>
    if negb (no_content c) && supports (cp_type c) && is_text (cp_type c)
    then Some (str_len (cp_content c) <=? limit_bytes settings (cp_type c)) else None
  | Some b, None, None =>
    if no_content c && supports (cp_type c) && is_image (cp_type c)
    then Some (len b <=? limit_bytes settings (cp_type c)) else None
  | Some b, None, Some m =>
    if String.eqb (cp_type c) FILE && no_content c && negb (len b =? 0) && file_is_valid m
    then Some (len b <=? limit_bytes settings FILE) else None
  | None, Some _, Some m =>
    if String.eqb (cp_type c) FILE && no_content c && file_is_valid m then Some true else None
  | _, _, _ => None
  end.

Section Policy.
Context {CC : CredentialCodecs}.
Definition allows_materialized (settings : ConfigData.t) (c : Capture) : bool :=
  match within_limit settings c with
  | Some true =>
    if negb (allows (cp_privacy c) settings) || ConfigData.private_mode settings
       || negb (evidence_allows (cp_source c) (ConfigData.excluded_app_bundle_ids settings) (cp_app_id c))
    then false
    else allows (privacy_union (cp_privacy c) (default no_privacy (classify_credentials (cp_type c) (cp_content c)))) settings
  | _ => false
  end.
End Policy.

(** ** Detection is exact *)

Record tracks (since : option nat) (ours : bool) (b : Board) : Prop := {
  tk_count : 0 <= bd_count b;
  tk_cursor : match since with
              | None => ct_cursor (bd_tracker b) = COUNT_NONE
              | Some n => 0 <= ct_cursor (bd_tracker b) /\ bd_count b = ct_cursor (bd_tracker b) + Z.of_nat n
              end;
  tk_armed : ct_sentinel (bd_tracker b) <= bd_count b;
  tk_ours : since <> Some O -> (ct_sentinel (bd_tracker b) = bd_count b <-> ours = true);
  tk_seen : since = Some O -> ct_sentinel (bd_tracker b) <> bd_count b;
}.
Lemma tracks_start count ours : 0 <= count -> ours = false -> tracks None ours {| bd_count := count; bd_tracker := new_tracker |}.
Proof. intros Hc ->. split; cbn; unfold COUNT_NONE; [done|done|lia|intros _; split; [lia|done]|done]. Qed.
Lemma tracks_foreign since ours b : tracks since ours b -> tracks (S <$> since) false (happens Foreign b).2.
Proof.
  intros [Hc Hu Ha _ _]. split; cbn.
  - lia.
  - destruct since; cbn; [split; lia|done].
  - lia.
  - intros _. split; [lia|done].
  - by destruct since.
Qed.
Lemma tracks_own since ours between accepted b : tracks since ours b ->
  tracks ((fun n => S (n + between)) <$> since) (accepted && (between =? 0)%nat) (happens (Own between accepted) b).2.
Proof.
  intros [Hc Hu Ha _ _]. unfold happens, set_contents, clear_sentinel_on_delta_mismatch. cbv zeta.
  rewrite andb_false_r. split; cbn [snd bd_count bd_tracker].
  - lia.
  - destruct accepted, since; cbn; try (split; lia); done.
  - destruct accepted; cbn; unfold COUNT_NONE; lia.
  - intros _. destruct accepted; cbn; unfold COUNT_NONE; [|split; [lia|done]]. rewrite Nat.eqb_eq. lia.
  - by destruct since.
Qed.
Lemma tracks_poll since ours b : tracks since ours b ->
  (happens Poll b).1 = Some (match since with
    | Some O => Unchanged
    | _ => if ours then SelfWrite
           else Fresh (match since with Some n => if (3 <=? n)%nat then Z.of_nat n - 1 else 0 | None => 0 end)
    end) /\ tracks (Some O) ours (happens Poll b).2.
Proof.
  intros [Hc Hu Ha Ho Hn]. unfold happens, observe.
  destruct (decide (since = Some O)) as [->|Hs].
  { assert (E : (bd_count b =? ct_cursor (bd_tracker b)) = true) by (apply Z.eqb_eq; lia). rewrite E. cbn.
    split; [done|]. split; cbn; try done. }
  assert (E : (bd_count b =? ct_cursor (bd_tracker b)) = false).
  { apply Z.eqb_neq. destruct since as [[|n]|]; [done|lia|unfold COUNT_NONE in Hu; lia]. }
  rewrite E. unfold consume_if. rewrite (proj2 (Z.leb_le _ _) Hc). cbn [andb].
  destruct (Z.eqb_spec (ct_sentinel (bd_tracker b)) (bd_count b)) as [Hq|Hq].
  - apply (Ho Hs) in Hq as ->. cbn. split; [by destruct since as [[|n]|]|].
    split; cbn; unfold COUNT_NONE; try done; [split; lia|lia|lia].
  - assert (ours = false) as -> by (destruct ours; [by destruct Hq; apply Ho|done]).
    unfold clear_sentinel_on_delta_mismatch. cbn [fst snd]. split.
    + do 2 f_equal. destruct since as [[|n]|]; [done| |by rewrite Hu].
      destruct Hu as [Hu Hd]. assert (F : (ct_cursor (bd_tracker b) <? 0) = false) by (apply Z.ltb_ge; lia).
      rewrite F. unfold BURST_THRESHOLD. cbv zeta. destruct (Nat.leb_spec 3 (S n)), (Z.leb_spec 3 (bd_count b - ct_cursor (bd_tracker b))); first [exfalso; lia|f_equal; lia].
    + split; cbn; try done; [split; lia].
Qed.

