(* ===== verification/SourceCoverage.v ===== *)
(** Who may have put something on the clipboard
    ([copypaste-daemon/src/clipboard/source_coverage.rs], the requests of
    [macos_workspace.rs] and the poll of [clipboard/macos.rs]).

    macOS does not say who wrote the pasteboard.  A service on the main thread keeps
    the last activations of applications; a poll, on another thread, decides from
    them which applications may have written since the last change it acknowledged,
    and reads nothing if an excluded or an unknown one is among them.  Everything
    that takes a lock or asks the system is one atomic step; activations, copies and
    the end of the service may come between any two. *)

From S2P Require Import Prelude Float64 Bytes Text Wire Payload Settings Credentials Clipboard.

(** ** The history of activations *)

Definition MAX_ACTIVATIONS : nat := 128.
Record SourceIdentity := { si_bundle_id : option string; si_name : option string }.
Record Activation := { ac_epoch : Z; ac_bundle_id : option string }.
Record Decision := {
  dc_generation : Z; dc_sample : Observation; dc_coverage : Coverage; dc_identity : option SourceIdentity;
  dc_recovery : option Observation;
}.
Definition no_observation : Observation := {| ob_service := 0; ob_epoch := 0; ob_real_epoch := 0; ob_active_known := false |}.
Definition unavailable (generation : Z) (sample : option Observation) : Decision :=
  let sample := default no_observation sample in
  {| dc_generation := generation; dc_sample := sample;
     dc_coverage := {| cv_start := None; cv_end := sample; cv_incomplete := Some MissingBoundary; cv_candidates := [] |};
     dc_identity := None; dc_recovery := None |}.
#[export] Instance observation_eq_dec : EqDecision Observation.
Proof. solve_decision. Defined.
Definition fence (d : Decision) (current : option Observation) (generation : Z) : bool :=
  (generation =? dc_generation d)
  && match current with
     | Some current => bool_decide (current = cv_end (dc_coverage d))
     | None => ob_service (cv_end (dc_coverage d)) =? 0
     end.

Module ActivationHistory.
Record t := {
  service_id : Z; epoch : Z; real_epoch : Z; events : list Activation; active : option string;
}.
Definition new (service_id : Z) : t :=
  {| service_id := service_id; epoch := 0; real_epoch := 0; events := []; active := None |}.
Definition is_known (o : option string) : bool := match o with Some _ => true | None => false end.
Definition observation (h : t) : Observation :=
  {| ob_service := service_id h; ob_epoch := epoch h; ob_real_epoch := real_epoch h; ob_active_known := is_known (active h) |}.
Definition append (b : option string) (h : t) : t :=
  if epoch h <? u64_max
  then let kept := events h ++ [{| ac_epoch := epoch h + 1; ac_bundle_id := b |}] in
       {| service_id := service_id h; epoch := epoch h + 1; real_epoch := real_epoch h;
          events := if (MAX_ACTIVATIONS <? length kept)%nat then tail kept else kept; active := b |}
  else {| service_id := service_id h; epoch := epoch h; real_epoch := real_epoch h; events := []; active := None |}.
Definition record (b : option string) (h : t) : t :=
  let h := append b h in
  {| service_id := service_id h; epoch := epoch h; real_epoch := epoch h; events := events h; active := active h |}.
Definition deactivate (b : option string) (h : t) : t :=
  let h := record b h in
  {| service_id := service_id h; epoch := epoch h; real_epoch := real_epoch h; events := events h; active := None |}.
(** Whether [reconcile] finds the getter in disagreement. *)
Definition disagrees (b : option string) (h : t) : bool :=
  negb (bool_decide (active h = b)) || match events h with [] => true | _ => false end.
Definition reconcile (b : option string) (h : t) : t := if disagrees b h then append b (append None h) else h.

(** The events from an epoch on, if it is still there. *)
Fixpoint from_epoch (e : Z) (l : list Activation) : option (list Activation) :=
  match l with
  | [] => None
  | x :: k => if ac_epoch x =? e then Some l else from_epoch e k
  end.
(** The set of candidates in the order they are met. *)
Definition insert_candidate (b : string) (l : list string) : list string := if existsb (String.eqb b) l then l else l ++ [b].
Fixpoint gather (l : list Activation) (candidates : list string) (gap : option Incomplete) : list string * option Incomplete :=
  match l with
  | [] => (candidates, gap)
  | x :: l =>
    match ac_bundle_id x with
    | Some b => gather l (insert_candidate b candidates) gap
    | None => gather l candidates (Some Unknown)
    end
  end.
Definition covered (previous : option (Z * Observation)) (generation : Z) (sample : Observation) (h : t)
    : list string * option Incomplete :=
  if (service_id h =? 0) || (epoch h =? u64_max) then ([], Some Exhausted)
  else if negb (ob_service sample =? service_id h) then ([], Some ServiceChanged)
  else match previous with
       | None => ([], Some MissingBoundary)
       | Some (old_generation, start) =>
         if negb (ob_service start =? service_id h) then ([], Some ServiceChanged)
         else if generation <=? old_generation then ([], Some NonmonotonicGeneration)
         else match from_epoch (ob_epoch start) (events h) with
              | None => ([], Some Evicted)
              | Some l => let '(candidates, gap) := gather l [] None in
                          (candidates, if is_known (active h) then gap else Some Unknown)
              end
       end.
Definition decide (previous : option (Z * Observation)) (generation : Z) (sample : Observation)
    (identity : option SourceIdentity) (h : t) : Decision :=
  let end_ := observation h in
  let '(candidates, incomplete) := covered previous generation sample h in
  {| dc_generation := generation; dc_sample := sample;
     dc_coverage := {| cv_start := snd <$> previous; cv_end := end_; cv_incomplete := incomplete; cv_candidates := candidates |};
     dc_identity := if bool_decide (sample = end_) then identity else None;
     dc_recovery := if negb (ob_active_known sample) && ob_active_known end_ && (ob_service sample =? ob_service end_)
                       && (ob_real_epoch sample =? ob_real_epoch end_) && negb (epoch h =? u64_max)
                       && negb (service_id h =? 0)
                    then Some end_ else None |}.
End ActivationHistory.

(** ** The boundary a poll acknowledged *)

Record GenerationCoverage := { gc_boundary : option (Z * Observation); gc_consumed : option Z }.
Definition no_coverage : GenerationCoverage := {| gc_boundary := None; gc_consumed := None |}.
Definition unchanged (generation : Z) (o : option Observation) (g : GenerationCoverage) : GenerationCoverage :=
  if negb (bool_decide (gc_consumed g = Some generation)) then g
  else match o, gc_boundary g with
       | Some current, Some (_, old) =>
         if (ob_service current =? 0) || (ob_epoch current =? u64_max) || negb (ob_active_known current) then g
         else if negb (ob_active_known old) && (ob_service old =? ob_service current)
                 && (ob_real_epoch old =? ob_real_epoch current)
              then {| gc_boundary := Some (generation, current); gc_consumed := gc_consumed g |} else g
       | _, _ => g
       end.
Definition consume (generation : Z) (sample : option Observation) (d : option Decision) (same_count : bool)
    : GenerationCoverage :=
  let recovery :=
    if same_count
    then d ← d; if (dc_generation d =? generation) && bool_decide (Some (dc_sample d) = sample) then dc_recovery d else None
    else None in
  {| gc_boundary := pair generation <$> (match recovery with Some _ => recovery | None => sample end);
     gc_consumed := Some generation |}.

(** ** The service on the main thread *)

(** [process_requests], which reads the epoch, asks the workspace without a lock, and goes on if
    nothing was recorded meanwhile. *)
Definition bundle_of (i : option SourceIdentity) : option string := i ≫= si_bundle_id.
Definition resolved (sample_epoch : Z) (identity : option SourceIdentity) (h : ActivationHistory.t) : ActivationHistory.t :=
  if ActivationHistory.epoch h =? sample_epoch then ActivationHistory.reconcile (bundle_of identity) h else h.
Definition process_idle (sample_epoch : Z) (identity : option SourceIdentity) (h : ActivationHistory.t) : ActivationHistory.t :=
  if ActivationHistory.is_known (ActivationHistory.active h) then h else resolved sample_epoch identity h.
Definition process_request (sample_epoch : Z) (identity : option SourceIdentity) (previous : option (Z * Observation))
    (generation : Z) (sample : Observation) (h : ActivationHistory.t) : option Decision * ActivationHistory.t :=
  if ActivationHistory.epoch h =? sample_epoch
  then let h := ActivationHistory.reconcile (bundle_of identity) h in
       (Some (ActivationHistory.decide previous generation sample identity h), h)
  else (None, h).
(** [NEXT_SERVICE_ID] and [new_history]. *)
Definition next_service (next : Z) : Z := if next <? u64_max then next + 1 else next.
Definition service_of (next : Z) : Z := if next <? u64_max then next else 0.

(** ** A poll *)

Record Policy := { pl_excluded : list string; pl_private : bool }.
(** Where the worker that owns the backend is: [changed] before it reads the count; then
    [poll_with_policy] before it reads the count, before the privacy markers, before the
    decision, before the count that is acknowledged, and at the five points of
    [Decision::materialize].  The checks between the calls that read the payload only end
    a poll earlier. *)
Inductive Phase :=
| Idle
| Looking (o : option Observation)
| Sampled (p : Policy) (o : option Observation)
| Changed (p : Policy) (o : option Observation) (count : Z)
| Probed (p : Policy) (o : option Observation) (count : Z)
| Decided (p : Policy) (o : option Observation) (count : Z) (d : Decision)
| Consumed (p : Policy) (d : Decision)
| Observed (p : Policy) (d : Decision) (o : option Observation)
| Reading (p : Policy) (d : Decision)
| Materialized (p : Policy) (d : Decision)
| Rechecked (p : Policy) (d : Decision) (o : option Observation).
Record World := {
  w_history : option ActivationHistory.t; w_next : Z; w_count : Z;
  w_tracker : ChangeTracker; w_coverage : GenerationCoverage; w_phase : Phase;
}.
(** What happens, the latest first: the application reported in front, a copy and the count it is
    given, the service coming and going, the last look at the history before a payload is handed
    on, and a payload handed on. *)
Inductive notice :=
| Activated (b : option string) | Deactivated (b : option string) | Reconciled (b : option string)
| Copied (count : Z)
| Installed (id : Z) | Dropped
| LastLook
| Captured (generation : Z) (p : Policy) (coverage : Coverage).

Definition with_history (h : ActivationHistory.t) (w : World) : World :=
  {| w_history := Some h; w_next := w_next w; w_count := w_count w; w_tracker := w_tracker w; w_coverage := w_coverage w;
     w_phase := w_phase w |}.
Definition with_service (h : option ActivationHistory.t) (next : Z) (w : World) : World :=
  {| w_history := h; w_next := next; w_count := w_count w; w_tracker := w_tracker w; w_coverage := w_coverage w;
     w_phase := w_phase w |}.
Definition with_count (count : Z) (w : World) : World :=
  {| w_history := w_history w; w_next := w_next w; w_count := count; w_tracker := w_tracker w; w_coverage := w_coverage w;
     w_phase := w_phase w |}.
Definition with_tracker (t : ChangeTracker) (w : World) : World :=
  {| w_history := w_history w; w_next := w_next w; w_count := w_count w; w_tracker := t; w_coverage := w_coverage w;
     w_phase := w_phase w |}.
Definition with_coverage (g : GenerationCoverage) (w : World) : World :=
  {| w_history := w_history w; w_next := w_next w; w_count := w_count w; w_tracker := w_tracker w; w_coverage := g;
     w_phase := w_phase w |}.
Definition in_phase (p : Phase) (w : World) : World :=
  {| w_history := w_history w; w_next := w_next w; w_count := w_count w; w_tracker := w_tracker w; w_coverage := w_coverage w;
     w_phase := p |}.

(** [source_observation]. *)
Definition source_observation (w : World) : option Observation := ActivationHistory.observation <$> w_history w.
(** [changed], once it has read the count. *)
Definition looked (o : option Observation) (w : World) : World :=
  in_phase Idle (if is_current (w_count w) (w_tracker w)
                 then with_coverage (unchanged (w_count w) o (w_coverage w)) w else w).
(** [poll_with_policy] when it reads the count. *)
Definition observed (p : Policy) (o : option Observation) (w : World) : World :=
  let count := w_count w in
  let '(c, t) := observe count (w_tracker w) in
  let w := with_tracker t w in
  match c with
  | Unchanged => in_phase Idle (with_coverage (unchanged count o (w_coverage w)) w)
  | SelfWrite => in_phase Idle (with_coverage (consume count o None true) w)
  | Fresh _ => if pl_private p then in_phase Idle (with_coverage (consume count o None true) w)
               else in_phase (Changed p o count) w
  end.
(** When it has asked for the privacy markers ([allowed]: what the policy says of them). *)
Definition probed (p : Policy) (o : option Observation) (count : Z) (allowed : bool) (w : World) : World :=
  if negb (w_count w =? count) || negb allowed
  then in_phase Idle (with_coverage (consume count o None false) w) else in_phase (Probed p o count) w.
(** When it has the decision and reads the count again. *)
Definition acknowledged (p : Policy) (o : option Observation) (count : Z) (d : Decision) (w : World) : World :=
  in_phase (Consumed p d) (with_coverage (consume count o (Some d) (w_count w =? count)) w).
(** The two checks of [materialize]. *)
Definition checked (p : Policy) (d : Decision) (o : option Observation) (w : World) : World :=
  in_phase (if coverage_allows (dc_coverage d) (pl_excluded p) && fence d o (w_count w) then Reading p d else Idle) w.
Definition handed_on (d : Decision) (o : option Observation) (w : World) : bool := fence d o (w_count w).

Definition reconciled (b : option string) (h : ActivationHistory.t) : list notice :=
  if ActivationHistory.disagrees b h then [Reconciled b; Reconciled None] else [].
Definition answered (sample_epoch : Z) (i : option SourceIdentity) (h : ActivationHistory.t) : list notice :=
  if ActivationHistory.epoch h =? sample_epoch then reconciled (bundle_of i) h else [].

Inductive step : World -> list notice -> World -> Prop :=
(* Applications come to the front and copy; the service is started and stopped. *)
| step_activate h b w : w_history w = Some h -> step w [Activated b] (with_history (ActivationHistory.record b h) w)
| step_deactivate h b w : w_history w = Some h -> step w [Deactivated b] (with_history (ActivationHistory.deactivate b h) w)
| step_idle_turn h e i w : w_history w = Some h ->
    step w (if ActivationHistory.is_known (ActivationHistory.active h) then [] else answered e i h)
      (with_history (process_idle e i h) w)
| step_copy w : step w [Copied (w_count w + 1)] (with_count (w_count w + 1) w)
| step_install w : w_history w = None ->
    step w [Installed (service_of (w_next w))]
      (with_service (Some (ActivationHistory.new (service_of (w_next w)))) (next_service (w_next w)) w)
| step_drop w : step w [Dropped] (with_service None (w_next w) w)
(* The worker: its own writes, [changed], and a poll. *)
| step_write w : w_phase w = Idle ->
    step w [Copied (w_count w + 1)] (with_tracker (arm (w_count w + 1) (w_tracker w)) (with_count (w_count w + 1) w))
| step_write_failed w : w_phase w = Idle -> step w [] (with_tracker (clear (w_tracker w)) w)
| step_look w : w_phase w = Idle -> step w [] (in_phase (Looking (source_observation w)) w)
| step_looked o w : w_phase w = Looking o -> step w [] (looked o w)
| step_sample p w : w_phase w = Idle -> step w [] (in_phase (Sampled p (source_observation w)) w)
| step_observe p o w : w_phase w = Sampled p o -> step w [] (observed p o w)
| step_probe p o count allowed w : w_phase w = Changed p o count -> step w [] (probed p o count allowed w)
| step_decide p o sample count h e i d h' w : w_phase w = Probed p o count -> o = Some sample -> w_history w = Some h ->
    process_request e i (gc_boundary (w_coverage w)) count sample h = (Some d, h') ->
    step w (answered e i h) (in_phase (Decided p o count d) (with_history h' w))
| step_no_decision p o count w : w_phase w = Probed p o count ->
    step w [] (in_phase (Decided p o count (unavailable count o)) w)
| step_acknowledge p o count d w : w_phase w = Decided p o count d -> step w [] (acknowledged p o count d w)
| step_first_look p d w : w_phase w = Consumed p d -> step w [] (in_phase (Observed p d (source_observation w)) w)
| step_check p d o w : w_phase w = Observed p d o -> step w [] (checked p d o w)
| step_read p d w : w_phase w = Reading p d -> step w [] (in_phase (Materialized p d) w)
| step_read_nothing p d w : w_phase w = Reading p d -> step w [] (in_phase Idle w)
| step_last_look p d w : w_phase w = Materialized p d -> step w [LastLook] (in_phase (Rechecked p d (source_observation w)) w)
| step_hand_on p d o w : w_phase w = Rechecked p d o -> handed_on d o w = true ->
    step w [Captured (dc_generation d) p (dc_coverage d)] (in_phase Idle w)
| step_refuse p d o w : w_phase w = Rechecked p d o -> handed_on d o w = false -> step w [] (in_phase Idle w).
Inductive steps (w : World) : list notice -> World -> Prop :=
| steps_nil : steps w [] w
| steps_cons l w1 n w2 : steps w l w1 -> step w1 n w2 -> steps w (n ++ l) w2.
Definition begin_world (count : Z) : World :=
  {| w_history := None; w_next := 1; w_count := count; w_tracker := new_tracker; w_coverage := no_coverage; w_phase := Idle |}.

(** ** What a run of notices amounts to *)

(** The bundle a notice reports in front, if it is a report. *)
Definition report (n : notice) : option (option string) :=
  match n with Activated b | Deactivated b | Reconciled b => Some b | _ => None end.
(** Every report of a list names an application, and not an excluded one. *)
Definition clean (excluded : list string) (l : list notice) : Prop :=
  forall n b, n ∈ l -> report n = Some b -> exists a, b = Some a /\ a ∉ excluded.
(** The application in front: the last one reported by the service that is installed. *)
Fixpoint in_front (l : list notice) : option string :=
  match l with
  | [] => None
  | n :: l => match n with
              | Installed _ | Dropped => None
              | _ => match report n with Some b => b | None => in_front l end
              end
  end.

(** ** A run is determined by its notices *)

Fixpoint history_of (l : list notice) : option ActivationHistory.t :=
  match l with
  | [] => None
  | n :: l =>
    match n with
    | Installed id => Some (ActivationHistory.new id)
    | Dropped => None
    | Activated b => ActivationHistory.record b <$> history_of l
    | Deactivated b => ActivationHistory.deactivate b <$> history_of l
    | Reconciled b => ActivationHistory.append b <$> history_of l
    | _ => history_of l
    end
  end.
Fixpoint count_of (base : Z) (l : list notice) : Z :=
  match l with [] => base | Copied _ :: l => count_of base l + 1 | _ :: l => count_of base l end.
Fixpoint next_of (l : list notice) : Z :=
  match l with [] => 1 | Installed _ :: l => next_service (next_of l) | _ :: l => next_of l end.
Fixpoint log_ok (base : Z) (l : list notice) : Prop :=
  match l with
  | [] => True
  | n :: l => match n with
              | Copied c => c = count_of base l + 1
              | Installed id => id = service_of (next_of l)
              | _ => True
              end /\ log_ok base l
  end.
Definition observation_of (l : list notice) : option Observation := ActivationHistory.observation <$> history_of l.
(** No service comes or goes. *)
Definition same_service (l : list notice) : Prop := forall n, n ∈ l -> match n with Installed _ | Dropped => False | _ => True end.
(** The reports since the service was installed, the latest first. *)
Fixpoint since (l : list notice) : list (option string) :=
  match l with
  | [] => []
  | n :: l => match n with
              | Installed _ | Dropped => []
              | _ => match report n with Some b => b :: since l | None => since l end
              end
  end.
Definition reports (l : list notice) : list (option string) := omap report l.
Fixpoint numbered (l : list (option string)) : list Activation :=
  match l with
  | [] => []
  | b :: l => {| ac_epoch := Z.of_nat (S (length l)); ac_bundle_id := b |} :: numbered l
  end.

Lemma in_front_since l : in_front l = match since l with b :: _ => b | [] => None end.
Proof. induction l as [|n l IH]; [done|]. by destruct n; cbn. Qed.
Lemma same_service_nil : same_service [].
Proof. intros n Hn. by apply elem_of_nil in Hn. Qed.
Lemma same_service_cons n l : same_service (n :: l) <-> match n with Installed _ | Dropped => False | _ => True end /\ same_service l.
Proof.
  split; [|intros [Hn Hl] m [->|Hm]%elem_of_cons; [done|by apply Hl]].
  intros H. split; [apply (H n)|intros m Hm; apply (H m)]; apply elem_of_cons; auto.
Qed.
Lemma same_service_app l k : same_service (l ++ k) <-> same_service l /\ same_service k.
Proof.
  split; [|intros [Hl Hk] n [Hn|Hn]%elem_of_app; [by apply Hl|by apply Hk]].
  intros H. split; intros n Hn; apply (H n), elem_of_app; auto.
Qed.
Lemma since_app l k : same_service l -> since (l ++ k) = reports l ++ since k.
Proof.
  induction l as [|n l IH]; [done|]. rewrite same_service_cons. intros [Hn Hl].
  destruct n; try done; cbn; rewrite IH by done; reflexivity.
Qed.
Lemma elem_of_reports b l : b ∈ reports l <-> exists n, n ∈ l /\ report n = Some b.
Proof. unfold reports. rewrite list_elem_of_omap. done. Qed.

Lemma length_numbered l : length (numbered l) = length l.
Proof. induction l; cbn; congruence. Qed.
Lemma bundles_numbered l : ac_bundle_id <$> numbered l = l.
Proof. induction l as [|b l IH]; cbn; [done|]. by f_equal. Qed.
Lemma numbered_at l i x : numbered l !! i = Some x -> ac_epoch x = Z.of_nat (length l - i).
Proof.
  revert i. induction l as [|b l IH]; intros [|i]; cbn [numbered]; [done..| |].
  - intros [= <-]. cbn [ac_epoch length]. done.
  - intros H%IH. cbn [length]. rewrite H. f_equal.
Qed.

Lemma append_epoch_le b h : ActivationHistory.epoch h <= u64_max -> ActivationHistory.epoch (ActivationHistory.append b h) <= u64_max.
Proof. unfold ActivationHistory.append. destruct (Z.ltb_spec (ActivationHistory.epoch h) u64_max); cbn; lia. Qed.
Lemma append_service b h : ActivationHistory.service_id (ActivationHistory.append b h) = ActivationHistory.service_id h.
Proof. unfold ActivationHistory.append. by case_match. Qed.

(** What a report does to a history. *)
Lemma report_step n b l : report n = Some b -> exists f, (forall h, history_of l = Some h -> history_of (n :: l) = Some (f h)) /\
  (history_of l = None -> history_of (n :: l) = None) /\
  forall h, let k := ActivationHistory.append b h in
    ActivationHistory.epoch (f h) = ActivationHistory.epoch k /\ ActivationHistory.events (f h) = ActivationHistory.events k /\
    ActivationHistory.service_id (f h) = ActivationHistory.service_id h.
Proof.
  intros Hr. destruct n; cbn in Hr; try done; injection Hr as ->; cbn.
  - exists (ActivationHistory.record b). split_and!; [by intros h ->|by intros ->|].
    intros h. cbn. by rewrite append_service.
  - exists (ActivationHistory.deactivate b). split_and!; [by intros h ->|by intros ->|].
    intros h. cbn. by rewrite append_service.
  - exists (ActivationHistory.append b). split_and!; [by intros h ->|by intros ->|].
    intros h. by rewrite append_service.
Qed.
(** What any other notice does. *)
Lemma silent_step n l : report n = None ->
  history_of (n :: l) = match n with Installed id => Some (ActivationHistory.new id) | Dropped => None | _ => history_of l end.
Proof. by destruct n. Qed.

Lemma kept_events (x : Activation) k l : rev k = take MAX_ACTIVATIONS l ->
  rev (if (MAX_ACTIVATIONS <? length (k ++ [x]))%nat then tail (k ++ [x]) else k ++ [x]) = take MAX_ACTIVATIONS (x :: l).
Proof.
  intros Hk. assert (Hl : length k = Nat.min MAX_ACTIVATIONS (length l)) by (rewrite <- length_rev, Hk; apply length_take).
  assert (Hr : rev (k ++ [x]) = x :: take MAX_ACTIVATIONS l) by (rewrite rev_app_distr, Hk; done).
  rewrite length_app. cbn [length]. destruct (Nat.ltb_spec MAX_ACTIVATIONS (length k + 1)) as [H|H].
  - assert (length k = MAX_ACTIVATIONS) as Hm by lia. destruct k as [|y k]; [cbn in Hm; unfold MAX_ACTIVATIONS in Hm; lia|].
    cbn [app tail]. cbn [rev] in Hk. rewrite rev_app_distr. cbn [rev app]. unfold MAX_ACTIVATIONS in *.
    change (take 128 (x :: l)) with (x :: take 127 l). f_equal. cbn [length] in Hm.
    assert (E : take 127 l = take 127 (take 128 l)) by (by rewrite take_take).
    rewrite E, <- Hk, take_app_le by (rewrite length_rev; lia). symmetry. apply take_ge. rewrite length_rev. lia.
  - rewrite Hr. rewrite take_ge by lia. rewrite take_ge; [done|]. cbn [length]. lia.
Qed.

Lemma history_facts l h : history_of l = Some h ->
  ActivationHistory.epoch h <= u64_max /\
  (ActivationHistory.epoch h <> u64_max ->
     ActivationHistory.epoch h = Z.of_nat (length (since l)) /\
     rev (ActivationHistory.events h) = take MAX_ACTIVATIONS (numbered (since l))).
Proof.
  revert h. induction l as [|n l IH]; intros h H; [done|]. destruct (report n) as [b|] eqn:Hn.
  - destruct (report_step n b l Hn) as (f & Hs & Hnone & Hf). destruct (history_of l) as [h0|] eqn:E0.
    2:{ rewrite Hnone in H; done. }
    rewrite (Hs h0 eq_refl) in H. injection H as <-. destruct (IH _ eq_refl) as [Hle Hk].
    destruct (Hf h0) as (He & Hev & _). rewrite He, Hev. split; [by apply append_epoch_le|].
    unfold ActivationHistory.append.
    destruct (Z.ltb_spec (ActivationHistory.epoch h0) u64_max) as [Hlt|Hge]; cbn [ActivationHistory.epoch ActivationHistory.events]; [|lia].
    intros _. destruct Hk as [Hl He0]; [lia|].
    assert (since (n :: l) = b :: since l) as Es by (destruct n; cbn in Hn |- *; try done; congruence).
    rewrite Es. cbn [length]. split; [rewrite Hl; lia|]. cbn [numbered].
    replace (Z.of_nat (S (length (since l)))) with (ActivationHistory.epoch h0 + 1) by lia. by apply kept_events.
  - rewrite silent_step in H by done. destruct n; try done; try (by apply IH).
    injection H as <-. cbn. split; [done|]. intros _. done.
Qed.

(** ** Services and counts along a run *)

Lemma log_ok_app base l k : log_ok base (l ++ k) -> log_ok base k.
Proof. induction l as [|n l IH]; cbn; [done|]. intros [_ H]. by apply IH. Qed.
Lemma next_le l k : next_of k <= next_of (l ++ k).
Proof.
  induction l as [|n l IH]; cbn; [lia|]. destruct n; cbn; try done.
  unfold next_service. destruct (Z.ltb_spec (next_of (l ++ k)) u64_max); lia.
Qed.
Lemma service_below base l h : log_ok base l -> history_of l = Some h ->
  ActivationHistory.service_id h = 0 \/ ActivationHistory.service_id h < next_of l.
Proof.
  revert h. induction l as [|n l IH]; intros h Hl H; [done|]. destruct Hl as [Hn Hl]. destruct (report n) as [b|] eqn:Hr.
  - destruct (report_step n b l Hr) as (f & Hs & Hnone & Hf). destruct (history_of l) as [h0|] eqn:E0.
    2:{ rewrite Hnone in H; done. }
    rewrite (Hs h0 eq_refl) in H. injection H as <-. destruct (Hf h0) as (_ & _ & ->).
    replace (next_of (n :: l)) with (next_of l) by (by destruct n). by apply IH.
  - rewrite silent_step in H by done. destruct n; try done; try (by apply IH).
    injection H as <-. cbn. subst id. unfold service_of, next_service. destruct (Z.ltb_spec (next_of l) u64_max); lia.
Qed.
(** The same service, if it is a real one, is the same all along. *)
Lemma service_returns base l k h : log_ok base (l ++ k) -> history_of (l ++ k) = Some h ->
  same_service l \/ ActivationHistory.service_id h = 0 \/ next_of k <= ActivationHistory.service_id h.
Proof.
  revert h. induction l as [|n l IH]; intros h Hl H; [left; apply same_service_nil|]. destruct Hl as [Hn Hl]. rewrite same_service_cons.
  destruct (report n) as [b|] eqn:Hr.
  - destruct (report_step n b (l ++ k) Hr) as (f & Hs & Hnone & Hf). cbn [app] in H.
    destruct (history_of (l ++ k)) as [h0|] eqn:E0.
    2:{ rewrite Hnone in H; done. }
    rewrite (Hs h0 eq_refl) in H. injection H as <-. destruct (Hf h0) as (_ & _ & ->).
    destruct (IH h0 Hl eq_refl) as [?|?]; [left|by right]. split; [by destruct n|done].
  - cbn [app] in H. rewrite silent_step in H by done. destruct n; try done;
      try (destruct (IH h Hl H) as [?|?]; [by left|by right]).
    injection H as <-. right. cbn. subst id. unfold service_of. pose proof (next_le l k).
    destruct (Z.ltb_spec (next_of (l ++ k)) u64_max); [right|left]; lia.
Qed.
Lemma same_service_between base l k h h0 : log_ok base (l ++ k) -> history_of (l ++ k) = Some h -> history_of k = Some h0 ->
  ActivationHistory.service_id h = ActivationHistory.service_id h0 -> ActivationHistory.service_id h <> 0 -> same_service l.
Proof.
  intros Hl H H0 He Hn. destruct (service_returns base l k h Hl H) as [?|[?|?]]; [done..|].
  destruct (service_below base k h0 (log_ok_app _ _ _ Hl) H0); lia.
Qed.

Lemma count_le base l k : count_of base k <= count_of base (l ++ k).
Proof. induction l as [|n l IH]; cbn; [lia|]. destruct n; cbn; lia. Qed.
Lemma count_same base l k c : log_ok base (l ++ k) -> count_of base (l ++ k) = count_of base k -> Copied c ∉ l.
Proof.
  induction l as [|n l IH]; [intros _ _; apply not_elem_of_nil|]. intros [Hn Hl] H. pose proof (count_le base l k).
  rewrite not_elem_of_cons. destruct n; cbn in H; try (split; [congruence|by apply IH]); lia.
Qed.
(** A count that was passed was passed by a copy. *)
Lemma count_passed base l k c : log_ok base (l ++ k) -> count_of base k < c <= count_of base (l ++ k) ->
  exists l2 l1, l = l2 ++ Copied c :: l1 /\ count_of base (Copied c :: l1 ++ k) = c.
Proof.
  induction l as [|n l IH]; intros Hl Hc; [cbn in Hc; lia|]. destruct Hl as [Hn Hl].
  destruct (Z.le_gt_cases c (count_of base (l ++ k))) as [Hle|Hgt].
  - destruct (IH Hl) as (l2 & l1 & -> & H); [lia|]. by exists (n :: l2), l1.
  - destruct n as [| | |c'| | | |]; cbn in Hc; try lia. assert (c' = c) as -> by lia. exists [], l. split; [done|]. cbn. lia.
Qed.

Lemma in_front_app l k : same_service l ->
  in_front (l ++ k) = in_front k \/ exists n, n ∈ l /\ report n = Some (in_front (l ++ k)).
Proof.
  intros Hl. rewrite !in_front_since, since_app by done. destruct (reports l) as [|b r] eqn:E; [by left|].
  right. cbn. apply elem_of_reports. rewrite E. apply elem_of_cons. by left.
Qed.

(** ** What a decision covers *)

Lemma gather_gap l c : (ActivationHistory.gather l c (Some Unknown)).2 = Some Unknown.
Proof. revert c. induction l as [|x l IH]; intros c; cbn; [done|]. by case_match. Qed.
Lemma insert_candidate_in b c : b ∈ ActivationHistory.insert_candidate b c /\ c ⊆ ActivationHistory.insert_candidate b c.
Proof.
  unfold ActivationHistory.insert_candidate. destruct (existsb (String.eqb b) c) eqn:E.
  - apply existsb_exists in E as (x & Hx & ->%String.eqb_eq). split; [by apply list_elem_of_In|done].
  - split; [apply elem_of_app; right; by apply elem_of_cons; left|apply list_subseteq_app_l; done].
Qed.
Lemma gather_spec l c c' : ActivationHistory.gather l c None = (c', None) ->
  c ⊆ c' /\ forall x, x ∈ l -> exists a, ac_bundle_id x = Some a /\ a ∈ c'.
Proof.
  revert c. induction l as [|x l IH]; intros c; cbn; [intros [= ->]; split; [done|intros x Hx; by apply elem_of_nil in Hx]|].
  destruct (ac_bundle_id x) as [b|] eqn:Ex.
  - intros [Hc Hl]%IH. destruct (insert_candidate_in b c) as [Hb Hs]. split; [by etrans|].
    intros y [->|Hy]%elem_of_cons; [|by apply Hl]. exists b. auto.
  - intros H. pose proof (gather_gap l c) as Hg. by rewrite H in Hg.
Qed.
Lemma from_epoch_split e l k : ActivationHistory.from_epoch e l = Some k ->
  exists p x k', l = p ++ k /\ k = x :: k' /\ ac_epoch x = e.
Proof.
  induction l as [|y l IH]; cbn; [done|]. destruct (Z.eqb_spec (ac_epoch y) e) as [He|He].
  - intros [= <-]. by exists [], y, l.
  - intros (p & x & k' & -> & Hk & Hx)%IH. by exists (y :: p), x, k'.
Qed.
(** The events from an epoch on are the reports since, and the one before them. *)
Lemma from_epoch_since e l s k : rev l = take MAX_ACTIVATIONS (numbered s) -> ActivationHistory.from_epoch e l = Some k ->
  (length k <= length s)%nat /\ e = Z.of_nat (length s + 1 - length k) /\ (1 <= length k)%nat /\
  ac_bundle_id <$> rev k = take (length k) s.
Proof.
  intros Hl (p & x & k' & -> & -> & Hx)%from_epoch_split. rewrite rev_app_distr in Hl.
  assert (Hp : rev (x :: k') = take (S (length k')) (numbered s)).
  { assert (rev (x :: k') = take (length (rev (x :: k'))) (rev (x :: k') ++ rev p)) as E by (by rewrite take_app_length).
    rewrite Hl, take_take, length_rev in E. cbn [length] in E.
    rewrite E at 1. f_equal. apply (f_equal length) in Hl.
    rewrite length_app, !length_rev, length_take in Hl. cbn [length] in Hl. lia. }
  assert (Hlen : (S (length k') <= length s)%nat).
  { apply (f_equal length) in Hp. rewrite length_rev, length_take, length_numbered in Hp. cbn [length] in Hp. lia. }
  cbn [length]. split_and!; [done| |lia|].
  - assert (numbered s !! length k' = Some x) as H%numbered_at.
    { rewrite <- (lookup_take_lt (numbered s) (S (length k'))) by lia. rewrite <- Hp. cbn [rev].
      rewrite lookup_app_r by (rewrite length_rev; lia). by rewrite length_rev, Nat.sub_diag. }
    rewrite <- Hx, H. f_equal. lia.
  - rewrite Hp, fmap_take, bundles_numbered. done.
Qed.

(** What a complete coverage says of the reports since its boundary. *)
Definition named (candidates : list string) (b : option string) : Prop := exists a, b = Some a /\ a ∈ candidates.
Lemma coverage_names base l k h0 h previous generation sample candidates :
  log_ok base (l ++ k) -> history_of k = Some h0 -> history_of (l ++ k) = Some h ->
  ActivationHistory.covered (Some (previous, ActivationHistory.observation h0)) generation sample h = (candidates, None) ->
  previous < generation /\ ActivationHistory.service_id h <> 0 /\ ActivationHistory.epoch h <> u64_max /\
  same_service l /\ named candidates (in_front k) /\ Forall (named candidates) (reports l).
Proof.
  intros Hok H0 H. unfold ActivationHistory.covered.
  destruct (Z.eqb_spec (ActivationHistory.service_id h) 0) as [|Hs]; [done|].
  destruct (Z.eqb_spec (ActivationHistory.epoch h) u64_max) as [|He]; [done|]. cbn [orb].
  destruct (negb (ob_service sample =? ActivationHistory.service_id h)); [done|].
  destruct (Z.eqb_spec (ob_service (ActivationHistory.observation h0)) (ActivationHistory.service_id h)) as [Hss|]; [|done].
  destruct (Z.leb_spec generation previous) as [|Hg]; [done|]. cbn [negb].
  destruct (ActivationHistory.from_epoch _ _) as [k0|] eqn:Ef; [|done].
  destruct (ActivationHistory.gather k0 [] None) as [c gap] eqn:Eg. intros E.
  assert (c = candidates /\ gap = None) as [-> ->] by (destruct (ActivationHistory.is_known _); split; congruence).
  clear E. apply gather_spec in Eg as [_ Hb]. cbn in Hss.
  assert (Hq : same_service l) by (by eapply (same_service_between base l k h h0)).
  destruct (history_facts _ _ H) as [_ [Hl Hr]]; [done|].
  destruct (from_epoch_since _ _ _ _ Hr Ef) as (Hlen & Hst & Hone & Hk).
  assert (He0 : ActivationHistory.epoch h0 <> u64_max).
  { cbn in Hst. destruct (history_facts _ _ H) as [Hle _]. lia. }
  destruct (history_facts _ _ H0) as [_ [Hl0 _]]; [done|]. cbn in Hst.
  rewrite since_app in Hl, Hlen, Hst, Hk by done. rewrite length_app in Hlen, Hst.
  assert (Hn : length k0 = (length (reports l) + 1)%nat) by lia.
  assert (Hf : Forall (named candidates) (reports l ++ take 1 (since k))).
  { rewrite Hn in Hk. rewrite take_app, take_ge in Hk by lia.
    replace (length (reports l) + 1 - length (reports l))%nat with 1%nat in Hk by lia. rewrite <- Hk.
    apply Forall_fmap, Forall_forall. intros x Hx. cbn. destruct (Hb x) as (a & Ha & Hin); [|by exists a].
    apply list_elem_of_In, in_rev, list_elem_of_In. done. }
  apply Forall_app in Hf as [Hf1 Hf2]. split_and!; try done. rewrite in_front_since.
  destruct (since k) as [|b s]; [cbn in Hl0; lia|]. by apply Forall_cons in Hf2 as [? _].
Qed.

(** ** The invariant *)

(** None of a few given notices is the one in question. *)
Ltac others := repeat (apply not_elem_of_cons; split; [done|]); apply not_elem_of_nil.

(** At some moment of the run so far. *)
Definition seen (P : list notice -> Prop) (l : list notice) : Prop := exists k m, l = k ++ m /\ P m.
Lemma seen_app P n l : seen P l -> seen P (n ++ l).
Proof. intros (k & m & -> & H). exists (n ++ k), m. by rewrite app_assoc. Qed.
Lemma seen_now (P : list notice -> Prop) l : P l -> seen P l.
Proof. by exists [], l. Qed.
Lemma seen_mono (P Q : list notice -> Prop) l : (forall m, P m -> Q m) -> seen P l -> seen Q l.
Proof. intros H (k & m & -> & Hm). exists k, m. auto. Qed.

Section Invariant.
Variable base : Z.

Definition sampled (o : option Observation) : list notice -> Prop := seen (fun m => observation_of m = o).
Definition taken (o : option Observation) (count : Z) : list notice -> Prop :=
  seen (fun m => observation_of m = o /\ count_of base m <= count).
(** What a complete coverage is evidence of, when it is decided. *)
Definition settled (d : Decision) (m : list notice) : Prop :=
  let v := dc_coverage d in
  observation_of m = Some (cv_end v) /\ ob_service (cv_end v) <> 0 /\ ob_epoch (cv_end v) <> u64_max /\
  exists l2 l1, m = l2 ++ Copied (dc_generation d) :: l1 /\ count_of base (Copied (dc_generation d) :: l1) = dc_generation d /\
    same_service l2 /\ named (cv_candidates v) (in_front l1) /\ Forall (named (cv_candidates v)) (reports l2).
Definition evidence (d : Decision) (l : list notice) : Prop :=
  cv_incomplete (dc_coverage d) = None -> seen (settled d) l.
Definition recovered (d : Decision) (l : list notice) : Prop := forall o, dc_recovery d = Some o -> sampled (Some o) l.
Definition phase_ok (p : Phase) (l : list notice) : Prop :=
  match p with
  | Idle => True
  | Looking o | Sampled _ o => sampled o l
  | Changed _ o count | Probed _ o count => taken o count l /\ count <= count_of base l
  | Decided _ o count d => taken o count l /\ count <= count_of base l /\ evidence d l /\ recovered d l
  | Consumed _ d | Observed _ d _ => evidence d l
  | Reading p d | Materialized p d => evidence d l /\ coverage_allows (dc_coverage d) (pl_excluded p) = true
  | Rechecked p d o =>
    coverage_allows (dc_coverage d) (pl_excluded p) = true /\
    exists k m, l = k ++ LastLook :: m /\ (LastLook ∉ k) /\ observation_of m = o /\ evidence d m
  end.
Definition boundary_ok (g : GenerationCoverage) (l : list notice) : Prop :=
  forall count o, gc_boundary g = Some (count, o) -> taken (Some o) count l.
Record ok (l : list notice) (w : World) : Prop := {
  ok_log : log_ok base l; ok_history : w_history w = history_of l; ok_count : w_count w = count_of base l;
  ok_next : w_next w = next_of l; ok_boundary : boundary_ok (w_coverage w) l; ok_phase : phase_ok (w_phase w) l;
}.

Lemma taken_app o count n l : taken o count l -> taken o count (n ++ l).
Proof. apply seen_app. Qed.
Lemma evidence_app d n l : evidence d l -> evidence d (n ++ l).
Proof. intros H Hi. by apply seen_app, H. Qed.
Lemma boundary_app g n l : boundary_ok g l -> boundary_ok g (n ++ l).
Proof. intros H c o Hg. by apply taken_app, H. Qed.
Lemma phase_app p n l : LastLook ∉ n -> phase_ok p l -> phase_ok p (n ++ l).
Proof.
  intros Hn. pose proof (count_le base n l) as Hc. destruct p; cbn; try done; try apply seen_app; try apply evidence_app.
  - intros [H ?]. split; [by apply taken_app|lia].
  - intros [H ?]. split; [by apply taken_app|lia].
  - intros (H & ? & He & Hr). split_and!; [by apply taken_app|lia|by apply evidence_app|].
    intros x Hx. by apply seen_app, Hr.
  - intros [H ?]. split; [by apply evidence_app|done].
  - intros [H ?]. split; [by apply evidence_app|done].
  - intros (? & k & m & -> & Hk & Ho & He). split; [done|]. exists (n ++ k), m. rewrite <- app_assoc. split_and!; try done.
    apply not_elem_of_app. done.
Qed.
(** What was seen was taken at no later count than now. *)
Lemma sampled_taken o l : sampled o l -> taken o (count_of base l) l.
Proof. intros (k & m & -> & H). exists k, m. split_and!; [done..|]. apply count_le. Qed.

Lemma unchanged_ok o g l : sampled o l -> boundary_ok g l -> boundary_ok (unchanged (count_of base l) o g) l.
Proof.
  intros Ho Hg. unfold unchanged. repeat case_match; try done. intros c x [= <- <-].
  apply sampled_taken. done.
Qed.
Lemma consume_ok o count d b l : taken o count l ->
  (b = true -> count = count_of base l /\ forall d', d = Some d' -> recovered d' l) ->
  boundary_ok (consume count o d b) l.
Proof.
  intros Ho Hd c x. unfold consume. cbn [gc_boundary]. destruct b.
  2:{ destruct o as [o|]; cbn; [|done]. by intros [= <- <-]. }
  destruct (Hd eq_refl) as [Hc Hr]. destruct d as [d|]; cbn.
  2:{ destruct o as [o|]; cbn; [|done]. by intros [= <- <-]. }
  destruct (if _ : bool then dc_recovery d else None) as [r|] eqn:Er; cbn.
  - intros [= <- <-]. rewrite Hc. apply sampled_taken, (Hr d); [done|]. by destruct (_ && _).
  - destruct o as [o|]; cbn; [|done]. by intros [= <- <-].
Qed.

Lemma answered_ok e i h l : history_of l = Some h -> log_ok base l ->
  let n := answered e i h in
  history_of (n ++ l) = Some (resolved e i h) /\ log_ok base (n ++ l) /\ count_of base (n ++ l) = count_of base l /\
  next_of (n ++ l) = next_of l /\ LastLook ∉ n.
Proof.
  intros Hh Hl. unfold answered, resolved, reconciled, ActivationHistory.reconcile.
  destruct (_ =? _); [|by split_and!; [..|apply not_elem_of_nil]].
  destruct (ActivationHistory.disagrees _ _); [|by split_and!; [..|apply not_elem_of_nil]].
  cbn. rewrite Hh. split_and!; try done. others.
Qed.
Lemma decide_ok g count sample i h l : history_of l = Some h -> log_ok base l -> boundary_ok g l -> count <= count_of base l ->
  let d := ActivationHistory.decide (gc_boundary g) count sample i h in evidence d l /\ recovered d l.
Proof.
  intros Hh Hl Hg Hc. unfold ActivationHistory.decide.
  destruct (ActivationHistory.covered _ _ _ _) as [candidates incomplete] eqn:E. split.
  - intros Hi. cbn in Hi. subst incomplete. unfold settled. cbn [dc_coverage cv_end cv_candidates dc_generation].
    destruct (gc_boundary g) as [[previous start]|] eqn:Eb.
    2:{ unfold ActivationHistory.covered in E. by repeat case_match. }
    destruct (Hg _ _ Eb) as (k & m & -> & Hm & Hcm). unfold observation_of in Hm.
    destruct (history_of m) as [h0|] eqn:Eh0; [|done]. injection Hm as <-.
    destruct (coverage_names base k m h0 h _ _ _ _ Hl Eh0 Hh E) as (Hlt & Hs & He & Hq & Hf & Hr).
    apply seen_now. split_and!; [by unfold observation_of; rewrite Hh|done|done|].
    destruct (count_passed base k m count Hl) as (l2 & l1 & -> & Hcc); [lia|].
    apply same_service_app in Hq as [Hq2 [_ Hq1]%same_service_cons].
    unfold reports in Hr. rewrite omap_app in Hr. apply Forall_app in Hr as [Hr2 Hr1].
    exists l2, (l1 ++ m). rewrite <- app_assoc. split_and!; try done.
    destruct (in_front_app l1 m Hq1) as [->|Hin]; [done|]. apply elem_of_reports in Hin.
    cbn in Hr1. rewrite Forall_forall in Hr1. by apply Hr1.
  - intros o. cbn [dc_recovery]. destruct (_ && _); [|done]. intros [= <-].
    apply seen_now. unfold observation_of. by rewrite Hh.
Qed.
Lemma no_evidence count o l : evidence (unavailable count o) l.
Proof. done. Qed.

(** A step that tells nothing of the service and changes only what the invariant can spare. *)
Lemma quiet_ok n l w w' : ok l w -> log_ok base (n ++ l) -> w_history w' = history_of (n ++ l) ->
  w_count w' = count_of base (n ++ l) -> w_next w' = next_of (n ++ l) -> LastLook ∉ n ->
  w_coverage w' = w_coverage w -> w_phase w' = w_phase w -> ok (n ++ l) w'.
Proof.
  intros [] Hl Hh Hc Hn Hq Hg Hp. split; try done; rewrite ?Hg, ?Hp; [by apply boundary_app|by apply phase_app].
Qed.
(** A step of the worker that tells nothing. *)
Lemma worker_ok l w p g t : ok l w -> boundary_ok g l -> phase_ok p l ->
  ok l (in_phase p (with_coverage g (with_tracker t w))).
Proof. intros [] Hg Hp. by split. Qed.

Lemma observed_ok p o l w : ok l w -> w_phase w = Sampled p o -> ok l (observed p o w).
Proof.
  intros Hok Hp. pose proof (ok_phase _ _ Hok) as Ho. rewrite Hp in Ho. cbn in Ho.
  pose proof (sampled_taken _ _ Ho) as Ht. destruct Hok as [Hl Hh Hc Hn Hg Hph]. unfold observed.
  rewrite Hc. destruct (observe (count_of base l) (w_tracker w)) as [c t].
  assert (Hcons : boundary_ok (consume (count_of base l) o None true) l) by (by apply consume_ok).
  destruct c; [| |destruct (pl_private p)]; split; try done; cbn; try (by apply unchanged_ok); try done.
Qed.
Lemma step_ok l w n w' : ok l w -> step w n w' -> ok (n ++ l) w'.
Proof.
  intros Hok Hs. pose proof Hok as [Hl Hh Hc Hn Hg Hp]. destruct Hs.
  - apply (quiet_ok [Activated b] l w); try done; [|others]. cbn. by rewrite <- Hh, H.
  - apply (quiet_ok [Deactivated b] l w); try done; [|others]. cbn. by rewrite <- Hh, H.
  - rewrite H in Hh. unfold process_idle. destruct (ActivationHistory.is_known _).
    { apply (quiet_ok [] l w); try done. others. }
    destruct (answered_ok e i h l) as (H1 & H2 & H3 & H4 & H5); [done..|].
    apply (quiet_ok _ l w); try done; cbn; congruence.
  - apply (quiet_ok [Copied (w_count w + 1)] l w); try done; cbn; [split; [congruence|done]|congruence|others].
  - apply (quiet_ok [Installed (service_of (w_next w))] l w); try done; cbn; [split; [congruence|done]|congruence|others].
  - apply (quiet_ok [Dropped] l w); try done. others.
  - apply (quiet_ok [Copied (w_count w + 1)] l w); try done; cbn; [split; [congruence|done]|congruence|others].
  - by split.
  - split; try done. cbn. apply seen_now. unfold source_observation, observation_of. by rewrite Hh.
  - rewrite H in Hp. unfold looked. case_match; split; try done. cbn. rewrite Hc. by apply unchanged_ok.
  - split; try done. cbn. apply seen_now. unfold source_observation, observation_of. by rewrite Hh.
  - by apply observed_ok.
  - rewrite H in Hp. destruct Hp as [Ht Hle]. unfold probed. case_match; split; try done. cbn. by apply consume_ok.
  - rewrite H in Hp. destruct Hp as [Ht Hle]. rewrite H1 in Hh.
    destruct (answered_ok e i h l) as (A1 & A2 & A3 & A4 & A5); [done..|].
    unfold process_request in H2. unfold resolved in A1. destruct (_ =? _); [|done]. injection H2 as <- <-.
    destruct (decide_ok (w_coverage w) count sample i _ _ A1 A2) as [He Hr]; [by apply boundary_app|lia|].
    split; try done; cbn; try congruence; [by apply boundary_app|].
    split_and!; [by apply taken_app|lia|done|done].
  - rewrite H in Hp. destruct Hp as [Ht Hle]. by split.
  - rewrite H in Hp. destruct Hp as (Ht & Hle & He & Hr). split; try done. cbn. apply consume_ok; [done|].
    intros Hb%Z.eqb_eq. split; [lia|]. by intros d' [= <-].
  - rewrite H in Hp. by split.
  - rewrite H in Hp. unfold checked. destruct (coverage_allows _ _) eqn:Ha; [|by split]. case_match; by split.
  - rewrite H in Hp. by split.
  - by split.
  - rewrite H in Hp. destruct Hp as [He Ha]. split; try done; [by apply boundary_app|]. cbn. split; [done|].
    exists [], l. split_and!; [done|apply not_elem_of_nil| |done]. unfold source_observation, observation_of. by rewrite Hh.
  - split; try done. by apply boundary_app.
  - by split.
Qed.
Lemma run_coverage_ok l w : steps (begin_world base) l w -> ok l w.
Proof. induction 1 as [|l w1 n w2 _ IH Hs]; [by split|]. by eapply step_ok. Qed.
End Invariant.

(** ** What is captured, and from whom *)

Lemma answered_reports e i h n : n ∈ answered e i h -> is_Some (report n).
Proof.
  assert (Hnil : n ∈ [] -> is_Some (report n)) by (intros Hn; by apply elem_of_nil in Hn).
  unfold answered, reconciled. repeat case_match; try done.
  intros [->|[->|Hn]%elem_of_cons]%elem_of_cons; [by eexists..|by apply Hnil].
Qed.
Lemma captured_step w n w' g p v : step w n w' -> Captured g p v ∈ n ->
  n = [Captured g p v] /\ exists d o, w_phase w = Rechecked p d o /\ handed_on d o w = true /\ g = dc_generation d /\ v = dc_coverage d.
Proof.
  intros Hs Hin. destruct Hs; try case_match; try (by apply answered_reports in Hin as [? Hin]);
    try (by apply elem_of_nil in Hin); apply list_elem_of_singleton in Hin; try done.
  injection Hin as -> -> ->. split; [done|]. by exists d, o.
Qed.
Lemma captured_run base l w g p v : steps (begin_world base) l w -> forall k, l = Captured g p v :: k ->
  exists w1 d o, steps (begin_world base) k w1 /\ w_phase w1 = Rechecked p d o /\ handed_on d o w1 = true /\
    g = dc_generation d /\ v = dc_coverage d.
Proof.
  induction 1 as [|l w1 n w2 Hr IH Hs]; [done|]. intros k Hk. destruct n as [|x n]; [by apply IH|].
  injection Hk as -> Hk. destruct (captured_step _ _ _ g p v Hs ltac:(by apply elem_of_cons; left)) as ([= ->] & d & o & H).
  cbn in Hk. subst l. by exists w1, d, o.
Qed.
Lemma allowed_named v excluded b : coverage_allows v excluded = true -> excluded <> [] -> named (cv_candidates v) b ->
  exists a, b = Some a /\ a ∉ excluded.
Proof.
  intros Ha Hn (a & -> & Hin). exists a. split; [done|]. unfold coverage_allows in Ha. destruct excluded as [|e l]; [done|].
  destruct (cv_incomplete v); [done|]. destruct (cv_candidates v) as [|x k] eqn:Ec; [done|]. rewrite <- Ec in *.
  rewrite forallb_forall in Ha. specialize (Ha a (proj1 (list_elem_of_In _ _) Hin)).
  intros Hx%list_elem_of_In. unfold excluded_by in Ha. apply negb_true_iff in Ha.
  assert (existsb (String.eqb a) (e :: l) = true) as Hb; [|congruence].
  apply existsb_exists. exists a. by rewrite String.eqb_refl.
Qed.
Lemma allows_complete v excluded : coverage_allows v excluded = true -> excluded <> [] -> cv_incomplete v = None.
Proof. unfold coverage_allows. by repeat case_match. Qed.

(** Two equal looks at a service that works mean that it reported nothing between them. *)
Lemma nothing_reported base l k o : log_ok base (l ++ k) -> observation_of (l ++ k) = Some o -> observation_of k = Some o ->
  ob_service o <> 0 -> ob_epoch o <> u64_max -> same_service l /\ reports l = [].
Proof.
  intros Hl. unfold observation_of. intros (h & Hh & ->)%fmap_Some (h0 & Hh0 & E)%fmap_Some Hs He. cbn in Hs, He.
  injection E as Ese Eep _ _.
  assert (Hq : same_service l) by (by eapply (same_service_between base l k)).
  split; [done|]. destruct (history_facts _ _ Hh) as [_ [H1 _]]; [done|]. destruct (history_facts _ _ Hh0) as [_ [H0 _]]; [congruence|].
  rewrite since_app, length_app in H1 by done. destruct (reports l); [done|]. cbn in H1. lia.
Qed.

(** C5: what may not come from an excluded application is not captured.  However activations,
    copies, the end and the restart of the service and the application's own writes fall between
    the steps of a poll: a payload that is handed on is that of the latest copy; the application
    in front when it was copied was known and is not on the list of exclusions, and neither is any
    other reported from then until the poll looked for the last time, all by one service.  This
    holds for the exclusions the poll was given and for any later ones its coverage is held
    against. *)
Theorem excluded_sources_are_not_captured base l g p v w :
  steps (begin_world base) (Captured g p v :: l) w ->
  coverage_allows v (pl_excluded p) = true /\
  forall excluded, excluded <> [] -> coverage_allows v excluded = true ->
  exists l3 l2 l1 a, l = l3 ++ LastLook :: l2 ++ Copied g :: l1 /\ (LastLook ∉ l3) /\
    (forall c, Copied c ∉ l3 ++ l2) /\ same_service l2 /\
    in_front l1 = Some a /\ (a ∉ excluded) /\ clean excluded l2.
Proof.
  intros H. apply (captured_run _ _ _ g p v) with (k := l) in H as (w1 & d & o & Hr & Hph & Hf & -> & ->); [|done].
  apply run_coverage_ok in Hr as [Hl _ Hc _ _ Hp]. rewrite Hph in Hp. destruct Hp as [Ha (l3 & m & -> & Hlast & Ho & He)].
  split; [done|]. intros excluded Hn Hx. apply andb_true_iff in Hf as [Hg%Z.eqb_eq Hf].
  destruct (He (allows_complete _ _ Hx Hn)) as (n & m1 & -> & Hm & Hs & Hep & l2 & l1 & -> & Hcc & Hq & Hfr & Hrep).
  destruct o as [o|]; [|by apply Z.eqb_eq in Hf]. apply bool_decide_eq_true in Hf as ->.
  assert (Hl' : log_ok base (n ++ l2 ++ Copied (dc_generation d) :: l1)).
  { apply (log_ok_app base (l3 ++ [LastLook])). by rewrite <- app_assoc. }
  destruct (nothing_reported base n _ _ Hl' Ho Hm Hs Hep) as [Hnq Hnr].
  destruct (allowed_named _ _ _ Hx Hn Hfr) as (a & Hfa & Hae).
  exists l3, (n ++ l2), l1, a. split_and!; try done.
  - by rewrite <- !app_assoc.
  - intros c Hin. apply (count_same base (l3 ++ LastLook :: n ++ l2) (Copied (dc_generation d) :: l1) c).
    + by rewrite <- app_assoc; cbn; rewrite <- app_assoc.
    + rewrite <- app_assoc. cbn [app]. rewrite <- app_assoc. by rewrite <- Hc, Hg, Hcc.
    + revert Hin. rewrite !elem_of_app, elem_of_cons, elem_of_app. tauto.
  - by apply same_service_app.
  - intros x b Hin Hxb. apply (allowed_named _ _ _ Hx Hn). rewrite Forall_forall in Hrep. apply Hrep.
    apply elem_of_reports. exists x. split; [|done]. apply elem_of_app in Hin as [Hin|Hin]; [|done].
    assert (b ∈ reports n) as Hb by (apply elem_of_reports; by exists x). rewrite Hnr in Hb. by apply elem_of_nil in Hb.
Qed.

(** ** Witnesses *)

(** The service is installed with an editor in front; the first poll finds what was copied before
    and refuses it; the editor copies and a browser comes to the front; the second poll hands the
    payload on, although a password manager is excluded.  Had the manager come to the front
    instead of the browser, its poll would have ended at the first check. *)
Module CoverageDemo.
Definition policy : Policy := {| pl_excluded := ["com.vault"]; pl_private := false |}.
Definition editor : SourceIdentity := {| si_bundle_id := Some "com.editor"; si_name := None |}.
Definition app (b : string) : SourceIdentity := {| si_bundle_id := Some b; si_name := None |}.
(** A poll between whose steps nothing happens. *)
Definition decide_now (i : option SourceIdentity) (o : option Observation) (count : Z) (w : World) : Decision :=
  match o, w_history w with
  | Some sample, Some h =>
    match process_request (ActivationHistory.epoch h) i (gc_boundary (w_coverage w)) count sample h with
    | (Some d, _) => d
    | _ => unavailable count o
    end
  | _, _ => unavailable count o
  end.
Definition poll (i : option SourceIdentity) (w : World) : World :=
  let o := source_observation w in
  let w := observed policy o (in_phase (Sampled policy o) w) in
  match w_phase w with
  | Changed p o count =>
    let w := probed p o count true w in
    match w_phase w with
    | Probed p o count =>
      let d := decide_now i o count w in
      let w := acknowledged p o count d (in_phase (Decided p o count d) w) in
      let o := source_observation w in checked p d o (in_phase (Observed p d o) w)
    | _ => w
    end
  | _ => w
  end.
Definition at_reading (w : World) : bool := match w_phase w with Reading _ _ => true | _ => false end.
Definition installed : World :=
  let w := begin_world 5 in
  let w := with_service (Some (ActivationHistory.new (service_of 1))) (next_service 1) w in
  with_history (ActivationHistory.record (Some "com.editor") (ActivationHistory.new 1)) w.
Definition first_poll : World := poll (Some editor) installed.
Definition copied (b : string) : World :=
  let w := with_count 6 first_poll in
  match w_history w with Some h => with_history (ActivationHistory.record (Some b) h) w | None => w end.
Definition second_poll (b : string) : World := poll (Some (app b)) (copied b).
Example first_is_refused : at_reading first_poll = false.
Proof. reflexivity. Qed.
Example browser_is_read : at_reading (second_poll "com.browser") = true.
Proof. reflexivity. Qed.
Example vault_is_not_read : at_reading (second_poll "com.vault") = false.
Proof. reflexivity. Qed.

(** An undisturbed poll is a run. *)
Lemma steps_quiet w l w1 w2 : steps w l w1 -> step w1 [] w2 -> steps w l w2.
Proof. intros H Hs. exact (steps_cons _ _ _ [] _ H Hs). Qed.
Lemma decided_now i p o count w : w_phase w = Probed p o count ->
  (forall h, w_history w = Some h -> ActivationHistory.disagrees (bundle_of i) h = false) ->
  step w [] (in_phase (Decided p o count (decide_now i o count w)) w).
Proof.
  intros Hp Hd. unfold decide_now. destruct o as [sample|]; [|by apply step_no_decision].
  destruct (w_history w) as [h|] eqn:Eh; [|by apply step_no_decision].
  pose proof (step_decide p (Some sample) sample count h (ActivationHistory.epoch h) i) as Hs.
  unfold process_request, answered, reconciled, ActivationHistory.reconcile in *. rewrite Z.eqb_refl, (Hd h eq_refl) in *.
  assert (with_history h w = w) as Hw by (destruct w; unfold with_history; cbn in *; congruence).
  specialize (Hs _ h w Hp eq_refl Eh eq_refl). by rewrite Hw in Hs.
Qed.
Lemma poll_run i w l : steps (begin_world 5) l w -> w_phase w = Idle ->
  (forall h, w_history w = Some h -> ActivationHistory.disagrees (bundle_of i) h = false) ->
  steps (begin_world 5) l (poll i w).
Proof.
  intros H Hi Hd. unfold poll.
  assert (H2 : steps (begin_world 5) l (observed policy (source_observation w) (in_phase (Sampled policy (source_observation w)) w))).
  { eapply steps_quiet; [eapply steps_quiet; [exact H|by apply step_sample]|by apply step_observe]. }
  remember (observed policy _ _) as w2 eqn:E2.
  assert (Hh : w_history w2 = w_history w) by (subst w2; unfold observed; by repeat case_match).
  clear E2. destruct (w_phase w2) as [| | |p o count| | | | | | |] eqn:Ep; try done.
  assert (H3 : steps (begin_world 5) l (probed p o count true w2)) by (by eapply steps_quiet; [done|apply step_probe]).
  remember (probed p o count true w2) as w3 eqn:E3.
  assert (Hh3 : w_history w3 = w_history w2) by (subst w3; unfold probed; by case_match).
  clear E3. destruct (w_phase w3) as [| | | |p' o' count'| | | | | |] eqn:Ep3; try done.
  eapply steps_quiet; [|by apply step_check].
  eapply steps_quiet; [|by apply step_first_look].
  eapply steps_quiet; [|by apply step_acknowledge].
  eapply steps_quiet; [done|]. apply decided_now; [done|]. rewrite Hh3, Hh. done.
Qed.
Definition handed : Decision := match w_phase (second_poll "com.browser") with Reading _ d => d | _ => unavailable 0 None end.
Definition demo_log : list notice :=
  [LastLook; Activated (Some "com.browser"); Copied 6; Activated (Some "com.editor"); Installed 1].
Lemma demo_run : exists w, steps (begin_world 5) (Captured 6 policy (dc_coverage handed) :: demo_log) w.
Proof.
  assert (H1 : steps (begin_world 5) [Activated (Some "com.editor"); Installed 1] installed).
  { apply (steps_cons _ [Installed 1] (with_service (Some (ActivationHistory.new (service_of 1))) (next_service 1) (begin_world 5)) [_]);
      [|by apply step_activate].
    apply (steps_cons _ [] (begin_world 5) [_]); [constructor|]. by apply step_install. }
  apply (poll_run (Some editor)) in H1; [|done|intros h [= <-]; reflexivity]. fold first_poll in H1.
  assert (H2 : steps (begin_world 5) [Activated (Some "com.browser"); Copied 6; Activated (Some "com.editor"); Installed 1] (copied "com.browser")).
  { apply (steps_cons _ [Copied 6; Activated (Some "com.editor"); Installed 1] (with_count 6 first_poll) [_]); [|by apply step_activate].
    apply (steps_cons _ _ _ [_] _ H1). exact (step_copy first_poll). }
  apply (poll_run (Some (app "com.browser"))) in H2; [|done|intros h [= <-]; reflexivity]. fold (second_poll "com.browser") in H2.
  assert (Hp : w_phase (second_poll "com.browser") = Reading policy handed) by reflexivity.
  pose proof (steps_quiet _ _ _ _ H2 (step_read policy handed _ Hp)) as H3.
  pose proof (steps_cons _ _ _ _ _ H3 (step_last_look policy handed (in_phase (Materialized policy handed) (second_poll "com.browser")) eq_refl)) as H4.
  match type of H4 with steps _ _ ?w4 => pose proof (step_hand_on policy handed _ w4 eq_refl eq_refl) as H5 end.
  eexists. exact (steps_cons _ _ _ _ _ H4 H5).
Qed.
End CoverageDemo.
Lemma excluded_sources_are_not_captured_witness :
  coverage_allows (dc_coverage CoverageDemo.handed) (pl_excluded CoverageDemo.policy) = true /\
  exists l3 l2 l1 a, CoverageDemo.demo_log = l3 ++ LastLook :: l2 ++ Copied 6 :: l1 /\ (LastLook ∉ l3) /\
    (forall c, Copied c ∉ l3 ++ l2) /\ same_service l2 /\
    in_front l1 = Some a /\ (a ∉ pl_excluded CoverageDemo.policy) /\ clean (pl_excluded CoverageDemo.policy) l2.
Proof.
  destruct CoverageDemo.demo_run as [w H]. destruct (excluded_sources_are_not_captured _ _ _ _ _ _ H) as [Ha Hx].
  split; [exact Ha|]. apply (Hx (pl_excluded CoverageDemo.policy)); [done|exact Ha].
Defined.
