(* ===== verification/Offers.v ===== *)
(** Files by reference ([copypaste-core/src/file_reference.rs], [offer], [row_offer],
    [check_limit] and [offer_item] of [file_transfer.rs], and the references of
    [storage/file_operations.rs]): a file enters the history as an offer, a sealed
    description of it; its body stays where it is. *)

From S2P Require Import Prelude Float64 Bytes Text Wire Binary Payload Settings Table Items ItemSafety Retention Source Ingest.

Module FileTransferError.
Inductive t :=
| Remote (message : string) | Read | SourceMissing | SourceChanged | PermissionDenied | DestinationExists
| MissingDirectory | NoSpace | InvalidMetadata | NotFile | TooLarge (size limit : Z) | Unavailable
| SourceNotPaired | DownloadFirst | Integrity | Cancelled | Busy | Write | NotFound | Storage (e : StoreError).
End FileTransferError.

(** [serde_json::to_vec] of an offer. *)
Class OfferBytes := { serde_transfer_bytes : FileTransfer -> option bytes }.

(** ** The file system: what [std::fs::metadata] answers for a path *)

Inductive StatError := StatNotFound | StatDenied | StatFailed.
(** The time of the last change after the epoch, in seconds and nanoseconds, if there is one. *)
Record FileStat := { fs_is_file : bool; fs_len : Z; fs_modified : option (Z * Z) }.
Definition pad9 (n : Z) : string :=
  let s := show_nat (Z.to_nat n) in
  String.append (of_bytes (List.repeat (byte_of 48) (9 - String.length s))) s.
Definition modified (m : FileStat) : option string :=
  (fun t => String.append (show_nat (Z.to_nat t.1)) (String.append "." (pad9 t.2))) <$> fs_modified m.

(** ** References *)

Record FileReference := { fr_reference : string; fr_size : Z; fr_modified : option string }.
Definition stat_error (e : StatError) : FileTransferError.t :=
  match e with
  | StatNotFound => FileTransferError.SourceMissing
  | StatDenied => FileTransferError.PermissionDenied
  | StatFailed => FileTransferError.Read
  end.
Definition NO_SIZE : string := "The file provider did not report its size. Choose a local file.".
Definition prepare (stat : string -> result StatError FileStat) (reference : string) (limit : Z) (size_hint : option Z)
    : result FileTransferError.t FileReference :=
  '(size, stamp) ← (if str_starts_with "content://" reference
                    then size ← ok_or (FileTransferError.Remote NO_SIZE) size_hint; Ok (size, None)
                    else m ← map_err stat_error (stat reference);
                         _ ← refuse_if (negb (fs_is_file m)) FileTransferError.NotFile;
                         Ok (fs_len m, modified m));
  _ ← refuse_if (limit <? size) (FileTransferError.TooLarge size limit);
  Ok {| fr_reference := reference; fr_size := size; fr_modified := stamp |}.
Definition check_limit (offer : FileTransfer) (limit : Z) : result FileTransferError.t unit :=
  refuse_if (limit <? size_bytes offer) (FileTransferError.TooLarge (size_bytes offer) limit).

Definition set_reference (r : option string) (f : FileMetadata) : FileMetadata :=
  {| filename := filename f; mime_type := mime_type f; source_reference := r; transfer := transfer f |}.
Definition set_transfer (t : option FileTransfer) (f : FileMetadata) : FileMetadata :=
  {| filename := filename f; mime_type := mime_type f; source_reference := source_reference f; transfer := t |}.
Definition set_file (f : option FileMetadata) (m : PayloadMetadata) : PayloadMetadata :=
  {| credentials := credentials m; privacy := privacy m; secret_override := secret_override m;
     file := f; source_app_icon := source_app_icon m |}.

(** ** The history and its references

    [file_references] beside the other tables: the reference, the size and the stamp
    of each item's file. *)

Definition reference_row : Type := string * Z * option string.
Record Files := { fl_store : Store; fl_references : gmap string reference_row }.
(** [file_reference_release_update] and the cascade of its foreign key: a reference lasts as long
    as the content of its item. *)
Definition content_of (id : string) (s : Store) : option (option bytes) := r_ciphertext <$> items s !! id.
Definition release_references (old new : Store) (refs : gmap string reference_row) : gmap string reference_row :=
  filter (fun p => content_of p.1 old = content_of p.1 new) refs.
Definition write_store (new : Store) (f : Files) : Files :=
  {| fl_store := new; fl_references := release_references (fl_store f) new (fl_references f) |}.
Definition file_reference (id : string) (f : Files) : option reference_row := fl_references f !! id.
Definition same_file (reference : string) (size : Z) (stamp : option string) (f : Files) (r : Row) : bool :=
  bool_decide (fl_references f !! r_id r = Some (reference, size, stamp)) && is_live r.
Definition retains_file_reference (reference : string) (f : Files) : bool :=
  existsb (fun r => is_live r && match fl_references f !! r_id r with
                                 | Some (known, _, _) => String.eqb known reference
                                 | None => false end) (rows (fl_store f)).

Section Offers.
Context {PC : PayloadCodecs} {DG : Digest} {K : ItemKey} {OB : OfferBytes}.

Definition offer_item (stream_nonce : bytes) (import_id : string) (t : FileTransfer) (metadata : FileMetadata)
    (created_at : Z) (app_id app_name : option string) (context : option PayloadMetadata) (explicit : bool)
    : result FileTransferError.t (NewItem * bytes) :=
  let context := set_file (Some (set_transfer (Some t) metadata)) (default no_metadata context) in
  json ← ok_or FileTransferError.InvalidMetadata (to_json context FILE);
  descriptor ← ok_or FileTransferError.Integrity (serde_transfer_bytes t);
  let hash := content_hash (content_digest descriptor) in
  let id := if explicit then String.append "file-import-" import_id
            else String.append "file-offer-" (String.substring 0 32 hash) in
  ciphertext ← map_err (fun _ => FileTransferError.Integrity) (seal stream_nonce descriptor id);
  Ok ({| n_id := id; n_type := FILE; n_hash := hash; n_created_at := created_at; n_app_id := app_id;
         n_app_name := app_name; n_metadata := Some json |}, ciphertext).

(** What a recopy makes of the metadata: the offer that is known stays. *)
Definition recopied_metadata (next previous : option string) : option string :=
  match parsed_metadata next FILE, parsed_metadata previous FILE with
  | Some n, Some p =>
    let n := merge_privacy n p in
    let n := match file n, file p with
             | Some f, Some old => set_file (Some (set_transfer (transfer old) f)) n
             | _, _ => n
             end in
    to_json n FILE
  | _, _ => next
  end.
(** The [UPDATE]; a stamp stays below [i64::MAX], where SQLite would leave the integers. *)
Definition recopied (item : NewItem) (own : bytes) (r : Row) : Row :=
  let json := recopied_metadata (n_metadata item) (r_metadata r) in
  set_metadata json (len own + match json with Some j => str_len j | None => 0 end)
    (set_source (n_app_id item) (n_app_name item) (r_icon r)
       (set_stamp (Z.max (r_created_at r + 1) (n_created_at item)) r)).
(** The [INSERT]. *)
Definition offered_row (item : NewItem) (ciphertext : bytes) (s : Store) : Row :=
  {| r_id := n_id item; r_ciphertext := Some ciphertext; r_nonce := Some []; r_type := n_type item;
     r_hash := n_hash item; r_pinned := false; r_pin_order := None; r_pin_at := 0;
     r_created_at := n_created_at item; r_deleted := false; r_origin := ""; r_app_id := n_app_id item;
     r_app_name := n_app_name item; r_metadata := n_metadata item; r_fts := None; r_icon := None;
     r_bytes := len ciphertext + match n_metadata item with Some j => str_len j | None => 0 end;
     r_rowid := next_rowid s |}.
(** The transaction: which item it ends with, and whether that is new. *)
Definition put_reference (item : NewItem) (ciphertext : bytes) (reference : string) (size : Z) (stamp : option string)
    (deduplicate : bool) (f : Files) : result StoreError (string * bool * Files) :=
  match (if deduplicate then newest (List.filter (same_file reference size stamp f) (rows (fl_store f))) else None) with
  | Some r =>
    own ← ok_or (Sqlite ConstraintViolation) (r_ciphertext r);
    s ← ok_or (Sqlite ConstraintViolation) (upsert_row (recopied item own r) (fl_store f));
    Ok (r_id r, false, write_store s f)
  | None =>
    s ← ok_or (Sqlite ConstraintViolation) (insert_row (offered_row item ciphertext (fl_store f)) (fl_store f));
    match fl_references f !! n_id item with
    | Some _ => Err (Sqlite ConstraintViolation)
    | None => let f := write_store s f in
              Ok (n_id item, true,
                  {| fl_store := fl_store f; fl_references := <[n_id item := (reference, size, stamp)]> (fl_references f) |})
    end
  end.
(** [insert_file_reference]: a store that fails the transaction leaves nothing of it, one that
    fails the read after it leaves all of it. *)
Definition insert_file_reference (write_fault read_fault : option StoreError) (item : NewItem) (ciphertext : bytes)
    (reference : string) (size : Z) (stamp : option string) (deduplicate : bool) (f : Files)
    : result StoreError Ingested * Files :=
  match write_fault with
  | Some e => (Err e, f)
  | None =>
    match put_reference item ciphertext reference size stamp deduplicate f with
    | Err e => (Err e, f)
    | Ok (id, fresh, f) =>
      (match read_fault with
       | Some e => Err e
       | None => r ← ok_or NotFound (get id (fl_store f)); Ok (if fresh then Stored r else Duplicate r)
       end, f)
    end
  end.

(** [FileReference::publish]; the version is a random id, the wall clock the retention sweep's. *)
Definition publish_reference (write_fault read_fault : option StoreError) (version import_id : string)
    (stream_nonce : bytes) (wall : Z) (r : FileReference) (metadata : FileMetadata) (created_at : Z)
    (app_id app_name : option string) (context : option PayloadMetadata) (settings : ConfigData.t) (explicit : bool)
    (f : Files) : result FileTransferError.t Ingested * Files :=
  let metadata := set_reference (Some (fr_reference r)) metadata in
  let offer := {| size_bytes := fr_size r; ft_sha256 := ""; source_version := Some version |} in
  match (_ ← check_limit offer (capture_limit_bytes settings FILE);
         offer_item stream_nonce import_id offer metadata created_at app_id app_name context explicit) with
  | Err e => (Err e, f)
  | Ok (item, ciphertext) =>
    let '(result, f) := insert_file_reference write_fault read_fault item ciphertext (fr_reference r) (fr_size r)
                          (fr_modified r) (negb explicit) f in
    match result with
    | Err e => (Err (FileTransferError.Storage e), f)
    | Ok i => (Ok i, write_store (sweep settings wall (fl_store f)) f)
    end
  end.
End Offers.

(** ** A file is offered once *)

Section Once.
Context {PC : PayloadCodecs}.

Lemma same_file_spec reference size stamp f r :
  r ∈ List.filter (same_file reference size stamp f) (rows (fl_store f)) <->
  (exists k, items (fl_store f) !! k = Some r) /\ fl_references f !! r_id r = Some (reference, size, stamp) /\ r_deleted r = false.
Proof.
  rewrite list_elem_of_In, filter_In, <- list_elem_of_In, elem_of_rows. unfold same_file, is_live.
  rewrite andb_true_iff, bool_decide_eq_true, negb_true_iff. done.
Qed.
(** The row of a file stands before every other row of the same file. *)
Definition offered (reference : string) (size : Z) (stamp : option string) (id : string) (f : Files) : Prop :=
  exists r, items (fl_store f) !! id = Some r /\ r_id r = id /\ r_deleted r = false /\ is_Some (r_ciphertext r) /\
    fl_references f !! id = Some (reference, size, stamp) /\
    forall q, q ∈ List.filter (same_file reference size stamp f) (rows (fl_store f)) -> q = r \/ key_cmp (row_key q) (row_key r) = Lt.
Lemma later_key q r r' : older q r -> r_created_at r < r_created_at r' -> key_cmp (row_key q) (row_key r') = Lt.
Proof.
  unfold older, key_cmp, row_key, pair_cmp. cbn. intros Ho Hlt.
  destruct (Z.compare_spec (r_created_at q) (r_created_at r)), (Z.compare_spec (r_created_at q) (r_created_at r')); try done; lia.
Qed.
Lemma release_keeps old new refs id v : release_references old new refs !! id = Some v <->
  refs !! id = Some v /\ content_of id old = content_of id new.
Proof. unfold release_references. by rewrite map_lookup_filter_Some. Qed.
Lemma put_offered item ct reference size stamp f id b f' :
  keyed (items (fl_store f)) ->
  put_reference item ct reference size stamp true f = Ok (id, b, f') -> offered reference size stamp id f'.
Proof.
  intros Hk. unfold put_reference. destruct (newest _) as [r|] eqn:En.
  - intros (own & Hown%ok_or_ok & (s & [_ ->]%ok_or_ok%upsert_row_some & [= <- <- <-])%bind_ok)%bind_ok.
    pose proof (newest_in _ _ En) as ((k & Hr) & Href & Hlive)%same_file_spec. pose proof (Hk _ _ Hr) as <-.
    set (r1 := recopied item own r). assert (Hid : r_id r1 = r_id r) by done.
    exists r1. split; [|split; [|split; [|split; [|split]]]]; try done.
    + cbn. rewrite items_write_row. apply lookup_insert_eq.
    + cbn. apply release_keeps. split; [done|]. unfold content_of. rewrite items_write_row, Hid, lookup_insert_eq, Hr. done.
    + intros q ((k & Hq) & Hqr & Hql)%same_file_spec. cbn in Hq, Hqr. rewrite items_write_row, Hid in Hq.
      destruct (decide (k = r_id r)) as [->|Hne]; [left; rewrite lookup_insert_eq in Hq; by injection Hq as <-|right].
      rewrite lookup_insert_ne in Hq by done. apply release_keeps in Hqr as [Hqr _].
      apply (later_key q r).
      * apply (newest_is_newest _ _ En). apply same_file_spec. by split; [exists k|].
      * cbn. lia.
  - apply newest_none in En. intros (s & (Hfree & _ & ->)%ok_or_ok%insert_row_some & H)%bind_ok. revert H.
    cbn [offered_row r_id] in Hfree.
    destruct (fl_references f !! n_id item) eqn:Er; [done|]. intros [= <- <- <-].
    set (r := offered_row item ct (fl_store f)). exists r. split; [|split; [|split; [|split; [|split]]]]; try done.
    + cbn. rewrite items_write_row. apply lookup_insert_eq.
    + cbn. apply lookup_insert_eq.
    + intros q ((k & Hq) & Hqr & Hql)%same_file_spec. cbn in Hq, Hqr. rewrite items_write_row in Hq. cbn in Hq.
      destruct (decide (k = n_id item)) as [->|Hne]; [left; rewrite lookup_insert_eq in Hq; by injection Hq as <-|].
      rewrite lookup_insert_ne in Hq by done. exfalso. pose proof (Hk _ _ Hq) as <-.
      rewrite lookup_insert_ne in Hqr by done. apply release_keeps in Hqr as [Hqr _].
      assert (Hin : q ∈ List.filter (same_file reference size stamp f) (rows (fl_store f))) by (apply same_file_spec; by split; [exists (r_id q)|]).
      rewrite En in Hin. by apply elem_of_nil in Hin.
Qed.
Lemma put_keyed item ct reference size stamp f id b f' :
  keyed (items (fl_store f)) -> put_reference item ct reference size stamp true f = Ok (id, b, f') ->
  keyed (items (fl_store f')).
Proof.
  intros Hk. unfold put_reference. destruct (newest _) as [r|].
  - intros (own & _ & (s & [_ ->]%ok_or_ok%upsert_row_some & [= _ _ <-])%bind_ok)%bind_ok. cbn.
    rewrite items_write_row. by apply rows_keyed_insert.
  - intros (s & (_ & _ & ->)%ok_or_ok%insert_row_some & H)%bind_ok. revert H.
    destruct (fl_references f !! n_id item); [done|]. intros [= _ _ <-]. cbn. rewrite items_write_row.
    by apply rows_keyed_insert.
Qed.
(** Another live row stands where the row of [id] would go: the same hash, type and
    origin. *)
Definition taken_elsewhere (id : string) (s : Store) : Prop :=
  exists r k q, items s !! id = Some r /\ items s !! k = Some q /\ k <> id /\ r_deleted q = false /\
    r_hash q = r_hash r /\ r_type q = r_type r /\ r_origin q = r_origin r.
Lemma recopy_refused item own r s :
  keyed (items s) -> items s !! r_id r = Some r -> upsert_row (recopied item own r) s = None -> taken_elsewhere (r_id r) s.
Proof.
  intros Hk Hr. unfold upsert_row. destruct (dedup_clash _ s) eqn:Ec; [intros _|done].
  apply dedup_clash_true in Ec as (q & k & key & Hq & Hne & Hkr & Hkq). unfold dedup_key in Hkr, Hkq.
  destruct (negb (r_deleted (recopied item own r)) && _ && _); [injection Hkr as <-|done].
  destruct (r_deleted q) eqn:Ed; [done|]. destruct (negb (String.eqb _ "")); [|done].
  destruct (negb (like_import _)); [|done]. injection Hkq as E1 E2 _ E3.
  exists r, k, q. rewrite <- (Hk _ _ Hq). by split_and!; [|rewrite (Hk _ _ Hq)|..].
Qed.
Lemma put_again item ct reference size stamp id f : keyed (items (fl_store f)) -> offered reference size stamp id f ->
  match put_reference item ct reference size stamp true f with
  | Ok (id', b, f') => id' = id /\ b = false /\ dom (items (fl_store f')) = dom (items (fl_store f)) /\
      exists r, items (fl_store f') !! id = Some r /\ r_id r = id /\ r_deleted r = false
  | Err e => e = Sqlite ConstraintViolation /\ taken_elsewhere id (fl_store f)
  end.
Proof.
  intros Hk (r & Hr & Hid & Hl & [own Hown] & Href & Hmax). unfold put_reference.
  assert (Hin : r ∈ List.filter (same_file reference size stamp f) (rows (fl_store f)))
    by (apply same_file_spec; split; [by exists id|by rewrite Hid]).
  destruct (newest _) as [x|] eqn:En; [|apply newest_none in En; rewrite En in Hin; by apply elem_of_nil in Hin].
  assert (x = r) as ->.
  { destruct (Hmax x (newest_in _ _ En)) as [->|Hlt]; [done|]. exfalso.
    apply (newest_is_newest _ _ En r Hin). by apply (cmp_gt_lt key_cmp). }
  rewrite Hown. cbn [ok_or mbind result_bind].
  destruct (upsert_row (recopied item own r) (fl_store f)) as [s|] eqn:Eu; cbn.
  2: { split; [done|]. rewrite <- Hid in Hr |- *. by eapply recopy_refused. }
  apply upsert_row_some in Eu as [_ ->]. split; [done|]. split; [done|]. rewrite items_write_row. split.
  - rewrite dom_insert_L. cbn. apply subseteq_union_1_L, singleton_subseteq_l, elem_of_dom. rewrite Hid. by exists r.
  - exists (recopied item own r). split; [cbn; rewrite Hid; apply lookup_insert_eq|done].
Qed.

(** C26: a file copied again, or offered again because nobody knows whether the first attempt was
    kept - the transaction was, and the read after it failed - is one entry of the history: when a
    copy of a file was not refused, a second one of the same path, size and change stamp, whatever
    else it says, folds into the row of the first, and no row is added or deleted; unless another
    live row already has the hash, the type and the origin of that row, which may refuse the
    refreshed stamp: then the second offer reports it and changes nothing. The second attempt's own
    reads and writes work; files imported explicitly are not folded and not meant here. *)
Theorem a_file_is_offered_once item ct read_fault reference size stamp f first f1 :
  keyed (items (fl_store f)) -> read_fault <> Some (Sqlite ConstraintViolation) ->
  insert_file_reference None read_fault item ct reference size stamp true f = (first, f1) ->
  first <> Err (Sqlite ConstraintViolation) ->
  exists id, is_Some (items (fl_store f1) !! id) /\
    (forall r, first = Ok (Stored r) \/ first = Ok (Duplicate r) -> r_id r = id) /\
    forall item' ct', exists second f2,
      insert_file_reference None None item' ct' reference size stamp true f1 = (second, f2) /\
      dom (items (fl_store f2)) = dom (items (fl_store f1)) /\
      ((exists r, second = Ok (Duplicate r) /\ r_id r = id) \/
       second = Err (Sqlite ConstraintViolation) /\ f2 = f1 /\ taken_elsewhere id (fl_store f1)).
Proof.
  intros Hk Hrf. unfold insert_file_reference at 1.
  destruct (put_reference item ct reference size stamp true f) as [[[id b] f']|e] eqn:Ep.
  2:{ intros [= <- <-] Hne. exfalso. apply Hne. revert Ep. unfold put_reference. repeat case_match; cbn; try congruence;
      repeat match goal with |- context [ok_or _ ?o] => destruct o; cbn; try congruence end. }
  pose proof (put_keyed _ _ _ _ _ _ _ _ _ Hk Ep) as Hk1.
  pose proof (put_offered _ _ _ _ _ _ _ _ _ Hk Ep) as Ho. pose proof Ho as (r & Hr & Hid & Hl & _).
  intros Hf Hne. assert (f1 = f') as -> by congruence. exists id. split; [by exists r|]. split.
  - intros r' Hr'. revert Hf. unfold get. rewrite Hr. cbn. rewrite Hl. cbn.
    destruct read_fault; [intros [= <-]; by destruct Hr'|]. destruct b; intros [= <-]; destruct Hr' as [[=]|[=]]; congruence.
  - intros item' ct'. unfold insert_file_reference. pose proof (put_again item' ct' _ _ _ _ _ Hk1 Ho) as Ha.
    destruct (put_reference item' ct' reference size stamp true f') as [[[id' b'] f2]|e].
    + destruct Ha as (-> & -> & Hd & q & Hq & Hqi & Hql). eexists _, f2. split; [reflexivity|]. split; [done|left].
      unfold get. rewrite Hq. cbn. rewrite Hql. cbn. by exists q.
    + destruct Ha as [-> Ht]. eexists _, f'. split; [reflexivity|]. split; [done|by right].
Qed.
End Once.

(** ** Witnesses *)

Module OffersDemo.
Definition item (id hash : string) (at_ : Z) : NewItem :=
  {| n_id := id; n_type := FILE; n_hash := hash; n_created_at := at_; n_app_id := None; n_app_name := None;
     n_metadata := None |}.
Definition none : Files := {| fl_store := empty_store; fl_references := ∅ |}.
(** The first offer is kept, and cannot be read back. *)
Definition first :=
  insert_file_reference (PC := HistoryDemo.codecs) None (Some (Sqlite DatabaseBusy))
    (item "file-offer-1" "aa" 5000) [byte_of 1] "/tmp/report.pdf" 4096 None true none.
End OffersDemo.
Lemma a_file_is_offered_once_witness :
  OffersDemo.first.1 = Err (Sqlite DatabaseBusy) /\
  exists second f2,
    insert_file_reference (PC := HistoryDemo.codecs) None None
      (OffersDemo.item "file-offer-2" "bb" 6000) [byte_of 2] "/tmp/report.pdf" 4096 None true OffersDemo.first.2
    = (second, f2) /\ dom (items (fl_store f2)) = dom (items (fl_store OffersDemo.first.2)).
Proof.
  split; [vm_compute; reflexivity|].
  destruct (a_file_is_offered_once (PC := HistoryDemo.codecs) (OffersDemo.item "file-offer-1" "aa" 5000)
              [byte_of 1] (Some (Sqlite DatabaseBusy)) "/tmp/report.pdf" 4096 None OffersDemo.none
              OffersDemo.first.1 OffersDemo.first.2) as (id & _ & _ & H).
  - intros k r Hr. vm_compute in Hr. discriminate Hr.
  - discriminate.
  - apply surjective_pairing.
  - vm_compute. discriminate.
  - destruct (H (OffersDemo.item "file-offer-2" "bb" 6000) [byte_of 2]) as (second & f2 & H1 & H2 & _).
    exists second, f2. split; [exact H1|exact H2].
Defined.
