(* ===== verification/Capture.v ===== *)
(** The capture loop of the daemon ([copypaste-daemon/src/capture.rs]): from a
    changed clipboard to a row of the history, through failures of the storage,
    changes of the settings, panics and the shutdown.

    One attempt runs under the settings authority of [Authority.v]; what it was given
    there, and what the world answers it - the clipboard, the clock, the random
    values, the file system, a storage that fails - is an argument.  The loop is a
    transition system beside the moves of [Authority.v]: other captures and changes
    of settings, and other writers of the history, act between any two of its steps. *)

From S2P Require Import Prelude Float64 Bytes Text Wire Binary Payload Settings Credentials Table Items ItemSafety Retention Source Ingest Admission Authority Clipboard Offers.

(** ** Attempts *)

Module CaptureOutcome.
Inductive t := NoCapture | Retried | Stored | PolicyCancelled | InputRejected | Failed (e : IngestError) | AuthorityUnavailable.
End CaptureOutcome.
Record PendingCapture := {
  pd_reference : option FileReference; pd_capture : Capture; pd_created_at : Z; pd_epoch : Z;
}.
(** What an attempt is answered. *)
Record Env := {
  ev_poll : option Capture; ev_now : Z; ev_wall : Z; ev_draw : Draw; ev_version : string;
  ev_stat : string -> result StatError FileStat; ev_write_fault : option StoreError; ev_read_fault : option StoreError;
}.
(** [SourceAppIconCache::resolve_desktop]: the icon of an application, its PNG in base64. *)
Class SourceIcons := { resolve_desktop : string -> option (string * Z * Z) }.

Definition retryable_storage_error (e : IngestError) : bool :=
  match e with
  | Storage (Sqlite (DatabaseBusy | DatabaseLocked)) => true
  | Storage (FileFailed (IoInterrupted | IoWouldBlock | IoTimedOut)) => true
  | _ => false
  end.

Section Attempts.
Context {PC : PayloadCodecs} {MJ : MetadataJson} {FJ : FileJson} {CC : CredentialCodecs} {DG : Digest}
        {K : ItemKey} {UU : Uuids} {OB : OfferBytes} {SI : SourceIcons}.

Definition capture_metadata (c : Capture) : option PayloadMetadata :=
  let icon := app ← cp_app_id c; '(encoded, w, h) ← resolve_desktop app; png ← base64_decode encoded; icon_new png w h in
  let m := {| credentials := false; privacy := cp_privacy c; secret_override := None; file := cp_file c;
              source_app_icon := icon |} in
  if match file m with Some _ => true | None => false end
     || match source_app_icon m with Some _ => true | None => false end
     || negb (privacy_is_empty (privacy m)) then Some m else None.

(** How the errors of an offer come back. *)
Definition ingest_error (e : FileTransferError.t) : IngestError :=
  match e with
  | FileTransferError.Storage e => Storage e
  | FileTransferError.TooLarge _ _ => TooLarge
  | _ => InvalidMetadata
  end.
(** A storage that fails, fails what gets as far as the storage. *)
Definition through_storage {A} (early : IngestError -> bool) (fault : option StoreError) (r : result IngestError A)
    : result IngestError A :=
  match fault, r with
  | None, _ => r
  | Some e, Err x => if early x then Err x else Err (Storage e)
  | Some e, Ok _ => Err (Storage e)
  end.
Definition early_text (e : IngestError) : bool := match e with Empty | TooLarge | InvalidMetadata => true | _ => false end.
Definition early_binary (e : IngestError) : bool := match e with Storage _ => false | _ => true end.
Definition kept {A} (r : result IngestError (A * Store)) (f : Files) : result IngestError A * Files :=
  match r with Ok (a, s) => (Ok a, write_store s f) | Err e => (Err e, f) end.

Definition publish_pending (e : Env) (settings : ConfigData.t) (r : FileReference) (m : FileMetadata) (c : Capture)
    (created_at : Z) (f : Files) : result IngestError Ingested * Files :=
  let '(result, f) := publish_reference (ev_write_fault e) (ev_read_fault e) (ev_version e) "" (dr_stream_nonce (ev_draw e))
                        (ev_wall e) r m created_at (cp_app_id c) (cp_app_name c) (capture_metadata c) settings false f in
  (map_err ingest_error result, f).
Definition ingest_binary_capture (e : Env) (settings : ConfigData.t) (b : bytes) (content_type : string) (c : Capture)
    (created_at : Z) (f : Files) : result IngestError Ingested * Files :=
  kept (through_storage early_binary (ev_write_fault e)
          (ingest_binary_into_with_capture_source_metadata (ev_draw e) b content_type created_at (cp_app_id c) (cp_app_name c)
             (capture_metadata c) settings (ev_wall e) (fl_store f))) f.
Definition ingest_capture (e : Env) (settings : ConfigData.t) (c : Capture) (created_at : Z) (f : Files)
    : result IngestError Ingested * Files :=
  match cp_binary c, cp_path c, cp_file c with
  | None, Some path, Some m =>
    if String.eqb (cp_type c) FILE && file_is_valid m
    then match (spelled ← ok_or InvalidMetadata path;
                map_err ingest_error (prepare (ev_stat e) spelled (capture_limit_bytes settings FILE) None)) with
         | Ok r => publish_pending e settings r m c created_at f
         | Err x => (Err x, f)
         end
    else (Err Empty, f)
  | None, None, None =>
    if supports (cp_type c) && is_text (cp_type c)
    then kept (through_storage early_text (ev_write_fault e)
                 (ingest_into_with_capture_source_metadata_with_current_retention (ev_draw e) (cp_content c) (cp_type c)
                    created_at (cp_app_id c) (cp_app_name c) (capture_metadata c) settings settings (ev_wall e)
                    (fl_store f))) f
    else (Err Empty, f)
  | Some b, None, None =>
    if no_content c && supports (cp_type c) && is_image (cp_type c)
    then ingest_binary_capture e settings b (cp_type c) c created_at f else (Err Empty, f)
  | Some b, None, Some m =>
    if String.eqb (cp_type c) FILE && no_content c && negb (len b =? 0) && file_is_valid m
    then ingest_binary_capture e settings b FILE c created_at f else (Err Empty, f)
  | _, _, _ => (Err Empty, f)
  end.

(** The settings [ingest_capture] reads again are the ones it was given: none can be installed
    while the authority is held ([settings_have_one_value]). *)

(** What becomes of an accepted capture, and what is announced of it. *)
Inductive Fate := Kept (r : Row) | Cancelled | Failure (e : IngestError).
Definition announce_capture (f : Fate) : option (Z * string) :=
  match f with Kept r => Some (r_created_at r, r_id r) | _ => None end.
Definition outcome_of (f : Fate) : CaptureOutcome.t :=
  match f with
  | Kept _ => CaptureOutcome.Stored
  | Cancelled => CaptureOutcome.PolicyCancelled
  | Failure e => CaptureOutcome.Failed e
  end.
(** [persist_pending]; nothing becomes of a capture that is to be tried again.  Validated file
    metadata is there whenever a reference is. *)
Definition persist_pending (e : Env) (settings : ConfigData.t) (epoch : Z) (p : PendingCapture) (f : Files)
    : option Fate * Files :=
  if negb (pd_epoch p =? epoch) || negb (allows_materialized settings (pd_capture p)) then (Some Cancelled, f)
  else
    let '(ingested, f) :=
      match pd_reference p, cp_file (pd_capture p) with
      | Some r, Some m => publish_pending e settings r m (pd_capture p) (pd_created_at p) f
      | _, _ => ingest_capture e settings (pd_capture p) (pd_created_at p) f
      end in
    (match ingested with
     | Ok i => Some (Kept (into_item i))
     | Err Empty | Err TooLarge => Some Cancelled
     | Err x => if retryable_storage_error x then None else Some (Failure x)
     end, f).

(** The first half of [tick]: an empty slot takes what the clipboard holds. *)
Definition accept (e : Env) (settings : ConfigData.t) (epoch : Z) : CaptureOutcome.t + PendingCapture :=
  match ev_poll e with
  | None => inl CaptureOutcome.NoCapture
  | Some c =>
    if negb (allows_materialized settings c) then inl CaptureOutcome.PolicyCancelled
    else match cp_path c with
         | None => inr {| pd_reference := None; pd_capture := c; pd_created_at := ev_now e; pd_epoch := epoch |}
         | Some path =>
           match (spelled ← ok_or FileTransferError.Read path;
                  prepare (ev_stat e) spelled (capture_limit_bytes settings FILE) None) with
           | Ok r => inr {| pd_reference := Some r; pd_capture := c; pd_created_at := ev_now e; pd_epoch := epoch |}
           | Err _ => inl CaptureOutcome.InputRejected
           end
         end
  end.
Record Tick := {
  tk_outcome : CaptureOutcome.t; tk_slot : option PendingCapture; tk_files : Files;
  tk_accepted : option PendingCapture; tk_fate : option (PendingCapture * Fate);
}.
Definition settle (e : Env) (settings : ConfigData.t) (epoch : Z) (accepted : option PendingCapture) (p : PendingCapture)
    (f : Files) : Tick :=
  let '(fate, f) := persist_pending e settings epoch p f in
  {| tk_outcome := match fate with Some fate => outcome_of fate | None => CaptureOutcome.Retried end;
     tk_slot := match fate with Some _ => None | None => Some p end;
     tk_files := f; tk_accepted := accepted; tk_fate := (fun fate => (p, fate)) <$> fate |}.
(** [tick] with the authority. *)
Definition tick (e : Env) (settings : ConfigData.t) (epoch : Z) (slot : option PendingCapture) (f : Files) : Tick :=
  match slot with
  | Some p => settle e settings epoch None p f
  | None =>
    match accept e settings epoch with
    | inl o => {| tk_outcome := o; tk_slot := None; tk_files := f; tk_accepted := None; tk_fate := None |}
    | inr p => settle e settings epoch (Some p) p f
    end
  end.
(** [tick] without it. *)
Definition tick_refused (slot : option PendingCapture) : CaptureOutcome.t :=
  match slot with Some _ => CaptureOutcome.AuthorityUnavailable | None => CaptureOutcome.NoCapture end.
(** Where a panic can leave an attempt: what is in the slot, and whether it was just accepted. *)
Inductive panicked (e : Env) (settings : ConfigData.t) (epoch : Z) (slot : option PendingCapture) (f : Files)
    : option PendingCapture -> option PendingCapture -> Files -> Prop :=
| panicked_early : panicked e settings epoch slot f slot None f
| panicked_accepted p : slot = None -> accept e settings epoch = inr p -> panicked e settings epoch slot f (Some p) (Some p) f
| panicked_stored p : slot = None -> accept e settings epoch = inr p ->
    panicked e settings epoch slot f (Some p) (Some p) (persist_pending e settings epoch p f).2
| panicked_again p : slot = Some p ->
    panicked e settings epoch slot f (Some p) None (persist_pending e settings epoch p f).2.
End Attempts.

(** ** The loop *)

(** [wait_for_clipboard]: a timer, an event of the clipboard, or either. *)
Definition wakes_on_timer (available retry : bool) : bool := negb available || retry.
Definition wakes_on_event (available : bool) : bool := available.

(** [StorageRetryLog::observe]: the flag, and whether a recovery is reported. *)
Definition observe_retry (o : CaptureOutcome.t) (active : bool) : bool * bool :=
  match o with
  | CaptureOutcome.Retried => (true, false)
  | _ => (false, active && match o with CaptureOutcome.Stored => true | _ => false end)
  end.

Inductive LoopError :=
| PanickedBefore | AuthorityLostBefore
| NotPersisted (e : IngestError) | AuthorityLostDuring | PanickedDuring.
Inductive Phase := Idle | Spawned (draining : bool) | Running (draining : bool) (c : ConfigData.t) (epoch : Z)
| Draining | Stopped (r : result LoopError unit).
Record Daemon := {
  dm_slot : option PendingCapture; dm_retry : bool; dm_failure : option LoopError; dm_warned : bool;
  dm_phase : Phase; dm_world : World; dm_files : Files;
}.
(** The log of a run, the latest entry first. *)
Inductive entry :=
| Noted (n : notice)
| Accepted (p : PendingCapture) (c : ConfigData.t)
| Settled (p : PendingCapture) (f : Fate) (c : ConfigData.t)
| Lost (p : PendingCapture).

Definition is_some {A} (o : option A) : bool := match o with Some _ => true | None => false end.
Definition get_or_insert (o : option LoopError) (e : LoopError) : option LoopError := Some (default e o).
(** After an attempt while running: what is left in the slot, and the failure to report at the
    end.  No outcome is a worker that panicked. *)
Definition after_running (o : option CaptureOutcome.t) (slot : option PendingCapture) (failure : option LoopError)
    : option PendingCapture * option LoopError :=
  match o with
  | None => (None, match slot with Some _ => get_or_insert failure PanickedBefore | None => failure end)
  | Some CaptureOutcome.AuthorityUnavailable => (slot, get_or_insert failure AuthorityLostBefore)
  | Some _ => (slot, failure)
  end.
(** After an attempt while draining: the error that ends the loop, if any. *)
Definition after_draining (o : option CaptureOutcome.t) (failure : option LoopError) : option LoopError :=
  match o with
  | None => Some (default PanickedDuring failure)
  | Some (CaptureOutcome.Failed e) => Some (default (NotPersisted e) failure)
  | Some CaptureOutcome.AuthorityUnavailable => Some (default AuthorityLostDuring failure)
  | Some _ => None
  end.
Definition warned (o : option CaptureOutcome.t) (active : bool) : bool :=
  match o with Some o => (observe_retry o active).1 | None => active end.
(** [retry_required] is the backend's answer. *)
Definition joined (draining : bool) (signal retry_required : bool) (o : option CaptureOutcome.t)
    (slot : option PendingCapture) (w : World) (f : Files) (d : Daemon) : Daemon :=
  if draining
  then {| dm_slot := slot; dm_retry := dm_retry d; dm_failure := dm_failure d; dm_warned := warned o (dm_warned d);
          dm_phase := match after_draining o (dm_failure d) with Some e => Stopped (Err e) | None => Draining end;
          dm_world := w; dm_files := f |}
  else let '(slot, failure) := after_running o slot (dm_failure d) in
       {| dm_slot := slot; dm_retry := is_some slot || (signal && retry_required); dm_failure := failure;
          dm_warned := warned o (dm_warned d); dm_phase := Idle; dm_world := w; dm_files := f |}.
Definition in_phase (p : Phase) (d : Daemon) : Daemon :=
  {| dm_slot := dm_slot d; dm_retry := dm_retry d; dm_failure := dm_failure d; dm_warned := dm_warned d; dm_phase := p;
     dm_world := dm_world d; dm_files := dm_files d |}.
Definition in_world (w : World) (d : Daemon) : Daemon :=
  {| dm_slot := dm_slot d; dm_retry := dm_retry d; dm_failure := dm_failure d; dm_warned := dm_warned d;
     dm_phase := dm_phase d; dm_world := w; dm_files := dm_files d |}.
Definition with_retry (b : bool) (d : Daemon) : Daemon :=
  {| dm_slot := dm_slot d; dm_retry := b; dm_failure := dm_failure d; dm_warned := dm_warned d;
     dm_phase := dm_phase d; dm_world := dm_world d; dm_files := dm_files d |}.
Definition with_files (f : Files) (d : Daemon) : Daemon :=
  {| dm_slot := dm_slot d; dm_retry := dm_retry d; dm_failure := dm_failure d; dm_warned := dm_warned d;
     dm_phase := dm_phase d; dm_world := dm_world d; dm_files := f |}.

(** The daemon's own thread among the holders of the authority. *)
Definition ME : Z := 0.
Section Loop.
Context {PC : PayloadCodecs} {MJ : MetadataJson} {FJ : FileJson} {CC : CredentialCodecs} {DG : Digest}
        {K : ItemKey} {UU : Uuids} {OB : OfferBytes} {SI : SourceIcons} {SJ : SettingsJson} (signal : bool).

Definition tick_entries (c : ConfigData.t) (t : Tick) : list entry :=
  match tk_fate t with Some (p, f) => [Settled p f c] | None => [] end
  ++ match tk_accepted t with Some p => [Accepted p c] | None => [] end.
Inductive turn : Daemon -> list entry -> Daemon -> Prop :=
(* The loop waits, wakes, looks at the clipboard; or is told to stop. *)
| turn_wake available timer changed d : dm_phase d = Idle -> (available = true -> signal = true) ->
    (if timer : bool then wakes_on_timer available (dm_retry d) else wakes_on_event available) = true ->
    is_some (dm_slot d) || changed = true ->
    turn d [] (in_phase (Spawned false) d)
| turn_unchanged retry_required d : dm_phase d = Idle -> dm_slot d = None ->
    turn d [] (with_retry (signal && retry_required) d)
| turn_shutdown d : dm_phase d = Idle -> turn d [] (in_phase Draining d)
| turn_drain p d : dm_phase d = Draining -> dm_slot d = Some p -> turn d [] (in_phase (Spawned true) d)
| turn_stop d : dm_phase d = Draining -> dm_slot d = None ->
    turn d [] (in_phase (Stopped match dm_failure d with Some e => Err e | None => Ok tt end) d)
(* An attempt is given the authority, or refused it. *)
| turn_begin draining c epoch w d : dm_phase d = Spawned draining -> move (dm_world d) (Attempting ME c epoch) w ->
    turn d [Noted (Attempting ME c epoch)] (in_phase (Running draining c epoch) (in_world w d))
| turn_refused draining retry_required w d : dm_phase d = Spawned draining -> move (dm_world d) (Refused ME) w ->
    turn d (match dm_slot d with Some p => [Lost p] | None => [] end ++ [Noted (Refused ME)])
      (joined draining signal retry_required (Some (tick_refused (dm_slot d))) None w (dm_files d) d)
(* It ends, or panics. *)
| turn_done draining c epoch retry_required w e d : dm_phase d = Running draining c epoch ->
    move (dm_world d) (Ended ME false) w ->
    let t := tick e c epoch (dm_slot d) (dm_files d) in
    turn d (Noted (Ended ME false) :: tick_entries c t)
      (joined draining signal retry_required (Some (tk_outcome t)) (tk_slot t) w (tk_files t) d)
| turn_panic draining c epoch retry_required w e slot accepted f d : dm_phase d = Running draining c epoch ->
    move (dm_world d) (Ended ME true) w ->
    panicked e c epoch (dm_slot d) (dm_files d) slot accepted f ->
    turn d (match slot with Some p => if draining then [] else [Lost p] | None => [] end
            ++ Noted (Ended ME true) :: match accepted with Some p => [Accepted p c] | None => [] end)
      (joined draining signal retry_required None slot w f d)
(* Everybody else. *)
| turn_world n w d : move (dm_world d) n w -> w_holders w !! ME = w_holders (dm_world d) !! ME ->
    turn d [Noted n] (in_world w d)
| turn_files f d : turn d [] (with_files f d).

Definition begin_daemon (stored : result StoreError (option string)) (f : Files) : Daemon :=
  {| dm_slot := None; dm_retry := true; dm_failure := None; dm_warned := false; dm_phase := Idle;
     dm_world := begin_world stored; dm_files := f |}.
Inductive turns (d : Daemon) : list entry -> Daemon -> Prop :=
| turns_nil : turns d [] d
| turns_cons l d1 n d2 : turns d l d1 -> turn d1 n d2 -> turns d (n ++ l) d2.
End Loop.

(** ** Accounts *)

Definition accepted_in (l : list entry) : list PendingCapture := omap (fun x => match x with Accepted p _ => Some p | _ => None end) l.
Definition settled_in (l : list entry) : list PendingCapture :=
  omap (fun x => match x with Settled p _ _ | Lost p => Some p | _ => None end) l.
Definition notices_in (l : list entry) : list notice := omap (fun x => match x with Noted n => Some n | _ => None end) l.
Definition lost (l : list entry) : Prop := exists p, Lost p ∈ l.
Definition failed (l : list entry) : Prop := exists p e c, Settled p (Failure e) c ∈ l.
#[global] Arguments accepted_in : simpl never.
#[global] Arguments settled_in : simpl never.
#[global] Arguments notices_in : simpl never.

Lemma accepted_app l k : accepted_in (l ++ k) = accepted_in l ++ accepted_in k.
Proof. apply omap_app. Qed.
Lemma settled_app l k : settled_in (l ++ k) = settled_in l ++ settled_in k.
Proof. apply omap_app. Qed.
Lemma notices_app l k : notices_in (l ++ k) = notices_in l ++ notices_in k.
Proof. apply omap_app. Qed.
Lemma lost_app l k : lost (l ++ k) <-> lost l \/ lost k.
Proof. unfold lost. setoid_rewrite elem_of_app. naive_solver. Qed.
Lemma failed_app l k : failed (l ++ k) <-> failed l \/ failed k.
Proof. unfold failed. setoid_rewrite elem_of_app. naive_solver. Qed.

Section Accounts.
Context {PC : PayloadCodecs} {MJ : MetadataJson} {FJ : FileJson} {CC : CredentialCodecs} {DG : Digest}
        {K : ItemKey} {UU : Uuids} {OB : OfferBytes} {SI : SourceIcons} {SJ : SettingsJson} (signal : bool).
Notation turn := (turn signal).
Notation turns := (turns signal).

(** The ends of an attempt: nothing accepted and nothing settled; a capture settled or still
    pending, which was pending or has just been accepted. *)
Lemma tick_cases e c ep slot f : let t := tick e c ep slot f in
  (slot = None /\ tk_slot t = None /\ tk_accepted t = None /\ tk_fate t = None /\ tk_files t = f /\
   accept e c ep = inl (tk_outcome t)) \/
  exists p, (slot = Some p /\ tk_accepted t = None \/ slot = None /\ tk_accepted t = Some p /\ accept e c ep = inr p) /\
    match (persist_pending e c ep p f).1 with
    | Some fate => tk_slot t = None /\ tk_fate t = Some (p, fate) /\ tk_outcome t = outcome_of fate
    | None => tk_slot t = Some p /\ tk_fate t = None /\ tk_outcome t = CaptureOutcome.Retried
    end.
Proof.
  cbn zeta. unfold tick. destruct slot as [p|].
  - right. exists p. unfold settle. destruct (persist_pending e c ep p f) as [[fate|] f']; cbn; naive_solver.
  - destruct (accept e c ep) as [o|p] eqn:Ea; [left; by split_and!|right]. exists p. unfold settle.
    destruct (persist_pending e c ep p f) as [[fate|] f']; cbn; naive_solver.
Qed.
Lemma persist_kept e c ep p f r : (persist_pending e c ep p f).1 = Some (Kept r) ->
  pd_epoch p = ep /\ allows_materialized c (pd_capture p) = true.
Proof.
  unfold persist_pending. destruct (Z.eqb_spec (pd_epoch p) ep); [|done].
  destruct (allows_materialized c (pd_capture p)); [by split|done].
Qed.
Lemma accept_allowed e c ep p : accept e c ep = inr p -> pd_epoch p = ep /\ allows_materialized c (pd_capture p) = true.
Proof.
  unfold accept. destruct (ev_poll e) as [cp|]; [|done]. destruct (allows_materialized c cp) eqn:Ea; [|done]. cbn [negb].
  destruct (cp_path cp); [|by intros [= <-]]. case_match; intros [= <-]; by split.
Qed.

(** ** The accounts balance *)

Record balanced (l : list entry) (d : Daemon) : Prop := {
  bl_moves : exists stored, moves (begin_world stored) (notices_in l) (dm_world d);
  bl_slot : accepted_in l = option_list (dm_slot d) ++ settled_in l;
  bl_failure : (forall e, dm_phase d <> Stopped (Err e)) -> match dm_failure d with None => ~ lost l | Some _ => lost l end;
  bl_ok : dm_phase d = Stopped (Ok tt) -> dm_slot d = None /\ dm_failure d = None;
  bl_err e : dm_phase d = Stopped (Err e) -> lost l \/ failed l \/ dm_slot d <> None;
  bl_retry : dm_phase d = Idle -> dm_slot d <> None -> dm_retry d = true;
  bl_running g c ep : dm_phase d = Running g c ep -> w_holders (dm_world d) !! ME = Some (Attempt c ep);
  bl_draining : dm_phase d = Spawned true \/ (exists c ep, dm_phase d = Running true c ep) -> dm_slot d <> None;
}.
Lemma begin_balanced stored f : balanced [] (begin_daemon stored f).
Proof.
  split; try done.
  - exists stored. constructor.
  - intros _ [p Hp]. by apply elem_of_nil in Hp.
  - by intros [?|(? & ? & ?)].
Qed.
Lemma not_lost_nil (l : list entry) : (forall x p, x ∈ l -> x <> Lost p) -> ~ lost l.
Proof. intros H [p Hp]. by apply (H _ p Hp). Qed.
Lemma tick_not_lost c t : ~ lost (tick_entries c t).
Proof.
  unfold tick_entries, lost. intros [p Hp]. apply elem_of_app in Hp as [Hp|Hp].
  - destruct (tk_fate t) as [[q fate]|]; [|by apply elem_of_nil in Hp]. by apply list_elem_of_singleton in Hp.
  - destruct (tk_accepted t); [|by apply elem_of_nil in Hp]. by apply list_elem_of_singleton in Hp.
Qed.
Lemma tick_no_notice c t : notices_in (tick_entries c t) = [].
Proof. unfold tick_entries. rewrite notices_app. destruct (tk_fate t) as [[q fate]|], (tk_accepted t); done. Qed.
(** What an attempt accepts, it settles or leaves pending. *)
Lemma tick_account e c ep slot f l : let t := tick e c ep slot f in
  accepted_in l = option_list slot ++ settled_in l ->
  accepted_in (tick_entries c t ++ l) = option_list (tk_slot t) ++ settled_in (tick_entries c t ++ l).
Proof.
  cbn zeta. intros Hl. rewrite accepted_app, settled_app, Hl.
  destruct (tick_cases e c ep slot f) as [(-> & H1 & H2 & H3 & _)|(p & Hs & Hf)].
  - unfold tick_entries. by rewrite H1, H2, H3.
  - unfold tick_entries. destruct (persist_pending e c ep p f).1 as [fate|]; destruct Hf as (H1 & H2 & _);
      rewrite H1, H2; destruct Hs as [[-> ->]|(-> & -> & _)]; done.
Qed.
Lemma tick_failed e c ep slot f x : tk_outcome (tick e c ep slot f) = CaptureOutcome.Failed x -> failed (tick_entries c (tick e c ep slot f)).
Proof.
  destruct (tick_cases e c ep slot f) as [(_ & _ & _ & _ & _ & Ha)|(p & _ & Hf)].
  - intros Ho. rewrite Ho in Ha. unfold accept in Ha. by repeat case_match.
  - destruct (persist_pending e c ep p f).1 as [fate|]; destruct Hf as (_ & Hf & Ho); rewrite Ho; [|done].
    destruct fate; try done. intros _. exists p, e0, c. unfold tick_entries. rewrite Hf. apply elem_of_app. left. by left.
Qed.
Lemma tick_authority e c ep slot f : tk_outcome (tick e c ep slot f) <> CaptureOutcome.AuthorityUnavailable.
Proof.
  destruct (tick_cases e c ep slot f) as [(_ & _ & _ & _ & _ & Ha)|(p & _ & Hf)].
  - intros Ho. rewrite Ho in Ha. unfold accept in Ha. by repeat case_match.
  - destruct (persist_pending e c ep p f).1 as [fate|]; destruct Hf as (_ & Hf & Ho); rewrite Ho; [|done]. by destruct fate.
Qed.
Lemma panicked_account e c ep slot f slot' a f' : panicked e c ep slot f slot' a f' ->
  option_list slot' = option_list a ++ option_list slot /\ (a = None \/ slot = None).
Proof. destruct 1; subst; cbn; by auto. Qed.
Lemma joined_balanced g rr o slot w f n l d :
  balanced l d -> (forall r, dm_phase d <> Stopped r) ->
  (exists stored, moves (begin_world stored) (notices_in (n ++ l)) w) ->
  (if g : bool
   then accepted_in (n ++ l) = option_list slot ++ settled_in (n ++ l) /\
        match after_draining o (dm_failure d) with
        | Some _ => lost n \/ failed n \/ slot <> None
        | None => ~ lost n
        end
   else accepted_in (n ++ l) = option_list (after_running o slot (dm_failure d)).1 ++ settled_in (n ++ l) /\
        (lost n /\ (exists e, (after_running o slot (dm_failure d)).2 = get_or_insert (dm_failure d) e) \/
         ~ lost n /\ (after_running o slot (dm_failure d)).2 = dm_failure d)) ->
  balanced (n ++ l) (joined g signal rr o slot w f d).
Proof.
  intros [Hm Hs Hf Hok Herr Hr Hrun Hdr] Hp Hw. specialize (Hf (fun e => Hp (Err e))). unfold joined. destruct g.
  - intros [Ha Hd]. destruct (after_draining o (dm_failure d)) as [e|] eqn:Ed; split; cbn; try done; try (by intros [?|(? & ? & ?)]).
    + intros Hc. by destruct (Hc e).
    + intros e' _. rewrite lost_app, failed_app. tauto.
    + intros _. destruct (dm_failure d); rewrite lost_app; tauto.
  - intros [Ha Hd]. destruct (after_running o slot (dm_failure d)) as [slot' failure'] eqn:Ed. cbn in Ha, Hd. split; cbn; try done; try (by intros [?|(? & ? & ?)]).
    + intros _. destruct Hd as [[Hl [e ->]]|[Hl ->]]; cbn; [apply lost_app; by left|]. destruct (dm_failure d); rewrite lost_app; tauto.
    + intros _ Hn. by destruct slot'.
Qed.
Lemma same_balanced l d d' :
  balanced l d -> dm_slot d' = dm_slot d -> dm_failure d' = dm_failure d -> dm_world d' = dm_world d ->
  (forall e, dm_phase d <> Stopped (Err e)) ->
  (dm_phase d' = Stopped (Ok tt) -> dm_slot d = None /\ dm_failure d = None) ->
  (forall e, dm_phase d' = Stopped (Err e) -> exists x, dm_failure d = Some x) ->
  (dm_phase d' = Idle -> dm_slot d <> None -> dm_retry d' = true) ->
  (forall g c ep, dm_phase d' <> Running g c ep) -> (dm_phase d' = Spawned true -> dm_slot d <> None) -> balanced l d'.
Proof.
  intros [Hm Hs Hf Hok Herr Hr Hrun Hdr] E1 E2 E3 Hp H1 H2 H3 H4 H5. specialize (Hf Hp).
  split; rewrite ?E1, ?E2, ?E3; try done.
  - intros e He. left. destruct (H2 e He) as [x Hx]. by rewrite Hx in Hf.
  - intros g c ep He. by destruct (H4 g c ep).
  - intros [He|(c & ep & He)]; [by apply H5|by destruct (H4 true c ep)].
Qed.
Lemma moves_notice l w n w' : (exists stored, moves (begin_world stored) l w) -> move w n w' ->
  exists stored, moves (begin_world stored) (n :: l) w'.
Proof. intros [st H] Hm. exists st. by econstructor. Qed.
Lemma turn_balanced l d n d' : balanced l d -> turn d n d' -> balanced (n ++ l) d'.
Proof.
  intros Hb Ht. pose proof Hb as [Hm Hs Hf Hok Herr Hr Hrun Hdr].
  inversion Ht as [av tm ch d0 Hp Hav Hw Hc|rr d0 Hp Hsl|d0 Hp|p d0 Hp Hsl|d0 Hp Hsl|g c ep w d0 Hp Hmv|g rr w d0 Hp Hmv
    |g c ep rr w e d0 Hp Hmv|g c ep rr w e sl ac f d0 Hp Hmv Hpan|x w d0 Hmv Hh|f d0]; subst.
  - apply (same_balanced _ d); cbn; try done; try congruence.
  - apply (same_balanced _ d); cbn; try done; try congruence.
  - apply (same_balanced _ d); cbn; try done; try congruence.
  - apply (same_balanced _ d); cbn; try done; try congruence.
  - apply (same_balanced _ d); cbn; try done; try congruence.
    + destruct (dm_failure d); [done|]. by intros _.
    + destruct (dm_failure d) as [x|]; [|done]. intros e _. by exists x.
  - pose proof (attempt_snapshot _ _ _ _ _ Hmv) as (_ & _ & _ & Hh).
    split; cbn; try done.
    + by eapply moves_notice.
    + intros _. specialize (Hf ltac:(by rewrite Hp)). destruct (dm_failure d); [by destruct Hf as [q Hq]; exists q; right|].
      intros [q [Hq|Hq]%elem_of_cons]; [done|]. apply Hf. by exists q.
    + by intros ? ? ? [= <- <- <-].
    + intros [?|(? & ? & [= -> _ _])]; [done|]. apply Hdr. by left.
  - apply joined_balanced; [done|by rewrite Hp| |].
    + rewrite notices_app. destruct (dm_slot d); by eapply moves_notice.
    + assert (Hl : match dm_slot d with Some p => lost ([Lost p] ++ [Noted (Refused ME)])
                   | None => ~ lost ([] ++ [Noted (Refused ME)]) end).
      { destruct (dm_slot d) as [p|]; [exists p; left|]. by intros [q Hq%list_elem_of_singleton]. }
      rewrite accepted_app, settled_app, Hs. destruct (dm_slot d) as [p|]; cbn [tick_refused].
      * destruct g; cbn; (split; [done|]); [by left|left]. split; [done|]. by eexists.
      * destruct g; cbn; (split; [done|]); [done|by right].
  - apply joined_balanced; [done|by rewrite Hp| |].
    + cbn [app]. change (Noted ?a :: ?b) with ([Noted a] ++ b). rewrite !notices_app, tick_no_notice. by eapply moves_notice.
    + pose proof (tick_account e c ep (dm_slot d) (dm_files d) l Hs) as Ha. cbn zeta in Ha.
      pose proof (tick_not_lost c (tick e c ep (dm_slot d) (dm_files d))) as Hnl.
      pose proof (tick_authority e c ep (dm_slot d) (dm_files d)) as Hau.
      pose proof (tick_failed e c ep (dm_slot d) (dm_files d)) as Hfl.
      fold t in Ha, Hnl, Hau, Hfl.
      assert (Hn : ~ lost (Noted (Ended ME false) :: tick_entries c t)).
      { intros [q [Hq|Hq]%elem_of_cons]; [done|]. apply Hnl. by exists q. }
      destruct g.
      * split; [exact Ha|]. destruct (tk_outcome t) eqn:Eo; cbn; try done. right. left.
        destruct (Hfl e0 eq_refl) as (q & x & k & Hq). exists q, x, k. by right.
      * split; [|right]; destruct (tk_outcome t) eqn:Eo; cbn; try done.
  - apply joined_balanced; [done|by rewrite Hp| |].
    + rewrite !notices_app. assert (E : notices_in (Noted (Ended ME true) :: match ac with Some p => [Accepted p c] | None => [] end) = [Ended ME true]) by by destruct ac.
      rewrite E. destruct sl, g; by eapply moves_notice.
    + pose proof (panicked_account _ _ _ _ _ _ _ _ Hpan) as [Hac Hno].
      assert (Ha : accepted_in (match sl with Some p => if g then [] else [Lost p] | None => [] end
        ++ Noted (Ended ME true) :: match ac with Some p => [Accepted p c] | None => [] end) = option_list ac).
      { rewrite accepted_app. by destruct sl, g, ac. }
      assert (Hb1 : forall k, settled_in (k ++ Noted (Ended ME true) :: match ac with Some p => [Accepted p c] | None => [] end) = settled_in k).
      { intros k. rewrite settled_app. destruct ac; apply app_nil_r. }
      rewrite (accepted_app (_ ++ _)), (settled_app (_ ++ _)), Hb1, Ha, Hs, app_assoc, <- Hac. destruct g.
      * assert (Hx : dm_slot d <> None) by (apply Hdr; right; by do 2 eexists).
        assert (Hy : sl <> None) by (intros ->; destruct ac, (dm_slot d); done).
        destruct sl as [p|]; [|done]. split; [done|]. cbn. by right; right.
      * destruct sl as [p|]; cbn.
        -- split; [done|left]. split; [exists p; left|by eexists].
        -- split; [done|right]. split; [|done].
           intros [q [Hq|Hq]%elem_of_cons]; [done|]. destruct ac; [by apply list_elem_of_singleton in Hq|by apply elem_of_nil in Hq].
  - split; cbn; try done.
    + by eapply moves_notice.
    + intros He. specialize (Hf He). destruct (dm_failure d); [destruct Hf as [q Hq]; exists q; by right|].
      intros [q [Hq|Hq]%elem_of_cons]; [done|]. apply Hf. by exists q.
    + intros e He. destruct (Herr e He) as [[q Hq]|[(q & y & k & Hq)|Hx]]; [left; exists q; by right|right; left|by right; right].
      exists q, y, k. by right.
    + intros g c ep He. rewrite Hh. by eapply Hrun.
  - split; cbn; done.
Qed.
Lemma turns_balanced stored f l d : turns (begin_daemon stored f) l d -> balanced l d.
Proof. induction 1 as [|l d1 n d2 _ IH Ht]; [apply begin_balanced|]. by eapply turn_balanced. Qed.

(** ** What was allowed *)

(** A capture pending or settled was accepted under settings that allowed it, and nothing that
    decides about captures has changed between. *)
Definition quiet_entry (x : entry) : Prop := match x with Noted _ => True | _ => False end.
Definition allowed_since (p : PendingCapture) (l : list entry) (c0 : ConfigData.t) (l3 : list entry) : Prop :=
  (exists l4, l = l3 ++ Accepted p c0 :: l4) /\ Forall quiet_entry l3 /\ allows_materialized c0 (pd_capture p) = true.
Definition cleared (p : PendingCapture) (c : ConfigData.t) (l : list entry) : Prop :=
  allows_materialized c (pd_capture p) = true /\
  exists c0 l3, allowed_since p l c0 l3 /\ same_privacy c c0 /\
    forall t, Noted (Installed t) ∈ l3 -> same_privacy (config t) c0.
Fixpoint all_cleared (l : list entry) : Prop :=
  match l with
  | [] => True
  | x :: l => match x with Settled p (Kept _) c => cleared p c l | _ => True end /\ all_cleared l
  end.
Lemma all_cleared_app l k : all_cleared (l ++ k) -> all_cleared k.
Proof. induction l as [|x l IH]; cbn; [done|]. by intros [_ ?%IH]. Qed.
Lemma quiet_all_cleared n l : Forall (fun x => match x with Settled _ (Kept _) _ => False | _ => True end) n ->
  all_cleared l -> all_cleared (n ++ l).
Proof. induction 1 as [|x n Hx Hn IH]; cbn; [done|]. intros Hl. split; [by destruct x as [| |? []|]|by apply IH]. Qed.

Record vetted (l : list entry) (d : Daemon) : Prop := {
  vt_pending p : dm_slot d = Some p -> exists c0 l3, allowed_since p l c0 l3 /\
    exists n3 n4, notices_in l = n3 ++ Attempting ME c0 (pd_epoch p) :: n4 /\
      forall t, Noted (Installed t) ∈ l3 -> Installed t ∈ n3;
  vt_running g c ep : dm_phase d = Running g c ep -> exists n2 n1, notices_in l = n2 ++ Attempting ME c ep :: n1;
  vt_settled : all_cleared l;
}.
Lemma allowed_since_noted p l c0 l3 n : Forall quiet_entry n -> allowed_since p l c0 l3 -> allowed_since p (n ++ l) c0 (n ++ l3).
Proof.
  intros Hn [[l4 ->] [Hq Ha]]. split; [exists l4; by rewrite app_assoc|]. split; [by apply Forall_app|done].
Qed.
Lemma installed_notice t l : Noted (Installed t) ∈ l -> Installed t ∈ notices_in l.
Proof. intros H. unfold notices_in. apply list_elem_of_omap. by exists (Noted (Installed t)). Qed.
(** Only notices are added while a capture stays pending. *)
Lemma vetted_more l d d' n : vetted l d -> Forall quiet_entry n -> (dm_slot d' = None \/ dm_slot d' = dm_slot d) ->
  (forall g c ep, dm_phase d' = Running g c ep -> exists n2 n1, notices_in (n ++ l) = n2 ++ Attempting ME c ep :: n1) ->
  vetted (n ++ l) d'.
Proof.
  intros [Hp Hr Hs] Hn Hsl Hrun. split; [|done|].
  - intros p Hq. destruct Hsl as [Hsl|Hsl]; [congruence|]. rewrite Hsl in Hq.
    destruct (Hp p Hq) as (c0 & l3 & Ha & n3 & n4 & He & Hi). exists c0, (n ++ l3). split; [by apply allowed_since_noted|].
    exists (notices_in n ++ n3), n4. split; [by rewrite notices_app, He, app_assoc|].
    intros t [Ht|Ht]%elem_of_app; apply elem_of_app; [left; by apply installed_notice|right; by apply Hi].
  - apply quiet_all_cleared; [|done]. eapply Forall_impl; [exact Hn|]. by intros [].
Qed.
Lemma vetted_empty l d d' n : vetted l d -> dm_slot d' = None -> (forall g c ep, dm_phase d' <> Running g c ep) ->
  all_cleared (n ++ l) -> vetted (n ++ l) d'.
Proof. intros _ Hs Hp Ha. split; [by intros p ?; congruence|intros g c ep He; by destruct (Hp g c ep)|done]. Qed.
Lemma joined_slot g rr o slot w f d : dm_slot (joined g signal rr (Some o) slot w f d) = slot.
Proof. unfold joined. destruct g; [done|]. by destruct o. Qed.
Lemma joined_phase g rr o slot w f d h c ep : dm_phase (joined g signal rr o slot w f d) <> Running h c ep.
Proof. unfold joined. destruct g; cbn; [by case_match|]. by destruct (after_running _ _ _). Qed.
(** What an attempt keeps was cleared. *)
Lemma tick_cleared l d g c ep e : balanced l d -> vetted l d -> dm_phase d = Running g c ep ->
  all_cleared (tick_entries c (tick e c ep (dm_slot d) (dm_files d)) ++ l).
Proof.
  intros Hb [Hpe Hru Hse] Hp. pose proof (bl_running _ _ Hb _ _ _ Hp) as Hh. destruct (bl_moves _ _ Hb) as [st Hm].
  destruct (run_ok _ _ _ Hm) as [o [Hs _ Ho _ _]]. pose proof (sole_here _ _ _ _ Hs Hh) as ->. destruct Ho as [Hc He].
  destruct (tick_cases e c ep (dm_slot d) (dm_files d)) as [(_ & _ & H1 & H2 & _)|(p & Hsl & Hf)].
  { unfold tick_entries. by rewrite H1, H2. }
  destruct (persist_pending e c ep p (dm_files d)).1 as [fate|] eqn:Epp; destruct Hf as (_ & Hf & _); unfold tick_entries; rewrite Hf.
  2:{ cbn [app]. destruct Hsl as [[_ ->]|(_ & -> & _)]; by cbn. }
  cbn [app all_cleared]. split; [|destruct Hsl as [[_ ->]|(_ & -> & _)]; by cbn].
  destruct fate as [r| |]; [|done..]. apply persist_kept in Epp as [Hep Hal]. split; [done|].
  destruct Hsl as [[Hsl ->]|(_ & -> & Hac)].
  - destruct (Hpe p Hsl) as (c0 & l3 & Ha & n3 & n4 & Hn & Hi). exists c0, l3. split; [done|].
    rewrite Hn in Hm. destruct (unchanged_since _ _ _ _ _ _ _ Hm) as [Hs1 Hs2]; [congruence|].
    rewrite Hc. split; [done|]. intros t Ht. by apply Hs2, Hi.
  - exists c, []. split; [|split; [reflexivity|by intros t ?%elem_of_nil]].
    split; [by exists l|]. split; [constructor|]. by apply accept_allowed in Hac.
Qed.
Lemma turn_vetted l d n d' : balanced l d -> vetted l d -> turn d n d' -> vetted (n ++ l) d'.
Proof.
  intros Hb Hv Ht. pose proof Hv as [Hpe Hru Hse].
  inversion Ht as [av tm ch d0 Hp Hav Hw Hc|rr d0 Hp Hsl|d0 Hp|p d0 Hp Hsl|d0 Hp Hsl|g c ep w d0 Hp Hmv|g rr w d0 Hp Hmv
    |g c ep rr w e d0 Hp Hmv|g c ep rr w e sl ac f d0 Hp Hmv Hpan|x w d0 Hmv Hh|f d0]; subst.
  1-5: apply (vetted_more l d); try done; cbn; try (by right); by rewrite ?Hp.
  - apply (vetted_more l d); [done|by repeat constructor|by right|]. intros h c' ep' [= _ <- <-]. by exists [], (notices_in l).
  - eapply vetted_empty; [done|apply joined_slot|apply joined_phase|]. apply quiet_all_cleared; [|done].
    destruct (dm_slot d); by repeat constructor.
  - pose proof (tick_cleared l d g c ep e Hb Hv Hp) as Hcl. fold t in Hcl.
    destruct (tick_cases e c ep (dm_slot d) (dm_files d)) as [(_ & Hs & _)|(p & Hsl & Hf)].
    { eapply vetted_empty; [done|by rewrite joined_slot|apply joined_phase|]. by cbn. }
    destruct (persist_pending e c ep p (dm_files d)).1 as [fate|]; destruct Hf as (Hs & Hf & _).
    { eapply vetted_empty; [done|by rewrite joined_slot|apply joined_phase|]. by cbn. }
    split; [|intros h c' ep' Hph; by apply joined_phase in Hph|by cbn].
    rewrite joined_slot. fold t in Hs, Hf. intros q Hq. assert (q = p) as -> by congruence.
    unfold tick_entries. rewrite Hf. destruct Hsl as [[Hsl Hac]|(Hsl & Hac & Hok)]; fold t in Hac; rewrite Hac; cbn [app].
    + destruct (Hpe p Hsl) as (c0 & l3 & Ha & n3 & n4 & Hn & Hi). exists c0, (Noted (Ended ME false) :: l3).
      split; [apply (allowed_since_noted p l c0 l3 [_]); [by repeat constructor|done]|].
      exists (Ended ME false :: n3), n4. split; [change (notices_in (?a :: ?k)) with (notices_in ([a] ++ k)); by rewrite notices_app, Hn|].
      intros t' [Ht'|Ht']%elem_of_cons; [done|]. right. by apply Hi.
    + exists c, [Noted (Ended ME false)]. apply accept_allowed in Hok as [Hep Hal].
      split; [split; [by exists l|]; split; [by repeat constructor|done]|].
      destruct (Hru _ _ _ Hp) as (n2 & n1 & Hn). rewrite Hep. exists (Ended ME false :: n2), n1.
      split; [change (notices_in (Noted (Ended ME false) :: Accepted p c :: l)) with (Ended ME false :: notices_in l); by rewrite Hn|].
      intros t' Ht'. by apply list_elem_of_singleton in Ht'.
  - destruct (panicked_account _ _ _ _ _ _ _ _ Hpan) as [Hac Hno]. destruct g.
    + assert (Hx : dm_slot d <> None) by (apply (bl_draining _ _ Hb); right; by do 2 eexists).
      assert (ac = None) as -> by (by destruct Hno). assert (Hsl : sl = dm_slot d) by (by destruct sl, (dm_slot d); simplify_eq/=).
      apply (vetted_more l d); [done|destruct sl; by repeat constructor|by right|]. intros h c' ep' Hph. by apply joined_phase in Hph.
    + eapply vetted_empty; [done|done|apply joined_phase|]. apply quiet_all_cleared; [|done].
      destruct sl, ac; by repeat constructor.
  - apply (vetted_more l d); [done|by repeat constructor|by right|]. intros h c' ep' Hph.
    destruct (Hru _ _ _ Hph) as (n2 & n1 & Hn). exists (x :: n2), n1.
    change (notices_in ([Noted x] ++ l)) with (x :: notices_in l). by rewrite Hn.
  - apply (vetted_more l d); [done|done|by right|]. cbn. exact Hru.
Qed.
Lemma turns_vetted stored f l d : turns (begin_daemon stored f) l d -> vetted l d.
Proof.
  induction 1 as [|l d1 n d2 Ht IH Hn]; [by split|]. eapply turn_vetted; [by eapply turns_balanced|done|done].
Qed.
End Accounts.

(** ** Why an attempt is repeated *)

Section Retries.
Context {PC : PayloadCodecs} {MJ : MetadataJson} {FJ : FileJson} {CC : CredentialCodecs} {DG : Digest}
        {K : ItemKey} {UU : Uuids} {OB : OfferBytes} {SI : SourceIcons}.

(** What the history itself refuses is not worth another attempt. *)
Definition refusal (e : StoreError) : Prop := e = Sqlite ConstraintViolation \/ e = InvalidSchema \/ e = NotFound.
Lemma bind_err {E A B} (r : result E A) (f : A -> result E B) e :
  mbind f r = Err e -> r = Err e \/ exists a, r = Ok a /\ f a = Err e.
Proof. destruct r; cbn; [right; by eexists|by left; congruence]. Qed.
Lemma map_err_err {E F A} (g : E -> F) (r : result E A) e : map_err g r = Err e -> exists x, r = Err x /\ e = g x.
Proof. destruct r as [a|x]; cbn; [done|]. intros [= <-]. by exists x. Qed.
Lemma normalise_err app ct at_ m s e : normalise app ct at_ m s = Err e -> refusal e.
Proof.
  unfold normalise. destruct (parsed_metadata m ct) as [p|]; [|done]. destruct (source_app_icon p) as [i|]; [|done].
  destruct (non_empty app); cbn; [done|]. destruct (icon_png i); cbn; [done|]. intros [= <-]. by right; left.
Qed.
Lemma refresh_err r p creds text s e : refresh_privacy r p creds text s = Err e -> refusal e.
Proof.
  unfold refresh_privacy. cbv zeta. destruct (_ && _); [done|]. destruct (upsert_row _ s); [done|].
  intros [= <-]. by left.
Qed.
Lemma insert_err {E} (of_store : StoreError -> E) item text seal s x :
  insert_or_bump_late_sealed of_store item text seal s = Err x ->
  seal = Err x \/ exists e, x = of_store e /\ refusal e.
Proof.
  unfold insert_or_bump_late_sealed. intros [(e & He & ->)%map_err_err|([[m icon] s1] & _ & H)]%bind_err.
  { right. exists e. split; [done|]. by eapply normalise_err. }
  destruct (newest_live_with_representation _ _ _ s1) as [ex|].
  - right. apply map_err_err in H as (e & He & ->). exists e. split; [done|]. revert He. unfold fold_into.
    destruct (bump_in_tx _ _ _ _ _ _) as [b s2]. intros [He|([? ?] & _ & He)]%bind_err; [by eapply refresh_err|done].
  - unfold insert_new in H. apply bind_err in H as [H|([nonce ct] & _ & H)]; [by left|right]. revert H.
    destruct (match _ with Some t => insert_fts_in_tx _ t _ s1 | None => (None, s1) end) as [k s2].
    destruct (insert_row _ s2); [done|]. destruct (find_in_bucket _ _ _ _) as [ex|].
    + intros (e & He & ->)%map_err_err. exists e. split; [done|]. revert He. unfold fold_after_race.
      destruct (bump_in_tx _ _ _ _ _ _) as [b s3]. intros [He|([? ?] & _ & He)]%bind_err; [by eapply refresh_err|done].
    + intros [= <-]. eexists. split; [done|by left].
Qed.
(** An attempt is worth repeating exactly when the storage failed it for the moment. *)
Definition lasting (x : IngestError) : Prop := forall e, x = Storage e -> refusal e.
Lemma refused_lasting (y : IngestError) (b : bool) x :
  refuse_if b y = @Err IngestError unit x -> (forall e, y <> Storage e) -> lasting x.
Proof. destruct b; cbn; [|done]. intros [= <-] H e He. by destruct (H e). Qed.
Lemma text_lasting d content ct at_ app name m settings w s x :
  ingest_text d content ct at_ app name m settings w s = Err x -> lasting x.
Proof.
  unfold ingest_text. intros [H|(? & _ & [H|(? & _ & [H|(json & _ & [H|([[? ?] ?] & _ & H)]%bind_err)]%bind_err)]%bind_err)]%bind_err.
  - by eapply refused_lasting.
  - by eapply refused_lasting.
  - apply encode_metadata_error in H as ->. by intros e [=].
  - apply insert_err in H as [H|(e & -> & He)]; [|by intros e' [= <-]]. apply map_err_err in H as (? & _ & ->). by intros e [=].
  - done.
Qed.
Lemma binary_lasting d b ct at_ app name m settings wall s x :
  ingest_binary_into_with_capture_source_metadata d b ct at_ app name m settings wall s = Err x -> lasting x.
Proof.
  unfold ingest_binary_into_with_capture_source_metadata, insert_binary.
  intros [H|([? ?] & _ & H)]%bind_err; [|done]. revert H.
  intros [H|(? & _ & [H|(? & _ & [H|(? & _ & [H|(json & _ & [H|(ct' & _ & H)]%bind_err)]%bind_err)]%bind_err)]%bind_err)]%bind_err.
  - by eapply refused_lasting.
  - by eapply refused_lasting.
  - by eapply refused_lasting.
  - apply encode_metadata_error in H as ->. by intros e [=].
  - apply map_err_err in H as (? & _ & ->). by intros e [=].
  - apply map_err_err in H as (e & H & ->). intros e' [= <-]. unfold insert_or_bump in H.
    apply bind_err in H as [H|([[? ?] ?] & _ & H)]; [|done]. by apply insert_err in H as [[=]|(e1 & -> & He)].
Qed.
(** Where the errors of an attempt come from. *)
Definition faulted (e : Env) (x : IngestError) : Prop :=
  exists y, x = Storage y /\ (ev_write_fault e = Some y \/ ev_read_fault e = Some y).
Lemma kept_err {A} early e (r : result IngestError (A * Store)) f x :
  (forall y, r = Err y -> lasting y) -> (forall y, early y = true -> lasting y) ->
  (kept (through_storage early (ev_write_fault e) r) f).1 = Err x -> lasting x \/ faulted e x.
Proof.
  intros Hr He. unfold kept, through_storage. destruct (ev_write_fault e) as [y|] eqn:Ef.
  - assert (Hf : faulted e (Storage y)) by (exists y; split; [done|by left]).
    destruct r as [[a s]|z]; cbn; [intros [= <-]; by right|].
    destruct (early z) eqn:Ez; cbn; intros [= <-]; [left; by apply He|by right].
  - destruct r as [[a s]|z]; cbn; [done|]. intros [= <-]. left. by apply Hr.
Qed.
Lemma offer_lasting nonce iid t m at_ app name context explicit x :
  offer_item nonce iid t m at_ app name context explicit = Err x -> forall e, x <> FileTransferError.Storage e.
Proof.
  unfold offer_item. cbv zeta. intros [H|(j & _ & [H|(d & _ & [H|(c & _ & H)]%bind_err)]%bind_err)]%bind_err.
  - destruct (to_json _ _); [done|]. by injection H as <-.
  - destruct (serde_transfer_bytes t); [done|]. by injection H as <-.
  - by apply map_err_err in H as (? & _ & ->).
  - done.
Qed.
Lemma put_refused item ct reference size stamp b f e :
  put_reference item ct reference size stamp b f = Err e -> e = Sqlite ConstraintViolation.
Proof.
  unfold put_reference. destruct (if b then _ else None) as [r|].
  - destruct (r_ciphertext r); cbn; [|by intros [= <-]]. destruct (upsert_row _ _); cbn; [done|by intros [= <-]].
  - destruct (insert_row _ _); cbn; [|by intros [= <-]]. destruct (fl_references f !! n_id item); [by intros [= <-]|done].
Qed.
Lemma publish_err e settings r m c at_ f x : (publish_pending e settings r m c at_ f).1 = Err x -> lasting x \/ faulted e x.
Proof.
  unfold publish_pending. destruct (publish_reference _ _ _ _ _ _ _ _ _ _ _ _ _ _ _) as [res f'] eqn:Ep. cbn.
  intros (y & -> & ->)%map_err_err. revert Ep. unfold publish_reference. cbv zeta.
  destruct (_ ← check_limit _ _; _) as [[item ct]|z] eqn:Eo.
  - unfold insert_file_reference. destruct (ev_write_fault e) as [w|] eqn:Ew.
    { intros [= <- _]. right. exists w. split; [done|by left]. }
    destruct (put_reference _ _ _ _ _ _ _) as [[[id b] f1]|z] eqn:Eput.
    + destruct (ev_read_fault e) as [w|] eqn:Er; [intros [= <- _]; right; exists w; split; [done|by right]|].
      destruct (Items.get id (fl_store f1)) as [row|]; cbn; [destruct b; by intros [=]|].
      intros [= <- _]. left. intros k [= <-]. by right; right.
    + intros [= <- _]. left. intros k [= <-]. left. by eapply put_refused.
  - intros [= <- _]. left. intros k Hk. assert (Hn : forall k, z <> FileTransferError.Storage k).
    { apply bind_err in Eo as [Eo|(? & _ & Eo)]; [|by eapply offer_lasting]. unfold check_limit in Eo.
      destruct (_ <? _); cbn in Eo; [|done]. by injection Eo as <-. }
    destruct z; try done. by destruct (Hn e0).
Qed.
Lemma ingest_err e settings c at_ f x : (ingest_capture e settings c at_ f).1 = Err x -> lasting x \/ faulted e x.
Proof.
  assert (Hempty : forall y, @Err IngestError Ingested Empty = Err y -> lasting y \/ faulted e y) by (intros y [= <-]; left; by intros ? [=]).
  assert (Hb : forall b ct, (ingest_binary_capture e settings b ct c at_ f).1 = Err x -> lasting x \/ faulted e x).
  { intros b ct. apply kept_err; [intros y; apply binary_lasting|]. by intros [] H k [=]. }
  unfold ingest_capture. destruct (cp_binary c) as [b|], (cp_path c) as [path|], (cp_file c) as [m|]; try apply Hempty.
  - destruct (_ && _); [apply Hb|apply Hempty].
  - destruct (_ && _); [apply Hb|apply Hempty].
  - destruct (_ && _); [|apply Hempty]. destruct (spelled ← _; _) as [r|y] eqn:E; [apply publish_err|].
    cbn. intros [= <-]. left. apply bind_err in E as [E|(sp & _ & E)].
    + destruct path; [done|]. injection E as <-. by intros k [=].
    + apply map_err_err in E as (z & E & ->). intros k Hk. assert (Hn : forall k, z <> FileTransferError.Storage k).
      { unfold prepare in E. apply bind_err in E as [E|([size stamp] & _ & E)].
        - destruct (str_starts_with _ _); apply bind_err in E as [E|(? & _ & E)]; try done.
          + by injection E as <-.
          + apply map_err_err in E as ([] & _ & ->); done.
          + apply bind_err in E as [E|(? & _ & ?)]; [|done]. destruct (negb _); [|done]. by injection E as <-.
        - apply bind_err in E as [E|(? & _ & ?)]; [|done]. destruct (_ <? _); [|done]. by injection E as <-. }
      destruct z; try done. by destruct (Hn e0).
  - destruct (_ && _); [|apply Hempty]. apply kept_err; [|by intros [] H k [=]].
    intros y. unfold ingest_into_with_capture_source_metadata_with_current_retention.
    intros [H|([[? ?] ?] & _ & H)]%bind_err; [|done]. by eapply text_lasting.
Qed.
Lemma persist_retried e c ep p f : (persist_pending e c ep p f).1 = None ->
  exists y, (ev_write_fault e = Some y \/ ev_read_fault e = Some y) /\ retryable_storage_error (Storage y) = true.
Proof.
  unfold persist_pending. destruct (_ || _); [done|].
  destruct (match pd_reference p, cp_file (pd_capture p) with
            | Some r, Some m => publish_pending e c r m (pd_capture p) (pd_created_at p) f
            | _, _ => ingest_capture e c (pd_capture p) (pd_created_at p) f end) as [r f'] eqn:Er.
  assert (Hr : forall x, r = Err x -> lasting x \/ faulted e x).
  { intros x ->. destruct (pd_reference p), (cp_file (pd_capture p)); (apply (f_equal fst) in Er; cbn in Er);
      first [by eapply publish_err|by eapply ingest_err]. }
  destruct r as [i|x]; [done|]. intros H. assert (Hx : retryable_storage_error x = true) by (by destruct x; repeat case_match).
  destruct (Hr x eq_refl) as [Hl|(y & -> & Hy)]; [|by exists y].
  destruct x as [| | | |k]; try done. destruct (Hl k eq_refl) as [->|[->| ->]]; done.
Qed.
End Retries.

(** ** What the loop promises *)

Section Promises.
Context {PC : PayloadCodecs} {MJ : MetadataJson} {FJ : FileJson} {CC : CredentialCodecs} {DG : Digest}
        {K : ItemKey} {UU : Uuids} {OB : OfferBytes} {SI : SourceIcons} {SJ : SettingsJson} (signal : bool).

(** C4: an accepted capture is never dropped silently, stored twice or overtaken.  Whatever the
    clipboard, the storage, the settings and the other users of them do, and wherever an attempt
    panics: the captures that were accepted are, in the same order, the one still pending and
    those of which exactly one thing became - stored, cancelled by a decision, failed for good,
    or lost; and when the loop ends well, none is pending and none was ever lost, so that a loss
    is always reported as the error it ends with. *)
Theorem accepted_captures_are_accounted_for stored f l d :
  turns signal (begin_daemon stored f) l d ->
  accepted_in l = option_list (dm_slot d) ++ settled_in l /\
  (dm_phase d = Stopped (Ok tt) -> dm_slot d = None /\ ~ lost l) /\
  (forall e, dm_phase d = Stopped (Err e) -> lost l \/ failed l \/ dm_slot d <> None).
Proof.
  intros H%turns_balanced. split_and!; [by apply bl_slot in H| |by apply (bl_err _ _ H)].
  intros Hp. destruct (bl_ok _ _ H Hp) as [Hs Hf]. split; [done|].
  pose proof (bl_failure _ _ H ltac:(by rewrite Hp)) as Hl. by rewrite Hf in Hl.
Qed.

(** C3: what reaches the history was allowed to.  A stored capture passed the policy - its shape,
    its size, its secrecy, private mode, the excluded applications - under the settings in force
    when it was accepted and again under those in force when it was stored; and although both may
    be many failed attempts apart, every settings installed between them had the private mode, the
    excluded applications and the choices to skip secret and transient content that it was accepted
    under: a change of one of these four, even if it was taken back, cancels the capture.  A change
    of a size limit in between does not; the limit counts at the two ends. *)
Theorem only_allowed_captures_are_stored stored f l2 p r c l1 d :
  turns signal (begin_daemon stored f) (l2 ++ Settled p (Kept r) c :: l1) d ->
  allows_materialized c (pd_capture p) = true /\
  exists c0 l3 l4, l1 = l3 ++ Accepted p c0 :: l4 /\ Forall quiet_entry l3 /\
    allows_materialized c0 (pd_capture p) = true /\ same_privacy c c0 /\
    forall t, Noted (Installed t) ∈ l3 -> same_privacy (config t) c0.
Proof.
  intros H%turns_vetted. apply vt_settled, all_cleared_app in H as [(Ha & c0 & l3 & ([l4 He] & Hq & Ha0) & Hs & Hi) _].
  split; [done|]. by exists c0, l3, l4.
Qed.

(** C20: a pending capture is neither forgotten nor kept waiting for the next copy: the loop's next
    wait ends by its timer whether or not the clipboard announces its changes, and the attempt
    that follows settles the capture, whatever the settings, the history and the file system have
    become, unless the storage fails it once more with a transient error. *)
Theorem pending_captures_are_retried stored f l d p :
  turns signal (begin_daemon stored f) l d -> dm_phase d = Idle -> dm_slot d = Some p ->
  (forall available, wakes_on_timer available (dm_retry d) = true) /\
  (forall available changed, (available = true -> signal = true) ->
     is_some (dm_slot d) || changed = true /\ turn signal d [] (in_phase (Spawned false) d)) /\
  (forall e c epoch files,
     (forall y, ev_write_fault e = Some y \/ ev_read_fault e = Some y -> retryable_storage_error (Storage y) = false) ->
     tk_slot (tick e c epoch (Some p) files) = None).
Proof.
  intros H%turns_balanced Hp Hs.
  assert (Hr : dm_retry d = true) by (apply (bl_retry _ _ H); [done|by rewrite Hs]).
  assert (Hw : forall available, wakes_on_timer available (dm_retry d) = true).
  { intros a. unfold wakes_on_timer. rewrite Hr. apply orb_true_r. }
  split_and!; [done| |].
  - intros a ch Ha. rewrite Hs. split; [done|].
    apply (turn_wake signal a true ch); [done|done|apply Hw|by rewrite Hs].
  - intros e c epoch files He. destruct (tick_cases e c epoch (Some p) files) as [(? & _)|(q & [[[= <-] _]|([=] & _)] & Hf)]; [done|].
    destruct (persist_pending e c epoch p files).1 as [fate|] eqn:E; [by destruct Hf|].
    apply persist_retried in E as (y & Hy & Hx). rewrite (He y Hy) in Hx. done.
Qed.
End Promises.

(** ** Witnesses *)

Module CaptureDemo.
#[export] Instance offers : OfferBytes := {| serde_transfer_bytes _ := None |}.
#[export] Instance icons : SourceIcons := {| resolve_desktop _ := None |}.
#[export] Instance codecs : PayloadCodecs := HistoryDemo.codecs.
#[export] Instance json : MetadataJson := HistoryDemo.json.
#[export] Instance files : FileJson := IngestDemo.files.
#[export] Instance uuids : Uuids := IngestDemo.uuids.
#[export] Instance credentials : CredentialCodecs := Credentials.no_codecs.
#[export] Instance digest : Digest := BinaryDemo.digest.
#[export] Instance key : ItemKey := BinaryDemo.key.
#[export] Instance settings : SettingsJson := AuthorityDemo.json.
Definition none : Files := {| fl_store := empty_store; fl_references := ∅ |}.
Definition env (fault : option StoreError) : Env :=
  {| ev_poll := Some (text_capture "alpha beta"); ev_now := 5000; ev_wall := 5000; ev_draw := IngestDemo.draw;
     ev_version := ""; ev_stat _ := Err StatFailed; ev_write_fault := fault; ev_read_fault := None |}.
Definition busy : Env := env (Some (Sqlite DatabaseBusy)).
Definition free : Env := env None.
Definition pending : PendingCapture :=
  {| pd_reference := None; pd_capture := text_capture "alpha beta"; pd_created_at := 5000; pd_epoch := 0 |}.

(** One attempt: the authority is taken, the clipboard read, the authority given back. *)
Definition taken (w : World) : World :=
  holding ME (Attempt default_config 0) (set_applying true (w_service w)) (w_gate w) w.
Definition given (w : World) : World := without ME false (w_service w) (w_gate w) w.
Definition attempted (e : Env) (d : Daemon) : Daemon :=
  let t := tick e default_config 0 (dm_slot d) (dm_files d) in
  let d := in_phase (Running false default_config 0) (in_world (taken (dm_world d)) (in_phase (Spawned false) d)) in
  joined false true false (Some (tk_outcome t)) (tk_slot t) (given (dm_world d)) (tk_files t) d.
Definition entries (e : Env) (d : Daemon) : list entry :=
  Noted (Ended ME false) :: tick_entries default_config (tick e default_config 0 (dm_slot d) (dm_files d))
  ++ [Noted (Attempting ME default_config 0)].
Lemma attempt l d e : turns true (begin_daemon (Ok None) none) l d ->
  dm_phase d = Idle -> wakes_on_timer true (dm_retry d) = true -> w_holders (dm_world d) !! ME = None ->
  enter_apply (w_service (dm_world d)) (w_gate (dm_world d)) = Some (Ok (set_applying true (w_service (dm_world d))), w_gate (dm_world d)) ->
  authority_snapshot (set_applying true (w_service (dm_world d))) = Some (default_config, 0) ->
  turns true (begin_daemon (Ok None) none) (entries e d ++ l) (attempted e d).
Proof.
  intros Ht Hp Hw Hh He Hs.
  assert (E : entries e d ++ l = (Noted (Ended ME false) :: tick_entries default_config (tick e default_config 0 (dm_slot d) (dm_files d)))
                ++ [Noted (Attempting ME default_config 0)] ++ [] ++ l).
  { unfold entries. cbn [app]. by rewrite <- app_assoc. }
  rewrite E. eapply turns_cons; [eapply turns_cons; [exact (turns_cons _ _ _ _ [] _ Ht (turn_wake true true true true d Hp (fun _ => eq_refl) Hw (orb_true_r _)))|]|].
  - apply (turn_begin true false default_config 0 (taken (dm_world d))); [done|].
    apply (move_attempt ME _ _ default_config 0 (dm_world d) Hh He Hs).
  - apply (turn_done true false default_config 0 false (given (taken (dm_world d))) e
             (in_phase (Running false default_config 0) (in_world (taken (dm_world d)) (in_phase (Spawned false) d)))); [done|].
    apply (move_end ME default_config 0 false (taken (dm_world d))). apply lookup_insert_eq.
Qed.
Definition waiting : Daemon := attempted busy (begin_daemon (Ok None) none).
Definition waiting_log : list entry := entries busy (begin_daemon (Ok None) none).
Lemma is_waiting : turns true (begin_daemon (Ok None) none) waiting_log waiting.
Proof.
  unfold waiting, waiting_log. rewrite <- (app_nil_r (entries _ _)). by apply attempt; [constructor|..].
Qed.
Definition stored : Daemon := attempted free waiting.
Definition stored_log : list entry := entries free waiting ++ waiting_log.
Lemma is_stored : turns true (begin_daemon (Ok None) none) stored_log stored.
Proof. apply attempt; [exact is_waiting|vm_compute; reflexivity..]. Qed.
Definition stopped : Daemon := in_phase (Stopped (Ok tt)) (in_phase Draining stored).
Lemma is_stopped : turns true (begin_daemon (Ok None) none) stored_log stopped.
Proof.
  apply (turns_cons _ _ _ (in_phase Draining stored) [] _).
  - apply (turns_cons _ _ _ stored [] _); [exact is_stored|]. apply turn_shutdown. vm_compute. reflexivity.
  - assert (E : dm_failure (in_phase Draining stored) = None) by (vm_compute; reflexivity).
    pose proof (turn_stop true (in_phase Draining stored) eq_refl ltac:(vm_compute; reflexivity)) as H. rewrite E in H. exact H.
Qed.
End CaptureDemo.
#[local] Existing Instances CaptureDemo.offers CaptureDemo.icons CaptureDemo.codecs CaptureDemo.json CaptureDemo.files
  CaptureDemo.uuids CaptureDemo.credentials CaptureDemo.digest CaptureDemo.key CaptureDemo.settings.
Lemma accepted_captures_are_accounted_for_witness :
  accepted_in CaptureDemo.stored_log = [CaptureDemo.pending] /\
  accepted_in CaptureDemo.stored_log = settled_in CaptureDemo.stored_log /\ ~ lost CaptureDemo.stored_log.
Proof.
  destruct (accepted_captures_are_accounted_for true _ _ _ _ CaptureDemo.is_stopped) as (H1 & H2 & _).
  split; [vm_compute; reflexivity|]. destruct (H2 eq_refl) as [H3 H4]. split; [|exact H4].
  rewrite H1, H3. reflexivity.
Defined.
Lemma only_allowed_captures_are_stored_witness :
  exists r l1, CaptureDemo.stored_log = [Noted (Ended ME false)] ++ Settled CaptureDemo.pending (Kept r) default_config :: l1 /\
    allows_materialized default_config (pd_capture CaptureDemo.pending) = true.
Proof.
  assert (E : exists r, tk_fate (tick CaptureDemo.free default_config 0 (dm_slot CaptureDemo.waiting) (dm_files CaptureDemo.waiting))
                = Some (CaptureDemo.pending, Kept r) /\
              tk_accepted (tick CaptureDemo.free default_config 0 (dm_slot CaptureDemo.waiting) (dm_files CaptureDemo.waiting)) = None)
    by (eexists; split; vm_compute; reflexivity).
  destruct E as (r & E1 & E2). exists r, (Noted (Attempting ME default_config 0) :: CaptureDemo.waiting_log).
  assert (Hl : CaptureDemo.stored_log = [Noted (Ended ME false)] ++ Settled CaptureDemo.pending (Kept r) default_config
                 :: Noted (Attempting ME default_config 0) :: CaptureDemo.waiting_log).
  { unfold CaptureDemo.stored_log, CaptureDemo.entries, tick_entries. rewrite E1, E2. reflexivity. }
  split; [exact Hl|]. pose proof CaptureDemo.is_stored as Hs. rewrite Hl in Hs.
  exact (proj1 (only_allowed_captures_are_stored true _ _ _ _ _ _ _ _ Hs)).
Defined.
Lemma pending_captures_are_retried_witness :
  dm_slot CaptureDemo.waiting = Some CaptureDemo.pending /\ wakes_on_timer true (dm_retry CaptureDemo.waiting) = true /\
  tk_slot (tick CaptureDemo.free default_config 0 (Some CaptureDemo.pending) (dm_files CaptureDemo.waiting)) = None.
Proof.
  assert (E : dm_slot CaptureDemo.waiting = Some CaptureDemo.pending) by (vm_compute; reflexivity).
  destruct (pending_captures_are_retried true _ _ _ _ CaptureDemo.pending CaptureDemo.is_waiting) as (H1 & _ & H3);
    [vm_compute; reflexivity|exact E|].
  split; [exact E|]. split; [apply H1|]. apply H3. intros y [Hy|Hy]; discriminate Hy.
Defined.
